(* ===== verification/_CoqProject ===== *)
-Q . S2P
Prelude.v
Ordered.v
Text.v
Lineage.v
SoeValue.v
SoeRecord.v
SoePortfolio.v
SoeEconomics.v
SoeEconomicsFacts.v
SoeGates.v
SoeGatesFacts.v
SoeRank.v
SoeAllocate.v
SoeSamples.v
SoeEconomicsProps.v
SoeGatesProps.v
SoeRankProps.v
SoeAllocateProps.v
Bytes.v
Substr.v
Json.v
Untrusted.v
Seal.v
SealProps.v
Base58.v
SolanaKeys.v
Secrets.v
Solana.v
SolanaProps.v
SolanaIx.v
A2aModel.v
A2aModelProps.v
A2aStore.v
A2aStoreProps.v
A2aServer.v
A2aServerProps.v
IpAddr.v
Scope.v
ScopeProps.v
SourceRecord.v
SourceAsof.v
SourceAsofProps.v
Tz.v
TzProps.v
Schedule.v
ScheduleProps.v
Sessions.v
EvidenceCoverage.v
F64.v
F64Facts.v
Observation.v
Book.v
Ledger.v
LedgerProps.v
Market.v
Risk.v
RiskProps.v
RiskState.v
Cost.v
Paper.v
Backoff.v
Plan.v
PaperProps.v
Exits.v
Instrument.v
Exec.v
PaperExec.v
PaperExecProps.v
PaperStore.v
PaperStoreProps.v
WeekendFade.v
WeekendFadeProps.v
PlanProps.v
Retry.v
Executor.v
ExecutorProps.v
Replan.v
ReplanProps.v
