(* ===== verification/Prelude.v ===== *)
(** * tengu-cluster: a verification library

    tengu-cluster runs clusters of LLM agents. This library models the Rust
    code that decides: what a weekly portfolio may spend, which plans of agent
    steps run and when, which orders an account may send and what its ledger
    books for them, which texts may reach a model or leave the machine, which
    paths and hosts a tool may touch, which bytes a wallet signs, and what an
    A2A server answers. Every
    definition is a pure function, or a step of an explicit state; the source
    file it models is named at the head of its file.

    ** The parts and how they interact

    - Prelude, Ordered, Text, Bytes, Substr, Json: what the components share. [result]
      is Rust's [Result] with its bind; [sort_by] is the stable sort, with the
      orders it needs ([PreCmp]); Ordered is the sorted lists of the standard
      library's ordered maps; Text is strings, decimal text and hex; Bytes
      and Substr are the standard library's searches in byte strings; Json is
      [serde_json::Value] as a tree, an object being its list of members in
      order.
    - The SOE (Solo Opportunity Engine, src/src/domain/soe): SoeValue (money,
      rates, estimates, their text), Lineage (times and locators of
      src/src/domain/lineage/value.rs and evidence.rs), SoeRecord (records and
      their validation), SoePortfolio (the week and the brief), SoeEconomics
      (every figure of every revenue model), SoeGates (the hard gates), SoeRank
      (capability fit, ranking, perturbation), SoeAllocate (repricing, the
      budget fill, the week). Economics reads records; gates read economics;
      ranking reads both; allocation runs all three. SoeSamples holds concrete
      records.
    - Orchestration (src/src/domain/plan.rs, backoff.rs and
      src/src/application/orchestrator): Plan (validation, ready steps),
      Backoff (retry delays and the circuit breaker), Retry (the attempts of a
      step), Executor (the DAG run of a plan, over any schedule of
      completions), Replan (a user's turn: plan, run, replan). A turn calls the
      executor, the executor calls Retry's attempts, those ask Backoff.
    - Untrusted text (src/src/domain/untrusted.rs, token.rs): Untrusted, the
      fence around tool results on the bytes of the text.
    - Secrets: Secrets (src/src/domain/secrets.rs), the redaction of known
      values out of texts, JSON and observations; Seal
      (src/crates/tengu-seal), the masker of a reply as it streams through the
      proxy.
    - Solana: Base58 (base58.rs), SolanaKeys (solana.rs: ids, accounts, derived
      addresses), Solana and SolanaIx (solana_tx.rs: messages, transactions,
      instructions). SolanaKeys reads Base58; the instructions read the id
      table; compile orders their accounts; Secrets reads Base58 to tell an id
      of the chain from a key.
    - A2A (src/src/domain/a2a, src/src/application/a2a): A2aModel (data,
      methods, errors, negotiation), A2aStore (the tasks and contexts of a
      server), A2aServer (requests and runs as interleaved steps).
    - Sources (src/src/domain/source): SourceRecord (records, their validation
      and identity) and SourceAsof (what a view at an instant shows of them).
    - Tool scopes (src/src/domain/scope.rs): IpAddr (the addresses of the
      standard library), Scope (paths against any file system, hosts, binaries,
      the environment, the shell's words).
    - Time: Tz (zones and daylight time over a calendar), Schedule (when a feed
      fires next), Sessions (exchange sessions, trading days, the weekend clock
      of calendar.rs), EvidenceCoverage (the slots a dataset covers).
    - Paper trading (src/src/domain/xm, book.rs, market.rs, observation.rs, hl,
      src/src/application/paper.rs, src/src/adapters/outbound/paper_store.rs).
      F64 is binary64; Observation the rows a tool reads, a field being a value
      or the reason there is none; Book the taker's walk; Ledger fills, funding
      and the account at marks; Market and Instrument what a venue lists; Cost
      fees and steps; Risk the gate of an order, RiskState the halts of an
      account; Paper one simulated fill; Exits what of a position is due; Exec
      the rows the tools answer. PaperExec composes them into the decision of an
      order (the kill switch, the gate, the fill, the halts it trips), and
      PaperStore into the transactions of the ledger database: an order is
      placed by checking the owner, replaying a stored order of the same id,
      settling funding, deciding, and writing the rows of what was decided.
      WeekendFade is the one strategy modelled: its window comes from Sessions,
      its results from two ledgers.
    Files ending in Facts or Props hold the lemmas and the properties of the
    component they are named after; small components keep theirs at the end of
    their own file. The properties carry their claim's number.

    ** How state and effects are modelled

    Integers are [Z] in their range; a checked operation answers [None] or an
    error where the Rust does, an unchecked one is either written with its
    wrap-around (Base58, Solana, the page offset of A2aStore) or shown to stay
    in range (SoeEconomicsFacts). Binary64 is the standard library's SpecFloat,
    operation by operation in the order of the source, with NaN, infinities and
    signed zeros (F64): the prices, sizes and limits of paper trading and the
    jitter of Backoff. F64Facts proves what the theorems use of it (comparisons
    are a total preorder off NaN, sums and products keep signs, results are
    canonical); no theorem reads a float as a real number. A panic is [None]
    beside the [Ok] or [Err] of the function. Maps that the code only looks up
    are [gmap]s; where the order of a [HashMap] could matter (Plan's [in_deg])
    it is a parameter.

    The tables of the ledger database are a state, and a transaction is a
    function of it that an error leaves as it was. What SQLite keeps of a
    double and the JSON text of the rows are a class ([PaperStore.Codec]), the
    operating system's files another ([Scope.FileSystem]), chrono a third
    ([Tz.Calendar] with its laws, of which TzProps has an executable instance).

    Concurrency is in two places. The executor's tasks end in any order: the
    schedule is an argument, and the theorems hold for each. The A2A server's
    requests and runs take one lock: [A2aServer.step] is what one of them does
    while it holds it, and the theorems are about every sequence of steps.

    ** What the theorems show

    - SOE: a candidate passes the gates exactly when every condition of the
      gate table holds and is rejected exactly on a known violation; the three
      scenarios of an opportunity are ordered and fail on overflow only; an
      unknown figure names what it lacks; the order of a week does not depend
      on the order of its candidates; a perturbation scales the inputs of its
      table and nothing else; an allocation follows its table, stays
      within the week's hours and cash, and a repriced candidate's price is the
      least that clears (with one exception, proved: see Findings).
    - Orchestration: validation accepts exactly the runnable plans (with one
      exception, proved) and names a reason otherwise; a step starts once, after its
      dependencies; every validated plan ends under every complete schedule and
      its reply does not depend on it; a turn is completed exactly once, runs
      only validated plans, and retries by the table; the breaker refines its
      contract.
    - Text and secrets: a fenced text holds exactly the two tags of its fence;
      no registered secret stays in a redacted text or value, nor in the
      headline, error messages, feature values and data of an observation (its
      key, schema, tool and names are left alone); the masker's output does not depend on how the reply was cut, and every copy
      of the key is masked.
    - Solana: keys, messages and transactions survive printing and parsing;
      compile orders the keys by the protocol's table; the wallet's own
      instructions need its signature only; a derived address is off the curve
      under the largest such bump.
    - A2A: method and version negotiation is unambiguous; capacity is made from
      the oldest settled tasks; pages cover the list; any interleaving keeps
      the server well formed, never moves a task back, and can always be
      continued until a task settles; a stream replays the task it follows.
    - Paper trading: an entry passes the gate exactly when every limit holds on
      every figure, and every figure is known; exits are let out; an order
      past the intent and account checks trips exactly the breaches it saw; the shadow gate refuses nothing the gate
      allows; a sticky halt ends by a resume only. Orders that open meet every
      guard, and once the risk gate saw a total loss on such an order none does
      until a resume. A fill stays
      within its bound, its volume is the book's, and the ledger books what was
      filled. Positions stay well formed, every funding hour is charged once and
      late settlement books the same; equity needs every mark; a stop or a limit
      once due stays due until it is done. A retry answers the stored order and
      changes nothing else, an account answers its owner only, the cash journal
      adds up to the balance, and the database takes what the decision answers.
    - The weekend fade: its window is the next break with a weekend in it, and
      the capped names are the largest signals in the order of the numbers.
    - Sources and time: a captured view shows nothing read later; a knowable
      view does not change with what is read later (with one exception, proved);
      the next fire of a schedule is the earliest it offers, and never repeats.
    - Scopes: an accepted path stays under its root, up to the links the
      findings name; hosts and grants are what the lists say.
    Findings, proved where they are named: [hopeless_price_refuses_the_week],
    [repeated_dependency_is_called_a_cycle], [forged_page_token_wraps],
    [later_publication_may_empty_a_view] and [links_escape_the_workspace] (two
    ways past the workspace) are inputs on which the code does not do what its
    comments say, and [malformed_orders_trip_nothing] shows that
    an order refused as malformed trips no halt, where the table of risk.rs says
    every evaluation does. Two
    more have no theorem of their own: a clock text with plus signs is read
    (time.rs), and a listed market without one readable price is called absent
    (market.rs).

    ** Fuel and bounds

    Loops that are not structural take fuel and are shown not to run out of
    it: a pass of Untrusted's stripper removes at least a byte, so the length
    of the text is enough; Kahn's queue in Plan takes each step once, so the
    number of steps is; SoeAllocate's search doubles a price below 2^63 and
    halves an interval, so 64 turns each; [make_room] removes a task per turn;
    compact-u16 is three bytes; the executor's loop ends with its schedule, and
    [validated_plans_end] gives the length that is enough. In Tz the search for
    the last Sunday of a month looks back seven days; in Schedule a tick is
    looked for in the days the source scans and the base grid in at most
    [MAX_BASE_STEPS] steps, which is the source's own bound; a walk of a book
    ends with its levels; the funding hours due are counted before they are
    listed; the walk back over fade windows takes at most forty
    turns because windows exit on days of their own; a path climbs by its components, and a file system follows at most
    forty links; the shortest text of a double has at most seventeen digits.

    ** Not modelled

    Serialization (serde, TOML, JSON text), hashing (SHA-256), base64, the
    clock, UUIDs, chrono's calendar and the LLM calls are parameters, with what
    is assumed of them as hypotheses of the theorem that needs it. Of the
    exchange domains, decoders of venue messages, grades (ln and exp of the platform),
    backtests and the liquidity pools
    (src/src/domain/lp, backtest) are left out; so are the tables a row is shown
    as ([headline]) and the audit digest of the gate. In PaperStore the mirror
    of the audit lines, schema upgrades and failures of the disk are left out,
    and a plan carries what the clock and the book source answered. Readers and
    packets of sources, adapters, bootstrap, configuration and the user
    interfaces are input and output. Inside modelled files: Backoff's token
    bucket, the jitter of schedules, the JSON helpers of args.rs, SoeAllocate's
    decide_week, agent cards and the v0.3 rendering of A2A, A2aServer's handle
    and dispatch (JSON in and out). *)

From stdpp Require Export base tactics option list sorting strings gmap.
From Stdlib Require Export ZArith Lia.

(** Scope of the notations of this development. *)
Declare Scope tengu_scope.
Delimit Scope tengu_scope with tengu.

(** ** Results

    Rust's [Result<A, E>]: a value or a typed error; [?] is the bind. *)
Inductive result (E A : Type) : Type :=
  | Ok (a : A)
  | Err (e : E).
Arguments Ok {E A} a.
Arguments Err {E A} e.

#[export] Instance result_ret {E} : MRet (result E) := λ A a, Ok a.
#[export] Instance result_bind {E} : MBind (result E) :=
  λ A B f r, match r with Ok a => f a | Err e => Err e end.
#[export] Instance result_fmap {E} : FMap (result E) :=
  λ A B f r, match r with Ok a => Ok (f a) | Err e => Err e end.

Definition is_ok {E A} (r : result E A) : bool :=
  match r with Ok _ => true | Err _ => false end.

(** [Option::is_some]. *)
Definition is_some {A} (o : option A) : bool := match o with Some _ => true | None => false end.

(** [Option::ok_or]. *)
Definition ok_or {E A} (o : option A) (e : E) : result E A :=
  match o with Some a => Ok a | None => Err e end.

(** [Result::ok]. *)
Definition ok {E A} (r : result E A) : option A :=
  match r with Ok a => Some a | Err _ => None end.

(** [iter().map(f).collect::<Result<Vec<_>, _>>()]: left to right, the first
    error wins. *)
Fixpoint collect {E A B} (f : A → result E B) (l : list A) : result E (list B) :=
  match l with
  | [] => Ok []
  | a :: l => b ← f a; bs ← collect f l; Ok (b :: bs)
  end.

(** [iter().try_fold(acc, f)]. *)
Fixpoint try_fold {E A B} (f : B → A → result E B) (acc : B) (l : list A) : result E B :=
  match l with
  | [] => Ok acc
  | a :: l => acc' ← f acc a; try_fold f acc' l
  end.

Lemma ok_inj {E A} (a b : A) : @Ok E A a = Ok b → a = b.
Proof. by intros [= ->]. Qed.

Lemma bind_ok {E A B} (r : result E A) (f : A → result E B) b :
  (r ≫= f) = Ok b ↔ ∃ a, r = Ok a ∧ f a = Ok b.
Proof. destruct r; simpl; [naive_solver|]. split; [done|]. by intros (?&?&?). Qed.

Lemma bind_err {E A B} (r : result E A) (f : A → result E B) e :
  (r ≫= f) = Err e ↔ r = Err e ∨ ∃ a, r = Ok a ∧ f a = Err e.
Proof. destruct r; simpl; naive_solver. Qed.

Lemma collect_ok {E A B} (f : A → result E B) l bs :
  collect f l = Ok bs ↔ Forall2 (λ a b, f a = Ok b) l bs.
Proof.
  revert bs. induction l as [|a l IH]; intros bs; simpl.
  { split; [by intros [= <-]|]. intros H; by inversion H. }
  rewrite bind_ok. setoid_rewrite bind_ok. split.
  - intros (b & Hb & bs' & Hbs & [= <-]). constructor; [done|]. by apply IH.
  - intros H; inversion H; subst. exists y; split; [done|].
    eexists; split; [by apply IH|done].
Qed.

Lemma collect_err {E A B} (f : A → result E B) l e :
  collect f l = Err e →
  ∃ l1 a l2, l = l1 ++ a :: l2 ∧ f a = Err e ∧ Forall (λ x, is_ok (f x) = true) l1.
Proof.
  induction l as [|a l IH]; simpl; [done|].
  rewrite bind_err. intros [H|(b & Hb & H)].
  { exists [], a, l. done. }
  apply bind_err in H as [H|(?&?&?)]; [|done].
  destruct (IH H) as (l1 & x & l2 & -> & ? & ?).
  exists (a :: l1), x, l2. split_and!; [done|done|]. constructor; [by rewrite Hb|done].
Qed.

(** Destructs every successful bind among the hypotheses. *)
Ltac inv_ok :=
  repeat match goal with
  | H : (?r ≫= ?f) = Ok _ |- _ =>
      let a := fresh "a" in let Ha := fresh "Ha" in
      apply bind_ok in H; destruct H as (a & Ha & H)
  | H : mret _ = Ok _ |- _ => injection H as H
  | H : Ok _ = Ok _ |- _ => injection H as H
  | H : Err _ = Ok _ |- _ => discriminate H
  | H : Ok _ = Err _ |- _ => discriminate H
  end.

(** ** Machine integers

    A Rust integer is a [Z] in its type's range; a checked operation returns
    [None] outside it. *)
Definition in_range (lo hi v : Z) : bool := (lo <=? v)%Z && (v <=? hi)%Z.
Definition try_range (lo hi v : Z) : option Z := if in_range lo hi v then Some v else None.

Definition i64_min : Z := (- 2 ^ 63)%Z.
Definition i64_max : Z := (2 ^ 63 - 1)%Z.
Definition i128_min : Z := (- 2 ^ 127)%Z.
Definition i128_max : Z := (2 ^ 127 - 1)%Z.
Definition u8_max : Z := (2 ^ 8 - 1)%Z.
Definition u16_max : Z := (2 ^ 16 - 1)%Z.
Definition u32_max : Z := (2 ^ 32 - 1)%Z.
Definition u64_max : Z := (2 ^ 64 - 1)%Z.

Definition in_i64 : Z → bool := in_range i64_min i64_max.
Definition in_i128 : Z → bool := in_range i128_min i128_max.
Definition in_u16 : Z → bool := in_range 0 u16_max.
Definition in_u32 : Z → bool := in_range 0 u32_max.
Definition in_u64 : Z → bool := in_range 0 u64_max.

Definition try_i64 : Z → option Z := try_range i64_min i64_max.
Definition try_i128 : Z → option Z := try_range i128_min i128_max.
Definition try_u16 : Z → option Z := try_range 0 u16_max.
Definition try_u32 : Z → option Z := try_range 0 u32_max.
Definition try_u64 : Z → option Z := try_range 0 u64_max.

Lemma in_range_spec lo hi v : in_range lo hi v = true ↔ (lo ≤ v ≤ hi)%Z.
Proof. unfold in_range. rewrite andb_true_iff, !Z.leb_le. lia. Qed.

Lemma try_range_some lo hi v w : try_range lo hi v = Some w ↔ w = v ∧ (lo ≤ v ≤ hi)%Z.
Proof.
  unfold try_range. destruct (in_range lo hi v) eqn:E.
  - apply in_range_spec in E. naive_solver.
  - split; [done|]. intros [_ H%in_range_spec]. congruence.
Qed.

Lemma try_range_none lo hi v : try_range lo hi v = None ↔ ¬ (lo ≤ v ≤ hi)%Z.
Proof.
  rewrite eq_None_not_Some. unfold is_Some. setoid_rewrite try_range_some. naive_solver.
Qed.

(** Unfolds every machine constant to its value. *)
Ltac unfold_ints :=
  unfold in_i64, in_i128, in_u16, in_u32, in_u64, try_i64, try_i128, try_u16, try_u32,
    try_u64, i64_min, i64_max, i128_min, i128_max, u8_max, u16_max, u32_max, u64_max in *.

(** [lia] after unfolding the machine constants. *)
Ltac ilia := unfold_ints; lia.

(** ** Comparators

    Rust's [Ord::cmp] and the closures given to [sort_by]. [PreCmp]: a total
    preorder; [StrictCmp]: [Equal] only between equal values. *)
Class PreCmp {A} (c : A → A → comparison) : Prop := {
  cmp_flip : ∀ x y, c y x = CompOpp (c x y);
  cmp_trans : ∀ x y z, c x y ≠ Gt → c y z ≠ Gt → c x z ≠ Gt;
}.
Class StrictCmp {A} (c : A → A → comparison) : Prop := {
  strict_pre :: PreCmp c;
  cmp_eq : ∀ x y, c x y = Eq → x = y;
}.

(** [a.cmp(b).then(..)]. *)
Definition cmp_then (a b : comparison) : comparison :=
  match a with Eq => b | _ => a end.

Section cmp.
Context {A} (c : A → A → comparison) `{!PreCmp c}.

Lemma cmp_refl x : c x x = Eq.
Proof. pose proof (cmp_flip x x). destruct (c x x); done. Qed.

Lemma cmp_eq_l x y z : c x y = Eq → c x z = c y z.
Proof.
intros Hxy. assert (Hyx : c y x = Eq) by (rewrite cmp_flip, Hxy; done).
pose proof (cmp_trans x y z) as T1. pose proof (cmp_trans y x z) as T2.
pose proof (cmp_trans z y x) as T3. pose proof (cmp_trans z x y) as T4.
rewrite Hxy in T1, T4. rewrite Hyx in T2, T3.
pose proof (cmp_flip (c := c) x z) as F1. pose proof (cmp_flip (c := c) y z) as F2.
rewrite F1, F2 in T3. rewrite F1, F2 in T4.
destruct (c x z), (c y z); simpl in *; intuition congruence.
Qed.

Lemma cmp_eq_r x y z : c x y = Eq → c z x = c z y.
Proof. intros H. rewrite (cmp_flip (c := c) x z), (cmp_flip (c := c) y z). by rewrite (cmp_eq_l _ _ z H). Qed.

Lemma cmp_lt_trans x y z : c x y = Lt → c y z ≠ Gt → c x z = Lt.
Proof.
intros H1 H2. destruct (c x z) eqn:E; [|done|].
- exfalso. rewrite (cmp_eq_l _ _ y E), cmp_flip in H1.
  destruct (c y z); simpl in *; congruence.
- exfalso. apply (cmp_trans x y z); congruence.
Qed.
End cmp.

Lemma cmp_then_pre {A} (c1 c2 : A → A → comparison) :
  PreCmp c1 → PreCmp c2 → PreCmp (λ x y, cmp_then (c1 x y) (c2 x y)).
Proof.
  intros P1 P2. split.
  - intros x y. rewrite (cmp_flip (c := c1) x y), (cmp_flip (c := c2) x y). by destruct (c1 x y).
  - intros x y z. destruct (c1 x y) eqn:E1; simpl; [| |done].
    + rewrite (cmp_eq_l c1 _ _ z E1). destruct (c1 y z); simpl; try done. apply P2.
    + intros _ H. rewrite (cmp_lt_trans c1 x y z E1); [done|]. by destruct (c1 y z).
Qed.

(** A comparator through a key ([sort_by_key], [a.k.cmp(&b.k)]). *)
Definition cmp_on {A K} (k : A → K) (c : K → K → comparison) (x y : A) : comparison :=
  c (k x) (k y).

#[export] Instance cmp_on_pre {A K} (k : A → K) c `{!PreCmp c} : PreCmp (cmp_on k c).
Proof. split; unfold cmp_on; intros; [apply cmp_flip|by eapply cmp_trans]. Qed.

#[export] Instance Z_cmp_strict : StrictCmp Z.compare.
Proof.
  repeat split.
  - intros. apply Z.compare_antisym.
  - intros x y z. rewrite !Z.compare_le_iff. lia.
  - intros x y. apply Z.compare_eq.
Qed.

(** Lexicographic order of lists of codes: Rust's [Ord] on byte strings. *)
Fixpoint list_cmp (l k : list Z) : comparison :=
  match l, k with
  | [], [] => Eq
  | [], _ => Lt
  | _, [] => Gt
  | x :: l, y :: k => cmp_then (Z.compare x y) (list_cmp l k)
  end.

#[export] Instance list_cmp_strict : StrictCmp list_cmp.
Proof.
  repeat split.
  - intros x. induction x as [|a x IH]; intros [|b y]; simpl; try done.
    rewrite (Z.compare_antisym a b), IH. by destruct (a ?= b)%Z.
  - intros x. induction x as [|a x IH]; intros [|b y] [|d z]; simpl; try done.
    destruct (Z.compare_spec a b), (Z.compare_spec b d), (Z.compare_spec a d);
      simpl; subst; try done; try lia. apply IH.
  - intros x. induction x as [|a x IH]; intros [|b y]; simpl; try done.
    destruct (a ?= b)%Z eqn:E; simpl; try done. apply Z.compare_eq in E as ->.
    intros H. f_equal. by apply IH.
Qed.

(** The bytes of a string, and [str]'s [Ord]. *)
Fixpoint str_bytes (s : string) : list Z :=
  match s with
  | EmptyString => []
  | String a s => Z.of_N (Ascii.N_of_ascii a) :: str_bytes s
  end.
Definition str_cmp (a b : string) : comparison := list_cmp (str_bytes a) (str_bytes b).

Lemma str_bytes_inj a b : str_bytes a = str_bytes b → a = b.
Proof.
  revert b. induction a as [|x a IH]; intros [|y b]; simpl; try done.
  intros [= H1 H2]. f_equal; [|by apply IH].
  apply N2Z.inj in H1. rewrite <-(Ascii.ascii_N_embedding x), <-(Ascii.ascii_N_embedding y).
  by rewrite H1.
Qed.

#[export] Instance str_cmp_strict : StrictCmp str_cmp.
Proof.
  repeat split; unfold str_cmp.
  - intros. apply cmp_flip.
  - intros x y z. apply cmp_trans.
  - intros x y H. by apply str_bytes_inj, cmp_eq.
Qed.

(** ** Stable sorting ([slice::sort_by]) *)
Section sort.
Context {A} (c : A → A → comparison).

Fixpoint insert_by (x : A) (l : list A) : list A :=
match l with
| [] => [x]
| y :: l' => match c x y with Gt => y :: insert_by x l' | _ => x :: l end
end.

Definition sort_by (l : list A) : list A := foldr insert_by [] l.

Definition sorted_by : list A → Prop := StronglySorted (λ x y, c x y ≠ Gt).

Lemma insert_by_perm x l : insert_by x l ≡ₚ x :: l.
Proof.
induction l as [|y l IH]; simpl; [done|]. destruct (c x y); try done.
rewrite IH. apply Permutation_swap.
Qed.

Lemma sort_by_perm l : sort_by l ≡ₚ l.
Proof. induction l as [|x l IH]; simpl; [done|]. by rewrite insert_by_perm, IH. Qed.

Context `{!PreCmp c}.

Lemma insert_by_sorted x l : sorted_by l → sorted_by (insert_by x l).
Proof.
unfold sorted_by. induction 1 as [|y l Hl IH Hy]; simpl.
{ repeat constructor. }
destruct (c x y) eqn:E.
- constructor; [by constructor|]. constructor; [congruence|].
  eapply Forall_impl; [exact Hy|]. intros z Hz. simpl in *. by rewrite (cmp_eq_l c _ _ _ E).
- constructor; [by constructor|]. constructor; [congruence|].
  eapply Forall_impl; [exact Hy|]. intros z Hz. simpl in *. by rewrite (cmp_lt_trans c _ _ _ E).
- constructor; [done|]. rewrite insert_by_perm. constructor; [|done].
  rewrite cmp_flip, E. done.
Qed.

Lemma sort_by_sorted l : sorted_by (sort_by l).
Proof. induction l as [|x l IH]; simpl; [constructor|]. by apply insert_by_sorted. Qed.

(** With no two different equal elements the sorted list is unique: the
  result does not depend on the input order. *)
Lemma sorted_by_unique l k :
(∀ x y, x ∈ l → y ∈ l → c x y = Eq → x = y) →
sorted_by l → sorted_by k → l ≡ₚ k → l = k.
Proof.
intros Heq Hl. revert k Heq. induction Hl as [|x l Hl IH Hx]; intros k Heq Hk Hp.
{ symmetry in Hp. by apply Permutation_nil_r in Hp. }
destruct Hk as [|y k Hk Hy]. { by apply Permutation_nil_r in Hp. }
assert (x = y) as ->.
{ assert (Hyl : y ∈ x :: l) by (rewrite Hp; by left).
  assert (Hxk : x ∈ y :: k) by (rewrite <-Hp; by left).
  apply elem_of_cons in Hyl as [->|Hyl]; [done|].
  apply elem_of_cons in Hxk as [->|Hxk]; [done|].
  rewrite Forall_forall in Hx, Hy. pose proof (Hx _ Hyl) as H1. pose proof (Hy _ Hxk) as H2.
  apply Heq; [by left|by right|]. rewrite cmp_flip in H2.
  destruct (c x y); simpl in *; congruence. }
f_equal. apply IH; [|done|by apply Permutation_cons_inv in Hp].
intros a b ??. apply Heq; by right.
Qed.

Lemma sort_by_canonical l k :
(∀ x y, x ∈ l → y ∈ l → c x y = Eq → x = y) →
l ≡ₚ k → sort_by l = sort_by k.
Proof.
intros Heq Hp. apply sorted_by_unique; [|apply sort_by_sorted..|by rewrite !sort_by_perm].
intros x y. rewrite !sort_by_perm. apply Heq.
Qed.
End sort.

Lemma filter_perm {A} (f : A → bool) (l k : list A) : l ≡ₚ k → List.filter f l ≡ₚ List.filter f k.
Proof.
  induction 1 as [|x l k _ IH|x y l|l k m _ IH1 _ IH2]; simpl; [done|..].
  - destruct (f x); [by rewrite IH|done].
  - destruct (f x), (f y); try done. apply Permutation_swap.
  - by rewrite IH1.
Qed.

Create HintDb tengu.
#[export] Hint Resolve sort_by_sorted sort_by_perm insert_by_perm : tengu.
