(* ===== verification/Ordered.v ===== *)
(** * Ordered collections

    [Ord] of tuples and lists, [min_by_key], grouping into a map of lists, and
    the order in which a [BTreeMap] and a [BTreeSet] are read. A [BTreeMap] is
    a [gmap] read through [btree_iter]. *)

From S2P Require Import Prelude.

#[local] Open Scope list_scope.

(** ** Orders *)

Definition pair_cmp {A B} (c : A → A → comparison) (d : B → B → comparison) (x y : A * B) : comparison :=
  cmp_then (c (fst x) (fst y)) (d (snd x) (snd y)).

#[export] Instance pair_cmp_strict {A B} (c : A → A → comparison) (d : B → B → comparison)
  `{!StrictCmp c} `{!StrictCmp d} : StrictCmp (pair_cmp c d).
Proof.
  split.
  - apply (cmp_then_pre (cmp_on fst c) (cmp_on snd d)); apply _.
  - intros [a b] [a' b']. unfold pair_cmp. cbn. destruct (c a a') eqn:E; cbn; try done.
    apply cmp_eq in E as ->. intros E%cmp_eq. by subst.
Qed.

#[export] Instance cmp_on_strict {A K} (k : A → K) c `{!StrictCmp c} `{!Inj (=) (=) k} : StrictCmp (cmp_on k c).
Proof. split; [apply _|]. intros x y H. apply (inj k). by apply cmp_eq. Qed.

(** [Ord] of slices: lexicographic. *)
Fixpoint lex_cmp {A} (c : A → A → comparison) (l k : list A) : comparison :=
  match l, k with
  | [], [] => Eq
  | [], _ => Lt
  | _, [] => Gt
  | x :: l, y :: k => cmp_then (c x y) (lex_cmp c l k)
  end.

#[export] Instance lex_cmp_strict {A} (c : A → A → comparison) `{!StrictCmp c} : StrictCmp (lex_cmp c).
Proof.
  repeat split.
  - intros x. induction x as [|a x IH]; intros [|b y]; cbn; try done.
    rewrite (cmp_flip (c:=c) a b), IH. by destruct (c a b).
  - intros x. induction x as [|a x IH]; intros [|b y] [|d z]; cbn; try done.
    destruct (c a b) eqn:E1; cbn; [| |done].
    + rewrite (cmp_eq_l c _ _ d E1). destruct (c b d); cbn; try done. apply IH.
    + intros _ H. rewrite (cmp_lt_trans c a b d E1); [done|]. by destruct (c b d).
  - intros x. induction x as [|a x IH]; intros [|b y]; cbn; try done.
    destruct (c a b) eqn:E; cbn; try done. apply cmp_eq in E as ->. intros H. f_equal. by apply IH.
Qed.

Lemma str_cmp_lt_irrefl s : str_cmp s s = Eq.
Proof. apply (cmp_refl str_cmp). Qed.

(** ** [min_by_key]: the first minimum *)

Definition min_by {A} (c : A → A → comparison) (l : list A) : option A :=
  match l with
  | [] => None
  | x :: l => Some (fold_left (λ m y, match c y m with Lt => y | _ => m end) l x)
  end.

(** The first minimum of a list is in it and no element is below it. *)
Lemma min_by_spec {A} (c : A → A → comparison) `{!PreCmp c} l m :
  min_by c l = Some m → m ∈ l ∧ ∀ x, x ∈ l → c x m ≠ Lt.
Proof.
  destruct l as [|a l]; [done|]. cbn [min_by]. intros [= <-]. revert a l.
  assert (G : ∀ l m0, let m := fold_left (λ m y, match c y m with Lt => y | _ => m end) l m0 in
    (m = m0 ∨ m ∈ l) ∧ c m0 m ≠ Lt ∧ ∀ x, x ∈ l → c x m ≠ Lt).
  { intros l. induction l as [|y l IH]; intros m0; cbn [fold_left].
    { split_and!; [by left| |by intros x ?%elem_of_nil]. by rewrite (cmp_refl c). }
    specialize (IH (match c y m0 with Lt => y | _ => m0 end)). cbn zeta in *.
    set (m := fold_left _ l _) in *. destruct IH as (Hin & Hle & Hall).
    assert (Hm : c m0 m ≠ Lt ∧ c y m ≠ Lt).
    { destruct (c y m0) eqn:E.
      - split; [done|]. by rewrite (cmp_eq_l c _ _ _ E).
      - split; [|done]. intros H. apply Hle. eapply (cmp_lt_trans c); [exact E|]. congruence.
      - split; [done|]. intros H.
        assert (c m0 y = Lt) as E' by (rewrite (cmp_flip (c:=c)), E; done).
        apply Hle. eapply (cmp_lt_trans c); [exact E'|]. congruence. }
    split_and!; [|apply Hm|].
    - rewrite elem_of_cons. destruct (c y m0); tauto.
    - intros x [->|Hx]%elem_of_cons; [apply Hm|by apply Hall]. }
  intros a l. destruct (G l a) as (H1 & H2 & H3). split.
  - rewrite elem_of_cons. tauto.
  - intros x [->|Hx]%elem_of_cons; auto.
Qed.

Lemma min_by_none {A} (c : A → A → comparison) l : min_by c l = None → l = [].
Proof. by destruct l. Qed.

Lemma min_by_some {A} (c : A → A → comparison) l : l ≠ [] → is_Some (min_by c l).
Proof. destruct l; [done|]. by eexists. Qed.

(** A strict order has one minimum, whatever the list's order. *)
Lemma min_by_unique {A} (c : A → A → comparison) `{!PreCmp c} l m :
  (∀ x y, x ∈ l → y ∈ l → c x y = Eq → x = y) →
  m ∈ l → (∀ x, x ∈ l → c x m ≠ Lt) → min_by c l = Some m.
Proof.
  intros Heq Hm Hmin. destruct (min_by c l) as [n|] eqn:E.
  - apply min_by_spec in E as [Hn Hmin']; [|done]. f_equal. apply Heq; [done..|].
    specialize (Hmin n Hn). specialize (Hmin' m Hm). rewrite (cmp_flip (c:=c) n m) in Hmin'.
    by destruct (c n m).
  - apply min_by_none in E as ->. by apply elem_of_nil in Hm.
Qed.

(** ** Grouping: [map.entry(key(x)).or_default().push(x)] *)
Section group.
Context {A K : Type} `{Countable K} (key : A → K).

Definition push (m : gmap K (list A)) (x : A) : gmap K (list A) :=
<[key x := default [] (m !! key x) ++ [x]]> m.
Definition group (l : list A) : gmap K (list A) := fold_left push l ∅.

(** The entry of a key, empty when absent. *)
Definition entries (m : gmap K (list A)) (k : K) : list A := default [] (m !! k).

Definition has_key (k : K) (x : A) : bool := bool_decide (key x = k).

Lemma group_from l m k :
fold_left push l m !! k =
match List.filter (has_key k) l with [] => m !! k | xs => Some (entries m k ++ xs) end.
Proof.
revert m. induction l as [|x l IH]; intros m; cbn [fold_left List.filter]; [done|].
rewrite IH. unfold has_key at 2. unfold entries, push.
destruct (decide (key x = k)) as [<-|N].
- rewrite bool_decide_true by done. rewrite lookup_insert_eq. unfold default, from_option.
  destruct (List.filter _ l); [done|]. unfold id. by rewrite <-app_assoc.
- rewrite bool_decide_false by done. rewrite lookup_insert_ne by done. done.
Qed.

Lemma group_lookup l k :
group l !! k = match List.filter (has_key k) l with [] => None | xs => Some xs end.
Proof.
unfold group. rewrite group_from. unfold entries. rewrite lookup_empty. by destruct (List.filter _ _).
Qed.

Lemma group_some l k xs :
group l !! k = Some xs ↔ xs = List.filter (has_key k) l ∧ xs ≠ [].
Proof.
rewrite group_lookup. destruct (List.filter (has_key k) l); [naive_solver|].
split; [by intros [= <-]|]. by intros [-> _].
Qed.
End group.

(** ** Reading a [BTreeMap] *)
Section btree.
Context {K : Type} `{Countable K} (c : K → K → comparison) `{!StrictCmp c}.

Definition btree_iter {V} (m : gmap K V) : list (K * V) := sort_by (cmp_on fst c) (map_to_list m).
Definition btree_values {V} (m : gmap K V) : list V := map snd (btree_iter m).
Definition btree_keys {V} (m : gmap K V) : list K := map fst (btree_iter m).

Lemma btree_iter_perm {V} (m : gmap K V) : btree_iter m ≡ₚ map_to_list m.
Proof. apply sort_by_perm. Qed.

Lemma btree_iter_in {V} (m : gmap K V) k v : (k, v) ∈ btree_iter m ↔ m !! k = Some v.
Proof. rewrite btree_iter_perm. apply elem_of_map_to_list. Qed.

Lemma btree_iter_nodup {V} (m : gmap K V) : NoDup (map fst (btree_iter m)).
Proof.
assert (map fst (btree_iter m) ≡ₚ map fst (map_to_list m)) as -> by (apply fmap_Permutation, btree_iter_perm).
apply NoDup_fst_map_to_list.
Qed.

Lemma btree_values_in {V} (m : gmap K V) v : v ∈ btree_values m ↔ ∃ k, m !! k = Some v.
Proof.
unfold btree_values. rewrite list_elem_of_fmap. split.
- intros ([k w] & -> & Hw). exists k. by apply btree_iter_in.
- intros (k & Hk). exists (k, v). split; [done|]. by apply btree_iter_in.
Qed.

(** A list of distinct keys in order is what its map is read as. *)
Lemma btree_iter_unique {V} (m : gmap K V) (l : list (K * V)) :
sorted_by (cmp_on fst c) l → l ≡ₚ map_to_list m → btree_iter m = l.
Proof.
intros Hs Hp. unfold btree_iter. apply (sorted_by_unique (cmp_on fst c)).
- intros [k v] [k' v'] H1 H2 E. unfold cmp_on in E. apply cmp_eq in E. cbn in E. subst k'.
  rewrite sort_by_perm, elem_of_map_to_list in H1, H2. congruence.
- apply sort_by_sorted; apply _.
- done.
- by rewrite sort_by_perm.
Qed.

Lemma sorted_omap {A B} (d : A → A → comparison) (e : B → B → comparison) (g : A → option B) l :
(∀ x y a b, g x = Some a → g y = Some b → d x y ≠ Gt → e a b ≠ Gt) →
sorted_by d l → sorted_by e (omap g l).
Proof.
intros Hg. unfold sorted_by. induction 1 as [|x l Hl IH Hx]; cbn; [constructor|].
destruct (g x) as [a|] eqn:E; [|done]. constructor; [done|].
apply Forall_forall. intros b (y & Hy & Eb)%list_elem_of_omap. rewrite Forall_forall in Hx. eapply Hg; eauto.
Qed.

(** Reading a map and keeping some entries is reading the map of those. *)
Lemma omap_btree_iter {V W} (g : K → V → option W) (m : gmap K V) :
omap (λ p, g (fst p) (snd p)) (btree_iter m) = btree_values (map_imap g m).
Proof.
assert (btree_iter (map_imap g m) = omap (λ p, (fst p,.) <$> g (fst p) (snd p)) (btree_iter m)) as E.
{ apply btree_iter_unique.
  - eapply sorted_omap; [|apply sort_by_sorted; apply _].
    intros [k v] [k' v'] [a x] [b y] (w & _ & [= -> ->])%fmap_Some (w' & _ & [= -> ->])%fmap_Some. done.
  - apply NoDup_Permutation.
    + apply (NoDup_fmap_1 fst).
      assert (∀ l : list (K * V), NoDup (map fst l) →
        NoDup (map fst (omap (λ p, (fst p,.) <$> g (fst p) (snd p)) l))) as G.
      { intros l. induction l as [|[k v] l IH]; cbn; [done|]. intros [Hn Hd]%NoDup_cons.
        destruct (g k v) as [w|]; cbn; [|by apply IH]. apply NoDup_cons. split; [|by apply IH].
        intros ([k' w'] & Ek & (p & Hp & Ew)%list_elem_of_omap)%list_elem_of_fmap. cbn in Ek. subst k'.
        apply Hn. apply fmap_Some in Ew as (? & _ & [= -> ->]). by apply list_elem_of_fmap_2. }
      apply G, btree_iter_nodup.
    + apply NoDup_map_to_list.
    + intros [k w]. rewrite elem_of_map_to_list, map_lookup_imap, list_elem_of_omap. split.
      * intros ([k' v] & Hv & Ew). apply fmap_Some in Ew as (? & Ew & [= -> ->]).
        apply btree_iter_in in Hv. rewrite Hv. done.
      * intros Ew. destruct (m !! k) as [v|] eqn:Ev; [|done]. exists (k, v). split; [by apply btree_iter_in|].
        cbn in *. by rewrite Ew. }
unfold btree_values. rewrite E. clear E. induction (btree_iter m) as [|[k v] l IH]; cbn; [done|].
destruct (g k v); cbn; [f_equal|]; exact IH.
Qed.

(** Two maps read alike when they agree on what is kept. *)
Lemma omap_btree_iter_eq {V V' W} (g : K → V → option W) (g' : K → V' → option W) (m : gmap K V) (m' : gmap K V') :
(∀ k, (m !! k ≫= g k) = (m' !! k ≫= g' k)) →
omap (λ p, g (fst p) (snd p)) (btree_iter m) = omap (λ p, g' (fst p) (snd p)) (btree_iter m').
Proof.
intros E. rewrite !omap_btree_iter. f_equal. apply map_eq. intros k. by rewrite !map_lookup_imap.
Qed.

Lemma btree_values_filter {V} (p : V → bool) (m : gmap K V) :
btree_values (filter (λ kv, p kv.2 = true) m) = List.filter p (btree_values m).
Proof.
pose (g := λ (_ : K) v, if p v : bool then Some v else None).
transitivity (omap (λ kv, g (fst kv) (snd kv)) (btree_iter m)).
- rewrite omap_btree_iter. f_equal. apply map_eq. intros k. rewrite map_lookup_imap, map_lookup_filter.
  destruct (m !! k) as [v|]; cbn; [|done]. unfold g. destruct (p v) eqn:E.
  + case_guard; [done|]. by cbn in *.
  + case_guard; [|done]. cbn in *. congruence.
- unfold btree_values, g. induction (btree_iter m) as [|[k v] l IH]; cbn; [done|].
  destruct (p v); cbn; by rewrite IH.
Qed.

(** ** [BTreeSet] *)
Definition btree_set (l : list K) : list K := sort_by c (remove_dups l).

Lemma btree_set_in l x : x ∈ btree_set l ↔ x ∈ l.
Proof. unfold btree_set. by rewrite sort_by_perm, elem_of_remove_dups. Qed.

Lemma btree_set_nodup l : NoDup (btree_set l).
Proof. unfold btree_set. rewrite sort_by_perm. apply NoDup_remove_dups. Qed.

Lemma btree_set_sorted l : sorted_by c (btree_set l).
Proof. apply sort_by_sorted. apply _. Qed.

Lemma btree_set_ext l k : (∀ x, x ∈ l ↔ x ∈ k) → btree_set l = btree_set k.
Proof.
intros E. apply (sort_by_canonical c).
- intros x y _ _. apply cmp_eq.
- apply NoDup_Permutation; [apply NoDup_remove_dups..|]. intros x. by rewrite !elem_of_remove_dups.
Qed.
End btree.
