(* ===== verification/Text.v ===== *)
(** * Text: what the code uses of Rust's [str] and of [format!]

    A [&str] is the [string] of its UTF-8 bytes; [len] counts bytes. Holds
    trimming (Unicode [White_Space]), prefixes, splitting, decimal digits
    read ([parse_dec]) and written ([show_Z], [pad_left]), with the lemmas the
    round trips of [SoeValue] need. *)

From S2P Require Import Prelude.
From Stdlib Require Import Ascii String.

#[local] Open Scope Z_scope.

Definition code (a : ascii) : Z := Z.of_N (N_of_ascii a).

(** [str::len], in bytes. *)
Definition str_len (s : string) : nat := String.length s.

Fixpoint str_forall (p : ascii → bool) (s : string) : bool :=
  match s with
  | EmptyString => true
  | String a s => p a && str_forall p s
  end.

Definition str_is_empty (s : string) : bool :=
  match s with EmptyString => true | _ => false end.

Definition is_ascii_digit (a : ascii) : bool := in_range 48 57 (code a).
Definition is_ascii_lowercase (a : ascii) : bool := in_range 97 122 (code a).
Definition is_ascii_uppercase (a : ascii) : bool := in_range 65 90 (code a).
Definition is_ascii_alphanumeric (a : ascii) : bool :=
  is_ascii_digit a || is_ascii_lowercase a || is_ascii_uppercase a.

(** [str::strip_prefix]. *)
Fixpoint strip_prefix (p s : string) : option string :=
  match p, s with
  | EmptyString, _ => Some s
  | String a p, String b s => if Ascii.eqb a b then strip_prefix p s else None
  | String _ _, EmptyString => None
  end.

(** [str::split_once] at an ASCII char. *)
Fixpoint split_once (c : ascii) (s : string) : option (string * string) :=
  match s with
  | EmptyString => None
  | String a s =>
      if Ascii.eqb a c then Some (EmptyString, s)
      else match split_once c s with
           | Some (x, y) => Some (String a x, y)
           | None => None
           end
  end.

(** ** Trimming *)

Fixpoint bytes_str (l : list Z) : string :=
  match l with
  | [] => EmptyString
  | b :: l => String (ascii_of_N (Z.to_N b)) (bytes_str l)
  end.

(** The chars of Unicode [White_Space], as UTF-8. *)
Definition white_space : list string :=
  map bytes_str
    ([[9]; [10]; [11]; [12]; [13]; [32]; [194; 133]; [194; 160]; [225; 154; 128]]
     ++ map (λ i, [226; 128; i]) [128; 129; 130; 131; 132; 133; 134; 135; 136; 137; 138]
     ++ [[226; 128; 168]; [226; 128; 169]; [226; 128; 175]; [226; 129; 159];
         [227; 128; 128]]).

Fixpoint first_strip (ps : list string) (s : string) : option string :=
  match ps with
  | [] => None
  | p :: ps => match strip_prefix p s with Some r => Some r | None => first_strip ps s end
  end.

Fixpoint trim_start_fuel (ws : list string) (fuel : nat) (s : string) : string :=
  match fuel with
  | O => s
  | S f => match first_strip ws s with Some r => trim_start_fuel ws f r | None => s end
  end.

Fixpoint str_rev_onto (s acc : string) : string :=
  match s with EmptyString => acc | String a s => str_rev_onto s (String a acc) end.
Definition str_rev (s : string) : string := str_rev_onto s EmptyString.

(** [str::trim_start], [str::trim_end] (the same scan on the reversed bytes)
    and [str::trim]; one char at least goes per step, so the length is enough
    fuel. *)
Definition trim_start (s : string) : string := trim_start_fuel white_space (str_len s) s.
Definition trim_end (s : string) : string :=
  str_rev (trim_start_fuel (map str_rev white_space) (str_len s) (str_rev s)).
Definition trim (s : string) : string := trim_end (trim_start s).

(** The control characters U+0080 to U+009F as UTF-8. *)
Definition controls : list string :=
  map (λ i, bytes_str [194; Z.of_nat (128 + i)]) (seq 0 32).
Definition is_ascii_control (a : ascii) : bool := (code a <? 32) || (code a =? 127).

(** [chars().any(|c| c.is_whitespace() || c.is_control())]. *)
Fixpoint any_space_or_control (s : string) : bool :=
  match s with
  | EmptyString => false
  | String a s' =>
      is_ascii_control a
      || match first_strip (white_space ++ controls) s with Some _ => true | None => false end
      || any_space_or_control s'
  end.

(** ** Decimal digits *)

Definition digit_char (d : Z) : ascii := ascii_of_N (Z.to_N (48 + d)).

(** [parse::<int>()] of ASCII digits (its callers bound the length). *)
Fixpoint parse_dec (acc : Z) (s : string) : Z :=
  match s with
  | EmptyString => acc
  | String a s => parse_dec (acc * 10 + (code a - 48)) s
  end.

Fixpoint show_dec (fuel : nat) (n : Z) (acc : string) : string :=
  match fuel with
  | O => acc
  | S f =>
      let acc := String (digit_char (n mod 10)) acc in
      if n / 10 =? 0 then acc else show_dec f (n / 10) acc
  end.

(** [{n}] of an unsigned and of a signed integer. *)
Definition show_N (n : Z) : string := show_dec (S (Z.to_nat (Z.log2 n))) n EmptyString.
Definition show_Z (n : Z) : string :=
  if n <? 0 then String "-" (show_N (- n)) else show_N n.

Fixpoint zeros (n : nat) (s : string) : string :=
  match n with O => s | S n => String "0" (zeros n s) end.

(** [{s:0width$}]: zeros on the left up to [width] chars. *)
Definition pad_left (width : nat) (s : string) : string := zeros (width - str_len s) s.

(** [while s.ends_with('0') { s.pop(); }]. *)
Fixpoint trim_zeros (s : string) : string :=
  match s with
  | EmptyString => EmptyString
  | String a s =>
      match trim_zeros s with
      | EmptyString => if Ascii.eqb a "0" then EmptyString else String a EmptyString
      | t => String a t
      end
  end.

(** [parts.join(sep)]. *)
Fixpoint join (sep : string) (parts : list string) : string :=
  match parts with
  | [] => EmptyString
  | [p] => p
  | p :: ps => (p ++ sep ++ join sep ps)%string
  end.

(** ** Lemmas *)

Lemma code_digit_char d : 0 ≤ d ≤ 9 → code (digit_char d) = 48 + d.
Proof.
  intros H. unfold code, digit_char. rewrite N_ascii_embedding by lia. lia.
Qed.

Lemma digit_char_is_digit d : 0 ≤ d ≤ 9 → is_ascii_digit (digit_char d) = true.
Proof. intros H. apply in_range_spec. rewrite code_digit_char; lia. Qed.

Lemma str_app_cons c (a b : string) : (String c a ++ b)%string = String c (a ++ b)%string.
Proof. done. Qed.

Lemma str_forall_app p a b : str_forall p (a ++ b) = str_forall p a && str_forall p b.
Proof. induction a as [|x a IH]; simpl; [done|]. rewrite IH. by destruct (p x). Qed.

Lemma str_len_app a b : str_len (a ++ b) = (str_len a + str_len b)%nat.
Proof. unfold str_len. induction a as [|x a IH]; simpl; [done|]. by rewrite IH. Qed.

Lemma str_app_nil_r (s : string) : (s ++ "")%string = s.
Proof. induction s as [|a s IH]; [done|]. by rewrite str_app_cons, IH. Qed.

Lemma parse_dec_app acc a b : parse_dec acc (a ++ b) = parse_dec (parse_dec acc a) b.
Proof. revert acc. induction a as [|x a IH]; intros acc; simpl; [done|apply IH]. Qed.

Lemma parse_dec_zeros acc n s :
  parse_dec acc (zeros n s) = parse_dec (acc * 10 ^ Z.of_nat n) s.
Proof.
  revert acc. induction n as [|n IH]; intros acc; simpl zeros.
  { by rewrite Z.mul_1_r. }
  simpl. rewrite IH. f_equal. rewrite Nat2Z.inj_succ, Z.pow_succ_r by lia.
  change (code "0") with 48. lia.
Qed.

Lemma parse_dec_acc acc s : parse_dec acc s = acc * 10 ^ Z.of_nat (str_len s) + parse_dec 0 s.
Proof.
  revert acc. induction s as [|a s IH]; intros acc; simpl parse_dec.
  { simpl. lia. }
  rewrite IH, (IH (0 * 10 + _)). change (str_len (String a s)) with (S (str_len s)).
  rewrite Nat2Z.inj_succ, Z.pow_succ_r by lia. lia.
Qed.

Section show_dec.
Lemma log2_div10 n : 10 ≤ n → Z.log2 (n / 10) + 1 ≤ Z.log2 n.
Proof.
intros H. assert (Z.log2 (n / 10) + 3 ≤ Z.log2 n); [|lia].
assert (0 < n / 10) by (apply Z.div_str_pos; lia).
pose proof (Z.log2_mul_pow2 (n / 10) 3 ltac:(lia) ltac:(lia)) as E.
pose proof (Z.mul_div_le n 10 ltac:(lia)).
pose proof (Z.log2_le_mono (n / 10 * 2 ^ 3) n ltac:(lia)). lia.
Qed.

Lemma show_dec_ind (P : Z → string → string → Prop) :
(∀ n acc, 0 ≤ n < 10 → P n acc (String (digit_char n) acc)) →
(∀ n acc r, 10 ≤ n → P (n / 10) (String (digit_char (n mod 10)) acc) r → P n acc r) →
∀ fuel n acc, 0 ≤ n → Z.log2 n < Z.of_nat fuel → P n acc (show_dec fuel n acc).
Proof.
intros Hb Hs fuel. induction fuel as [|f IH]; intros n acc Hn Hf.
{ pose proof (Z.log2_nonneg n). lia. }
simpl. destruct (Z.eqb_spec (n / 10) 0) as [E|E].
- assert (n < 10) by (apply Z.div_small_iff in E; lia).
  rewrite Z.mod_small by lia. apply Hb. lia.
- assert (10 ≤ n). { destruct (Z.le_gt_cases 10 n); [done|]. rewrite Z.div_small in E; lia. }
  apply Hs; [done|]. pose proof (log2_div10 n). apply IH; [apply Z.div_pos; lia|lia].
Qed.
End show_dec.

Lemma show_N_ind (P : Z → string → string → Prop) :
  (∀ n acc, 0 ≤ n < 10 → P n acc (String (digit_char n) acc)) →
  (∀ n acc r, 10 ≤ n → P (n / 10) (String (digit_char (n mod 10)) acc) r → P n acc r) →
  ∀ n, 0 ≤ n → P n EmptyString (show_N n).
Proof.
  intros Hb Hs n Hn. unfold show_N. apply (show_dec_ind P); [done..|].
  pose proof (Z.log2_nonneg n). lia.
Qed.

Lemma parse_show_N n : 0 ≤ n → parse_dec 0 (show_N n) = n.
Proof.
  intros Hn. change n with (parse_dec n EmptyString) at 2. revert n Hn.
  apply (show_N_ind (λ n acc r, parse_dec 0 r = parse_dec n acc)).
  - intros n acc H. simpl. rewrite code_digit_char by lia. f_equal. lia.
  - intros n acc r H ->. simpl. pose proof (Z.mod_pos_bound n 10).
    rewrite code_digit_char by lia. f_equal. pose proof (Z.div_mod n 10). lia.
Qed.

Lemma show_N_digits n : 0 ≤ n → str_forall is_ascii_digit (show_N n) = true.
Proof.
  intros Hn. assert (Hacc : str_forall is_ascii_digit EmptyString = true) by done.
  revert n Hn Hacc.
  apply (show_N_ind (λ n acc r, str_forall is_ascii_digit acc = true →
                                str_forall is_ascii_digit r = true)).
  - intros n acc H Ha. simpl. rewrite digit_char_is_digit by lia. done.
  - intros n acc r H IH Ha. apply IH. simpl. pose proof (Z.mod_pos_bound n 10).
    rewrite digit_char_is_digit by lia. done.
Qed.

Lemma show_N_nonempty n : 0 ≤ n → str_is_empty (show_N n) = false.
Proof.
  revert n. apply (show_N_ind (λ n acc r, str_is_empty r = false)); done.
Qed.

Lemma show_N_len n k : 0 ≤ n < 10 ^ Z.of_nat k → (1 ≤ k)%nat → (str_len (show_N n) ≤ k)%nat.
Proof.
  intros [Hn Hlt] Hk.
  enough (∀ k, (1 ≤ k)%nat → n < 10 ^ Z.of_nat k →
    (str_len (show_N n) ≤ k + str_len EmptyString)%nat) as H.
  { specialize (H k Hk Hlt). simpl in H. lia. }
  clear k Hk Hlt. revert n Hn.
  apply (show_N_ind (λ n acc r, ∀ k, (1 ≤ k)%nat → n < 10 ^ Z.of_nat k →
    (str_len r ≤ k + str_len acc)%nat)).
  - intros n acc H k Hk _. unfold str_len. simpl. lia.
  - intros n acc r H IH k Hk Hlt.
    destruct k as [|[|k]]; [lia|simpl in Hlt; lia|].
    specialize (IH (S k) ltac:(lia)). unfold str_len in *. simpl in IH.
    enough (n / 10 < 10 ^ Z.of_nat (S k)) by (specialize (IH ltac:(done)); lia).
    apply Z.div_lt_upper_bound; [lia|].
    rewrite (Nat2Z.inj_succ (S k)), Z.pow_succ_r in Hlt; lia.
Qed.

Lemma str_len_zeros n s : str_len (zeros n s) = (n + str_len s)%nat.
Proof. unfold str_len. induction n as [|n IH]; simpl; [done|]. by rewrite IH. Qed.

Lemma zeros_digits n s :
  str_forall is_ascii_digit (zeros n s) = str_forall is_ascii_digit s.
Proof. induction n as [|n IH]; simpl; [done|]. by rewrite IH. Qed.

Lemma trim_zeros_split s : ∃ k, s = (trim_zeros s ++ zeros k EmptyString)%string.
Proof.
  induction s as [|a s [k IH]]; simpl. { by exists 0%nat. }
  destruct (trim_zeros s) as [|b t] eqn:E; simpl in *.
  - destruct (Ascii.eqb_spec a "0") as [->|]; simpl.
    + exists (S k). simpl. by rewrite IH at 1.
    + exists k. by rewrite str_app_cons, <-IH.
  - exists k. by rewrite str_app_cons, <-IH.
Qed.

Lemma split_once_app c a b :
  str_forall (λ x, negb (Ascii.eqb x c)) a = true →
  split_once c (a ++ String c b) = Some (a, b).
Proof.
  induction a as [|x a IH]; rewrite ?str_app_cons; simpl.
  { by rewrite Ascii.eqb_refl. }
  rewrite andb_true_iff. intros [H1 H2]. apply negb_true_iff in H1. rewrite H1, (IH H2). done.
Qed.

Lemma split_once_none c a :
  str_forall (λ x, negb (Ascii.eqb x c)) a = true → split_once c a = None.
Proof.
  induction a as [|x a IH]; simpl; [done|].
  rewrite andb_true_iff. intros [H1 H2]. apply negb_true_iff in H1. by rewrite H1, (IH H2).
Qed.

(** Digits are neither [c] for any non-digit [c]. *)
Lemma digits_avoid c s :
  is_ascii_digit c = false → str_forall is_ascii_digit s = true →
  str_forall (λ x, negb (Ascii.eqb x c)) s = true.
Proof.
  intros Hc. induction s as [|x s IH]; simpl; [done|].
  rewrite !andb_true_iff. intros [H1 H2]. split; [|by apply IH].
  destruct (Ascii.eqb_spec x c) as [->|]; [congruence|done].
Qed.
