(* ===== verification/Lineage.v ===== *)
(** * Lineage values: times and locators ([src/src/domain/lineage/value.rs])

    [Time] is an instant, a UTC day or unknown; two times compare only as far
    as what they may stand for allows. [Locator] is where a piece of evidence
    is. Parsing and printing of times is [chrono]'s and is not modelled. *)

From S2P Require Import Prelude.
From S2P Require Import Text.
From Stdlib Require Import Ascii String.

#[local] Open Scope Z_scope.

Definition UNKNOWN : string := "UNKNOWN".
Definition DAY_MS : Z := 86400000.

(** [valid_id]: [^[A-Za-z0-9][A-Za-z0-9._-]{0,79}$]. *)
Definition valid_id (id : string) : bool :=
  match id with
  | EmptyString => false
  | String a _ =>
      (str_len id <=? 80)%nat && is_ascii_alphanumeric a
      && str_forall (λ c, is_ascii_alphanumeric c || Ascii.eqb c "." || Ascii.eqb c "_"
                          || Ascii.eqb c "-") id
  end.

Definition is_lower_hex (c : ascii) : bool := is_ascii_digit c || in_range 97 102 (code c).

Definition valid_commit (s : string) : bool :=
  (str_len s =? 40)%nat && str_forall is_lower_hex s.

(** [domain/evidence.rs] *)
Definition valid_sha256 (s : string) : bool :=
  (str_len s =? 64)%nat && str_forall is_lower_hex s.

(** [path.split('/')]. *)
Fixpoint split_char (c : ascii) (s : string) : list string :=
  match s with
  | EmptyString => [EmptyString]
  | String a s =>
      if Ascii.eqb a c then EmptyString :: split_char c s
      else match split_char c s with
           | seg :: segs => String a seg :: segs
           | [] => [String a EmptyString]
           end
  end.

Definition backslash : ascii := "092".

Definition valid_segment (seg : string) : bool :=
  negb (str_is_empty seg) && negb (String.eqb seg ".") && negb (String.eqb seg "..").

Definition starts_with (p s : string) : bool :=
  match strip_prefix p s with Some _ => true | None => false end.

Definition valid_item_path (path : string) : bool :=
  negb (str_is_empty path) && negb (starts_with "/" path)
  && str_forall (λ c, negb (Ascii.eqb c backslash)) path
  && forallb valid_segment (split_char "/" path).

(** ** Time *)

Inductive Time : Type :=
  | At (t : Z)
  | Day (d : Z)
  | TimeUnknown.

Inductive TimeOrder : Type :=
  | NotAfter
  | After
  | Ambiguous
  | OrderUnknown.

#[export] Instance Time_eq_dec : EqDecision Time.
Proof. solve_decision. Defined.
#[export] Instance TimeOrder_eq_dec : EqDecision TimeOrder.
Proof. solve_decision. Defined.

Definition is_known (t : Time) : bool :=
  match t with TimeUnknown => false | _ => true end.

Definition earliest (t : Time) : option Z :=
  match t with At t | Day t => Some t | TimeUnknown => None end.

Definition latest (t : Time) : option Z :=
  match t with
  | At t => Some t
  | Day d => Some (d + DAY_MS - 1)
  | TimeUnknown => None
  end.

Definition window_end (t : Time) : option Z :=
  match t with
  | At t => Some t
  | Day d => Some (d + DAY_MS)
  | TimeUnknown => None
  end.

Definition order (a b : Time) : TimeOrder :=
  match earliest a, latest a, earliest b, latest b with
  | Some a_lo, Some a_hi, Some b_lo, Some b_hi =>
      if a_hi <=? b_lo then NotAfter
      else if b_hi <? a_lo then After
      else Ambiguous
  | _, _, _, _ => OrderUnknown
  end.

(** [sort_key]: unknown last, then by earliest instant. *)
Definition sort_key (t : Time) : bool * Z :=
  (negb (is_known t), match earliest t with Some e => e | None => i64_max end).

Definition cmp_time (a b : Time) : comparison :=
  let (ka, ea) := sort_key a in
  let (kb, eb) := sort_key b in
  cmp_then (match ka, kb with
            | false, true => Lt | true, false => Gt | _, _ => Eq end)
           (Z.compare ea eb).

Definition windows_overlap (a b : Time * Time) : option bool :=
  a_lo ← earliest a.1; a_hi ← window_end a.2;
  b_lo ← earliest b.1; b_hi ← window_end b.2;
  Some ((a_lo <? b_hi) && (b_lo <? a_hi)).

(** ** Record kinds and locators *)

Inductive RecordKind : Type :=
  | KFamily | KVariant | KExperiment | KEpisode | KIncident | KCapability
  | KGeneration | KEvidence | KRanking.

#[export] Instance RecordKind_eq_dec : EqDecision RecordKind.
Proof. solve_decision. Defined.

Definition RecordKind_ALL : list RecordKind :=
  [KFamily; KVariant; KExperiment; KEpisode; KIncident; KCapability; KGeneration;
   KEvidence; KRanking].

Definition kind_name (k : RecordKind) : string :=
  match k with
  | KFamily => "family" | KVariant => "variant" | KExperiment => "experiment"
  | KEpisode => "episode" | KIncident => "incident" | KCapability => "capability"
  | KGeneration => "generation" | KEvidence => "evidence" | KRanking => "ranking"
  end.

Definition kind_parse (s : string) : option RecordKind :=
  List.find (λ k, String.eqb (kind_name k) s) RecordKind_ALL.

Inductive Locator : Type :=
  | Repo (path : string)
  | Run (state run_id : string) (file : option string)
  | Vault (snapshot path : string)
  | State (state path : string)
  | Git (commit : string)
  | Record_ (kind : RecordKind) (id : string)
  | Url (url : string)
  | LocUnknown.

#[export] Instance Locator_eq_dec : EqDecision Locator.
Proof. solve_decision. Defined.

(** [split_first]: [<first segment>/<the rest>] with both valid. *)
Definition split_first (rest : string) : option (string * string) :=
  match split_once "/" rest with
  | None => None
  | Some (a, b) => if valid_item_path a && valid_item_path b then Some (a, b) else None
  end.

(** [impl FromStr for Locator]; an error keeps no text here. *)
Definition parse_locator (s : string) : option Locator :=
  if String.eqb s UNKNOWN then Some LocUnknown
  else
    '(scheme, rest) ← split_once ":" s;
    if String.eqb scheme "repo" then
      if valid_item_path rest then Some (Repo rest) else None
    else if String.eqb scheme "run" then
      '(state, tail) ← split_first rest;
      Some (match split_once "/" tail with
            | Some (id, file) => Run state id (Some file)
            | None => Run state tail None
            end)
    else if String.eqb scheme "vault" then
      '(snapshot, path) ← split_first rest; Some (Vault snapshot path)
    else if String.eqb scheme "state" then
      '(state, path) ← split_first rest; Some (State state path)
    else if String.eqb scheme "git" then
      if valid_commit rest then Some (Git rest) else None
    else if String.eqb scheme "record" then
      '(kind, id) ← split_once "/" rest;
      kind ← kind_parse kind;
      if valid_id id then Some (Record_ kind id) else None
    else if String.eqb scheme "url" then
      if starts_with "https://" rest && (8 <? str_len rest)%nat then Some (Url rest) else None
    else None.

(** [impl Display for Locator]. *)
Definition show_locator (l : Locator) : string :=
  (match l with
   | Repo p => "repo:" ++ p
   | Run state run_id (Some file) => "run:" ++ state ++ "/" ++ run_id ++ "/" ++ file
   | Run state run_id None => "run:" ++ state ++ "/" ++ run_id
   | Vault snapshot path => "vault:" ++ snapshot ++ "/" ++ path
   | State state path => "state:" ++ state ++ "/" ++ path
   | Git c => "git:" ++ c
   | Record_ kind id => "record:" ++ kind_name kind ++ "/" ++ id
   | Url u => "url:" ++ u
   | LocUnknown => UNKNOWN
   end)%string.

(** ** Lemmas *)

(** The instants a time may stand for. *)
Definition stands_for (t : Time) (i : Z) : Prop :=
  match t with
  | At t => i = t
  | Day d => d ≤ i < d + DAY_MS
  | TimeUnknown => False
  end.

Lemma stands_for_bounds t lo hi i :
  earliest t = Some lo → latest t = Some hi → stands_for t i ↔ lo ≤ i ≤ hi.
Proof. destruct t; simpl; intros [= <-] [= <-]; lia. Qed.

Lemma earliest_le_latest t lo hi : earliest t = Some lo → latest t = Some hi → lo ≤ hi.
Proof. destruct t; simpl; intros [= <-] [= <-]; unfold DAY_MS; lia. Qed.

Lemma known_bounds t : is_known t = true → ∃ lo hi, earliest t = Some lo ∧ latest t = Some hi.
Proof. destruct t; simpl; naive_solver. Qed.

Lemma split_once_inv c s a b : split_once c s = Some (a, b) → s = (a ++ String c b)%string.
Proof.
  revert a b. induction s as [|x s IH]; intros a b; simpl; [done|].
  destruct (Ascii.eqb_spec x c) as [->|]; [by intros [= <- <-]|].
  destruct (split_once c s) as [[a' b']|]; [|done]. intros [= <- <-].
  by rewrite str_app_cons, <-(IH a' b').
Qed.

Lemma split_first_inv rest a b :
  split_first rest = Some (a, b) →
  rest = (a ++ String "/" b)%string ∧ valid_item_path a = true ∧ valid_item_path b = true.
Proof.
  unfold split_first. destruct (split_once "/" rest) as [[x y]|] eqn:E; [|done].
  destruct (valid_item_path x) eqn:?, (valid_item_path y) eqn:?; simpl; try done.
  intros [= <- <-]. by apply split_once_inv in E.
Qed.

Lemma kind_parse_inv s k : kind_parse s = Some k → kind_name k = s.
Proof. intros [_ H]%List.find_some. by apply String.eqb_eq in H. Qed.

(** The paths a locator names: what is joined under a root. *)
Definition locator_paths (l : Locator) : list string :=
  match l with
  | Repo p => [p]
  | Run state run_id None => [state; run_id]
  | Run state run_id (Some file) => [state; (run_id ++ String "/" file)%string]
  | Vault a b | State a b => [a; b]
  | _ => []
  end.

#[local] Ltac eqb_case :=
  match goal with
  | |- context [String.eqb ?a ?b] => destruct (String.eqb_spec a b) as [->|?]
  end.

Lemma parse_locator_spec s l :
  parse_locator s = Some l →
  show_locator l = s ∧ Forall (λ p, valid_item_path p = true) (locator_paths l).
Proof.
  unfold parse_locator. eqb_case; [by intros [= <-]|].
  destruct (split_once ":" s) as [[scheme rest]|] eqn:E; simpl; [|done].
  apply split_once_inv in E as ->.
  repeat eqb_case; simpl; intros H; try done; try (case_match; [injection H as <-|done]).
  - split; [done|]. by constructor.
  - destruct (split_first rest) as [[a b]|] eqn:E; simpl in H; [|done].
    apply split_first_inv in E as (-> & Ha & Hb).
    destruct (split_once "/" b) as [[x y]|] eqn:E; injection H as <-; simpl.
    + apply split_once_inv in E as ->. split; [done|]. by repeat constructor.
    + split; [done|]. by repeat constructor.
  - destruct (split_first rest) as [[a b]|] eqn:E; simpl in H; [|done]. injection H as <-.
    apply split_first_inv in E as (-> & Ha & Hb). split; [done|]. by repeat constructor.
  - destruct (split_first rest) as [[a b]|] eqn:E; simpl in H; [|done]. injection H as <-.
    apply split_first_inv in E as (-> & Ha & Hb). split; [done|]. by repeat constructor.
  - by split; [|constructor].
  - destruct (split_once "/" rest) as [[a b]|] eqn:E; simpl in H; [|done].
    apply split_once_inv in E as ->.
    destruct (kind_parse a) as [k|] eqn:E; simpl in H; [|done]. apply kind_parse_inv in E as <-.
    case_match; [|done]. injection H as <-. split; [done|constructor].
  - by split; [|constructor].
Qed.

Lemma order_cases a b :
  is_known a = true → is_known b = true →
  match order a b with
  | NotAfter => ∀ i j, stands_for a i → stands_for b j → i ≤ j
  | After => ∀ i j, stands_for a i → stands_for b j → j < i
  | Ambiguous =>
      (∃ i j, stands_for a i ∧ stands_for b j ∧ j < i)
      ∧ (∃ i j, stands_for a i ∧ stands_for b j ∧ i ≤ j)
  | OrderUnknown => False
  end.
Proof.
  intros (al & ah & Ha & Ha')%known_bounds (bl & bh & Hb & Hb')%known_bounds.
  pose proof (earliest_le_latest _ _ _ Ha Ha'). pose proof (earliest_le_latest _ _ _ Hb Hb').
  unfold order. rewrite Ha, Ha', Hb, Hb'.
  pose proof (λ i, stands_for_bounds a al ah i Ha Ha') as Sa.
  pose proof (λ i, stands_for_bounds b bl bh i Hb Hb') as Sb.
  destruct (Z.leb_spec ah bl).
  { intros i j Hi%Sa Hj%Sb. lia. }
  destruct (Z.ltb_spec bh al).
  { intros i j Hi%Sa Hj%Sb. lia. }
  split; [exists ah, bl|exists al, bh]; rewrite Sa, Sb; lia.
Qed.

Lemma order_unknown a b : order a b = OrderUnknown ↔ is_known a = false ∨ is_known b = false.
Proof.
  unfold order. destruct a, b; simpl; repeat case_match; naive_solver.
Qed.

(** [after] excludes [not after]: the guards of the gates cannot both fire. *)
Lemma order_not_after_trans a b c :
  order a b = NotAfter → order b c = NotAfter → order a c = NotAfter.
Proof.
  unfold order.
  destruct a as [x|x|], b as [y|y|], c as [z|z|]; simpl; try done;
    repeat (case_match; try done);
    rewrite ?Z.leb_le, ?Z.leb_gt, ?Z.ltb_lt, ?Z.ltb_ge in *; unfold DAY_MS in *; try lia.
Qed.

#[export] Instance cmp_time_pre : PreCmp cmp_time.
Proof.
  split; unfold cmp_time; intros x y.
  - destruct (sort_key x) as [kx ex], (sort_key y) as [ky ey].
    rewrite (Z.compare_antisym ex ey). by destruct kx, ky, (ex ?= ey).
  - intros z. destruct (sort_key x) as [kx ex], (sort_key y) as [ky ey], (sort_key z) as [kz ez].
    destruct kx, ky, kz; simpl; try done; apply cmp_trans.
Qed.
