(* ===== verification/SoeValue.v ===== *)
(** * SOE values ([src/src/domain/soe/value.rs])

    Exact money in minor units, decimal text, rounding by [Flow], basis
    points, FX, three-point estimates with explicit unknowns, schema tags.
    A [Minor] is its [i64] as a [Z]; a [Bps] its [u16]; an error is its code
    (the message text decides nothing). *)

From Stdlib Require Import Ascii String.
From S2P Require Import Prelude.
From S2P Require Import Text.
From S2P Require Import Lineage.

#[local] Open Scope Z_scope.

(** ** Error codes ([mod codes]) *)
Inductive Code : Type :=
  | INVALID_AMOUNT | INVALID_CURRENCY | CURRENCY_MISMATCH | INVALID_BPS | INVALID_RATE
  | INVALID_ESTIMATE | INVALID_RANGE | INVALID_SCHEMA | SCHEMA_UNSUPPORTED
  | SCHEMA_MISMATCH | OVERFLOW | INVALID_RECORD | INVALID_ID | INVALID_VERSION
  | INVALID_FIELD | INVALID_TIME | DUPLICATE | FUTURE_LEAKAGE | FAKE_RECURRING
  | REVENUE_MODEL_MISMATCH | DEAL_REVIEW_MISSING | PRIVATE_LOCATOR
  | OPERATOR_PROFILE_UNSIGNED.

#[export] Instance Code_eq_dec : EqDecision Code.
Proof. solve_decision. Defined.

(** [Result<A, ValueError>]. *)
Notation R := (result Code).

(** ** Decimal text *)

Definition digits_only (t : string) : bool :=
  negb (str_is_empty t) && str_forall is_ascii_digit t.

(** The part of [parse_scaled] after the sign. *)
Definition parse_unsigned (body : string) (digits : nat) : option Z :=
  let (int, frac) := match split_once "." body with
                     | Some (i, f) => (i, Some f)
                     | None => (body, None)
                     end in
  if negb (digits_only int) then None
  else
    frac ← match frac with
           | None => Some EmptyString
           | Some f => if negb (digits_only f) then None
                       else if (digits <? str_len f)%nat then None
                       else Some f
           end;
    if (30 <? str_len int)%nat then None
    else
      let scale := 10 ^ Z.of_nat digits in
      let whole := parse_dec 0 int in
      let part := if str_is_empty frac then 0
                  else parse_dec 0 frac * 10 ^ Z.of_nat (digits - str_len frac) in
      Some (whole * scale + part).

Definition parse_scaled (s : string) (digits : nat) : option Z :=
  match strip_prefix "-" s with
  | Some rest => v ← parse_unsigned rest digits; Some (- v)
  | None => parse_unsigned s digits
  end.

Definition format_scaled (v : Z) (digits : nat) (trim : bool) : string :=
  let scale := 10 ^ Z.of_nat digits in
  let sign := if v <? 0 then "-"%string else EmptyString in
  let a := Z.abs v in
  let whole := a / scale in
  let part := a mod scale in
  let frac := pad_left digits (show_N part) in
  let frac := if trim then trim_zeros frac else frac in
  (if str_is_empty frac then sign ++ show_N whole
   else sign ++ show_N whole ++ String "." frac)%string.

(** ** Rounding *)

(** Rust's [/] and [%] truncate toward zero. *)
Definition div_floor (n d : Z) : Z :=
  let q := Z.quot n d in
  if negb (Z.rem n d =? 0) && negb (Bool.eqb (n <? 0) (d <? 0)) then q - 1 else q.

Definition div_ceil (n d : Z) : Z :=
  let q := Z.quot n d in
  if negb (Z.rem n d =? 0) && Bool.eqb (n <? 0) (d <? 0) then q + 1 else q.

Inductive Flow : Type := Inflow | Outflow.

Definition flow_div (f : Flow) (n d : Z) : Z :=
  match f with Inflow => div_floor n d | Outflow => div_ceil n d end.

(** ** Minor units, currencies, money *)

Notation Minor := Z (only parsing).
Notation Bps := Z (only parsing).

Definition MINOR_DIGITS : nat := 2.
Definition MINOR_PER_UNIT : Z := 100.

Module Minor.
Definition from_i128 (v : Z) : R Minor := ok_or (try_i64 v) OVERFLOW.
Definition units (whole : Z) : R Minor := ok_or (try_i64 (whole * MINOR_PER_UNIT)) INVALID_AMOUNT.
Definition checked_add (a b : Minor) : R Minor := ok_or (try_i64 (a + b)) OVERFLOW.
Definition checked_mul (a : Minor) (n : Z) : R Minor := ok_or (try_i64 (a * n)) OVERFLOW.
Definition mul_div (a : Minor) (num den : Z) (flow : Flow) : R Minor :=
if den <=? 0 then Err OVERFLOW
else from_i128 (flow_div flow (a * num) den).
(** [FromStr] and [Display]. *)
Definition from_str (s : string) : R Minor :=
v ← ok_or (parse_scaled s MINOR_DIGITS) INVALID_AMOUNT;
ok_or (try_i64 v) INVALID_AMOUNT.
Definition show (m : Minor) : string := format_scaled m MINOR_DIGITS false.
End Minor.

Inductive Currency : Type := Eur | Usd | Gbp | Chf | Kzt | Rub | Cny.

#[export] Instance Currency_eq_dec : EqDecision Currency.
Proof. solve_decision. Defined.

Definition Currency_ALL : list Currency := [Eur; Usd; Gbp; Chf; Kzt; Rub; Cny].

Definition currency_code (c : Currency) : string :=
  match c with
  | Eur => "EUR" | Usd => "USD" | Gbp => "GBP" | Chf => "CHF"
  | Kzt => "KZT" | Rub => "RUB" | Cny => "CNY"
  end.

Definition currency_parse (s : string) : option Currency :=
  List.find (λ c, String.eqb (currency_code c) s) Currency_ALL.

Definition currency_from_str (s : string) : R Currency :=
  ok_or (currency_parse s) INVALID_CURRENCY.

Record Money : Type := mkMoney { minor : Minor; currency : Currency }.

(** [PartialOrd for Money]: within one currency only. *)
Definition money_partial_cmp (a b : Money) : option comparison :=
  if decide (currency a = currency b) then Some (Z.compare (minor a) (minor b)) else None.

Definition show_money (m : Money) : string :=
  (Minor.show (minor m) ++ " " ++ currency_code (currency m))%string.

(** ** Basis points *)

Definition BPS_FULL : Z := 10000.

Definition bps_new (v : Z) : R Bps :=
  match try_u16 v with
  | Some b => if b <=? BPS_FULL then Ok b else Err INVALID_BPS
  | None => Err INVALID_BPS
  end.

(** ** FX *)

Definition RATE_DIGITS : nat := 8.
Definition RATE_SCALE : Z := 100000000.

Record CurrencyPair : Type := mkPair { base : Currency; quote : Currency }.

Definition pair_from_str (s : string) : R CurrencyPair :=
  '(b, q) ← ok_or (split_once "/" s) INVALID_RATE;
  b ← currency_from_str b;
  q ← currency_from_str q;
  if decide (b = q) then Err INVALID_RATE else Ok (mkPair b q).

Definition show_pair (p : CurrencyPair) : string :=
  (currency_code (base p) ++ "/" ++ currency_code (quote p))%string.

Record FxRate : Type := mkFxRate {
  pair : CurrencyPair;
  rate_e8 : Z;
  fx_source : Locator;
  fx_as_of : Time;
}.

(** [rate_text::parse]. *)
Definition rate_parse (s : string) : R Z :=
  v ← ok_or (parse_scaled s RATE_DIGITS) INVALID_RATE;
  match try_u64 v with
  | Some r => if 0 <? r then Ok r else Err INVALID_RATE
  | None => Err INVALID_RATE
  end.

Definition fx_product (r : FxRate) (native : Money) : R Z :=
  if decide (currency native = base (pair r)) then Ok (minor native * rate_e8 r)
  else Err CURRENCY_MISMATCH.

Definition fx_convert (r : FxRate) (native : Money) (flow : Flow) : R Money :=
  p ← fx_product r native;
  m ← Minor.from_i128 (flow_div flow p RATE_SCALE);
  Ok (mkMoney m (quote (pair r))).

Definition rate_show (r : FxRate) : string := format_scaled (rate_e8 r) RATE_DIGITS true.

(** ** Estimates, scenarios, assumptions *)

Inductive Side : Type := Favorable | Adverse.
Inductive Better : Type := Higher | Lower.
Inductive Scenario : Type := Downside | Base | Upside.

#[export] Instance Scenario_eq_dec : EqDecision Scenario.
Proof. solve_decision. Defined.

Definition scenario_side (s : Scenario) : option Side :=
  match s with Downside => Some Adverse | Base => None | Upside => Some Favorable end.

Inductive Est (T : Type) : Type :=
  | Unknown (reason : option string)
  | Range (low base high : T).
Arguments Unknown {T} reason.
Arguments Range {T} low base high.

Definition est_unknown {T} (reason : string) : Est T :=
  let reason := trim reason in
  Unknown (if str_is_empty reason then None else Some reason).

Definition est_is_known {T} (e : Est T) : bool :=
  match e with Range _ _ _ => true | Unknown _ => false end.

Definition est_base {T} (e : Est T) : option T :=
  match e with Range _ b _ => Some b | Unknown _ => None end.

Definition est_end {T} (e : Est T) (side : Side) (better : Better) : option T :=
  match e with
  | Unknown _ => None
  | Range low _ high =>
      Some (match side, better with
            | Favorable, Higher | Adverse, Lower => high
            | Favorable, Lower | Adverse, Higher => low
            end)
  end.

Definition est_pick {T} (e : Est T) (s : Scenario) (better : Better) : option T :=
  match scenario_side s with
  | None => est_base e
  | Some side => est_end e side better
  end.

(** [Est::range] over the type's [partial_cmp]. *)
Definition est_range {T} (pcmp : T → T → option comparison) (low base high : T) : R (Est T) :=
  let le a b := match pcmp a b with Some Lt | Some Eq => true | _ => false end in
  if negb (le low base) || negb (le base high) then Err INVALID_RANGE
  else Ok (Range low base high).

Definition est_point {T} (v : T) : Est T := Range v v v.

Definition parse_unknown (s : string) : R (option string) :=
  if String.eqb s UNKNOWN then Ok None
  else match (r ← strip_prefix UNKNOWN s; strip_prefix ":" r) with
       | Some reason =>
           if negb (str_is_empty (trim reason)) then Ok (Some (trim reason))
           else Err INVALID_ESTIMATE
       | None => Err INVALID_ESTIMATE
       end.

Record Assumption (T : Type) : Type := mkAssumption {
  value : Est T;
  evidence : list Locator;
  as_of : Time;
  note : option string;
}.
Arguments mkAssumption {T}.
Arguments value {T}.
Arguments evidence {T}.
Arguments as_of {T}.
Arguments note {T}.

Definition is_evidenced {T} (a : Assumption T) : bool :=
  existsb (λ l, negb (bool_decide (l = LocUnknown))) (evidence a).

(** ** Schema tags *)

Definition SCHEMA_V1 : Z := 1.
Definition SCHEMA_PREFIX : string := "soe.".

Record SchemaTag : Type := mkSchemaTag { tag_record : string; tag_version : Z }.

Definition valid_record_name (s : string) : bool :=
  match s with
  | EmptyString => false
  | String a _ =>
      (str_len s <=? 64)%nat && is_ascii_lowercase a
      && str_forall (λ c, is_ascii_lowercase c || is_ascii_digit c || Ascii.eqb c "_") s
  end.

Definition tag_from_str (s : string) : R SchemaTag :=
  '(record, version) ← ok_or (r ← strip_prefix SCHEMA_PREFIX s; split_once "/" r) INVALID_SCHEMA;
  let digits_ok := digits_only version && negb (starts_with "0" version) in
  if negb (valid_record_name record) || negb digits_ok then Err INVALID_SCHEMA
  else
    version ← ok_or (try_u32 (parse_dec 0 version)) INVALID_SCHEMA;
    if negb (version =? SCHEMA_V1) then Err SCHEMA_UNSUPPORTED
    else Ok (mkSchemaTag record version).

Definition tag_show (t : SchemaTag) : string :=
  (SCHEMA_PREFIX ++ tag_record t ++ "/" ++ show_N (tag_version t))%string.

Definition tag_v1 (record : string) : R SchemaTag :=
  tag_from_str (SCHEMA_PREFIX ++ record ++ "/" ++ show_N SCHEMA_V1)%string.

Definition tag_require (t : SchemaTag) (record : string) : R unit :=
  if String.eqb (tag_record t) record then Ok tt else Err SCHEMA_MISMATCH.

(** ** Lemmas: rounding *)

Lemma rem_zero_div n d : 0 < d → Z.rem n d = 0 → Z.quot n d = n / d.
Proof.
  intros Hd H. pose proof (Z.quot_rem' n d). apply (Z.div_unique n d _ 0); lia.
Qed.

Lemma div_floor_eq n d : 0 < d → div_floor n d = n / d.
Proof.
  intros Hd. unfold div_floor. destruct (Z.eqb_spec (Z.rem n d) 0) as [E|E]; simpl.
  { by apply rem_zero_div. }
  assert ((d <? 0) = false) as -> by (apply Z.ltb_ge; lia).
  pose proof (Z.quot_rem' n d). destruct (Z.ltb_spec n 0); simpl.
  - pose proof (Z.rem_bound_pos_neg n d Hd ltac:(lia)).
    apply (Z.div_unique n d _ (Z.rem n d + d)); lia.
  - pose proof (Z.rem_bound_pos n d ltac:(lia) Hd).
    apply (Z.div_unique n d _ (Z.rem n d)); lia.
Qed.

Lemma div_ceil_eq n d : 0 < d → div_ceil n d = - ((- n) / d).
Proof.
  intros Hd. unfold div_ceil. destruct (Z.eqb_spec (Z.rem n d) 0) as [E|E]; simpl.
  { assert (Z.rem (- n) d = 0) by (rewrite Z.rem_opp_l'; lia).
    rewrite <-(rem_zero_div (- n)), Z.quot_opp_l by lia. lia. }
  assert ((d <? 0) = false) as -> by (apply Z.ltb_ge; lia).
  pose proof (Z.quot_rem' n d). destruct (Z.ltb_spec n 0); simpl.
  - pose proof (Z.rem_bound_pos_neg n d Hd ltac:(lia)).
    rewrite <-(Z.div_unique (- n) d (- Z.quot n d) (- Z.rem n d)); lia.
  - pose proof (Z.rem_bound_pos n d ltac:(lia) Hd).
    rewrite <-(Z.div_unique (- n) d (- Z.quot n d - 1) (d - Z.rem n d)); lia.
Qed.

Lemma div_floor_spec n d q : 0 < d → div_floor n d = q ↔ d * q ≤ n < d * q + d.
Proof.
  intros Hd. rewrite div_floor_eq by done. split.
  - intros <-. pose proof (Z.mul_div_le n d). pose proof (Z.mul_succ_div_gt n d). lia.
  - intros H. symmetry. apply (Z.div_unique n d q (n - d * q)); lia.
Qed.

Lemma div_ceil_spec n d q : 0 < d → div_ceil n d = q ↔ d * q - d < n ≤ d * q.
Proof.
  intros Hd. rewrite div_ceil_eq by done. split.
  - intros <-. pose proof (Z.mul_div_le (- n) d). pose proof (Z.mul_succ_div_gt (- n) d). lia.
  - intros H. enough (- n / d = - q) by lia. symmetry.
    apply (Z.div_unique (- n) d (- q) (d * q - n)); lia.
Qed.

(** Names the bounds of every rounded quotient in sight, for [nia] / [lia]. *)
Ltac div_bounds :=
  repeat match goal with
  | |- context [div_floor ?n ?d] =>
      let q := fresh "q" in let Hq := fresh "Hq" in
      remember (div_floor n d) as q eqn:Hq; symmetry in Hq;
      apply div_floor_spec in Hq; [|lia]
  | |- context [div_ceil ?n ?d] =>
      let q := fresh "q" in let Hq := fresh "Hq" in
      remember (div_ceil n d) as q eqn:Hq; symmetry in Hq;
      apply div_ceil_spec in Hq; [|lia]
  end.

Lemma div_floor_mono n m d : 0 < d → n ≤ m → div_floor n d ≤ div_floor m d.
Proof. intros Hd H. rewrite !div_floor_eq by done. by apply Z.div_le_mono. Qed.

Lemma div_ceil_mono n m d : 0 < d → n ≤ m → div_ceil n d ≤ div_ceil m d.
Proof.
  intros Hd H. rewrite !div_ceil_eq by done.
  pose proof (Z.div_le_mono (- m) (- n) d). lia.
Qed.

Lemma flow_div_mono f n m d : 0 < d → n ≤ m → flow_div f n d ≤ flow_div f m d.
Proof. destruct f; [apply div_floor_mono|apply div_ceil_mono]. Qed.

Lemma div_floor_nonneg n d : 0 < d → 0 ≤ n → 0 ≤ div_floor n d.
Proof. intros. rewrite div_floor_eq by done. apply Z.div_pos; lia. Qed.

Lemma div_ceil_nonneg n d : 0 < d → 0 ≤ n → 0 ≤ div_ceil n d.
Proof. intros. div_bounds. nia. Qed.

Lemma div_floor_le_ceil n d : 0 < d → div_floor n d ≤ div_ceil n d ≤ div_floor n d + 1.
Proof. intros. div_bounds. nia. Qed.

Lemma flow_div_exact f d q : 0 < d → flow_div f (q * d) d = q.
Proof. intros. destruct f; simpl; [apply div_floor_spec|apply div_ceil_spec]; lia. Qed.

(** ** Lemmas: decimal text *)

Lemma digits_only_show_N n : 0 ≤ n → digits_only (show_N n) = true.
Proof. intros. unfold digits_only. by rewrite show_N_nonempty, show_N_digits. Qed.

Lemma strip_minus_digits s t :
  str_is_empty s = false → str_forall is_ascii_digit s = true →
  strip_prefix "-" (s ++ t) = None.
Proof.
  destruct s as [|a s]; [done|]. intros _. cbn [str_forall]. rewrite str_app_cons.
  intros [H _]%andb_prop. cbn [strip_prefix]. destruct (Ascii.eqb_spec "-" a) as [<-|]; done.
Qed.

Lemma str_forall_trim p s : str_forall p s = true → str_forall p (trim_zeros s) = true.
Proof.
  destruct (trim_zeros_split s) as [k E]. rewrite E at 1.
  rewrite str_forall_app. by intros [? _]%andb_prop.
Qed.

(** The fraction as printed reads back to the fraction. *)
Lemma frac_reads part digits (trim : bool) :
  (1 ≤ digits)%nat → 0 ≤ part < 10 ^ Z.of_nat digits →
  let frac := pad_left digits (show_N part) in
  let frac := if trim then trim_zeros frac else frac in
  str_forall is_ascii_digit frac = true
  ∧ (str_len frac ≤ digits)%nat
  ∧ parse_dec 0 frac * 10 ^ Z.of_nat (digits - str_len frac) = part.
Proof.
  intros Hd Hp. cbn zeta.
  pose proof (show_N_len part digits Hp Hd) as Hl.
  set (full := pad_left digits (show_N part)).
  assert (F1 : str_forall is_ascii_digit full = true).
  { unfold full, pad_left. rewrite zeros_digits. apply show_N_digits. lia. }
  assert (F2 : str_len full = digits).
  { unfold full, pad_left. rewrite str_len_zeros. lia. }
  assert (F3 : parse_dec 0 full = part).
  { unfold full, pad_left. rewrite parse_dec_zeros, Z.mul_0_l. apply parse_show_N. lia. }
  clearbody full. destruct trim.
  - split; [by apply str_forall_trim|].
    destruct (trim_zeros_split full) as [k E].
    assert (Hk : digits = (str_len (trim_zeros full) + k)%nat).
    { rewrite <-F2 at 1. rewrite E at 1. by rewrite str_len_app, str_len_zeros, Nat.add_0_r. }
    split; [lia|]. rewrite <-F3. rewrite E at 3. rewrite parse_dec_app, parse_dec_zeros. simpl.
    do 2 f_equal. lia.
  - split; [done|]. split; [lia|]. rewrite F2, F3, Nat.sub_diag. lia.
Qed.

Lemma parse_unsigned_whole n digits :
  0 ≤ n → (str_len (show_N n) ≤ 30)%nat →
  parse_unsigned (show_N n) digits = Some (n * 10 ^ Z.of_nat digits).
Proof.
  intros Hn Hl. unfold parse_unsigned.
  rewrite split_once_none by (apply digits_avoid; [done|by apply show_N_digits]).
  rewrite digits_only_show_N by done. cbn [negb mbind option_bind str_is_empty].
  rewrite parse_show_N by done.
  destruct (Nat.ltb_spec 30 (str_len (show_N n))); [lia|]. f_equal. lia.
Qed.

Lemma parse_unsigned_frac n frac digits :
  0 ≤ n → (str_len (show_N n) ≤ 30)%nat →
  str_is_empty frac = false → str_forall is_ascii_digit frac = true →
  (str_len frac ≤ digits)%nat →
  parse_unsigned (show_N n ++ String "." frac) digits
  = Some (n * 10 ^ Z.of_nat digits
          + parse_dec 0 frac * 10 ^ Z.of_nat (digits - str_len frac)).
Proof.
  intros Hn Hl Hf1 Hf2 Hf3. unfold parse_unsigned.
  rewrite split_once_app by (apply digits_avoid; [done|by apply show_N_digits]).
  rewrite digits_only_show_N by done. unfold digits_only. rewrite Hf1, Hf2. cbn [negb andb].
  destruct (Nat.ltb_spec digits (str_len frac)); [lia|]. cbn [mbind option_bind].
  destruct (Nat.ltb_spec 30 (str_len (show_N n))); [lia|]. rewrite Hf1.
  rewrite parse_show_N by done. done.
Qed.

Lemma parse_format v digits trim :
  (1 ≤ digits)%nat → Z.abs v < 10 ^ 30 * 10 ^ Z.of_nat digits →
  parse_scaled (format_scaled v digits trim) digits = Some v.
Proof.
  intros Hd Hv. unfold format_scaled.
  set (scale := 10 ^ Z.of_nat digits). assert (0 < scale) by (apply Z.pow_pos_nonneg; lia).
  pose proof (Z.mod_pos_bound (Z.abs v) scale ltac:(lia)) as Hm.
  pose proof (Z.div_mod (Z.abs v) scale ltac:(lia)) as Hdm.
  assert (Hw : 0 ≤ Z.abs v / scale) by (apply Z.div_pos; lia).
  assert (Hwl : (str_len (show_N (Z.abs v / scale)) ≤ 30)%nat).
  { apply show_N_len; [|lia]. split; [done|]. apply Z.div_lt_upper_bound; [done|].
    fold scale in Hv. change (Z.of_nat 30) with 30. lia. }
  pose proof (frac_reads (Z.abs v mod scale) digits trim Hd Hm) as (F1 & F2 & F3).
  set (frac := if trim then _ else _) in *. clearbody frac.
  set (body := (if str_is_empty frac then show_N (Z.abs v / scale)
                else show_N (Z.abs v / scale) ++ String "." frac)%string).
  assert (Hbody : parse_unsigned body digits = Some (Z.abs v)).
  { unfold body. destruct (str_is_empty frac) eqn:E.
    - rewrite parse_unsigned_whole by done. f_equal. fold scale.
      destruct frac; [|done]. simpl in F3. lia.
    - rewrite parse_unsigned_frac by done. f_equal. rewrite F3. fold scale. lia. }
  assert (Hstart : strip_prefix "-" body = None).
  { unfold body. destruct (str_is_empty frac).
    - rewrite <-(str_app_nil_r (show_N _)).
      apply strip_minus_digits; [by apply show_N_nonempty|by apply show_N_digits].
    - apply strip_minus_digits; [by apply show_N_nonempty|by apply show_N_digits]. }
  unfold parse_scaled. destruct (Z.ltb_spec v 0).
  - replace (if str_is_empty frac then _ else _) with (String "-" body)
      by (unfold body; destruct (str_is_empty frac); done).
    change (strip_prefix "-" (String "-" body)) with (Some body). cbn iota.
    rewrite Hbody. cbn [mbind option_bind]. f_equal. lia.
  - replace (if str_is_empty frac then _ else _) with body
      by (unfold body; destruct (str_is_empty frac); done).
    rewrite Hstart, Hbody. f_equal. lia.
Qed.

(** ** Lemmas: estimates *)

(** [low ≤ base ≤ high] (what [Est::range] lets through). *)
Definition est_ordered (e : Est Z) : Prop :=
  match e with Unknown _ => True | Range l b h => l ≤ b ≤ h end.

(** Every end of a known range satisfies [P]. *)
Definition est_all (P : Z → Prop) (e : Est Z) : Prop :=
  match e with Unknown _ => True | Range l b h => P l ∧ P b ∧ P h end.

Lemma est_range_ok {T} (pcmp : T → T → option comparison) l b h e :
  est_range pcmp l b h = Ok e → e = Range l b h.
Proof. unfold est_range. case_match; naive_solver. Qed.

Lemma est_range_ordered l b h e :
  est_range (λ x y, Some (Z.compare x y)) l b h = Ok e → est_ordered e.
Proof.
  unfold est_range. destruct (Z.compare_spec l b), (Z.compare_spec b h); simpl;
    intros [= <-]; simpl; lia.
Qed.

(** [worse s better x y]: [x] is no better than [y] for the candidate. *)
Definition no_better (better : Better) (x y : Z) : Prop :=
  match better with Higher => x ≤ y | Lower => y ≤ x end.

Lemma est_pick_order e better d b u :
  est_ordered e → est_pick e Downside better = Some d →
  est_pick e Base better = Some b → est_pick e Upside better = Some u →
  no_better better d b ∧ no_better better b u.
Proof.
  destruct e as [|l m h]; simpl; [done|]. destruct better; simpl; intros ?;
    intros [= <-] [= <-] [= <-]; lia.
Qed.

Lemma est_pick_known {T} (e : Est T) s better :
  is_Some (est_pick e s better) ↔ est_is_known e = true.
Proof.
  destruct e, s; simpl; split; intros H; try discriminate H; try done;
    solve [by destruct H|by eexists].
Qed.

Lemma est_pick_all P e s better v : est_all P e → est_pick e s better = Some v → P v.
Proof.
  destruct e as [|l b h]; [by destruct s|].
  intros (?&?&?). by destruct s, better; intros [= <-].
Qed.

(** ** Properties of the SOE values, times and locators *)

(** Money text round-trips: every [i64] amount of minor units prints to
    the decimal text that parses back to it. *)
Theorem minor_round_trip m :
  i64_min ≤ m ≤ i64_max → Minor.from_str (Minor.show m) = Ok m.
Proof.
  intros Hm. unfold Minor.from_str, Minor.show.
  rewrite parse_format; [|unfold MINOR_DIGITS; lia|unfold_ints; unfold MINOR_DIGITS; lia].
  simpl. unfold try_i64. assert (E : try_range i64_min i64_max m = Some m) by (by apply try_range_some).
  by rewrite E.
Qed.

Lemma minor_round_trip_witness :
  i64_min ≤ -9223372036854775808 ≤ i64_max
  ∧ Minor.from_str (Minor.show (-9223372036854775808)) = Ok (-9223372036854775808).
Proof.
  split; [vm_compute; split; discriminate|].
  apply (minor_round_trip (-9223372036854775808)). vm_compute. split; discriminate.
Defined.

(** The exact quotient, rounded against the candidate: an inflow down, an
    outflow up, by less than one unit. *)
Definition rounds_against (f : Flow) (n d q : Z) : Prop :=
  match f with
  | Inflow => d * q ≤ n < d * q + d
  | Outflow => d * q - d < n ≤ d * q
  end.

Lemma flow_div_rounds f n d q : 0 < d → flow_div f n d = q ↔ rounds_against f n d q.
Proof. intros. destruct f; [by apply div_floor_spec|by apply div_ceil_spec]. Qed.

(** [mul_div] multiplies exactly and rounds against the candidate: it
    returns the quotient rounded for its flow, and refuses exactly a
    divisor that is not positive or a quotient outside [i64]. *)
Theorem mul_div_rounds_against a num den flow :
  match Minor.mul_div a num den flow with
  | Ok q => 0 < den ∧ i64_min ≤ q ≤ i64_max ∧ rounds_against flow (a * num) den q
  | Err c => c = OVERFLOW
      ∧ (den ≤ 0 ∨ ∀ q, rounds_against flow (a * num) den q → q < i64_min ∨ i64_max < q)
  end.
Proof.
  unfold Minor.mul_div. destruct (Z.leb_spec den 0); [by split; [|left]|].
  unfold Minor.from_i128, try_i64.
  destruct (try_range i64_min i64_max (flow_div flow (a * num) den)) as [q|] eqn:E; simpl.
  - apply try_range_some in E as [-> E]. split_and!; [done|lia|lia|]. by apply flow_div_rounds.
  - apply try_range_none in E. split; [done|]. right. intros q Hq%flow_div_rounds; lia.
Qed.

(** FX conversion: the base currency becomes the quote currency at the
    rate, rounded for the flow; another currency or a result outside [i64]
    is refused, never a number. *)
Theorem fx_convert_spec r native flow :
  match fx_convert r native flow with
  | Ok m => currency native = base (pair r) ∧ currency m = quote (pair r)
      ∧ i64_min ≤ minor m ≤ i64_max
      ∧ rounds_against flow (minor native * rate_e8 r) RATE_SCALE (minor m)
  | Err c =>
      (c = CURRENCY_MISMATCH ∧ currency native ≠ base (pair r))
      ∨ (c = OVERFLOW ∧ ∀ q, rounds_against flow (minor native * rate_e8 r) RATE_SCALE q →
                               q < i64_min ∨ i64_max < q)
  end.
Proof.
  unfold fx_convert, fx_product. destruct (decide _) as [Hc|Hc]; [|by left].
  cbn [mbind result_bind]. unfold Minor.from_i128, try_i64.
  destruct (try_range i64_min i64_max _) as [q|] eqn:E; simpl.
  - apply try_range_some in E as [-> E]. split_and!; try done; [lia|lia|]. by apply flow_div_rounds.
  - right. split; [done|]. apply try_range_none in E. intros q Hq%flow_div_rounds; [lia|done].
Qed.

(** A locator that parses prints back to its text, and every path it
    names is safe to join under a root: no absolute path, no backslash, no
    empty, [.] or [..] segment. *)
Theorem locator_parses_safely s l :
  parse_locator s = Some l →
  show_locator l = s
  ∧ Forall (λ p, p ≠ EmptyString ∧ starts_with "/" p = false
                 ∧ str_forall (λ c, negb (Ascii.eqb c backslash)) p = true
                 ∧ ∀ seg, seg ∈ split_char "/" p →
                     seg ≠ EmptyString ∧ seg ≠ "."%string ∧ seg ≠ ".."%string)
      (locator_paths l).
Proof.
  intros [Hs Hp]%parse_locator_spec. split; [done|].
  eapply Forall_impl; [exact Hp|]. intros p H. cbn beta in H. unfold valid_item_path in H.
  apply andb_prop in H as [H Hseg]. apply andb_prop in H as [H Hb]. apply andb_prop in H as [He Ha].
  split_and!; [by destruct p|by apply negb_true_iff|done|].
  intros seg Hin. rewrite forallb_forall in Hseg.
  apply list_elem_of_In, Hseg in Hin. unfold valid_segment in Hin.
  apply andb_prop in Hin as [Hin H2]. apply andb_prop in Hin as [H0 H1].
  apply negb_true_iff in H1, H2. apply String.eqb_neq in H1, H2. split_and!; try done.
  by destruct seg.
Qed.

Lemma locator_parses_safely_witness :
  parse_locator "run:state/r1/out/log.txt" = Some (Run "state" "r1" (Some "out/log.txt"%string))
  ∧ show_locator (Run "state" "r1" (Some "out/log.txt"%string)) = "run:state/r1/out/log.txt"%string.
Proof.
  split; [vm_compute; reflexivity|].
  refine (proj1 (locator_parses_safely _ (Run "state" "r1" (Some "out/log.txt"%string)) _)).
  vm_compute. reflexivity.
Defined.

(** Comparing times never guesses: [NotAfter] and [After] hold for every
    instant the two times may stand for, [Ambiguous] exactly says that both
    orders are possible, and only an unknown time gives [Unknown]. *)
Theorem time_order_is_sound_and_complete a b :
  match order a b with
  | NotAfter => is_known a = true ∧ is_known b = true
      ∧ ∀ i j, stands_for a i → stands_for b j → i ≤ j
  | After => is_known a = true ∧ is_known b = true
      ∧ ∀ i j, stands_for a i → stands_for b j → j < i
  | Ambiguous => (∃ i j, stands_for a i ∧ stands_for b j ∧ j < i)
      ∧ (∃ i j, stands_for a i ∧ stands_for b j ∧ i ≤ j)
  | OrderUnknown => is_known a = false ∨ is_known b = false
  end.
Proof.
  destruct (is_known a) eqn:Ka, (is_known b) eqn:Kb.
  - pose proof (order_cases a b Ka Kb) as H. by destruct (order a b).
  - assert (order a b = OrderUnknown) as -> by (apply order_unknown; auto). by right.
  - assert (order a b = OrderUnknown) as -> by (apply order_unknown; auto). by left.
  - assert (order a b = OrderUnknown) as -> by (apply order_unknown; auto). by left.
Qed.

(** The three scenarios of an estimate are ordered for the candidate:
    the downside end is no better than the base and the base no better than
    the upside, whichever direction is better; and a range that does not
    ascend is refused. *)
Theorem estimate_ends_are_ordered l b h better :
  match est_range (λ x y, Some (Z.compare x y)) l b h with
  | Ok e => l ≤ b ≤ h
      ∧ ∃ d m u, est_pick e Downside better = Some d ∧ est_pick e Base better = Some m
        ∧ est_pick e Upside better = Some u ∧ no_better better d m ∧ no_better better m u
  | Err c => c = INVALID_RANGE ∧ (b < l ∨ h < b)
  end.
Proof.
  unfold est_range. destruct (Z.compare_spec l b), (Z.compare_spec b h); simpl; try (split; [done|lia]);
    (split; [lia|]); destruct better; simpl; eexists _, _, _; (split_and!; [done..|lia|lia]).
Qed.
