(* ===== verification/SoeRecord.v ===== *)
(** * SOE records ([src/src/domain/soe/{record,risk,experiment,opportunity,profile}.rs])

    The data the economics and the gates read, and what [validate] refuses.
    A problem is its code; the field names and the message text decide
    nothing and are left out. *)

From S2P Require Import Prelude.
From S2P Require Import Text.
From S2P Require Import Lineage.
From S2P Require Import SoeValue.
From Stdlib Require Import Ascii String.

#[local] Open Scope Z_scope.

(** ** record.rs *)

Inductive Tier : Type := TLow | TMedium | THigh | TUnknown.
Inductive Verdict : Type := VPass | VHold | VReject.

#[export] Instance Tier_eq_dec : EqDecision Tier.
Proof. solve_decision. Defined.
#[export] Instance Verdict_eq_dec : EqDecision Verdict.
Proof. solve_decision. Defined.

Definition tier_level (t : Tier) : option Z :=
  match t with TLow => Some 1 | TMedium => Some 2 | THigh => Some 3 | TUnknown => None end.

(** A stated text: not empty, not [UNKNOWN]. *)
Definition stated (s : string) : bool :=
  let s := trim s in negb (str_is_empty s) && negb (String.eqb s UNKNOWN).

(** [Problems]: the codes pushed so far, in order. *)
Notation Problems := (list Code).

Module Problems.
Definition check (ok : bool) (code : Code) : Problems := if ok then [] else [code].
Definition text (s : string) : Problems := check (negb (str_is_empty (trim s))) INVALID_FIELD.
Definition id (s : string) : Problems := check (valid_id s) INVALID_ID.
Definition sha256 (s : string) : Problems := check (valid_sha256 s) INVALID_FIELD.
Definition known (t : Time) : Problems := check (is_known t) INVALID_TIME.
Definition non_negative (m : Minor) : Problems := check (0 <=? m) INVALID_FIELD.
Definition not_after (t bound : Time) : Problems :=
check (negb (bool_decide (order t bound = After))) FUTURE_LEAKAGE.

Fixpoint unique_go {A} `{EqDecision A} (seen items : list A) : Problems :=
match items with
| [] => []
| x :: items =>
    if decide (x ∈ seen) then DUPLICATE :: unique_go seen items
    else unique_go (x :: seen) items
end.
(** No value twice. *)
Definition unique {A} `{EqDecision A} (items : list A) : Problems := unique_go [] items.

Fixpoint unique_texts_go (seen items : list string) : Problems :=
match items with
| [] => []
| s :: items =>
    text s ++ (if decide (s ∈ seen) then DUPLICATE :: unique_texts_go seen items
               else unique_texts_go (s :: seen) items)
end.
(** Each entry non-empty, none twice. *)
Definition unique_texts (items : list string) : Problems := unique_texts_go [] items.

Definition into_result (p : Problems) : result Problems unit :=
match p with [] => Ok tt | _ => Err p end.
End Problems.

(** A top-level SOE record. *)
Class SoeRecord (A : Type) : Type := {
  RECORD : string;
  rec_schema : A → SchemaTag;
  rec_id : A → string;
  rec_version : A → Z;
  rec_problems : A → Problems;
}.

(** Header + the record's own rules; every problem listed. *)
Definition validate {A} `{SoeRecord A} (r : A) : result Problems unit :=
  Problems.into_result
    ((match tag_require (rec_schema r) RECORD with Ok _ => [] | Err e => [e] end)
     ++ Problems.id (rec_id r)
     ++ Problems.check (1 <=? rec_version r) INVALID_VERSION
     ++ rec_problems r).

(** ** risk.rs *)

Inductive RiskKind : Type :=
  | RkCash | RkTime | RkLegal | RkSanctions | RkLicensing | RkData | RkPayment
  | RkTransferability | RkDependency | RkKeyPerson | RkPlatform | RkConcentration.

Definition is_legal (k : RiskKind) : bool :=
  match k with
  | RkLegal | RkSanctions | RkLicensing | RkData | RkTransferability => true
  | _ => false
  end.

(** As serialized ([SCREAMING_SNAKE_CASE]). *)
Definition risk_kind_name (k : RiskKind) : string :=
  match k with
  | RkCash => "CASH" | RkTime => "TIME" | RkLegal => "LEGAL" | RkSanctions => "SANCTIONS"
  | RkLicensing => "LICENSING" | RkData => "DATA" | RkPayment => "PAYMENT"
  | RkTransferability => "TRANSFERABILITY" | RkDependency => "DEPENDENCY"
  | RkKeyPerson => "KEY_PERSON" | RkPlatform => "PLATFORM" | RkConcentration => "CONCENTRATION"
  end.

Inductive RiskStatus : Type := Resolved | Unresolved | RsUnknown.
#[export] Instance RiskStatus_eq_dec : EqDecision RiskStatus.
Proof. solve_decision. Defined.

Definition risk_status_name (s : RiskStatus) : string :=
  match s with Resolved => "RESOLVED" | Unresolved => "UNRESOLVED" | RsUnknown => "UNKNOWN" end.

Inductive ConcentrationDimension : Type := Client | Platform | Channel | Supplier | Jurisdiction.
#[export] Instance ConcentrationDimension_eq_dec : EqDecision ConcentrationDimension.
Proof. solve_decision. Defined.

Inductive Boundedness : Type := Bounded | Unbounded | BUnknown.
#[export] Instance Boundedness_eq_dec : EqDecision Boundedness.
Proof. solve_decision. Defined.

Record MaxLoss : Type := mkMaxLoss {
  ml_cash : Est Minor;
  ml_owner_hours : Est Z;
  ml_reputation : string;
  ml_dependency : string;
}.

Definition unstated (m : MaxLoss) : list string :=
  (if est_is_known (ml_cash m) then [] else ["cash"%string])
  ++ (if est_is_known (ml_owner_hours m) then [] else ["owner_hours"%string])
  ++ (if stated (ml_reputation m) then [] else ["reputation"%string])
  ++ (if stated (ml_dependency m) then [] else ["dependency"%string]).

Record Risk : Type := mkRisk {
  rk_kind : RiskKind;
  rk_probability : Est Bps;
  rk_impact : Est Minor;
  rk_control : string;
  rk_status : RiskStatus;
}.

Record Concentration : Type := mkConcentration {
  cc_dimension : ConcentrationDimension;
  cc_name : string;
  cc_share : Bps;
}.

Record Bounds : Type := mkBounds {
  b_owner_time : Boundedness;
  b_support : Boundedness;
  b_payment_access : Boundedness;
  b_scope : Boundedness;
}.

Definition bounds_each (b : Bounds) : list (string * Boundedness) :=
  [("owner_time"%string, b_owner_time b); ("support"%string, b_support b);
   ("payment_access"%string, b_payment_access b); ("scope"%string, b_scope b)].

Record RiskAssessment : Type := mkRiskAssessment {
  max_loss : MaxLoss;
  risks : list Risk;
  concentration : list Concentration;
  bounds : Bounds;
}.

(** [iter().max()] of the shares. *)
Definition concentration_max (r : RiskAssessment) : option Bps :=
  match map cc_share (concentration r) with
  | [] => None
  | s :: ss => Some (fold_left Z.max ss s)
  end.

Definition est_low_problems (e : Est Minor) : Problems :=
  match e with Range low _ _ => Problems.non_negative low | Unknown _ => [] end.

Definition risk_problems (r : RiskAssessment) : Problems :=
  est_low_problems (ml_cash (max_loss r))
  ++ List.concat (map (λ x, Problems.text (rk_control x) ++ est_low_problems (rk_impact x)) (risks r))
  ++ List.concat (map (λ c, Problems.text (cc_name c)) (concentration r))
  ++ Problems.unique (map (λ c, (cc_dimension c, cc_name c)) (concentration r)).

(** ** experiment.rs *)

Inductive ApprovalKind : Type :=
  | ReadSource | AddSource | Contact | Publish | Spend | Sign | Deploy | PersonalData.
#[export] Instance ApprovalKind_eq_dec : EqDecision ApprovalKind.
Proof. solve_decision. Defined.

Inductive ThresholdOp : Type := Ge | Le.
Record Threshold : Type := mkThreshold { th_op : ThresholdOp; th_value : Z; th_unit : string }.

Record Stage : Type := mkStage {
  st_name : string;
  st_cash : Minor;
  st_recoverable : Minor;
  st_owner_hours : Z;
  st_stop_rule : option string;
}.

Record ExperimentSpec : Type := mkExperiment {
  hypothesis : string;
  metric : string;
  threshold : Threshold;
  deadline : Time;
  expires_at : Time;
  max_owner_hours : Z;
  stop_rule : string;
  approvals : list ApprovalKind;
  stages : list Stage;
}.

Definition total_cash (x : ExperimentSpec) : R Minor :=
  try_fold (λ acc s, Minor.checked_add acc (st_cash s)) 0 (stages x).

Fixpoint find_index {A} (p : A → bool) (i : nat) (l : list A) : option (nat * A) :=
  match l with
  | [] => None
  | a :: l => if p a then Some (i, a) else find_index p (S i) l
  end.

Definition first_spend (x : ExperimentSpec) : option (nat * Stage) :=
  find_index (λ s, 0 <? st_cash s) 0 (stages x).

Definition experiment_problems (x : ExperimentSpec) : Problems :=
  Problems.text (hypothesis x)
  ++ Problems.text (metric x)
  ++ Problems.text (stop_rule x)
  ++ Problems.text (th_unit (threshold x))
  ++ Problems.known (deadline x)
  ++ Problems.known (expires_at x)
  ++ Problems.check (negb (bool_decide (order (deadline x) (expires_at x) = After))) INVALID_TIME
  ++ Problems.unique (approvals x)
  ++ Problems.check (negb (bool_decide (stages x = nil))) INVALID_FIELD
  ++ Problems.unique_texts (map st_name (stages x))
  ++ List.concat (map (λ s,
       Problems.non_negative (st_cash s)
       ++ Problems.non_negative (st_recoverable s)
       ++ Problems.check (st_recoverable s <=? st_cash s) INVALID_FIELD
       ++ match st_stop_rule s with Some rule => Problems.text rule | None => [] end) (stages x))
  ++ (if is_ok (total_cash x) then [] else [OVERFLOW]).

(** ** opportunity.rs *)

Inductive Mechanism : Type :=
  | AcquireTransform | Automate | Integrate | RescueMigrate | Productize | BuildAdjacent
  | WhiteLabel | License | PartnerRevshare | HighTicketDelivery | MHold | MReject.
#[export] Instance Mechanism_eq_dec : EqDecision Mechanism.
Proof. solve_decision. Defined.

Inductive RevenueModel : Type :=
  | Recurring (leads_per_month : Assumption Z) (conversion churn_per_month : Assumption Bps)
      (price_per_month : Assumption Minor) (collection_loss : Assumption Bps)
  | OneOff (contract_value : Assumption Minor) (win_probability : Assumption Bps)
      (delivery_weeks owner_hours_total : Assumption Z) (collection_loss : Assumption Bps)
  | Acquisition (asset_monthly_revenue : Assumption Minor)
      (churn_per_month collection_loss : Assumption Bps)
  | RevenueShare (partner_monthly_revenue : Assumption Minor)
      (share collection_loss : Assumption Bps).

Definition revenue_kind (m : RevenueModel) : string :=
  match m with
  | Recurring _ _ _ _ _ => "RECURRING"
  | OneOff _ _ _ _ _ => "ONE_OFF"
  | Acquisition _ _ _ => "ACQUISITION"
  | RevenueShare _ _ _ => "REVENUE_SHARE"
  end.

(** One economic input of any value type. *)
Inductive Input : Type :=
  | Count (a : Assumption Z)
  | Share (a : Assumption Bps)
  | Amount (a : Assumption Minor).

Definition input_assumption (i : Input) : Assumption Z :=
  match i with Count a | Share a | Amount a => a end.

(** A mutable input: the value and what the owner becomes when it is
    assigned. *)
Inductive InputMut (S : Type) : Type :=
  | CountMut (a : Assumption Z) (put : Assumption Z → S)
  | ShareMut (a : Assumption Bps) (put : Assumption Bps → S)
  | AmountMut (a : Assumption Minor) (put : Assumption Minor → S).
Arguments CountMut {S}.
Arguments ShareMut {S}.
Arguments AmountMut {S}.

Definition input_mut_map {S T} (f : S → T) (i : InputMut S) : InputMut T :=
  match i with
  | CountMut a put => CountMut a (λ x, f (put x))
  | ShareMut a put => ShareMut a (λ x, f (put x))
  | AmountMut a put => AmountMut a (λ x, f (put x))
  end.

Definition revenue_inputs (m : RevenueModel) : list (string * Input) :=
  match m with
  | Recurring leads conv churn price loss =>
      [("leads_per_month", Count leads); ("conversion", Share conv);
       ("churn_per_month", Share churn); ("price_per_month", Amount price);
       ("collection_loss", Share loss)]%string
  | OneOff contract win weeks hours loss =>
      [("contract_value", Amount contract); ("win_probability", Share win);
       ("delivery_weeks", Count weeks); ("owner_hours_total", Count hours);
       ("collection_loss", Share loss)]%string
  | Acquisition asset churn loss =>
      [("asset_monthly_revenue", Amount asset); ("churn_per_month", Share churn);
       ("collection_loss", Share loss)]%string
  | RevenueShare partner share loss =>
      [("partner_monthly_revenue", Amount partner); ("share", Share share);
       ("collection_loss", Share loss)]%string
  end.

Definition revenue_inputs_mut (m : RevenueModel) : list (string * InputMut RevenueModel) :=
  match m with
  | Recurring leads conv churn price loss =>
      [("leads_per_month", CountMut leads (λ x, Recurring x conv churn price loss));
       ("conversion", ShareMut conv (λ x, Recurring leads x churn price loss));
       ("churn_per_month", ShareMut churn (λ x, Recurring leads conv x price loss));
       ("price_per_month", AmountMut price (λ x, Recurring leads conv churn x loss));
       ("collection_loss", ShareMut loss (λ x, Recurring leads conv churn price x))]%string
  | OneOff contract win weeks hours loss =>
      [("contract_value", AmountMut contract (λ x, OneOff x win weeks hours loss));
       ("win_probability", ShareMut win (λ x, OneOff contract x weeks hours loss));
       ("delivery_weeks", CountMut weeks (λ x, OneOff contract win x hours loss));
       ("owner_hours_total", CountMut hours (λ x, OneOff contract win weeks x loss));
       ("collection_loss", ShareMut loss (λ x, OneOff contract win weeks hours x))]%string
  | Acquisition asset churn loss =>
      [("asset_monthly_revenue", AmountMut asset (λ x, Acquisition x churn loss));
       ("churn_per_month", ShareMut churn (λ x, Acquisition asset x loss));
       ("collection_loss", ShareMut loss (λ x, Acquisition asset churn x))]%string
  | RevenueShare partner share loss =>
      [("partner_monthly_revenue", AmountMut partner (λ x, RevenueShare x share loss));
       ("share", ShareMut share (λ x, RevenueShare partner x loss));
       ("collection_loss", ShareMut loss (λ x, RevenueShare partner share x))]%string
  end.

(** What the gates read of one input: no value, only its state. *)
Record InputState : Type := mkInputState {
  is_field : string;
  is_known_ : bool;
  is_evidenced_ : bool;
  is_as_of : Time;
}.

Definition input_state (i : Input) (field : string) : InputState :=
  let a := input_assumption i in
  mkInputState field (est_is_known (value a)) (is_evidenced a) (as_of a).

Definition amount_low (i : Input) : option Minor :=
  match i with
  | Amount a => match value a with Range low _ _ => Some low | Unknown _ => None end
  | _ => None
  end.

Record InitialCapital : Type := mkInitialCapital {
  acquisition : Assumption Minor;
  setup : Assumption Minor;
  validation : Assumption Minor;
  working_capital : Assumption Minor;
}.

Inductive RevenueQuality : Type :=
  | QRecurring | QContracted | QTransactional | QOneOff | QSpeculative.
Inductive TaxReview : Type := TaxUnknown | TaxReviewed.

Record EconomicInputs : Type := mkEconomicInputs {
  e_currency : Currency;
  e_fx : option FxRate;
  e_revenue : RevenueModel;
  e_variable_cost : Assumption Bps;
  e_fixed_costs_per_month : Assumption Minor;
  e_owner_hours_per_month : Assumption Z;
  e_ramp_months : Assumption Z;
  e_initial : InitialCapital;
  e_revenue_quality : RevenueQuality;
  e_tax_review : TaxReview;
}.

(** Every input with its dotted field, revenue inputs first. *)
Definition inputs (e : EconomicInputs) : list (string * Input) :=
  map (λ '(f, i), (("economics.revenue." ++ f)%string, i)) (revenue_inputs (e_revenue e))
  ++ [("economics.variable_cost", Share (e_variable_cost e));
      ("economics.fixed_costs_per_month", Amount (e_fixed_costs_per_month e));
      ("economics.owner_hours_per_month", Count (e_owner_hours_per_month e));
      ("economics.ramp_months", Count (e_ramp_months e));
      ("economics.initial.acquisition", Amount (acquisition (e_initial e)));
      ("economics.initial.setup", Amount (setup (e_initial e)));
      ("economics.initial.validation", Amount (validation (e_initial e)));
      ("economics.initial.working_capital", Amount (working_capital (e_initial e)))]%string.

Definition input_states (e : EconomicInputs) : list InputState :=
  map (λ '(f, i), input_state i f) (inputs e).

(** [iter().find(|(f, _)| f == field).map(|(_, i)| i)]. *)
Fixpoint assoc {A} (field : string) (l : list (string * A)) : option A :=
  match l with
  | [] => None
  | (f, i) :: l => if String.eqb f field then Some i else assoc field l
  end.

Definition input (e : EconomicInputs) (field : string) : option Input := assoc field (inputs e).

Definition set_revenue (e : EconomicInputs) (m : RevenueModel) : EconomicInputs :=
  mkEconomicInputs (e_currency e) (e_fx e) m (e_variable_cost e) (e_fixed_costs_per_month e)
    (e_owner_hours_per_month e) (e_ramp_months e) (e_initial e) (e_revenue_quality e)
    (e_tax_review e).
Definition set_variable_cost (e : EconomicInputs) (x : Assumption Bps) : EconomicInputs :=
  mkEconomicInputs (e_currency e) (e_fx e) (e_revenue e) x (e_fixed_costs_per_month e)
    (e_owner_hours_per_month e) (e_ramp_months e) (e_initial e) (e_revenue_quality e)
    (e_tax_review e).
Definition set_fixed_costs (e : EconomicInputs) (x : Assumption Minor) : EconomicInputs :=
  mkEconomicInputs (e_currency e) (e_fx e) (e_revenue e) (e_variable_cost e) x
    (e_owner_hours_per_month e) (e_ramp_months e) (e_initial e) (e_revenue_quality e)
    (e_tax_review e).
Definition set_owner_hours (e : EconomicInputs) (x : Assumption Z) : EconomicInputs :=
  mkEconomicInputs (e_currency e) (e_fx e) (e_revenue e) (e_variable_cost e)
    (e_fixed_costs_per_month e) x (e_ramp_months e) (e_initial e) (e_revenue_quality e)
    (e_tax_review e).
Definition set_ramp (e : EconomicInputs) (x : Assumption Z) : EconomicInputs :=
  mkEconomicInputs (e_currency e) (e_fx e) (e_revenue e) (e_variable_cost e)
    (e_fixed_costs_per_month e) (e_owner_hours_per_month e) x (e_initial e)
    (e_revenue_quality e) (e_tax_review e).
Definition set_initial (e : EconomicInputs) (i : InitialCapital) : EconomicInputs :=
  mkEconomicInputs (e_currency e) (e_fx e) (e_revenue e) (e_variable_cost e)
    (e_fixed_costs_per_month e) (e_owner_hours_per_month e) (e_ramp_months e) i
    (e_revenue_quality e) (e_tax_review e).

Definition input_mut (e : EconomicInputs) (field : string) : option (InputMut EconomicInputs) :=
  rest ← strip_prefix "economics." field;
  match strip_prefix "revenue." rest with
  | Some name =>
      i ← assoc name (revenue_inputs_mut (e_revenue e));
      Some (input_mut_map (set_revenue e) i)
  | None =>
      let i := e_initial e in
      let with_initial (f : Assumption Minor → InitialCapital) x := set_initial e (f x) in
      if String.eqb rest "variable_cost" then Some (ShareMut (e_variable_cost e) (set_variable_cost e))
      else if String.eqb rest "fixed_costs_per_month" then
        Some (AmountMut (e_fixed_costs_per_month e) (set_fixed_costs e))
      else if String.eqb rest "owner_hours_per_month" then
        Some (CountMut (e_owner_hours_per_month e) (set_owner_hours e))
      else if String.eqb rest "ramp_months" then Some (CountMut (e_ramp_months e) (set_ramp e))
      else if String.eqb rest "initial.acquisition" then
        Some (AmountMut (acquisition i) (with_initial (λ x, mkInitialCapital x (setup i) (validation i) (working_capital i))))
      else if String.eqb rest "initial.setup" then
        Some (AmountMut (setup i) (with_initial (λ x, mkInitialCapital (acquisition i) x (validation i) (working_capital i))))
      else if String.eqb rest "initial.validation" then
        Some (AmountMut (validation i) (with_initial (λ x, mkInitialCapital (acquisition i) (setup i) x (working_capital i))))
      else if String.eqb rest "initial.working_capital" then
        Some (AmountMut (working_capital i) (with_initial (λ x, mkInitialCapital (acquisition i) (setup i) (validation i) x)))
      else None
  end.

Record Jurisdictions : Type := mkJurisdictions {
  j_customer : string; j_operator : string; j_entity : string; j_delivery : string;
  j_tax : string; j_payment : string; j_data : string;
}.

Definition jurisdictions_each (j : Jurisdictions) : list (string * string) :=
  [("customer", j_customer j); ("operator", j_operator j); ("entity", j_entity j);
   ("delivery", j_delivery j); ("tax", j_tax j); ("payment", j_payment j);
   ("data", j_data j)]%string.

Inductive DiligenceStatus : Type := Verified | SellerClaim | Unverified | RedFlag | DsUnknown.
#[export] Instance DiligenceStatus_eq_dec : EqDecision DiligenceStatus.
Proof. solve_decision. Defined.

Definition diligence_status_name (s : DiligenceStatus) : string :=
  match s with
  | Verified => "VERIFIED" | SellerClaim => "SELLER_CLAIM" | Unverified => "UNVERIFIED"
  | RedFlag => "RED_FLAG" | DsUnknown => "UNKNOWN"
  end.

Record DiligenceBlock : Type := mkBlock {
  db_status : DiligenceStatus;
  db_evidence : list Locator;
  db_note : option string;
}.

Record DealReview : Type := mkDeal {
  d_identity : DiligenceBlock; d_ownership : DiligenceBlock; d_revenue_proof : DiligenceBlock;
  d_costs : DiligenceBlock; d_technical : DiligenceBlock; d_distribution : DiligenceBlock;
  d_legal : DiligenceBlock; d_transition : DiligenceBlock;
  d_red_flags : list string;
}.

Definition blocks (d : DealReview) : list (string * DiligenceBlock) :=
  [("identity", d_identity d); ("ownership", d_ownership d);
   ("revenue_proof", d_revenue_proof d); ("costs", d_costs d);
   ("technical", d_technical d); ("distribution", d_distribution d);
   ("legal", d_legal d); ("transition", d_transition d)]%string.

Record Ordinal : Type := mkOrdinal { o_defensibility : Tier; o_reversibility : Tier }.

Record Opportunity : Type := mkOpportunity {
  op_schema : SchemaTag;
  op_id : string;
  op_version : Z;
  op_as_of : Time;
  op_customer : string;
  op_pain : string;
  op_mechanism : Mechanism;
  op_alternatives : list Mechanism;
  op_requires_skills : list string;
  op_signals : list string;
  op_jurisdictions : Jurisdictions;
  op_economics : EconomicInputs;
  op_risk : RiskAssessment;
  op_experiment : option ExperimentSpec;
  op_deal : option DealReview;
  op_ordinal : Ordinal;
}.

Definition set_economics (o : Opportunity) (e : EconomicInputs) : Opportunity :=
  mkOpportunity (op_schema o) (op_id o) (op_version o) (op_as_of o) (op_customer o) (op_pain o)
    (op_mechanism o) (op_alternatives o) (op_requires_skills o) (op_signals o)
    (op_jurisdictions o) e (op_risk o) (op_experiment o) (op_deal o) (op_ordinal o).

Definition has_evidence (l : list Locator) : bool :=
  existsb (λ x, negb (bool_decide (x = LocUnknown))) l.

Definition mechanism_problems (m : Mechanism) (r : RevenueModel) : Problems :=
  match m, r with
  | HighTicketDelivery, Recurring _ _ _ _ _ => [FAKE_RECURRING]
  | PartnerRevshare, RevenueShare _ _ _ => []
  | PartnerRevshare, _ => [REVENUE_MODEL_MISMATCH]
  | AcquireTransform, Acquisition _ _ _ => []
  | AcquireTransform, _ => [REVENUE_MODEL_MISMATCH]
  | _, _ => []
  end.

Definition economics_problems (o : Opportunity) : Problems :=
  let e := op_economics o in
  (match e_fx e with
   | Some fx =>
       Problems.check (bool_decide (base (pair fx) = e_currency e)) INVALID_FIELD
       ++ Problems.not_after (fx_as_of fx) (op_as_of o)
   | None => []
   end)
  ++ List.concat (map (λ '(field, i),
       (match amount_low i with Some low => Problems.non_negative low | None => [] end)
       ++ Problems.not_after (is_as_of (input_state i field)) (op_as_of o)) (inputs e)).

Definition opportunity_problems (o : Opportunity) : Problems :=
  Problems.known (op_as_of o)
  ++ Problems.text (op_customer o)
  ++ Problems.text (op_pain o)
  ++ Problems.unique (op_alternatives o)
  ++ Problems.check (negb (bool_decide (op_mechanism o ∈ op_alternatives o))) DUPLICATE
  ++ Problems.unique_texts (op_requires_skills o)
  ++ Problems.unique_texts (op_signals o)
  ++ List.concat (map (λ '(_, v), Problems.text v) (jurisdictions_each (op_jurisdictions o)))
  ++ mechanism_problems (op_mechanism o) (e_revenue (op_economics o))
  ++ Problems.check (negb (bool_decide (op_mechanism o = AcquireTransform))
                     || (match op_deal o with Some _ => true | None => false end))
       DEAL_REVIEW_MISSING
  ++ economics_problems o
  ++ risk_problems (op_risk o)
  ++ (match op_experiment o with
      | Some x =>
          experiment_problems x
          ++ Problems.check (negb (bool_decide (order (op_as_of o) (deadline x) = After))) INVALID_TIME
      | None => []
      end)
  ++ (match op_deal o with
      | Some d =>
          List.concat (map (λ '(_, b),
            Problems.check (negb (bool_decide (db_status b = Verified)) || has_evidence (db_evidence b))
              INVALID_FIELD) (blocks d))
          ++ Problems.unique_texts (d_red_flags d)
      | None => []
      end).

#[export] Instance Opportunity_record : SoeRecord Opportunity := {|
  RECORD := "opportunity";
  rec_schema := op_schema;
  rec_id := op_id;
  rec_version := op_version;
  rec_problems := opportunity_problems;
|}.

(** ** profile.rs *)

Definition UNSIGNED : string := "UNSIGNED".
(** [economics::PAYBACK_SCAN_MONTHS]. *)
Definition PAYBACK_SCAN_MONTHS : Z := 600.

Inductive ProfitBasis : Type := PreTax | PostTax.
#[export] Instance ProfitBasis_eq_dec : EqDecision ProfitBasis.
Proof. solve_decision. Defined.
Inductive ContributionBasis : Type := TimeAdjusted | Cash.
Inductive PublicCadence : Type := PcNone | Weekly | Monthly | OnEvidence.

Inductive RankKey : Type :=
  | EvidenceConfidence | TimeAdjustedBase | PaybackBase | DaysToDecisiveEvidence
  | Reversibility | CapabilityFit | ConcentrationMax | Defensibility.
#[export] Instance RankKey_eq_dec : EqDecision RankKey.
Proof. solve_decision. Defined.

Definition rank_key_better (k : RankKey) : Better :=
  match k with
  | PaybackBase | DaysToDecisiveEvidence | ConcentrationMax => Lower
  | _ => Higher
  end.

Inductive CapabilityLevel : Type := Proven | Claimed | ClUnknown.
#[export] Instance CapabilityLevel_eq_dec : EqDecision CapabilityLevel.
Proof. solve_decision. Defined.

Record OperatorCapability : Type := mkCapability {
  cap_id : string;
  cap_skill : string;
  cap_level : CapabilityLevel;
  cap_proof : list Locator;
  cap_capacity_hours_per_week : Est Z;
  cap_delivery_cost_per_hour : Est Minor;
  cap_dependencies : list string;
  cap_as_of : Time;
  cap_valid_until : Time;
}.

Record OperatorProfile : Type := mkProfile {
  p_schema : SchemaTag;
  p_id : string;
  p_version : Z;
  p_valid_from : Time;
  p_signed_by : string;
  p_signed_at : Time;
  p_synthetic : bool;
  p_currency : Currency;
  p_profit_basis : ProfitBasis;
  p_contribution_basis : ContributionBasis;
  p_max_cash_exposure : Minor;
  p_min_monthly_contribution : Minor;
  p_shadow_hourly_rate : Minor;
  p_max_payback_months : Z;
  p_weekly_owner_hours : Z;
  p_max_validation_tranche : Minor;
  p_max_one_off_delivery_weeks : Z;
  p_jurisdictions_allow : list string;
  p_channels_allow : list string;
  p_languages : list string;
  p_exclusions : list string;
  p_public_cadence : PublicCadence;
  p_rank_order : list RankKey;
  p_capabilities : list OperatorCapability;
}.

Definition is_signed (p : OperatorProfile) : bool :=
  let by_ := trim (p_signed_by p) in
  negb (str_is_empty by_) && negb (String.eqb by_ UNSIGNED) && is_known (p_signed_at p).

Definition profile_problems (p : OperatorProfile) : Problems :=
  Problems.known (p_valid_from p)
  ++ Problems.text (p_signed_by p)
  ++ (if String.eqb (trim (p_signed_by p)) UNSIGNED then [] else Problems.known (p_signed_at p))
  ++ Problems.check (0 <? p_max_cash_exposure p) INVALID_FIELD
  ++ Problems.check (0 <? p_max_validation_tranche p) INVALID_FIELD
  ++ Problems.check (p_max_validation_tranche p <=? p_max_cash_exposure p) INVALID_FIELD
  ++ Problems.non_negative (p_min_monthly_contribution p)
  ++ Problems.non_negative (p_shadow_hourly_rate p)
  ++ Problems.check (1 <=? p_max_payback_months p) INVALID_FIELD
  ++ Problems.check (1 <=? p_weekly_owner_hours p) INVALID_FIELD
  ++ Problems.check (1 <=? p_max_one_off_delivery_weeks p) INVALID_FIELD
  ++ Problems.check (p_max_payback_months p <=? PAYBACK_SCAN_MONTHS) INVALID_FIELD
  ++ Problems.check (p_weekly_owner_hours p <=? 168) INVALID_FIELD
  ++ Problems.unique_texts (p_jurisdictions_allow p)
  ++ Problems.unique_texts (p_channels_allow p)
  ++ Problems.unique_texts (p_languages p)
  ++ Problems.unique_texts (p_exclusions p)
  ++ Problems.check (negb (bool_decide (p_rank_order p = nil))) INVALID_FIELD
  ++ Problems.unique (p_rank_order p)
  ++ Problems.unique (map cap_id (p_capabilities p))
  ++ List.concat (map (λ c,
       Problems.id (cap_id c)
       ++ Problems.text (cap_skill c)
       ++ Problems.check (negb (bool_decide (cap_level c = Proven)) || has_evidence (cap_proof c))
            INVALID_FIELD
       ++ Problems.unique_texts (cap_dependencies c)
       ++ est_low_problems (cap_delivery_cost_per_hour c)
       ++ Problems.check (negb (bool_decide (order (cap_as_of c) (cap_valid_until c) = After)))
            INVALID_TIME) (p_capabilities p)).

#[export] Instance OperatorProfile_record : SoeRecord OperatorProfile := {|
  RECORD := "operator_profile";
  rec_schema := p_schema;
  rec_id := p_id;
  rec_version := p_version;
  rec_problems := profile_problems;
|}.
