(* ===== verification/SoePortfolio.v ===== *)
(** * The weekly portfolio and the public brief
    ([src/src/domain/soe/portfolio.rs])

    The week's allocation record and what [validate] refuses of it. An ISO
    week is its year and number; which pairs exist is chrono's calendar. *)

From Stdlib Require Import Ascii String.
From S2P Require Import Prelude.
From S2P Require Import Text.
From S2P Require Import Lineage.
From S2P Require Import SoeValue.
From S2P Require Import SoeRecord.

#[local] Open Scope string_scope.
#[local] Open Scope list_scope.
#[local] Open Scope Z_scope.

Record IsoWeek : Type := mkIsoWeek { iw_year : Z; iw_week : Z }.

#[export] Instance IsoWeek_eq_dec : EqDecision IsoWeek.
Proof. solve_decision. Defined.

(** [{:04}-W{:02}]. *)
Definition show_iso_week (w : IsoWeek) : string :=
  pad_left 4 (show_N (iw_year w)) +:+ "-W" +:+ pad_left 2 (show_N (iw_week w)).

Section iso_week.
(** [NaiveDate::from_isoywd_opt(year, week, Mon).is_some()] (chrono). *)
Variable week_exists : Z → Z → bool.

Definition iso_week_new (year week : Z) : R IsoWeek :=
if in_range 1000 9999 year && week_exists year week then Ok (mkIsoWeek year week)
else Err INVALID_FIELD.

(** [s.split_once("-W")]. *)
Fixpoint split_once_w (s : string) : option (string * string) :=
match strip_prefix "-W" s with
| Some rest => Some ("", rest)
| None =>
    match s with
    | EmptyString => None
    | String a s =>
        match split_once_w s with Some (x, y) => Some (String a x, y) | None => None end
    end
end.

Definition iso_week_from_str (s : string) : R IsoWeek :=
'(y, w) ← ok_or (split_once_w s) INVALID_FIELD;
let digits t n := (str_len t =? n)%nat && str_forall is_ascii_digit t in
if negb (digits y 4%nat) || negb (digits w 2%nat) then Err INVALID_FIELD
else iso_week_new (parse_dec 0 y) (parse_dec 0 w).
End iso_week.

Inductive PortfolioAction : Type :=
  | CheapTest (max_cash : Minor) (max_hours : Z)
  | ContinueActive
  | AHold
  | Diligence (questions : list string) (max_next_tranche : Minor)
  | Reprice (min_price : Minor)
  | AReject.

#[export] Instance PortfolioAction_eq_dec : EqDecision PortfolioAction.
Proof. solve_decision. Defined.

Definition action_kind (a : PortfolioAction) : string :=
  match a with
  | CheapTest _ _ => "CHEAP_TEST" | ContinueActive => "CONTINUE_ACTIVE" | AHold => "HOLD"
  | Diligence _ _ => "DILIGENCE" | Reprice _ => "REPRICE" | AReject => "REJECT"
  end.

(** The three lists of a week. *)
Inductive WeekList : Type := LRanked | LHeld | LRejected.
#[export] Instance WeekList_eq_dec : EqDecision WeekList.
Proof. solve_decision. Defined.

Definition allowed_in (a : PortfolioAction) : list WeekList :=
  match a with
  | CheapTest _ _ => [LRanked; LHeld]
  | ContinueActive => [LRanked]
  | AHold => [LRanked; LHeld]
  | Diligence _ _ => [LHeld]
  | Reprice _ | AReject => [LRejected]
  end.

Definition action_problems (a : PortfolioAction) : Problems :=
  match a with
  | CheapTest max_cash _ => Problems.non_negative max_cash
  | Diligence questions max_next_tranche =>
      Problems.check (negb (bool_decide (questions = []))) INVALID_FIELD
      ++ Problems.unique_texts questions
      ++ Problems.non_negative max_next_tranche
  | Reprice min_price => Problems.non_negative min_price
  | _ => []
  end.

Record RankValue : Type := mkRankValue { rv_key : RankKey; rv_value : string }.

#[export] Instance RankValue_eq_dec : EqDecision RankValue.
Proof. solve_decision. Defined.

Record RankedRow : Type := mkRankedRow {
  rr_rank : Z;
  rr_id : string;
  rr_version : Z;
  rr_action : PortfolioAction;
  rr_keys : list RankValue;
}.

#[export] Instance RankedRow_eq_dec : EqDecision RankedRow.
Proof. solve_decision. Defined.

Record GatedRow : Type := mkGatedRow {
  gr_id : string;
  gr_version : Z;
  gr_action : PortfolioAction;
  gr_gates : list string;
}.

Record Allocation : Type := mkAllocation { al_owner_hours : Z; al_cash : Minor }.

Record WeeklyPortfolio : Type := mkWeekly {
  w_schema : SchemaTag;
  w_id : string;
  w_version : Z;
  w_week : IsoWeek;
  w_as_of : Time;
  w_currency : Currency;
  w_profile_sha256 : string;
  w_inputs_sha256 : string;
  w_economics_version : Z;
  w_ranked : list RankedRow;
  w_held : list GatedRow;
  w_rejected : list GatedRow;
  w_allocation : Allocation;
  w_hold_rationale : option string;
  w_next_information : list string;
}.

Definition is_hold (w : WeeklyPortfolio) : bool :=
  match w_ranked w with [] => true | _ => false end.

Definition row_action (l : WeekList) (a : PortfolioAction) : Problems :=
  Problems.check (bool_decide (l ∈ allowed_in a)) INVALID_FIELD ++ action_problems a.

(** Row [i] of the ranked list. *)
Definition ranked_problems (i : nat) (r : RankedRow) : Problems :=
  Problems.id (rr_id r)
  ++ Problems.check (rr_rank r =? Z.of_nat i + 1) INVALID_FIELD
  ++ row_action LRanked (rr_action r)
  ++ Problems.unique (map rv_key (rr_keys r)).

Definition gated_problems (l : WeekList) (r : GatedRow) : Problems :=
  Problems.id (gr_id r)
  ++ row_action l (gr_action r)
  ++ Problems.check (negb (bool_decide (gr_gates r = []))) INVALID_FIELD
  ++ Problems.unique_texts (gr_gates r).

(** [iter().enumerate()] from [i]. *)
Fixpoint imap_problems {A} (f : nat → A → Problems) (i : nat) (l : list A) : Problems :=
  match l with [] => [] | x :: l => f i x ++ imap_problems f (S i) l end.

Definition week_ids (w : WeeklyPortfolio) : list string :=
  map rr_id (w_ranked w) ++ map gr_id (w_held w) ++ map gr_id (w_rejected w).

Definition weekly_problems (w : WeeklyPortfolio) : Problems :=
  Problems.known (w_as_of w)
  ++ Problems.sha256 (w_profile_sha256 w)
  ++ Problems.sha256 (w_inputs_sha256 w)
  ++ Problems.check (1 <=? w_economics_version w) INVALID_VERSION
  ++ Problems.unique (week_ids w)
  ++ imap_problems ranked_problems 0 (w_ranked w)
  ++ List.concat (map (gated_problems LHeld) (w_held w))
  ++ List.concat (map (gated_problems LRejected) (w_rejected w))
  ++ Problems.non_negative (al_cash (w_allocation w))
  ++ match w_hold_rationale w with
     | Some h => Problems.text h
     | None => Problems.check (negb (bool_decide (w_ranked w = []))) INVALID_FIELD
     end
  ++ Problems.unique_texts (w_next_information w).

#[export] Instance WeeklyPortfolio_record : SoeRecord WeeklyPortfolio := {|
  RECORD := "weekly_portfolio";
  rec_schema := w_schema;
  rec_id := w_id;
  rec_version := w_version;
  rec_problems := weekly_problems;
|}.

(** ** The public brief *)

Record BriefFact : Type := mkBriefFact { bf_text : string; bf_url : Locator }.

Record PublicBrief : Type := mkBrief {
  pb_schema : SchemaTag;
  pb_id : string;
  pb_version : Z;
  pb_week : IsoWeek;
  pb_facts : list BriefFact;
  pb_thesis : string;
  pb_disclosed_assumptions : list string;
  pb_experiment_update : option string;
  pb_generated_from_sha256 : string;
}.

Definition brief_problems (b : PublicBrief) : Problems :=
  List.concat (map (λ f,
    Problems.text (bf_text f)
    ++ Problems.check (match bf_url f with Url _ => true | _ => false end) PRIVATE_LOCATOR)
    (pb_facts b))
  ++ Problems.text (pb_thesis b)
  ++ Problems.unique_texts (pb_disclosed_assumptions b)
  ++ (match pb_experiment_update b with Some u => Problems.text u | None => [] end)
  ++ Problems.sha256 (pb_generated_from_sha256 b).

#[export] Instance PublicBrief_record : SoeRecord PublicBrief := {|
  RECORD := "public_brief";
  rec_schema := pb_schema;
  rec_id := pb_id;
  rec_version := pb_version;
  rec_problems := brief_problems;
|}.
