(* ===== verification/SoeEconomics.v ===== *)
(** * SOE economics ([src/src/domain/soe/economics.rs])

    The downside, base and upside of one opportunity: unknown-safe plumbing
    ([Need], [Ctx], [need]), the revenue streams, the payback scan, the
    run-rate and ONE_OFF figures, [scenarios]. Money inside is an [i128] held
    as a [Z]: the source's checked operations are checked here, its unchecked
    ones are plain and [SoeEconomicsFacts] shows they stay in range. *)

From S2P Require Import Prelude.
From S2P Require Import Text.
From S2P Require Import Lineage.
From S2P Require Import SoeValue.
From S2P Require Import SoeRecord.
From Stdlib Require Import Ascii String.

#[local] Open Scope Z_scope.

Definition ECONOMICS_VERSION : Z := 1.
Definition MILLI : Z := 1000.
Definition FULL : Z := BPS_FULL.

(** ** Input fields ([mod fields]) *)
Module fields.
Definition LEADS : string := "economics.revenue.leads_per_month".
Definition CONVERSION : string := "economics.revenue.conversion".
Definition CHURN : string := "economics.revenue.churn_per_month".
Definition PRICE : string := "economics.revenue.price_per_month".
Definition COLLECTION_LOSS : string := "economics.revenue.collection_loss".
Definition CONTRACT_VALUE : string := "economics.revenue.contract_value".
Definition WIN_PROBABILITY : string := "economics.revenue.win_probability".
Definition DELIVERY_WEEKS : string := "economics.revenue.delivery_weeks".
Definition OWNER_HOURS_TOTAL : string := "economics.revenue.owner_hours_total".
Definition ASSET_REVENUE : string := "economics.revenue.asset_monthly_revenue".
Definition PARTNER_REVENUE : string := "economics.revenue.partner_monthly_revenue".
Definition SHARE : string := "economics.revenue.share".
Definition VARIABLE_COST : string := "economics.variable_cost".
Definition FIXED_COSTS : string := "economics.fixed_costs_per_month".
Definition OWNER_HOURS : string := "economics.owner_hours_per_month".
Definition RAMP : string := "economics.ramp_months".
Definition ACQUISITION : string := "economics.initial.acquisition".
Definition SETUP : string := "economics.initial.setup".
Definition VALIDATION : string := "economics.initial.validation".
Definition WORKING_CAPITAL : string := "economics.initial.working_capital".
Definition FX : string := "economics.fx".
End fields.

(** ** Output *)

Inductive Metric (T : Type) : Type :=
  | Known (v : T)
  | Lacks (fields : list string).
Arguments Known {T} v.
Arguments Lacks {T} fields.

Definition known {T} (m : Metric T) : option T :=
  match m with Known v => Some v | Lacks _ => None end.

Inductive Payback : Type := Months (n : Z) | NotReached.

#[export] Instance Payback_eq_dec : EqDecision Payback.
Proof. solve_decision. Defined.

(** The derived [Ord]: [NotReached] after every month count. *)
Definition payback_cmp (a b : Payback) : comparison :=
  match a, b with
  | Months x, Months y => Z.compare x y
  | Months _, NotReached => Lt
  | NotReached, Months _ => Gt
  | NotReached, NotReached => Eq
  end.

Record LossRange : Type := mkLossRange { lr_low : Minor; lr_high : Minor }.

Record ScenarioMetrics : Type := mkScenarioMetrics {
  sm_scenario : Scenario;
  monthly_revenue_collected : Metric Minor;
  monthly_cash_contribution : Metric Minor;
  owner_hours_per_month : Metric Z;
  owner_time_cost : Metric Minor;
  time_adjusted_contribution : Metric Minor;
  initial_capital : Metric Minor;
  sm_payback : Metric Payback;
  payback_time_adjusted : Metric Payback;
  occupied_months : option (Metric Z);
}.

Definition contribution (m : ScenarioMetrics) (basis : ContributionBasis) : Metric Minor :=
  match basis with
  | TimeAdjusted => time_adjusted_contribution m
  | Cash => monthly_cash_contribution m
  end.

Record Scenarios : Type := mkScenarios {
  economics_version : Z;
  inputs_sha256 : string;
  sc_currency : Currency;
  native_currency : Currency;
  sc_basis : ProfitBasis;
  run_rate_month : Z;
  downside : ScenarioMetrics;
  sc_base : ScenarioMetrics;
  upside : ScenarioMetrics;
  sc_expected_loss : Metric LossRange;
}.

(** ** Unknown-safe plumbing *)

(** A value, or the input fields it lacks. *)
Notation Need := (result (gset string)).

(** A [BTreeSet]'s items, in order. *)
Definition btree_list (s : gset string) : list string := sort_by str_cmp (elements s).

(** [impl From<Need<T>> for Metric<T>]. *)
Definition metric {T} (n : Need T) : Metric T :=
  match n with Ok v => Known v | Err lacking => Lacks (btree_list lacking) end.

Definition pick {T} (a : Assumption T) (s : Scenario) (better : Better) (field : string) : Need T :=
  ok_or (est_pick (value a) s better) {[ field ]}.

(** [Ctx]: the fields lacking so far; a reader of inputs threads it. *)
Definition Ctx : Type := gset string.
Definition Get (T : Type) : Type := Ctx → option T * Ctx.

Definition get {T} (n : Need T) : Get T := λ c,
  match n with Ok v => (Some v, c) | Err f => (None, c ∪ f) end.

(** The tuple [(c.get(a), c.get(b))]: both are read, then both must be there. *)
Definition get2 {A B} (x : Get A) (y : Get B) : Get (A * B) := λ c,
  let (a, c) := x c in
  let (b, c) := y c in
  (match a, b with Some a, Some b => Some (a, b) | _, _ => None end, c).

Notation "x & y" := (get2 x y) (at level 51, left associativity) : tengu_scope.
#[local] Open Scope tengu_scope.

(** [let (Some(..), ..) = inputs else { return Ok(None) }; body]. *)
Definition let_else {A B} (inputs : Get A) (body : A → R B) : Ctx → R (option B * Ctx) := λ c,
  let (a, c) := inputs c in
  match a with
  | None => Ok (None, c)
  | Some a => b ← body a; Ok (Some b, c)
  end.

Definition need {T} (f : Ctx → R (option T * Ctx)) : R (Need T) :=
  '(v, lacking) ← f ∅;
  Ok (match v with
      | Some v => if decide (lacking = ∅) then Ok v else Err lacking
      | None => Err lacking
      end).

Definition mul (a b : Z) : R Z := ok_or (try_i128 (a * b)) OVERFLOW.
Definition add (a b : Z) : R Z := ok_or (try_i128 (a + b)) OVERFLOW.
Definition to_minor (v : Z) : R Minor := ok_or (try_i64 v) OVERFLOW.

Definition as_metric (n : Need Z) : R (Metric Minor) :=
  m ← need (let_else (get n) to_minor);
  Ok (metric m).

Record Fx : Type := mkFx { fx_native : Currency; fx_rate : option FxRate }.

Definition convert (fx : Fx) (native : Z) (flow : Flow) : R Z :=
  match fx_rate fx with
  | None => Ok native
  | Some r =>
      m ← to_minor native;
      c ← fx_convert r (mkMoney m (fx_native fx)) flow;
      Ok (minor c)
  end.

Definition fx_for (e : EconomicInputs) (target : Currency) : Need Fx :=
  let native := e_currency e in
  if decide (native = target) then Ok (mkFx native None)
  else match e_fx e with
       | Some r =>
           if bool_decide (base (pair r) = native) && bool_decide (quote (pair r) = target)
           then Ok (mkFx native (Some r))
           else Err {[ fields.FX ]}
       | None => Err {[ fields.FX ]}
       end.

Definition to_currency (e : EconomicInputs) (target : Currency) (native : Minor) (flow : Flow)
    : R (option Minor) :=
  match fx_for e target with
  | Ok fx => c ← convert fx native flow; m ← to_minor c; Ok (Some m)
  | Err _ => Ok None
  end.

Record Knobs : Type := mkKnobs { k_rate : Z; k_horizon : Z; k_fx : Need Fx }.

(** ** Expected loss *)

Definition risk_field (i : nat) (f : string) : string :=
  ("risk.risks[" ++ show_N (Z.of_nat i) ++ "]." ++ f)%string.

(** The loop of [expected_loss] from risk [i] on: the sums and what is
    lacking so far. *)
Fixpoint loss_go (i : nat) (rs : list Risk) (low high : Z) (lacking : list string)
    : R (Z * Z * list string) :=
  match rs with
  | [] => Ok (low, high, lacking)
  | r :: rs =>
      match rk_probability r, rk_impact r with
      | Range p_lo _ p_hi, Range i_lo _ i_hi =>
          x ← mul p_lo i_lo; low ← add low (div_floor x FULL);
          y ← mul p_hi i_hi; high ← add high (div_ceil y FULL);
          loss_go (S i) rs low high lacking
      | p, imp =>
          loss_go (S i) rs low high
            (lacking
             ++ (if est_is_known p then [] else [risk_field i "probability"])
             ++ (if est_is_known imp then [] else [risk_field i "impact"]))
      end
  end.

Definition expected_loss (risk : RiskAssessment) : R (Metric LossRange) :=
  '(low, high, lacking) ← loss_go 0 (risks risk) 0 0 [];
  match lacking with
  | [] => low ← to_minor low; high ← to_minor high; Ok (Known (mkLossRange low high))
  | _ => Ok (Lacks lacking)
  end.

(** ** One scenario *)

Record Common : Type := mkCommon {
  c_variable : Need Z;
  c_fixed : Need Z;
  c_hours : Need Z;
  c_ramp : Need Z;
  c_initial : Need Z;
}.

Definition common_pick (e : EconomicInputs) (s : Scenario) : R Common :=
  let i := e_initial e in
  initial ← need (let_else
    (get (pick (acquisition i) s Lower fields.ACQUISITION)
     & get (pick (setup i) s Lower fields.SETUP)
     & get (pick (validation i) s Lower fields.VALIDATION)
     & get (pick (working_capital i) s Lower fields.WORKING_CAPITAL))
    (λ '(a, b, c, d), try_fold add 0 [a; b; c; d]));
  Ok (mkCommon
        (pick (e_variable_cost e) s Lower fields.VARIABLE_COST)
        (pick (e_fixed_costs_per_month e) s Lower fields.FIXED_COSTS)
        (pick (e_owner_hours_per_month e) s Lower fields.OWNER_HOURS)
        (pick (e_ramp_months e) s Lower fields.RAMP)
        initial).

Inductive Stream : Type :=
  | SRecurring (won keep price collect : Z)
  | SDecay (first keep collect : Z)
  | SFlat (collected : Z).

(** One month of [Stream::revenue]: the carried base after the month and the
    month's revenue. *)
Definition stream_month (st : Stream) (ramp base month : Z) : R (Z * Z) :=
  let active := ramp <? month in
  match st with
  | SRecurring won keep price collect =>
      if active then
        x ← mul base keep; base ← add (div_floor x FULL) won;
        y ← mul base price; y ← mul y collect;
        Ok (base, div_floor y (MILLI * FULL))
      else Ok (base, 0)
  | SDecay _ keep collect =>
      base ← (if 1 <? month then x ← mul base keep; Ok (div_floor x FULL) else Ok base);
      if active then y ← mul base collect; Ok (base, div_floor y FULL)
      else Ok (base, 0)
  | SFlat collected => Ok (base, if active then collected else 0)
  end.

Fixpoint revenue_go (st : Stream) (ramp base month : Z) (n : nat) : R (list Z) :=
  match n with
  | O => Ok []
  | S n =>
      '(base, r) ← stream_month st ramp base month;
      rs ← revenue_go st ramp base (month + 1) n;
      Ok (r :: rs)
  end.

Definition stream_base (st : Stream) : Z :=
  match st with SDecay first _ _ => first | _ => 0 end.

(** Native collected revenue of months [1..=months]. *)
Definition stream_revenue (st : Stream) (ramp months : Z) : R (list Z) :=
  revenue_go st ramp (stream_base st) 1 (Z.to_nat months).

Definition cash_of (revenue variable fixed : Z) : R Z :=
  x ← mul revenue variable;
  Ok (revenue - div_ceil x FULL - fixed).

(** An iterator over monthly sums: item [i], or its end. *)
Notation MonthIter := (nat → option (R Z)).

Fixpoint payback_go (monthly : MonthIter) (initial sum : Z) (i fuel : nat) : R Payback :=
  match fuel with
  | O => Ok NotReached
  | S fuel =>
      match monthly i with
      | None => Ok NotReached
      | Some c =>
          c ← c;
          sum ← add sum c;
          if initial <=? sum then Ok (Months (Z.of_nat i + 1))
          else payback_go monthly initial sum (S i) fuel
      end
  end.

(** Only the first [PAYBACK_SCAN_MONTHS] items are taken. *)
Definition payback (monthly : MonthIter) (initial : Z) : R Payback :=
  if initial <=? 0 then Ok (Months 0)
  else payback_go monthly initial 0 0 (Z.to_nat PAYBACK_SCAN_MONTHS).

(** RECURRING, ACQUISITION, REVENUE_SHARE: figures at the run-rate month. *)
Definition run_rate (stream : Need Stream) (common : Common) (k : Knobs) (s : Scenario)
    : R ScenarioMetrics :=
  let months := Z.max (k_horizon k) PAYBACK_SCAN_MONTHS in
  let h := Z.to_nat (k_horizon k - 1) in
  revenue ← need (let_else (get stream & get (c_ramp common))
    (λ '(stream, ramp), stream_revenue stream ramp months));
  cash ← need (let_else (get revenue & get (c_variable common) & get (c_fixed common))
    (λ '(revenue, v, f), collect (λ r, cash_of r v f) revenue));
  owner_cost ← need (let_else (get (c_hours common)) (λ hours, mul hours (k_rate k)));
  revenue_h ← need (let_else (get revenue & get (k_fx k))
    (λ '(revenue, fx), convert fx (nth h revenue 0) Inflow));
  cash_h ← need (let_else (get cash & get (k_fx k))
    (λ '(cash, fx), convert fx (nth h cash 0) Inflow));
  time_adjusted ← need (let_else (get cash_h & get owner_cost)
    (λ '(cash, cost), Ok (cash - cost)));
  initial ← need (let_else (get (c_initial common) & get (k_fx k))
    (λ '(initial, fx), convert fx initial Outflow));
  cash_payback ← need (let_else (get cash & get (c_initial common))
    (λ '(cash, initial), payback (λ i, Ok <$> cash !! i) initial));
  ta_payback ← need (let_else (get cash & get owner_cost & get initial & get (k_fx k))
    (λ '(cash, cost, initial, fx),
       payback (λ i, (λ v, c ← convert fx v Inflow; Ok (c - cost)) <$> cash !! i) initial));
  m_revenue ← as_metric revenue_h;
  m_cash ← as_metric cash_h;
  m_cost ← as_metric owner_cost;
  m_ta ← as_metric time_adjusted;
  m_initial ← as_metric initial;
  Ok (mkScenarioMetrics s m_revenue m_cash (metric (c_hours common)) m_cost m_ta m_initial
        (metric cash_payback) (metric ta_payback) None).

(** ** ONE_OFF *)

Record OneOffDeal : Type := mkOneOffDeal {
  d_contract : Need Z;
  d_win : Need Z;
  d_loss : Need Z;
  d_hours_total : Need Z;
}.

(** [⌈weeks × 12 / 52⌉], at least 1. *)
Definition occupied (weeks : Z) : Z := Z.max (div_ceil (weeks * 12) 52) 1.

(** Months [1..=ramp] at [during_ramp], then [occ] months at [during]. *)
Definition engagement (ramp occ during_ramp during : Z) : MonthIter := λ i,
  let i := Z.of_nat i in
  if i <? ramp then Some (Ok during_ramp)
  else if i <? ramp + occ then Some (Ok during)
  else None.

Definition one_off (d : OneOffDeal) (common : Common) (k : Knobs) (weeks : Need Z) (s : Scenario)
    : R ScenarioMetrics :=
  let occ := occupied <$> weeks in
  expected ← need (let_else (get (d_contract d) & get (d_win d) & get (d_loss d))
    (λ '(contract, win, loss),
       x ← mul contract win; y ← mul x (FULL - loss); Ok (div_floor y (FULL * FULL))));
  cash_pm ← need (let_else
    (get expected & get (c_variable common) & get (c_fixed common) & get occ)
    (λ '(e, v, f, occ),
       x ← mul e v; y ← mul f occ; Ok (div_floor (e - div_ceil x FULL - y) occ)));
  hours_pm ← need (let_else (get (c_hours common) & get (d_hours_total d) & get occ)
    (λ '(h, t, occ), ok_or (try_u32 (h + div_ceil t occ)) OVERFLOW));
  owner_cost ← need (let_else (get (c_hours common) & get (d_hours_total d) & get occ)
    (λ '(h, t, occ),
       x ← mul h (k_rate k); y ← mul t (k_rate k); add x (div_ceil y occ)));
  revenue_pm ← need (let_else (get expected & get occ & get (k_fx k))
    (λ '(e, occ, fx), convert fx (div_floor e occ) Inflow));
  cash ← need (let_else (get cash_pm & get (k_fx k)) (λ '(cash, fx), convert fx cash Inflow));
  time_adjusted ← need (let_else (get cash & get owner_cost)
    (λ '(cash, cost), Ok (cash - cost)));
  initial ← need (let_else (get (c_initial common) & get (k_fx k))
    (λ '(initial, fx), convert fx initial Outflow));
  cash_payback ← need (let_else
    (get (c_ramp common) & get (c_fixed common) & get occ & get cash_pm & get (c_initial common))
    (λ '(ramp, f, occ, cash, initial), payback (engagement ramp occ (- f) cash) initial));
  ta_payback ← need (let_else
    (get (c_ramp common) & get (c_fixed common) & get (c_hours common) & get occ
     & get time_adjusted & get initial & get (k_fx k))
    (λ '(ramp, f, h, occ, ta, initial, fx),
       x ← convert fx (- f) Inflow; y ← mul h (k_rate k);
       payback (engagement ramp occ (x - y) ta) initial));
  m_revenue ← as_metric revenue_pm;
  m_cash ← as_metric cash;
  m_cost ← as_metric owner_cost;
  m_ta ← as_metric time_adjusted;
  m_initial ← as_metric initial;
  Ok (mkScenarioMetrics s m_revenue m_cash (metric hours_pm) m_cost m_ta m_initial
        (metric cash_payback) (metric ta_payback) (Some (metric occ))).

(** [a.min(b)] / [a.max(b)] of two known metrics under the order [c]. *)
Definition both {T} (c : T → T → comparison) (a b : Metric T) (low : bool) : Metric T :=
  match a, b with
  | Known x, Known y =>
      Known (if low then match c x y with Gt => y | _ => x end
             else match c x y with Gt => x | _ => y end)
  | _, _ => a
  end.

Definition combine (short long : ScenarioMetrics) (s : Scenario) : ScenarioMetrics :=
  let worst := bool_decide (s = Downside) in
  let income := worst in
  let cost := negb worst in
  mkScenarioMetrics s
    (both Z.compare (monthly_revenue_collected short) (monthly_revenue_collected long) income)
    (both Z.compare (monthly_cash_contribution short) (monthly_cash_contribution long) income)
    (both Z.compare (owner_hours_per_month short) (owner_hours_per_month long) cost)
    (both Z.compare (owner_time_cost short) (owner_time_cost long) cost)
    (both Z.compare (time_adjusted_contribution short) (time_adjusted_contribution long) income)
    (both Z.compare (initial_capital short) (initial_capital long) cost)
    (both payback_cmp (sm_payback short) (sm_payback long) cost)
    (both payback_cmp (payback_time_adjusted short) (payback_time_adjusted long) cost)
    (if worst then occupied_months long else occupied_months short).

(** ** One scenario, all models *)

(** The stream of a model that is not ONE_OFF ([None] for ONE_OFF). *)
Definition stream_of (m : RevenueModel) (s : Scenario) : option (R (Need Stream)) :=
  match m with
  | OneOff _ _ _ _ _ => None
  | Recurring leads conv churn price loss => Some (need (let_else
      (get (pick leads s Higher fields.LEADS) & get (pick conv s Higher fields.CONVERSION)
       & get (pick churn s Lower fields.CHURN) & get (pick price s Higher fields.PRICE)
       & get (pick loss s Lower fields.COLLECTION_LOSS))
      (λ '(leads, conv, churn, price, loss),
         x ← mul leads conv; y ← mul x MILLI;
         Ok (SRecurring (div_floor y FULL) (FULL - churn) price (FULL - loss)))))
  | Acquisition asset churn loss => Some (need (let_else
      (get (pick asset s Higher fields.ASSET_REVENUE) & get (pick churn s Lower fields.CHURN)
       & get (pick loss s Lower fields.COLLECTION_LOSS))
      (λ '(first, churn, loss), Ok (SDecay first (FULL - churn) (FULL - loss)))))
  | RevenueShare partner share loss => Some (need (let_else
      (get (pick partner s Higher fields.PARTNER_REVENUE) & get (pick share s Higher fields.SHARE)
       & get (pick loss s Lower fields.COLLECTION_LOSS))
      (λ '(partner, share, loss),
         x ← mul partner share; y ← mul x (FULL - loss);
         Ok (SFlat (div_floor y (FULL * FULL))))))
  end.

Definition scenario (e : EconomicInputs) (k : Knobs) (s : Scenario) : R ScenarioMetrics :=
  common ← common_pick e s;
  match e_revenue e with
  | OneOff contract win delivery_weeks hours_total loss =>
      let deal := mkOneOffDeal
        (pick contract s Higher fields.CONTRACT_VALUE)
        (pick win s Higher fields.WIN_PROBABILITY)
        (pick loss s Lower fields.COLLECTION_LOSS)
        (pick hours_total s Lower fields.OWNER_HOURS_TOTAL) in
      let weeks (w : option Z) : Need Z := ok_or w {[ fields.DELIVERY_WEEKS ]} in
      let at_ w := one_off deal common k w s in
      let est := value delivery_weeks in
      match s with
      | Base => at_ (weeks (est_base est))
      | Downside | Upside =>
          short ← at_ (weeks (est_end est Favorable Lower));
          long ← at_ (weeks (est_end est Adverse Lower));
          Ok (combine short long s)
      end
  | m =>
      match stream_of m s with
      | Some stream => stream ← stream; run_rate stream common k s
      | None => Err INVALID_RECORD
      end
  end.

(** ** Entry point *)
Section scenarios.
(** The canonical hash of the inputs ([inputs_sha256]: serde_json and
  sha2). *)
Variable hash_inputs : Opportunity → OperatorProfile → R string.

Definition knobs_of (opp : Opportunity) (profile : OperatorProfile) : Knobs :=
mkKnobs (p_shadow_hourly_rate profile) (Z.max (p_max_payback_months profile) 1)
  (fx_for (op_economics opp) (p_currency profile)).

Definition scenarios (opp : Opportunity) (profile : OperatorProfile) : R Scenarios :=
let e := op_economics opp in
let k := knobs_of opp profile in
native_loss ← expected_loss (op_risk opp);
loss ← match native_loss with
       | Known r =>
           n ← need (let_else (get (k_fx k))
             (λ fx, low ← convert fx (lr_low r) Inflow; low ← to_minor low;
                    high ← convert fx (lr_high r) Outflow; high ← to_minor high;
                    Ok (mkLossRange low high)));
           Ok (metric n)
       | Lacks f => Ok (Lacks f)
       end;
sha ← hash_inputs opp profile;
d ← scenario e k Downside;
b ← scenario e k Base;
u ← scenario e k Upside;
Ok (mkScenarios ECONOMICS_VERSION sha (p_currency profile) (e_currency e) PreTax
      (k_horizon k) d b u loss).
End scenarios.
