(* ===== verification/SoeEconomicsFacts.v ===== *)
(** * Facts about the SOE economics

    The plumbing ([need] of a tuple of inputs is the computation or the union
    of what the inputs lack), the revenue streams, the payback scan, and the
    order of the scenarios. *)

From Stdlib Require Import Ascii String.
From S2P Require Import Prelude.
From S2P Require Import Text.
From S2P Require Import Lineage.
From S2P Require Import SoeValue.
From S2P Require Import SoeRecord.
From S2P Require Import SoeEconomics.

#[local] Open Scope Z_scope.
#[local] Open Scope tengu_scope.

(** ** Plumbing *)

(** What a value lacks. *)
Definition lack {T} (n : Need T) : gset string := match n with Ok _ => ∅ | Err f => f end.

(** Two inputs as one: every missing field is named. *)
Definition zip {A B} (a : Need A) (b : Need B) : Need (A * B) :=
  match a, b with
  | Ok x, Ok y => Ok (x, y)
  | _, _ => Err (lack a ∪ lack b)
  end.

Lemma lack_zip {A B} (a : Need A) (b : Need B) : lack (zip a b) = lack a ∪ lack b.
Proof. destruct a, b; simpl; set_solver. Qed.

(** The reader [g] gives the input [n]. *)
Class Reads {T} (g : Get T) (n : Need T) : Prop := reads : ∀ c, g c = get n c.

#[export] Instance reads_get {T} (n : Need T) : Reads (get n) n.
Proof. by intros c. Qed.

#[export] Instance reads_get2 {A B} (x : Get A) (y : Get B) a b :
  Reads x a → Reads y b → Reads (x & y) (zip a b).
Proof.
  intros Hx Hy c. unfold get2. rewrite Hx. unfold get. destruct a; simpl; rewrite Hy;
    destruct b; simpl; try done; f_equal; set_solver.
Qed.

(** Runs [body] on an input, or passes on what it lacks. *)
Definition on {A B} (n : Need A) (body : A → R B) : R (Need B) :=
  match n with Ok a => b ← body a; Ok (Ok b) | Err f => Ok (Err f) end.

Lemma need_reads {A B} (g : Get A) (n : Need A) (body : A → R B) :
  Reads g n → need (let_else g body) = on n body.
Proof.
  intros Hg. unfold need, let_else. rewrite Hg. destruct n as [a|f]; simpl.
  - destruct (body a); simpl; [|done]. by rewrite decide_True.
  - do 2 f_equal. set_solver.
Qed.

Lemma on_ok {A B} (n : Need A) (body : A → R B) m :
  on n body = Ok m → lack m = lack n ∧ ∀ b, m = Ok b → ∃ a, n = Ok a ∧ body a = Ok b.
Proof.
  destruct n as [a|f]; simpl.
  - destruct (body a) eqn:E; simpl; [|done]. intros [= <-]. split; [done|].
    intros b [= <-]. eauto.
  - intros [= <-]. done.
Qed.

Lemma on_known {A B} (n : Need A) (body : A → R B) b :
  on n body = Ok (Ok b) ↔ ∃ a, n = Ok a ∧ body a = Ok b.
Proof.
  split.
  - intros H. by apply (proj2 (on_ok _ _ _ H)).
  - intros (a & -> & H). simpl. by rewrite H.
Qed.

Lemma zip_ok {A B} (a : Need A) (b : Need B) p :
  zip a b = Ok p ↔ a = Ok p.1 ∧ b = Ok p.2.
Proof. destruct a, b, p; simpl; naive_solver. Qed.

Lemma as_metric_eq n : as_metric n = match n with
                                     | Ok v => Known <$> to_minor v
                                     | Err f => Ok (Lacks (btree_list f))
                                     end.
Proof.
  unfold as_metric. rewrite (need_reads _ n) by apply _.
  destruct n as [v|f]; simpl; [|done]. by destruct (to_minor v).
Qed.

Lemma as_metric_known n v : as_metric n = Ok (Known v) → n = Ok v.
Proof.
  rewrite as_metric_eq. destruct n as [x|f]; [|done]. unfold to_minor.
  destruct (try_i64 x) eqn:E; simpl; [|done]. intros [= <-].
  apply try_range_some in E as [-> _]. done.
Qed.

(** The state of a figure: [None] when known, else the fields it lacks. *)
Definition missing {T} (m : Metric T) : option (list string) :=
  match m with Known _ => None | Lacks f => Some f end.

(** The state a figure has when it lacks the fields [s]. *)
Definition lacks_state (s : gset string) : option (list string) :=
  if decide (s = ∅) then None else Some (btree_list s).

(** A [Need] that lacks something names it. *)
Definition sound {T} (n : Need T) : Prop := match n with Ok _ => True | Err f => f ≠ ∅ end.

Lemma sound_zip {A B} (a : Need A) (b : Need B) : sound a → sound b → sound (zip a b).
Proof. destruct a, b; simpl; set_solver. Qed.

Lemma sound_on {A B} (n : Need A) (body : A → R B) m : sound n → on n body = Ok m → sound m.
Proof.
  destruct n as [a|f]; simpl.
  - intros _. destruct (body a); simpl; [|done]. by intros [= <-].
  - by intros H [= <-].
Qed.

Lemma sound_pick {T} (a : Assumption T) s better f : sound (pick a s better f).
Proof. unfold pick. destruct (est_pick _ _ _); simpl; set_solver. Qed.

Lemma sound_fx_for e target : sound (fx_for e target).
Proof. unfold fx_for. repeat case_match; simpl; try done; set_solver. Qed.

Lemma missing_metric {T} (n : Need T) : sound n → missing (metric n) = lacks_state (lack n).
Proof.
  unfold lacks_state. destruct n as [v|f]; simpl; [by rewrite decide_True|].
  intros. by rewrite decide_False.
Qed.

Lemma missing_as_metric n m : sound n → as_metric n = Ok m → missing m = lacks_state (lack n).
Proof.
  rewrite as_metric_eq. destruct n as [v|f]; simpl; unfold lacks_state.
  - intros _. rewrite decide_True by done. destruct (to_minor v); simpl; [|done]. by intros [= <-].
  - intros H [= <-]. by rewrite decide_False.
Qed.

(** Splits a successful figure computation into its steps; every step [need]
    of inputs becomes [on] of the inputs. *)
Ltac steps :=
  inv_ok;
  repeat match goal with
  | Hn : need (let_else _ _) = Ok _ |- _ => erewrite need_reads in Hn by apply _
  end.

(** ** What each figure reads *)

Inductive Figure : Type :=
  | FigRevenue | FigCash | FigHours | FigCost | FigTimeAdjusted | FigInitial | FigPayback
  | FigPaybackTimeAdjusted.

Definition figure_state (m : ScenarioMetrics) (fig : Figure) : option (list string) :=
  match fig with
  | FigRevenue => missing (monthly_revenue_collected m)
  | FigCash => missing (monthly_cash_contribution m)
  | FigHours => missing (owner_hours_per_month m)
  | FigCost => missing (owner_time_cost m)
  | FigTimeAdjusted => missing (time_adjusted_contribution m)
  | FigInitial => missing (initial_capital m)
  | FigPayback => missing (sm_payback m)
  | FigPaybackTimeAdjusted => missing (payback_time_adjusted m)
  end.

(** The inputs of a model's revenue. *)
Definition revenue_fields (m : RevenueModel) : list string :=
  match m with
  | Recurring _ _ _ _ _ =>
      [fields.LEADS; fields.CONVERSION; fields.CHURN; fields.PRICE; fields.COLLECTION_LOSS;
       fields.RAMP]
  | OneOff _ _ _ _ _ =>
      [fields.CONTRACT_VALUE; fields.WIN_PROBABILITY; fields.COLLECTION_LOSS;
       fields.DELIVERY_WEEKS]
  | Acquisition _ _ _ =>
      [fields.ASSET_REVENUE; fields.CHURN; fields.COLLECTION_LOSS; fields.RAMP]
  | RevenueShare _ _ _ =>
      [fields.PARTNER_REVENUE; fields.SHARE; fields.COLLECTION_LOSS; fields.RAMP]
  end.

Definition hours_fields (m : RevenueModel) : list string :=
  match m with
  | OneOff _ _ _ _ _ => [fields.OWNER_HOURS; fields.OWNER_HOURS_TOTAL; fields.DELIVERY_WEEKS]
  | _ => [fields.OWNER_HOURS]
  end.

Definition initial_fields : list string :=
  [fields.ACQUISITION; fields.SETUP; fields.VALIDATION; fields.WORKING_CAPITAL].

(** Every field a figure needs, from the table of the source's header. *)
Definition figure_fields (m : RevenueModel) (fig : Figure) : list string :=
  let cash := revenue_fields m ++ [fields.VARIABLE_COST; fields.FIXED_COSTS] in
  match fig with
  | FigRevenue => revenue_fields m ++ [fields.FX]
  | FigCash => cash ++ [fields.FX]
  | FigHours | FigCost => hours_fields m
  | FigTimeAdjusted => cash ++ [fields.FX] ++ hours_fields m
  | FigInitial => initial_fields ++ [fields.FX]
  | FigPayback => fields.RAMP :: cash ++ initial_fields
  | FigPaybackTimeAdjusted => fields.RAMP :: cash ++ [fields.FX] ++ hours_fields m ++ initial_fields
  end.

(** The field's input is unknown (for [economics.fx]: no rate to [target]). *)
Definition unknown_input (e : EconomicInputs) (target : Currency) (f : string) : bool :=
  if String.eqb f fields.FX then negb (is_ok (fx_for e target))
  else match input e f with
       | Some i => negb (est_is_known (value (input_assumption i)))
       | None => false
       end.

Definition lk (unknown : bool) (f : string) : gset string := if unknown then {[ f ]} else ∅.

Definition lacking_of (e : EconomicInputs) (target : Currency) (fs : list string) : gset string :=
  foldr (λ f acc, lk (unknown_input e target f) f ∪ acc) ∅ fs.

Lemma elem_of_lacking e target fs f :
  f ∈ lacking_of e target fs ↔ f ∈ fs ∧ unknown_input e target f = true.
Proof.
  induction fs as [|g fs IH]; simpl.
  { rewrite elem_of_empty, elem_of_nil. tauto. }
  rewrite elem_of_union, IH. unfold lk.
  rewrite elem_of_cons. destruct (unknown_input e target g) eqn:E.
  - rewrite elem_of_singleton. split; [intros [->|[??]]|intros [[->|?] ?]]; auto.
  - rewrite elem_of_empty. split; [intros [[]|[??]]|intros [[->|?] ?]]; auto; congruence.
Qed.

Lemma lack_pick {T} (a : Assumption T) s better f :
  lack (pick a s better f) = lk (negb (est_is_known (value a))) f.
Proof.
  unfold pick. destruct (est_pick (value a) s better) eqn:E; simpl.
  - assert (est_is_known (value a) = true) as -> by (apply (est_pick_known _ s better); eauto).
    done.
  - destruct (est_is_known (value a)) eqn:K; [|done].
    apply (est_pick_known _ s better) in K as [? K]. congruence.
Qed.

Lemma lack_fx_for e target : lack (fx_for e target) = lk (negb (is_ok (fx_for e target))) fields.FX.
Proof. unfold fx_for. repeat case_match; done. Qed.

Lemma lack_fmap {A B} (f : A → B) (n : Need A) : lack (f <$> n) = lack n.
Proof. by destruct n. Qed.

Lemma lack_weeks (w : option Z) (e : Est Z) :
  (is_Some w ↔ est_is_known e = true) →
  lack (ok_or w {[ fields.DELIVERY_WEEKS ]}) = lk (negb (est_is_known e)) fields.DELIVERY_WEEKS.
Proof.
  intros H. destruct w as [w|]; simpl.
  - rewrite (proj1 H) by eauto. done.
  - destruct (est_is_known e); [|done]. destruct (proj2 H eq_refl) as [? ?]. done.
Qed.

(** What each figure lacks, from what its picked inputs lack. *)
Definition cash_lacks (revenue : gset string) (common : Common) (fx : gset string) (hours : gset string)
    (fig : Figure) : gset string :=
  let cash := revenue ∪ lack (c_variable common) ∪ lack (c_fixed common) in
  match fig with
  | FigRevenue => revenue ∪ fx
  | FigCash => cash ∪ fx
  | FigHours | FigCost => hours
  | FigTimeAdjusted => cash ∪ fx ∪ hours
  | FigInitial => lack (c_initial common) ∪ fx
  | FigPayback => lack (c_ramp common) ∪ cash ∪ lack (c_initial common)
  | FigPaybackTimeAdjusted =>
      lack (c_ramp common) ∪ cash ∪ fx ∪ hours ∪ lack (c_initial common)
  end.

Definition common_sound (c : Common) : Prop :=
  sound (c_variable c) ∧ sound (c_fixed c) ∧ sound (c_hours c) ∧ sound (c_ramp c)
  ∧ sound (c_initial c).

(** Turns every step of a figure computation into what its result lacks. *)
Ltac lack_steps :=
  repeat match goal with
  | H : on ?n _ = Ok ?m |- _ =>
      let L := fresh "L" in let S := fresh "S" in
      assert (S : sound m) by
        (eapply sound_on; [|exact H]; repeat apply sound_zip; first [assumption|apply sound_pick]);
      pose proof (proj1 (on_ok _ _ _ H)) as L; rewrite ?lack_zip in L; clear H
  | H : as_metric ?n = Ok ?m |- _ => apply missing_as_metric in H; [|assumption]
  end.

(** Equality of unions of the same sets. *)
Ltac union_eq := apply set_eq; intro; rewrite ?elem_of_union, ?elem_of_empty; tauto.

(** Rewrites a figure's state to what its inputs lack. *)
Ltac figure_step :=
  repeat match goal with H : missing ?m = _ |- context [missing ?m] => rewrite H end;
  repeat match goal with H : lack ?n = _ |- context [lack ?n] => rewrite H end;
  f_equal; union_eq.

Lemma run_rate_missing stream common k s m fig :
  sound stream → common_sound common → sound (k_fx k) →
  run_rate stream common k s = Ok m →
  figure_state m fig
  = lacks_state (cash_lacks (lack stream ∪ lack (c_ramp common)) common (lack (k_fx k))
                   (lack (c_hours common)) fig).
Proof.
  intros Hs (?&?&?&?&?) Hf Hm. unfold run_rate in Hm. steps. subst m. lack_steps.
  destruct fig; simpl; rewrite ?missing_metric by assumption;
    figure_step.
Qed.

Lemma one_off_missing d common k weeks s m fig :
  sound (d_contract d) → sound (d_win d) → sound (d_loss d) → sound (d_hours_total d) →
  sound weeks → common_sound common → sound (k_fx k) →
  one_off d common k weeks s = Ok m →
  figure_state m fig
  = lacks_state (cash_lacks
      (lack (d_contract d) ∪ lack (d_win d) ∪ lack (d_loss d) ∪ lack weeks) common
      (lack (k_fx k)) (lack (c_hours common) ∪ lack (d_hours_total d) ∪ lack weeks) fig).
Proof.
  intros ????? (?&?&?&?&?) Hf Hm. unfold one_off in Hm.
  assert (So : sound (occupied <$> weeks)) by (by destruct weeks).
  assert (Lo : lack (occupied <$> weeks) = lack weeks) by apply lack_fmap.
  set (occ := occupied <$> weeks) in *. clearbody occ.
  steps. subst m. lack_steps.
  destruct fig; simpl; rewrite ?missing_metric by assumption;
    figure_step.
Qed.

Lemma lack_unknown e target f i :
  input e f = Some i → f ≠ fields.FX →
  lk (unknown_input e target f) f = lk (negb (est_is_known (value (input_assumption i)))) f.
Proof.
  intros H Hf. unfold unknown_input. rewrite H.
  by destruct (String.eqb_spec f fields.FX).
Qed.

(** Rewrites one field of a known model to the state of its input. *)
Ltac field_step E :=
  erewrite lack_unknown; [|unfold input, inputs; rewrite E; reflexivity|vm_compute; discriminate].

Lemma common_pick_facts e s c :
  common_pick e s = Ok c →
  common_sound c
  ∧ (∀ target, lack (c_variable c) = lk (unknown_input e target fields.VARIABLE_COST) fields.VARIABLE_COST)
  ∧ (∀ target, lack (c_fixed c) = lk (unknown_input e target fields.FIXED_COSTS) fields.FIXED_COSTS)
  ∧ (∀ target, lack (c_hours c) = lk (unknown_input e target fields.OWNER_HOURS) fields.OWNER_HOURS)
  ∧ (∀ target, lack (c_ramp c) = lk (unknown_input e target fields.RAMP) fields.RAMP)
  ∧ (∀ target, lack (c_initial c) = lacking_of e target initial_fields).
Proof.
  intros Hm. unfold common_pick in Hm. steps. subst c.
  lack_steps. unfold common_sound. cbn [c_variable c_fixed c_hours c_ramp c_initial].
  split_and!; try apply sound_pick; [done|..].
  1-4: intros target; rewrite lack_pick; symmetry; destruct (e_revenue e) eqn:E;
    by field_step E.
  intros target. unfold lacking_of, initial_fields. cbn [foldr].
  match goal with L : lack a = _ |- _ => rewrite L end. rewrite !lack_pick.
  destruct (e_revenue e) eqn:E; do 4 field_step E; cbn [input_assumption]; union_eq.
Qed.

Lemma stream_of_facts e s r n target :
  stream_of (e_revenue e) s = Some r → r = Ok n →
  sound n ∧ lack n ∪ lk (unknown_input e target fields.RAMP) fields.RAMP
            = lacking_of e target (revenue_fields (e_revenue e)).
Proof.
  intros Hr Hn. destruct (e_revenue e) eqn:E; [|done|..]; cbn [stream_of] in Hr;
    injection Hr as <-; erewrite need_reads in Hn by apply _;
    lack_steps; (split; [assumption|]);
    match goal with L : lack _ = _ |- _ => rewrite L end; rewrite !lack_pick;
    unfold lacking_of, revenue_fields; cbn [foldr];
    do 4 try field_step E; try field_step E; try field_step E;
    cbn [input_assumption]; union_eq.
Qed.

Lemma lacking_app e target l k :
  lacking_of e target (l ++ k) = lacking_of e target l ∪ lacking_of e target k.
Proof.
  induction l as [|f l IH]; cbn [app lacking_of foldr]; [union_eq|].
  unfold lacking_of in IH. rewrite IH. union_eq.
Qed.

Lemma lacking_cons e target f l :
  lacking_of e target (f :: l) = lk (unknown_input e target f) f ∪ lacking_of e target l.
Proof. done. Qed.

Lemma lacking_fx e target : lack (fx_for e target) = lacking_of e target [fields.FX].
Proof. rewrite lack_fx_for. unfold lacking_of. simpl. union_eq. Qed.

(** Both ends of a ONE_OFF figure lack the same. *)
Lemma missing_both {T} (c : T → T → comparison) (a b : Metric T) low :
  missing a = missing b → missing (both c a b low) = missing a.
Proof. destruct a, b; simpl; intros; simplify_eq; try done. Qed.

Lemma combine_missing short long s fig :
  (∀ fig, figure_state short fig = figure_state long fig) →
  figure_state (combine short long s) fig = figure_state short fig.
Proof.
  intros H. specialize (H fig). destruct fig; simpl in *; by apply missing_both.
Qed.

Lemma cash_lacks_fields e target common s m fig :
  common_pick e s = Ok common →
  cash_lacks (lacking_of e target (revenue_fields m)) common (lack (fx_for e target))
    (lacking_of e target (hours_fields m)) fig
  = lacking_of e target (figure_fields m fig).
Proof.
  intros Hc. apply common_pick_facts in Hc as (_ & Hv & Hf & _ & Hra & Hi).
  rewrite lacking_fx. destruct fig; unfold cash_lacks, figure_fields;
    rewrite ?lacking_cons, ?lacking_app, ?lacking_cons, ?(Hv target), ?(Hf target), ?(Hi target),
      ?(Hra target); change (lacking_of e target []) with (∅ : gset string); union_eq.
Qed.

(** A delivery length, or its field. *)
Notation weeks_need w := (ok_or (E := gset string) w {[ fields.DELIVERY_WEEKS ]}).

Lemma lacking_one_off e target s contract win weeks hours loss (w : option Z) :
  e_revenue e = OneOff contract win weeks hours loss →
  (is_Some w ↔ est_is_known (value weeks) = true) →
  lack (pick contract s Higher fields.CONTRACT_VALUE)
    ∪ lack (pick win s Higher fields.WIN_PROBABILITY)
    ∪ lack (pick loss s Lower fields.COLLECTION_LOSS)
    ∪ lack (weeks_need w)
  = lacking_of e target (revenue_fields (e_revenue e))
  ∧ lk (unknown_input e target fields.OWNER_HOURS) fields.OWNER_HOURS
    ∪ lack (pick hours s Lower fields.OWNER_HOURS_TOTAL)
    ∪ lack (weeks_need w)
  = lacking_of e target (hours_fields (e_revenue e)).
Proof.
  intros E Hw. rewrite (lack_weeks _ _ Hw), !lack_pick. rewrite E. cbn [revenue_fields hours_fields].
  rewrite !lacking_cons. split.
  - do 4 field_step E. cbn [input_assumption lacking_of foldr]. union_eq.
  - field_step E. field_step E. field_step E. cbn [input_assumption lacking_of foldr].
    union_eq.
Qed.

Lemma sound_weeks (w : option Z) : sound (weeks_need w).
Proof. destruct w; simpl; set_solver. Qed.

(** A ONE_OFF computation at one delivery length. *)
Lemma one_off_at_missing e target k common s contract win weeks hours loss (w : option Z) m fig :
  e_revenue e = OneOff contract win weeks hours loss →
  (is_Some w ↔ est_is_known (value weeks) = true) →
  k_fx k = fx_for e target → common_pick e s = Ok common →
  one_off (mkOneOffDeal (pick contract s Higher fields.CONTRACT_VALUE)
             (pick win s Higher fields.WIN_PROBABILITY)
             (pick loss s Lower fields.COLLECTION_LOSS)
             (pick hours s Lower fields.OWNER_HOURS_TOTAL))
    common k (weeks_need w) s = Ok m →
  figure_state m fig = lacks_state (lacking_of e target (figure_fields (e_revenue e) fig)).
Proof.
  intros E Hw Hk Hc H. pose proof (common_pick_facts _ _ _ Hc) as (Hs & _ & _ & Hh & _ & _).
  eapply one_off_missing in H;
    [|cbn; try apply sound_pick; try apply sound_weeks; try done..];
    [|rewrite Hk; apply sound_fx_for].
  rewrite H, Hk. cbn [d_contract d_win d_loss d_hours_total]. f_equal. rewrite (Hh target).
  destruct (lacking_one_off e target s _ _ _ _ _ w E Hw) as [-> ->].
  by eapply cash_lacks_fields.
Qed.

Lemma scenario_stream e k s st m :
  stream_of (e_revenue e) s = Some st → scenario e k s = Ok m →
  ∃ c n, common_pick e s = Ok c ∧ st = Ok n ∧ run_rate n c k s = Ok m.
Proof.
  intros Est H. unfold scenario in H. apply bind_ok in H as (c & Hc & H). exists c.
  destruct (e_revenue e); cbn [stream_of] in Est, H; try discriminate; injection Est as <-;
    apply bind_ok in H as (n & Hn & H); by exists n.
Qed.

Lemma scenario_missing e k s m fig target :
  k_fx k = fx_for e target → scenario e k s = Ok m →
  figure_state m fig = lacks_state (lacking_of e target (figure_fields (e_revenue e) fig)).
Proof.
  intros Hk H. destruct (stream_of (e_revenue e) s) as [st|] eqn:Est.
  - destruct (scenario_stream _ _ _ _ _ Est H) as (common & n & Hc & Hn & Hm).
    pose proof (common_pick_facts _ _ _ Hc) as (Hs & _ & _ & Hh & Hr & _).
    pose proof (stream_of_facts e s st n target Est Hn) as [Sn Ln].
    eapply run_rate_missing in Hm; [|done..|rewrite Hk; apply sound_fx_for].
    rewrite Hm, Hk. f_equal. rewrite (Hr target), Ln, (Hh target).
    replace (lk _ _) with (lacking_of e target (hours_fields (e_revenue e))); [by eapply cash_lacks_fields|].
    destruct (e_revenue e); try discriminate; cbn [hours_fields lacking_of foldr]; union_eq.
  - unfold scenario in H. apply bind_ok in H as (common & Hc & H).
    destruct (e_revenue e) as [|contract win weeks hours loss| |] eqn:E; try discriminate.
    rewrite <-E. destruct s; inv_ok.
    2: { eapply one_off_at_missing; [done| |done..]. apply (est_pick_known _ Base Lower). }
    all: subst m; rewrite combine_missing.
    1,3: eapply one_off_at_missing; [done| |done..]; apply (est_pick_known _ Upside Lower).
    all: intros f; etransitivity;
      [eapply one_off_at_missing; [done| |done..]; apply (est_pick_known _ Upside Lower)|symmetry].
    all: eapply one_off_at_missing; [done| |done..]; apply (est_pick_known _ Downside Lower).
Qed.

(** ** Checked arithmetic *)

Lemma mul_ok a b v : mul a b = Ok v ↔ v = a * b ∧ i128_min ≤ a * b ≤ i128_max.
Proof.
  unfold mul, try_i128. destruct (try_range _ _ _) eqn:E; simpl.
  - apply try_range_some in E as [-> ?]. split; [by intros [= <-]|by intros [-> _]].
  - apply try_range_none in E. split; [done|tauto].
Qed.

Lemma add_ok a b v : add a b = Ok v ↔ v = a + b ∧ i128_min ≤ a + b ≤ i128_max.
Proof.
  unfold add, try_i128. destruct (try_range _ _ _) eqn:E; simpl.
  - apply try_range_some in E as [-> ?]. split; [by intros [= <-]|by intros [-> _]].
  - apply try_range_none in E. split; [done|tauto].
Qed.

Lemma to_minor_ok v m : to_minor v = Ok m ↔ m = v ∧ i64_min ≤ v ≤ i64_max.
Proof.
  unfold to_minor, try_i64. destruct (try_range _ _ _) eqn:E; simpl.
  - apply try_range_some in E as [-> ?]. split; [by intros [= <-]|by intros [-> _]].
  - apply try_range_none in E. split; [done|tauto].
Qed.

(** Reads every successful checked operation among the hypotheses. *)
Ltac checked :=
  repeat match goal with
  | H : mul _ _ = Ok _ |- _ => apply mul_ok in H; destruct H as [-> H]
  | H : add _ _ = Ok _ |- _ => apply add_ok in H; destruct H as [-> H]
  end.

Definition fx_ok (fx : Fx) : Prop :=
  match fx_rate fx with Some r => 0 ≤ rate_e8 r | None => True end.

Lemma convert_mono fx a b flow x y :
  fx_ok fx → a ≤ b → convert fx a flow = Ok x → convert fx b flow = Ok y → x ≤ y.
Proof.
  unfold fx_ok, convert. destruct (fx_rate fx) as [r|]; [|intros _ ?; intros [= <-] [= <-]; done].
  intros Hr Hab Hx Hy. inv_ok. subst. unfold fx_convert, fx_product in *.
  repeat match goal with
  | H : to_minor _ = Ok _ |- _ => apply to_minor_ok in H; destruct H as [-> H]
  | H : context [decide ?P] |- _ => destruct (decide P); [|discriminate]
  end. inv_ok. subst. simpl in *.
  unfold Minor.from_i128, try_i64 in *.
  repeat match goal with
  | H : ok_or (try_range ?l ?h ?v) _ = Ok _ |- _ =>
      let E := fresh in destruct (try_range l h v) eqn:E; [|discriminate H];
      apply try_range_some in E; destruct E as [-> _]; injection H as <-
  end.
  apply flow_div_mono; [done|]. nia.
Qed.

(** ** Cash *)

Lemma cash_of_mono r1 r2 v1 v2 f1 f2 c1 c2 :
  0 ≤ r1 ≤ r2 → 0 ≤ v2 ≤ v1 → v1 ≤ FULL → f2 ≤ f1 →
  cash_of r1 v1 f1 = Ok c1 → cash_of r2 v2 f2 = Ok c2 → c1 ≤ c2.
Proof.
  unfold cash_of. intros Hr Hv Hv1 Hf H1 H2. inv_ok. checked. subst.
  unfold FULL, BPS_FULL in *.
  assert (div_ceil (r2 * v2) 10000 ≤ div_ceil (r1 * v1) 10000 + (r2 - r1)); [|lia].
  div_bounds. assert (r2 * v2 ≤ r1 * v1 + (r2 - r1) * 10000) by nia. nia.
Qed.

(** ** Revenue streams *)

(** Every field of the left stream is no better. *)
Definition stream_le (a b : Stream) : Prop :=
  match a, b with
  | SRecurring w1 k1 p1 c1, SRecurring w2 k2 p2 c2 =>
      0 ≤ w1 ≤ w2 ∧ 0 ≤ k1 ≤ k2 ∧ 0 ≤ p1 ≤ p2 ∧ 0 ≤ c1 ≤ c2
  | SDecay f1 k1 c1, SDecay f2 k2 c2 => 0 ≤ f1 ≤ f2 ∧ 0 ≤ k1 ≤ k2 ∧ 0 ≤ c1 ≤ c2
  | SFlat c1, SFlat c2 => 0 ≤ c1 ≤ c2
  | _, _ => False
  end.

(** A RECURRING base is empty until the month after the ramp. *)
Definition base_inv (st : Stream) (ramp base month : Z) : Prop :=
  0 ≤ base ∧ match st with SRecurring _ _ _ _ => month ≤ ramp + 1 → base = 0 | _ => True end.

Lemma floor_mono_mul a b x y d : 0 < d → 0 ≤ a ≤ b → 0 ≤ x ≤ y →
  0 ≤ div_floor (a * x) d ≤ div_floor (b * y) d.
Proof. intros. split; [apply div_floor_nonneg; nia|apply div_floor_mono; nia]. Qed.

Lemma stream_month_mono st1 st2 ramp1 ramp2 b1 b2 month b1' b2' r1 r2 :
  stream_le st1 st2 → ramp2 ≤ ramp1 → b1 ≤ b2 →
  base_inv st1 ramp1 b1 month → base_inv st2 ramp2 b2 month →
  stream_month st1 ramp1 b1 month = Ok (b1', r1) →
  stream_month st2 ramp2 b2 month = Ok (b2', r2) →
  (0 ≤ r1 ≤ r2 ∧ b1' ≤ b2')
  ∧ base_inv st1 ramp1 b1' (month + 1) ∧ base_inv st2 ramp2 b2' (month + 1).
Proof.
  intros Hst Hra Hb [I1 J1] [I2 J2]. unfold stream_month, base_inv.
  destruct st1 as [w1 k1 p1 c1|f1 k1 c1|c1], st2 as [w2 k2 p2 c2|f2 k2 c2|c2];
    simpl in Hst; try done.
  - destruct Hst as (Hw & Hk & Hp & Hc).
    destruct (Z.ltb_spec ramp1 month), (Z.ltb_spec ramp2 month); try lia; intros M1 M2;
      inv_ok; checked; subst; simplify_eq; unfold MILLI, FULL, BPS_FULL in *.
    + assert (Hq : 0 ≤ div_floor (b1 * k1) 10000 ≤ div_floor (b2 * k2) 10000)
        by (apply floor_mono_mul; lia).
      split; [|split; split; try lia]. split; [|lia].
      apply floor_mono_mul; [lia| |lia]. split; nia.
    + assert (Hq : 0 ≤ div_floor (b2 * k2) 10000) by (apply div_floor_nonneg; nia).
      assert (b1' = 0) by (apply J1; lia).
      split; [|split; split; try lia]. split; [|lia].
      split; [lia|]. apply div_floor_nonneg; [lia|]. repeat apply Z.mul_nonneg_nonneg; lia.
    + split; [|split; split; try lia]. lia.
  - destruct Hst as (Hw & Hk & Hc). intros M1 M2.
    apply bind_ok in M1 as (x1 & X1 & M1). apply bind_ok in M2 as (x2 & X2 & M2).
    assert (Hq : 0 ≤ x1 ≤ x2).
    { destruct (1 <? month); inv_ok; checked; subst; [|lia].
      apply floor_mono_mul; [done|lia..]. }
    destruct (Z.ltb_spec ramp1 month), (Z.ltb_spec ramp2 month); try lia; inv_ok; checked;
      simplify_eq; (split; [split|by split; split; try lia]); try lia.
    + apply floor_mono_mul; [done|lia..].
    + split; [lia|]. apply div_floor_nonneg; [done|nia].
  - intros [= <- <-] [= <- <-]. split; [|by split; split].
    destruct (Z.ltb_spec ramp1 month), (Z.ltb_spec ramp2 month); lia.
Qed.

Lemma revenue_go_mono st1 st2 ramp1 ramp2 n : ∀ b1 b2 month l1 l2,
  stream_le st1 st2 → ramp2 ≤ ramp1 → b1 ≤ b2 →
  base_inv st1 ramp1 b1 month → base_inv st2 ramp2 b2 month →
  revenue_go st1 ramp1 b1 month n = Ok l1 →
  revenue_go st2 ramp2 b2 month n = Ok l2 →
  Forall2 (λ r1 r2, 0 ≤ r1 ≤ r2) l1 l2.
Proof.
  induction n as [|n IH]; intros b1 b2 month l1 l2 Hst Hra Hb I1 I2 H1 H2; simpl in H1, H2.
  { simplify_eq. constructor. }
  inv_ok. destruct a as [b1' r1], a0 as [b2' r2]. inv_ok. subst.
  match goal with
  | A : stream_month st1 _ _ _ = _, B : stream_month st2 _ _ _ = _ |- _ =>
      destruct (stream_month_mono _ _ _ _ _ _ _ _ _ _ _ Hst Hra Hb I1 I2 A B) as ([? ?] & ? & ?)
  end.
  constructor; [done|]. by eapply IH.
Qed.

Lemma stream_revenue_mono st1 st2 ramp1 ramp2 months l1 l2 :
  stream_le st1 st2 → 0 ≤ ramp2 ≤ ramp1 →
  stream_revenue st1 ramp1 months = Ok l1 → stream_revenue st2 ramp2 months = Ok l2 →
  Forall2 (λ r1 r2, 0 ≤ r1 ≤ r2) l1 l2.
Proof.
  intros Hst Hra. unfold stream_revenue. apply revenue_go_mono; [done|lia| | |];
    destruct st1, st2; simpl in *; unfold base_inv; try done; lia.
Qed.

Lemma revenue_go_length st ramp n : ∀ b month l,
  revenue_go st ramp b month n = Ok l → length l = n.
Proof.
  induction n as [|n IH]; intros b month l H; simpl in H; [by simplify_eq|].
  inv_ok. destruct a as [b' r]. inv_ok. subst l. simpl. f_equal. by eapply IH.
Qed.

(** ** Payback *)

(** What month [i] brings, and the running sum of the first [n] months. *)
Definition month_value (monthly : MonthIter) (i : nat) : Z :=
  match monthly i with Some (Ok c) => c | _ => 0 end.
Fixpoint running (monthly : MonthIter) (n : nat) : Z :=
  match n with O => 0 | S n => running monthly n + month_value monthly n end.

(** [p] is the first month at which the running sum covers [initial], among
    the months the iterator gives and the scan takes. *)
Definition first_covering (monthly : MonthIter) (initial : Z) (p : Payback) : Prop :=
  match p with
  | Months n =>
      0 ≤ n ≤ PAYBACK_SCAN_MONTHS
      ∧ initial ≤ running monthly (Z.to_nat n)
      ∧ ∀ j : nat, Z.of_nat j < n → running monthly j < initial
  | NotReached =>
      ∀ j : nat, Z.of_nat j ≤ PAYBACK_SCAN_MONTHS →
        (∀ i : nat, (i < j)%nat → is_Some (monthly i)) → running monthly j < initial
  end.

Lemma payback_go_spec monthly initial fuel : ∀ i p,
  (∀ j : nat, (j ≤ i)%nat → running monthly j < initial) →
  payback_go monthly initial (running monthly i) i fuel = Ok p →
  match p with
  | Months n =>
      0 ≤ n ≤ Z.of_nat (i + fuel)
      ∧ initial ≤ running monthly (Z.to_nat n)
      ∧ ∀ j : nat, Z.of_nat j < n → running monthly j < initial
  | NotReached =>
      ∀ j : nat, (j ≤ i + fuel)%nat →
        (∀ l : nat, (l < j)%nat → is_Some (monthly l)) → running monthly j < initial
  end.
Proof.
  induction fuel as [|fuel IH]; intros i p Hlt H; simpl in H.
  { simplify_eq. intros j Hj _. apply Hlt. lia. }
  destruct (monthly i) as [c|] eqn:Ei.
  - inv_ok. checked. assert (Hr : running monthly i + a = running monthly (S i)).
    { simpl. unfold month_value. by rewrite Ei, Ha. }
    rewrite Hr in H. destruct (Z.leb_spec initial (running monthly (S i))).
    + injection H as <-. split_and!; [lia|lia|by replace (Z.to_nat _) with (S i) by lia|].
      intros j Hj. apply Hlt. lia.
    + apply IH in H.
      * destruct p; [|intros j Hj; apply H; lia]. destruct H as (?&?&?). split_and!; auto; lia.
      * intros j Hj. destruct (decide (j = S i)) as [->|]; [done|]. apply Hlt. lia.
  - injection H as <-. intros j Hj Hs. destruct (decide (j ≤ i)%nat); [by apply Hlt|].
    destruct (Hs i) as [? E]; [lia|]. congruence.
Qed.

Lemma payback_first monthly initial p :
  payback monthly initial = Ok p → first_covering monthly initial p.
Proof.
  unfold payback. destruct (Z.leb_spec initial 0).
  - intros [= <-]. split_and!; [done|done|simpl; lia|]. intros j Hj. lia.
  - intros Hp. change 0 with (running monthly 0) in Hp.
    apply payback_go_spec in Hp.
    + destruct p; [exact Hp|].
      intros j Hj. apply Hp. unfold PAYBACK_SCAN_MONTHS in *. lia.
    + intros j Hj. replace j with 0%nat by lia. simpl. lia.
Qed.

Lemma payback_go_later m initial fuel : ∀ i s n,
  payback_go m initial s i fuel = Ok (Months n) → Z.of_nat i < n.
Proof.
  induction fuel as [|fuel IH]; intros i s n H; simpl in H; [done|].
  destruct (m i); [|done]. inv_ok. destruct (initial <=? _).
  - injection H as <-. lia.
  - apply IH in H. lia.
Qed.

Lemma payback_go_mono m1 m2 i1 i2 fuel : ∀ i s1 s2 p1 p2,
  i2 ≤ i1 → s1 ≤ s2 →
  (∀ i, is_Some (m1 i) → is_Some (m2 i)) →
  (∀ i a b, m1 i = Some (Ok a) → m2 i = Some (Ok b) → a ≤ b) →
  payback_go m1 i1 s1 i fuel = Ok p1 → payback_go m2 i2 s2 i fuel = Ok p2 →
  payback_cmp p2 p1 ≠ Gt.
Proof.
  induction fuel as [|fuel IH]; intros i s1 s2 p1 p2 Hi Hs Hd Hm H1 H2; simpl in H1, H2.
  { by simplify_eq. }
  destruct (m1 i) as [c1|] eqn:E1; [|injection H1 as <-; by destruct p2].
  destruct (Hd i) as [c2 E2]; [by rewrite E1|]. rewrite E2 in H2.
  apply bind_ok in H1 as (x1 & -> & H1). apply bind_ok in H2 as (x2 & -> & H2).
  assert (Hx : x1 ≤ x2) by eauto. inv_ok. checked.
  destruct (Z.leb_spec i1 (s1 + x1)), (Z.leb_spec i2 (s2 + x2)); try lia.
  - injection H1 as <-. injection H2 as <-. simpl. by rewrite Z.compare_refl.
  - injection H2 as <-. destruct p1 as [n|]; [|done]. cbn [payback_cmp].
    apply payback_go_later in H1. rewrite Z.compare_gt_iff. lia.
  - eapply IH; [exact Hi| |exact Hd|exact Hm|exact H1|exact H2]. lia.
Qed.

Lemma payback_mono m1 m2 i1 i2 p1 p2 :
  i2 ≤ i1 →
  (∀ i, is_Some (m1 i) → is_Some (m2 i)) →
  (∀ i a b, m1 i = Some (Ok a) → m2 i = Some (Ok b) → a ≤ b) →
  payback m1 i1 = Ok p1 → payback m2 i2 = Ok p2 → payback_cmp p2 p1 ≠ Gt.
Proof.
  unfold payback. intros Hi Hd Hm.
  destruct (Z.leb_spec i1 0), (Z.leb_spec i2 0); try lia.
  - by intros [= <-] [= <-].
  - intros H1 [= <-]. destruct p1 as [n|]; [|done]. cbn [payback_cmp].
    apply payback_go_later in H1. rewrite Z.compare_gt_iff. lia.
  - by apply payback_go_mono.
Qed.

(** ** Order of the scenarios *)

(** [a] is no greater than [b] whenever both are known. *)
Definition metric_le {T} (c : T → T → comparison) (a b : Metric T) : Prop :=
  ∀ x y, a = Known x → b = Known y → c x y ≠ Gt.

(** Every figure of [a] is no better than [b]'s: income no higher, hours,
    costs, capital and payback no lower. *)
Definition no_better_figures (a b : ScenarioMetrics) : Prop :=
  metric_le Z.compare (monthly_revenue_collected a) (monthly_revenue_collected b)
  ∧ metric_le Z.compare (monthly_cash_contribution a) (monthly_cash_contribution b)
  ∧ metric_le Z.compare (owner_hours_per_month b) (owner_hours_per_month a)
  ∧ metric_le Z.compare (owner_time_cost b) (owner_time_cost a)
  ∧ metric_le Z.compare (time_adjusted_contribution a) (time_adjusted_contribution b)
  ∧ metric_le Z.compare (initial_capital b) (initial_capital a)
  ∧ metric_le payback_cmp (sm_payback b) (sm_payback a)
  ∧ metric_le payback_cmp (payback_time_adjusted b) (payback_time_adjusted a).

(** Both known: related by [P]. *)
Definition need_le {T} (P : T → T → Prop) (a b : Need T) : Prop :=
  ∀ x y, a = Ok x → b = Ok y → P x y.

(** The shared inputs of [a] are no better than [b]'s. *)
Definition common_le (a b : Common) : Prop :=
  need_le (λ x y, 0 ≤ y ≤ x ∧ x ≤ FULL) (c_variable a) (c_variable b)
  ∧ need_le (λ x y, y ≤ x) (c_fixed a) (c_fixed b)
  ∧ need_le (λ x y, 0 ≤ y ≤ x) (c_hours a) (c_hours b)
  ∧ need_le (λ x y, 0 ≤ y ≤ x) (c_ramp a) (c_ramp b)
  ∧ need_le (λ x y, y ≤ x) (c_initial a) (c_initial b).

Lemma need_le_on {A B} (n1 n2 : Need A) (b1 b2 : A → R B) m1 m2 (P : A → A → Prop) (Q : B → B → Prop) :
  on n1 b1 = Ok m1 → on n2 b2 = Ok m2 → need_le P n1 n2 →
  (∀ x y u v, P x y → b1 x = Ok u → b2 y = Ok v → Q u v) → need_le Q m1 m2.
Proof.
  intros H1 H2 HP HQ u v -> ->. apply on_known in H1 as (x & ? & ?).
  apply on_known in H2 as (y & ? & ?). eauto.
Qed.

Lemma need_le_zip {A B} (a1 a2 : Need A) (b1 b2 : Need B) P Q :
  need_le P a1 a2 → need_le Q b1 b2 →
  need_le (λ x y, P x.1 y.1 ∧ Q x.2 y.2) (zip a1 b1) (zip a2 b2).
Proof. intros HP HQ [] [] [??]%zip_ok [??]%zip_ok. split; eauto. Qed.

Lemma need_le_same {A} (n : Need A) : need_le eq n n.
Proof. intros x y. congruence. Qed.

Lemma need_le_weaken {A} (P Q : A → A → Prop) n m :
  (∀ x y, P x y → Q x y) → need_le P n m → need_le Q n m.
Proof. intros H HP x y ??. eauto. Qed.

Lemma need_le_flip {A} (P : A → A → Prop) n m : need_le P n m → need_le (λ x y, P y x) m n.
Proof. intros H x y ??. eauto. Qed.

Lemma metric_le_as n1 n2 m1 m2 :
  as_metric n1 = Ok m1 → as_metric n2 = Ok m2 → need_le Z.le n1 n2 →
  metric_le Z.compare m1 m2.
Proof.
  intros H1 H2 H x y -> ->. apply as_metric_known in H1. apply as_metric_known in H2.
  rewrite Z.compare_le_iff. by apply H.
Qed.

Lemma metric_le_metric {T} (c : T → T → comparison) (n1 n2 : Need T) :
  need_le (λ x y, c x y ≠ Gt) n1 n2 → metric_le c (metric n1) (metric n2).
Proof.
  intros H x y. destruct n1, n2; simpl; try done. intros [= ->] [= ->]. by apply H.
Qed.

Lemma collect_mono {A} (P : A → A → Prop) (f1 f2 : A → R Z) l1 l2 k1 k2 :
  Forall2 P l1 l2 → (∀ x y u v, P x y → f1 x = Ok u → f2 y = Ok v → u ≤ v) →
  collect f1 l1 = Ok k1 → collect f2 l2 = Ok k2 → Forall2 Z.le k1 k2.
Proof.
  intros Hl Hf. rewrite !collect_ok. revert k1 k2.
  induction Hl as [|x y l1 l2 Hxy Hl IH]; intros k1 k2 H1 H2; inversion H1; inversion H2; subst;
    constructor; eauto.
Qed.

Lemma nth_mono h l1 l2 : Forall2 Z.le l1 l2 → nth h l1 0 ≤ nth h l2 0.
Proof. intros H. revert h. induction H; intros [|h]; simpl; auto; lia. Qed.

(** Payback over two lists of months. *)
Lemma payback_lists_mono l1 l2 (g1 g2 : Z → R Z) i1 i2 p1 p2 :
  Forall2 Z.le l1 l2 → (∀ x y u v, x ≤ y → g1 x = Ok u → g2 y = Ok v → u ≤ v) → i2 ≤ i1 →
  payback (λ i, g1 <$> l1 !! i) i1 = Ok p1 → payback (λ i, g2 <$> l2 !! i) i2 = Ok p2 →
  payback_cmp p2 p1 ≠ Gt.
Proof.
  intros Hl Hg Hi. apply payback_mono; [done|..].
  - intros i. rewrite !fmap_is_Some, !lookup_lt_is_Some. by rewrite (Forall2_length _ _ _ Hl).
  - intros i a b. rewrite !fmap_Some. intros (x & Hx & Ha) (y & Hy & Hb).
    eapply Hg; [|symmetry; done..]. by eapply Forall2_lookup_lr.
Qed.

(** A tuple's computation, one side against the other. *)
Lemma need_le_convert {A} (f : A → Z) (P : A → A → Prop) (fx : Need Fx) n1 n2 m1 m2 flow :
  (∀ x y, P x y → f x ≤ f y) → (∀ x, fx = Ok x → fx_ok x) → need_le P n1 n2 →
  on (zip n1 fx) (λ '(x, fx), convert fx (f x) flow) = Ok m1 →
  on (zip n2 fx) (λ '(x, fx), convert fx (f x) flow) = Ok m2 →
  need_le Z.le m1 m2.
Proof.
  intros Hf Hfx HP H1 H2 u v -> ->.
  apply on_known in H1 as ([x r] & [Hx Hr]%zip_ok & H1).
  apply on_known in H2 as ([y r'] & [Hy Hr']%zip_ok & H2). simpl in *.
  assert (r' = r) as -> by congruence. eapply convert_mono; [|by apply Hf, HP|done..]. by apply Hfx.
Qed.

(** The running figures both models end with. *)
Lemma need_le_difference (a1 a2 b1 b2 m1 m2 : Need Z) :
  need_le Z.le a1 a2 → need_le (λ x y, y ≤ x) b1 b2 →
  on (zip a1 b1) (λ '(a, b), Ok (a - b)) = Ok m1 →
  on (zip a2 b2) (λ '(a, b), Ok (a - b)) = Ok m2 → need_le Z.le m1 m2.
Proof.
  intros Ha Hb H1 H2. eapply (need_le_on _ _ _ _ _ _ _ _ H1 H2); [by apply need_le_zip|].
  intros [] [] u v [??] [= <-] [= <-]. simpl in *. lia.
Qed.

Lemma run_cash_mono st1 st2 c1 c2 months rev1 rev2 cash1 cash2 :
  need_le stream_le st1 st2 → common_le c1 c2 →
  on (zip st1 (c_ramp c1)) (λ '(stream, ramp), stream_revenue stream ramp months) = Ok rev1 →
  on (zip st2 (c_ramp c2)) (λ '(stream, ramp), stream_revenue stream ramp months) = Ok rev2 →
  on (zip (zip rev1 (c_variable c1)) (c_fixed c1)) (λ '(revenue, v, f), collect (λ r, cash_of r v f) revenue) = Ok cash1 →
  on (zip (zip rev2 (c_variable c2)) (c_fixed c2)) (λ '(revenue, v, f), collect (λ r, cash_of r v f) revenue) = Ok cash2 →
  need_le (Forall2 (λ r1 r2, 0 ≤ r1 ≤ r2)) rev1 rev2 ∧ need_le (Forall2 Z.le) cash1 cash2.
Proof.
  intros Hst (Hv & Hf & Hh & Hra & Hin) R1 R2 C1 C2.
  assert (Rev : need_le (Forall2 (λ r1 r2, 0 ≤ r1 ≤ r2)) rev1 rev2).
  { eapply (need_le_on _ _ _ _ _ _ _ _ R1 R2); [by apply need_le_zip|].
    intros [x r] [y q] u v [Hx Hr] Hu Hv'. simpl in *. by eapply stream_revenue_mono. }
  split; [done|].
  eapply (need_le_on _ _ _ _ _ _ _ _ C1 C2); [repeat apply need_le_zip; eassumption|].
  intros [[x v] f] [[x' v'] f'] u w [[Hx [Hv1 Hv2]] Hf1] Hu Hw. simpl in *.
  eapply collect_mono; [exact Hx| |done..]. intros r r' a b Hr Ha Hb. simpl in *.
  eapply cash_of_mono; [exact Hr|exact Hv1|exact Hv2|exact Hf1|done|done].
Qed.

Lemma run_payback_mono k (cash1 cash2 : Need (list Z)) cost1 cost2 in1 in2 pt1 pt2 :
  need_le (Forall2 Z.le) cash1 cash2 → need_le (λ x y, y ≤ x) cost1 cost2 →
  need_le (λ x y, y ≤ x) in1 in2 → (∀ fx, k_fx k = Ok fx → fx_ok fx) →
  on (zip (zip (zip cash1 cost1) in1) (k_fx k)) (λ '(cash, cost, initial, fx),
    payback (λ i, (λ v, c ← convert fx v Inflow; Ok (c - cost)) <$> cash !! i) initial) = Ok pt1 →
  on (zip (zip (zip cash2 cost2) in2) (k_fx k)) (λ '(cash, cost, initial, fx),
    payback (λ i, (λ v, c ← convert fx v Inflow; Ok (c - cost)) <$> cash !! i) initial) = Ok pt2 →
  need_le (λ x y, payback_cmp y x ≠ Gt) pt1 pt2.
Proof.
  intros Cash Cost Init Hfx Q1 Q2.
  eapply (need_le_on _ _ _ _ _ _ _ _ Q1 Q2).
  { apply need_le_zip; [repeat apply need_le_zip; eassumption|].
    instantiate (1 := λ x y, x = y ∧ fx_ok x). intros x y Hx Hy.
    assert (x = y) by congruence. subst. split; [done|by apply Hfx]. }
  intros [[[x c] i] fx] [[[y c'] j] fx'] u v [[[Hx Hc] Hi] [? Hok]] Hu Hv'. simpl in *. subst fx'.
  eapply payback_lists_mono; [exact Hx| |exact Hi|done|done].
  intros a b p q Hab Hp Hq. apply bind_ok in Hp as (a' & Ha & Hp).
  apply bind_ok in Hq as (b' & Hb & Hq). inv_ok.
  assert (a' ≤ b') by (by eapply convert_mono). lia.
Qed.

Lemma run_rate_mono st1 st2 c1 c2 k s1 s2 m1 m2 :
  need_le stream_le st1 st2 → common_le c1 c2 → 0 ≤ k_rate k →
  (∀ fx, k_fx k = Ok fx → fx_ok fx) →
  run_rate st1 c1 k s1 = Ok m1 → run_rate st2 c2 k s2 = Ok m2 → no_better_figures m1 m2.
Proof.
  intros Hst Hc Hk Hfx H1 H2. unfold run_rate in H1, H2.
  apply bind_ok in H1 as (rev1 & R1 & H1). apply bind_ok in H2 as (rev2 & R2 & H2).
  apply bind_ok in H1 as (cash1 & C1 & H1). apply bind_ok in H2 as (cash2 & C2 & H2).
  apply bind_ok in H1 as (cost1 & O1 & H1). apply bind_ok in H2 as (cost2 & O2 & H2).
  apply bind_ok in H1 as (rh1 & RH1 & H1). apply bind_ok in H2 as (rh2 & RH2 & H2).
  apply bind_ok in H1 as (ch1 & CH1 & H1). apply bind_ok in H2 as (ch2 & CH2 & H2).
  apply bind_ok in H1 as (ta1 & T1 & H1). apply bind_ok in H2 as (ta2 & T2 & H2).
  apply bind_ok in H1 as (in1 & I1 & H1). apply bind_ok in H2 as (in2 & I2 & H2).
  apply bind_ok in H1 as (pb1 & P1 & H1). apply bind_ok in H2 as (pb2 & P2 & H2).
  apply bind_ok in H1 as (pt1 & Q1 & H1). apply bind_ok in H2 as (pt2 & Q2 & H2).
  repeat match goal with
  | Hn : need (let_else _ _) = Ok _ |- _ => erewrite need_reads in Hn by apply _
  end.
  destruct (run_cash_mono _ _ _ _ _ _ _ _ _ Hst Hc R1 R2 C1 C2) as [Rev Cash].
  destruct Hc as (Hv & Hf & Hh & Hra & Hin).
  assert (Cost : need_le (λ x y, y ≤ x) cost1 cost2).
  { eapply (need_le_on _ _ _ _ _ _ _ _ O1 O2); [exact Hh|]. intros x y u v ? Hu Hv'. simpl in *. checked. nia. }
  assert (RevH : need_le Z.le rh1 rh2).
  { eapply need_le_convert, RH2; [|done|exact Rev|exact RH1]. simpl. intros x y Hx.
    apply nth_mono. eapply Forall2_impl; [exact Hx|]. simpl. intros; lia. }
  assert (CashH : need_le Z.le ch1 ch2).
  { eapply need_le_convert, CH2; [|done|exact Cash|exact CH1]. simpl. intros. by apply nth_mono. }
  assert (TA : need_le Z.le ta1 ta2) by (by eapply need_le_difference).
  assert (Init : need_le (λ x y, y ≤ x) in1 in2).
  { eapply need_le_flip, (need_le_convert id), I1; [|done|apply need_le_flip, Hin|exact I2]. done. }
  assert (PB : need_le (λ x y, payback_cmp y x ≠ Gt) pb1 pb2).
  { eapply (need_le_on _ _ _ _ _ _ _ _ P1 P2); [by apply need_le_zip|].
    intros [x i] [y j] u v [Hx Hi] Hu Hv'. simpl in *.
    eapply payback_lists_mono; [exact Hx| |exact Hi|done|done]. simpl. intros; by simplify_eq. }
  pose proof (run_payback_mono _ _ _ _ _ _ _ _ _ Cash Cost Init Hfx Q1 Q2) as PT.
  inv_ok. subst m1 m2. unfold no_better_figures. simpl.
  split_and!; try (eapply metric_le_as; [eassumption..|]; try done; by apply need_le_flip).
  all: apply metric_le_metric; try (by apply need_le_flip); try done.
  apply need_le_flip. eapply need_le_weaken; [|exact Hh]. intros x y ?. simpl in *.
  rewrite Z.compare_le_iff. lia.
Qed.

(** ** What the types and [validate] give *)

(** What the type of an estimate guarantees: [Est::range]'s order and the
    value type's range. *)
Definition typed_est (lo hi : Z) (e : Est Z) : Prop :=
  est_ordered e ∧ est_all (λ x, lo ≤ x ≤ hi) e.

Definition typed_input (i : Input) : Prop :=
  match i with
  | Count a => typed_est 0 u32_max (value a)
  | Share a => typed_est 0 BPS_FULL (value a)
  | Amount a => typed_est i64_min i64_max (value a)
  end.

Definition typed_inputs (e : EconomicInputs) : Prop :=
  Forall (λ p, typed_input p.2) (inputs e)
  ∧ match e_fx e with Some r => 1 ≤ rate_e8 r ≤ u64_max | None => True end.

(** Every money input is at least zero (what [validate] checks). *)
Definition amounts_nonneg (e : EconomicInputs) : Prop :=
  Forall (λ p, match amount_low p.2 with Some low => 0 ≤ low | None => True end) (inputs e).

Lemma check_nil b c : Problems.check b c = [] → b = true.
Proof. unfold Problems.check. by destruct b. Qed.

Lemma validate_problems {A} `{SoeRecord A} (r : A) : validate r = Ok tt → rec_problems r = [].
Proof.
  unfold validate, Problems.into_result. case_match eqn:E; [|done]. intros _.
  by repeat apply app_eq_nil in E as [_ E].
Qed.

Lemma concat_nil {A B} (f : A → list B) l :
  List.concat (map f l) = [] → Forall (λ x, f x = []) l.
Proof. induction l; simpl; [constructor|]. intros [??]%app_eq_nil. constructor; auto. Qed.

Lemma economics_amounts o : economics_problems o = [] → amounts_nonneg (op_economics o).
Proof.
  unfold economics_problems, amounts_nonneg. intros [_ H]%app_eq_nil. apply concat_nil in H.
  eapply Forall_impl; [exact H|]. intros [f i] Hi. cbn [snd].
  apply app_eq_nil in Hi as [Hi _]. destruct (amount_low i); [|done].
  apply check_nil in Hi. lia.
Qed.

Lemma validated_amounts o : validate o = Ok tt → amounts_nonneg (op_economics o).
Proof.
  intros Hv. apply validate_problems in Hv. apply economics_amounts.
  cbn [rec_problems Opportunity_record] in Hv. unfold opportunity_problems in Hv.
  by do 10 (apply app_eq_nil in Hv as [_ Hv]); apply app_eq_nil in Hv as [Hv _].
Qed.

Lemma validated_rate p : validate p = Ok tt → 0 ≤ p_shadow_hourly_rate p.
Proof.
  intros Hv. apply validate_problems in Hv. cbn [rec_problems OperatorProfile_record] in Hv.
  unfold profile_problems in Hv.
  do 7 (apply app_eq_nil in Hv as [_ Hv]). apply app_eq_nil in Hv as [Hv _].
  apply check_nil in Hv. lia.
Qed.

(** ** Picking ends *)

(** Worse to better. *)
Definition scenario_rank (s : Scenario) : Z :=
  match s with Downside => 0 | Base => 1 | Upside => 2 end.

Lemma pick_order a s1 s2 better f lo hi :
  typed_est lo hi (value a) → scenario_rank s1 ≤ scenario_rank s2 →
  need_le (λ x y, no_better better x y ∧ lo ≤ x ≤ hi ∧ lo ≤ y ≤ hi)
    (pick a s1 better f) (pick a s2 better f).
Proof.
  intros [Ho Ha] Hs x y. unfold pick. destruct (value a) as [r|l b h].
  { by destruct s1, better. }
  simpl in *. destruct s1, s2; simpl in Hs; try lia; destruct better; simpl;
    intros [= <-] [= <-]; unfold no_better; lia.
Qed.

Lemma typed_lookup e f i :
  Forall (λ p : string * Input, typed_input p.2) (inputs e) → input e f = Some i → typed_input i.
Proof.
  unfold input. induction 1 as [|[g j] l Hj Hl IH]; simpl; [done|].
  destruct (String.eqb g f); [by intros [= <-]|done].
Qed.

Lemma nonneg_lookup e f a :
  amounts_nonneg e → typed_inputs e → input e f = Some (Amount a) →
  typed_est 0 i64_max (value a).
Proof.
  unfold amounts_nonneg, typed_inputs, input. intros Hn [Ht _] Hi.
  assert (H : typed_input (Amount a)) by (by eapply typed_lookup).
  assert (H0 : match amount_low (Amount a) with Some low => 0 ≤ low | None => True end).
  { clear Ht H. revert Hi. induction Hn as [|[g j] l Hj Hl IH]; simpl; [done|].
    destruct (String.eqb g f); [by intros [= ->]|done]. }
  destruct H as [Ho Ha]. split; [done|]. simpl in *. destruct (value a); simpl in *; [done|lia].
Qed.

Lemma fx_for_ok e target fx : typed_inputs e → fx_for e target = Ok fx → fx_ok fx.
Proof.
  intros [_ Hrate]. unfold fx_for. destruct (decide _); [by intros [= <-]|].
  destruct (e_fx e); [|done]. destruct (_ && _); [|done]. intros [= <-]. unfold fx_ok. simpl. lia.
Qed.

Section order.
Context (e : EconomicInputs) (s1 s2 : Scenario).
Hypothesis typed : typed_inputs e.
Hypothesis nonneg : amounts_nonneg e.
Hypothesis better : scenario_rank s1 ≤ scenario_rank s2.

(** One picked input in both scenarios. *)
Lemma amount_order a b f :
input e f = Some (Amount a) →
need_le (λ x y, no_better b x y ∧ 0 ≤ x ≤ i64_max ∧ 0 ≤ y ≤ i64_max)
  (pick a s1 b f) (pick a s2 b f).
Proof. intros H. apply pick_order; [by eapply nonneg_lookup|done]. Qed.

Lemma share_order a b f :
input e f = Some (Share a) →
need_le (λ x y, no_better b x y ∧ 0 ≤ x ≤ FULL ∧ 0 ≤ y ≤ FULL)
  (pick a s1 b f) (pick a s2 b f).
Proof.
intros H. apply pick_order; [|done]. by apply (typed_lookup e f (Share a)); [apply typed|].
Qed.

Lemma count_order a b f :
input e f = Some (Count a) →
need_le (λ x y, no_better b x y ∧ 0 ≤ x ≤ u32_max ∧ 0 ≤ y ≤ u32_max)
  (pick a s1 b f) (pick a s2 b f).
Proof.
intros H. apply pick_order; [|done]. by apply (typed_lookup e f (Count a)); [apply typed|].
Qed.

(** The input of each shared field, whatever the model. *)
Ltac shared := unfold input, inputs; destruct (e_revenue e); reflexivity.

Lemma common_order c1 c2 : common_pick e s1 = Ok c1 → common_pick e s2 = Ok c2 → common_le c1 c2.
Proof.
intros H1 H2. unfold common_pick in H1, H2. steps. subst. unfold common_le. simpl.
split_and!.
- eapply need_le_weaken, share_order; [|shared]. simpl. lia.
- eapply need_le_weaken, amount_order; [|shared]. simpl. lia.
- eapply need_le_weaken, count_order; [|shared]. simpl. lia.
- eapply need_le_weaken, count_order; [|shared]. simpl. lia.
- match goal with A : on _ _ = Ok ?x, B : on _ _ = Ok ?y |- need_le _ ?x ?y =>
    eapply (need_le_on _ _ _ _ _ _ _ _ A B) end.
  { repeat apply need_le_zip; apply amount_order; shared. }
  intros [[[]]] [[[]]] u v [[[P1 P2] P3] P4] Hu Hv. simpl in *. inv_ok. checked. subst.
  unfold no_better in *. lia.
Qed.

(** The inputs of a revenue model. *)
Ltac model E := unfold input, inputs; rewrite E; reflexivity.

Lemma stream_order r1 r2 n1 n2 :
stream_of (e_revenue e) s1 = Some r1 → stream_of (e_revenue e) s2 = Some r2 →
r1 = Ok n1 → r2 = Ok n2 → need_le stream_le n1 n2.
Proof.
destruct (e_revenue e) eqn:E; cbn [stream_of]; intros [= <-] [= <-] H1 H2;
  erewrite need_reads in H1, H2 by apply _;
  eapply (need_le_on _ _ _ _ _ _ _ _ H1 H2).
1,3,5: repeat apply need_le_zip;
  first [apply count_order; model E|apply share_order; model E|apply amount_order; model E].
- intros [[[[]]]] [[[[]]]] u v [[[[P1 P2] P3] P4] P5] Hu Hv. simpl in *. inv_ok. checked. subst.
  unfold stream_le, no_better, MILLI, FULL, BPS_FULL in *. split_and!; try lia.
  + apply div_floor_nonneg; nia.
  + apply div_floor_mono; nia.
- intros [[]] [[]] u v [[P1 P2] P3] Hu Hv. simpl in *. inv_ok. subst.
  unfold stream_le, no_better in *. lia.
- intros [[]] [[]] u v [[P1 P2] P3] Hu Hv. simpl in *. inv_ok. checked. subst.
  unfold stream_le, no_better, FULL, BPS_FULL in *.
  apply floor_mono_mul; [done|nia|lia].
Qed.

Lemma scenario_order k target m1 m2 :
stream_of (e_revenue e) s1 ≠ None → k_fx k = fx_for e target → 0 ≤ k_rate k →
scenario e k s1 = Ok m1 → scenario e k s2 = Ok m2 → no_better_figures m1 m2.
Proof.
intros Hm Hk Hr H1 H2.
destruct (stream_of (e_revenue e) s1) as [t1|] eqn:T1; [|done].
destruct (stream_of (e_revenue e) s2) as [t2|] eqn:T2; [|by destruct (e_revenue e)].
destruct (scenario_stream _ _ _ _ _ T1 H1) as (c1 & n1 & C1 & N1 & R1).
destruct (scenario_stream _ _ _ _ _ T2 H2) as (c2 & n2 & C2 & N2 & R2).
eapply run_rate_mono; [|by apply common_order|exact Hr| |exact R1|exact R2].
- by eapply stream_order.
- intros fx. rewrite Hk. by apply fx_for_ok.
Qed.
End order.

(** ** Errors *)

(** The only error is an overflow. *)
Definition only_overflow {A} (r : R A) : Prop := ∀ c, r = Err c → c = OVERFLOW.

Lemma overflow_ok {A} (a : A) : only_overflow (Ok a).
Proof. by intros c. Qed.

Lemma overflow_ok_or {A} (o : option A) : only_overflow (ok_or o OVERFLOW).
Proof. destruct o; intros c H; simpl in H; congruence. Qed.

Lemma overflow_bind {A B} (r : R A) (f : A → R B) :
  only_overflow r → (∀ a, r = Ok a → only_overflow (f a)) → only_overflow (r ≫= f).
Proof. intros Hr Hf c [H|(a & Ha & H)]%bind_err; [by apply Hr|by apply (Hf a)]. Qed.

Lemma overflow_on {A B} (n : Need A) (f : A → R B) :
  (∀ a, n = Ok a → only_overflow (f a)) → only_overflow (on n f).
Proof.
  destruct n as [a|]; simpl; intros H; [|apply overflow_ok].
  apply overflow_bind; [by apply H|]. intros. apply overflow_ok.
Qed.

Lemma overflow_need {A B} (g : Get A) (n : Need A) (f : A → R B) :
  Reads g n → (∀ a, n = Ok a → only_overflow (f a)) → only_overflow (need (let_else g f)).
Proof. intros Hg H. rewrite (need_reads g n f Hg). by apply overflow_on. Qed.

Lemma overflow_collect {A B} (f : A → R B) l :
  (∀ a, only_overflow (f a)) → only_overflow (collect f l).
Proof. intros Hf c H. apply collect_err in H as (? & a & ? & _ & H & _). by apply (Hf a). Qed.

Lemma overflow_as_metric n : only_overflow (as_metric n).
Proof.
  rewrite as_metric_eq. destruct n as [v|]; [|apply overflow_ok]. intros c.
  unfold to_minor. destruct (try_i64 v); simpl; congruence.
Qed.

Lemma overflow_revenue_go st ramp n : ∀ b month, only_overflow (revenue_go st ramp b month n).
Proof.
  assert (Hm : ∀ b month, only_overflow (stream_month st ramp b month)).
  { intros b month. unfold stream_month, mul, add.
    destruct st; repeat case_match; repeat (apply overflow_bind; [|intros ? _]);
      auto using overflow_ok, overflow_ok_or. }
  induction n as [|n IH]; intros b month; simpl; [apply overflow_ok|].
  apply overflow_bind; [done|]. intros [] _. apply overflow_bind; [done|]. intros. apply overflow_ok.
Qed.

Lemma overflow_payback monthly initial :
  (∀ i c, monthly i = Some c → only_overflow c) → only_overflow (payback monthly initial).
Proof.
  intros Hm. unfold payback. destruct (initial <=? 0); [apply overflow_ok|].
  assert (H : ∀ fuel i s, only_overflow (payback_go monthly initial s i fuel)); [|apply H].
  induction fuel as [|fuel IH]; intros i s; simpl; [apply overflow_ok|].
  destruct (monthly i) eqn:E; [|apply overflow_ok].
  apply overflow_bind; [by eapply Hm|]. intros c _.
  apply overflow_bind; [apply overflow_ok_or|]. intros s' _.
  destruct (_ <=? _); [apply overflow_ok|apply IH].
Qed.

(** A rate whose base is the native currency converts or overflows. *)
Definition fx_native_ok (fx : Fx) : Prop :=
  match fx_rate fx with Some r => base (pair r) = fx_native fx | None => True end.

Lemma overflow_convert fx v flow : fx_native_ok fx → only_overflow (convert fx v flow).
Proof.
  unfold fx_native_ok, convert. destruct (fx_rate fx) as [r|]; [|intros; apply overflow_ok].
  intros Hb. apply overflow_bind; [apply overflow_ok_or|]. intros m _.
  apply overflow_bind; [|intros; apply overflow_ok].
  unfold fx_convert, fx_product. simpl. rewrite decide_True by done. simpl.
  apply overflow_bind; [apply overflow_ok_or|]. intros. apply overflow_ok.
Qed.

Lemma fx_for_native e target fx : fx_for e target = Ok fx → fx_native_ok fx.
Proof.
  unfold fx_for, fx_native_ok. destruct (decide _); [by intros [= <-]|].
  destruct (e_fx e) as [r|]; [|done]. destruct (bool_decide _) eqn:E; [|done].
  destruct (bool_decide (quote _ = _)); [|done]. intros [= <-]. simpl.
  by apply bool_decide_eq_true in E.
Qed.

#[export] Hint Resolve overflow_ok overflow_ok_or overflow_as_metric : tengu.

Lemma overflow_cash_of r v f : only_overflow (cash_of r v f).
Proof. apply overflow_bind; [apply overflow_ok_or|]. intros. apply overflow_ok. Qed.

Lemma overflow_stream_revenue st ramp months : only_overflow (stream_revenue st ramp months).
Proof. apply overflow_revenue_go. Qed.

Lemma overflow_mapped (g : Z → R Z) (l : list Z) i c :
  (∀ v, only_overflow (g v)) → g <$> l !! i = Some c → only_overflow c.
Proof. intros Hg (v & _ & ->)%fmap_Some. apply Hg. Qed.

Lemma overflow_engagement ramp occ a b i c : engagement ramp occ a b i = Some c → only_overflow c.
Proof. unfold engagement. intros H. repeat case_match; simplify_eq; apply overflow_ok. Qed.

Lemma overflow_try_fold_add l : ∀ acc, only_overflow (try_fold add acc l).
Proof.
  induction l as [|x l IH]; intros acc; simpl; [apply overflow_ok|].
  apply overflow_bind; [apply overflow_ok_or|]. intros. apply IH.
Qed.

#[export] Hint Resolve overflow_cash_of overflow_stream_revenue overflow_engagement
  overflow_try_fold_add : tengu.

(** One step of a computation whose errors are overflows. *)
Ltac overflow_step :=
  lazymatch goal with
  | |- only_overflow (need (let_else _ _)) =>
      eapply overflow_need; [apply _|]; let a := fresh in let H := fresh in intros a H;
      repeat match goal with p : (_ * _)%type |- _ => destruct p end;
      rewrite ?zip_ok in H; cbn [fst snd] in H
  | |- only_overflow (_ ≫= _) => apply overflow_bind; [|intros ? _]
  | |- only_overflow (convert _ _ _) => apply overflow_convert
  | |- only_overflow (payback (engagement _ _ _ _) _) =>
      apply overflow_payback; intros ? ?; apply overflow_engagement
  | |- only_overflow (payback _ _) =>
      apply overflow_payback; intros ? ?; apply overflow_mapped; intros ?
  | |- only_overflow (collect _ _) => apply overflow_collect; intros ?
  | |- only_overflow (if _ then _ else _) => case_match
  | |- only_overflow (mul _ _) => apply overflow_ok_or
  | |- only_overflow (add _ _) => apply overflow_ok_or
  | |- only_overflow (to_minor _) => apply overflow_ok_or
  | |- only_overflow _ => solve [auto with tengu]
  end.

Lemma overflow_run_rate st c k s :
  (∀ fx, k_fx k = Ok fx → fx_native_ok fx) → only_overflow (run_rate st c k s).
Proof. intros Hfx. unfold run_rate. repeat overflow_step; apply Hfx; tauto. Qed.

Lemma overflow_one_off d c k w s :
  (∀ fx, k_fx k = Ok fx → fx_native_ok fx) → only_overflow (one_off d c k w s).
Proof. intros Hfx. unfold one_off. repeat overflow_step; apply Hfx; tauto. Qed.

Lemma overflow_scenario e k target s : k_fx k = fx_for e target → only_overflow (scenario e k s).
Proof.
  intros Hk.
  assert (Hfx : ∀ fx, k_fx k = Ok fx → fx_native_ok fx).
  { intros fx. rewrite Hk. apply fx_for_native. }
  unfold scenario, common_pick. apply overflow_bind; [repeat overflow_step|]. intros c _.
  destruct (e_revenue e); cbn zeta.
  2: { destruct s; [|by apply overflow_one_off|];
         do 2 (apply overflow_bind; [by apply overflow_one_off|intros ? _]); apply overflow_ok. }
  all: unfold stream_of; apply overflow_bind;
    [repeat overflow_step|intros; by apply overflow_run_rate].
Qed.

Lemma overflow_loss_go rs : ∀ i low high lacking, only_overflow (loss_go i rs low high lacking).
Proof.
  induction rs as [|r rs IH]; intros i low high lacking; simpl; [apply overflow_ok|].
  destruct (rk_probability r), (rk_impact r); try apply IH.
  repeat (apply overflow_bind; [apply overflow_ok_or|intros ? _]). apply IH.
Qed.

Lemma overflow_expected_loss r : only_overflow (expected_loss r).
Proof.
  unfold expected_loss. apply overflow_bind; [apply overflow_loss_go|]. intros [[]] _.
  destruct l; repeat overflow_step.
Qed.

Lemma overflow_scenarios hash o p :
  only_overflow (hash o p) → only_overflow (scenarios hash o p).
Proof.
  intros Hh. unfold scenarios.
  assert (Hk : ∀ s, only_overflow (scenario (op_economics o) (knobs_of o p) s))
    by (intros s; by eapply overflow_scenario).
  apply overflow_bind; [apply overflow_expected_loss|intros native _].
  apply overflow_bind; [|intros loss _].
  { destruct native; [|apply overflow_ok].
    repeat overflow_step; match goal with H : k_fx _ = _ |- _ => exact (fx_for_native _ _ _ H) end. }
  do 4 (apply overflow_bind; [done|intros ? _]). apply overflow_ok.
Qed.

Lemma overflow_to_currency e target v flow : only_overflow (to_currency e target v flow).
Proof.
  unfold to_currency. destruct (fx_for e target) eqn:E; [|apply overflow_ok].
  repeat overflow_step. by eapply fx_for_native.
Qed.

Lemma overflow_total_cash x : only_overflow (total_cash x).
Proof.
  unfold total_cash. generalize 0. induction (stages x) as [|s l IH]; intros acc; simpl;
    [apply overflow_ok|]. apply overflow_bind; [apply overflow_ok_or|intros ? _]. apply IH.
Qed.
