(* ===== verification/SoeGates.v ===== *)
(** * SOE hard gates ([src/src/domain/soe/gates.rs])

    An opportunity, the source records it cites, the signed profile and the
    decision time in; a verdict with every failed gate out. A gate is the list
    of failures it pushes; [Run] is their concatenation in the source's order,
    [settle] the dedup, the order and the verdict. *)

From Stdlib Require Import Ascii String.
From S2P Require Import Prelude.
From S2P Require Import Text.
From S2P Require Import Lineage.
From S2P Require Import SoeValue.
From S2P Require Import SoeRecord.
From S2P Require Import SoeEconomics.

#[local] Open Scope string_scope.
#[local] Open Scope list_scope.
#[local] Open Scope Z_scope.

Inductive GateCode : Type :=
  | MechanismHold | MechanismReject | CashExposureAboveCap | TrancheAboveMax
  | ContributionBelowTarget | BelowTargetWithPath | PaybackAboveMax | DeliveryTooLong
  | UnboundedOwnerTime | UnboundedSupport | UnboundedPaymentAccess | UnboundedScope
  | NoTestableEvidence | SingleDemandSignal | ContradictedEvidence | LegalUnresolved
  | DiligenceOpen | DealRedFlag | JurisdictionNotAllowed | NoStagedStopRule
  | DownsideUnstated | UnknownInput.

#[export] Instance GateCode_eq_dec : EqDecision GateCode.
Proof. solve_decision. Defined.

(** The derived [Ord]: declaration order. *)
Definition gate_index (c : GateCode) : Z :=
  match c with
  | MechanismHold => 0 | MechanismReject => 1 | CashExposureAboveCap => 2 | TrancheAboveMax => 3
  | ContributionBelowTarget => 4 | BelowTargetWithPath => 5 | PaybackAboveMax => 6
  | DeliveryTooLong => 7 | UnboundedOwnerTime => 8 | UnboundedSupport => 9
  | UnboundedPaymentAccess => 10 | UnboundedScope => 11 | NoTestableEvidence => 12
  | SingleDemandSignal => 13 | ContradictedEvidence => 14 | LegalUnresolved => 15
  | DiligenceOpen => 16 | DealRedFlag => 17 | JurisdictionNotAllowed => 18
  | NoStagedStopRule => 19 | DownsideUnstated => 20 | UnknownInput => 21
  end.

Definition gate_name (c : GateCode) : string :=
  match c with
  | MechanismHold => "MECHANISM_HOLD" | MechanismReject => "MECHANISM_REJECT"
  | CashExposureAboveCap => "CASH_EXPOSURE_ABOVE_CAP" | TrancheAboveMax => "TRANCHE_ABOVE_MAX"
  | ContributionBelowTarget => "CONTRIBUTION_BELOW_TARGET"
  | BelowTargetWithPath => "BELOW_TARGET_WITH_PATH" | PaybackAboveMax => "PAYBACK_ABOVE_MAX"
  | DeliveryTooLong => "DELIVERY_TOO_LONG" | UnboundedOwnerTime => "UNBOUNDED_OWNER_TIME"
  | UnboundedSupport => "UNBOUNDED_SUPPORT"
  | UnboundedPaymentAccess => "UNBOUNDED_PAYMENT_ACCESS" | UnboundedScope => "UNBOUNDED_SCOPE"
  | NoTestableEvidence => "NO_TESTABLE_EVIDENCE" | SingleDemandSignal => "SINGLE_DEMAND_SIGNAL"
  | ContradictedEvidence => "CONTRADICTED_EVIDENCE" | LegalUnresolved => "LEGAL_UNRESOLVED"
  | DiligenceOpen => "DILIGENCE_OPEN" | DealRedFlag => "DEAL_RED_FLAG"
  | JurisdictionNotAllowed => "JURISDICTION_NOT_ALLOWED"
  | NoStagedStopRule => "NO_STAGED_STOP_RULE" | DownsideUnstated => "DOWNSIDE_UNSTATED"
  | UnknownInput => "UNKNOWN_INPUT"
  end.

Record GateFailure : Type := mkFailure {
  gf_code : GateCode;
  gf_outcome : Verdict;
  gf_field : option string;
  gf_detail : string;
}.

Definition label (f : GateFailure) : string :=
  match gf_code f, gf_field f with
  | UnknownInput, Some x => gate_name (gf_code f) +:+ ":" +:+ x
  | _, _ => gate_name (gf_code f)
  end.

Record GateVerdict : Type := mkVerdict {
  gv_verdict : Verdict;
  gv_as_of : Time;
  gv_economics_version : Z;
  gv_inputs_sha256 : string;
  gv_failures : list GateFailure;
}.

(** [iter().filter(|x| seen.insert(key(x)))]: the first of each key. *)
Fixpoint first_of {A K} `{EqDecision K} (key : A → K) (seen : list K) (l : list A) : list A :=
  match l with
  | [] => []
  | x :: l =>
      if decide (key x ∈ seen) then first_of key seen l
      else x :: first_of key (key x :: seen) l
  end.

(** [GateVerdict::labels]. *)
Definition labels (v : GateVerdict) : list string :=
  first_of id [] (map label (gv_failures v)).

(** A [BTreeSet] collected from a list, as its items in order. *)
Definition btree (l : list string) : list string := btree_list (list_to_set l).

Definition next_information (v : GateVerdict) : list string :=
  btree (omap gf_field (filter (λ f, gf_outcome f = VHold) (gv_failures v))).

(** ** Cited records *)

Inductive CitedKind : Type := Fact | Demand | Trigger.
#[export] Instance CitedKind_eq_dec : EqDecision CitedKind.
Proof. solve_decision. Defined.

Record CitedRecord : Type := mkCited {
  cr_record_id : string;
  cr_event_key : string;
  cr_kind : CitedKind;
  cr_knowable_at : Time;
  cr_valid_until : option Time;
  cr_contradicted_at : option Time;
}.

Definition knowable (c : CitedRecord) (as_of : Time) : bool :=
  bool_decide (order (cr_knowable_at c) as_of = NotAfter).

Definition fresh (c : CitedRecord) (as_of : Time) : bool :=
  match cr_valid_until c with
  | None => true
  | Some until =>
      match latest as_of, earliest until with Some a, Some u => a <? u | _, _ => false end
  end.

Definition contradicted (c : CitedRecord) (as_of : Time) : bool :=
  match cr_contradicted_at c with
  | Some t => negb (bool_decide (order t as_of = After))
  | None => false
  end.

Definition supports (c : CitedRecord) (as_of : Time) : bool :=
  knowable c as_of && fresh c as_of && negb (contradicted c as_of)
  && negb (bool_decide (cr_kind c = Trigger)).

Definition cited_problems (cited : list CitedRecord) : Problems :=
  (Problems.unique (map cr_record_id cited)
   ++ List.concat (map (λ c, Problems.text (cr_record_id c) ++ Problems.text (cr_event_key c)) cited)).

(** The first view given per cited id, in [signals] order. *)
Definition cited_views (opp : Opportunity) (cited : list CitedRecord) : list CitedRecord :=
  omap (λ id, List.find (λ c, String.eqb (cr_record_id c) id) cited) (op_signals opp).

(** ** The verdict *)

Definition failure_key (f : GateFailure) : GateCode * option string := (gf_code f, gf_field f).

(** [Option<String>]'s [Ord]: [None] first. *)
Definition option_cmp {A} (c : A → A → comparison) (a b : option A) : comparison :=
  match a, b with
  | None, None => Eq
  | None, Some _ => Lt
  | Some _, None => Gt
  | Some x, Some y => c x y
  end.

(** [(outcome != Reject, code, field)]. *)
Definition failure_cmp (a b : GateFailure) : comparison :=
  let not_reject f := if decide (gf_outcome f = VReject) then 0 else 1 in
  cmp_then (Z.compare (not_reject a) (not_reject b))
    (cmp_then (Z.compare (gate_index (gf_code a)) (gate_index (gf_code b)))
       (option_cmp str_cmp (gf_field a) (gf_field b))).

Definition settle (out : list GateFailure) : list GateFailure * Verdict :=
  let out := first_of failure_key [] out in
  let out := sort_by failure_cmp out in
  (out, if existsb (λ f, bool_decide (gf_outcome f = VReject)) out then VReject
        else match out with [] => VPass | _ => VHold end).

Definition with_holds (v : GateVerdict) (holds : list GateFailure) : GateVerdict :=
  let failures := (gv_failures v
    ++ map (λ f, mkFailure (gf_code f) VHold (gf_field f) (gf_detail f)) holds) in
  let (failures, verdict) := settle failures in
  mkVerdict verdict (gv_as_of v) (gv_economics_version v) (gv_inputs_sha256 v) failures.

(** ** The gates *)

Notation Run := (list GateFailure).

Definition hold (code : GateCode) (field : string) (detail : string) : Run :=
  [mkFailure code VHold (Some field) detail].
Definition reject (code : GateCode) (field : string) (detail : string) : Run :=
  [mkFailure code VReject (Some field) detail].
Definition unknown (lacking : list string) (what : string) : Run :=
  map (λ f, mkFailure UnknownInput VHold (Some f) (what +:+ " needs it — unknown is never 0")) lacking.

Definition show_nat (n : nat) : string := show_N (Z.of_nat n).

(** [iter().enumerate()]. *)
Definition enumerate {A} (l : list A) : list (nat * A) := List.combine (seq 0 (length l)) l.

Section gates.
(** [inputs_sha256]'s hash and [Time]'s [Display] (serde_json, sha2,
  chrono). *)
Variable hash_inputs : Opportunity → OperatorProfile → R string.
Variable show_time : Time → string.

Definition mechanism (opp : Opportunity) : Run :=
match op_mechanism opp with
| MHold => hold MechanismHold "mechanism" "the mechanism itself is HOLD"
| MReject => reject MechanismReject "mechanism" "the mechanism itself is REJECT"
| _ => []
end.

Definition money (p : OperatorProfile) (m : Minor) : string := show_money (mkMoney m (p_currency p)).

Definition above (p : OperatorProfile) (field : string) (amount : Minor) : Run :=
let cap := p_max_cash_exposure p in
if cap <? amount
then reject CashExposureAboveCap field
       (money p amount +:+ " > max_cash_exposure " +:+ money p cap)
else [].

(** A native amount against the cap. *)
Definition native (opp : Opportunity) (p : OperatorProfile) (field : string) (amount : Minor) : R Run :=
v ← to_currency (op_economics opp) (p_currency p) amount Outflow;
Ok (match v with
    | Some v => above p field v
    | None => unknown [fields.FX] "cash exposure"
    end).

Definition tranche (opp : Opportunity) (p : OperatorProfile) (i : nat) (stage : Stage) : R Run :=
v ← to_currency (op_economics opp) (p_currency p) (st_cash stage) Outflow;
Ok (match v with
    | Some v =>
        if p_max_validation_tranche p <? v
        then reject TrancheAboveMax ("experiment.stages[" +:+ show_nat i +:+ "].cash")
               ("stage `" +:+ st_name stage +:+ "`: " +:+ money p v
                +:+ " > max_validation_tranche " +:+ money p (p_max_validation_tranche p))
        else []
    | None => unknown [fields.FX] "a stage's tranche"
    end).

(** The three parts of [exposure]: the initial capital, the experiment's
  stages, the largest stated loss. *)
Definition exposure_initial (sc : Scenarios) (p : OperatorProfile) : Run :=
match initial_capital (downside sc) with
| Known v => above p "economics.initial" v
| Lacks f => unknown f "cash exposure (initial capital)"
end.

Definition exposure_stages (opp : Opportunity) (p : OperatorProfile) : R Run :=
match op_experiment opp with
| Some x =>
    total ← total_cash x;
    a ← native opp p "experiment.stages" total;
    b ← collect (λ '(i, stage), tranche opp p i stage) (enumerate (stages x));
    Ok (a ++ List.concat b)
| None => Ok []
end.

Definition exposure_loss (opp : Opportunity) (p : OperatorProfile) : R Run :=
match est_end (ml_cash (max_loss (op_risk opp))) Adverse Lower with
| Some high => native opp p "risk.max_loss.cash" high
| None => Ok []
end.

Definition exposure (opp : Opportunity) (sc : Scenarios) (p : OperatorProfile) : R Run :=
a ← exposure_stages opp p;
b ← exposure_loss opp p;
Ok (exposure_initial sc p ++ a ++ b).

(** Not expired at [as_of]. *)
Definition live (x : ExperimentSpec) (as_of : Time) : bool :=
match latest as_of, window_end (expires_at x) with
| Some t, Some e => t <? e
| _, _ => false
end.

Definition staged (opp : Opportunity) (as_of : Time) : bool :=
match op_experiment opp with
| Some x =>
    live x as_of
    && match first_spend x with
       | Some (_, stage) => match st_stop_rule stage with Some _ => true | None => false end
       | None => true
       end
| None => false
end.

Definition post_tax (p : OperatorProfile) (what : string) : Run :=
if decide (p_profit_basis p = PostTax)
then hold UnknownInput "economics.tax_review"
       (what +:+ " passes pre-tax; the profile wants POST_TAX and v1 has no tax model")
else [].

Definition contribution_gate (opp : Opportunity) (sc : Scenarios) (p : OperatorProfile) (as_of : Time)
  : Run :=
let basis := p_contribution_basis p in
let target := p_min_monthly_contribution p in
let name := match basis with
            | TimeAdjusted => "time_adjusted_contribution"
            | Cash => "monthly_cash_contribution"
            end in
match contribution (sc_base sc) basis with
| Lacks f => unknown f ("base " +:+ name)
| Known base =>
    if base <? target then
      let up := known (contribution (upside sc) basis) in
      let reaches := match up with Some u => target <=? u | None => false end in
      let detail := "base " +:+ name +:+ " " +:+ money p base +:+ " < min_monthly_contribution "
                    +:+ money p target in
      if reaches && staged opp as_of then
        hold BelowTargetWithPath "experiment"
          (detail +:+ "; the upside " +:+ money p (default base up)
           +:+ " reaches it and a staged experiment tests it")
      else reject ContributionBelowTarget name detail
    else post_tax p ("base " +:+ name)
end.

Definition payback_gate (sc : Scenarios) (p : OperatorProfile) : Run :=
let max := p_max_payback_months p in
let rejected detail := reject PaybackAboveMax "payback" detail in
match sm_payback (sc_base sc) with
| Lacks f => unknown f "base payback"
| Known (Months n) =>
    if n <=? max then post_tax p "base payback"
    else rejected ("base payback " +:+ show_N n +:+ " months > max_payback_months " +:+ show_N max)
| Known NotReached =>
    rejected ("base payback not reached (max_payback_months " +:+ show_N max +:+ ")")
end.

Definition delivery (opp : Opportunity) (p : OperatorProfile) : Run :=
match e_revenue (op_economics opp) with
| OneOff _ _ delivery_weeks _ _ =>
    let max := p_max_one_off_delivery_weeks p in
    match est_base (value delivery_weeks) with
    | None => unknown [fields.DELIVERY_WEEKS] "the delivery length"
    | Some w =>
        if max <? w
        then hold DeliveryTooLong fields.DELIVERY_WEEKS
               ("base " +:+ show_N w +:+ " weeks > max_one_off_delivery_weeks " +:+ show_N max)
        else []
    end
| _ => []
end.

Definition bound_code (f : string) : GateCode :=
if String.eqb f "owner_time" then UnboundedOwnerTime
else if String.eqb f "support" then UnboundedSupport
else if String.eqb f "payment_access" then UnboundedPaymentAccess
else UnboundedScope.

Definition bound_item (x : string * Boundedness) : Run :=
let (f, b) := x in
let field := "risk.bounds." +:+ f in
match b with
| Bounded => []
| Unbounded => reject (bound_code f) field (f +:+ " is UNBOUNDED")
| BUnknown => hold (bound_code f) field (f +:+ " bound UNKNOWN")
end.

(** The owner-hours inputs and whether each is known. *)
Definition hours_inputs (e : EconomicInputs) : list (string * bool) :=
(fields.OWNER_HOURS, est_is_known (value (e_owner_hours_per_month e)))
:: match e_revenue e with
   | OneOff _ _ _ total _ => [(fields.OWNER_HOURS_TOTAL, est_is_known (value total))]
   | _ => []
   end.

Definition hours_item (x : string * bool) : Run :=
if x.2 then []
else hold UnboundedOwnerTime x.1 "owner hours UNKNOWN: owner time is not bounded".

Definition bounds_gate (opp : Opportunity) : Run :=
List.concat (map bound_item (bounds_each (bounds (op_risk opp))))
++ (if decide (b_owner_time (bounds (op_risk opp)) = Unbounded) then []
    else List.concat (map hours_item (hours_inputs (op_economics opp)))).

(** The records of the evidence gate: known at [as_of], contradicted among
  them, and those that support the candidate. *)
Definition seen_records (opp : Opportunity) (cited : list CitedRecord) (as_of : Time) : list CitedRecord :=
List.filter (λ c, knowable c as_of) (cited_views opp cited).
Definition contradicted_ids (opp : Opportunity) (cited : list CitedRecord) (as_of : Time) : list string :=
map cr_record_id (List.filter (λ c, contradicted c as_of) (seen_records opp cited as_of)).
Definition support_records (opp : Opportunity) (cited : list CitedRecord) (as_of : Time) : list CitedRecord :=
List.filter (λ c, supports c as_of) (seen_records opp cited as_of).
Definition of_kind (k : CitedKind) (l : list CitedRecord) : list CitedRecord :=
List.filter (λ c, bool_decide (cr_kind c = k)) l.

Definition tally (opp : Opportunity) (cited : list CitedRecord) (as_of : Time) : string :=
let seen := seen_records opp cited as_of in
show_nat (length (op_signals opp)) +:+ " cited: "
+:+ show_nat (length (op_signals opp) - length seen)
+:+ " not knowable at " +:+ show_time as_of +:+ ", "
+:+ show_nat (length (of_kind Trigger seen)) +:+ " trigger only, "
+:+ show_nat (length (List.filter (λ c, negb (fresh c as_of)) seen))
+:+ " expired, " +:+ show_nat (length (contradicted_ids opp cited as_of)) +:+ " contradicted".

Definition revenue_evidenced (opp : Opportunity) : bool :=
existsb (λ s, starts_with "economics.revenue." (is_field s) && is_evidenced_ s)
  (input_states (op_economics opp)).

Definition contradiction_gate (opp : Opportunity) (cited : list CitedRecord) (as_of : Time) : Run :=
match contradicted_ids opp cited as_of with
| [] => []
| ids => hold ContradictedEvidence "signals"
           ("contradicted at " +:+ show_time as_of +:+ ": " +:+ join ", " ids)
end.

Definition support_gate (opp : Opportunity) (cited : list CitedRecord) (as_of : Time) : Run :=
let support := support_records opp cited as_of in
let demand := btree (map cr_event_key (of_kind Demand support)) in
if (length (of_kind Fact support) =? 0)%nat then
  match demand with
  | [] => hold NoTestableEvidence "signals"
            ("no cited record supports it — " +:+ tally opp cited as_of)
  | [d] => hold SingleDemandSignal "signals"
             ("one demand event (" +:+ d +:+ ") is not demand — " +:+ tally opp cited as_of)
  | _ => []
  end
else [].

Definition evidence_gate (opp : Opportunity) (cited : list CitedRecord) (as_of : Time) : Run :=
contradiction_gate opp cited as_of ++ support_gate opp cited as_of
++ (if revenue_evidenced opp then []
    else hold NoTestableEvidence "economics.revenue" "no revenue input names its evidence").

Definition risk_item (x : nat * Risk) : Run :=
let (i, risk) := x in
if is_legal (rk_kind risk) && negb (bool_decide (rk_status risk = Resolved))
then hold LegalUnresolved ("risk.risks[" +:+ show_nat i +:+ "]")
       (risk_kind_name (rk_kind risk) +:+ " risk " +:+ risk_status_name (rk_status risk) +:+ ": "
        +:+ rk_control risk)
else [].

Definition block_code (f : string) : GateCode :=
if String.eqb f "ownership" || String.eqb f "legal" || String.eqb f "transition"
then LegalUnresolved else DiligenceOpen.

Definition block_item (x : string * DiligenceBlock) : Run :=
let (f, block) := x in
let field := "deal." +:+ f in
match db_status block with
| Verified => []
| RedFlag => reject DealRedFlag field (f +:+ ": RED_FLAG")
| status =>
    hold (block_code f) field (f +:+ ": " +:+ diligence_status_name status +:+ " — verify it")
end.

Definition deal_gate (deal : DealReview) : Run :=
match d_red_flags deal with
| [] => []
| flags => reject DealRedFlag "deal.red_flags" (join "; " flags)
end ++ List.concat (map block_item (blocks deal)).

Definition legal_gate (opp : Opportunity) : Run :=
List.concat (map risk_item (enumerate (risks (op_risk opp))))
++ match op_deal opp with None => [] | Some deal => deal_gate deal end.

Definition jurisdiction_item (p : OperatorProfile) (x : string * string) : Run :=
let (f, code) := x in
let field := "jurisdictions." +:+ f in
let code := trim code in
if negb (stated code) then unknown [field] "the jurisdiction gate"
else if negb (existsb (λ a, String.eqb a code) (p_jurisdictions_allow p))
     then hold JurisdictionNotAllowed field ("`" +:+ code +:+ "` is not in jurisdictions_allow")
     else [].

Definition jurisdictions_gate (opp : Opportunity) (p : OperatorProfile) : Run :=
List.concat (map (jurisdiction_item p) (jurisdictions_each (op_jurisdictions opp))).

Definition expiry_gate (x : ExperimentSpec) (as_of : Time) : Run :=
if live x as_of then []
else hold NoStagedStopRule "experiment.expires_at"
       ("the experiment expired at " +:+ show_time (expires_at x) +:+ " — by the decision "
        +:+ show_time as_of +:+ ": it stages nothing; a new one is needed").

Definition spend_gate (x : ExperimentSpec) : Run :=
match first_spend x with
| Some (i, stage) =>
    match st_stop_rule stage with
    | None =>
        reject NoStagedStopRule ("experiment.stages[" +:+ show_nat i +:+ "].stop_rule")
          ("stage `" +:+ st_name stage +:+ "` spends " +:+ Minor.show (st_cash stage)
           +:+ " with no stop rule")
    | Some _ => []
    end
| None => []
end.

Definition stop_rule_gate (opp : Opportunity) (as_of : Time) : Run :=
match op_experiment opp with
| None =>
    hold NoStagedStopRule "experiment"
      "no experiment: the first material spend has no staged stop rule"
| Some x => expiry_gate x as_of ++ spend_gate x
end.

Definition downside_item (term : string) : Run :=
hold DownsideUnstated ("risk.max_loss." +:+ term) ("the downside in " +:+ term +:+ " terms is UNKNOWN").

Definition downside_gate (opp : Opportunity) : Run :=
List.concat (map downside_item (unstated (max_loss (op_risk opp)))).

(** Every failure pushed, in order, before [settle]. *)
Definition run_gates (opp : Opportunity) (cited : list CitedRecord) (profile : OperatorProfile)
  (as_of : Time) (sc : Scenarios) : R Run :=
x ← exposure opp sc profile;
Ok (mechanism opp ++ x ++ contribution_gate opp sc profile as_of ++ payback_gate sc profile
    ++ delivery opp profile ++ bounds_gate opp ++ evidence_gate opp cited as_of
    ++ legal_gate opp ++ jurisdictions_gate opp profile ++ stop_rule_gate opp as_of
    ++ downside_gate opp).

Definition finish (out : Run) (as_of : Time) (sc : Scenarios) : GateVerdict :=
let (failures, verdict) := settle out in
mkVerdict verdict as_of (economics_version sc) (inputs_sha256 sc) failures.

Definition gates (opp : Opportunity) (cited : list CitedRecord) (profile : OperatorProfile)
  (as_of : Time) : R GateVerdict :=
if negb (is_signed profile) then Err OPERATOR_PROFILE_UNSIGNED
else if negb (is_known as_of) then Err INVALID_TIME
else if decide (order (op_as_of opp) as_of = After) then Err FUTURE_LEAKAGE
else
  sc ← scenarios hash_inputs opp profile;
  out ← run_gates opp cited profile as_of sc;
  Ok (finish out as_of sc).
End gates.
