(* ===== verification/SoeGatesFacts.v ===== *)
(** * Facts about the SOE gates

    What [settle] keeps, and what the raw failures of [run_gates] are: none
    exactly when every condition of the source's table holds, a rejection
    exactly on a known violation. *)

From Stdlib Require Import Ascii String.
From S2P Require Import Prelude.
From S2P Require Import Text.
From S2P Require Import Lineage.
From S2P Require Import SoeValue.
From S2P Require Import SoeRecord.
From S2P Require Import SoeEconomics.
From S2P Require Import SoeEconomicsFacts.
From S2P Require Import SoeGates.

#[local] Open Scope Z_scope.

(** ** First of each key *)
Section first_of.
Context {A K : Type} `{!EqDecision K} (key : A → K).

Lemma elem_of_first_of seen l x :
x ∈ first_of key seen l ↔
∃ l1 l2, l = l1 ++ x :: l2 ∧ key x ∉ seen ∧ key x ∉ map key l1.
Proof.
revert seen. induction l as [|y l IH]; intros seen; simpl.
{ rewrite elem_of_nil. split; [done|]. by intros ([|??] & ? & ? & _). }
split.
- intros H. assert (Hin : x = y ∧ key y ∉ seen ∨ key x ≠ key y ∧ x ∈ first_of key (key y :: seen) l
                         ∨ key y ∈ seen ∧ x ∈ first_of key seen l).
  { destruct (decide (key y ∈ seen)); [by right; right|].
    apply elem_of_cons in H as [->|H]; [by left|]. right; left. split; [|done].
    apply IH in H as (?&?&?&Hn&_). intros E. apply Hn. rewrite E. by left. }
  destruct Hin as [[-> ?]|[[Hne H']|[Hs H']]].
  + exists [], l. split; [done|]. split; [done|]. apply not_elem_of_nil.
  + apply IH in H' as (l1 & l2 & -> & Hn & Hm). exists (y :: l1), l2. split; [done|].
    rewrite elem_of_cons in Hn. simpl. rewrite elem_of_cons. tauto.
  + apply IH in H' as (l1 & l2 & -> & Hn & Hm). exists (y :: l1), l2. split; [done|].
    split; [done|]. simpl. rewrite elem_of_cons. intros [E|?]; [|done]. by rewrite E in Hn.
- intros ([|z l1] & l2 & E & Hn & Hm); simplify_eq/=.
  + rewrite decide_False by done. by left.
  + rewrite elem_of_cons in Hm. destruct (decide (key z ∈ seen)).
    * apply IH. exists l1, l2. tauto.
    * right. apply IH. exists l1, l2. rewrite elem_of_cons. tauto.
Qed.

Lemma first_of_incl seen l x : x ∈ first_of key seen l → x ∈ l.
Proof. intros (l1 & l2 & -> & _)%elem_of_first_of. set_solver. Qed.

(** Every key of the list is kept. *)
Lemma first_of_key seen l x :
x ∈ l → key x ∉ seen → ∃ y, y ∈ first_of key seen l ∧ key y = key x.
Proof.
revert seen. induction l as [|z l IH]; intros seen Hx Hs; [by apply elem_of_nil in Hx|].
simpl. destruct (decide (key z ∈ seen)) as [Hz|Hz].
- apply elem_of_cons in Hx as [->|Hx]; [done|by apply IH].
- destruct (decide (key x = key z)) as [E|E]; [exists z; split; [by left|done]|].
  apply elem_of_cons in Hx as [->|Hx]; [done|].
  destruct (IH (key z :: seen) Hx) as (y & ? & ?); [by rewrite elem_of_cons; intros [|]|].
  exists y. split; [by right|done].
Qed.

Lemma first_of_nodup seen l : NoDup (map key (first_of key seen l)).
Proof.
revert seen. induction l as [|x l IH]; intros seen; simpl; [constructor|].
destruct (decide _); [done|]. simpl. constructor; [|done].
intros (y & Hy & H)%list_elem_of_fmap. apply elem_of_first_of in H as (?&?&_&H&_).
apply H. rewrite <-Hy. by left.
Qed.

Lemma first_of_app l k : first_of key [] l ⊆ first_of key [] (l ++ k).
Proof.
intros x (l1 & l2 & -> & ?)%elem_of_first_of. apply elem_of_first_of.
exists l1, (l2 ++ k). by rewrite <-app_assoc.
Qed.
End first_of.

(** ** The order of failures and the verdict *)

#[export] Instance option_cmp_pre {A} (c : A → A → comparison) `{!PreCmp c} : PreCmp (option_cmp c).
Proof.
  split.
  - intros [x|] [y|]; simpl; try done. apply cmp_flip.
  - intros [x|] [y|] [z|]; simpl; try done. apply cmp_trans.
Qed.

#[export] Instance failure_cmp_pre : PreCmp failure_cmp.
Proof.
  unfold failure_cmp.
  apply (cmp_then_pre (cmp_on _ Z.compare) (λ a b, cmp_then _ _)); [apply _|].
  apply (cmp_then_pre (cmp_on (λ f, gate_index (gf_code f)) Z.compare)
           (cmp_on gf_field (option_cmp str_cmp))); apply _.
Qed.

Lemma elem_of_settle out f : f ∈ (settle out).1 ↔ f ∈ first_of failure_key [] out.
Proof. unfold settle. simpl. by rewrite sort_by_perm. Qed.

Lemma settle_nil out : (settle out).1 = [] ↔ out = [].
Proof.
  split; [|by intros ->]. intros H. destruct out as [|f out]; [done|].
  assert (Hf : f ∈ (settle (f :: out)).1).
  { apply elem_of_settle, elem_of_first_of. exists [], out.
    split; [done|]. split; apply not_elem_of_nil. }
  rewrite H in Hf. by apply elem_of_nil in Hf.
Qed.

Lemma settle_verdict out :
  (settle out).2 =
    if existsb (λ f, bool_decide (gf_outcome f = VReject)) (settle out).1 then VReject
    else match (settle out).1 with [] => VPass | _ => VHold end.
Proof. done. Qed.

Lemma settle_pass out : (settle out).2 = VPass ↔ out = [].
Proof.
  rewrite settle_verdict. split.
  - intros H. apply settle_nil. destruct (existsb _ _); [done|].
    by destruct (settle out).1.
  - intros ->. done.
Qed.

Lemma settle_reject_kept out :
  (settle out).2 = VReject ↔ ∃ f, f ∈ (settle out).1 ∧ gf_outcome f = VReject.
Proof.
  rewrite settle_verdict.
  assert (He : existsb (λ f, bool_decide (gf_outcome f = VReject)) (settle out).1 = true
               ↔ ∃ f, f ∈ (settle out).1 ∧ gf_outcome f = VReject).
  { rewrite existsb_exists. split; intros (f & Hf & H); exists f; split.
    - by apply list_elem_of_In.
    - by apply bool_decide_eq_true in H.
    - by apply list_elem_of_In.
    - by apply bool_decide_eq_true. }
  rewrite <-He. destruct (existsb _ _); [done|]. by destruct (settle out).1.
Qed.

(** The outcome depends on the key alone. *)
Definition consistent (out : Run) : Prop :=
  ∀ f g, f ∈ out → g ∈ out → failure_key f = failure_key g → gf_outcome f = gf_outcome g.

Lemma settle_reject out :
  consistent out → (settle out).2 = VReject ↔ ∃ f, f ∈ out ∧ gf_outcome f = VReject.
Proof.
  intros Hc. rewrite settle_reject_kept. setoid_rewrite elem_of_settle. split.
  - intros (f & Hf & H). exists f. split; [by eapply first_of_incl|done].
  - intros (f & Hf & H). destruct (first_of_key failure_key [] out f Hf) as (g & Hg & E).
    { apply not_elem_of_nil. }
    exists g. split; [done|]. rewrite <-H. apply Hc; [by eapply first_of_incl|done|done].
Qed.

(** The settled failures: sorted, one per key. *)
Lemma settle_sorted out : sorted_by failure_cmp (settle out).1.
Proof. apply sort_by_sorted, _. Qed.

Lemma settle_nodup out : NoDup (map failure_key (settle out).1).
Proof.
  unfold settle. simpl.
  assert (P : map failure_key (sort_by failure_cmp (first_of failure_key [] out))
              ≡ₚ map failure_key (first_of failure_key [] out)).
  { apply (fmap_Permutation failure_key), sort_by_perm. }
  rewrite P. apply first_of_nodup.
Qed.

Lemma first_of_id {A K} `{EqDecision K} (key : A → K) seen l :
  NoDup (map key l) → (∀ x, x ∈ l → key x ∉ seen) → first_of key seen l = l.
Proof.
  revert seen. induction l as [|x l IH]; intros seen; simpl; [done|].
  intros [Hx Hn]%NoDup_cons Hs. rewrite decide_False by (apply Hs; by left). f_equal.
  apply IH; [done|]. intros y Hy [E|?]%elem_of_cons.
  - apply Hx. rewrite <-E. by apply list_elem_of_fmap_2.
  - eapply (Hs y); [by right|done].
Qed.

(** ** Lists of failures *)

Definition rejects (r : Run) : Prop := ∃ f, f ∈ r ∧ gf_outcome f = VReject.

Lemma rejects_nil : rejects [] ↔ False.
Proof. split; [|done]. intros (f & Hf & _). by apply elem_of_nil in Hf. Qed.

Lemma rejects_hold c x d : rejects (hold c x d) ↔ False.
Proof. split; [|done]. by intros (f & ->%list_elem_of_singleton & ?). Qed.

Lemma rejects_reject c x d : rejects (reject c x d) ↔ True.
Proof. split; [done|]. intros _. eexists. split; [by apply list_elem_of_singleton|done]. Qed.

Lemma rejects_unknown l w : rejects (unknown l w) ↔ False.
Proof. split; [|done]. by intros (f & (x & -> & _)%list_elem_of_fmap & ?). Qed.

Lemma rejects_app a b : rejects (a ++ b) ↔ rejects a ∨ rejects b.
Proof.
  unfold rejects. setoid_rewrite elem_of_app. split.
  - intros (f & [?|?] & ?); eauto.
  - intros [(f & ? & ?)|(f & ? & ?)]; eauto.
Qed.

Lemma rejects_concat {A} (g : A → Run) l :
  rejects (List.concat (map g l)) ↔ Exists (λ x, rejects (g x)) l.
Proof.
  induction l as [|x l IH]; simpl.
  - rewrite rejects_nil, Exists_nil. done.
  - by rewrite rejects_app, Exists_cons, IH.
Qed.

Lemma concat_nil_iff {A B} (g : A → list B) l :
  List.concat (map g l) = [] ↔ Forall (λ x, g x = []) l.
Proof.
  split; [apply concat_nil|]. induction 1 as [|x l Hx Hl IH]; simpl; [done|]. by rewrite Hx, IH.
Qed.

Lemma app_nil_iff {A} (a b : list A) : a ++ b = [] ↔ a = [] ∧ b = [].
Proof. split; [apply app_eq_nil|by intros [-> ->]]. Qed.

Lemma Forall_concat {A} (P : GateFailure → Prop) (g : A → Run) l :
  Forall P (List.concat (map g l)) ↔ Forall (λ x, Forall P (g x)) l.
Proof.
  induction l as [|x l IH]; simpl; [by split; constructor|].
  by rewrite Forall_app, Forall_cons, IH.
Qed.

Lemma enumerate_elem {A} (l : list A) i x : (i, x) ∈ enumerate l ↔ l !! i = Some x.
Proof.
  assert (H : ∀ k i, (i, x) ∈ List.combine (seq k (length l)) l
                     ↔ ∃ j, i = (k + j)%nat ∧ l !! j = Some x).
  { clear i. induction l as [|y l IH]; intros k i; simpl.
    - rewrite elem_of_nil. split; [done|]. by intros (j & _ & ?).
    - rewrite elem_of_cons, IH. split.
      + intros [[= -> ->]|(j & -> & Hj)]; [exists 0%nat|exists (S j)]; split; simpl; try done; lia.
      + intros ([|j] & -> & Hj); simpl in Hj.
        * injection Hj as ->. left. f_equal. lia.
        * right. exists j. split; [lia|done]. }
  unfold enumerate. rewrite H. split; [by intros (j & -> & ?)|]. intros. by exists i.
Qed.

(** ** The table of the gates, declaratively *)

(** A native amount reaches the profile's currency and is at most [cap]. *)
Definition within (opp : Opportunity) (p : OperatorProfile) (amount cap : Minor) : Prop :=
  ∃ v, to_currency (op_economics opp) (p_currency p) amount Outflow = Ok (Some v) ∧ v ≤ cap.

(** A native amount is known to exceed [cap]. *)
Definition exceeds (opp : Opportunity) (p : OperatorProfile) (amount cap : Minor) : Prop :=
  ∃ v, to_currency (op_economics opp) (p_currency p) amount Outflow = Ok (Some v) ∧ cap < v.

(** The first stage with cash carries a stop rule. *)
Definition first_spend_stops (x : ExperimentSpec) : Prop :=
  ∀ i stage, first_spend x = Some (i, stage) → is_Some (st_stop_rule stage).

Definition fact_at (as_of : Time) (c : CitedRecord) : Prop :=
  supports c as_of = true ∧ cr_kind c = Fact.
Definition demand_at (as_of : Time) (c : CitedRecord) : Prop :=
  supports c as_of = true ∧ cr_kind c = Demand.

(** A fact, or two different demand events. *)
Definition supported (opp : Opportunity) (cited : list CitedRecord) (as_of : Time) : Prop :=
  (∃ c, c ∈ cited_views opp cited ∧ fact_at as_of c)
  ∨ ∃ c d, c ∈ cited_views opp cited ∧ d ∈ cited_views opp cited
           ∧ demand_at as_of c ∧ demand_at as_of d ∧ cr_event_key c ≠ cr_event_key d.

(** Nothing of the table fails. *)
Record clear (opp : Opportunity) (cited : list CitedRecord) (p : OperatorProfile) (as_of : Time)
    (sc : Scenarios) : Prop := {
  cl_mechanism : op_mechanism opp ≠ MHold ∧ op_mechanism opp ≠ MReject;
  cl_initial : ∃ v, initial_capital (downside sc) = Known v ∧ v ≤ p_max_cash_exposure p;
  cl_stages : ∀ x, op_experiment opp = Some x →
    ∃ total, total_cash x = Ok total ∧ within opp p total (p_max_cash_exposure p)
             ∧ Forall (λ s, within opp p (st_cash s) (p_max_validation_tranche p)) (stages x);
  cl_loss : ∀ l b h, ml_cash (max_loss (op_risk opp)) = Range l b h →
    within opp p h (p_max_cash_exposure p);
  cl_contribution : ∃ v, contribution (sc_base sc) (p_contribution_basis p) = Known v
                         ∧ p_min_monthly_contribution p ≤ v;
  cl_payback : ∃ n, sm_payback (sc_base sc) = Known (Months n) ∧ n ≤ p_max_payback_months p;
  cl_pre_tax : p_profit_basis p ≠ PostTax;
  cl_delivery : ∀ a b weeks c d, e_revenue (op_economics opp) = OneOff a b weeks c d →
    ∃ w, est_base (value weeks) = Some w ∧ w ≤ p_max_one_off_delivery_weeks p;
  cl_bounds : Forall (λ x, x.2 = Bounded) (bounds_each (bounds (op_risk opp)));
  cl_hours : est_is_known (value (e_owner_hours_per_month (op_economics opp))) = true
    ∧ ∀ a b c total d, e_revenue (op_economics opp) = OneOff a b c total d →
      est_is_known (value total) = true;
  cl_support : supported opp cited as_of;
  cl_uncontradicted : Forall (λ c, contradicted c as_of = false) (seen_records opp cited as_of);
  cl_revenue_evidence : Exists (λ s, starts_with "economics.revenue." (is_field s) = true
                                     ∧ is_evidenced_ s = true) (input_states (op_economics opp));
  cl_legal : Forall (λ r, is_legal (rk_kind r) = true → rk_status r = Resolved) (risks (op_risk opp));
  cl_deal : ∀ d, op_deal opp = Some d →
    d_red_flags d = [] ∧ Forall (λ b, db_status b.2 = Verified) (blocks d);
  cl_jurisdictions : Forall (λ j, stated (trim j.2) = true ∧ trim j.2 ∈ p_jurisdictions_allow p)
    (jurisdictions_each (op_jurisdictions opp));
  cl_experiment : ∃ x, op_experiment opp = Some x ∧ live x as_of = true ∧ first_spend_stops x;
  cl_downside : unstated (max_loss (op_risk opp)) = [];
}.

(** A known violation. *)
Inductive violation (opp : Opportunity) (p : OperatorProfile) (as_of : Time) (sc : Scenarios) : Prop :=
  | V_mechanism : op_mechanism opp = MReject → violation opp p as_of sc
  | V_initial v : initial_capital (downside sc) = Known v → p_max_cash_exposure p < v →
      violation opp p as_of sc
  | V_stages x total : op_experiment opp = Some x → total_cash x = Ok total →
      exceeds opp p total (p_max_cash_exposure p) → violation opp p as_of sc
  | V_tranche x s : op_experiment opp = Some x → s ∈ stages x →
      exceeds opp p (st_cash s) (p_max_validation_tranche p) → violation opp p as_of sc
  | V_loss l b h : ml_cash (max_loss (op_risk opp)) = Range l b h →
      exceeds opp p h (p_max_cash_exposure p) → violation opp p as_of sc
  | V_contribution v : contribution (sc_base sc) (p_contribution_basis p) = Known v →
      v < p_min_monthly_contribution p →
      ¬ (staged opp as_of = true
         ∧ ∃ u, contribution (upside sc) (p_contribution_basis p) = Known u
                ∧ p_min_monthly_contribution p ≤ u) →
      violation opp p as_of sc
  | V_not_reached : sm_payback (sc_base sc) = Known NotReached → violation opp p as_of sc
  | V_payback n : sm_payback (sc_base sc) = Known (Months n) → p_max_payback_months p < n →
      violation opp p as_of sc
  | V_bound f : (f, Unbounded) ∈ bounds_each (bounds (op_risk opp)) → violation opp p as_of sc
  | V_red_flags d : op_deal opp = Some d → d_red_flags d ≠ [] → violation opp p as_of sc
  | V_red_block d f b : op_deal opp = Some d → (f, b) ∈ blocks d → db_status b = RedFlag →
      violation opp p as_of sc
  | V_stop_rule x i s : op_experiment opp = Some x → first_spend x = Some (i, s) →
      st_stop_rule s = None → violation opp p as_of sc.

(** ** Gate by gate: when it pushes nothing, when it rejects *)

(** Normalises [rejects] of a gate. *)
Ltac rejects_simpl :=
  rewrite ?rejects_app, ?rejects_nil, ?rejects_hold, ?rejects_reject, ?rejects_unknown.

Lemma above_nil p f v : above p f v = [] ↔ v ≤ p_max_cash_exposure p.
Proof. unfold above, reject. destruct (Z.ltb_spec (p_max_cash_exposure p) v); split; (done || lia). Qed.

Lemma above_rejects p f v : rejects (above p f v) ↔ p_max_cash_exposure p < v.
Proof.
  unfold above. destruct (Z.ltb_spec (p_max_cash_exposure p) v); rejects_simpl; split; (done || lia).
Qed.

Lemma native_facts opp p f v r :
  native opp p f v = Ok r →
  (r = [] ↔ within opp p v (p_max_cash_exposure p))
  ∧ (rejects r ↔ exceeds opp p v (p_max_cash_exposure p)).
Proof.
  unfold native, within, exceeds. intros H. apply bind_ok in H as ([w|] & Hw & H);
    apply ok_inj in H as <-; rewrite Hw.
  - rewrite above_nil, above_rejects. split; split; eauto; by intros (? & [= <-] & ?).
  - rejects_simpl. split; split; try done; by intros (? & ? & ?).
Qed.

Lemma tranche_facts opp p i s r :
  tranche opp p i s = Ok r →
  (r = [] ↔ within opp p (st_cash s) (p_max_validation_tranche p))
  ∧ (rejects r ↔ exceeds opp p (st_cash s) (p_max_validation_tranche p)).
Proof.
  unfold tranche, within, exceeds. intros H. apply bind_ok in H as ([w|] & Hw & H);
    apply ok_inj in H as <-; rewrite Hw.
  - destruct (Z.ltb_spec (p_max_validation_tranche p) w); rejects_simpl; split; split;
      try done; eauto; intros (? & [= <-] & ?); lia.
  - rejects_simpl. split; split; try done; by intros (? & ? & ?).
Qed.

(** Gate results collected over the stages, read back per stage. *)
Lemma collect_stages {A} (P : A → Prop) (Q : Run → Prop) (g : nat * A → R Run) (l : list (nat * A)) rs :
  collect g l = Ok rs → (∀ x r, g x = Ok r → Q r ↔ P x.2) →
  (Forall Q rs ↔ Forall P (map snd l)) ∧ (Exists Q rs ↔ Exists P (map snd l)).
Proof.
  rewrite collect_ok. intros H Hg. induction H as [|x r l rs Hx H IH]; simpl.
  { split; split; try constructor; intros E; by inversion E. }
  rewrite !Forall_cons, !Exists_cons, (Hg _ _ Hx). destruct IH as [-> ->]. done.
Qed.

Lemma map_snd_enumerate {A} (l : list A) : map snd (enumerate l) = l.
Proof.
  unfold enumerate. generalize 0%nat. induction l as [|x l IH]; intros k; simpl; [done|].
  f_equal. apply IH.
Qed.

Lemma tranches_facts opp p x b :
  collect (λ '(i, stage), tranche opp p i stage) (enumerate (stages x)) = Ok b →
  (List.concat b = [] ↔ Forall (λ s, within opp p (st_cash s) (p_max_validation_tranche p)) (stages x))
  ∧ (rejects (List.concat b)
     ↔ Exists (λ s, exceeds opp p (st_cash s) (p_max_validation_tranche p)) (stages x)).
Proof.
  intros H. pose proof (concat_nil_iff id b) as Hn. pose proof (rejects_concat id b) as Hr.
  rewrite map_id in Hn, Hr. rewrite Hn, Hr, <-(map_snd_enumerate (stages x)).
  split; eapply collect_stages; try exact H; intros [i s] r Hs; 
    apply tranche_facts in Hs as [??]; done.
Qed.

Lemma est_end_high (e : Est Z) h :
  est_end e Adverse Lower = Some h ↔ ∃ l b, e = Range l b h.
Proof.
  destruct e as [|l b h']; simpl; split; try done.
  - by intros (? & ? & ?).
  - intros [= ->]. eauto.
  - by intros (? & ? & [= -> -> ->]).
Qed.

(** Unknown figures name at least one field. *)
Definition named {T} (m : Metric T) : Prop := m ≠ Lacks [].

Lemma unknown_nil l w : unknown l w = [] ↔ l = [].
Proof. by destruct l. Qed.

Lemma exposure_initial_facts sc p :
  named (initial_capital (downside sc)) →
  (exposure_initial sc p = []
   ↔ ∃ v, initial_capital (downside sc) = Known v ∧ v ≤ p_max_cash_exposure p)
  ∧ (rejects (exposure_initial sc p)
     ↔ ∃ v, initial_capital (downside sc) = Known v ∧ p_max_cash_exposure p < v).
Proof.
  unfold named, exposure_initial. destruct (initial_capital (downside sc)) as [v|f]; intros Hn.
  - rewrite above_nil, above_rejects. split; split; eauto; by intros (? & [= <-] & ?).
  - rewrite unknown_nil. rejects_simpl. split; split; try done; try by intros (? & ? & _).
    intros ->. done.
Qed.

Lemma exposure_stages_facts opp p r :
  exposure_stages opp p = Ok r →
  (r = [] ↔ ∀ x, op_experiment opp = Some x →
     ∃ total, total_cash x = Ok total ∧ within opp p total (p_max_cash_exposure p)
              ∧ Forall (λ s, within opp p (st_cash s) (p_max_validation_tranche p)) (stages x))
  ∧ (rejects r ↔ ∃ x, op_experiment opp = Some x ∧
       ((∃ total, total_cash x = Ok total ∧ exceeds opp p total (p_max_cash_exposure p))
        ∨ Exists (λ s, exceeds opp p (st_cash s) (p_max_validation_tranche p)) (stages x))).
Proof.
  unfold exposure_stages. destruct (op_experiment opp) as [x|].
  2: { intros [= <-]. rejects_simpl. split; split; try done. by intros (? & ? & _). }
  intros Hst. apply bind_ok in Hst as (t & Ht & Hst). apply bind_ok in Hst as (a & Ha & Hst).
  apply bind_ok in Hst as (b & Hb & [= <-]). apply native_facts in Ha as [Ha Ha'].
  apply tranches_facts in Hb as [Hb Hb'].
  rewrite app_nil_iff, Ha, Hb, rejects_app, Ha', Hb'. split; split.
  - intros [? ?] ? [= <-]. eauto.
  - intros Hx. destruct (Hx x eq_refl) as (t' & Ht' & ? & ?).
    by assert (t' = t) as -> by congruence.
  - intros [?|?]; exists x; split; try done; [left; eauto|by right].
  - intros (? & [= <-] & [(t' & Ht' & ?)|?]); [left|by right].
    by assert (t' = t) as -> by congruence.
Qed.

Lemma exposure_loss_facts opp p r :
  exposure_loss opp p = Ok r →
  (r = [] ↔ ∀ l b h, ml_cash (max_loss (op_risk opp)) = Range l b h →
     within opp p h (p_max_cash_exposure p))
  ∧ (rejects r ↔ ∃ l b h, ml_cash (max_loss (op_risk opp)) = Range l b h
                          ∧ exceeds opp p h (p_max_cash_exposure p)).
Proof.
  unfold exposure_loss. destruct (ml_cash (max_loss (op_risk opp))) as [u|l b h]; cbn [est_end].
  - intros [= <-]. rejects_simpl. split; split; try done. by intros (? & ? & ? & ? & _).
  - intros [-> ->]%native_facts. split; split.
    + by intros ? ? ? ? [= <- <- <-].
    + intros Hl. by eapply Hl.
    + by exists l, b, h.
    + by intros (? & ? & ? & [= <- <- <-] & ?).
Qed.

Lemma contribution_facts opp sc p as_of :
  named (contribution (sc_base sc) (p_contribution_basis p)) →
  (contribution_gate opp sc p as_of = []
   ↔ (∃ v, contribution (sc_base sc) (p_contribution_basis p) = Known v
           ∧ p_min_monthly_contribution p ≤ v) ∧ p_profit_basis p ≠ PostTax)
  ∧ (rejects (contribution_gate opp sc p as_of)
     ↔ ∃ v, contribution (sc_base sc) (p_contribution_basis p) = Known v
            ∧ v < p_min_monthly_contribution p
            ∧ ¬ (staged opp as_of = true
                 ∧ ∃ u, contribution (upside sc) (p_contribution_basis p) = Known u
                        ∧ p_min_monthly_contribution p ≤ u)).
Proof.
  unfold named, contribution_gate. intros Hn.
  destruct (contribution (sc_base sc) (p_contribution_basis p)) as [v|f].
  2: { rewrite unknown_nil. rejects_simpl. split; split; try done; try by intros (? & ? & _).
       - by intros ->. - by intros [(? & ? & _) _]. }
  destruct (Z.ltb_spec v (p_min_monthly_contribution p)).
  - set (reaches := match known _ with Some _ => _ | None => _ end).
    assert (Hr : reaches = true ↔ ∃ u, contribution (upside sc) (p_contribution_basis p) = Known u
                                       ∧ p_min_monthly_contribution p ≤ u).
    { unfold reaches. destruct (contribution (upside sc) (p_contribution_basis p)); simpl.
      - rewrite Z.leb_le. split; [eauto|]. by intros (? & [= <-] & ?).
      - split; [done|]. by intros (? & ? & _). }
    setoid_rewrite <-Hr. destruct reaches, (staged opp as_of); simpl; rejects_simpl; split; split;
      try done; try (intros [(? & [= <-] & ?) _]; lia); try (by exists v);
      try (by intros (? & [= <-] & _ & ?); tauto); intros _; exists v; split_and!; auto; by intros [??].
  - unfold post_tax. destruct (decide _); rejects_simpl; split; split; try done;
      try (by intros [_ ?]); try (intros (? & [= <-] & ? & _); lia). intros _. split; [eauto|done].
Qed.

Lemma payback_facts sc p :
  named (sm_payback (sc_base sc)) →
  (payback_gate sc p = []
   ↔ (∃ n, sm_payback (sc_base sc) = Known (Months n) ∧ n ≤ p_max_payback_months p)
     ∧ p_profit_basis p ≠ PostTax)
  ∧ (rejects (payback_gate sc p)
     ↔ sm_payback (sc_base sc) = Known NotReached
       ∨ ∃ n, sm_payback (sc_base sc) = Known (Months n) ∧ p_max_payback_months p < n).
Proof.
  unfold named, payback_gate. intros Hn. destruct (sm_payback (sc_base sc)) as [[n|]|f].
  - unfold post_tax. destruct (Z.leb_spec n (p_max_payback_months p)); [destruct (decide _)|];
      rejects_simpl; split; split; try done; try (by intros [_ ?]);
      try (intros [?|(? & [= <-] & ?)]; (done || lia)); try (intros [(? & [= <-] & ?) _]; lia).
    + intros _. split; [eauto|done].
    + intros _. right. eauto.
  - rejects_simpl. split; split; try done; [by intros [(? & ? & _) _]|by left].
  - rewrite unknown_nil. rejects_simpl. split; split; try done.
    + by intros ->. + by intros [(? & ? & _) _]. + by intros [?|(? & ? & _)].
Qed.

Lemma mechanism_facts opp :
  (mechanism opp = [] ↔ op_mechanism opp ≠ MHold ∧ op_mechanism opp ≠ MReject)
  ∧ (rejects (mechanism opp) ↔ op_mechanism opp = MReject).
Proof.
  unfold mechanism. destruct (op_mechanism opp); rejects_simpl; split; split; try done; tauto.
Qed.

Lemma delivery_facts opp p :
  (delivery opp p = []
   ↔ ∀ a b weeks c d, e_revenue (op_economics opp) = OneOff a b weeks c d →
       ∃ w, est_base (value weeks) = Some w ∧ w ≤ p_max_one_off_delivery_weeks p)
  ∧ (rejects (delivery opp p) ↔ False).
Proof.
  unfold delivery. destruct (e_revenue (op_economics opp)) as [|a b weeks c d| |]; rejects_simpl;
    try by split.
  destruct (est_base (value weeks)) as [w|] eqn:E.
  - destruct (Z.ltb_spec (p_max_one_off_delivery_weeks p) w); rejects_simpl; split; split; try done.
    + intros H'. destruct (H' _ _ _ _ _ eq_refl) as (w' & Hw & ?).
      assert (w' = w) by congruence. lia.
    + intros _ ? ? ? ? ? [= <- <- <- <- <-]. eauto.
  - rejects_simpl. split; split; try done.
    intros H'. destruct (H' _ _ _ _ _ eq_refl) as (w' & Hw & ?). congruence.
Qed.

Lemma Forall_iff {A} (P Q : A → Prop) l : (∀ x, P x ↔ Q x) → Forall P l ↔ Forall Q l.
Proof. intros H. split; intros HF; (eapply Forall_impl; [exact HF|]); intros; by apply H. Qed.

Lemma Exists_iff {A} (P Q : A → Prop) l : (∀ x, P x ↔ Q x) → Exists P l ↔ Exists Q l.
Proof. intros H. split; intros (x & ? & ?)%Exists_exists; apply Exists_exists; exists x; split; auto; by apply H. Qed.

Lemma Exists_false {A} (P : A → Prop) l : (∀ x, ¬ P x) → Exists P l ↔ False.
Proof. intros H. split; [|done]. intros (x & _ & Hx)%Exists_exists. by apply (H x). Qed.

Lemma bounds_facts opp :
  (bounds_gate opp = []
   ↔ Forall (λ x, x.2 = Bounded) (bounds_each (bounds (op_risk opp)))
     ∧ Forall (λ x, x.2 = true) (hours_inputs (op_economics opp)))
  ∧ (rejects (bounds_gate opp) ↔ ∃ f, (f, Unbounded) ∈ bounds_each (bounds (op_risk opp))).
Proof.
  unfold bounds_gate. rewrite app_nil_iff, rejects_app, rejects_concat, concat_nil_iff.
  rewrite (Forall_iff _ (λ x, x.2 = Bounded)) by (intros [f []]; done).
  rewrite (Exists_iff _ (λ x, x.2 = Unbounded))
    by (intros [f []]; simpl; rejects_simpl; done).
  assert (Hh : rejects (List.concat (map hours_item (hours_inputs (op_economics opp)))) ↔ False).
  { rewrite rejects_concat. apply Exists_false. intros [f []]; unfold hours_item; simpl;
      rejects_simpl; tauto. }
  split.
  - destruct (decide _) as [E|E].
    + split; [intros [H _]|intros [H _]]; exfalso; unfold bounds_each in H;
        apply Forall_cons in H as [H _]; simpl in H; congruence.
    + rewrite concat_nil_iff, (Forall_iff _ (λ x, x.2 = true)); [done|]. by intros [f []].
  - rewrite Exists_exists. destruct (decide _); rewrite ?Hh, ?rejects_nil.
    all: split; [intros [([f b] & ? & E)|[]]; simpl in E; subst; eauto|intros (f & ?); left; by exists (f, Unbounded)].
Qed.

Lemma legal_facts opp :
  (legal_gate opp = []
   ↔ Forall (λ r, is_legal (rk_kind r) = true → rk_status r = Resolved) (risks (op_risk opp))
     ∧ ∀ d, op_deal opp = Some d →
         d_red_flags d = [] ∧ Forall (λ b, db_status b.2 = Verified) (blocks d))
  ∧ (rejects (legal_gate opp)
     ↔ ∃ d, op_deal opp = Some d ∧ (d_red_flags d ≠ [] ∨ ∃ f b, (f, b) ∈ blocks d ∧ db_status b = RedFlag)).
Proof.
  unfold legal_gate. rewrite app_nil_iff, rejects_app, rejects_concat, concat_nil_iff.
  rewrite (Exists_false (λ x, rejects (risk_item x)))
    by (intros [i r]; unfold risk_item; destruct (_ && _); rejects_simpl; tauto).
  rewrite (Forall_iff (λ x, risk_item x = [])
             (λ x, is_legal (rk_kind x.2) = true → rk_status x.2 = Resolved)).
  2: { intros [i r]. simpl. destruct (is_legal (rk_kind r)); simpl; [|done].
       destruct (bool_decide_reflect (rk_status r = Resolved)); simpl; split; auto; try done.
       by intros H%(λ H, H eq_refl). }
  assert (E : ∀ (P : Risk → Prop) l, Forall (λ x, P x.2) (enumerate l) ↔ Forall P l).
  { intros P l. rewrite <-(map_snd_enumerate l) at 2. by rewrite Forall_fmap. }
  rewrite (E (λ r, is_legal (rk_kind r) = true → rk_status r = Resolved)).
  destruct (op_deal opp) as [d|].
  2: { rejects_simpl. split; split; [by intros [? _]|by intros [? _]|tauto|by intros (? & ? & _)]. }
  unfold deal_gate. rewrite app_nil_iff, rejects_app, rejects_concat, concat_nil_iff.
  rewrite (Forall_iff (λ x, block_item x = []) (λ b, db_status b.2 = Verified))
    by (intros [f b]; simpl; destruct (db_status b); done).
  rewrite (Exists_iff (λ x, rejects (block_item x)) (λ b, db_status b.2 = RedFlag))
    by (intros [f b]; simpl; destruct (db_status b); rejects_simpl; done).
  rewrite Exists_exists. destruct (d_red_flags d) as [|x l] eqn:Er; rejects_simpl; split; split.
  - intros (? & _ & ?). split; [done|]. by intros ? [= <-].
  - intros [? H]. split; [done|]. split; [done|]. by apply H.
  - intros [[]|[[]|([f b] & ? & ?)]]. exists d. split; [done|]. right. eauto.
  - intros (? & [= <-] & [?|(f & b & ? & ?)]); [congruence|]. right; right. by exists (f, b).
  - by intros (_ & ? & _).
  - intros [_ H]. destruct (H d eq_refl). congruence.
  - intros _. exists d. split; [done|]. left. congruence.
  - intros _. right. by left.
Qed.

Lemma jurisdictions_facts opp p :
  (jurisdictions_gate opp p = []
   ↔ Forall (λ j, stated (trim j.2) = true ∧ trim j.2 ∈ p_jurisdictions_allow p)
       (jurisdictions_each (op_jurisdictions opp)))
  ∧ (rejects (jurisdictions_gate opp p) ↔ False).
Proof.
  unfold jurisdictions_gate. rewrite concat_nil_iff, rejects_concat. split.
  - apply Forall_iff. intros [f c]. cbn [jurisdiction_item snd].
    destruct (stated (trim c)); simpl; [|by split; intros H; [|destruct H]].
    destruct (existsb _ _) eqn:E; simpl; split; try done.
    + intros _. split; [done|]. apply existsb_exists in E as (a & Ha & ->%String.eqb_eq).
      by apply list_elem_of_In.
    + intros [_ H]. assert (existsb (λ a, String.eqb a (trim c)) (p_jurisdictions_allow p) = true); [|congruence].
      apply existsb_exists. exists (trim c). split; [by apply list_elem_of_In|]. apply String.eqb_refl.
  - apply Exists_false. intros [f c]. cbn [jurisdiction_item].
    destruct (negb (stated _)); [|destruct (negb (existsb _ _))]; rejects_simpl; tauto.
Qed.

Lemma downside_facts opp :
  (downside_gate opp = [] ↔ unstated (max_loss (op_risk opp)) = [])
  ∧ (rejects (downside_gate opp) ↔ False).
Proof.
  unfold downside_gate. rewrite concat_nil_iff, rejects_concat. split.
  - destruct (unstated _); [by split; [|constructor]|]. split; [|done]. by intros [? _]%Forall_cons.
  - apply Exists_false. intros x. unfold downside_item. rewrite rejects_hold. tauto.
Qed.

Lemma elem_of_btree l x : x ∈ btree l ↔ x ∈ l.
Proof.
  unfold btree, btree_list. rewrite sort_by_perm, elem_of_elements. apply elem_of_list_to_set.
Qed.

Lemma btree_nodup l : NoDup (btree l).
Proof. unfold btree, btree_list. rewrite sort_by_perm. apply NoDup_elements. Qed.

Lemma filter_elem {A} (f : A → bool) l x : x ∈ List.filter f l ↔ x ∈ l ∧ f x = true.
Proof. by rewrite !list_elem_of_In, filter_In. Qed.

Lemma support_elem opp cited as_of c :
  c ∈ support_records opp cited as_of ↔ c ∈ cited_views opp cited ∧ supports c as_of = true.
Proof.
  unfold support_records, seen_records. rewrite !filter_elem. split; [tauto|].
  intros [? H]. split; [|done]. split; [done|]. unfold supports in H.
  by do 3 (apply andb_prop in H as [H _]).
Qed.

Lemma of_kind_elem k l c : c ∈ of_kind k l ↔ c ∈ l ∧ cr_kind c = k.
Proof. unfold of_kind. by rewrite filter_elem, bool_decide_eq_true. Qed.

Lemma length_zero {A} (l : list A) : (length l =? 0)%nat = true ↔ ∀ x, x ∉ l.
Proof.
  rewrite Nat.eqb_eq. destruct l as [|x l]; simpl.
  - split; [|done]. intros _ x. apply not_elem_of_nil.
  - split; [done|]. intros H. destruct (H x). by left.
Qed.

Section support.
Context (show_time : Time → string) (opp : Opportunity) (cited : list CitedRecord) (as_of : Time).

Definition demand_keys : list string :=
btree (map cr_event_key (of_kind Demand (support_records opp cited as_of))).

Lemma demand_key_elem k :
k ∈ demand_keys
↔ ∃ c, c ∈ cited_views opp cited ∧ demand_at as_of c ∧ cr_event_key c = k.
Proof.
unfold demand_keys, demand_at. rewrite elem_of_btree, list_elem_of_fmap.
setoid_rewrite of_kind_elem. setoid_rewrite support_elem.
split; [intros (c & -> & [? ?] & ?)|intros (c & ? & [? ?] & <-)]; exists c; tauto.
Qed.

Lemma no_fact :
(length (of_kind Fact (support_records opp cited as_of)) =? 0)%nat = true
↔ ¬ ∃ c, c ∈ cited_views opp cited ∧ fact_at as_of c.
Proof.
rewrite length_zero. unfold fact_at. setoid_rewrite of_kind_elem. setoid_rewrite support_elem.
split; [intros H (c & ? & ? & ?); apply (H c); tauto|].
intros H c [[? ?] ?]. apply H. by exists c.
Qed.

Lemma two_demands :
(2 ≤ length demand_keys)%nat
↔ ∃ c d, c ∈ cited_views opp cited ∧ d ∈ cited_views opp cited
         ∧ demand_at as_of c ∧ demand_at as_of d ∧ cr_event_key c ≠ cr_event_key d.
Proof.
pose proof (btree_nodup (map cr_event_key (of_kind Demand (support_records opp cited as_of)))) as Hn.
fold demand_keys in Hn. split.
- intros Hl. destruct demand_keys as [|a [|b l]] eqn:E; simpl in Hl; try lia.
  assert (Ha : a ∈ demand_keys) by (rewrite E; by left).
  assert (Hb : b ∈ demand_keys) by (rewrite E; right; by left).
  apply demand_key_elem in Ha as (c & ? & ? & <-). apply demand_key_elem in Hb as (d & ? & ? & <-).
  exists c, d. split_and!; try done. apply NoDup_cons in Hn as [Hn _]. intros E'. apply Hn.
  rewrite E'. by left.
- intros (c & d & Hc & Hd & Dc & Dd & Hne).
  assert (Ha : cr_event_key c ∈ demand_keys) by (apply demand_key_elem; eauto).
  assert (Hb : cr_event_key d ∈ demand_keys) by (apply demand_key_elem; eauto).
  destruct demand_keys as [|a [|b l]]; simpl; try lia.
  + by apply elem_of_nil in Ha.
  + apply list_elem_of_singleton in Ha, Hb. congruence.
Qed.

Lemma support_facts :
(support_gate show_time opp cited as_of = [] ↔ supported opp cited as_of)
∧ ¬ rejects (support_gate show_time opp cited as_of).
Proof.
unfold support_gate, supported. fold demand_keys. rewrite <-two_demands.
destruct (length (of_kind Fact _) =? 0)%nat eqn:E.
- apply no_fact in E. destruct demand_keys as [|a [|b l]] eqn:Ek; simpl length;
    rewrite ?rejects_hold, ?rejects_nil; (split; [split|tauto]); try done.
  1,2: intros [?|?]; [done|lia].
  intros _. right. lia.
- split; [|rewrite rejects_nil; tauto]. split; [|done]. intros _. left.
  destruct (of_kind Fact _) as [|c l] eqn:Ek; [done|].
  assert (Hc : c ∈ of_kind Fact (support_records opp cited as_of)) by (rewrite Ek; by left).
  apply of_kind_elem in Hc as [Hc Hf]. apply support_elem in Hc as [??]. exists c. done.
Qed.

Lemma evidence_facts :
(evidence_gate show_time opp cited as_of = []
 ↔ supported opp cited as_of
   ∧ Forall (λ c, contradicted c as_of = false) (seen_records opp cited as_of)
   ∧ Exists (λ s, starts_with "economics.revenue." (is_field s) = true
                  ∧ is_evidenced_ s = true) (input_states (op_economics opp)))
∧ ¬ rejects (evidence_gate show_time opp cited as_of).
Proof.
unfold evidence_gate. rewrite !app_nil_iff, !rejects_app. destruct support_facts as [Hs Hr].
rewrite Hs. split.
- assert (Hc : contradiction_gate show_time opp cited as_of = []
               ↔ Forall (λ c, contradicted c as_of = false) (seen_records opp cited as_of)).
  { unfold contradiction_gate, contradicted_ids.
    induction (seen_records opp cited as_of) as [|c l IH]; simpl; [by split|].
    rewrite Forall_cons, <-IH. destruct (contradicted c as_of); simpl; [|tauto].
    split; [done|]. by intros [? _]. }
  assert (He : (if revenue_evidenced opp then [] else
                  hold NoTestableEvidence "economics.revenue" "no revenue input names its evidence") = []
               ↔ Exists (λ s, starts_with "economics.revenue." (is_field s) = true
                  ∧ is_evidenced_ s = true) (input_states (op_economics opp))).
  { assert (revenue_evidenced opp = true ↔ Exists (λ s, starts_with "economics.revenue." (is_field s) = true
                  ∧ is_evidenced_ s = true) (input_states (op_economics opp))) as <-.
    { unfold revenue_evidenced. rewrite existsb_exists, Exists_exists.
      setoid_rewrite andb_true_iff. setoid_rewrite list_elem_of_In. done. }
    by destruct (revenue_evidenced opp). }
  rewrite Hc, He. tauto.
- intros [H|[H|H]]; [|done|].
  + unfold contradiction_gate in H. destruct (contradicted_ids _ _ _);
      [by apply rejects_nil in H|by apply rejects_hold in H].
  + destruct (revenue_evidenced opp); [by apply rejects_nil in H|by apply rejects_hold in H].
Qed.

Lemma expiry_facts x :
(expiry_gate show_time x as_of = [] ↔ live x as_of = true)
∧ ¬ rejects (expiry_gate show_time x as_of).
Proof.
unfold expiry_gate. destruct (live x as_of); rewrite ?rejects_nil, ?rejects_hold; split;
  done || tauto.
Qed.

Lemma spend_facts x :
(spend_gate x = [] ↔ first_spend_stops x)
∧ (rejects (spend_gate x) ↔ ∃ i s, first_spend x = Some (i, s) ∧ st_stop_rule s = None).
Proof.
unfold spend_gate, first_spend_stops. destruct (first_spend x) as [[i s]|].
- destruct (st_stop_rule s) as [rule|] eqn:E; rejects_simpl; split; split; try done.
  + intros _ ? ? [= <- <-]. by rewrite E.
  + intros (? & ? & [= <- <-] & ?). congruence.
  + intros H. destruct (H i s eq_refl). congruence.
  + intros _. by exists i, s.
- rejects_simpl. split; split; try done. by intros (? & ? & ? & _).
Qed.

Lemma stop_rule_facts :
(stop_rule_gate show_time opp as_of = []
 ↔ ∃ x, op_experiment opp = Some x ∧ live x as_of = true ∧ first_spend_stops x)
∧ (rejects (stop_rule_gate show_time opp as_of)
   ↔ ∃ x i s, op_experiment opp = Some x ∧ first_spend x = Some (i, s) ∧ st_stop_rule s = None).
Proof.
unfold stop_rule_gate. destruct (op_experiment opp) as [x|].
- rewrite app_nil_iff, rejects_app. destruct (expiry_facts x) as [-> He], (spend_facts x) as [-> ->].
  split; split.
  + intros [? ?]. by exists x.
  + by intros (? & [= <-] & ?).
  + intros [?|(i & s & ?)]; [done|]. exists x, i, s. tauto.
  + intros (? & i & s & [= <-] & ?). right. by exists i, s.
- rejects_simpl. split; split; try done; [by intros (? & ? & _)|by intros (? & ? & ? & ? & _)].
Qed.
End support.

(** ** The whole run *)

(** The figures the gates read name what they lack. *)
Definition figures_named (sc : Scenarios) (p : OperatorProfile) : Prop :=
  named (initial_capital (downside sc))
  ∧ named (contribution (sc_base sc) (p_contribution_basis p))
  ∧ named (sm_payback (sc_base sc)).

Lemma btree_list_nil s : btree_list s = [] → s = ∅.
Proof.
  unfold btree_list. intros H. apply set_eq. intros x.
  rewrite <-elem_of_elements, <-(sort_by_perm str_cmp (elements s)), H, elem_of_nil. set_solver.
Qed.

Lemma named_missing {T} (m : Metric T) s : missing m = lacks_state s → named m.
Proof.
  unfold lacks_state, named. intros H ->. simpl in H. destruct (decide (s = ∅)) as [|Hs]; [done|].
  injection H as H. symmetry in H. by apply btree_list_nil in H.
Qed.

Lemma scenarios_inv hash opp p sc :
  scenarios hash opp p = Ok sc →
  let k := knobs_of opp p in
  scenario (op_economics opp) k Downside = Ok (downside sc)
  ∧ scenario (op_economics opp) k Base = Ok (sc_base sc)
  ∧ scenario (op_economics opp) k Upside = Ok (upside sc).
Proof.
  unfold scenarios. intros H. apply bind_ok in H as (loss & _ & H).
  apply bind_ok in H as (loss' & _ & H). apply bind_ok in H as (sha & _ & H).
  apply bind_ok in H as (d & Hd & H). apply bind_ok in H as (b & Hb & H).
  apply bind_ok in H as (u & Hu & H). apply ok_inj in H as <-. done.
Qed.

Lemma scenarios_named hash opp p sc : scenarios hash opp p = Ok sc → figures_named sc p.
Proof.
  intros (Hd & Hb & _)%scenarios_inv.
  assert (F : ∀ s m fig, scenario (op_economics opp) (knobs_of opp p) s = Ok m →
    ∃ x, figure_state m fig = lacks_state x).
  { intros s m fig Hm. eexists. by eapply (scenario_missing _ (knobs_of opp p)). }
  split_and!.
  - destruct (F _ _ FigInitial Hd) as [x Hx]. by eapply named_missing.
  - destruct (p_contribution_basis p); simpl.
    + destruct (F _ _ FigTimeAdjusted Hb) as [x Hx]. by eapply named_missing.
    + destruct (F _ _ FigCash Hb) as [x Hx]. by eapply named_missing.
  - destruct (F _ _ FigPayback Hb) as [x Hx]. by eapply named_missing.
Qed.

Section run.
Context (show_time : Time → string) (opp : Opportunity) (cited : list CitedRecord)
(p : OperatorProfile) (as_of : Time) (sc : Scenarios) (out : Run).
Hypothesis ran : run_gates show_time opp cited p as_of sc = Ok out.
Hypothesis named_figures : figures_named sc p.

(** The run as its gates. *)
Lemma run_parts :
∃ st lo, exposure_stages opp p = Ok st ∧ exposure_loss opp p = Ok lo
∧ out = mechanism opp ++ (exposure_initial sc p ++ st ++ lo)
        ++ contribution_gate opp sc p as_of ++ payback_gate sc p ++ delivery opp p
        ++ bounds_gate opp ++ evidence_gate show_time opp cited as_of ++ legal_gate opp
        ++ jurisdictions_gate opp p ++ stop_rule_gate show_time opp as_of ++ downside_gate opp.
Proof.
unfold run_gates, exposure in ran. apply bind_ok in ran as (x & Hx & H).
apply bind_ok in Hx as (st & Hst & Hx). apply bind_ok in Hx as (lo & Hlo & Hx).
apply ok_inj in Hx as <-. apply ok_inj in H as <-. by exists st, lo.
Qed.

Lemma hours_known e :
Forall (λ x, x.2 = true) (hours_inputs e)
↔ est_is_known (value (e_owner_hours_per_month e)) = true
  ∧ ∀ a b c total d, e_revenue e = OneOff a b c total d → est_is_known (value total) = true.
Proof.
unfold hours_inputs. rewrite Forall_cons. simpl.
destruct (e_revenue e); rewrite ?Forall_cons, ?Forall_nil; simpl; split; try done;
  try (intros [? _]; by split); try (intros [? H]; split; [done|]; split; [by eapply H|done]).
intros [? [? _]]. split; [done|]. by intros ? ? ? ? ? [= <- <- <- <- <-].
Qed.

Lemma run_nil : out = [] ↔ clear opp cited p as_of sc.
Proof.
destruct run_parts as (st & lo & Hst & Hlo & ->).
destruct named_figures as (N1 & N2 & N3). rewrite !app_nil_iff.
destruct (mechanism_facts opp) as [-> _], (exposure_initial_facts sc p N1) as [-> _],
  (exposure_stages_facts _ _ _ Hst) as [-> _], (exposure_loss_facts _ _ _ Hlo) as [-> _],
  (contribution_facts opp sc p as_of N2) as [-> _], (payback_facts sc p N3) as [-> _],
  (delivery_facts opp p) as [-> _], (bounds_facts opp) as [-> _],
  (evidence_facts show_time opp cited as_of) as [-> _], (legal_facts opp) as [-> _],
  (jurisdictions_facts opp p) as [-> _], (stop_rule_facts show_time opp as_of) as [-> _],
  (downside_facts opp) as [-> _].
rewrite hours_known. split.
- intros (?&(?&?&?)&(?&?)&(?&_)&?&(?&?)&(?&?&?)&(?&?)&?&?&?). by split.
- intros []. tauto.
Qed.

Lemma run_rejects : rejects out ↔ violation opp p as_of sc.
Proof.
destruct run_parts as (st & lo & Hst & Hlo & ->).
destruct named_figures as (N1 & N2 & N3). rewrite !rejects_app.
destruct (mechanism_facts opp) as [_ ->], (exposure_initial_facts sc p N1) as [_ ->],
  (exposure_stages_facts _ _ _ Hst) as [_ ->], (exposure_loss_facts _ _ _ Hlo) as [_ ->],
  (contribution_facts opp sc p as_of N2) as [_ ->], (payback_facts sc p N3) as [_ ->],
  (delivery_facts opp p) as [_ ->], (bounds_facts opp) as [_ ->],
  (legal_facts opp) as [_ ->],
  (jurisdictions_facts opp p) as [_ ->], (stop_rule_facts show_time opp as_of) as [_ ->],
  (downside_facts opp) as [_ ->].
pose proof (proj2 (evidence_facts show_time opp cited as_of)) as He. split.
- intros [?|[H|[H|[H|[[]|[[f ?]|[?|[H|[[]|[H|[]]]]]]]]]]]; [by apply V_mechanism| | | |by eapply V_bound|done| |].
  + destruct H as [(v & ? & ?)|[(x & ? & [(t & ? & ?)|(s & ? & ?)%Exists_exists])|(l & b & h & ? & ?)]];
      [by eapply V_initial|by eapply V_stages|by eapply V_tranche|by eapply V_loss].
  + destruct H as (v & ? & ? & ?). by eapply V_contribution.
  + destruct H as [?|(n & ? & ?)]; [by apply V_not_reached|by eapply V_payback].
  + destruct H as (d & ? & [?|(f & b & ? & ?)]); [by eapply V_red_flags|by eapply V_red_block].
  + destruct H as (x & i & s & ? & ? & ?). by eapply V_stop_rule.
- intros [?|v ? ?|x t ? ? ?|x s ? ? ?|l b h ? ?|v ? ? ?|?|n ? ?|f ?|d ? ?|d f b ? ? ?|x i s ? ? ?].
  + by left.
  + right; left; left. eauto.
  + right; left; right; left. exists x. split; [done|]. left. eauto.
  + right; left; right; left. exists x. split; [done|]. right. apply Exists_exists. eauto.
  + right; left; right; right. eauto 6.
  + do 2 right; left. eauto.
  + do 3 right; left. by left.
  + do 3 right; left. right. eauto.
  + do 5 right; left. eauto.
  + do 7 right; left. exists d. auto.
  + do 7 right; left. exists d. split; [done|]. right. eauto.
  + do 9 right; left. exists x, i, s. done.
Qed.
End run.

(** ** One outcome per code and field *)

(** The outcome a failure of that code and field has. *)
Definition key_outcome (opp : Opportunity) (k : GateCode * option string) : Verdict :=
  match k with
  | (MechanismReject, _) | (CashExposureAboveCap, _) | (TrancheAboveMax, _)
  | (ContributionBelowTarget, _) | (PaybackAboveMax, _) | (DealRedFlag, _) => VReject
  | (UnboundedOwnerTime, Some f) | (UnboundedSupport, Some f) | (UnboundedPaymentAccess, Some f)
  | (UnboundedScope, Some f) =>
      if existsb (λ x, String.eqb ("risk.bounds." +:+ x.1) f && bool_decide (x.2 = Unbounded))
           (bounds_each (bounds (op_risk opp)))
      then VReject else VHold
  | (NoStagedStopRule, Some f) =>
      if String.eqb f "experiment" || String.eqb f "experiment.expires_at" then VHold else VReject
  | _ => VHold
  end.

Definition keyed (opp : Opportunity) (f : GateFailure) : Prop :=
  gf_outcome f = key_outcome opp (failure_key f).

Section keyed.
Context (opp : Opportunity) (p : OperatorProfile).
#[local] Notation ok := (Forall (keyed opp)).

Lemma keyed_hold c x d : key_outcome opp (c, Some x) = VHold → ok (hold c x d).
Proof. intros H. repeat constructor. by symmetry. Qed.

Lemma keyed_reject c x d : key_outcome opp (c, Some x) = VReject → ok (reject c x d).
Proof. intros H. repeat constructor. by symmetry. Qed.

Lemma keyed_unknown l w : ok (unknown l w).
Proof. apply Forall_forall. by intros f (x & -> & _)%list_elem_of_fmap. Qed.

Lemma keyed_concat {A} (g : A → Run) l : (∀ x, x ∈ l → ok (g x)) → ok (List.concat (map g l)).
Proof. intros H. apply Forall_concat, Forall_forall. intros x Hx. by apply H. Qed.

Lemma keyed_post_tax w : ok (post_tax p w).
Proof. unfold post_tax. destruct (decide _); [by apply keyed_hold|constructor]. Qed.

Lemma keyed_above f v : ok (above p f v).
Proof. unfold above. destruct (_ <? _); [by apply keyed_reject|constructor]. Qed.

Lemma keyed_native f v r : native opp p f v = Ok r → ok r.
Proof.
intros H. apply bind_ok in H as ([w|] & _ & H); apply ok_inj in H as <-;
  [apply keyed_above|apply keyed_unknown].
Qed.

Lemma keyed_tranche i s r : tranche opp p i s = Ok r → ok r.
Proof.
intros H. apply bind_ok in H as ([w|] & _ & H); apply ok_inj in H as <-; [|apply keyed_unknown].
destruct (_ <? _); [by apply keyed_reject|constructor].
Qed.

Lemma keyed_stages r : exposure_stages opp p = Ok r → ok r.
Proof.
unfold exposure_stages. destruct (op_experiment opp); [|intros [= <-]; constructor].
intros H. apply bind_ok in H as (t & _ & H). apply bind_ok in H as (a & Ha & H).
apply bind_ok in H as (b & Hb & H). apply ok_inj in H as <-. apply Forall_app.
split; [by eapply keyed_native|]. apply collect_ok in Hb. rewrite <-(map_id b).
apply keyed_concat. intros x Hx. apply list_elem_of_lookup in Hx as [i Hx].
destruct (Forall2_lookup_r _ _ _ _ _ Hb Hx) as ([j s] & _ & Hs). by eapply keyed_tranche.
Qed.

Lemma keyed_loss r : exposure_loss opp p = Ok r → ok r.
Proof.
unfold exposure_loss. destruct (est_end _ _ _); [apply keyed_native|]. intros [= <-]. constructor.
Qed.

Lemma keyed_contribution sc as_of : ok (contribution_gate opp sc p as_of).
Proof.
unfold contribution_gate. destruct (contribution _ _); [|apply keyed_unknown].
destruct (_ <? _); [|apply keyed_post_tax].
destruct (_ && _); [by apply keyed_hold|by apply keyed_reject].
Qed.

Lemma keyed_payback sc : ok (payback_gate sc p).
Proof.
unfold payback_gate. destruct (sm_payback (sc_base sc)) as [[n|]|]; [|by apply keyed_reject|apply keyed_unknown].
destruct (_ <=? _); [apply keyed_post_tax|by apply keyed_reject].
Qed.

Lemma keyed_bounds : ok (bounds_gate opp).
Proof.
unfold bounds_gate. apply Forall_app. split.
- apply keyed_concat. intros [f b] Hx. unfold bound_item. destruct b.
  + constructor.
  + unfold bounds_each in Hx.
    repeat (apply elem_of_cons in Hx as [[= -> E]|Hx]); [..|by apply elem_of_nil in Hx];
      apply keyed_reject; simpl; rewrite <-E; by rewrite ?bool_decide_eq_true_2, ?orb_true_r by done.
  + unfold bounds_each in Hx.
    repeat (apply elem_of_cons in Hx as [[= -> E]|Hx]); [..|by apply elem_of_nil in Hx];
      apply keyed_hold; simpl; rewrite <-E; by simpl.
- destruct (decide _); [constructor|]. apply keyed_concat. intros [f k]. unfold hours_inputs, hours_item.
  intros Hx. destruct k; [constructor|].
  apply elem_of_cons in Hx as [[= -> _]|Hx]; [by apply keyed_hold|].
  destruct (e_revenue _); try by apply elem_of_nil in Hx.
  apply list_elem_of_singleton in Hx as [= -> _]. by apply keyed_hold.
Qed.

Lemma keyed_evidence show_time cited as_of : ok (evidence_gate show_time opp cited as_of).
Proof.
unfold evidence_gate, contradiction_gate, support_gate. rewrite !Forall_app. split_and!.
- destruct (contradicted_ids _ _ _); [constructor|by apply keyed_hold].
- cbn zeta. destruct (_ =? _)%nat; [|constructor].
  destruct (btree _) as [|? []]; [by apply keyed_hold|by apply keyed_hold|constructor].
- destruct (revenue_evidenced _); [constructor|by apply keyed_hold].
Qed.

Lemma keyed_legal : ok (legal_gate opp).
Proof.
unfold legal_gate, deal_gate. apply Forall_app. split.
- apply keyed_concat. intros [i r] _. unfold risk_item. destruct (_ && _); [by apply keyed_hold|constructor].
- destruct (op_deal opp) as [d|]; [|constructor]. apply Forall_app. split.
  + destruct (d_red_flags d); [constructor|by apply keyed_reject].
  + apply keyed_concat. intros [f b] _. unfold block_item, block_code.
    destruct (db_status b); [constructor| | |by apply keyed_reject|].
    all: apply keyed_hold; by destruct (_ || _).
Qed.

Lemma keyed_stop_rule show_time as_of : ok (stop_rule_gate show_time opp as_of).
Proof.
unfold stop_rule_gate, expiry_gate, spend_gate.
destruct (op_experiment opp) as [x|]; [|by apply keyed_hold]. apply Forall_app. split.
- destruct (live x as_of); [constructor|by apply keyed_hold].
- destruct (first_spend x) as [[i s]|]; [|constructor].
  destruct (st_stop_rule s); [constructor|by apply keyed_reject].
Qed.

Lemma run_keyed show_time cited as_of sc out :
run_gates show_time opp cited p as_of sc = Ok out → ok out.
Proof.
intros (st & lo & Hst & Hlo & ->)%run_parts. rewrite !Forall_app. split_and!.
- unfold mechanism. destruct (op_mechanism opp); first [by constructor|by apply keyed_hold|by apply keyed_reject].
- unfold exposure_initial. destruct (initial_capital _); [apply keyed_above|apply keyed_unknown].
- by apply keyed_stages.
- by apply keyed_loss.
- apply keyed_contribution.
- apply keyed_payback.
- unfold delivery. destruct (e_revenue _); try constructor. destruct (est_base _); [|apply keyed_unknown].
  destruct (_ <? _); [by apply keyed_hold|constructor].
- apply keyed_bounds.
- apply keyed_evidence.
- apply keyed_legal.
- apply keyed_concat. intros [f c] _. unfold jurisdiction_item. destruct (negb _); [apply keyed_unknown|].
  destruct (negb _); [by apply keyed_hold|constructor].
- apply keyed_stop_rule.
- apply keyed_concat. intros x _. by apply keyed_hold.
Qed.
End keyed.

Lemma run_consistent show_time opp cited p as_of sc out :
  run_gates show_time opp cited p as_of sc = Ok out → consistent out.
Proof.
  intros H%run_keyed f g Hf Hg E. rewrite Forall_forall in H.
  rewrite (H f Hf), (H g Hg). unfold keyed. by rewrite E.
Qed.

(** What a verdict of [gates] is made of. *)
Lemma gates_inv hash show_time opp cited p as_of v :
  gates hash show_time opp cited p as_of = Ok v →
  is_signed p = true ∧ is_known as_of = true ∧ order (op_as_of opp) as_of ≠ After
  ∧ ∃ sc out, scenarios hash opp p = Ok sc
    ∧ run_gates show_time opp cited p as_of sc = Ok out ∧ v = finish out as_of sc.
Proof.
  unfold gates. destruct (is_signed p); [|done]. destruct (is_known as_of); [|done].
  destruct (decide _); [done|]. simpl. intros H. apply bind_ok in H as (sc & Hs & H).
  apply bind_ok in H as (out & Ho & H). apply ok_inj in H as <-. split_and!; try done. by exists sc, out.
Qed.

Lemma finish_verdict out as_of sc : gv_verdict (finish out as_of sc) = (settle out).2.
Proof. unfold finish. by destruct (settle out). Qed.

Lemma finish_failures out as_of sc : gv_failures (finish out as_of sc) = (settle out).1.
Proof. unfold finish. by destruct (settle out). Qed.

(** ** Errors of the run *)

Lemma overflow_native opp p f v : only_overflow (native opp p f v).
Proof. apply overflow_bind; [apply overflow_to_currency|intros; apply overflow_ok]. Qed.

Lemma overflow_run_gates show_time opp cited p as_of sc :
  only_overflow (run_gates show_time opp cited p as_of sc).
Proof.
  apply overflow_bind; [|intros; apply overflow_ok].
  apply overflow_bind; [|intros ? _; apply overflow_bind; [|intros; apply overflow_ok]].
  - unfold exposure_stages. destruct (op_experiment opp) as [x|]; [|apply overflow_ok].
    apply overflow_bind; [apply overflow_total_cash|intros ? _].
    apply overflow_bind; [apply overflow_native|intros ? _].
    apply overflow_bind; [|intros; apply overflow_ok]. apply overflow_collect. intros [i s].
    apply overflow_bind; [apply overflow_to_currency|intros; apply overflow_ok].
  - unfold exposure_loss. destruct (est_end _ _ _); [apply overflow_native|apply overflow_ok].
Qed.

(** ** Adding holds *)

(** The settled failures of [out], with holds added. *)
Definition with_hold (f : GateFailure) : GateFailure :=
  mkFailure (gf_code f) VHold (gf_field f) (gf_detail f).

Lemma with_holds_eq v hs :
  gv_failures (with_holds v hs) = (settle (gv_failures v ++ map with_hold hs)).1
  ∧ gv_verdict (with_holds v hs) = (settle (gv_failures v ++ map with_hold hs)).2.
Proof. unfold with_holds. by destruct (settle _). Qed.

Lemma finish_nodup out as_of sc : NoDup (map failure_key (gv_failures (finish out as_of sc))).
Proof. rewrite finish_failures. apply settle_nodup. Qed.

(** A failure there already survives; a rejection among the settled ones was
    there before. *)
Lemma with_holds_keeps v hs f :
  NoDup (map failure_key (gv_failures v)) → f ∈ gv_failures v → f ∈ gv_failures (with_holds v hs).
Proof.
  intros Hn Hf. rewrite (proj1 (with_holds_eq v hs)), elem_of_settle.
  apply first_of_app. rewrite first_of_id; [done|done|]. intros. apply not_elem_of_nil.
Qed.

Lemma with_holds_rejects v hs :
  rejects (gv_failures (with_holds v hs)) → rejects (gv_failures v).
Proof.
  rewrite (proj1 (with_holds_eq v hs)). intros (f & Hf & H). exists f. split; [|done].
  apply elem_of_settle, first_of_incl, elem_of_app in Hf as [?|Hf]; [done|].
  by apply list_elem_of_fmap in Hf as (g & -> & _).
Qed.
