(* ===== verification/SoeRank.v ===== *)
(** * SOE capability fit and ranking
    ([src/src/domain/soe/{matching,rank}.rs])

    How the operator's capabilities cover an opportunity, the eight rank-key
    values of a candidate, the order the profile's [rank_order] gives them,
    the sensitivity of a verdict to one input, and the pieces of a week. *)

From Stdlib Require Import Ascii String.
From S2P Require Import Prelude.
From S2P Require Import Text.
From S2P Require Import Lineage.
From S2P Require Import SoeValue.
From S2P Require Import SoeRecord.
From S2P Require Import SoePortfolio.
From S2P Require Import SoeEconomics.
From S2P Require Import SoeGates.

#[local] Open Scope string_scope.
#[local] Open Scope list_scope.
#[local] Open Scope Z_scope.

(** ** matching.rs *)

Inductive FitLevel : Type := FProven | FClaimed | FStale | FMissing | FUnstated.
#[export] Instance FitLevel_eq_dec : EqDecision FitLevel.
Proof. solve_decision. Defined.

(** The derived [Ord], best first. *)
Definition fit_index (f : FitLevel) : Z :=
  match f with FProven => 0 | FClaimed => 1 | FStale => 2 | FMissing => 3 | FUnstated => 4 end.

Definition fit_level (f : FitLevel) : option Z :=
  match f with
  | FProven => Some 4 | FClaimed => Some 3 | FStale => Some 2 | FMissing => Some 1
  | FUnstated => None
  end.

Definition fit_name (f : FitLevel) : string :=
  match f with
  | FProven => "PROVEN" | FClaimed => "CLAIMED" | FStale => "STALE" | FMissing => "MISSING"
  | FUnstated => "UNSTATED"
  end.

Record SkillFit : Type := mkSkillFit {
  sf_skill : string;
  sf_level : FitLevel;
  sf_capability : option string;
}.

Record OpportunityFit : Type := mkFit { cf_level : FitLevel; cf_skills : list SkillFit }.

Definition active_at (c : OperatorCapability) (at_ : Time) : bool :=
  bool_decide (order (cap_as_of c) at_ = NotAfter)
  && match latest at_, window_end (cap_valid_until c) with
     | Some t, Some e => t <? e
     | _, _ => false
     end.

Definition capability_level (c : OperatorCapability) (at_ : Time) : FitLevel :=
  match active_at c at_, cap_level c with
  | true, Proven => FProven
  | true, _ => FClaimed
  | false, _ => FStale
  end.

(** The tuple's [<]: the level, then the id. *)
Definition candidate_cmp (a b : FitLevel * string) : comparison :=
  cmp_then (Z.compare (fit_index a.1) (fit_index b.1)) (str_cmp a.2 b.2).

Definition better_of (best : option (FitLevel * string)) (c : FitLevel * string)
    : option (FitLevel * string) :=
  match best with
  | None => Some c
  | Some b => match candidate_cmp c b with Lt => Some c | _ => Some b end
  end.

Definition skill_fit (skill : string) (profile : OperatorProfile) (at_ : Time) : SkillFit :=
  let named := List.filter (λ c, String.eqb (cap_skill c) skill) (p_capabilities profile) in
  match fold_left (λ best c, better_of best (capability_level c at_, cap_id c)) named None with
  | Some (level, id) => mkSkillFit skill level (Some id)
  | None => mkSkillFit skill FMissing None
  end.

(** [iter().max()]: the last of the greatest. *)
Definition worst_level (l : list FitLevel) : option FitLevel :=
  fold_left (λ acc x, match acc with
                      | None => Some x
                      | Some y => if fit_index y <=? fit_index x then Some x else Some y
                      end) l None.

Definition fit (opp : Opportunity) (profile : OperatorProfile) (at_ : Time) : OpportunityFit :=
  let skills := map (λ s, skill_fit s profile at_) (op_requires_skills opp) in
  mkFit (default FUnstated (worst_level (map sf_level skills))) skills.

(** ** rank.rs: key values *)

Inductive KeyValue : Type :=
  | KTier (t : Tier)
  | KMoney (m : Money)
  | KPayback (p : Payback)
  | KDays (n : Z)
  | KShare (b : Bps)
  | KFit (f : FitLevel)
  | KUnknown (why : string).

Definition magnitude (v : KeyValue) : option Z :=
  match v with
  | KTier t => tier_level t
  | KMoney m => Some (minor m)
  | KPayback (Months n) | KDays n => Some n
  | KPayback NotReached => Some (u32_max + 1)
  | KShare b => Some b
  | KFit f => fit_level f
  | KUnknown _ => None
  end.

Definition tier_name (t : Tier) : string :=
  match t with TLow => "LOW" | TMedium => "MEDIUM" | THigh => "HIGH" | TUnknown => "UNKNOWN" end.

Definition show_key (v : KeyValue) : string :=
  match v with
  | KTier t => tier_name t
  | KMoney m => show_money m
  | KPayback (Months n) => if n =? 1 then "1 month" else show_N n +:+ " months"
  | KPayback NotReached => "NOT_REACHED"
  | KDays n => if n =? 1 then "1 day" else show_N n +:+ " days"
  | KShare b => show_N b +:+ " bps"
  | KFit f => fit_name f
  | KUnknown why => "UNKNOWN: " +:+ why
  end.

Definition cmp_values (a b : KeyValue) (better : Better) : comparison :=
  match magnitude a, magnitude b with
  | Some x, Some y => match better with Higher => Z.compare y x | Lower => Z.compare x y end
  | Some _, None => Lt
  | None, Some _ => Gt
  | None, None => Eq
  end.

Definition evidence_confidence (opp : Opportunity) (cited : list CitedRecord) (as_of : Time) : Tier :=
  let knowable_ := List.filter (λ c, knowable c as_of) (cited_views opp cited) in
  let contested := existsb (λ c, contradicted c as_of) knowable_ in
  let support := List.filter (λ c, supports c as_of) knowable_ in
  let fact := existsb (λ c, bool_decide (cr_kind c = Fact)) support in
  let events := btree (map cr_event_key support) in
  if fact && negb contested then THigh
  else if (2 <=? length events)%nat then TMedium
  else TLow.

Section rank.
(** The hashes of [assess] and [scenarios] (serde_json, sha2) and
  [Time]'s [Display] (chrono). *)
Variable hash_inputs : Opportunity → OperatorProfile → R string.
Variable hash_assessment : Time → Opportunity → list CitedRecord → R string.
Variable show_time : Time → string.

Definition days_to_decisive_evidence (opp : Opportunity) (as_of : Time) : KeyValue :=
match op_experiment opp with
| None => KUnknown "no experiment"
| Some x =>
    let otherwise := match window_end (deadline x), earliest as_of, latest as_of with
      | Some e, Some at_, Some _ =>
          KDays (default u32_max (try_u32 (div_ceil (e - at_) DAY_MS)))
      | _, _, _ => KUnknown "experiment.deadline or the decision time unknown"
      end in
    match window_end (deadline x), latest as_of with
    | Some e, Some l =>
        if e <=? l
        then KUnknown ("experiment.deadline " +:+ show_time (deadline x) +:+ " passed by the decision")
        else otherwise
    | _, _ => otherwise
    end
end.

Definition metric_value {T} (m : Metric T) (known : T → KeyValue) : KeyValue :=
match m with
| Known v => known v
| Lacks f => KUnknown ("needs " +:+ join ", " f)
end.

(** One candidate at one decision time; [as_keys] is the map of all eight
  keys. *)
Record Assessment : Type := mkAssessment {
as_id : string;
as_version : Z;
as_verdict : GateVerdict;
as_scenarios : Scenarios;
as_fit : OpportunityFit;
as_keys : RankKey → KeyValue;
as_inputs_sha256 : string;
}.

Definition passes (a : Assessment) : bool := bool_decide (gv_verdict (as_verdict a) = VPass).

(** The eight values of [assess]. *)
Definition key_values (opp : Opportunity) (cited : list CitedRecord) (as_of : Time) (sc : Scenarios)
  (f : OpportunityFit) (k : RankKey) : KeyValue :=
match k with
| EvidenceConfidence => KTier (evidence_confidence opp cited as_of)
| TimeAdjustedBase =>
    metric_value (time_adjusted_contribution (sc_base sc)) (λ v, KMoney (mkMoney v (sc_currency sc)))
| PaybackBase => metric_value (sm_payback (sc_base sc)) KPayback
| DaysToDecisiveEvidence => days_to_decisive_evidence opp as_of
| Reversibility => KTier (o_reversibility (op_ordinal opp))
| CapabilityFit => KFit (cf_level f)
| ConcentrationMax =>
    match concentration_max (op_risk opp) with
    | Some b => KShare b
    | None => KUnknown "no concentration listed"
    end
| Defensibility => KTier (o_defensibility (op_ordinal opp))
end.

Definition assess (opp : Opportunity) (cited : list CitedRecord) (profile : OperatorProfile)
  (as_of : Time) : R Assessment :=
verdict ← gates hash_inputs show_time opp cited profile as_of;
sc ← scenarios hash_inputs opp profile;
let f := fit opp profile as_of in
sha ← hash_assessment as_of opp (cited_views opp cited);
Ok (mkAssessment (op_id opp) (op_version opp) verdict sc f (key_values opp cited as_of sc f) sha).

(** ** Order and explanation *)

(** [order.iter().map(..).find(is_ne)]. *)
Fixpoint compare_keys (order : list RankKey) (a b : Assessment) : comparison :=
match order with
| [] => Eq
| k :: order =>
    match cmp_values (as_keys a k) (as_keys b k) (rank_key_better k) with
    | Eq => compare_keys order a b
    | c => c
    end
end.

Definition compare_ids (a b : Assessment) : comparison :=
cmp_then (str_cmp (as_id a) (as_id b))
  (cmp_then (Z.compare (as_version a) (as_version b))
     (str_cmp (as_inputs_sha256 a) (as_inputs_sha256 b))).

Definition compare (order : list RankKey) (a b : Assessment) : comparison :=
cmp_then (compare_keys order a b) (compare_ids a b).

Definition rank (all : list Assessment) (order : list RankKey) : list Assessment :=
sort_by (compare order) (List.filter passes all).

Record RankReason : Type := mkReason {
rs_key : option RankKey;
rs_first : string;
rs_first_value : string;
rs_second : string;
rs_second_value : string;
}.

Definition deciding_key (first second : Assessment) (order : list RankKey) : option RankKey :=
List.find (λ k, negb (bool_decide
  (cmp_values (as_keys first k) (as_keys second k) (rank_key_better k) = Eq))) order.

Definition explain_order (a b : Assessment) (order : list RankKey) : RankReason :=
let (first, second) := match compare order a b with Gt => (b, a) | _ => (a, b) end in
match deciding_key first second order with
| Some k =>
    mkReason (Some k) (as_id first) (show_key (as_keys first k)) (as_id second)
      (show_key (as_keys second k))
| None => mkReason None (as_id first) (as_id first) (as_id second) (as_id second)
end.
End rank.

(** ** Sensitivity *)

Inductive PerturbInput : Type := POwnerHours | PConversion | PChurn | PPrice.

Definition PerturbInput_ALL : list PerturbInput := [POwnerHours; PConversion; PChurn; PPrice].

Definition perturb_better (i : PerturbInput) : Better :=
  match i with POwnerHours | PChurn => Lower | PConversion | PPrice => Higher end.

Record Perturbation : Type := mkPerturbation { pt_input : PerturbInput; pt_scale_bps : Z }.

Definition tornado (scale_bps : Z) : list Perturbation :=
  List.concat (map (λ i, [mkPerturbation i (- scale_bps); mkPerturbation i scale_bps]) PerturbInput_ALL).

(** [v] scaled, rounded against the candidate. *)
Definition scale (v : Z) (p : Perturbation) : R Z :=
  num ← mul v (FULL + pt_scale_bps p);
  Ok (match perturb_better (pt_input p) with
      | Higher => div_floor num FULL
      | Lower => div_ceil num FULL
      end).

Definition scale_est (a : Assumption Z) (f : Z → R Z) : R (Assumption Z) :=
  match value a with
  | Unknown _ => Ok a
  | Range low base high =>
      l ← f low; b ← f base; h ← f high;
      e ← est_range (λ x y, Some (Z.compare x y)) l b h;
      Ok (mkAssumption e (evidence a) (as_of a) (note a))
  end.

Definition scale_amount (a : Assumption Minor) (p : Perturbation) : R (Assumption Minor) :=
  scale_est a (λ m, x ← scale m p; ok_or (try_i64 x) OVERFLOW).
Definition scale_count (a : Assumption Z) (p : Perturbation) : R (Assumption Z) :=
  scale_est a (λ n, x ← scale n p; ok_or (try_u32 x) OVERFLOW).
Definition scale_share (a : Assumption Bps) (p : Perturbation) : R (Assumption Bps) :=
  scale_est a (λ b, x ← scale b p; bps_new (Z.max 0 (Z.min FULL x))).

Definition perturb (opp : Opportunity) (p : Perturbation) : R (Opportunity * list string) :=
  if pt_scale_bps p <? - BPS_FULL then Err INVALID_FIELD
  else
    let e := op_economics opp in
    let put e' fs := Ok (set_economics opp e', fs) in
    match pt_input p, e_revenue e with
    | POwnerHours, OneOff cv wp dw total cl =>
        h ← scale_count (e_owner_hours_per_month e) p;
        t ← scale_count total p;
        put (set_revenue (set_owner_hours e h) (OneOff cv wp dw t cl))
          [fields.OWNER_HOURS; fields.OWNER_HOURS_TOTAL]
    | POwnerHours, _ =>
        h ← scale_count (e_owner_hours_per_month e) p;
        put (set_owner_hours e h) [fields.OWNER_HOURS]
    | PConversion, Recurring leads conv churn price loss =>
        x ← scale_share conv p;
        put (set_revenue e (Recurring leads x churn price loss)) [fields.CONVERSION]
    | PConversion, OneOff cv wp dw total cl =>
        x ← scale_share wp p;
        put (set_revenue e (OneOff cv x dw total cl)) [fields.WIN_PROBABILITY]
    | PChurn, Recurring leads conv churn price loss =>
        x ← scale_share churn p;
        put (set_revenue e (Recurring leads conv x price loss)) [fields.CHURN]
    | PChurn, Acquisition asset churn loss =>
        x ← scale_share churn p;
        put (set_revenue e (Acquisition asset x loss)) [fields.CHURN]
    | PPrice, Recurring leads conv churn price loss =>
        x ← scale_amount price p;
        put (set_revenue e (Recurring leads conv churn x loss)) [fields.PRICE]
    | PPrice, OneOff cv wp dw total cl =>
        x ← scale_amount cv p;
        put (set_revenue e (OneOff x wp dw total cl)) [fields.CONTRACT_VALUE]
    | PPrice, RevenueShare partner share loss =>
        x ← scale_share share p;
        put (set_revenue e (RevenueShare partner x loss)) [fields.SHARE]
    | _, _ => Ok (opp, [])
    end.

Record SensitivityRow : Type := mkSensitivity {
  sr_input : PerturbInput;
  sr_scale_bps : Z;
  sr_fields : list string;
  sr_base_time_adjusted : Metric Minor;
  sr_perturbed_time_adjusted : Metric Minor;
  sr_verdict_before : Verdict;
  sr_verdict_after : Verdict;
  sr_gates_added : list string;
  sr_gates_removed : list string;
}.

Section sensitivity.
Variable hash_inputs : Opportunity → OperatorProfile → R string.
Variable hash_assessment : Time → Opportunity → list CitedRecord → R string.
Variable show_time : Time → string.

(** [a.difference(&b)] of two label sets, in order. *)
Definition label_difference (a b : list string) : list string :=
btree_list (list_to_set a ∖ list_to_set b).

Definition sensitivity (opp : Opportunity) (cited : list CitedRecord) (profile : OperatorProfile)
  (as_of : Time) (perturbations : list Perturbation) : R (list SensitivityRow) :=
let assess := assess hash_inputs hash_assessment show_time in
before ← assess opp cited profile as_of;
let labels_before := labels (as_verdict before) in
collect (λ p,
  '(o, fs) ← perturb opp p;
  after ← assess o cited profile as_of;
  let labels_after := labels (as_verdict after) in
  Ok (mkSensitivity (pt_input p) (pt_scale_bps p) fs
        (time_adjusted_contribution (sc_base (as_scenarios before)))
        (time_adjusted_contribution (sc_base (as_scenarios after)))
        (gv_verdict (as_verdict before)) (gv_verdict (as_verdict after))
        (label_difference labels_after labels_before)
        (label_difference labels_before labels_after)))
  perturbations.
End sensitivity.

(** ** Building blocks of a week *)

(** The loop of [current_versions]: the (id, version) pairs seen and the best
    version so far per id. *)
Fixpoint current_go (as_of : Time) (opps : list Opportunity) (seen : list (string * Z))
    (current : gmap string Opportunity) : R (gmap string Opportunity) :=
  match opps with
  | [] => Ok current
  | o :: opps =>
      if decide ((op_id o, op_version o) ∈ seen) then Err DUPLICATE
      else
        let seen := (op_id o, op_version o) :: seen in
        if decide (order (op_as_of o) as_of = After) then current_go as_of opps seen current
        else
          let newer := match current !! op_id o with
                       | None => true
                       | Some c => op_version c <? op_version o
                       end in
          current_go as_of opps seen (if newer then <[op_id o := o]> current else current)
  end.

(** [BTreeMap::into_values]: by key. *)
Definition btree_values {A} (m : gmap string A) : list A :=
  map snd (sort_by (cmp_on fst str_cmp) (map_to_list m)).

Definition current_versions (opps : list Opportunity) (as_of : Time) : R (list Opportunity) :=
  m ← current_go as_of opps [] ∅;
  Ok (btree_values m).

Definition ranked_row (rank : Z) (a : Assessment) (order : list RankKey) (action : PortfolioAction)
    : RankedRow :=
  mkRankedRow rank (as_id a) (as_version a) action
    (map (λ k, mkRankValue k (show_key (as_keys a k))) order).

Definition by_id_version (a b : Assessment) : comparison :=
  cmp_then (str_cmp (as_id a) (as_id b)) (Z.compare (as_version a) (as_version b)).

Definition with_verdict (v : Verdict) (a : Assessment) : bool :=
  bool_decide (gv_verdict (as_verdict a) = v).

Definition gated_rows (all : list Assessment) : list GatedRow * list GatedRow :=
  let sorted := sort_by by_id_version (List.filter (λ a, negb (passes a)) all) in
  let row action a := mkGatedRow (as_id a) (as_version a) action (labels (as_verdict a)) in
  (map (row AHold) (List.filter (with_verdict VHold) sorted),
   map (row AReject) (List.filter (with_verdict VReject) sorted)).

(** [*count.entry(field).or_default() += 1]. *)
Definition count_one (m : gmap string nat) (f : string) : gmap string nat :=
  <[f := S (default O (m !! f))]> m.

Definition week_next_information (all : list Assessment) : list string :=
  let count := fold_left (λ m a, fold_left count_one (next_information (as_verdict a)) m)
                 (List.filter (with_verdict VHold) all) ∅ in
  map fst (sort_by (λ a b, cmp_then (Nat.compare b.2 a.2) (str_cmp a.1 b.1)) (map_to_list count)).

Definition hold_rationale (all : list Assessment) : option string :=
  if existsb passes all then None
  else match all with
       | [] => Some "no candidate this week"
       | _ =>
           let n v := show_nat (length (List.filter (with_verdict v) all)) in
           Some ("no candidate passed the hard gates: " +:+ n VHold +:+ " held, " +:+ n VReject
                 +:+ " rejected")
       end.

Record WeekHead : Type := mkHead {
  h_id : string;
  h_week : IsoWeek;
  h_as_of : Time;
  h_currency : Currency;
  h_profile_sha256 : string;
}.

Definition same_decision (head : WeekHead) (all : list Assessment) : list Code :=
  map (λ _, INVALID_FIELD)
    (List.filter (λ a, negb (bool_decide (gv_as_of (as_verdict a) = h_as_of head))
                       || negb (bool_decide (sc_currency (as_scenarios a) = h_currency head))) all).

Section week.
(** The week's input hash (serde_json, sha2). *)
Variable hash_week : list (string * Z * string) → string.

Definition portfolio_inputs_sha256 (all : list Assessment) : string :=
hash_week (sort_by (λ a b, cmp_then (str_cmp a.1.1 b.1.1)
                             (cmp_then (Z.compare a.1.2 b.1.2) (str_cmp a.2 b.2)))
             (map (λ a, (as_id a, as_version a, as_inputs_sha256 a)) all)).

Definition week_record (head : WeekHead) (all : list Assessment) (ranked : list RankedRow)
  (rationale : option string) : result (list Code) WeeklyPortfolio :=
let (held, rejected) := gated_rows all in
schema ← match tag_v1 "weekly_portfolio" with Ok t => Ok t | Err e => Err [e] end;
let week := mkWeekly schema (h_id head) 1 (h_week head) (h_as_of head) (h_currency head)
  (h_profile_sha256 head) (portfolio_inputs_sha256 all) ECONOMICS_VERSION ranked held rejected
  (mkAllocation 0 0) rationale (week_next_information all) in
_ ← validate week;
Ok week.

Definition hold_week (head : WeekHead) (all : list Assessment) : result (list Code) WeeklyPortfolio :=
let errors := map (λ _, INVALID_FIELD) (List.filter passes all) ++ same_decision head all in
match errors with
| [] => week_record head all [] (hold_rationale all)
| _ => Err errors
end.
End week.
