(* ===== verification/SoeAllocate.v ===== *)
(** * SOE allocation ([src/src/domain/soe/allocate.rs])

    The week's candidates become a validated [WeeklyPortfolio] under the
    profile's weekly hours and validation tranche: the repricing search, the
    cost of a stage, the budget fill, the three lists. [decide_week]'s
    packet, proposal and challenge stages are not here. *)

From Stdlib Require Import Ascii String.
From S2P Require Import Prelude.
From S2P Require Import Text.
From S2P Require Import Lineage.
From S2P Require Import SoeValue.
From S2P Require Import SoeRecord.
From S2P Require Import SoePortfolio.
From S2P Require Import SoeEconomics.
From S2P Require Import SoeGates.
From S2P Require Import SoeRank.

#[local] Open Scope string_scope.
#[local] Open Scope list_scope.
#[local] Open Scope Z_scope.

(** Where a candidate stands. *)
Inductive Track : Type := TNew | TActive (next_stage : nat).

Record Candidate : Type := mkCandidate {
  ca_opportunity : Opportunity;
  ca_assessment : Assessment;
  ca_track : Track;
}.

Record Budget : Type := mkBudget { bu_owner_hours : Z; bu_cash : Minor }.

Definition budget_of (p : OperatorProfile) : Budget :=
  mkBudget (p_weekly_owner_hours p) (p_max_validation_tranche p).

Record Note : Type := mkNote { n_id : string; n_action : string; n_why : string }.
Record Allocated : Type := mkAllocated { portfolio : WeeklyPortfolio; notes : list Note }.

Definition PRICE_FIXABLE : list GateCode := [ContributionBelowTarget; PaybackAboveMax].
Definition TESTABLE : list GateCode := [BelowTargetWithPath; SingleDemandSignal].
Definition DILIGENCE : list GateCode := [LegalUnresolved; DiligenceOpen].

(** [set.contains(&code)]. *)
Definition among (c : GateCode) (set : list GateCode) : bool := bool_decide (c ∈ set).

(** ** Repricing *)

Definition with_base_price (opp : Opportunity) (field : string) (p : Minor) : Opportunity :=
  match input_mut (op_economics opp) field with
  | Some (AmountMut a put) =>
      match value a with
      | Range low _ high =>
          set_economics opp
            (put (mkAssumption (Range (Z.min low p) p (Z.max high p)) (evidence a) (as_of a) (note a)))
      | Unknown _ => opp
      end
  | _ => opp
  end.

Section allocate.
Variable hash_inputs : Opportunity → OperatorProfile → R string.
Variable show_time : Time → string.
(** The week's input hash: id, version, inputs, gate labels and track of
  each candidate, by id. *)
Variable hash_allocation : list (string * Z * string * list string * Track) → string.

Section min_price.
Context (opp : Opportunity) (cited : list CitedRecord) (profile : OperatorProfile)
(as_of : Time) (field : string).

(** The closure [clears]. *)
Definition clears (p : Minor) : R bool :=
g ← gates hash_inputs show_time (with_base_price opp field p) cited profile as_of;
Ok (negb (bool_decide (gv_verdict g = VReject))
  && negb (existsb (λ f, bool_decide (gf_code f = BelowTargetWithPath)) (gv_failures g))).

(** The doubling [loop]: [None] when out of fuel; [Some (Ok None)] when
the price overflows. *)
Fixpoint double_go (fuel : nat) (lo hi : Z) : option (R (option (Z * Z))) :=
match fuel with
| O => None
| S fuel =>
  match Minor.checked_mul hi 2 with
  | Err _ => Some (Ok None)
  | Ok hi =>
      match clears hi with
      | Err e => Some (Err e)
      | Ok true => Some (Ok (Some (lo, hi)))
      | Ok false => double_go fuel hi hi
      end
  end
end.

(** The halving [while]. *)
Fixpoint halve_go (fuel : nat) (lo hi : Z) : option (R Z) :=
if 1 <? hi - lo then
match fuel with
| O => None
| S fuel =>
    let mid := lo + Z.quot (hi - lo) 2 in
    match clears mid with
    | Err e => Some (Err e)
    | Ok true => halve_go fuel lo mid
    | Ok false => halve_go fuel mid hi
    end
end
else Some (Ok hi).

(** Both loops; 64 doublings of a positive [i64] overflow, and 64 halvings
close any [i64] gap ([SoeAllocateProps] shows neither runs out). *)
Definition search (base : Z) : R (option Z) :=
let hi := if 0 <? base then base else 1 in
match double_go 64 base hi with
| None => Err OVERFLOW
| Some r =>
  bounds ← r;
  match bounds with
  | None => Ok None
  | Some (lo, hi) =>
      match halve_go 64 lo hi with
      | None => Err OVERFLOW
      | Some r => hi ← r; Ok (Some hi)
      end
  end
end.
End min_price.

Definition price_field (m : RevenueModel) : option string :=
match m with
| Recurring _ _ _ _ _ => Some fields.PRICE
| OneOff _ _ _ _ _ => Some fields.CONTRACT_VALUE
| Acquisition _ _ _ | RevenueShare _ _ _ => None
end.

Definition min_price (opp : Opportunity) (v : GateVerdict) (cited : list CitedRecord)
  (profile : OperatorProfile) : R (option Minor) :=
if negb (bool_decide (gv_verdict v = VReject))
   || existsb (λ f, bool_decide (gf_outcome f = VReject) && negb (among (gf_code f) PRICE_FIXABLE))
        (gv_failures v)
then Ok None
else
  match price_field (e_revenue (op_economics opp)) with
  | None => Ok None
  | Some field =>
      match input (op_economics opp) field with
      | Some (Amount a) =>
          match est_base (value a) with
          | None => Ok None
          | Some base =>
              hi ← search opp cited profile (gv_as_of v) field base;
              match hi with
              | None => Ok None
              | Some hi => to_currency (op_economics opp) (p_currency profile) hi Outflow
              end
          end
      | _ => Ok None
      end
  end.

(** ** The budget *)

(** The stage [c] would run and its cost, or why it cannot be priced. *)
Definition stage_cost (c : Candidate) (p : OperatorProfile) : R (result string (string * Minor * Z)) :=
match op_experiment (ca_opportunity c) with
| None => Ok (Err "no experiment to run")
| Some x =>
    let i := match ca_track c with TNew => O | TActive next => next end in
    match stages x !! i with
    | None => Ok (Ok ("(no stage left)", 0, 0))
    | Some stage =>
        cash ← to_currency (op_economics (ca_opportunity c)) (p_currency p) (st_cash stage) Outflow;
        Ok (match cash with
            | Some cash => Ok (st_name stage, cash, st_owner_hours stage)
            | None => Err ("stage `" +:+ st_name stage +:+ "`: no rate to "
                           +:+ currency_code (p_currency p))
            end)
    end
end.

(** [Fill::take]: the budget is the profile's, [used] the spend so far. *)
Definition take (used : Allocation) (c : Candidate) (p : OperatorProfile)
  : R (result string (string * Minor * Z) * Allocation) :=
cost ← stage_cost c p;
match cost with
| Err why => Ok (Err why, used)
| Ok (name, cash, hours) =>
    let budget := budget_of p in
    let h := Z.min (al_owner_hours used + hours) u32_max in
    m ← Minor.checked_add (al_cash used) cash;
    if (bu_owner_hours budget <? h) || (bu_cash budget <? m) then
      Ok (Err ("over budget: stage `" +:+ name +:+ "` needs " +:+ show_N hours +:+ " h + "
               +:+ money p cash +:+ "; "
               +:+ show_N (bu_owner_hours budget - al_owner_hours used) +:+ " h + "
               +:+ money p (bu_cash budget - al_cash used) +:+ " left of "
               +:+ show_N (bu_owner_hours budget) +:+ " h + " +:+ money p (bu_cash budget)), used)
    else Ok (Ok (name, cash, hours), mkAllocation h m)
end.

Definition only (v : GateVerdict) (set : list GateCode) : bool :=
match gv_failures v with
| [] => false
| fs => forallb (λ f, among (gf_code f) set) fs
end.

Definition diligence_questions (v : GateVerdict) : list string :=
map (λ f, default "deal" (gf_field f) +:+ ": " +:+ gf_detail f)
  (List.filter (λ f, bool_decide (gf_outcome f = VHold) && among (gf_code f) DILIGENCE)
     (gv_failures v)).

Definition diligence (c : Candidate) (p : OperatorProfile) : R (option PortfolioAction) :=
match op_deal (ca_opportunity c) with
| None => Ok None
| Some _ =>
    match diligence_questions (as_verdict (ca_assessment c)) with
    | [] => Ok None
    | questions =>
        next ← match (x ← op_experiment (ca_opportunity c); first_spend x) with
               | Some (_, stage) =>
                   v ← to_currency (op_economics (ca_opportunity c)) (p_currency p)
                         (st_cash stage) Outflow;
                   Ok (match v with
                       | Some m => Z.min m (p_max_validation_tranche p)
                       | None => 0
                       end)
               | None => Ok 0
               end;
        Ok (Some (Diligence questions next))
    end
end.

Definition note_ (id : string) (a : PortfolioAction) (why : string) : Note :=
mkNote id (action_kind a) why.

(** ** The ranked rows *)

Definition by_id (cands : list Candidate) (id : string) : option Candidate :=
List.find (λ c, String.eqb (as_id (ca_assessment c)) id) cands.

(** The action of passing candidate [c] at rank [i], its note and the spend
  after it. *)
Definition ranked_action (p : OperatorProfile) (used : Allocation) (i : Z) (c : Candidate)
  : R (PortfolioAction * Note * Allocation) :=
let id := as_id (ca_assessment c) in
'(t, used) ← take used c p;
Ok (match t with
    | Ok (stage, cash, hours) =>
        let action := match ca_track c with
                      | TActive _ => ContinueActive
                      | TNew => CheapTest cash hours
                      end in
        (action, note_ id action ("rank " +:+ show_N i +:+ ": stage `" +:+ stage +:+ "`"), used)
    | Err why => (AHold, note_ id AHold ("rank " +:+ show_N i +:+ ": " +:+ why), used)
    end).

(** The loop over [rank(&all, order)] from rank [i]. *)
Fixpoint ranked_go (p : OperatorProfile) (cands : list Candidate) (i : Z) (used : Allocation)
  (l : list Assessment) : R (list RankedRow * list Note * Allocation) :=
match l with
| [] => Ok ([], [], used)
| a :: l =>
    c ← ok_or (by_id cands (as_id a)) INVALID_ID;
    '(action, n, used) ← ranked_action p used i c;
    '(rows, ns, used) ← ranked_go p cands (i + 1) used l;
    Ok (ranked_row i a (p_rank_order p) action :: rows, n :: ns, used)
end.

(** ** The held and rejected rows *)

(** A candidate that does not pass: its action and note, or testable (its
  action waits for the fill). *)
Inductive Gated : Type := Settled (a : PortfolioAction) (n : Note) | Testable.

Definition gated_action (p : OperatorProfile) (cited : list CitedRecord) (c : Candidate) : R Gated :=
let v := as_verdict (ca_assessment c) in
let id := as_id (ca_assessment c) in
match gv_verdict v with
| VReject =>
    m ← min_price (ca_opportunity c) v cited p;
    Ok (match m with
        | Some m =>
            Settled (Reprice m) (note_ id (Reprice m)
              ("a base price of " +:+ money p m +:+ " clears the contribution and payback gates"))
        | None => Settled AReject (note_ id AReject (join ", " (labels v)))
        end)
| _ =>
    d ← diligence c p;
    Ok (match d with
        | Some a => Settled a (note_ id a "verify before any tranche")
        | None =>
            if only v TESTABLE then Testable
            else Settled AHold (note_ id AHold (join ", " (labels v)))
        end)
end.

(** The loop over the gated candidates: actions by id, notes, and the
  testable ones. *)
Fixpoint gated_go (p : OperatorProfile) (cited : list CitedRecord)
  (actions : gmap string PortfolioAction) (l : list Candidate)
  : R (gmap string PortfolioAction * list Note * list Candidate) :=
match l with
| [] => Ok (actions, [], [])
| c :: l =>
    g ← gated_action p cited c;
    match g with
    | Settled a n =>
        '(actions, ns, ts) ← gated_go p cited (<[as_id (ca_assessment c) := a]> actions) l;
        Ok (actions, n :: ns, ts)
    | Testable =>
        '(actions, ns, ts) ← gated_go p cited actions l;
        Ok (actions, ns, c :: ts)
    end
end.

(** The loop over the testable holds, in rank order. *)
Fixpoint testable_go (p : OperatorProfile) (used : Allocation) (actions : gmap string PortfolioAction)
  (l : list Candidate) : R (gmap string PortfolioAction * list Note * Allocation) :=
match l with
| [] => Ok (actions, [], used)
| c :: l =>
    let id := as_id (ca_assessment c) in
    '(t, used) ← take used c p;
    let (action, why) := match t with
      | Ok (stage, cash, hours) =>
          (CheapTest cash hours,
           join ", " (labels (as_verdict (ca_assessment c))) +:+ ": test stage `" +:+ stage +:+ "`")
      | Err why => (AHold, why)
      end in
    '(actions, ns, used) ← testable_go p used (<[id := action]> actions) l;
    Ok (actions, note_ id action why :: ns, used)
end.

Definition by_assessment (a b : Candidate) : comparison :=
by_id_version (ca_assessment a) (ca_assessment b).

Definition gated_row (actions : gmap string PortfolioAction) (c : Candidate) : R GatedRow :=
let a := ca_assessment c in
action ← ok_or (actions !! as_id a) INVALID_ID;
Ok (mkGatedRow (as_id a) (as_version a) action (labels (as_verdict a))).

Definition allocation_inputs_sha256 (cands : list Candidate) : string :=
hash_allocation (sort_by (cmp_on (λ r, r.1.1.1.1) str_cmp)
  (map (λ c, let a := ca_assessment c in
             (as_id a, as_version a, as_inputs_sha256 a, labels (as_verdict a), ca_track c)) cands)).

(** [map_err(|e| vec![e])]. *)
Definition one {A} (r : R A) : result (list Code) A :=
match r with Ok a => Ok a | Err e => Err [e] end.

(** The refusals before anything is allocated. *)
Definition allocate_errors (head : WeekHead) (all : list Assessment) : list Code :=
same_decision head all ++ Problems.unique (map as_id all).

(** The rows of the week: ranked, held, rejected, the notes and the spend. *)
Definition allocate_rows (cands : list Candidate) (p : OperatorProfile) (cited : list CitedRecord)
  : R (list RankedRow * list GatedRow * list GatedRow * list Note * Allocation) :=
let all := map ca_assessment cands in
'(ranked, ns1, used) ← ranked_go p cands 1 (mkAllocation 0 0) (rank all (p_rank_order p));
let gated := sort_by by_assessment (List.filter (λ c, negb (passes (ca_assessment c))) cands) in
'(actions, ns2, testable) ← gated_go p cited ∅ gated;
let testable := sort_by (λ a b, compare (p_rank_order p) (ca_assessment a) (ca_assessment b)) testable in
'(actions, ns3, used) ← testable_go p used actions testable;
let verdict_is v := List.filter (λ c, with_verdict v (ca_assessment c)) gated in
held ← collect (gated_row actions) (verdict_is VHold);
rejected ← collect (gated_row actions) (verdict_is VReject);
Ok (ranked, held, rejected, ns1 ++ ns2 ++ ns3, used).

Definition allocate (head : WeekHead) (cands : list Candidate) (p : OperatorProfile)
  (cited : list CitedRecord) : result (list Code) Allocated :=
let all := map ca_assessment cands in
match allocate_errors head all with
| _ :: _ as errors => Err errors
| [] =>
    '(ranked, held, rejected, ns, used) ← one (allocate_rows cands p cited);
    let rationale := match ranked with [] => hold_rationale all | _ => None end in
    schema ← one (tag_v1 "weekly_portfolio");
    let week := mkWeekly schema (h_id head) 1 (h_week head) (h_as_of head) (h_currency head)
      (h_profile_sha256 head) (allocation_inputs_sha256 cands) ECONOMICS_VERSION ranked held rejected
      used rationale (week_next_information all) in
    _ ← validate week;
    Ok (mkAllocated week (sort_by (cmp_on n_id str_cmp) ns))
end.
End allocate.
