(* ===== verification/SoeSamples.v ===== *)
(** * Concrete SOE records

    A signed profile, opportunities of several revenue models and a week of
    candidates, small enough to evaluate: the inputs at which the properties
    are applied. *)

From Stdlib Require Import Ascii String.
From S2P Require Import Prelude.
From S2P Require Import Text.
From S2P Require Import Lineage.
From S2P Require Import SoeValue.
From S2P Require Import SoeRecord.
From S2P Require Import SoePortfolio.
From S2P Require Import SoeEconomics.
From S2P Require Import SoeGates.
From S2P Require Import SoeRank.
From S2P Require Import SoeAllocate.

#[local] Open Scope string_scope.
#[local] Open Scope list_scope.
#[local] Open Scope Z_scope.

Module Sample.
Definition src : Locator := Url "https://example.org/a".
Definition known {T} (l b h : T) : Assumption T := mkAssumption (Range l b h) [src] (At 0) None.
Definition point {T} (v : T) : Assumption T := known v v v.
Definition missing {T} : Assumption T := mkAssumption (Unknown None) [] (At 0) None.

(** Ten days after the epoch. *)
Definition now : Time := At 864000000.

Definition capability : OperatorCapability :=
mkCapability "c1" "rust" Proven [src] (est_point 20) (est_point 1000) [] (At 0) (Day 86400000000).

Definition profile : OperatorProfile :=
mkProfile (mkSchemaTag "operator_profile" 1) "p1" 1 (At 0) "owner" (At 0) true Eur PreTax TimeAdjusted
  500000 50000 2000 12 10 100000 8 ["EU"] ["blog"] ["en"] [] Monthly
  [TimeAdjustedBase; PaybackBase; CapabilityFit] [capability].

Definition initial : InitialCapital :=
mkInitialCapital (point 0) (point 50000) (point 20000) (known 10000 20000 30000).

Definition recurring : RevenueModel :=
Recurring (known 15 20 25) (known 1500 2000 2500) (known 200 300 400) (known 9000 10000 11000)
  (known 100 200 300).
Definition one_off_model : RevenueModel :=
OneOff (known 900000 1000000 1200000) (known 3000 5000 6000) (known 4 6 8) (known 60 80 100)
  (known 0 0 100).
Definition acquisition_model : RevenueModel :=
Acquisition (known 90000 100000 110000) (known 100 200 300) (known 0 100 200).
Definition revshare_model : RevenueModel :=
RevenueShare (known 900000 1000000 1200000) (known 1000 1500 2000) (known 0 100 200).

Definition economics (m : RevenueModel) : EconomicInputs :=
mkEconomicInputs Eur None m (known 500 1000 1500) (known 9000 11000 12000) (known 8 10 12)
  (known 0 1 2) initial QRecurring TaxReviewed.

Definition stage : Stage := mkStage "landing" 20000 0 10 (Some "stop at 200 EUR").
Definition experiment : ExperimentSpec :=
mkExperiment "people pay" "signups" (mkThreshold Ge 10 "signups") (At 1000000000) (Day 1728000000) 20
  "no signups" [Publish] [stage].

Definition risk : RiskAssessment :=
mkRiskAssessment (mkMaxLoss (Range 10000 20000 90000) (est_point 40) "low" "none")
  [mkRisk RkLegal (Range 100 200 300) (Range 1000 2000 30000) "counsel" Resolved] []
  (mkBounds Bounded Bounded Bounded Bounded).

Definition opportunity (id : string) (mech : Mechanism) (m : RevenueModel) : Opportunity :=
mkOpportunity (mkSchemaTag "opportunity" 1) id 1 (At 0) "shops" "slow reports" mech [] ["rust"] ["s:1:h"]
  (mkJurisdictions "EU" "EU" "EU" "EU" "EU" "EU" "EU") (economics m) risk (Some experiment) None
  (mkOrdinal TMedium THigh).

Definition saas : Opportunity := opportunity "saas" Productize recurring.
Definition gig : Opportunity := opportunity "gig" HighTicketDelivery one_off_model.
Definition share : Opportunity := opportunity "share" PartnerRevshare revshare_model.

Definition cited : list CitedRecord := [mkCited "s:1:h" "e1" Fact (At 0) None None].

(** The hash of the inputs stands for [canonical_sha256]; times print as
  their number of milliseconds. *)
Definition hash (o : Opportunity) (p : OperatorProfile) : R string := Ok (op_id o +:+ p_id p).
Definition show_time (t : Time) : string :=
match t with At t => show_Z t | Day d => show_Z d +:+ "d" | TimeUnknown => UNKNOWN end.

(** A contract of two cents: a higher price clears the gates. *)
Definition penny : Opportunity :=
opportunity "penny" HighTicketDelivery
  (OneOff (point 2) (known 3000 5000 6000) (known 4 6 8) (known 60 80 100) (known 0 0 100)).

(** Priced, but no price helps: the variable cost takes everything. *)
Definition sunk : Opportunity :=
let o := opportunity "sunk" Productize
  (Recurring (known 15 20 25) (known 1500 2000 2500) (known 200 300 400) (point 80000000000000000)
     (known 100 200 300)) in
let e := op_economics o in
set_economics o
  (mkEconomicInputs (e_currency e) (e_fx e) (e_revenue e) (point 10000)
     (e_fixed_costs_per_month e) (e_owner_hours_per_month e) (e_ramp_months e) (e_initial e)
     (e_revenue_quality e) (e_tax_review e)).

(** One input nobody measured. *)
Definition foggy : Opportunity :=
opportunity "foggy" Productize
  (Recurring (known 15 20 25) (known 1500 2000 2500) (known 200 300 400) missing
     (known 100 200 300)).

Definition sha : string := "0123456789abcdef0123456789abcdef0123456789abcdef0123456789abcdef".

Definition enter (t : Track) (o : Opportunity) : list Candidate :=
match assess hash (λ _ _ _, Ok sha) show_time o cited profile now with
| Ok a => [mkCandidate o a t]
| Err _ => []
end.

Definition week : list Candidate :=
enter TNew gig ++ enter TNew foggy ++ enter (TActive 0) saas ++ enter TNew penny.
Definition head : WeekHead := mkHead "w1" (mkIsoWeek 2026 5) now Eur sha.
End Sample.
