(* ===== verification/SoeEconomicsProps.v ===== *)
(** * Properties of the SOE economics *)

From Stdlib Require Import Ascii String.
From S2P Require Import Prelude.
From S2P Require Import Text.
From S2P Require Import Lineage.
From S2P Require Import SoeValue.
From S2P Require Import SoeRecord.
From S2P Require Import SoeEconomics.
From S2P Require Import SoeEconomicsFacts.
From S2P Require Import SoeGates.
From S2P Require Import SoeSamples.

#[local] Open Scope Z_scope.

(** The figures of a scenario. *)
Definition figures_of (sc : Scenarios) (s : Scenario) : ScenarioMetrics :=
  match s with Downside => downside sc | Base => sc_base sc | Upside => upside sc end.

Lemma figures_of_scenario hash o p sc s :
  scenarios hash o p = Ok sc → scenario (op_economics o) (knobs_of o p) s = Ok (figures_of sc s).
Proof.
  unfold scenarios. intros H. apply bind_ok in H as (loss & _ & H).
  apply bind_ok in H as (loss' & _ & H). apply bind_ok in H as (sha & _ & H).
  apply bind_ok in H as (d & Hd & H). apply bind_ok in H as (b & Hb & H).
  apply bind_ok in H as (u & Hu & H). apply ok_inj in H as <-. by destruct s.
Qed.

Lemma btree_list_sorted s : sorted_by str_cmp (btree_list s).
Proof. apply sort_by_sorted, _. Qed.

Lemma elem_of_btree_list s x : x ∈ btree_list s ↔ x ∈ s.
Proof. unfold btree_list. by rewrite sort_by_perm, elem_of_elements. Qed.

(** An unknown input is never 0: a figure is known exactly when every
    input field it reads is known; otherwise it names its unknown fields,
    exactly those, sorted. In every scenario and for every revenue model. *)
Theorem unknown_figures_name_their_inputs hash o p sc s fig :
  scenarios hash o p = Ok sc →
  let reads := figure_fields (e_revenue (op_economics o)) fig in
  let unknown := unknown_input (op_economics o) (p_currency p) in
  match figure_state (figures_of sc s) fig with
  | None => ∀ f, f ∈ reads → unknown f = false
  | Some fs => fs ≠ [] ∧ sorted_by str_cmp fs ∧ ∀ f, f ∈ fs ↔ f ∈ reads ∧ unknown f = true
  end.
Proof.
  intros H%(figures_of_scenario _ _ _ _ s). cbn zeta.
  rewrite (scenario_missing _ (knobs_of o p) _ _ fig (p_currency p) eq_refl H). unfold lacks_state.
  destruct (decide _) as [E|E].
  - intros f Hf. destruct (unknown_input _ _ f) eqn:U; [|done].
    assert (Hl : f ∈ lacking_of (op_economics o) (p_currency p)
                   (figure_fields (e_revenue (op_economics o)) fig))
      by (by apply elem_of_lacking).
    rewrite E in Hl. by apply elem_of_empty in Hl.
  - split_and!; [|apply btree_list_sorted|].
    + intros Hn. apply E, set_eq. intros x. rewrite <-elem_of_btree_list, Hn, elem_of_nil.
      split; [done|by intros ?%elem_of_empty].
    + intros f. by rewrite elem_of_btree_list, elem_of_lacking.
Qed.

(** A SaaS opportunity whose churn and ramp nobody knows. *)
Definition saas_unknown : Opportunity :=
  set_economics Sample.saas
    (set_ramp (set_revenue (op_economics Sample.saas)
       (Recurring (Sample.known 15 20 25) (Sample.known 1500 2000 2500) Sample.missing
          (Sample.known 9000 10000 11000) (Sample.known 100 200 300))) Sample.missing).

Lemma unknown_figures_witness :
  ∃ sc, scenarios Sample.hash saas_unknown Sample.profile = Ok sc
  ∧ match figure_state (figures_of sc Base) FigCash with
    | None => False
    | Some fs => fs ≠ [] ∧ sorted_by str_cmp fs
        ∧ ∀ f, f ∈ fs ↔ f ∈ figure_fields (e_revenue (op_economics saas_unknown)) FigCash
                          ∧ unknown_input (op_economics saas_unknown) Eur f = true
    end.
Proof.
  eexists. split; [vm_compute; reflexivity|].
  exact (unknown_figures_name_their_inputs Sample.hash saas_unknown Sample.profile _ Base FigCash
           ltac:(vm_compute; reflexivity)).
Defined.

(** C26. The scenarios are ordered: for a validated opportunity of a stream
    model (RECURRING, ACQUISITION, REVENUE_SHARE) and a validated profile, a
    better scenario never has lower revenue or contribution, nor more hours,
    cost, capital or payback; and both lack the same inputs. The types' own
    invariants ([Est::range]'s order, basis points, positive rates) are the
    only other assumption. *)
Theorem scenarios_are_ordered hash (o : Opportunity) (p : OperatorProfile) sc s1 s2
    (Ho : validate o = Ok tt) (Hp : validate p = Ok tt) (Ht : typed_inputs (op_economics o))
    (Hm : revenue_kind (e_revenue (op_economics o)) ≠ "ONE_OFF"%string)
    (Hs : scenario_rank s1 ≤ scenario_rank s2) :
  scenarios hash o p = Ok sc →
  no_better_figures (figures_of sc s1) (figures_of sc s2)
  ∧ ∀ fig, figure_state (figures_of sc s1) fig = figure_state (figures_of sc s2) fig.
Proof.
  intros H. pose proof (figures_of_scenario _ _ _ _ s1 H) as H1.
  pose proof (figures_of_scenario _ _ _ _ s2 H) as H2. split.
  - eapply (scenario_order (op_economics o)); [done|by apply validated_amounts|exact Hs| | | |done..].
    + by destruct (e_revenue (op_economics o)).
    + by instantiate (1 := p_currency p).
    + by apply validated_rate.
  - intros fig. by rewrite (scenario_missing _ (knobs_of o p) _ _ fig (p_currency p) eq_refl H1),
      (scenario_missing _ (knobs_of o p) _ _ fig (p_currency p) eq_refl H2).
Qed.

Lemma scenarios_are_ordered_witness :
  ∃ sc, scenarios Sample.hash Sample.saas Sample.profile = Ok sc
  ∧ no_better_figures (figures_of sc Downside) (figures_of sc Upside).
Proof.
  eexists. split; [vm_compute; reflexivity|].
  refine (proj1 (scenarios_are_ordered Sample.hash Sample.saas Sample.profile _ Downside Upside _ _ _ _ _ _)).
  - vm_compute. reflexivity.
  - vm_compute. reflexivity.
  - split; [|exact I]. repeat constructor; vm_compute; intuition congruence.
  - vm_compute. discriminate.
  - vm_compute. discriminate.
  - vm_compute. reflexivity.
Defined.

(** Payback is the first month whose running sum covers the capital: the
    sum is below it in every earlier month, a positive capital never pays
    back in month 0, and [NOT_REACHED] means no month of the scan's 600
    covers it. *)
Theorem payback_is_the_first_month monthly initial p :
  payback monthly initial = Ok p →
  first_covering monthly initial p ∧ (0 < initial → p ≠ Months 0).
Proof.
  intros H. pose proof (payback_first _ _ _ H) as Hp. split; [done|].
  intros Hi ->. destruct Hp as (_ & Hr & _). simpl in Hr. lia.
Qed.

Lemma payback_is_the_first_month_witness :
  payback (λ _, Some (Ok 30)) 100 = Ok (Months 4)
  ∧ first_covering (λ _, Some (Ok 30)) 100 (Months 4) ∧ (0 < 100 → Months 4 ≠ Months 0).
Proof.
  split; [vm_compute; reflexivity|].
  exact (payback_is_the_first_month (λ _, Some (Ok 30)) 100 (Months 4) ltac:(vm_compute; reflexivity)).
Defined.

(** The scenarios fail on arithmetic overflow and on nothing else (the
    hash apart): no input, known or unknown, and no missing rate is an
    error. *)
Theorem scenarios_fail_on_overflow_only hash o p c :
  (∀ c', hash o p = Err c' → c' = OVERFLOW) → scenarios hash o p = Err c → c = OVERFLOW.
Proof.
  intros Hh. by apply (overflow_scenarios hash o p).
Qed.

(** A contract so large that its expected revenue leaves the [i64] range. *)
Definition huge : Opportunity :=
  Sample.opportunity "huge" Productize
    (Recurring (Sample.point u32_max) (Sample.point 10000) (Sample.point 0) (Sample.point i64_max)
       (Sample.point 0)).

Lemma scenarios_fail_on_overflow_only_witness :
  ∃ c, scenarios Sample.hash huge Sample.profile = Err c ∧ c = OVERFLOW.
Proof.
  eexists. split; [vm_compute; reflexivity|].
  apply (scenarios_fail_on_overflow_only Sample.hash huge Sample.profile).
  - discriminate.
  - vm_compute. reflexivity.
Defined.
