(* ===== verification/SoeGatesProps.v ===== *)
(** * Properties of the SOE gates *)

From Stdlib Require Import Ascii String.
From S2P Require Import Prelude.
From S2P Require Import Text.
From S2P Require Import Lineage.
From S2P Require Import SoeValue.
From S2P Require Import SoeRecord.
From S2P Require Import SoeEconomics.
From S2P Require Import SoeEconomicsFacts.
From S2P Require Import SoeGates.
From S2P Require Import SoeGatesFacts.
From S2P Require Import SoeSamples.

#[local] Open Scope Z_scope.

(** C1. [PASS] means nothing failed: the verdict is [PASS] exactly when every
    row of the gates' table holds ([clear]), the boundary values included. *)
Theorem gates_pass_iff_clear hash show_time opp cited p as_of v :
  gates hash show_time opp cited p as_of = Ok v →
  gv_verdict v = VPass ↔ ∃ sc, scenarios hash opp p = Ok sc ∧ clear opp cited p as_of sc.
Proof.
  intros (_ & _ & _ & sc & out & Hs & Ho & ->)%gates_inv.
  pose proof (scenarios_named _ _ _ _ Hs) as Hn.
  rewrite finish_verdict, settle_pass, (run_nil _ _ _ _ _ _ _ Ho Hn). split.
  - intros Hc. by exists sc.
  - intros (sc' & Hs' & Hc). by assert (sc' = sc) as -> by congruence.
Qed.

Lemma gates_pass_iff_clear_witness :
  ∃ v, gates Sample.hash Sample.show_time Sample.saas Sample.cited Sample.profile Sample.now = Ok v
  ∧ gv_verdict v = VPass
  ∧ ∃ sc, scenarios Sample.hash Sample.saas Sample.profile = Ok sc
          ∧ clear Sample.saas Sample.cited Sample.profile Sample.now sc.
Proof.
  eexists. split; [vm_compute; reflexivity|]. split; [reflexivity|].
  eapply (proj1 (gates_pass_iff_clear Sample.hash Sample.show_time Sample.saas Sample.cited
                   Sample.profile Sample.now _ ltac:(vm_compute; reflexivity))).
  reflexivity.
Defined.

(** [REJECT] means a known violation: the verdict is [REJECT] exactly
    when one of the rejecting rows of the table is violated by known values.
    Deduplication never hides a rejection behind a hold. *)
Theorem gates_reject_iff_violation hash show_time opp cited p as_of v :
  gates hash show_time opp cited p as_of = Ok v →
  gv_verdict v = VReject ↔ ∃ sc, scenarios hash opp p = Ok sc ∧ violation opp p as_of sc.
Proof.
  intros (_ & _ & _ & sc & out & Hs & Ho & ->)%gates_inv.
  pose proof (scenarios_named _ _ _ _ Hs) as Hn.
  rewrite finish_verdict, settle_reject by (by eapply run_consistent).
  change (rejects out ↔ ∃ sc, scenarios hash opp p = Ok sc ∧ violation opp p as_of sc).
  rewrite (run_rejects _ _ _ _ _ _ _ Ho Hn). split.
  - intros Hc. by exists sc.
  - intros (sc' & Hs' & Hc). by assert (sc' = sc) as -> by congruence.
Qed.

(** The sample profile with a cap below the validation spend. *)
Definition tight : OperatorProfile :=
  let p := Sample.profile in
  mkProfile (p_schema p) (p_id p) 1 (At 0) "owner" (At 0) true Eur PreTax TimeAdjusted
    10000 50000 2000 12 10 10000 8 ["EU"%string] [] [] [] Monthly [TimeAdjustedBase] [].

Lemma gates_reject_iff_violation_witness :
  ∃ v, gates Sample.hash Sample.show_time Sample.saas Sample.cited tight Sample.now = Ok v
  ∧ gv_verdict v = VReject
  ∧ ∃ sc, scenarios Sample.hash Sample.saas tight = Ok sc ∧ violation Sample.saas tight Sample.now sc.
Proof.
  eexists. split; [vm_compute; reflexivity|]. split; [reflexivity|].
  eapply (proj1 (gates_reject_iff_violation Sample.hash Sample.show_time Sample.saas Sample.cited
                   tight Sample.now _ ltac:(vm_compute; reflexivity))).
  reflexivity.
Defined.

(** The refusals of [gates], in its order. *)
Definition gates_refusal (opp : Opportunity) (p : OperatorProfile) (as_of : Time) : option Code :=
  if negb (is_signed p) then Some OPERATOR_PROFILE_UNSIGNED
  else if negb (is_known as_of) then Some INVALID_TIME
  else match order (op_as_of opp) as_of with After => Some FUTURE_LEAKAGE | _ => None end.

(** The gates refuse an unsigned profile, an unknown decision time and an
    opportunity dated after it, and decide nothing then; otherwise (with a
    hash of the inputs) only an arithmetic overflow keeps them from a
    verdict, and the verdict is dated at the decision. *)
Theorem gates_refuse hash show_time opp cited p as_of :
  (∀ o q c, hash o q ≠ Err c) →
  match gates_refusal opp p as_of, gates hash show_time opp cited p as_of with
  | Some c, r => r = Err c
  | None, Ok v => gv_as_of v = as_of
  | None, Err c => c = OVERFLOW
  end.
Proof.
  intros Hh. unfold gates_refusal, gates. destruct (is_signed p); [|done].
  destruct (is_known as_of); [|done]. cbn [negb].
  assert (Hr : match (sc ← scenarios hash opp p; out ← run_gates show_time opp cited p as_of sc;
                      Ok (finish out as_of sc)) with
               | Ok v => gv_as_of v = as_of | Err c => c = OVERFLOW end).
  { destruct (_ ≫= _) as [v|c] eqn:E.
    - apply bind_ok in E as (sc & _ & E). apply bind_ok in E as (out & _ & E).
      apply ok_inj in E as <-. unfold finish. by destruct (settle out).
    - revert E. apply (overflow_bind (scenarios hash opp p)).
      + apply overflow_scenarios. intros c' E. by destruct (Hh _ _ _ E).
      + intros sc _. apply overflow_bind; [apply overflow_run_gates|]. intros. apply overflow_ok. }
  destruct (order (op_as_of opp) as_of); first [exact Hr|reflexivity].
Qed.

Lemma gates_refuse_witness :
  (∀ o q c, Sample.hash o q ≠ Err c)
  ∧ gates Sample.hash Sample.show_time Sample.saas Sample.cited Sample.profile TimeUnknown
    = Err INVALID_TIME.
Proof.
  split; [discriminate|].
  exact (gates_refuse Sample.hash Sample.show_time Sample.saas Sample.cited Sample.profile
           TimeUnknown ltac:(discriminate)).
Defined.

(** A Critic's holds never lift anything: on a verdict of the gates they
    keep every failure, a [REJECT] stays one and nothing becomes one, and the
    result passes only when the verdict passed and no hold was added. *)
Theorem with_holds_never_lifts hash show_time opp cited p as_of v hs :
  gates hash show_time opp cited p as_of = Ok v →
  let v' := with_holds v hs in
  gv_failures v ⊆ gv_failures v'
  ∧ (gv_verdict v' = VReject ↔ gv_verdict v = VReject)
  ∧ (gv_verdict v' = VPass ↔ gv_verdict v = VPass ∧ hs = [])
  ∧ gv_as_of v' = gv_as_of v ∧ gv_inputs_sha256 v' = gv_inputs_sha256 v.
Proof.
  intros (_ & _ & _ & sc & out & Hs & Ho & ->)%gates_inv. cbn zeta.
  pose proof (finish_nodup out as_of sc) as Hn. set (v := finish out as_of sc) in *.
  assert (Hv : gv_verdict v = VReject ↔ rejects (gv_failures v)).
  { unfold v. rewrite finish_verdict, finish_failures. apply settle_reject_kept. }
  assert (Hv' : gv_verdict (with_holds v hs) = VReject ↔ rejects (gv_failures (with_holds v hs))).
  { destruct (with_holds_eq v hs) as [-> ->]. apply settle_reject_kept. }
  assert (Hp : gv_verdict v = VPass ↔ gv_failures v = []).
  { unfold v. by rewrite finish_verdict, finish_failures, settle_pass, settle_nil. }
  split_and!.
  - intros f Hf. by apply with_holds_keeps.
  - rewrite Hv, Hv'. split; [apply with_holds_rejects|].
    intros (f & Hf & H). exists f. split; [by apply with_holds_keeps|done].
  - rewrite Hp. destruct (with_holds_eq v hs) as [_ ->]. rewrite settle_pass, app_nil_iff.
    destruct hs; simpl; [done|]. split; by intros [_ ?].
  - unfold with_holds. by destruct (settle _).
  - unfold with_holds. by destruct (settle _).
Qed.

Lemma with_holds_never_lifts_witness :
  ∃ v, gates Sample.hash Sample.show_time Sample.saas Sample.cited Sample.profile Sample.now = Ok v
  ∧ let h := mkFailure DiligenceOpen VReject None "the seller is anonymous" in
    gv_verdict v = VPass
    ∧ (gv_verdict (with_holds v [h]) = VPass ↔ gv_verdict v = VPass ∧ [h] = []).
Proof.
  eexists. split; [vm_compute; reflexivity|]. cbn zeta. split; [reflexivity|].
  refine (proj1 (proj2 (proj2 (with_holds_never_lifts Sample.hash Sample.show_time Sample.saas
    Sample.cited Sample.profile Sample.now _ _ _)))).
  vm_compute. reflexivity.
Defined.

(** The failures of a verdict are sorted (rejections first, then by code
    and field), one per code and field, and lose nothing: every gate that
    failed is listed with its outcome. *)
Theorem failures_are_canonical hash show_time opp cited p as_of v :
  gates hash show_time opp cited p as_of = Ok v →
  sorted_by failure_cmp (gv_failures v)
  ∧ NoDup (map failure_key (gv_failures v))
  ∧ ∃ sc out, scenarios hash opp p = Ok sc
    ∧ run_gates show_time opp cited p as_of sc = Ok out
    ∧ gv_failures v ⊆ out
    ∧ ∀ f, f ∈ out → ∃ g, g ∈ gv_failures v ∧ failure_key g = failure_key f
                          ∧ gf_outcome g = gf_outcome f.
Proof.
  intros (_ & _ & _ & sc & out & Hs & Ho & ->)%gates_inv. rewrite finish_failures.
  split; [apply settle_sorted|]. split; [apply settle_nodup|]. exists sc, out.
  split_and!; [done|done| |].
  - intros f Hf. by eapply first_of_incl, elem_of_settle.
  - intros f Hf. destruct (first_of_key failure_key [] out f Hf) as (g & Hg & E);
      [apply not_elem_of_nil|]. exists g. split_and!; [by apply elem_of_settle|done|].
    eapply (run_consistent show_time opp cited p as_of sc out Ho); [|done|done].
    by eapply first_of_incl.
Qed.

Lemma failures_are_canonical_witness :
  ∃ v, gates Sample.hash Sample.show_time Sample.gig Sample.cited tight Sample.now = Ok v
  ∧ sorted_by failure_cmp (gv_failures v) ∧ NoDup (map failure_key (gv_failures v)).
Proof.
  eexists. split; [vm_compute; reflexivity|].
  destruct (failures_are_canonical Sample.hash Sample.show_time Sample.gig Sample.cited tight
              Sample.now _ ltac:(vm_compute; reflexivity)) as (H1 & H2 & _).
  split; [exact H1|exact H2].
Defined.
