(* ===== verification/SoeRankProps.v ===== *)
(** * Facts and properties of the SOE ranking *)

From Stdlib Require Import Ascii String.
From S2P Require Import Prelude.
From S2P Require Import Text.
From S2P Require Import Lineage.
From S2P Require Import SoeValue.
From S2P Require Import SoeRecord.
From S2P Require Import SoePortfolio.
From S2P Require Import SoeEconomics.
From S2P Require Import SoeEconomicsFacts.
From S2P Require Import SoeGates.
From S2P Require Import SoeGatesFacts.
From S2P Require Import SoeSamples.
From S2P Require Import SoeRank.

#[local] Open Scope list_scope.
#[local] Open Scope Z_scope.

(** ** The order *)

(** [cmp_values] compares a rank: the magnitude signed by the direction,
    unknown after everything. *)
Lemma cmp_values_pre better : PreCmp (λ a b, cmp_values a b better).
Proof.
  split; unfold cmp_values.
  - intros x y. destruct (magnitude x), (magnitude y), better; simpl; try done; apply cmp_flip.
  - intros x y z. destruct (magnitude x), (magnitude y), (magnitude z), better; simpl; try done.
    + intros H1 H2. by eapply (cmp_trans (c := Z.compare)).
    + apply (cmp_trans (c := Z.compare)).
Qed.

#[export] Instance compare_keys_pre order : PreCmp (compare_keys order).
Proof.
  induction order as [|k order IH]; [by split|].
  pose proof (cmp_values_pre (rank_key_better k)) as Hv.
  assert (E : ∀ a b, compare_keys (k :: order) a b
    = cmp_then (cmp_values (as_keys a k) (as_keys b k) (rank_key_better k)) (compare_keys order a b)).
  { intros a b. simpl. by destruct (cmp_values _ _ _). }
  pose proof (cmp_then_pre (cmp_on (λ a, as_keys a k) (λ u v, cmp_values u v (rank_key_better k)))
                (compare_keys order) (cmp_on_pre _ _) IH) as [F T]. unfold cmp_on in *.
  split.
  - intros x y. rewrite !E. apply F.
  - intros x y z. rewrite !E. apply T.
Qed.

#[export] Instance compare_ids_pre : PreCmp compare_ids.
Proof.
  apply (cmp_then_pre (cmp_on as_id str_cmp)
           (λ a b, cmp_then (cmp_on as_version Z.compare a b) (cmp_on as_inputs_sha256 str_cmp a b)));
    [apply _|]. apply cmp_then_pre; apply _.
Qed.

#[export] Instance compare_pre order : PreCmp (compare order).
Proof. apply cmp_then_pre; apply _. Qed.

Lemma cmp_then_eq a b : cmp_then a b = Eq ↔ a = Eq ∧ b = Eq.
Proof. destruct a; simpl; split; try done; by intros []. Qed.

Lemma compare_eq order a b :
  compare order a b = Eq →
  as_id a = as_id b ∧ as_version a = as_version b ∧ as_inputs_sha256 a = as_inputs_sha256 b.
Proof.
  unfold compare, compare_ids. rewrite !cmp_then_eq. intros (_ & H1 & H2 & H3).
  split_and!; by apply (cmp_eq (c := _)).
Qed.

Lemma compare_keys_first l1 k l2 a b :
  Forall (λ j, cmp_values (as_keys a j) (as_keys b j) (rank_key_better j) = Eq) l1 →
  cmp_values (as_keys a k) (as_keys b k) (rank_key_better k) ≠ Eq →
  compare_keys (l1 ++ k :: l2) a b = cmp_values (as_keys a k) (as_keys b k) (rank_key_better k).
Proof.
  intros Hl Hk. induction Hl as [|j l1 Hj Hl IH]; simpl.
  - by destruct (cmp_values _ _ _).
  - by rewrite Hj.
Qed.

(** What identifies a candidate of a week. *)
Definition identity (a : Assessment) : string * Z * string :=
  (as_id a, as_version a, as_inputs_sha256 a).

(** Ranking is canonical: it lists exactly the passing candidates, each
    once, in the profile's order, and two lists of the same candidates in
    any order rank the same (identified by id, version and inputs). *)
Theorem rank_is_canonical all1 all2 order :
  (∀ a b, a ∈ all1 → b ∈ all1 → identity a = identity b → a = b) →
  all1 ≡ₚ all2 →
  rank all1 order = rank all2 order
  ∧ rank all1 order ≡ₚ List.filter passes all1
  ∧ sorted_by (compare order) (rank all1 order).
Proof.
  intros Hid Hp. unfold rank. split_and!.
  - apply sort_by_canonical; [apply _| |].
    + intros x y [Hx _]%filter_elem [Hy _]%filter_elem (H1 & H2 & H3)%compare_eq.
      apply Hid; [done|done|]. unfold identity. congruence.
    + clear Hid. induction Hp; simpl; try done; repeat case_match; try done.
      * by rewrite IHHp.
      * apply Permutation_swap.
      * by rewrite IHHp1.
  - apply sort_by_perm.
  - apply sort_by_sorted, _.
Qed.

(** An unknown value never outranks a known one: on the first key of the
    profile's order where two candidates differ, the one with a known value
    ranks first when the other's is unknown, and otherwise the better value
    does, in the key's direction. *)
Theorem rank_decides_on_the_first_key order l1 k l2 a b :
  order = l1 ++ k :: l2 →
  Forall (λ j, cmp_values (as_keys a j) (as_keys b j) (rank_key_better j) = Eq) l1 →
  match magnitude (as_keys a k), magnitude (as_keys b k) with
  | Some _, None => compare order a b = Lt
  | None, Some _ => compare order a b = Gt
  | Some x, Some y =>
      match rank_key_better k with
      | Higher => (y < x → compare order a b = Lt) ∧ (x < y → compare order a b = Gt)
      | Lower => (x < y → compare order a b = Lt) ∧ (y < x → compare order a b = Gt)
      end
  | None, None => True
  end.
Proof.
  intros -> Hl. unfold compare.
  assert (F : ∀ c, c ≠ Eq → cmp_values (as_keys a k) (as_keys b k) (rank_key_better k) = c →
    cmp_then (compare_keys (l1 ++ k :: l2) a b) (compare_ids a b) = c).
  { intros c Hc E. rewrite compare_keys_first by congruence. rewrite E. by destruct c. }
  destruct (magnitude (as_keys a k)) as [x|] eqn:Ex, (magnitude (as_keys b k)) as [y|] eqn:Ey; try done.
  2,3: apply F; [done|]; unfold cmp_values; by rewrite Ex, Ey.
  destruct (rank_key_better k) eqn:Eb; split; intros Hxy; apply F; try done;
    unfold cmp_values; rewrite Ex, Ey; by (apply Z.compare_lt_iff || apply Z.compare_gt_iff).
Qed.

(** The explanation is the order's own reason: the named key is the first
    of the profile's order on which the two differ, the named first is the
    one that ranks first, and its value on that key is the better one (or
    the other's is unknown); with no key named the two are equal on all. *)
Theorem explanation_agrees_with_order a b order :
  let (first, second) := match compare order a b with Gt => (b, a) | _ => (a, b) end in
  let r := explain_order a b order in
  rs_first r = as_id first ∧ rs_second r = as_id second ∧ compare order first second ≠ Gt
  ∧ match rs_key r with
    | None => Forall (λ k, cmp_values (as_keys first k) (as_keys second k) (rank_key_better k) = Eq) order
    | Some k => ∃ l1 l2, order = l1 ++ k :: l2
        ∧ Forall (λ j, cmp_values (as_keys first j) (as_keys second j) (rank_key_better j) = Eq) l1
        ∧ cmp_values (as_keys first k) (as_keys second k) (rank_key_better k) = Lt
        ∧ rs_first_value r = show_key (as_keys first k)
        ∧ rs_second_value r = show_key (as_keys second k)
    end.
Proof.
  destruct (match compare order a b with Gt => (b, a) | _ => (a, b) end) as [f s] eqn:E.
  assert (Hne : compare order f s ≠ Gt).
  { destruct (compare order a b) eqn:C; simplify_eq; try congruence.
    rewrite (cmp_flip (c := compare order)), C. done. }
  cbn zeta. unfold explain_order. rewrite E.
  assert (Hf : ∀ l, match deciding_key f s l with
    | None => Forall (λ k, cmp_values (as_keys f k) (as_keys s k) (rank_key_better k) = Eq) l
    | Some k => ∃ l1 l2, l = l1 ++ k :: l2
        ∧ Forall (λ j, cmp_values (as_keys f j) (as_keys s j) (rank_key_better j) = Eq) l1
        ∧ cmp_values (as_keys f k) (as_keys s k) (rank_key_better k) ≠ Eq
    end).
  { intros l. unfold deciding_key. induction l as [|k l IH]; simpl; [constructor|].
    destruct (bool_decide_reflect (cmp_values (as_keys f k) (as_keys s k) (rank_key_better k) = Eq)); simpl.
    - destruct (List.find _ l).
      + destruct IH as (l1 & l2 & -> & ? & ?). exists (k :: l1), l2. split; [done|]. split; [by constructor|done].
      + by constructor.
    - by exists [], l. }
  specialize (Hf order). destruct (deciding_key f s order) as [k|]; simpl; split_and!; try done.
  destruct Hf as (l1 & l2 & -> & Hl & Hk). exists l1, l2. split_and!; try done.
  unfold compare in Hne. rewrite compare_keys_first in Hne by done.
  by destruct (cmp_values (as_keys f k) (as_keys s k) (rank_key_better k)).
Qed.

(** ** Current versions *)

(** Not dated after the decision. *)
Definition visible (as_of : Time) (o : Opportunity) : Prop := order (op_as_of o) as_of ≠ After.

Definition version_key (o : Opportunity) : string * Z := (op_id o, op_version o).

(** What [current_go] keeps of the opportunities read so far. *)
Definition current_inv (as_of : Time) (read : list Opportunity) (m : gmap string Opportunity) : Prop :=
  ∀ id, match m !! id with
        | Some c => c ∈ read ∧ op_id c = id ∧ visible as_of c
            ∧ ∀ o, o ∈ read → op_id o = id → visible as_of o → op_version o ≤ op_version c
        | None => ∀ o, o ∈ read → op_id o = id → ¬ visible as_of o
        end.

Lemma current_inv_step as_of read m o :
  current_inv as_of read m →
  let newer := match m !! op_id o with None => true | Some c => op_version c <? op_version o end in
  current_inv as_of (read ++ [o])
    (if decide (order (op_as_of o) as_of = After) then m
     else if newer then <[op_id o := o]> m else m).
Proof.
  intros Hi newer id. specialize (Hi id). unfold visible in *.
  destruct (decide (order (op_as_of o) as_of = After)) as [Ha|Ha].
  - destruct (m !! id) as [c|]; [destruct Hi as (Hc & ? & ? & Hm); split_and!; try done|].
    + apply elem_of_app. by left.
    + intros x [Hx| ->%list_elem_of_singleton]%elem_of_app ??; [by apply Hm|done].
    + intros x [Hx| ->%list_elem_of_singleton]%elem_of_app ?; [by apply Hi|]. by intros [].
  - destruct (decide (id = op_id o)) as [->|Hne].
    + destruct newer eqn:En; [rewrite lookup_insert_eq|]; unfold newer in *;
        destruct (m !! op_id o) as [c|] eqn:Em; try done.
      * destruct Hi as (Hc & ? & ? & Hm). split_and!; try done; [apply elem_of_app; right; by left|].
        intros x [Hx| ->%list_elem_of_singleton]%elem_of_app ??; [|done].
        apply Z.ltb_lt in En. assert (op_version x ≤ op_version c) by (by apply Hm). lia.
      * split_and!; try done; [apply elem_of_app; right; by left|].
        intros x [Hx| ->%list_elem_of_singleton]%elem_of_app ??; [|done]. by destruct (Hi x Hx).
      * destruct Hi as (Hc & ? & ? & Hm). split_and!; try done; [apply elem_of_app; by left|].
        intros x [Hx| ->%list_elem_of_singleton]%elem_of_app ??; [by apply Hm|].
        apply Z.ltb_ge in En. lia.
    + assert (El : (if newer then <[op_id o:=o]> m else m) !! id = m !! id)
        by (destruct newer; [by rewrite lookup_insert_ne|done]).
      rewrite El. destruct (m !! id) as [c|]; [destruct Hi as (Hc & ? & ? & Hm); split_and!; try done|].
      * apply elem_of_app. by left.
      * intros x [Hx| ->%list_elem_of_singleton]%elem_of_app ??; [by apply Hm|congruence].
      * intros x [Hx| ->%list_elem_of_singleton]%elem_of_app ?; [by apply Hi|congruence].
Qed.

Lemma current_go_spec as_of opps : ∀ read m,
  current_inv as_of read m →
  match current_go as_of opps (map version_key (reverse read)) m with
  | Ok m' => current_inv as_of (read ++ opps) m'
      ∧ (NoDup (map version_key read) → NoDup (map version_key (read ++ opps)))
  | Err c => c = DUPLICATE ∧ ¬ NoDup (map version_key (read ++ opps))
  end.
Proof.
  induction opps as [|o opps IH]; intros read m Hi; simpl.
  { by rewrite app_nil_r. }
  destruct (decide _) as [Hd|Hd].
  - split; [done|]. intros Hn. rewrite map_app in Hn. apply NoDup_app in Hn as (_ & Hn & _).
    apply (Hn (version_key o)); [|by left].
    change ((op_id o, op_version o)) with (version_key o) in Hd.
    apply list_elem_of_fmap in Hd as (x & -> & Hx). apply list_elem_of_fmap_2.
    by apply elem_of_reverse.
  - pose proof (current_inv_step as_of read m o Hi) as Hs. cbn zeta in Hs.
    specialize (IH (read ++ [o]) _ Hs). rewrite reverse_snoc in IH.
    change (map version_key (o :: reverse read))
      with ((op_id o, op_version o) :: map version_key (reverse read)) in IH.
    rewrite <-app_assoc in IH. simpl in IH.
    assert (Hn : NoDup (map version_key read) → NoDup (map version_key (read ++ [o]))).
    { intros Hn. rewrite map_app. apply NoDup_app. split_and!; [done| |apply NoDup_singleton].
      intros x Hx ->%list_elem_of_singleton. apply Hd. change (op_id o, op_version o) with (version_key o).
      apply list_elem_of_fmap in Hx as (y & Hy & Hr). rewrite Hy. apply list_elem_of_fmap_2.
      by apply elem_of_reverse. }
    destruct (decide (order (op_as_of o) as_of = After)).
    + destruct (current_go _ _ _ _); [|done]. destruct IH as [? IH]. split; [done|auto].
    + destruct (current_go _ _ _ _); [|done]. destruct IH as [? IH]. split; [done|auto].
Qed.

Lemma elem_of_btree_values {A} (m : gmap string A) x : x ∈ btree_values m ↔ ∃ k, m !! k = Some x.
Proof.
  unfold btree_values. rewrite list_elem_of_fmap. setoid_rewrite sort_by_perm.
  split.
  - intros ([k y] & -> & H). exists k. by apply elem_of_map_to_list.
  - intros [k H]. exists (k, x). split; [done|]. by apply elem_of_map_to_list.
Qed.

(** Strictly ascending ids. *)
Definition by_id_sorted (l : list Opportunity) : Prop :=
  StronglySorted (λ a b, str_cmp (op_id a) (op_id b) = Lt) l.

Lemma btree_values_sorted (m : gmap string Opportunity) :
  (∀ k o, m !! k = Some o → op_id o = k) → by_id_sorted (btree_values m).
Proof.
  intros Hk. unfold btree_values, by_id_sorted.
  pose proof (sort_by_sorted (cmp_on fst str_cmp) (map_to_list m)) as Hs.
  pose proof (sort_by_perm (cmp_on fst str_cmp) (map_to_list m)) as Hp.
  assert (Hn : NoDup (map fst (sort_by (cmp_on fst str_cmp) (map_to_list m)))).
  { rewrite (fmap_Permutation fst _ _ Hp). apply NoDup_fst_map_to_list. }
  assert (Hl : ∀ p, p ∈ sort_by (cmp_on fst str_cmp) (map_to_list m) → op_id p.2 = p.1).
  { intros [k o]. rewrite Hp, elem_of_map_to_list. apply Hk. }
  unfold sorted_by in Hs. clear Hp.
  induction Hs as [|[k o] l Hs IH Hx]; simpl in *; [constructor|].
  apply NoDup_cons in Hn as [Hn Hn']. constructor.
  - apply IH; [done|]. intros p Hp. apply Hl. by right.
  - apply Forall_fmap. apply Forall_forall. intros [k' o'] Hin. simpl.
    rewrite Forall_forall in Hx. specialize (Hx _ Hin). unfold cmp_on in Hx. simpl in Hx.
    pose proof (Hl (k, o) ltac:(by left)) as E1. pose proof (Hl (k', o') ltac:(by right)) as E2.
    simpl in *. rewrite E1, E2. destruct (str_cmp k k') eqn:Ec; [|done|done].
    apply (cmp_eq (c := str_cmp)) in Ec as ->. destruct Hn. by apply (list_elem_of_fmap_2 fst _ (k', o')).
Qed.

(** One current version per opportunity: the result has, in id order,
    exactly one version of each opportunity visible at the decision, its
    highest; a version dated after the decision is never used; a repeated
    (id, version) is refused, and nothing else is. *)
Theorem current_versions_spec opps as_of :
  match current_versions opps as_of with
  | Ok l =>
      NoDup (map version_key opps) ∧ by_id_sorted l
      ∧ (∀ o, o ∈ l ↔ o ∈ opps ∧ visible as_of o
           ∧ (∀ o', o' ∈ opps → op_id o' = op_id o → visible as_of o' → op_version o' ≤ op_version o))
  | Err c => c = DUPLICATE ∧ ¬ NoDup (map version_key opps)
  end.
Proof.
  unfold current_versions.
  assert (H0 : current_inv as_of [] ∅).
  { intros id. rewrite lookup_empty. intros o Ho. by apply elem_of_nil in Ho. }
  pose proof (current_go_spec as_of opps [] ∅ H0) as H. simpl in H.
  destruct (current_go as_of opps [] ∅) as [m|c]; simpl; [|done].
  destruct H as [Hi Hn]. specialize (Hn ltac:(constructor)). split; [done|]. split.
  - apply btree_values_sorted. intros k o E. specialize (Hi k). rewrite E in Hi. tauto.
  - intros o. rewrite elem_of_btree_values. split.
    + intros [k E]. specialize (Hi k). rewrite E in Hi. destruct Hi as (? & <- & ? & Hm). auto.
    + intros (Ho & Hv & Hm). exists (op_id o). specialize (Hi (op_id o)).
      destruct (m !! op_id o) as [c|]; [|by destruct (Hi o Ho)].
      destruct Hi as (Hc & Hid & Hvc & Hmax). f_equal.
      assert (Hver : version_key c = version_key o).
      { unfold version_key. f_equal; [done|]. specialize (Hmax o Ho eq_refl Hv).
        specialize (Hm c Hc Hid Hvc). lia. }
      apply list_elem_of_lookup in Hc as [i Hc]. apply list_elem_of_lookup in Ho as [j Ho].
      assert (i = j) as ->; [|congruence].
      eapply (NoDup_lookup _ _ _ _ Hn); rewrite list_lookup_fmap; [by rewrite Hc|rewrite Ho; simpl; by rewrite Hver].
Qed.

(** ** Sensitivity *)

(** What the module table says a perturbation does to one value: times
    [(10000 + scale) / 10000], rounded against the candidate - hours and churn
    up, conversion and prices down. *)
Definition scaled_value (p : Perturbation) (v : Z) : Z :=
  let num := v * (10000 + pt_scale_bps p) in
  match pt_input p with
  | POwnerHours | PChurn => - (- num / 10000)
  | PConversion | PPrice => num / 10000
  end.
Definition map_est (f : Z → Z) (e : Est Z) : Est Z :=
  match e with Unknown r => Unknown r | Range l b h => Range (f l) (f b) (f h) end.
(** An assumption with its values mapped; its evidence, date and note stay. *)
Definition map_assumption (f : Z → Z) (a : Assumption Z) : Assumption Z :=
  mkAssumption (map_est f (value a)) (evidence a) (as_of a) (note a).
(** ... to one input: shares are held to 0..=10000. *)
Definition rescaled (p : Perturbation) (i : Input) : Input :=
  match i with
  | Count a => Count (map_assumption (scaled_value p) a)
  | Share a => Share (map_assumption (λ v, Z.max 0 (Z.min 10000 (scaled_value p v))) a)
  | Amount a => Amount (map_assumption (scaled_value p) a)
  end.
(** The inputs a perturbation is about, per revenue model. *)
Definition scaled_fields (m : RevenueModel) (i : PerturbInput) : list string :=
  match i, m with
  | POwnerHours, OneOff _ _ _ _ _ => ["economics.owner_hours_per_month"; "economics.revenue.owner_hours_total"]
  | POwnerHours, _ => ["economics.owner_hours_per_month"]
  | PConversion, Recurring _ _ _ _ _ => ["economics.revenue.conversion"]
  | PConversion, OneOff _ _ _ _ _ => ["economics.revenue.win_probability"]
  | PChurn, Recurring _ _ _ _ _ | PChurn, Acquisition _ _ _ => ["economics.revenue.churn_per_month"]
  | PPrice, Recurring _ _ _ _ _ => ["economics.revenue.price_per_month"]
  | PPrice, OneOff _ _ _ _ _ => ["economics.revenue.contract_value"]
  | PPrice, RevenueShare _ _ _ => ["economics.revenue.share"]
  | _, _ => []
  end%string.
Definition named (fs : list string) (f : string) : bool := existsb (String.eqb f) fs.

Section scaled.
Context (p : Perturbation) (enough : - BPS_FULL ≤ pt_scale_bps p) (is_i32 : pt_scale_bps p ≤ 2 ^ 31 - 1).

Lemma scaled_value_mono v w : v ≤ w → scaled_value p v ≤ scaled_value p w.
Proof using enough.
intros H. unfold scaled_value, BPS_FULL in *. cbv zeta.
destruct (pt_input p); [apply Z.opp_le_mono; rewrite !Z.opp_involutive| |apply Z.opp_le_mono; rewrite !Z.opp_involutive|];
  apply Z.div_le_mono; nia.
Qed.
Lemma scaled_value_nonneg v : 0 ≤ v → 0 ≤ scaled_value p v.
Proof using enough.
intros H. apply scaled_value_mono in H. etransitivity; [|exact H]. unfold scaled_value. by destruct (pt_input p).
Qed.
Lemma scaled_value_zero v : pt_scale_bps p = 0 → scaled_value p v = v.
Proof using.
intros E. unfold scaled_value. rewrite E, Z.add_0_r. cbv zeta. rewrite <- Z.mul_opp_l, !Z.div_mul by done.
destruct (pt_input p); lia.
Qed.

Lemma scale_exact v : i64_min ≤ v ≤ i64_max → scale v p = Ok (scaled_value p v).
Proof using enough is_i32.
intros Hv. unfold scale, mul, scaled_value. change FULL with 10000. unfold BPS_FULL in enough.
assert (try_i128 (v * (10000 + pt_scale_bps p)) = Some (v * (10000 + pt_scale_bps p))) as ->.
{ apply try_range_some. split; [done|]. unfold i64_min, i64_max in Hv. unfold i128_min, i128_max. nia. }
cbn [ok_or mbind result_bind]. rewrite div_floor_eq, div_ceil_eq by done. by destruct (pt_input p).
Qed.

(** Scaling the values of an input with [f], which answers [g] where that fits
    the input's type and overflows where it does not. *)
Lemma scale_est_exact a f g lo hi :
typed_est lo hi (value a) →
(∀ x y, x ≤ y → g x ≤ g y) →
(∀ x, lo ≤ x ≤ hi → f x = if in_range lo hi (g x) then Ok (g x) else Err OVERFLOW) →
match scale_est a f with
| Ok a' => a' = map_assumption g a ∧ typed_est lo hi (value a')
| Err c => c = OVERFLOW ∧ ¬ typed_est lo hi (value (map_assumption g a))
end.
Proof using.
intros Ht Hm Hf. unfold scale_est, map_assumption. destruct a as [[r|l b h] ev ao no]; cbn [value] in *; [done|].
destruct Ht as [[? ?] (? & ? & ?)]. cbn [map_est value].
assert (g l ≤ g b ∧ g b ≤ g h) as [Hlb Hbh] by (split; by apply Hm).
assert (∀ x, in_range lo hi (g x) = false → (x = l ∨ x = b ∨ x = h) → ¬ typed_est lo hi (Range (g l) (g b) (g h))) as Hbad.
{ intros x Hx Hc [_ (V1 & V2 & V3)]. apply not_true_iff_false in Hx. apply Hx, in_range_spec. by destruct Hc as [->|[->| ->]]. }
rewrite (Hf l) by lia. destruct (in_range lo hi (g l)) eqn:El; [|split; [done|by apply (Hbad l); auto]]. cbn [mbind result_bind].
rewrite (Hf b) by lia. destruct (in_range lo hi (g b)) eqn:Eb; [|split; [done|by apply (Hbad b); auto]]. cbn [mbind result_bind].
rewrite (Hf h) by lia. destruct (in_range lo hi (g h)) eqn:Eh; [|split; [done|by apply (Hbad h); auto]]. cbn [mbind result_bind].
apply in_range_spec in El, Eb, Eh.
assert (est_range (λ x y, Some (Z.compare x y)) (g l) (g b) (g h) = Ok (Range (g l) (g b) (g h))) as ->.
{ unfold est_range. destruct (Z.compare_spec (g l) (g b)), (Z.compare_spec (g b) (g h)); try lia; done. }
split; [done|]. split; [done|]. cbn [est_all value]. lia.
Qed.

Lemma try_exact lo hi y : ok_or (try_range lo hi y) OVERFLOW = if in_range lo hi y then Ok y else Err OVERFLOW.
Proof using. unfold try_range. by destruct (in_range lo hi y). Qed.
Lemma bps_clamped y : bps_new (Z.max 0 (Z.min FULL y))
  = if in_range 0 BPS_FULL (Z.max 0 (Z.min 10000 y)) then Ok (Z.max 0 (Z.min 10000 y)) else Err OVERFLOW.
Proof using.
change FULL with 10000. unfold bps_new, try_u16. set (z := Z.max 0 (Z.min 10000 y)). assert (0 ≤ z ≤ 10000) by (subst z; lia).
assert (try_range 0 u16_max z = Some z) as -> by (apply try_range_some; ilia).
rewrite (proj2 (in_range_spec 0 BPS_FULL z)) by (unfold BPS_FULL; lia). by rewrite (proj2 (Z.leb_le z BPS_FULL)) by (unfold BPS_FULL; lia).
Qed.

(** One input scaled is the table's input, and an input of its type; the only
    refusal is a value that leaves the type. *)
Definition scales_to (i : Input) (r : R Input) : Prop :=
match r with
| Ok i' => i' = rescaled p i ∧ typed_input i' ∧ (pt_scale_bps p = 0 → i' = i)
| Err c => c = OVERFLOW ∧ ¬ typed_input (rescaled p i)
end.

Lemma map_assumption_id g lo hi a : typed_est lo hi (value a) → (∀ x, lo ≤ x ≤ hi → g x = x) → map_assumption g a = a.
Proof using.
intros [_ Ht] Hg. destruct a as [[r|l b h] ev ao no]; [done|]. destruct Ht as (H1 & H2 & H3). unfold map_assumption. cbn.
by rewrite !Hg.
Qed.

Lemma scale_count_exact a : typed_input (Count a) → scales_to (Count a) (Count <$> scale_count a p).
Proof using enough is_i32.
intros Ht. cbn in Ht.
pose proof (scale_est_exact a (λ n, x ← scale n p; ok_or (try_u32 x) OVERFLOW) (scaled_value p) 0 u32_max Ht scaled_value_mono) as H.
unfold scale_count. destruct (scale_est _ _) as [a'|c]; cbn.
- destruct H as [-> H]; [intros x Hx; rewrite scale_exact by ilia; apply try_exact|]. split; [done|]. split; [done|].
  intros E. f_equal. apply (map_assumption_id _ _ _ _ Ht). intros. by apply scaled_value_zero.
- apply H. intros x Hx. rewrite scale_exact by ilia. apply try_exact.
Qed.
Lemma scale_amount_exact a : typed_input (Amount a) → scales_to (Amount a) (Amount <$> scale_amount a p).
Proof using enough is_i32.
intros Ht. cbn in Ht.
pose proof (scale_est_exact a (λ n, x ← scale n p; ok_or (try_i64 x) OVERFLOW) (scaled_value p) i64_min i64_max Ht scaled_value_mono) as H.
unfold scale_amount. destruct (scale_est _ _) as [a'|c]; cbn.
- destruct H as [-> H]; [intros x Hx; rewrite scale_exact by ilia; apply try_exact|]. split; [done|]. split; [done|].
  intros E. f_equal. apply (map_assumption_id _ _ _ _ Ht). intros. by apply scaled_value_zero.
- apply H. intros x Hx. rewrite scale_exact by ilia. apply try_exact.
Qed.
Lemma scale_share_exact a : typed_input (Share a) → scales_to (Share a) (Share <$> scale_share a p).
Proof using enough is_i32.
intros Ht. cbn in Ht. set (g := λ v, Z.max 0 (Z.min 10000 (scaled_value p v))).
assert (∀ x y, x ≤ y → g x ≤ g y) as Hg by (intros x y Hxy%scaled_value_mono; subst g; cbn; lia).
pose proof (scale_est_exact a (λ b, x ← scale b p; bps_new (Z.max 0 (Z.min FULL x))) g 0 BPS_FULL Ht Hg) as H.
assert (∀ x, 0 ≤ x ≤ BPS_FULL → (y ← scale x p; bps_new (Z.max 0 (Z.min FULL y)))
  = if in_range 0 BPS_FULL (g x) then Ok (g x) else Err OVERFLOW) as Hf.
{ intros x Hx. rewrite scale_exact by (unfold BPS_FULL in Hx; ilia). apply bps_clamped. }
unfold scale_share. destruct (scale_est _ _) as [a'|c]; cbn.
- destruct (H Hf) as [-> Ht']. split; [done|]. split; [done|].
  intros E. f_equal. apply (map_assumption_id _ _ _ _ Ht). intros x Hx. subst g. cbn. rewrite scaled_value_zero by done. unfold BPS_FULL in Hx. lia.
- exact (H Hf).
Qed.
End scaled.

(** What an opportunity is besides its inputs. *)
Definition same_besides_inputs (o o' : Opportunity) : Prop :=
  o' = set_economics o (op_economics o')
  ∧ e_currency (op_economics o') = e_currency (op_economics o) ∧ e_fx (op_economics o') = e_fx (op_economics o)
  ∧ e_revenue_quality (op_economics o') = e_revenue_quality (op_economics o)
  ∧ e_tax_review (op_economics o') = e_tax_review (op_economics o).

(** One scaled input: what it became, or the overflow of the field. *)
Ltac scaled_case F L :=
  let H := fresh "H" in let E := fresh "E" in let T := fresh "T" in let Z0 := fresh "Z" in
  pose proof L as H;
  match type of H with
  | scales_to _ _ (_ <$> ?r) =>
      destruct r as [?|?]; cbn in H;
      [ destruct H as (E & T & Z0); injection E as ->
      | right; destruct H as [-> H]; split; [reflexivity|]; split; [assumption|];
        exists F; eexists; split; [cbn; rewrite ?elem_of_cons; tauto|split; [reflexivity|exact H]] ]
  end.

(** The perturbed opportunity, once its inputs are scaled. *)
Ltac scaled_done :=
  cbn; split; [assumption|]; split; [reflexivity|]; split; [reflexivity|]; split; [done|];
  split; [split; [unfold inputs; cbn; rewrite ?Forall_cons; cbn in *; tauto|assumption]|];
  let Hz := fresh in intros Hz;
  repeat match goal with Q : _ = 0 → _ = _ |- _ => specialize (Q Hz); injection Q as Q end;
  repeat match goal with Q : map_assumption _ ?a = ?a |- _ => rewrite Q; clear Q end; reflexivity.

(** C40. Perturbing an opportunity does what the module table says: the fields
    it reports are those its revenue model has for the input; each of them is
    scaled by [(10000 + scale) / 10000], rounded against the candidate and, a
    share, held to 0..=10000, with its evidence, date and note kept; every
    other input and everything else of the opportunity - currency, rate,
    revenue quality, tax review - is as it was; the result is well-formed and a
    scale of 0 changes nothing. It is refused exactly below -100%, and when a
    scaled value does not fit its type. *)
Theorem perturb_scales_its_inputs_only opp p :
  let e := op_economics opp in let fs := scaled_fields (e_revenue e) (pt_input p) in
  typed_inputs e → pt_scale_bps p ≤ 2 ^ 31 - 1 →
  match perturb opp p with
  | Ok (o, reported) =>
      - BPS_FULL ≤ pt_scale_bps p ∧ reported = fs
      ∧ inputs (op_economics o) = map (λ '(f, i), (f, if named fs f then rescaled p i else i)) (inputs e)
      ∧ same_besides_inputs opp o ∧ typed_inputs (op_economics o) ∧ (pt_scale_bps p = 0 → o = opp)
  | Err c => (c = INVALID_FIELD ∧ pt_scale_bps p < - BPS_FULL)
      ∨ (c = OVERFLOW ∧ - BPS_FULL ≤ pt_scale_bps p
         ∧ ∃ f i, f ∈ fs ∧ input e f = Some i ∧ ¬ typed_input (rescaled p i))
  end.
Proof.
  intros e fs Ht Hi32. unfold perturb. destruct (Z.ltb_spec (pt_scale_bps p) (- BPS_FULL)) as [|Hs]; [by left|].
  subst e fs. destruct Ht as [Hi Hfx].
  destruct opp as [sc id ver ao cu pa me al re si ju e ri ex de ord]; cbn [op_economics] in *.
  destruct e as [cur fx rev vc fc oh rm ini rq tr]; cbn [e_fx e_revenue e_owner_hours_per_month] in *.
  destruct rev as [a1 a2 a3 a4 a5|a1 a2 a3 a4 a5|a1 a2 a3|a1 a2 a3];
    unfold inputs in Hi; cbn in Hi; rewrite ?Forall_cons in Hi; cbn in Hi;
    destruct (pt_input p) eqn:Ep; try (scaled_done; fail).
  - scaled_case "economics.owner_hours_per_month"%string (scale_count_exact p Hs Hi32 oh ltac:(cbn; tauto)). scaled_done.
  - scaled_case "economics.revenue.conversion"%string (scale_share_exact p Hs Hi32 a2 ltac:(cbn; tauto)). scaled_done.
  - scaled_case "economics.revenue.churn_per_month"%string (scale_share_exact p Hs Hi32 a3 ltac:(cbn; tauto)). scaled_done.
  - scaled_case "economics.revenue.price_per_month"%string (scale_amount_exact p Hs Hi32 a4 ltac:(cbn; tauto)). scaled_done.
  - scaled_case "economics.owner_hours_per_month"%string (scale_count_exact p Hs Hi32 oh ltac:(cbn; tauto)).
    scaled_case "economics.revenue.owner_hours_total"%string (scale_count_exact p Hs Hi32 a4 ltac:(cbn; tauto)). scaled_done.
  - scaled_case "economics.revenue.win_probability"%string (scale_share_exact p Hs Hi32 a2 ltac:(cbn; tauto)). scaled_done.
  - scaled_case "economics.revenue.contract_value"%string (scale_amount_exact p Hs Hi32 a1 ltac:(cbn; tauto)). scaled_done.
  - scaled_case "economics.owner_hours_per_month"%string (scale_count_exact p Hs Hi32 oh ltac:(cbn; tauto)). scaled_done.
  - scaled_case "economics.revenue.churn_per_month"%string (scale_share_exact p Hs Hi32 a2 ltac:(cbn; tauto)). scaled_done.
  - scaled_case "economics.owner_hours_per_month"%string (scale_count_exact p Hs Hi32 oh ltac:(cbn; tauto)). scaled_done.
  - scaled_case "economics.revenue.share"%string (scale_share_exact p Hs Hi32 a2 ltac:(cbn; tauto)). scaled_done.
Qed.

(** ** Witnesses *)

(** Three assessed candidates that pass, by their time-adjusted base. *)
Definition flat (s : Scenario) (v : Z) : ScenarioMetrics :=
  mkScenarioMetrics s (Known v) (Known v) (Known 1) (Known 0) (Known v) (Known 0) (Known (Months 0))
    (Known (Months 0)) None.

Definition candidate (id : string) (base : KeyValue) : Assessment :=
  mkAssessment id 1 (mkVerdict VPass Sample.now 1 "h" [])
    (mkScenarios 1 "h" Eur Eur PreTax 12 (flat Downside 1) (flat Base 1) (flat Upside 1) (Lacks []))
    (mkFit FProven []) (λ k, match k with TimeAdjustedBase => base | _ => KTier TMedium end) "h".

Definition rich : Assessment := candidate "rich" (KMoney (mkMoney 900 Eur)).
Definition poor : Assessment := candidate "poor" (KMoney (mkMoney 100 Eur)).
Definition dark : Assessment := candidate "dark" (KUnknown "needs economics.fx").

Lemma rank_is_canonical_witness :
  rank [dark; poor; rich] [Reversibility; TimeAdjustedBase]
  = rank [poor; rich; dark] [Reversibility; TimeAdjustedBase]
  ∧ rank [dark; poor; rich] [Reversibility; TimeAdjustedBase] = [rich; poor; dark].
Proof.
  split; [|vm_compute; reflexivity].
  refine (proj1 (rank_is_canonical [dark; poor; rich] [poor; rich; dark]
                   [Reversibility; TimeAdjustedBase] _ _)).
  - intros a b Ha Hb.
    repeat (apply elem_of_cons in Ha as [->|Ha]); [..|by apply elem_of_nil in Ha];
      (repeat (apply elem_of_cons in Hb as [->|Hb]); [..|by apply elem_of_nil in Hb]);
      vm_compute; congruence.
  - rewrite (Permutation_cons_append [poor; rich] dark). reflexivity.
Defined.

Lemma rank_decides_witness :
  compare [Reversibility; TimeAdjustedBase] poor dark = Lt.
Proof.
  exact (rank_decides_on_the_first_key [Reversibility; TimeAdjustedBase] [Reversibility]
           TimeAdjustedBase [] poor dark eq_refl ltac:(repeat constructor)).
Defined.

Lemma perturb_scales_its_inputs_only_witness :
  typed_inputs (op_economics Sample.saas)
  ∧ match perturb Sample.saas (mkPerturbation PPrice (-2500)) with
    | Ok (o, reported) => reported = ["economics.revenue.price_per_month"%string]
        ∧ input (op_economics o) "economics.revenue.price_per_month"
          = rescaled (mkPerturbation PPrice (-2500)) <$> input (op_economics Sample.saas) "economics.revenue.price_per_month"
        ∧ same_besides_inputs Sample.saas o
    | Err _ => False
    end.
Proof.
  assert (H : typed_inputs (op_economics Sample.saas)).
  { split; [|exact I]. repeat constructor; vm_compute; intuition congruence. }
  split; [exact H|].
  pose proof (perturb_scales_its_inputs_only Sample.saas (mkPerturbation PPrice (-2500)) H ltac:(cbn; lia)) as P.
  destruct (perturb Sample.saas (mkPerturbation PPrice (-2500))) as [[o fs]|c] eqn:E; [|vm_compute in E; discriminate E].
  destruct P as (_ & Hf & Hin & Hs & _). split; [exact Hf|]. split; [|exact Hs].
  unfold input. rewrite Hin. vm_compute. reflexivity.
Defined.
