(* ===== verification/SoeAllocateProps.v ===== *)
(** * Facts and properties of the SOE allocation *)

From Stdlib Require Import Ascii String.
From S2P Require Import Prelude.
From S2P Require Import Text.
From S2P Require Import Lineage.
From S2P Require Import SoeValue.
From S2P Require Import SoeRecord.
From S2P Require Import SoePortfolio.
From S2P Require Import SoeEconomics.
From S2P Require Import SoeEconomicsFacts.
From S2P Require Import SoeGates.
From S2P Require Import SoeGatesFacts.
From S2P Require Import SoeSamples.
From S2P Require Import SoeRank.
From S2P Require Import SoeAllocate.

#[local] Open Scope list_scope.
#[local] Open Scope Z_scope.

(** ** The repricing search *)
Section search.
Context (hash : Opportunity → OperatorProfile → R string) (show_time : Time → string)
(opp : Opportunity) (cited : list CitedRecord) (p : OperatorProfile) (as_of : Time)
(field : string).
#[local] Notation clears := (clears hash show_time opp cited p as_of field).
#[local] Notation double_go := (double_go hash show_time opp cited p as_of field).
#[local] Notation halve_go := (halve_go hash show_time opp cited p as_of field).
#[local] Notation search := (search hash show_time opp cited p as_of field).

Lemma doubled hi h : Minor.checked_mul hi 2 = Ok h ↔ h = hi * 2 ∧ i64_min ≤ hi * 2 ≤ i64_max.
Proof.
unfold Minor.checked_mul, try_i64. destruct (try_range _ _ _) eqn:E; simpl.
- apply try_range_some in E as [-> ?]. split; [by intros [= <-]|by intros [-> _]].
- apply try_range_none in E. split; [done|tauto].
Qed.

Lemma double_total fuel : ∀ lo hi, 1 ≤ hi ≤ i64_max → i64_max < hi * 2 ^ Z.of_nat fuel →
double_go fuel lo hi ≠ None.
Proof.
induction fuel as [|fuel IH]; intros lo hi Hh Hf.
{ change (2 ^ Z.of_nat 0) with 1 in Hf. lia. }
cbn [SoeAllocate.double_go]. destruct (Minor.checked_mul hi 2) as [h|] eqn:E; [|done].
apply doubled in E as [-> Hb]. destruct (clears (hi * 2)) as [[]|]; try done.
apply IH; [lia|]. rewrite Nat2Z.inj_succ, Z.pow_succ_r in Hf by lia. lia.
Qed.

(** Where the doubling stops: [lo] is where it started or does not clear,
  [hi] clears. *)
Lemma double_found fuel : ∀ lo hi l h, 1 ≤ hi → lo ≤ hi →
double_go fuel lo hi = Some (Ok (Some (l, h))) →
clears h = Ok true ∧ lo ≤ l ∧ l < h ∧ h ≤ i64_max ∧ (l = lo ∨ clears l = Ok false).
Proof.
induction fuel as [|fuel IH]; intros lo hi l h Hh Hl; cbn [SoeAllocate.double_go]; [done|].
destruct (Minor.checked_mul hi 2) as [h'|] eqn:E; [|done].
apply doubled in E as [-> Hb]. destruct (clears (hi * 2)) as [[]|] eqn:Ec; try done.
- intros [= <- <-]. split_and!; try done; [lia|lia|by left].
- intros (? & ? & ? & ? & Hd)%IH; [|lia|lia]. split_and!; try done; [lia|].
  destruct Hd as [->|]; by right.
Qed.

(** The doubling gives up only on an overflow, every price tried failing. *)
Lemma double_none fuel : ∀ lo hi, 1 ≤ hi →
double_go fuel lo hi = Some (Ok None) →
∀ k : nat, (1 ≤ k)%nat → hi * 2 ^ Z.of_nat k ≤ i64_max → clears (hi * 2 ^ Z.of_nat k) = Ok false.
Proof.
induction fuel as [|fuel IH]; intros lo hi Hh; cbn [SoeAllocate.double_go]; [done|].
destruct (Minor.checked_mul hi 2) as [h'|] eqn:E.
- apply doubled in E as [-> Hb]. destruct (clears (hi * 2)) as [[]|] eqn:Ec; try done.
  intros H [|[|k]] Hk Hm; [lia|by change (2 ^ Z.of_nat 1) with 2|].
  specialize (IH (hi * 2) (hi * 2) ltac:(lia) H (S k) ltac:(lia)).
  rewrite (Nat2Z.inj_succ (S k)), Z.pow_succ_r, Z.mul_assoc in * by lia. by apply IH.
- intros _ k Hk Hm. exfalso. unfold Minor.checked_mul, try_i64 in E.
  destruct (try_range _ _ _) eqn:E'; [done|]. apply try_range_none in E'. apply E'.
  destruct k as [|k]; [lia|]. rewrite Nat2Z.inj_succ, Z.pow_succ_r in Hm by lia.
  assert (1 ≤ 2 ^ Z.of_nat k) by (apply (Z.pow_le_mono_r 2 0); lia).
  split; [ilia|nia].
Qed.

Lemma half_bounds lo hi : 1 < hi - lo → lo < lo + Z.quot (hi - lo) 2 < hi
∧ lo + Z.quot (hi - lo) 2 - lo ≤ (hi - lo + 1) / 2 ∧ hi - (lo + Z.quot (hi - lo) 2) ≤ (hi - lo + 1) / 2.
Proof.
intros H. rewrite Z.quot_div_nonneg by lia.
pose proof (Z.div_mod (hi - lo) 2 ltac:(lia)). pose proof (Z.mod_pos_bound (hi - lo) 2 ltac:(lia)).
pose proof (Z.div_mod (hi - lo + 1) 2 ltac:(lia)). pose proof (Z.mod_pos_bound (hi - lo + 1) 2 ltac:(lia)).
lia.
Qed.

Lemma halve_total fuel : ∀ lo hi, hi - lo ≤ 2 ^ Z.of_nat fuel → halve_go fuel lo hi ≠ None.
Proof.
induction fuel as [|fuel IH]; intros lo hi Hf; cbn [SoeAllocate.halve_go];
  destruct (Z.ltb_spec 1 (hi - lo)); try done.
{ change (2 ^ Z.of_nat 0) with 1 in Hf. lia. }
rewrite Nat2Z.inj_succ, Z.pow_succ_r in Hf by lia.
assert ((hi - lo + 1) / 2 < 2 ^ Z.of_nat fuel + 1) by (apply Z.div_lt_upper_bound; lia).
destruct (half_bounds lo hi) as (? & ? & ?); [done|].
destruct (clears _) as [[]|]; try done; apply IH; lia.
Qed.

Lemma halve_found fuel : ∀ lo hi h, lo < hi → clears hi = Ok true →
halve_go fuel lo hi = Some (Ok h) →
clears h = Ok true ∧ lo < h ≤ hi ∧ (h - 1 = lo ∨ clears (h - 1) = Ok false).
Proof.
induction fuel as [|fuel IH]; intros lo hi h Hl Hc; cbn [SoeAllocate.halve_go];
  destruct (Z.ltb_spec 1 (hi - lo)) as [Hg|Hg]; try done.
1,3: intros [= <-]; split_and!; try done; try lia; left; lia.
destruct (half_bounds lo hi Hg) as (? & _ & _). set (mid := lo + Z.quot (hi - lo) 2) in *.
destruct (clears mid) as [[]|] eqn:Em; try done.
- intros (? & ? & Hd)%IH; [|lia|done]. split_and!; try done; lia.
- intros (? & ? & Hd)%IH; [|lia|done]. split_and!; try done; [lia|lia|].
  destruct Hd as [->|]; by right.
Qed.

Lemma search_total base : 0 ≤ base ≤ i64_max →
∃ r, double_go 64 base (if 0 <? base then base else 1) = Some r
∧ ∀ l h, r = Ok (Some (l, h)) → ∃ r', halve_go 64 l h = Some r'.
Proof.
intros Hb. set (hi := if 0 <? base then base else 1).
assert (Hh : 1 ≤ hi ≤ i64_max ∧ base ≤ hi) by (unfold hi; destruct (Z.ltb_spec 0 base); ilia).
destruct (double_go 64 base hi) as [r|] eqn:E.
- exists r. split; [done|]. intros l h ->.
  apply double_found in E as (_ & ? & ? & ? & _); [|lia|lia].
  destruct (halve_go 64 l h) as [r'|] eqn:E'; [eauto|]. exfalso. revert E'.
  apply halve_total. ilia.
- exfalso. revert E. apply double_total; [lia|]. ilia.
Qed.

(** Neither loop runs out of fuel: what [search] returns is the source's. *)
Lemma search_found base h : 0 ≤ base ≤ i64_max →
search base = Ok (Some h) →
clears h = Ok true ∧ base < h ≤ i64_max ∧ (h - 1 = base ∨ clears (h - 1) = Ok false).
Proof.
intros Hb. unfold SoeAllocate.search.
destruct (search_total base Hb) as (r & Hr & Hh). rewrite Hr.
intros H. apply bind_ok in H as ([[l h']|] & -> & H); [|done].
destruct (Hh _ _ eq_refl) as (r' & Hr'). rewrite Hr' in H.
apply bind_ok in H as (h'' & -> & [= ->]).
apply double_found in Hr as (Hc & ? & ? & ? & Hd); [|destruct (Z.ltb_spec 0 base); lia..].
apply halve_found in Hr' as (? & ? & Hd'); [|lia|done]. split_and!; try done; try lia.
destruct Hd' as [E|]; [|by right]. destruct Hd as [->|]; [by left|]. right. by rewrite E.
Qed.

Lemma search_none base : 0 ≤ base ≤ i64_max → search base = Ok None →
∀ k : nat, (1 ≤ k)%nat → Z.max base 1 * 2 ^ Z.of_nat k ≤ i64_max →
  clears (Z.max base 1 * 2 ^ Z.of_nat k) = Ok false.
Proof.
intros Hb. unfold SoeAllocate.search.
destruct (search_total base Hb) as (r & Hr & Hh). rewrite Hr.
replace (if 0 <? base then base else 1) with (Z.max base 1) in Hr
  by (destruct (Z.ltb_spec 0 base); lia).
intros H. apply bind_ok in H as ([[l h']|] & -> & H).
- destruct (Hh _ _ eq_refl) as (r' & Hr'). rewrite Hr' in H. by apply bind_ok in H as (? & ? & ?).
- eapply double_none; [|exact Hr]. lia.
Qed.
End search.

(** The price input of a model, as [input] reads it and [input_mut] writes
    it. *)
Lemma price_input e field i :
  price_field (e_revenue e) = Some field → input e field = Some i →
  ∃ a put, i = Amount a ∧ input_mut e field = Some (AmountMut a put) ∧ put a = e.
Proof.
  intros Hf Hi. destruct e as [cur fx rev vc fc oh rm ini rq tr].
  destruct rev as [a1 a2 a3 a4 a5|a1 a2 a3 a4 a5|a1 a2 a3|a1 a2 a3]; cbn in Hf; try done;
    injection Hf as <-; vm_compute in Hi; injection Hi as <-.
  - exists a4, (λ x, mkEconomicInputs cur fx (Recurring a1 a2 a3 x a5) vc fc oh rm ini rq tr).
    split_and!; [done|vm_compute; reflexivity|reflexivity].
  - exists a1, (λ x, mkEconomicInputs cur fx (OneOff x a2 a3 a4 a5) vc fc oh rm ini rq tr).
    split_and!; [done|vm_compute; reflexivity|reflexivity].
Qed.

(** Setting the base price it has changes nothing. *)
Lemma with_base_price_same opp field a l b h :
  price_field (e_revenue (op_economics opp)) = Some field →
  input (op_economics opp) field = Some (Amount a) → value a = Range l b h → l ≤ b ≤ h →
  with_base_price opp field b = opp.
Proof.
  intros Hf Hi Ha Hb. destruct (price_input _ _ _ Hf Hi) as (a' & put & [= <-] & Hm & Hp).
  unfold with_base_price. rewrite Hm, Ha. rewrite Z.min_l, Z.max_l by lia.
  replace (mkAssumption (Range l b h) (evidence a) (as_of a) (note a)) with a
    by (destruct a; simpl in *; congruence).
  rewrite Hp. by destruct opp.
Qed.

(** The rejections a price can clear. *)
Definition price_fixable (v : GateVerdict) : Prop :=
  gv_verdict v = VReject
  ∧ ∀ f, f ∈ gv_failures v → gf_outcome f = VReject → gf_code f ∈ PRICE_FIXABLE.

Lemma price_fixable_spec v :
  negb (bool_decide (gv_verdict v = VReject))
  || existsb (λ f, bool_decide (gf_outcome f = VReject) && negb (among (gf_code f) PRICE_FIXABLE))
       (gv_failures v) = false ↔ price_fixable v.
Proof.
  unfold price_fixable, among. rewrite orb_false_iff, negb_false_iff, bool_decide_eq_true.
  apply and_iff_compat_l. rewrite <-not_true_iff_false, existsb_exists. split.
  - intros H f Hf Ho. destruct (decide (gf_code f ∈ PRICE_FIXABLE)) as [|Hn]; [done|]. exfalso.
    apply H. exists f. split; [by apply list_elem_of_In|].
    by rewrite bool_decide_true, bool_decide_false.
  - intros H (f & Hf & E). apply list_elem_of_In in Hf. apply andb_prop in E as [E1 E2].
    apply bool_decide_eq_true in E1. apply negb_true_iff, bool_decide_eq_false in E2. by apply E2, H.
Qed.

Lemma min_price_inv hash show_time opp v cited p price :
  min_price hash show_time opp v cited p = Ok (Some price) →
  price_fixable v ∧ ∃ field a base hi,
    price_field (e_revenue (op_economics opp)) = Some field
    ∧ input (op_economics opp) field = Some (Amount a) ∧ est_base (value a) = Some base
    ∧ search hash show_time opp cited p (gv_as_of v) field base = Ok (Some hi)
    ∧ to_currency (op_economics opp) (p_currency p) hi Outflow = Ok (Some price).
Proof.
  unfold min_price. destruct (_ || _) eqn:E; [done|]. apply price_fixable_spec in E.
  destruct (price_field _) as [field|]; [|done].
  destruct (input _ field) as [[a|a|a]|] eqn:Ei; try done.
  destruct (est_base _) as [base|] eqn:Eb; [|done]. intros H.
  apply bind_ok in H as ([hi|] & Hs & H); [|done]. split; [done|]. exists field, a, base, hi. done.
Qed.

(** A repricing is real and tight: it is given only to a verdict whose
    every rejection a price can clear; at the price found the gates, run
    again, no longer reject and the base contribution reaches the target; one
    minor unit below they still fail. The search always ends. *)
Theorem reprice_is_tight hash show_time (opp : Opportunity) v v0 cited p price
    (Ho : validate opp = Ok tt) (Ht : typed_inputs (op_economics opp))
    (Hg : gates hash show_time opp cited p (gv_as_of v) = Ok v0) (Hr : gv_verdict v0 = VReject) :
  min_price hash show_time opp v cited p = Ok (Some price) →
  price_fixable v
  ∧ ∃ field hi, price_field (e_revenue (op_economics opp)) = Some field
    ∧ to_currency (op_economics opp) (p_currency p) hi Outflow = Ok (Some price)
    ∧ clears hash show_time opp cited p (gv_as_of v) field hi = Ok true
    ∧ clears hash show_time opp cited p (gv_as_of v) field (hi - 1) = Ok false.
Proof.
  intros (Hp & field & a & base & hi & Hf & Hi & Hb & Hs & Hc)%min_price_inv. split; [done|].
  exists field, hi. split; [done|]. split; [done|].
  destruct (value a) as [r|l b h] eqn:Ea; [done|]. injection Hb as <-.
  pose proof (nonneg_lookup _ _ _ (validated_amounts opp Ho) Ht Hi) as [Hord Hall].
  rewrite Ea in Hord, Hall. simpl in Hord, Hall.
  apply search_found in Hs as (Hok & ? & Hd); [|lia]. split; [done|].
  destruct Hd as [->|]; [|done]. unfold clears.
  rewrite (with_base_price_same opp field a l b h) by done. rewrite Hg. simpl.
  by rewrite bool_decide_true.
Qed.

(** ** The budget *)

(** The spend is within the profile's budget. *)
Definition within_budget (p : OperatorProfile) (used : Allocation) : Prop :=
  al_owner_hours used ≤ p_weekly_owner_hours p ∧ al_cash used ≤ p_max_validation_tranche p.

(** What one funded candidate takes: its id, cash and hours. *)
Record Spend : Type := mkSpend { s_id : string; s_cash : Minor; s_hours : Z }.

(** [used'] is [used] and the spends, hours capped at [u32::MAX]. *)
Fixpoint spend_all (used : Allocation) (l : list Spend) : Allocation :=
  match l with
  | [] => used
  | s :: l =>
      spend_all (mkAllocation (Z.min (al_owner_hours used + s_hours s) u32_max)
                   (al_cash used + s_cash s)) l
  end.

Lemma spend_all_app used l k : spend_all used (l ++ k) = spend_all (spend_all used l) k.
Proof. revert used. induction l as [|s l IH]; intros used; simpl; [done|apply IH]. Qed.

Lemma take_facts used c p t used' :
  take used c p = Ok (t, used') →
  match t with
  | Ok (name, cash, hours) =>
      stage_cost c p = Ok (Ok (name, cash, hours))
      ∧ used' = spend_all used [mkSpend (as_id (ca_assessment c)) cash hours] ∧ within_budget p used'
  | Err _ => used' = used
  end.
Proof.
  unfold take. intros H. apply bind_ok in H as ([[[name cash] hours]|why] & Hs & H).
  - apply bind_ok in H as (m & Hm & H). unfold Minor.checked_add, try_i64 in Hm.
    destruct (try_range _ _ _) eqn:E; [|done]. apply try_range_some in E as [-> _].
    apply ok_inj in Hm as <-. destruct (_ || _) eqn:Eb; apply ok_inj in H; simplify_eq; [done|].
    apply orb_false_iff in Eb as [E1 E2]. apply Z.ltb_ge in E1, E2. split; [done|].
    split; [done|]. split; simpl in *; done.
  - apply ok_inj in H. by simplify_eq.
Qed.

(** A funded action: a test of the stage's cost, or an active candidate
    continuing. *)
Definition funded (p : OperatorProfile) (c : Candidate) (a : PortfolioAction) (s : Spend) : Prop :=
  s_id s = as_id (ca_assessment c)
  ∧ (∃ name, stage_cost c p = Ok (Ok (name, s_cash s, s_hours s)))
  ∧ match a with
    | CheapTest cash hours => cash = s_cash s ∧ hours = s_hours s
    | ContinueActive => ca_track c ≠ TNew
    | _ => False
    end.

(** A candidate whose next stage the budget may fund. *)
Definition stage_test (p : OperatorProfile) (c : Candidate) (act : Z → Z → PortfolioAction)
    (a : PortfolioAction) : Prop :=
  a = AHold ∨ ∃ name cash hours, stage_cost c p = Ok (Ok (name, cash, hours)) ∧ a = act cash hours.

(** What funds a passing candidate. *)
Definition ranked_act (c : Candidate) (cash hours : Z) : PortfolioAction :=
  match ca_track c with TNew => CheapTest cash hours | TActive _ => ContinueActive end.

(** The rows' actions, and the spends they make in order. *)
Definition spends (p : OperatorProfile) (l : list (Candidate * PortfolioAction)) (log : list Spend) : Prop :=
  ∃ parts, log = List.concat parts
  ∧ Forall2 (λ x part, match part with
                       | [s] => funded p x.1 x.2 s
                       | [] => x.2 = AHold
                       | _ => False
                       end) l parts.

Lemma spends_cons p c a l log part :
  match part with [s] => funded p c a s | [] => a = AHold | _ => False end →
  spends p l log → spends p ((c, a) :: l) (part ++ log).
Proof.
  intros Hp (parts & -> & H). exists (part :: parts). split; [done|]. by constructor.
Qed.

Lemma ranked_go_spends p cands l : ∀ i used rows ns used',
  within_budget p used →
  ranked_go p cands i used l = Ok (rows, ns, used') →
  within_budget p used'
  ∧ ∃ pairs log, used' = spend_all used log ∧ spends p pairs log
    ∧ map rr_id rows = map as_id l ∧ map rr_action rows = map snd pairs
    ∧ Forall2 (λ a x, by_id cands (as_id a) = Some x.1) l pairs
    ∧ Forall (λ x, stage_test p x.1 (ranked_act x.1) x.2) pairs
    ∧ map rr_rank rows = map (λ k, i + Z.of_nat k) (seq 0 (length l)).
Proof.
  induction l as [|a l IH]; intros i used rows ns used' Hu H; cbn [ranked_go] in H.
  { apply ok_inj in H. simplify_eq. split; [done|]. exists [], []. split_and!; try done; try constructor.
    by exists []. }
  apply bind_ok in H as (c & Hc & H). apply bind_ok in H as ([[act n] u] & Ha & H).
  apply bind_ok in H as ([[rows' ns'] u'] & Hg & H). apply ok_inj in H. simplify_eq.
  unfold ranked_action in Ha. apply bind_ok in Ha as ([t u0] & Ht & Ha).
  pose proof (take_facts _ _ _ _ _ Ht) as Hf.
  assert (Hstep : within_budget p u ∧ stage_test p c (ranked_act c) act ∧ ∃ part, u = spend_all used part
    ∧ match part with [s] => funded p c act s | [] => act = AHold | _ => False end).
  { destruct t as [[[name cash] hours]|why]; apply ok_inj in Ha; simplify_eq.
    - destruct Hf as (Hs & -> & Hw). split; [done|]. split; [right; by exists name, cash, hours|].
      exists [mkSpend (as_id (ca_assessment c)) cash hours]. split; [done|]. split; [done|].
      split; [by exists name|]. by destruct (ca_track c).
    - split; [done|]. split; [by left|]. by exists []. }
  destruct Hstep as (Hw & Ht' & part & -> & Hpart).
  destruct (IH _ _ _ _ _ Hw Hg) as (Hw' & pairs & log & -> & Hsp & Hids & Hacts & Hby & Hst & Hrk).
  split; [done|]. exists ((c, act) :: pairs), (part ++ log). split_and!.
  - by rewrite spend_all_app.
  - by apply spends_cons.
  - simpl. by rewrite Hids.
  - simpl. by rewrite Hacts.
  - constructor; [|done]. simpl. unfold ok_or in Hc. by destruct (by_id cands (as_id a)); simplify_eq.
  - by constructor.
  - cbn [map ranked_row rr_rank length seq]. rewrite Hrk, <-fmap_S_seq. f_equal; [simpl; lia|].
    rewrite map_map. apply map_ext. intros k. lia.
Qed.

Lemma testable_go_spends p l : ∀ used actions actions' ns used',
  within_budget p used → NoDup (map (λ c, as_id (ca_assessment c)) l) →
  testable_go p used actions l = Ok (actions', ns, used') →
  within_budget p used'
  ∧ ∃ pairs log, used' = spend_all used log ∧ spends p pairs log ∧ map fst pairs = l
    ∧ Forall (λ x, stage_test p x.1 CheapTest x.2) pairs
    ∧ (∀ x, x ∈ pairs → actions' !! as_id (ca_assessment x.1) = Some x.2)
    ∧ ∀ id, (∀ c, c ∈ l → as_id (ca_assessment c) ≠ id) → actions' !! id = actions !! id.
Proof.
  induction l as [|c l IH]; intros used actions actions' ns used' Hu Hn H; cbn [testable_go] in H.
  { apply ok_inj in H. simplify_eq. split; [done|]. exists [], []. split_and!; try done.
    - by exists [].
    - intros x Hx. by apply elem_of_nil in Hx. }
  simpl in Hn. apply NoDup_cons in Hn as [Hc Hn].
  apply bind_ok in H as ([t u] & Ht & H). pose proof (take_facts _ _ _ _ _ Ht) as Hf.
  destruct (match t with Ok _ => _ | Err _ => _ end) as [act why] eqn:Et.
  apply bind_ok in H as ([[as' ns'] u'] & Hg & H). apply ok_inj in H. simplify_eq.
  assert (Hstep : within_budget p u ∧ stage_test p c CheapTest act ∧ ∃ part, u = spend_all used part
    ∧ match part with [s] => funded p c act s | [] => act = AHold | _ => False end).
  { destruct t as [[[name cash] hours]|why']; simplify_eq.
    - destruct Hf as (Hs & -> & Hw). split; [done|]. split; [right; by exists name, cash, hours|].
      exists [mkSpend (as_id (ca_assessment c)) cash hours]. split; [done|]. split; [done|].
      split; [by exists name|done].
    - split; [done|]. split; [by left|]. by exists []. }
  destruct Hstep as (Hw & Ht' & part & -> & Hpart).
  destruct (IH _ _ _ _ _ Hw Hn Hg) as (Hw' & pairs & log & -> & Hsp & Hfst & Hst & Hin & Hout).
  split; [done|]. exists ((c, act) :: pairs), (part ++ log). split_and!.
  - by rewrite spend_all_app.
  - by apply spends_cons.
  - simpl. by rewrite Hfst.
  - by constructor.
  - intros x [->|Hx]%elem_of_cons; [|by apply Hin]. simpl. rewrite Hout, lookup_insert_eq; [done|].
    intros c' Hc' E. apply Hc. rewrite <-E.
    by apply (list_elem_of_fmap_2 (λ c, as_id (ca_assessment c))).
  - intros id Hid. rewrite Hout by (intros c' Hc'; apply Hid; by right).
    rewrite lookup_insert_ne; [done|]. apply Hid. by left.
Qed.

(** ** The lists of the week *)

Lemma unique_nodup {A} `{EqDecision A} (l : list A) : Problems.unique l = [] → NoDup l.
Proof.
  unfold Problems.unique. enough (G : ∀ seen, Problems.unique_go seen l = [] →
    NoDup l ∧ ∀ x, x ∈ l → x ∉ seen) by (intros; by apply (G [])).
  induction l as [|x l IH]; intros seen; cbn [Problems.unique_go].
  { split; [constructor|]. intros x Hx. by apply elem_of_nil in Hx. }
  destruct (decide (x ∈ seen)) as [|Hx]; [done|]. intros (Hn & Hs)%IH. split.
  - constructor; [|done]. intros Hl. apply (Hs x Hl). by left.
  - intros y [->|Hy]%elem_of_cons; [done|]. intros Hy'. apply (Hs y Hy). by right.
Qed.

Lemma filter_In {A} (f : A → bool) l x : x ∈ List.filter f l ↔ x ∈ l ∧ f x = true.
Proof. rewrite !list_elem_of_In. apply List.filter_In. Qed.

Lemma nodup_map_filter {A B} (g : A → B) (f : A → bool) l :
  NoDup (map g l) → NoDup (map g (List.filter f l)).
Proof.
  induction l as [|x l IH]; simpl; [done|]. intros [Hx Hn]%NoDup_cons.
  destruct (f x); simpl; [|by apply IH]. constructor; [|by apply IH].
  intros (y & E & [Hy _]%filter_In)%list_elem_of_fmap. apply Hx. rewrite E.
  by apply (list_elem_of_fmap_2 g).
Qed.

(** A list splits into the elements a test accepts and the rest. *)
Lemma filter_split {A} (f : A → bool) (l : list A) :
  List.filter f l ++ List.filter (λ x, negb (f x)) l ≡ₚ l.
Proof.
  induction l as [|x l IH]; simpl; [done|]. destruct (f x); simpl; [by rewrite IH|].
  by rewrite <-Permutation_middle, IH.
Qed.

Lemma filter_map {A B} (g : A → B) (f : B → bool) l :
  List.filter f (map g l) = map g (List.filter (λ x, f (g x)) l).
Proof. induction l as [|x l IH]; simpl; [done|]. rewrite IH. by destruct (f (g x)). Qed.

Lemma filter_filter {A} (f g : A → bool) l :
  List.filter f (List.filter g l) = List.filter (λ x, g x && f x) l.
Proof. induction l as [|x l IH]; simpl; [done|]. destruct (g x); simpl; by rewrite IH. Qed.

(** What a funded row of the week is. *)
Definition spending (a : PortfolioAction) : bool :=
  match a with CheapTest _ _ | ContinueActive => true | _ => false end.

(** The id and action of every row. *)
Definition week_actions (w : WeeklyPortfolio) : list (string * PortfolioAction) :=
  map (λ r, (rr_id r, rr_action r)) (w_ranked w)
  ++ map (λ r, (gr_id r, gr_action r)) (w_held w ++ w_rejected w).

Lemma week_actions_ids w : map fst (week_actions w) = week_ids w.
Proof. unfold week_actions, week_ids. by rewrite map_app, !map_map, map_app. Qed.

#[local] Notation cid c := (as_id (ca_assessment c)).
#[local] Notation verdict_of c := (gv_verdict (as_verdict (ca_assessment c))).

Lemma nodup_ids_inj (cands : list Candidate) c c' :
  NoDup (map (λ c, cid c) cands) → c ∈ cands → c' ∈ cands → cid c = cid c' → c = c'.
Proof.
  intros Hn Hc Hc' E. apply list_elem_of_lookup in Hc as [i Hi], Hc' as [j Hj].
  assert (i = j) as ->; [|congruence]. apply (NoDup_lookup _ i j (cid c) Hn).
  - change (map (λ c, cid c) cands) with ((λ c, cid c) <$> cands). by rewrite list_lookup_fmap, Hi.
  - change (map (λ c, cid c) cands) with ((λ c, cid c) <$> cands). by rewrite list_lookup_fmap, Hj, E.
Qed.

Lemma by_id_in cands id c : by_id cands id = Some c → c ∈ cands ∧ cid c = id.
Proof.
  unfold by_id. intros [H E]%List.find_some. apply String.eqb_eq in E.
  by apply list_elem_of_In in H.
Qed.

Section week.
Context (hash : Opportunity → OperatorProfile → R string) (show_time : Time → string)
(cited : list CitedRecord) (p : OperatorProfile).
#[local] Notation gated_action := (gated_action hash show_time p cited).
#[local] Notation gated_go := (gated_go hash show_time p cited).

(** The action table: what the week may say of candidate [c]. *)
Definition table_row (c : Candidate) (a : PortfolioAction) : Prop :=
match verdict_of c with
| VPass => stage_test p c (ranked_act c) a
| VReject => ∃ m, min_price hash show_time (ca_opportunity c) (as_verdict (ca_assessment c)) cited p = Ok m
    ∧ a = match m with Some m => Reprice m | None => AReject end
| VHold => ∃ d, diligence c p = Ok d ∧
    match d with
    | Some q => a = q
    | None => if only (as_verdict (ca_assessment c)) TESTABLE then stage_test p c CheapTest a else a = AHold
    end
end.

Lemma diligence_spends_nothing c d : diligence c p = Ok (Some d) → spending d = false.
Proof.
unfold diligence. destruct (op_deal _); [|done]. destruct (diligence_questions _); [done|].
intros (next & _ & H)%bind_ok. apply ok_inj in H. by simplify_eq.
Qed.

Lemma gated_action_row c g : verdict_of c ≠ VPass → gated_action c = Ok g →
match g with
| Settled a _ => table_row c a ∧ spending a = false
| Testable => verdict_of c = VHold ∧ diligence c p = Ok None
    ∧ only (as_verdict (ca_assessment c)) TESTABLE = true
end.
Proof.
intros Hv. unfold SoeAllocate.gated_action, table_row. destruct (verdict_of c) eqn:E; [done|..].
- intros (d & Hd & H)%bind_ok. rewrite Hd. destruct d as [a|].
  { apply ok_inj in H as <-. split; [by exists (Some a)|by eapply diligence_spends_nothing]. }
  destruct (only _ _) eqn:Eo; apply ok_inj in H as <-; [done|].
  split; [by exists None|done].
- intros (m & Hm & H)%bind_ok. destruct m as [m|]; apply ok_inj in H as <-;
    (split; [by eexists; split; [exact Hm|]|done]).
Qed.

Lemma gated_go_facts l : ∀ actions actions' ns ts, NoDup (map (λ c, cid c) l) →
gated_go actions l = Ok (actions', ns, ts) →
(∀ c, c ∈ l → (∃ a n, gated_action c = Ok (Settled a n) ∧ actions' !! cid c = Some a)
              ∨ gated_action c = Ok Testable ∧ c ∈ ts)
∧ (∀ c, c ∈ ts → c ∈ l ∧ gated_action c = Ok Testable)
∧ NoDup (map (λ c, cid c) ts)
∧ ∀ id, id ∉ map (λ c, cid c) l → actions' !! id = actions !! id.
Proof.
induction l as [|c l IH]; intros actions actions' ns ts Hn H; cbn [SoeAllocate.gated_go] in H.
{ apply ok_inj in H. simplify_eq.
  split; [intros c Hc; by apply elem_of_nil in Hc|].
  split; [intros c Hc; by apply elem_of_nil in Hc|]. by split. }
simpl in Hn. apply NoDup_cons in Hn as [Hc Hn]. apply bind_ok in H as (g & Hg & H).
destruct g as [a n|]; apply bind_ok in H as ([[as' ns'] ts'] & Hgo & H);
  apply ok_inj in H; simplify_eq; destruct (IH _ _ _ _ Hn Hgo) as (Hin & Hts & Hnd & Hout).
- split_and!; try done.
  + intros c' [->|Hc']%elem_of_cons; [|by apply Hin]. left. exists a, n. split; [done|].
    by rewrite Hout, lookup_insert_eq.
  + intros c' [? ?]%Hts. split; [by right|done].
  + intros id Hid. simpl in Hid. apply not_elem_of_cons in Hid as [? ?].
    by rewrite Hout, lookup_insert_ne.
- split_and!.
  + intros c' [->|Hc']%elem_of_cons; [right; split; [done|by left]|].
    destruct (Hin _ Hc') as [?|[? ?]]; [by left|right; split; [done|by right]].
  + intros c' [->|[? ?]%Hts]%elem_of_cons; (split; [|done]); [by left|by right].
  + simpl. constructor; [|done]. intros (c' & E & Hc')%list_elem_of_fmap. apply Hc.
    apply list_elem_of_fmap. exists c'. split; [done|]. by apply Hts.
  + intros id Hid. simpl in Hid. apply not_elem_of_cons in Hid as [? ?]. by apply Hout.
Qed.

(** The ids of the spends are those of the funded rows, in order. *)
Lemma spends_ids pairs log : spends p pairs log →
map s_id log = map (λ x, cid x.1) (List.filter (λ x, spending x.2) pairs).
Proof.
intros (parts & -> & H). induction H as [|[c a] part l parts Hx H IH]; simpl; [done|].
rewrite map_app, IH. destruct part as [|s [|]]; simpl in *; [by subst|..|done].
destruct Hx as (Hid & _ & Ha). destruct a; simpl in *; try done; by rewrite Hid.
Qed.

Lemma spends_costs pairs log s : spends p pairs log → s ∈ log →
∃ c a, (c, a) ∈ pairs ∧ funded p c a s.
Proof.
intros (parts & -> & H). induction H as [|[c a] part l parts Hx H IH]; simpl.
{ intros Hs. by apply elem_of_nil in Hs. }
intros [Hs|Hs]%elem_of_app.
- destruct part as [|s' [|]]; [by apply elem_of_nil in Hs| |done].
  apply list_elem_of_singleton in Hs as ->. exists c, a. split; [by left|done].
- destruct (IH Hs) as (c' & a' & ? & ?). exists c', a'. split; [by right|done].
Qed.

(** The candidates of one gated list. *)
Definition gated_of (v : Verdict) (cands : list Candidate) : list Candidate :=
List.filter (λ c, with_verdict v (ca_assessment c))
  (sort_by by_assessment (List.filter (λ c, negb (passes (ca_assessment c))) cands)).

Lemma gated_of_in v cands c : v ≠ VPass → c ∈ gated_of v cands ↔ c ∈ cands ∧ verdict_of c = v.
Proof.
intros Hv. unfold gated_of, with_verdict, passes.
rewrite filter_In, sort_by_perm, filter_In, negb_true_iff, bool_decide_eq_true, bool_decide_eq_false.
split; [tauto|]. intros [? E]. rewrite E. tauto.
Qed.

Lemma verdict_lists cands :
List.filter (λ c, passes (ca_assessment c)) cands ++ gated_of VHold cands ++ gated_of VReject cands
≡ₚ cands.
Proof.
etransitivity; [|apply (filter_split (λ c, passes (ca_assessment c)))].
apply Permutation_app_head. unfold gated_of. set (g := sort_by _ _).
transitivity g; [|apply sort_by_perm].
transitivity (List.filter (λ c, with_verdict VHold (ca_assessment c)) g
  ++ List.filter (λ c, negb (with_verdict VHold (ca_assessment c))) g); [|apply filter_split].
apply Permutation_app_head. assert (Hg : ∀ c, c ∈ g → verdict_of c ≠ VPass).
{ intros c. unfold g, passes. rewrite sort_by_perm, filter_In, negb_true_iff, bool_decide_eq_false. tauto. }
clearbody g. induction g as [|c g IH]; [done|]. cbn [List.filter].
assert (Hc := Hg c ltac:(by left)).
assert (Hl : ∀ c, c ∈ g → verdict_of c ≠ VPass) by (intros c' ?; apply Hg; by right).
unfold with_verdict in *. destruct (verdict_of c) eqn:E; [done|simpl; by apply IH|].
simpl. rewrite IH by done. done.
Qed.

Lemma gated_row_ids actions v cands rows :
collect (gated_row actions) (gated_of v cands) = Ok rows →
map gr_id rows = map (λ c, cid c) (gated_of v cands)
∧ (∀ c, c ∈ gated_of v cands → ∃ a, actions !! cid c = Some a ∧
    (cid c, a) ∈ map (λ r, (gr_id r, gr_action r)) rows)
∧ ∀ r, r ∈ rows → actions !! gr_id r = Some (gr_action r).
Proof.
intros H%collect_ok. induction H as [|c r l rows Hr H IH]; simpl.
{ split; [done|]. split; intros ? Hx; by apply elem_of_nil in Hx. }
destruct IH as (Hids & Hc & Hro). unfold gated_row, ok_or in Hr.
destruct (actions !! cid c) as [a|] eqn:E; simpl in Hr; [|done]. apply ok_inj in Hr as <-.
simpl. rewrite Hids. split; [done|]. split.
- intros c' [->|Hc']%elem_of_cons; [exists a; split; [done|by left]|].
  destruct (Hc _ Hc') as (a' & ? & ?). exists a'. split; [done|by right].
- intros r [->|Hr]%elem_of_cons; [done|by apply Hro].
Qed.

Lemma spends_app l k log log' : spends p l log → spends p k log' → spends p (l ++ k) (log ++ log').
Proof.
intros (parts & -> & H) (parts' & -> & H'). exists (parts ++ parts'). split.
- by rewrite List.concat_app.
- by apply Forall2_app.
Qed.

(** What the rows of a week are made of: the ranked pairs [prs], the funded
  holds [tps], and the actions of the gated. *)
Record rows_made (cands : list Candidate) (ranked : list RankedRow) (held rejected : list GatedRow)
  (used : Allocation) (prs tps : list (Candidate * PortfolioAction)) (log : list Spend)
  (actions : gmap string PortfolioAction) : Prop := mkRowsMade {
rm_budget : within_budget p used;
rm_used : used = spend_all (mkAllocation 0 0) log;
rm_spends : spends p (prs ++ tps) log;
rm_order : map rr_id ranked = map as_id (rank (map ca_assessment cands) (p_rank_order p));
rm_ranks : map rr_rank ranked = map (λ k, 1 + Z.of_nat k) (seq 0 (length ranked));
rm_ranked : map (λ r, (rr_id r, rr_action r)) ranked = map (λ x, (cid x.1, x.2)) prs;
rm_pairs : ∀ x, x ∈ prs → x.1 ∈ cands ∧ verdict_of x.1 = VPass ∧ table_row x.1 x.2;
rm_held : collect (gated_row actions) (gated_of VHold cands) = Ok held;
rm_rejected : collect (gated_row actions) (gated_of VReject cands) = Ok rejected;
rm_gated : ∀ c, c ∈ cands → verdict_of c ≠ VPass → ∃ a, actions !! cid c = Some a ∧ table_row c a
  ∧ (spending a = true → (c, a) ∈ tps);
rm_tested : ∀ x, x ∈ tps → x.1 ∈ cands ∧ verdict_of x.1 = VHold ∧ actions !! cid x.1 = Some x.2;
rm_once : NoDup (map (λ x, cid x.1) (prs ++ tps));
}.

Lemma ranked_pairs cands (l : list Assessment) prs :
NoDup (map (λ c, cid c) cands) →
(∀ a, a ∈ l → passes a = true ∧ ∃ c, c ∈ cands ∧ ca_assessment c = a) →
Forall2 (λ a x, by_id cands (as_id a) = Some x.1) l prs →
Forall (λ x, stage_test p x.1 (ranked_act x.1) x.2) prs →
map (λ x : Candidate * PortfolioAction, cid x.1) prs = map as_id l
∧ ∀ x, x ∈ prs → x.1 ∈ cands ∧ verdict_of x.1 = VPass ∧ table_row x.1 x.2.
Proof.
intros Hn Hl H. induction H as [|a [c act] l prs Ha H IH]; intros Ht.
{ split; [done|]. intros x Hx. by apply elem_of_nil in Hx. }
apply Forall_cons in Ht as [Hs Ht].
destruct IH as [E IH]; [intros a' Ha'; apply Hl; by right|done|].
apply by_id_in in Ha as [Hc Hid]. destruct (Hl a ltac:(by left)) as (Hp & c' & Hc' & <-).
assert (c = c') as -> by (eapply nodup_ids_inj; done). split; [simpl; by rewrite E|].
intros x [->|Hx]%elem_of_cons; [|by apply IH]. split; [done|].
unfold passes in Hp. apply bool_decide_eq_true in Hp. split; [done|].
unfold table_row. simpl. by rewrite Hp.
Qed.

Lemma allocate_rows_made cands ranked held rejected ns used :
NoDup (map (λ c, cid c) cands) → 0 ≤ p_weekly_owner_hours p → 0 ≤ p_max_validation_tranche p →
allocate_rows hash show_time cands p cited = Ok (ranked, held, rejected, ns, used) →
∃ prs tps log actions, rows_made cands ranked held rejected used prs tps log actions.
Proof.
intros Hn Hh Hm. unfold allocate_rows.
intros ([[ranked' ns1] used1] & Hr & H)%bind_ok.
apply bind_ok in H as ([[acts ns2] ts] & Hg & H).
apply bind_ok in H as ([[acts' ns3] used2] & Ht & H).
apply bind_ok in H as (held' & Hhe & H). apply bind_ok in H as (rejected' & Hre & H).
apply ok_inj in H. simplify_eq.
set (l := sort_by by_assessment _) in Hg.
assert (Hl : NoDup (map (λ c, cid c) l) ∧ ∀ c, c ∈ l ↔ c ∈ cands ∧ verdict_of c ≠ VPass).
{ split.
  - unfold l. rewrite sort_by_perm.
    change (map (λ c, cid c) cands) with ((λ c, cid c) <$> cands) in Hn.
    rewrite <-(filter_split (λ c, passes (ca_assessment c)) cands), fmap_app in Hn.
    by apply NoDup_app in Hn as (_ & _ & ?).
  - intros c. unfold l, passes. by rewrite sort_by_perm, filter_In, negb_true_iff, bool_decide_eq_false. }
destruct Hl as [Hln Hlin].
destruct (gated_go_facts _ _ _ _ _ Hln Hg) as (Hin & Hts & Htn & _).
apply ranked_go_spends in Hr as (Hb1 & prs & log1 & -> & Hsp1 & Hids & Hacts & Hby & Hst1 & Hrk);
  [|by split].
apply testable_go_spends in Ht as (Hb2 & tps & log2 & -> & Hsp2 & Hfst & Hst2 & Hat & Hout);
  [|done|].
2:{ by rewrite sort_by_perm. }
destruct (ranked_pairs cands (rank (map ca_assessment cands) (p_rank_order p)) prs) as [E Hprs]; try done.
{ intros a. unfold rank. rewrite sort_by_perm, filter_In. intros [Ha Hp]. split; [done|].
  apply list_elem_of_fmap in Ha as (c & -> & ?). by exists c. }
assert (Hx : ∀ x, x ∈ tps → x.1 ∈ ts).
{ intros x Hx. rewrite <-(sort_by_perm (λ a b, compare (p_rank_order p) (ca_assessment a) (ca_assessment b)) ts).
  rewrite <-Hfst. by apply (list_elem_of_fmap_2 fst). }
exists prs, tps, (log1 ++ log2), acts'. split; try done.
- by rewrite spend_all_app.
- by apply spends_app.
- rewrite Hrk. f_equal. f_equal. by rewrite <-(length_map rr_id), Hids, length_map.
- clear -Hids Hacts E. revert Hids Hacts. rewrite <-E. clear E. revert ranked.
  induction prs as [|x prs IH]; intros [|r ranked]; simpl; try done.
  intros [= -> E1] [= -> E2]. by rewrite IH.
- intros c Hc Hv. destruct (Hin c) as [(a & n & Ha & Hac)|[Ha Hct]]; [by apply Hlin|..].
  + destruct (gated_action_row _ _ Hv Ha) as [Hrow Hns]. exists a. split; [|by rewrite Hns].
    rewrite Hout; [done|]. intros c'. rewrite sort_by_perm. intros (Hc'1 & Hc')%Hts E'.
    apply Hlin in Hc'1 as [Hc'1 _].
    assert (c' = c) as -> by (by eapply (nodup_ids_inj cands)). congruence.
  + destruct (gated_action_row _ _ Hv Ha) as (Hhold & Hd & Ho).
    assert (Hcx : c ∈ map fst tps) by (by rewrite Hfst, sort_by_perm).
    apply list_elem_of_fmap in Hcx as ([c' a] & Hc' & Hx'). simpl in Hc'. subst c'.
    exists a. split; [by apply (Hat (c, a))|]. split; [|done].
    rewrite Forall_forall in Hst2. pose proof (Hst2 _ Hx') as Hs.
    unfold table_row. rewrite Hhold. exists None. split; [done|]. by rewrite Ho.
- intros x Hxt. pose proof (Hts _ (Hx _ Hxt)) as [Hxl Ha]. apply Hlin in Hxl as [Hxc Hxv].
  destruct (gated_action_row _ _ Hxv Ha) as (Hhold & _ & _).
  split_and!; [done|done|by apply Hat].
- rewrite map_app. apply NoDup_app. split_and!.
  + rewrite E. unfold rank. rewrite sort_by_perm.
    apply nodup_map_filter. by rewrite map_map.
  + intros id Hi Hj. apply list_elem_of_fmap in Hi as (x & -> & Hxp).
    apply list_elem_of_fmap in Hj as (y & Exy & Hyt).
    destruct (Hprs _ Hxp) as (Hxc & Hxv & _).
    pose proof (Hts _ (Hx _ Hyt)) as [[Hyc Hyv]%Hlin _]. apply Hyv.
    by rewrite <-(nodup_ids_inj cands x.1 y.1 Hn Hxc Hyc Exy).
  + rewrite <-(map_map fst (λ c, cid c)), Hfst. by rewrite sort_by_perm.
Qed.

(** Every row of the week comes from a ranked pair or a gated candidate. *)
Lemma week_action_of cands w prs tps log actions id a :
rows_made cands (w_ranked w) (w_held w) (w_rejected w) (w_allocation w) prs tps log actions →
(id, a) ∈ week_actions w ↔
  (∃ c, (c, a) ∈ prs ∧ id = cid c)
  ∨ ∃ c, c ∈ cands ∧ verdict_of c ≠ VPass ∧ id = cid c ∧ actions !! id = Some a.
Proof.
intros [_ _ _ _ _ Mk _ Mh Mj _ _ _].
apply gated_row_ids in Mh as (Eh & Rh & Lh), Mj as (Ej & Rj & Lj).
unfold week_actions. rewrite elem_of_app, Mk, map_app, elem_of_app. apply Morphisms_Prop.or_iff_morphism.
{ rewrite list_elem_of_fmap. split.
  - intros ([c a'] & [= -> ->] & ?). by exists c.
  - intros (c & ? & ->). by exists (c, a). }
assert (Hback : ∀ v rows, v ≠ VPass → map gr_id rows = map (λ c, cid c) (gated_of v cands) →
  (∀ r, r ∈ rows → actions !! gr_id r = Some (gr_action r)) →
  (id, a) ∈ map (λ r, (gr_id r, gr_action r)) rows →
  ∃ c, c ∈ cands ∧ verdict_of c ≠ VPass ∧ id = cid c ∧ actions !! id = Some a).
{ intros v rows Hv E L (r & [= -> ->] & Hr)%list_elem_of_fmap.
  assert (Hid : gr_id r ∈ map gr_id rows) by (by apply (list_elem_of_fmap_2 gr_id)).
  rewrite E in Hid. apply list_elem_of_fmap in Hid as (c & Ec & Hc).
  apply gated_of_in in Hc as [Hc Ev]; [|done]. exists c. rewrite Ev.
  split_and!; [done..|by apply L]. }
split; [intros [H|H]; [by apply (Hback VHold) in H|by apply (Hback VReject) in H]|].
intros (c & Hc & Hv & -> & Ha). destruct (verdict_of c) eqn:E; [done|left|right].
- destruct (Rh c) as (a' & Ha' & ?); [by apply gated_of_in|]. congruence.
- destruct (Rj c) as (a' & Ha' & ?); [by apply gated_of_in|]. congruence.
Qed.
End week.

Lemma allocate_inv hash show_time hash_alloc head cands p cited r :
  allocate hash show_time hash_alloc head cands p cited = Ok r →
  NoDup (map (λ c, cid c) cands) ∧ ∃ ns, allocate_rows hash show_time cands p cited
    = Ok (w_ranked (portfolio r), w_held (portfolio r), w_rejected (portfolio r), ns,
          w_allocation (portfolio r)).
Proof.
  unfold allocate. destruct (allocate_errors _ _) eqn:Ee; [|done].
  unfold allocate_errors in Ee. apply app_eq_nil in Ee as [_ Hu]. apply unique_nodup in Hu.
  rewrite map_map in Hu. intros ([[[[ranked held] rejected] ns] used] & Hr & H)%bind_ok.
  apply bind_ok in H as (schema & _ & H). apply bind_ok in H as ([] & _ & H).
  apply ok_inj in H as <-. split; [done|]. simpl. exists ns.
  unfold one in Hr. by destruct (allocate_rows _ _ _ _ _); simplify_eq.
Qed.

Section allocate_props.
Context (hash : Opportunity → OperatorProfile → R string) (show_time : Time → string)
(hash_alloc : list (string * Z * string * list string * Track) → string).
#[local] Notation allocate := (allocate hash show_time hash_alloc).

(** A week partitions its candidates and follows the action table:
  every candidate is in exactly one of the three lists, chosen by its gate
  verdict; the ranked list is in rank order and numbered from 1; a passing
  candidate runs its stage, continues or waits; a rejected one is repriced
  exactly when a clearing price exists; a held one is verified, tested when
  nothing but a testable gate holds it, or waits. *)
Theorem allocation_follows_the_table head cands p cited r
  (Hh : 0 ≤ p_weekly_owner_hours p) (Hm : 0 ≤ p_max_validation_tranche p) :
allocate head cands p cited = Ok r →
let w := portfolio r in
NoDup (week_ids w) ∧ week_ids w ≡ₚ map (λ c, cid c) cands
∧ map rr_id (w_ranked w) = map as_id (rank (map ca_assessment cands) (p_rank_order p))
∧ map rr_rank (w_ranked w) = map (λ k, 1 + Z.of_nat k) (seq 0 (length (w_ranked w)))
∧ ∀ c, c ∈ cands → ∃ a, table_row hash show_time cited p c a
    ∧ (cid c, a) ∈ match verdict_of c with
                   | VPass => map (λ r, (rr_id r, rr_action r)) (w_ranked w)
                   | VHold => map (λ r, (gr_id r, gr_action r)) (w_held w)
                   | VReject => map (λ r, (gr_id r, gr_action r)) (w_rejected w)
                   end.
Proof.
intros (Hn & ns & Hr)%allocate_inv. cbv zeta. set (w := portfolio r) in *.
destruct (allocate_rows_made _ _ _ _ _ _ _ _ _ _ Hn Hh Hm Hr) as (prs & tps & log & acts & M).
pose proof M as [_ _ _ Mo Mr Mk Mp Mh Mj Mg _ _].
apply gated_row_ids in Mh as (Eh & Rh & _), Mj as (Ej & Rj & _).
assert (Hids : map rr_id (w_ranked w)
  ≡ₚ map (λ c, cid c) (List.filter (λ c, passes (ca_assessment c)) cands)).
{ rewrite Mo. unfold rank.
  etransitivity; [apply Permutation_map, sort_by_perm|]. by rewrite filter_map, map_map. }
assert (Hp : week_ids w ≡ₚ map (λ c, cid c) cands).
{ unfold week_ids. rewrite Hids, Eh, Ej, <-!map_app.
  apply Permutation_map, verdict_lists. }
split; [by rewrite Hp|]. split; [done|].
split; [done|]. split; [done|]. intros c Hc.
destruct (verdict_of c) eqn:Hv.
- assert (Hc' : cid c ∈ map rr_id (w_ranked w)).
  { rewrite Hids. apply (list_elem_of_fmap_2 (λ c, cid c)). rewrite filter_In. split; [done|].
    unfold passes. by rewrite Hv. }
  replace (map rr_id (w_ranked w)) with (map fst (map (λ r, (rr_id r, rr_action r)) (w_ranked w)))
    in Hc' by (by rewrite map_map).
  rewrite Mk in Hc' |- *. rewrite map_map in Hc'.
  apply list_elem_of_fmap in Hc' as ([c' a] & E & Hx). simpl in E.
  destruct (Mp _ Hx) as (Hc' & _ & Ht). simpl in *.
  assert (c' = c) as -> by (by eapply (nodup_ids_inj cands)). exists a. split; [done|].
  by apply (list_elem_of_fmap_2 (λ x : Candidate * PortfolioAction, (cid x.1, x.2)) _ (c, a)).
- destruct (Mg c Hc) as (a & Ha & Ht & _); [by rewrite Hv|].
  exists a. split; [done|]. destruct (Rh c) as (a' & Ha' & ?); [by apply gated_of_in|]. congruence.
- destruct (Mg c Hc) as (a & Ha & Ht & _); [by rewrite Hv|].
  exists a. split; [done|]. destruct (Rj c) as (a' & Ha' & ?); [by apply gated_of_in|]. congruence.
Qed.

(** C27. A week stays within the profile's weekly hours and validation
  tranche: its allocation is the sum of one spend per funded row (hours
  capped at [u32::MAX]), each the cost of that candidate's stage, and
  nothing else is spent. *)
Theorem allocation_stays_within_budget head cands p cited r
  (Hh : 0 ≤ p_weekly_owner_hours p) (Hm : 0 ≤ p_max_validation_tranche p) :
allocate head cands p cited = Ok r →
within_budget p (w_allocation (portfolio r))
∧ ∃ log, w_allocation (portfolio r) = spend_all (mkAllocation 0 0) log ∧ NoDup (map s_id log)
  ∧ (∀ id, id ∈ map s_id log ↔ ∃ a, (id, a) ∈ week_actions (portfolio r) ∧ spending a = true)
  ∧ ∀ s, s ∈ log → ∃ c a, c ∈ cands ∧ (cid c, a) ∈ week_actions (portfolio r) ∧ funded p c a s.
Proof.
intros (Hn & ns & Hr)%allocate_inv. set (w := portfolio r) in *.
destruct (allocate_rows_made _ _ _ _ _ _ _ _ _ _ Hn Hh Hm Hr) as (prs & tps & log & acts & M).
pose proof M as [Mb Mu Ms Mo _ _ Mp _ _ Mg Mt Mn]. split; [done|]. exists log. split; [done|].
assert (Hlog : ∀ c a, (c, a) ∈ prs ++ tps → c ∈ cands ∧ (cid c, a) ∈ week_actions w).
{ intros c a [Hx|Hx]%elem_of_app.
  - destruct (Mp _ Hx) as (? & _). split; [done|]. eapply week_action_of; [done|]. left. by exists c.
  - destruct (Mt _ Hx) as (? & Hv & ?). simpl in *. split; [done|].
    eapply week_action_of; [done|]. right. exists c. by rewrite Hv. }
rewrite (spends_ids p _ _ Ms). split; [by apply nodup_map_filter|]. split.
- intros id. rewrite list_elem_of_fmap. split.
  + intros ([c a] & -> & [Hx Hs]%filter_In). exists a. split; [by apply Hlog|done].
  + intros (a & Ha & Hs). eapply week_action_of in Ha; [|exact M].
    destruct Ha as [(c & Hx & ->)|(c & Hc & Hv & -> & Ha)]; exists (c, a);
      (split; [done|]); apply filter_In; (split; [|done]); apply elem_of_app; [by left|right].
    destruct (Mg c Hc Hv) as (a' & Ha' & _ & Hin). assert (a' = a) as -> by congruence. by apply Hin.
- intros s Hs. destruct (spends_costs p _ _ _ Ms Hs) as (c & a & Hx & Hf). exists c, a.
  by destruct (Hlog _ _ Hx).
Qed.
End allocate_props.

(** A rejected candidate whose repricing fails fails the rows of the week. *)
Lemma alone_and_unpriced hash show_time c p cited e :
  verdict_of c = VReject →
  min_price hash show_time (ca_opportunity c) (as_verdict (ca_assessment c)) cited p = Err e →
  allocate_rows hash show_time [c] p cited = Err e.
Proof.
  intros Hv Hm. unfold allocate_rows, rank. cbn [map List.filter]. unfold passes. rewrite Hv. simpl.
  unfold gated_action. rewrite Hv, Hm. done.
Qed.

(** The verdict on the candidate that no price saves. *)
Definition sunk_verdict : GateVerdict :=
  mkVerdict VReject Sample.now 1 "sunkp1"
    [mkFailure ContributionBelowTarget VReject (Some "time_adjusted_contribution"%string)
       "base time_adjusted_contribution -310.00 EUR < min_monthly_contribution 500.00 EUR";
     mkFailure PaybackAboveMax VReject (Some "payback"%string)
       "base payback not reached (max_payback_months 12)"].

(** Where no price helps, the search does not end in [None] but in an
    overflow of the economics it runs, and the rows of the whole week are
    refused: a valid opportunity rejected on price alone, whose variable cost
    takes all of the revenue, makes the allocation fail with [OVERFLOW]
    instead of listing it rejected. *)
Theorem hopeless_price_refuses_the_week :
  validate Sample.sunk = Ok tt
  ∧ gates Sample.hash Sample.show_time Sample.sunk Sample.cited Sample.profile Sample.now = Ok sunk_verdict
  ∧ price_fixable sunk_verdict
  ∧ ∀ id version sc f keys sha track,
      allocate_rows Sample.hash Sample.show_time
        [mkCandidate Sample.sunk (mkAssessment id version sunk_verdict sc f keys sha) track]
        Sample.profile Sample.cited = Err OVERFLOW.
Proof.
  split; [vm_compute; reflexivity|]. split; [vm_compute; reflexivity|].
  split; [apply price_fixable_spec; reflexivity|]. intros.
  apply alone_and_unpriced; [done|]. vm_compute. reflexivity.
Qed.

Lemma penny_typed : typed_inputs (op_economics Sample.penny).
Proof. split; [|exact I]. repeat constructor; vm_compute; intuition congruence. Qed.

(** The verdict on an opportunity of the sample. *)
Definition sample_verdict (o : Opportunity) : GateVerdict :=
  match gates Sample.hash Sample.show_time o Sample.cited Sample.profile Sample.now with
  | Ok v => v
  | Err _ => mkVerdict VPass Sample.now 0 "" []
  end.

Lemma reprice_is_tight_witness :
  price_fixable (sample_verdict Sample.penny)
  ∧ ∃ field hi, price_field (e_revenue (op_economics Sample.penny)) = Some field
    ∧ to_currency (op_economics Sample.penny) (p_currency Sample.profile) hi Outflow = Ok (Some 715556)
    ∧ clears Sample.hash Sample.show_time Sample.penny Sample.cited Sample.profile
        (gv_as_of (sample_verdict Sample.penny)) field hi = Ok true
    ∧ clears Sample.hash Sample.show_time Sample.penny Sample.cited Sample.profile
        (gv_as_of (sample_verdict Sample.penny)) field (hi - 1) = Ok false.
Proof.
  refine (reprice_is_tight Sample.hash Sample.show_time Sample.penny (sample_verdict Sample.penny)
            (sample_verdict Sample.penny) Sample.cited Sample.profile 715556 _ penny_typed _ _ _);
    vm_compute; reflexivity.
Defined.

(** The week of the sample, allocated. *)
Definition sample_week : Allocated :=
  let keys value months := [mkRankValue TimeAdjustedBase value; mkRankValue PaybackBase months;
                            mkRankValue CapabilityFit "PROVEN"] in
  mkAllocated
    (mkWeekly (mkSchemaTag "weekly_portfolio" 1) "w1" 1 (mkIsoWeek 2026 5) Sample.now Eur Sample.sha
       Sample.sha 1
       [mkRankedRow 1 "saas" 1 ContinueActive (keys "3037.71 EUR" "4 months");
        mkRankedRow 2 "gig" 1 AHold (keys "1140.00 EUR" "2 months")]
       [mkGatedRow "foggy" 1 AHold ["UNKNOWN_INPUT:economics.revenue.price_per_month"]]
       [mkGatedRow "penny" 1 (Reprice 715556) ["CONTRIBUTION_BELOW_TARGET"; "PAYBACK_ABOVE_MAX"]]
       (mkAllocation 10 20000) None ["economics.revenue.price_per_month"])
    [mkNote "foggy" "HOLD" "UNKNOWN_INPUT:economics.revenue.price_per_month";
     mkNote "gig" "HOLD" "rank 2: over budget: stage `landing` needs 10 h + 200.00 EUR; 0 h + 800.00 EUR left of 10 h + 1000.00 EUR";
     mkNote "penny" "REPRICE" "a base price of 7155.56 EUR clears the contribution and payback gates";
     mkNote "saas" "CONTINUE_ACTIVE" "rank 1: stage `landing`"]%string.

Lemma allocation_follows_the_table_witness :
  NoDup (week_ids (portfolio sample_week))
  ∧ week_ids (portfolio sample_week) = ["saas"; "gig"; "foggy"; "penny"]%string
  ∧ week_ids (portfolio sample_week) ≡ₚ map (λ c, cid c) Sample.week.
Proof.
  destruct (allocation_follows_the_table Sample.hash Sample.show_time (λ _, Sample.sha) Sample.head
    Sample.week Sample.profile Sample.cited sample_week ltac:(vm_compute; discriminate)
    ltac:(vm_compute; discriminate) ltac:(vm_compute; reflexivity)) as (H1 & H2 & _).
  split; [exact H1|]. split; [reflexivity|exact H2].
Defined.

Lemma allocation_stays_within_budget_witness :
  within_budget Sample.profile (w_allocation (portfolio sample_week))
  ∧ w_allocation (portfolio sample_week) = mkAllocation 10 20000.
Proof.
  split; [|reflexivity].
  exact (proj1 (allocation_stays_within_budget Sample.hash Sample.show_time (λ _, Sample.sha) Sample.head
    Sample.week Sample.profile Sample.cited sample_week ltac:(vm_compute; discriminate)
    ltac:(vm_compute; discriminate) ltac:(vm_compute; reflexivity))).
Defined.
