(* ===== verification/Bytes.v ===== *)
(** * Bytes: what the code does to the bytes of a text

    Rust's [as_bytes] and the operations of the standard library on byte
    slices and on [str] that look for a substring, a suffix or a char
    boundary, with their lemmas. *)

From Stdlib Require Import Ascii String.
From S2P Require Import Prelude.
From S2P Require Import Text.

#[local] Open Scope string_scope.
#[local] Open Scope list_scope.
#[local] Open Scope nat_scope.

Notation bytes := list_ascii_of_string.
Notation of_bytes := string_of_list_ascii.

(** [format!] of a newline and of a double quote. *)
Definition nl : string := String "010" EmptyString.
Definition quote : string := String "034" EmptyString.

Definition is_ascii_whitespace (a : ascii) : bool :=
  existsb (Z.eqb (code a)) [9; 10; 12; 13; 32]%Z.
Definition to_ascii_lowercase (a : ascii) : ascii :=
  if is_ascii_uppercase a then ascii_of_N (N_of_ascii a + 32) else a.

(** The second byte and on of a char: not a char boundary. *)
Definition is_continuation (a : ascii) : bool := in_range 128 191 (code a).

Fixpoint position (c : ascii) (b : list ascii) : option nat :=
  match b with
  | [] => None
  | a :: b => if Ascii.eqb a c then Some 0 else S <$> position c b
  end.

Definition eq_ignore_ascii_case (x y : list ascii) : bool :=
  bool_decide (map to_ascii_lowercase x = map to_ascii_lowercase y).

(** [str::split_once] at a string and [str::strip_suffix]. *)
Fixpoint split_once_str (p s : string) : option (string * string) :=
  match strip_prefix p s with
  | Some r => Some (EmptyString, r)
  | None =>
      match s with
      | EmptyString => None
      | String a s =>
          match split_once_str p s with Some (x, y) => Some (String a x, y) | None => None end
      end
  end.

Definition strip_suffix (p s : string) : option string :=
  str_rev <$> strip_prefix (str_rev p) (str_rev s).

(** [chars().count()] and [chars().take(n)]. *)
Fixpoint char_count (s : string) : nat :=
  match s with
  | EmptyString => 0
  | String a s => if is_continuation a then char_count s else S (char_count s)
  end.
Fixpoint take_chars (n : nat) (s : string) : string :=
  match s with
  | EmptyString => EmptyString
  | String a s =>
      if is_continuation a then String a (take_chars n s)
      else match n with O => EmptyString | S n => String a (take_chars n s) end
  end.

(** [s.chars()], each as its bytes. *)
Fixpoint chars (s : string) : list string :=
  match s with
  | EmptyString => []
  | String a s =>
      let cs := chars s in
      match s, cs with
      | String b _, c :: cs =>
          if is_continuation b then String a c :: cs else String a EmptyString :: c :: cs
      | _, _ => String a EmptyString :: cs
      end
  end.

(** ** Lemmas *)

Lemma sublist_length_inj {A} (l k : list A) : l `sublist_of` k → length k ≤ length l → l = k.
Proof.
  intros H. induction H as [|x l k H IH|x l k H IH]; cbn; intros L; [done| |].
  - f_equal. apply IH. lia.
  - apply sublist_length in H. lia.
Qed.

Lemma bytes_app a b : bytes (a +:+ b)%string = bytes a ++ bytes b.
Proof.
  induction a as [|x a IH]; [done|]. rewrite str_app_cons. cbn [list_ascii_of_string].
  by rewrite IH.
Qed.

Lemma of_bytes_bytes s : of_bytes (bytes s) = s.
Proof. apply string_of_list_ascii_of_string. Qed.

Lemma bytes_of_bytes b : bytes (of_bytes b) = b.
Proof. apply list_ascii_of_string_of_list_ascii. Qed.

Lemma bytes_inj a b : bytes a = bytes b → a = b.
Proof. intros H. by rewrite <-(of_bytes_bytes a), H, of_bytes_bytes. Qed.

Lemma length_bytes s : length (bytes s) = str_len s.
Proof. induction s as [|a s IH]; [done|]. cbn. by rewrite IH. Qed.

Lemma str_forall_Forall (p : ascii → bool) (P : ascii → Prop) s :
  (∀ a, p a = true → P a) → str_forall p s = true → Forall P (bytes s).
Proof.
  intros Hp. induction s as [|a s IH]; cbn [str_forall]; [constructor|].
  intros [H1 H2]%andb_true_iff. constructor; auto.
Qed.

Lemma strip_prefix_spec p s r : strip_prefix p s = Some r ↔ s = (p +:+ r)%string.
Proof.
  revert s. induction p as [|a p IH]; intros s; cbn [strip_prefix].
  { split; [by intros [= ->]|by intros ->]. }
  rewrite str_app_cons. destruct s as [|b s]; [done|].
  destruct (Ascii.eqb_spec a b) as [->|N]; [|split; [done|by intros [= ->]]].
  rewrite IH. split; [by intros ->|by intros [= ->]].
Qed.

Lemma str_rev_onto_bytes s acc : bytes (str_rev_onto s acc) = reverse (bytes s) ++ bytes acc.
Proof.
  revert acc. induction s as [|a s IH]; intros acc; cbn [str_rev_onto]; [done|].
  rewrite IH. cbn [list_ascii_of_string]. by rewrite reverse_cons, <-app_assoc.
Qed.

Lemma str_rev_bytes s : bytes (str_rev s) = reverse (bytes s).
Proof. unfold str_rev. by rewrite str_rev_onto_bytes, app_nil_r. Qed.

Lemma strip_suffix_spec p s x : strip_suffix p s = Some x ↔ s = (x +:+ p)%string.
Proof.
  unfold strip_suffix. rewrite fmap_Some. setoid_rewrite strip_prefix_spec. split.
  - intros (y & E & ->). apply bytes_inj. apply (f_equal (reverse ∘ bytes)) in E. revert E.
    cbn [compose]. rewrite !bytes_app, !str_rev_bytes, reverse_app, !reverse_involutive. done.
  - intros ->. exists (str_rev x). split; apply bytes_inj;
      rewrite ?bytes_app, !str_rev_bytes, ?bytes_app, ?reverse_app, ?reverse_involutive; done.
Qed.

Lemma split_once_str_sound p s a b : split_once_str p s = Some (a, b) → s = (a +:+ p +:+ b)%string.
Proof.
  revert a. induction s as [|c s IH]; intros a; cbn [split_once_str].
  - destruct (strip_prefix p _) eqn:E; [|done]. intros [= <- <-]. by apply strip_prefix_spec in E.
  - destruct (strip_prefix p _) eqn:E.
    + intros [= <- <-]. by apply strip_prefix_spec in E.
    + destruct (split_once_str p s) as [[x y]|]; [|done]. intros [= <- <-].
      rewrite str_app_cons. f_equal. by apply IH.
Qed.

Lemma split_once_str_first c p a b :
  Forall (λ x, x ≠ c) (bytes a) →
  split_once_str (String c p) (a +:+ String c p +:+ b) = Some (a, b).
Proof.
  assert (Hp : ∀ t, strip_prefix (String c p) (String c p +:+ t) = Some t).
  { intros t. by apply strip_prefix_spec. }
  induction a as [|x a IH]; intros F.
  { change (EmptyString +:+ ?x)%string with x. specialize (Hp b). revert Hp.
    rewrite str_app_cons. cbn [split_once_str]. by intros ->. }
  inversion F as [|? ? Hx F']; subst. rewrite str_app_cons. cbn [split_once_str].
  cbn [strip_prefix]. destruct (Ascii.eqb_spec c x) as [->|]; [done|]. by rewrite IH.
Qed.

Lemma str_app_assoc (a b c : string) : ((a +:+ b) +:+ c = a +:+ b +:+ c)%string.
Proof. induction a as [|x a IH]; [done|]. by rewrite !str_app_cons, IH. Qed.
