(* ===== verification/Substr.v ===== *)
(** * Substrings: [contains], [split], [replace], [matches]

    Rust's searches for a non-empty pattern in a [str]: leftmost matches that
    do not overlap, on the bytes (a match of a whole UTF-8 text never splits a
    char). *)

From Stdlib Require Import Ascii String.
From S2P Require Import Prelude.
From S2P Require Import Text.
From S2P Require Import Bytes.

#[local] Open Scope string_scope.
#[local] Open Scope list_scope.
#[local] Open Scope nat_scope.

(** [s.contains(p)]. *)
Definition contains (p s : string) : bool :=
  match split_once_str p s with Some _ => true | None => false end.

Definition starts_with (p s : string) : bool :=
  match strip_prefix p s with Some _ => true | None => false end.
Definition ends_with (p s : string) : bool :=
  match strip_suffix p s with Some _ => true | None => false end.

(** [s.split(p)]: each turn takes a match of at least one byte, so the length
    is enough fuel. *)
Fixpoint split_fuel (fuel : nat) (p s : string) : list string :=
  match fuel with
  | O => [s]
  | S fuel =>
      match split_once_str p s with
      | Some (a, b) => a :: split_fuel fuel p b
      | None => [s]
      end
  end.
Definition split_str (p s : string) : list string := split_fuel (S (str_len s)) p s.

(** [s.matches(p).count()], [s.replace(p, r)] and [s.replacen(p, r, 1)]. *)
Definition match_count (p s : string) : nat := length (split_str p s) - 1.
Definition replace (p r s : string) : string := join r (split_str p s).
Definition replace_once (p r s : string) : string :=
  match split_once_str p s with Some (a, b) => (a +:+ r +:+ b)%string | None => s end.

(** ** Occurrences *)

Definition occurs (p s : string) : Prop := ∃ a b, s = (a +:+ p +:+ b)%string.

Lemma str_len_app_s a b : str_len (a +:+ b)%string = str_len a + str_len b.
Proof. apply str_len_app. Qed.

Lemma occurs_refl s : occurs s s.
Proof. exists EmptyString, EmptyString. by rewrite str_app_nil_r. Qed.

Lemma occurs_trans p s t : occurs p s → occurs s t → occurs p t.
Proof.
  intros (a & b & ->) (c & d & ->). exists (c +:+ a)%string, (b +:+ d)%string. by rewrite !str_app_assoc.
Qed.

Lemma split_once_str_none p s : split_once_str p s = None ↔ ¬ occurs p s.
Proof.
  induction s as [|c s IH]; cbn [split_once_str].
  - destruct (strip_prefix p EmptyString) as [r|] eqn:E; split; try done.
    + apply strip_prefix_spec in E. intros H. destruct H. exists EmptyString, r. exact E.
    + intros _ (a & b & H). destruct a; [|done].
      change (EmptyString +:+ ?x)%string with x in H. symmetry in H.
      apply (f_equal (λ s, s)) in H. rewrite <-H in E.
      assert (strip_prefix p (p +:+ b)%string = Some b) as E' by (by apply strip_prefix_spec). congruence.
  - destruct (strip_prefix p (String c s)) as [r|] eqn:E.
    { apply strip_prefix_spec in E. split; [done|]. intros H. destruct H. by exists EmptyString, r. }
    transitivity (split_once_str p s = None); [destruct (split_once_str p s) as [[? ?]|]; by split|].
    rewrite IH. apply not_iff_compat. split.
    + intros (a & b & ->). exists (String c a), b. done.
    + intros (a & b & H). destruct a as [|x a].
      * change (EmptyString +:+ ?x)%string with x in H.
        assert (strip_prefix p (String c s) = Some b) as E' by (by apply strip_prefix_spec). congruence.
      * rewrite str_app_cons in H. injection H as _ ->. by exists a, b.
Qed.

Lemma contains_spec p s : contains p s = true ↔ occurs p s.
Proof.
  unfold contains. destruct (split_once_str p s) as [[a b]|] eqn:E.
  - split; [|done]. intros _. exists a, b. by apply split_once_str_sound.
  - apply split_once_str_none in E. by split.
Qed.

(** The match is the leftmost one. *)
Lemma split_once_str_least p s a b a' b' :
  split_once_str p s = Some (a, b) → s = (a' +:+ p +:+ b')%string → str_len a ≤ str_len a'.
Proof.
  revert a a'. induction s as [|c s IH]; intros a a'; cbn [split_once_str].
  - destruct (strip_prefix p EmptyString); [|done]. intros [= <- <-] _. cbn. lia.
  - destruct (strip_prefix p (String c s)) as [r|] eqn:E; [intros [= <- <-] _; cbn; lia|].
    destruct (split_once_str p s) as [[x y]|]; [|done]. intros [= <- <-] H. destruct a' as [|x' a'].
    + change (EmptyString +:+ ?x)%string with x in H.
      assert (strip_prefix p (String c s) = Some b') as E' by (by apply strip_prefix_spec). congruence.
    + rewrite str_app_cons in H. injection H as _ H. specialize (IH x a' eq_refl H).
      unfold str_len in *. cbn. lia.
Qed.

(** What is before the leftmost match holds none. *)
Lemma before_match_free p s a b :
  p ≠ EmptyString → split_once_str p s = Some (a, b) → ¬ occurs p a.
Proof.
  intros Hp E (x & y & Ha). pose proof (split_once_str_sound _ _ _ _ E) as Hs.
  assert (s = (x +:+ p +:+ y +:+ p +:+ b)%string) as H by (by rewrite Hs, Ha, !str_app_assoc).
  pose proof (split_once_str_least _ _ _ _ _ _ E H) as L. rewrite Ha, !str_len_app_s in L.
  destruct p; [done|]. unfold str_len in *. cbn in L. lia.
Qed.

(** ** Splitting and replacing *)

Section split.
Context (p : string) (Hp : p ≠ EmptyString).

Lemma split_fuel_cases fuel s :
str_len s < fuel →
(¬ occurs p s ∧ split_fuel fuel p s = [s]) ∨
∃ a b fuel', split_once_str p s = Some (a, b) ∧ split_fuel fuel p s = a :: split_fuel fuel' p b
  ∧ str_len b < fuel' ∧ fuel = S fuel'.
Proof.
destruct fuel as [|fuel]; [lia|]. intros L. cbn [split_fuel].
destruct (split_once_str p s) as [[a b]|] eqn:E.
- right. exists a, b, fuel. split_and!; try done. apply split_once_str_sound in E as ->.
  rewrite !str_len_app_s in L. destruct p; [done|]. unfold str_len in *. cbn in L. lia.
- left. split; [by apply split_once_str_none|done].
Qed.

Lemma split_ind (P : string → list string → Prop) :
(∀ s, ¬ occurs p s → P s [s]) →
(∀ s a b l, split_once_str p s = Some (a, b) → P b l → P s (a :: l)) →
∀ s, P s (split_str p s).
Proof.
intros H1 H2 s. unfold split_str. generalize (S (str_len s)) (Nat.lt_succ_diag_r (str_len s)).
intros fuel. revert s. induction fuel as [|fuel IH]; intros s L; [lia|].
destruct (split_fuel_cases _ s L) as [[Hn ->]|(a & b & f & E & -> & Lf & [= ->])]; [by apply H1|].
by eapply H2; [|apply IH].
Qed.

Lemma split_nonempty s : split_str p s ≠ [].
Proof. revert s. by apply (split_ind (λ _ l, l ≠ [])). Qed.

Lemma join_cons sep a l : l ≠ [] → join sep (a :: l) = (a +:+ sep +:+ join sep l)%string.
Proof. by destruct l. Qed.

(** Splitting loses nothing. *)
Lemma join_split s : join p (split_str p s) = s.
Proof.
assert (join p (split_str p s) = s ∧ split_str p s ≠ []) as [H _]; [|done].
revert s. apply (split_ind (λ s l, join p l = s ∧ l ≠ [])).
- intros s _. done.
- intros s a b l E [IH N]. split; [|done]. rewrite join_cons, IH by done.
  by apply split_once_str_sound in E as ->.
Qed.

(** No piece holds the pattern, and each is a part of the text. *)
Lemma split_pieces s : Forall (λ x, ¬ occurs p x ∧ occurs x s) (split_str p s).
Proof.
revert s. apply (split_ind (λ s l, Forall (λ x, ¬ occurs p x ∧ occurs x s) l)).
- intros s H. constructor; [|constructor]. split; [done|apply occurs_refl].
- intros s a b l E IH. pose proof (split_once_str_sound _ _ _ _ E) as Hs. constructor.
  + split; [by eapply before_match_free|]. by exists EmptyString, (p +:+ b)%string.
  + eapply Forall_impl; [exact IH|]. intros x [Hx Ho]. split; [done|].
    eapply occurs_trans; [exact Ho|]. exists (a +:+ p)%string, EmptyString.
    rewrite str_app_nil_r, Hs. symmetry. apply str_app_assoc.
Qed.

Lemma split_none s : ¬ occurs p s → split_str p s = [s].
Proof.
intros H. unfold split_str. cbn [split_fuel]. apply split_once_str_none in H. by rewrite H.
Qed.

Lemma replace_none r s : ¬ occurs p s → replace p r s = s.
Proof. intros H. unfold replace. by rewrite split_none. Qed.

Lemma match_count_zero s : match_count p s = 0 ↔ ¬ occurs p s.
Proof.
unfold match_count, split_str. cbn [split_fuel]. rewrite <-split_once_str_none.
destruct (split_once_str p s) as [[a b]|]; [|by split]. split; [|done]. intros H.
assert (split_fuel (str_len s) p b ≠ []) as N by (destruct (str_len s); cbn; [done|];
  destruct (split_once_str p b) as [[? ?]|]; done).
destruct (split_fuel _ _ _); cbn in H; [done|lia].
Qed.
End split.

(** ** A pattern without the separator's ends *)

Lemma prefix_across s b c z y :
  Forall (λ a, a ≠ c) (bytes s) → (z +:+ String c y)%string = (s +:+ b)%string →
  ∃ b', z = (s +:+ b')%string.
Proof.
  revert s. induction z as [|d z IH]; intros s Hc H.
  - destruct s as [|e s]; [by exists EmptyString|]. inversion Hc; subst.
    rewrite str_app_cons in H. injection H as <- _. done.
  - destruct s as [|e s]; [by exists (String d z)|]. rewrite !str_app_cons in H. injection H as -> H.
    inversion Hc; subst. destruct (IH s) as [b' ->]; [done..|]. by exists b'.
Qed.

(** A text without [c] that occurs across a [c] occurs on one side of it. *)
Lemma occurs_across s c x y :
  Forall (λ a, a ≠ c) (bytes s) → occurs s (x +:+ String c y)%string → occurs s x ∨ occurs s y.
Proof.
  intros Hc (a & b & H). revert a H. induction x as [|d x IH]; intros a H.
  - change (EmptyString +:+ ?x)%string with x in H. right. destruct a as [|e a].
    + destruct s as [|e s]; [by exists EmptyString, y|]. inversion Hc; subst.
      change (EmptyString +:+ ?x)%string with x in H. rewrite str_app_cons in H. injection H as <- _. done.
    + rewrite str_app_cons in H. injection H as _ ->. by exists a, b.
  - destruct a as [|e a].
    + change (EmptyString +:+ ?x)%string with x in H. left.
      apply prefix_across in H as [b' ->]; [by exists EmptyString, b'|done].
    + rewrite !str_app_cons in H. injection H as _ H. destruct (IH a H) as [Ho|Ho]; [left|by right].
      eapply occurs_trans; [exact Ho|]. exists (String d EmptyString), EmptyString. by rewrite str_app_nil_r.
Qed.

(** [r] is [l], a text without [s], between two chars [s] has not. *)
Lemma join_free s l c d r xs :
  r = (String c l +:+ String d EmptyString)%string →
  Forall (λ a, a ≠ c ∧ a ≠ d) (bytes s) → ¬ occurs s l → Forall (λ x, ¬ occurs s x) xs →
  s ≠ EmptyString → ¬ occurs s (join r xs).
Proof.
  intros -> Hs Hl Hxs Hne.
  assert (Hc : Forall (λ a, a ≠ c) (bytes s)) by (eapply Forall_impl; [exact Hs|]; by intros ? []).
  assert (Hd : Forall (λ a, a ≠ d) (bytes s)) by (eapply Forall_impl; [exact Hs|]; by intros ? []).
  induction Hxs as [|x xs Hx Hxs IH].
  { intros (a & b & H). destruct a, s; done. }
  destruct xs as [|y xs]; [done|]. rewrite join_cons by done. intros H.
  rewrite !str_app_cons, str_app_assoc in H. apply occurs_across in H as [H|H]; [done| |done].
  change (String d EmptyString +:+ ?x)%string with (String d x) in H.
  by apply occurs_across in H as [H|H].
Qed.
