(* ===== verification/Json.v ===== *)
(** * JSON values ([serde_json::Value])

    The values the code walks and answers with, the operations it uses on an
    object's map, and their induction principle. *)

From Stdlib Require Import Ascii String.
From S2P Require Import Prelude.
From S2P Require Import Text.

#[local] Open Scope string_scope.
#[local] Open Scope list_scope.

(** [serde_json::Value]; an object's fields in the order of its map, the
    keys'. A number is its text. *)
Inductive json : Type :=
  | JNull
  | JBool (b : bool)
  | JNumber (n : string)
  | JString (s : string)
  | JArray (l : list json)
  | JObject (o : list (string * json)).

(** [Map::remove] and [Map::insert]. *)
Definition obj_get (k : string) (o : list (string * json)) : option json :=
  snd <$> List.find (λ p, String.eqb (fst p) k) o.
Definition obj_remove (k : string) (o : list (string * json)) : list (string * json) :=
  List.filter (λ p, negb (String.eqb (fst p) k)) o.
Fixpoint obj_insert (k : string) (v : json) (o : list (string * json)) : list (string * json) :=
  match o with
  | [] => [(k, v)]
  | (k', v') :: o' =>
      match str_cmp k k' with
      | Lt => (k, v) :: o
      | Eq => (k, v) :: o'
      | Gt => (k', v') :: obj_insert k v o'
      end
  end.

(** ** Induction *)

Section json_ind.
Context (P : json → Prop).
Context (Hnull : P JNull) (Hbool : ∀ b, P (JBool b)) (Hnum : ∀ n, P (JNumber n)) (Hstr : ∀ s, P (JString s)).
Context (Harr : ∀ l, Forall P l → P (JArray l)).
Context (Hobj : ∀ o, Forall (λ p, P (snd p)) o → P (JObject o)).

Fixpoint json_rect' (v : json) : P v :=
match v with
| JNull => Hnull
| JBool b => Hbool b
| JNumber n => Hnum n
| JString s => Hstr s
| JArray l =>
    Harr l ((fix go l : Forall P l :=
      match l with [] => Forall_nil_2 _ | x :: l => Forall_cons_2 _ _ _ (json_rect' x) (go l) end) l)
| JObject o =>
    Hobj o ((fix go o : Forall (λ p, P (snd p)) o :=
      match o with [] => Forall_nil_2 _ | p :: o => Forall_cons_2 _ _ _ (json_rect' (snd p)) (go o) end) o)
end.
End json_ind.

(** ** Maps *)

Lemma obj_get_in k o x : obj_get k o = Some x → (k, x) ∈ o.
Proof.
  unfold obj_get. intros H. apply fmap_Some in H as ([k' v] & H & ->). apply find_some in H as [H E].
  apply String.eqb_eq in E. cbn in E. subst. by apply list_elem_of_In.
Qed.

Lemma obj_get_none k o : obj_get k o = None → Forall (λ p, fst p ≠ k) o.
Proof.
  unfold obj_get. intros H. apply fmap_None in H. apply Forall_forall. intros p Hp <-.
  apply list_elem_of_In in Hp. pose proof (find_none _ _ H p Hp) as E. cbn in E. by rewrite String.eqb_refl in E.
Qed.

Lemma obj_insert_forall (R : string * json → Prop) k v o :
  R (k, v) → Forall R o → Forall R (obj_insert k v o).
Proof.
  intros H. induction 1 as [|[k' v'] o Hp Ho IH]; cbn [obj_insert]; [by constructor|].
  destruct (str_cmp k k'); repeat constructor; done.
Qed.
