(* ===== verification/Untrusted.v ===== *)
(** * The fence for text from outside ([src/src/domain/untrusted.rs],
    [src/src/domain/token.rs])

    A [str] is the list of its UTF-8 bytes where the code indexes bytes
    ([as_bytes]) and the [string] of them elsewhere ([Text]). A char that is
    not ASCII is a lead byte and continuation bytes, none of them an ASCII
    byte, so pushing it byte by byte is pushing it whole. Also the byte and
    char cuts of [token.rs]. *)

From Stdlib Require Import Ascii String.
From S2P Require Import Prelude.
From S2P Require Import Text.
From S2P Require Import Bytes.

#[local] Open Scope string_scope.
#[local] Open Scope list_scope.

(** ** Fence tags *)

Definition TAG : string := "untrusted".
Definition TAGS : list string := [TAG; "source-text"; "memory-context"; "step-input"].
Definition MAX_ORIGIN : nat := 64.

Fixpoint ws_len (b : list ascii) : nat :=
  match b with
  | a :: b => if is_ascii_whitespace a then S (ws_len b) else 0
  | [] => 0
  end.

(** [skip_ws]: from index [j], the first index that holds no whitespace. *)
Definition skip_ws (b : list ascii) (j : nat) : nat := j + ws_len (drop j b).

Definition ends_name (a : ascii) : bool :=
  Ascii.eqb a ">" || Ascii.eqb a "/" || is_ascii_whitespace a.

Definition tag_len (b tag : list ascii) : option nat :=
  let j := skip_ws b 1 in
  let j := if decide (b !! j = Some "/"%char) then skip_ws b (j + 1) else j in
  if (length b <? j + length tag)%nat
     || negb (eq_ignore_ascii_case (take (length tag) (drop j b)) tag)
  then None
  else
    let j := j + length tag in
    match b !! j with
    | None => Some (length b)
    | Some c =>
        if ends_name c then
          Some (match position ">" (drop j b) with Some p => j + p + 1 | None => length b end)
        else None
    end.

(** [if b[i] == b'<']: the length of the first of [tags] that starts here. *)
Definition tag_here (tags : list string) (b : list ascii) : option nat :=
  match b with
  | "<"%char :: _ =>
      head (omap (λ t, tag_len b (bytes t)) tags)
  | _ => None
  end.

(** [i += len] skips [len] bytes, [skip] the ones of them still to come. *)
Fixpoint strip_go (tags : list string) (skip : nat) (b : list ascii) : list ascii :=
  match b with
  | [] => []
  | a :: b' =>
      match skip with
      | S skip => strip_go tags skip b'
      | O =>
          match tag_here tags b with
          | Some len => strip_go tags (len - 1) b'
          | None => a :: strip_go tags 0 b'
          end
      end
  end.

Definition strip_tags (text : string) (tags : list string) : string :=
  of_bytes (strip_go tags 0 (bytes text)).

(** The [loop]: a pass that changes the text takes a byte at least, so its
    length bounds the passes. *)
Fixpoint strip_loop (tags : list string) (fuel : nat) (s : string) : string :=
  let next := strip_tags s tags in
  if String.eqb next s then s
  else match fuel with S fuel => strip_loop tags fuel next | O => s end.
Definition strip_all (text : string) (tags : list string) : string :=
  strip_loop tags (str_len text) text.

(** [filter(|c| !c.is_control() || *c == '\n' || *c == '\t')]: U+0000 to
    U+001F, U+007F and U+0080 to U+009F (C2 80 to C2 9F) are controls. *)
Fixpoint drop_controls (b : list ascii) : list ascii :=
  match b with
  | [] => []
  | a :: b' =>
      if (code a <? 32)%Z && negb ((code a =? 10)%Z || (code a =? 9)%Z) || (code a =? 127)%Z
      then drop_controls b'
      else match b' with
           | c :: b'' =>
               if (code a =? 194)%Z && in_range 128 159 (code c) then drop_controls b''
               else a :: drop_controls b'
           | [] => [a]
           end
  end.

Definition clean (text : string) : string :=
  strip_all (of_bytes (drop_controls (bytes text))) TAGS.

(** ** The fence *)

Definition token_char (a : ascii) : bool :=
  is_ascii_alphanumeric a || existsb (Ascii.eqb a) ["_"; ":"; "."; "/"; "@"; "-"]%char.

(** The first [n] chars, each one kept or ['_']. *)
Fixpoint token_go (n : nat) (s : string) : string :=
  match s with
  | EmptyString => EmptyString
  | String a s =>
      if is_continuation a then token_go n s
      else match n with
           | O => EmptyString
           | S n => String (if token_char a then a else "_") (token_go n s)
           end
  end.

Definition token (s : string) : string :=
  let token := token_go MAX_ORIGIN s in
  if str_is_empty token then "unknown" else token.

Definition opening : string := ("<" +:+ TAG +:+ " origin=" +:+ quote)%string.
Definition closing : string := ("</" +:+ TAG +:+ ">")%string.

Definition fence (origin text : string) : string :=
  (opening +:+ token origin +:+ quote +:+ ">" +:+ nl +:+ clean text +:+ nl +:+ closing)%string.

Definition unwrap (s : string) : option (string * string) :=
  rest ← strip_prefix opening s;
  '(origin, rest) ← split_once_str (quote +:+ ">" +:+ nl) rest;
  inner ← strip_suffix (nl +:+ closing) rest;
  Some (origin, inner).

Definition MCP_NAME_SEPARATOR : string := "__".

Definition tool_origin (tool : string) : option string :=
  if existsb (String.eqb tool) ["http_request"; "a2a"; "agentic_memory"; "memory_search"]
  then Some tool
  else '(server, _) ← split_once_str MCP_NAME_SEPARATOR tool; Some ("mcp:" +:+ server)%string.

(** ** Cuts at a char boundary ([token.rs]) *)

Definition CHARS_PER_TOKEN : nat := 4.
Definition TOOL_RESULT_WINDOW_DIVISOR : nat := 8.
Definition estimate_tokens_approx (text : string) : nat := str_len text / CHARS_PER_TOKEN.
Definition estimate_tokens_approx_min1 (text : string) : nat :=
  Nat.max (estimate_tokens_approx text) 1.

Definition usize_max : Z := (2 ^ 64 - 1)%Z.
Definition tool_result_char_budget (context_window : Z) : Z :=
  Z.min usize_max (context_window / Z.of_nat TOOL_RESULT_WINDOW_DIVISOR * Z.of_nat CHARS_PER_TOKEN).

Definition is_char_boundary (s : list ascii) (i : nat) : bool :=
  match s !! i with
  | Some a => negb (is_continuation a)
  | None => (i =? length s)%nat
  end.

Fixpoint boundary_at (s : list ascii) (end_ : nat) : nat :=
  match end_ with
  | O => O
  | S e => if is_char_boundary s end_ then end_ else boundary_at s e
  end.

Definition truncate_at_boundary (s : string) (max : nat) : option (string * nat) :=
  if (str_len s <=? max)%nat then None
  else
    let end_ := boundary_at (bytes s) max in
    Some (of_bytes (take end_ (bytes s)), end_).

Definition truncate_with_suffix (s : string) (max : nat) (suffix : string) : string :=
  match truncate_at_boundary s max with
  | None => s
  | Some (prefix, _) => (prefix +:+ suffix)%string
  end.

Definition ellipsis : string := bytes_str [226; 128; 166]%Z.
Definition clip_chars (s : string) (max : nat) : string :=
  if (char_count s <=? max)%nat then s else (take_chars (max - 1) s +:+ ellipsis)%string.

(** ** The fence holds

    [strip_all] ends on a text without any of the tags; the closing tag
    assembles no new one with the cleaned text before it; the fence round
    trips; a cut keeps a prefix at a char boundary. *)

#[local] Open Scope string_scope.
#[local] Open Scope list_scope.
#[local] Open Scope nat_scope.

(** ** One pass of [strip_tags] *)

Lemma tag_len_pos b tag n : b ≠ [] → tag_len b tag = Some n → 1 ≤ n.
Proof.
  intros Hb. unfold tag_len. destruct (_ || _); [done|].
  destruct (_ !! _) as [c|].
  - destruct (ends_name c); [|done]. destruct (position _ _) as [p|]; intros [= <-]; [lia|].
    destruct b; [done|]. cbn. lia.
  - intros [= <-]. destruct b; [done|]. cbn. lia.
Qed.

Lemma tag_here_some tags b n :
  tag_here tags b = Some n → ∃ t, t ∈ tags ∧ tag_len b (bytes t) = Some n.
Proof.
  unfold tag_here. destruct b as [|a b]; [done|].
  destruct (decide (a = "<"%char)) as [->|Ha].
  - induction tags as [|t tags IH]; [done|]. cbn.
    destruct (tag_len _ (bytes t)) as [m|] eqn:E; cbn.
    + intros [= <-]. exists t. split; [constructor|done].
    + intros H. apply IH in H as (t' & Ht & H). exists t'. split; [by constructor|done].
  - destruct a as [[] [] [] [] [] [] [] []]; done.
Qed.

Lemma tag_here_none tags r :
  tag_here tags ("<"%char :: r) = None ↔
  ∀ t, t ∈ tags → tag_len ("<"%char :: r) (bytes t) = None.
Proof.
  cbn [tag_here]. induction tags as [|t tags IH].
  { split; [|done]. intros _ t H. by apply elem_of_nil in H. }
  cbn [omap list_omap]. destruct (tag_len _ (bytes t)) as [m|] eqn:E; cbn [head].
  - split; [done|]. intros H. rewrite <-E. apply H. constructor.
  - rewrite IH. split.
    + intros H t' [->|Ht]%elem_of_cons; [done|by apply H].
    + intros H t' Ht. apply H. by constructor.
Qed.

Lemma tag_here_lt tags a r : a ≠ "<"%char → tag_here tags (a :: r) = None.
Proof. intros H. destruct a as [[] [] [] [] [] [] [] []]; done. Qed.

Lemma strip_go_sublist tags skip b : strip_go tags skip b `sublist_of` b.
Proof.
  revert skip. induction b as [|a b IH]; intros skip; [constructor|].
  cbn [strip_go]. destruct skip; [|apply sublist_cons, IH].
  destruct (tag_here _ _); [apply sublist_cons, IH|apply sublist_skip, IH].
Qed.

(** No suffix of [b] starts a tag. *)
Definition tag_free (tags : list string) (b : list ascii) : Prop :=
  ∀ b1 b2, b = b1 ++ b2 → tag_here tags b2 = None.

Lemma tag_free_cons tags a b :
  tag_free tags (a :: b) ↔ tag_here tags (a :: b) = None ∧ tag_free tags b.
Proof.
  split.
  - intros H. split; [by apply (H [])|]. intros b1 b2 ->. by apply (H (a :: b1)).
  - intros [H1 H2] [|x b1] b2 E; [cbn in E; by rewrite <-E|]. injection E as -> ->. by apply (H2 b1).
Qed.

Lemma strip_go_fix tags b : strip_go tags 0 b = b ↔ tag_free tags b.
Proof.
  induction b as [|a b IH].
  { split; [|done]. intros _ b1 b2 E. symmetry in E. apply app_eq_nil in E as [_ ->]. done. }
  rewrite tag_free_cons, <-IH. cbn [strip_go].
  destruct (tag_here tags (a :: b)) as [n|] eqn:E.
  - split; [|by intros [? _]]. intros H.
    pose proof (sublist_length _ _ (strip_go_sublist tags (n - 1) b)) as L.
    rewrite H in L. cbn in L. lia.
  - split; [by intros [= ->]|by intros [_ ->]].
Qed.

Lemma strip_go_shrinks tags b :
  strip_go tags 0 b ≠ b → length (strip_go tags 0 b) < length b.
Proof.
  intros H. pose proof (strip_go_sublist tags 0 b) as L.
  pose proof (sublist_length _ _ L).
  destruct (decide (length (strip_go tags 0 b) = length b)) as [E|]; [|lia].
  destruct H. apply sublist_length_inj; [done|lia].
Qed.

Lemma strip_loop_spec tags fuel s :
  str_len s ≤ fuel →
  tag_free tags (bytes (strip_loop tags fuel s)) ∧
  bytes (strip_loop tags fuel s) `sublist_of` bytes s.
Proof.
  assert (Hfix : ∀ s, strip_tags s tags = s → tag_free tags (bytes s)).
  { intros t E. apply strip_go_fix. unfold strip_tags in E.
    apply (f_equal bytes) in E. by rewrite bytes_of_bytes in E. }
  assert (Hsub : ∀ s, bytes (strip_tags s tags) `sublist_of` bytes s).
  { intros t. unfold strip_tags. rewrite bytes_of_bytes. apply strip_go_sublist. }
  assert (Hlt : ∀ s, strip_tags s tags ≠ s → str_len (strip_tags s tags) < str_len s).
  { intros t E. rewrite <-!length_bytes. unfold strip_tags. rewrite bytes_of_bytes.
    apply strip_go_shrinks. intros F. apply E. unfold strip_tags. rewrite F. apply of_bytes_bytes. }
  revert s. induction fuel as [|fuel IH]; intros s Hf; cbn [strip_loop];
    destruct (String.eqb_spec (strip_tags s tags) s) as [E|E]; auto.
  - apply Hlt in E. lia.
  - pose proof (Hlt s E). destruct (IH (strip_tags s tags) ltac:(lia)) as [H1 H2].
    split; [done|]. by etrans.
Qed.

(** ** Where a tag's name stands *)

Definition after_ws (b : list ascii) : list ascii := drop (ws_len b) b.

(** What is left of a tag after [<], whitespace, [/] and whitespace. *)
Definition name_rest (r : list ascii) : list ascii :=
  match after_ws r with
  | x :: r2 => if Ascii.eqb x "/" then after_ws r2 else x :: r2
  | [] => []
  end.

Definition named (tag x : list ascii) : Prop :=
  map to_ascii_lowercase (take (length tag) x) = map to_ascii_lowercase tag ∧
  (∀ c, x !! length tag = Some c → ends_name c = true).

Lemma drop_skip_ws b j : drop (skip_ws b j) b = after_ws (drop j b).
Proof. unfold skip_ws, after_ws. rewrite drop_drop. f_equal. Qed.

Lemma lookup_skip_ws b j : b !! skip_ws b j = head (after_ws (drop j b)).
Proof. rewrite <-drop_skip_ws. by rewrite head_lookup, lookup_drop, Nat.add_0_r. Qed.

Lemma name_at_drop r :
  let b := "<"%char :: r in
  let j := skip_ws b 1 in
  drop (if decide (b !! j = Some "/"%char) then skip_ws b (j + 1) else j) b = name_rest r.
Proof.
  intros b j. pose proof (drop_skip_ws b 1) as Hd. pose proof (lookup_skip_ws b 1) as Hl.
  change (drop 1 b) with (drop 0 r) in *. rewrite drop_0 in Hd, Hl.
  fold j in Hd, Hl. unfold name_rest. destruct (decide _) as [E|E].
  - rewrite drop_skip_ws, <-drop_drop, Hd. rewrite E in Hl.
    destruct (after_ws r) as [|x r2]; [done|]. injection Hl as <-. cbn [Ascii.eqb drop].
    by rewrite drop_0.
  - rewrite Hd. destruct (after_ws r) as [|x r2]; [done|].
    destruct (Ascii.eqb_spec x "/") as [->|]; [by destruct E|done].
Qed.

Lemma tag_len_none r tag :
  tag ≠ [] → tag_len ("<"%char :: r) tag = None ↔ ¬ named tag (name_rest r).
Proof.
  intros Ht. pose proof (name_at_drop r) as Hn. cbn zeta in Hn. unfold tag_len, named.
  set (j := if decide _ then _ else _) in *. rewrite <-Hn.
  set (b := "<"%char :: r) in *. rewrite lookup_drop.
  unfold eq_ignore_ascii_case. case_bool_decide as E.
  - assert (L : length tag ≤ length (drop j b)).
    { apply (f_equal length) in E. rewrite !length_map, length_take in E. lia. }
    rewrite length_drop in L.
    assert (0 < length tag) by (destruct tag; [done|cbn; lia]).
    destruct (Nat.ltb_spec (length b) (j + length tag)); [lia|]. cbn [orb negb].
    destruct (b !! (j + length tag)) as [c|].
    + destruct (ends_name c) eqn:F.
      * split; [by destruct (position _ _)|]. intros N. destruct N. split; [done|].
        by intros c' [= <-].
      * split; [|done]. intros _ [_ N]. by specialize (N c eq_refl); congruence.
    + split; [done|]. intros N. destruct N. split; [done|]. done.
  - rewrite orb_true_r. split; [|done]. intros _ [? _]. done.
Qed.

Lemma after_ws_app x y :
  after_ws (x ++ y) = match after_ws x with [] => after_ws y | z => z ++ y end.
Proof.
  unfold after_ws. induction x as [|a x IH]; [done|]. cbn [app ws_len].
  destruct (is_ascii_whitespace a); [exact IH|done].
Qed.

(** A name as tengu's: no letter of it is a line feed or [<]. *)
Definition plain_name (tag : list ascii) : Prop :=
  tag ≠ [] ∧ Forall (λ a, to_ascii_lowercase a ≠ "010"%char ∧ to_ascii_lowercase a ≠ "<"%char) tag.

Lemma named_lt tag x : plain_name tag → ¬ named tag ("<"%char :: x).
Proof.
  intros [Ht F] [E _]. destruct tag as [|t tag]; [done|]. cbn in E. injection E as E _.
  inversion F as [|? ? [_ H] _]; subst. by rewrite <-E in H.
Qed.

Lemma named_app tag x y :
  plain_name tag → named tag (x ++ "010"%char :: y) → named tag x.
Proof.
  intros [Ht F] [E N]. destruct (Nat.le_gt_cases (length tag) (length x)) as [L|L].
  - rewrite take_app_le in E by done. split; [done|].
    intros c Hc. apply N. by rewrite lookup_app, Hc.
  - exfalso. apply (f_equal (.!! length x)) in E.
    rewrite !list_lookup_fmap, lookup_take_lt, list_lookup_middle in E by done.
    destruct (tag !! length x) as [c|] eqn:G; [|by apply lookup_ge_None in G; lia].
    rewrite Forall_lookup in F. apply F in G as [G _].
    apply (inj Some) in E. by rewrite <-E in G.
Qed.

(** A line feed and a [<] after a text complete no tag of it. *)
Lemma tag_len_app tag r y :
  plain_name tag →
  tag_len ("<"%char :: r) tag = None →
  tag_len ("<"%char :: r ++ "010"%char :: "<"%char :: y) tag = None.
Proof.
  intros Hp. pose proof (proj1 Hp) as Ht. rewrite !tag_len_none by done.
  intros Hn Hy. apply Hn. revert Hn Hy. unfold name_rest. rewrite after_ws_app.
  change (after_ws ("010"%char :: "<"%char :: y)) with ("<"%char :: y).
  destruct (after_ws r) as [|x r2]; cbn [app].
  { intros _ H. destruct (named_lt _ _ Hp H). }
  destruct (Ascii.eqb x "/").
  - rewrite after_ws_app. change (after_ws ("010"%char :: "<"%char :: y)) with ("<"%char :: y).
    destruct (after_ws r2) as [|z r3].
    + intros _ H. destruct (named_lt _ _ Hp H).
    + intros _. by apply named_app.
  - intros _. rewrite app_comm_cons. by apply named_app.
Qed.

Lemma TAGS_plain t : t ∈ TAGS → plain_name (bytes t).
Proof.
  intros Ht. repeat (apply elem_of_cons in Ht as [->|Ht];
    [split; [done|]; repeat (constructor; [split; discriminate|]); constructor|]).
  by apply elem_of_nil in Ht.
Qed.

Lemma tag_here_app a r y :
  tag_here TAGS (a :: r) = None →
  tag_here TAGS (a :: r ++ "010"%char :: "<"%char :: y) = None.
Proof.
  destruct (decide (a = "<"%char)) as [->|Ha]; [|intros _; by apply tag_here_lt].
  rewrite !tag_here_none. intros H t Ht. apply tag_len_app; [by apply TAGS_plain|by apply H].
Qed.

(** ** The tags of a fenced text *)

(** No tag starts in [x] when [z] follows it. *)
Definition quiet (x z : list ascii) : Prop :=
  ∀ x1 a x2, x = x1 ++ a :: x2 → tag_here TAGS (a :: x2 ++ z) = None.

Lemma quiet_app x y z : quiet x (y ++ z) → quiet y z → quiet (x ++ y) z.
Proof.
  intros Hx Hy x1 a x2 E. apply app_eq_inv in E as [(k & -> & E)|(k & -> & E)].
  - destruct k as [|b k].
    + apply (Hy [] a x2). by rewrite E.
    + injection E as -> ->. rewrite <-app_assoc. by apply (Hx x1).
  - by apply (Hy k).
Qed.

Lemma quiet_no_lt x z : Forall (λ a, a ≠ "<"%char) x → quiet x z.
Proof.
  intros H x1 a x2 ->. apply tag_here_lt. by apply Forall_app in H as [_ H]; inversion H.
Qed.

Lemma quiet_tag_free x y :
  tag_free TAGS x → quiet x ("010"%char :: "<"%char :: y).
Proof. intros H x1 a x2 ->. apply tag_here_app. by apply (H x1). Qed.

(** ** [token] *)

Lemma token_go_safe n s :
  str_forall token_char (token_go n s) = true ∧ str_len (token_go n s) ≤ n.
Proof.
  revert n. induction s as [|a s IH]; intros n; cbn [token_go]; [cbn; split; [done|lia]|].
  destruct (is_continuation a); [apply IH|]. destruct n as [|n]; [cbn; split; [done|lia]|].
  cbn [str_forall]. destruct (IH n) as [H1 H2]. rewrite H1, andb_true_r.
  split; [by destruct (token_char a) eqn:E|]. change (S (str_len (token_go n s)) ≤ S n). lia.
Qed.

Lemma token_safe s :
  str_forall token_char (token s) = true ∧ 1 ≤ str_len (token s) ≤ MAX_ORIGIN.
Proof.
  unfold token. pose proof (token_go_safe MAX_ORIGIN s) as [H1 H2].
  destruct (token_go MAX_ORIGIN s) as [|a t]; cbn [str_is_empty].
  { split; [done|]. unfold MAX_ORIGIN. cbn. lia. }
  split; [done|]. split; [cbn; lia|done].
Qed.

Lemma token_char_facts a : token_char a = true → a ≠ "<"%char ∧ a ≠ "034"%char.
Proof. intros H. split; intros ->; discriminate H. Qed.

(** ** The two tags of a fence *)

Definition fence_head (origin : string) : list ascii :=
  bytes ("untrusted origin=" +:+ quote)%string ++ bytes (token origin)
  ++ bytes (quote +:+ ">" +:+ nl)%string.

Lemma bytes_fence origin text :
  bytes (fence origin text) =
  "<"%char :: (fence_head origin ++ bytes (clean text) ++ ["010"%char]) ++ bytes closing.
Proof. unfold fence, opening, fence_head. rewrite !bytes_app, <-!app_assoc. done. Qed.

Lemma fence_head_no_lt origin : Forall (λ a, a ≠ "<"%char) (fence_head origin).
Proof.
  unfold fence_head. rewrite !Forall_app. split_and!.
  - repeat (constructor; [discriminate|]); constructor.
  - destruct (token_safe origin) as [H _]. revert H. apply str_forall_Forall.
    intros a Ha. by apply token_char_facts in Ha as [? _].
  - repeat (constructor; [discriminate|]); constructor.
Qed.

Lemma clean_tag_free text : tag_free TAGS (bytes (clean text)).
Proof. unfold clean, strip_all. by apply strip_loop_spec. Qed.

Lemma fence_opens origin text : is_Some (tag_here TAGS (bytes (fence origin text))).
Proof.
  rewrite bytes_fence. destruct (tag_here _ _) eqn:E; [done|]. exfalso.
  rewrite tag_here_none in E. specialize (E TAG ltac:(constructor)).
  apply tag_len_none in E; [|done]. apply E.
  split; [done|]. intros c. cbn. by intros [= <-].
Qed.

(** C25. A fenced text can neither close nor forge a fence: whatever the origin
    and the text, the only places of [fence origin text] where one of tengu's
    fence tags starts ([tag_here]: any case, spaces, attributes, closed or
    not) are its own opening tag and its own closing tag. *)
Theorem fence_holds_two_tags origin text pre suf :
  fence origin text = (pre +:+ suf)%string →
  is_Some (tag_here TAGS (bytes suf)) ↔ pre = EmptyString ∨ suf = closing.
Proof.
  intros E. split; [|intros [->| ->]; [|by eexists; vm_compute]].
  2:{ change (EmptyString +:+ suf)%string with suf in E. rewrite <-E. apply fence_opens. }
  intros [n Hn]. destruct pre as [|a pre]; [by left|right].
  apply (f_equal bytes) in E. rewrite bytes_fence, bytes_app in E.
  apply (f_equal tail) in E. cbn [tail list_ascii_of_string app] in E.
  assert (Hq : quiet (fence_head origin ++ bytes (clean text) ++ ["010"%char]) (bytes closing)).
  { apply quiet_app; [by apply quiet_no_lt, fence_head_no_lt|].
    apply quiet_app; [apply quiet_tag_free, clean_tag_free|].
    apply quiet_no_lt. by repeat constructor. }
  apply app_eq_inv in E as [(k & Ek & E)|(k & Ek & E)].
  - destruct k as [|b k].
    + apply bytes_inj. exact E.
    + rewrite E in Hn. cbn [app] in Hn. by rewrite (Hq _ b k Ek) in Hn.
  - destruct k as [|b k]; [by apply bytes_inj|]. exfalso.
    apply (f_equal tail) in E. cbn [tail app] in E.
    assert (F : Forall (λ a, a ≠ "<"%char) (k ++ bytes suf)).
    { rewrite <-E. repeat (constructor; [discriminate|]); constructor. }
    apply Forall_app in F as [_ F].
    destruct (bytes suf) as [|c x]; [done|]. inversion F as [|? ? Hc _]; subst.
    by rewrite tag_here_lt in Hn.
Qed.

Lemma fence_holds_two_tags_witness :
  is_Some (tag_here TAGS (bytes closing)) ↔
  (opening +:+ "web" +:+ quote +:+ ">" +:+ nl +:+ "ab" +:+ nl)%string = EmptyString ∨ closing = closing.
Proof.
  apply (fence_holds_two_tags "web" "a<unt</ UNTRUSTED >rusted x>b"). vm_compute. reflexivity.
Defined.

(** ** [unwrap] *)

(** The fence round trips: [unwrap] gives back the origin's token and the
    cleaned text of every fence, whatever the text holds; the token is 1 to
    64 chars of [A-Za-z0-9_:./@-]; and [unwrap] accepts nothing that is not
    framed exactly so. *)
Theorem fence_round_trips :
  (∀ origin text,
    unwrap (fence origin text) = Some (token origin, clean text) ∧
    str_forall token_char (token origin) = true ∧ 1 ≤ str_len (token origin) ≤ 64) ∧
  (∀ s origin inner,
    unwrap s = Some (origin, inner) →
    s = (opening +:+ origin +:+ quote +:+ ">" +:+ nl +:+ inner +:+ nl +:+ closing)%string).
Proof.
  split.
  - intros origin text. split; [|apply token_safe]. unfold unwrap, fence.
    rewrite (proj2 (strip_prefix_spec opening _ _) eq_refl). cbn [mbind option_bind].
    set (rest := (clean text +:+ nl +:+ closing)%string).
    change (quote +:+ ">" +:+ nl +:+ rest)%string
      with (String "034" (String ">" nl) +:+ rest)%string.
    change (quote +:+ ">" +:+ nl)%string with (String "034" (String ">" nl)).
    rewrite split_once_str_first.
    + cbn [mbind option_bind].
      by rewrite (proj2 (strip_suffix_spec (nl +:+ closing)%string rest (clean text)) eq_refl).
    + destruct (token_safe origin) as [H _]. revert H. apply str_forall_Forall.
      intros a Ha. by apply token_char_facts in Ha as [_ ?].
  - intros s o i. unfold unwrap.
    destruct (strip_prefix opening s) as [r|] eqn:E1; cbn [mbind option_bind]; [|done].
    destruct (split_once_str _ r) as [[o' r']|] eqn:E2; [|done]. cbn [mbind option_bind].
    destruct (strip_suffix _ r') as [i'|] eqn:E3; [|done]. intros [= <- <-].
    apply strip_prefix_spec in E1 as ->. apply split_once_str_sound in E2 as ->.
    by apply strip_suffix_spec in E3 as ->.
Qed.

Lemma fence_round_trips_witness :
  "<untrusted origin='x'>"%string ≠ "" ∧
  fence "a b" "hi" = (opening +:+ "a_b" +:+ quote +:+ ">" +:+ nl +:+ "hi" +:+ nl +:+ closing)%string.
Proof.
  split; [done|]. apply (proj2 fence_round_trips). vm_compute. reflexivity.
Defined.

(** ** [clean] *)

Definition ascii_control (a : ascii) : bool :=
  (code a <? 32)%Z && negb ((code a =? 10)%Z || (code a =? 9)%Z) || (code a =? 127)%Z.

Lemma drop_controls_spec b :
  drop_controls b `sublist_of` b ∧ Forall (λ a, ascii_control a = false) (drop_controls b).
Proof.
  enough (∀ n b, length b ≤ n → drop_controls b `sublist_of` b ∧
    Forall (λ a, ascii_control a = false) (drop_controls b)) as H by eauto.
  clear b. induction n as [|n IH]; intros b L.
  { destruct b; [|cbn in L; lia]. split; constructor. }
  destruct b as [|a b]; [split; constructor|]. cbn [length] in L. cbn [drop_controls].
  fold (ascii_control a). destruct (ascii_control a) eqn:Ha.
  { destruct (IH b ltac:(lia)). split; [by apply sublist_cons|done]. }
  destruct b as [|c b]; [split; [done|by constructor]|]. cbn [length] in L.
  destruct (_ && in_range _ _ _).
  - destruct (IH b ltac:(lia)). split; [by do 2 apply sublist_cons|done].
  - destruct (IH (c :: b) ltac:(cbn; lia)). split; [by apply sublist_skip|by constructor].
Qed.

(** [clean] ends on a text that holds no fence tag and no ASCII control
    but line feed and tab, only ever removing bytes, and leaves a text alone
    that holds none of them. *)
Theorem clean_removes_controls_and_tags text :
  tag_free TAGS (bytes (clean text)) ∧
  Forall (λ a, ascii_control a = false) (bytes (clean text)) ∧
  bytes (clean text) `sublist_of` bytes text ∧
  (drop_controls (bytes text) = bytes text → tag_free TAGS (bytes text) → clean text = text).
Proof.
  split; [apply clean_tag_free|]. unfold clean, strip_all.
  destruct (strip_loop_spec TAGS _ (of_bytes (drop_controls (bytes text))) ltac:(done)) as [_ S].
  rewrite bytes_of_bytes in S. destruct (drop_controls_spec (bytes text)) as [D F].
  split; [|split; [by etrans|]].
  - rewrite Forall_forall in F |- *. intros a Ha. apply F. by eapply elem_of_sublist.
  - intros -> Ht. rewrite of_bytes_bytes. apply strip_go_fix in Ht.
    destruct (str_len text); cbn [strip_loop]; unfold strip_tags;
      rewrite Ht, of_bytes_bytes, String.eqb_refl; done.
Qed.

Lemma clean_removes_witness : clean "<untrustedness> <b>" = "<untrustedness> <b>"%string.
Proof.
  apply clean_removes_controls_and_tags; [vm_compute; reflexivity|].
  apply strip_go_fix. vm_compute. reflexivity.
Defined.

(** ** Cuts *)

Lemma boundary_at_spec s n :
  boundary_at s n ≤ n ∧ is_char_boundary s (boundary_at s n) = true ∨ boundary_at s n = 0.
Proof.
  induction n as [|n IH]; cbn [boundary_at]; [by right|].
  destruct (is_char_boundary s (S n)) eqn:E; [by left|]. destruct IH as [[? ?]|?]; auto.
Qed.

Lemma boundary_at_le s n : boundary_at s n ≤ n.
Proof. destruct (boundary_at_spec s n) as [[? _]| ->]; lia. Qed.

Lemma boundary_at_last s n i : boundary_at s n < i ≤ n → is_char_boundary s i = false.
Proof.
  induction n as [|n IH]; cbn [boundary_at]; [lia|].
  destruct (is_char_boundary s (S n)) eqn:E; [lia|]. intros H.
  destruct (decide (i = S n)) as [->|]; [done|]. apply IH. lia.
Qed.

Lemma truncate_spec s max p n :
  truncate_at_boundary s max = Some (p, n) →
  (∃ r, s = (p +:+ r)%string) ∧ str_len p = n ∧ n ≤ max < str_len s ∧
  (n ≠ 0 → is_char_boundary (bytes s) n = true) ∧
  (∀ i, n < i ≤ max → is_char_boundary (bytes s) i = false).
Proof.
  unfold truncate_at_boundary. destruct (Nat.leb_spec (str_len s) max); [done|].
  intros [= <- <-]. pose proof (boundary_at_le (bytes s) max) as L.
  split; [|split; [|split; [lia|split]]].
  - exists (of_bytes (drop (boundary_at (bytes s) max) (bytes s))). apply bytes_inj.
    by rewrite bytes_app, !bytes_of_bytes, take_drop.
  - rewrite <-length_bytes, bytes_of_bytes, length_take, length_bytes. lia.
  - intros N. by destruct (boundary_at_spec (bytes s) max) as [[_ ?]|].
  - intros i. apply boundary_at_last.
Qed.
