(* ===== verification/Seal.v ===== *)
(** * The seal proxy's masker ([src/crates/tengu-seal/src/mask.rs], [lib.rs])

    A [Masker] scans a reply as it streams and replaces every copy of a
    route's key by [MASK]. Bytes are [ascii]s. The run [buf[run..i]] that
    [scan] flushes at a match and at the end is emitted byte by byte. *)

From Stdlib Require Import Ascii String.
From S2P Require Import Prelude.
From S2P Require Import Text.
From S2P Require Import Bytes.

#[local] Open Scope string_scope.
#[local] Open Scope list_scope.
#[local] Open Scope nat_scope.

(** ** Errors *)

Inductive Code : Type := BadRequest | Unauthorized | Forbidden | BadGateway | Misconfigured.

Definition http_status (c : Code) : Z :=
  match c with
  | BadRequest => 400
  | Unauthorized => 401
  | Forbidden => 403
  | BadGateway => 502
  | Misconfigured => 500
  end.

Definition code_str (c : Code) : string :=
  match c with
  | BadRequest => "bad_request"
  | Unauthorized => "unauthorized"
  | Forbidden => "forbidden"
  | BadGateway => "bad_gateway"
  | Misconfigured => "misconfigured"
  end.

Record Error : Type := mkError {
  e_code : Code;
  message : string;
}.

Definition show_error (e : Error) : string := (code_str (e_code e) +:+ ": " +:+ message e)%string.

(** ** The forms of a key *)

Definition MASK : string := "[REDACTED]".
Definition MASK_MIN_SECRET : nat := 8.

Definition backslash : ascii := "092".

(** [hex[n]] of the two tables of digits, [n < 16]. *)
Definition hex_upper (n : Z) : ascii :=
  ascii_of_N (Z.to_N (if (n <? 10)%Z then 48 + n else 55 + n)).
Definition hex_lower (n : Z) : ascii :=
  ascii_of_N (Z.to_N (if (n <? 10)%Z then 48 + n else 87 + n)).

Definition percent (hex : Z → ascii) (raw : list ascii) : list ascii :=
  List.flat_map (λ b,
    if is_ascii_alphanumeric b || existsb (Ascii.eqb b) ["-"; "."; "_"; "~"]%char then [b]
    else ["%"%char; hex (Z.shiftr (code b) 4); hex (Z.land (code b) 15)]) raw.

Definition json (escape_slash : bool) (raw : list ascii) : list ascii :=
  List.flat_map (λ b,
    if Ascii.eqb b "034" || Ascii.eqb b backslash then [backslash; b]
    else if Ascii.eqb b "/" && escape_slash then [backslash; "/"%char]
    else [b]) raw.

(** [b.len().cmp(&a.len()).then_with(|| a.cmp(b))]. *)
Definition form_cmp (a b : list ascii) : comparison :=
  cmp_then (Z.of_nat (length b) ?= Z.of_nat (length a))%Z
    (list_cmp (map code a) (map code b)).

(** [Vec::dedup]. *)
Fixpoint dedup (l : list (list ascii)) : list (list ascii) :=
  match l with
  | [] => []
  | x :: l =>
      match dedup l with
      | [] => [x]
      | y :: l' => if decide (x = y) then y :: l' else x :: y :: l'
      end
  end.

Definition forms (secret : string) : list (list ascii) :=
  let raw := bytes secret in
  dedup (sort_by form_cmp
    [raw; percent hex_upper raw; percent hex_lower raw; json false raw; json true raw]).

(** ** The masker *)

Record Masker : Type := mkMasker {
  m_forms : list (list ascii);
  first : ascii → bool;
  tail : list ascii;
  hits : nat;
}.

Inductive Step : Type := Match (n : nat) | Hold | Pass.

Definition short_secret : Error :=
  mkError Misconfigured
    ("the route's Worker secret is shorter than 8 characters — "
     +:+ "it could not be masked out of replies")%string.

Definition to_ascii_uppercase (a : ascii) : ascii :=
  if is_ascii_lowercase a then ascii_of_N (N_of_ascii a - 32) else a.

(** The table [first], one form's first byte in either case at a time; [f[0]]
    panics on an empty form, and no form is empty. *)
Definition first_of (forms : list (list ascii)) (b : ascii) : bool :=
  existsb (λ f,
    match f with
    | a :: _ => Ascii.eqb b (to_ascii_lowercase a) || Ascii.eqb b (to_ascii_uppercase a)
    | [] => false
    end) forms.

Definition masker_new (secret : string) : result Error Masker :=
  if (str_len secret <? MASK_MIN_SECRET)%nat then Err short_secret
  else
    let forms := dedup (sort_by form_cmp (map (map to_ascii_lowercase) (forms secret))) in
    Ok (mkMasker forms (first_of forms) [] 0).

(** [held] and [longest]; [self.forms[0]]. *)
Definition held (m : Masker) : nat := length (tail m).
Definition longest (m : Masker) : nat :=
  match m_forms m with f :: _ => length f | [] => 0 end.

(** [step] on [rest = buf[i..]]. *)
Fixpoint step_forms (forms : list (list ascii)) (rest : list ascii) (last : bool) : Step :=
  match forms with
  | [] => Pass
  | f :: forms =>
      if length f <=? length rest then
        if eq_ignore_ascii_case (take (length f) rest) f then Match (length f)
        else step_forms forms rest last
      else if negb last && eq_ignore_ascii_case (take (length rest) f) rest then Hold
      else step_forms forms rest last
  end.

(** What [scan] finds: the output, the held bytes [buf[held_from..]] and the
    copies masked. [skip] bytes of a match are still to be skipped. *)
Record Scan : Type := mkScan {
  out : list ascii;
  rest : list ascii;
  found : nat;
}.

Definition emit (b : list ascii) (s : Scan) : Scan := mkScan (b ++ out s) (rest s) (found s).
Definition hit (s : Scan) : Scan := mkScan (out s) (rest s) (S (found s)).

Fixpoint scan_from (m : Masker) (last : bool) (skip : nat) (buf : list ascii) : Scan :=
  match buf with
  | [] => mkScan [] [] 0
  | b :: buf' =>
      match skip with
      | S skip => scan_from m last skip buf'
      | O =>
          if first m b then
            match step_forms (m_forms m) buf last with
            | Match n => hit (emit (bytes MASK) (scan_from m last (n - 1) buf'))
            | Hold => mkScan [] buf 0
            | Pass => emit [b] (scan_from m last 0 buf')
            end
          else emit [b] (scan_from m last 0 buf')
      end
  end.

Definition scan (m : Masker) (buf : list ascii) (last : bool) : Scan := scan_from m last 0 buf.

Definition push (m : Masker) (chunk : list ascii) : list ascii * Masker :=
  let s := scan m (tail m ++ chunk) false in
  (out s, mkMasker (m_forms m) (first m) (rest s) (hits m + found s)).

Definition finish (m : Masker) : list ascii * Masker :=
  let s := scan m (tail m) true in
  (out s, mkMasker (m_forms m) (first m) [] (hits m + found s)).

Definition mask_bytes (m : Masker) (b : list ascii) : list ascii * nat :=
  let s := scan m b true in (out s, found s).

(** A match never splits a char, so [from_utf8_lossy] changes nothing. *)
Definition mask_text (m : Masker) (text : string) : string * nat :=
  let '(o, n) := mask_bytes m (bytes text) in (of_bytes o, n).

Fixpoint reply_headers (m : Masker) (headers : list (string * string))
    : list (string * string) * nat :=
  match headers with
  | [] => ([], 0)
  | (name, value) :: headers =>
      let '(o, n) := reply_headers m headers in
      let lower := map to_ascii_lowercase (bytes name) in
      if String.eqb (of_bytes lower) "content-length" || String.eqb (of_bytes lower) "content-encoding"
      then (o, n)
      else if (0 <? (mask_bytes m lower).2) then (o, S n)
      else
        let '(value, k) := mask_text m value in ((name, value) :: o, k + n)
  end.
