(* ===== verification/SealProps.v ===== *)
(** * The masker masks

    Streaming a reply through [push] and [finish] gives what [mask_bytes] gives
    for the whole of it, and what is masked is exactly the copies of the key. *)

From Stdlib Require Import Ascii String.
From S2P Require Import Prelude.
From S2P Require Import Text.
From S2P Require Import Bytes.
From S2P Require Import Seal.

#[local] Open Scope string_scope.
#[local] Open Scope list_scope.
#[local] Open Scope nat_scope.

(** ** Letter case *)

Definition all_ascii (p : ascii → bool) : bool :=
  forallb (λ n, p (ascii_of_nat n)) (seq 0 256).

Lemma all_ascii_spec p : all_ascii p = true → ∀ a, p a = true.
Proof.
  unfold all_ascii. rewrite forallb_forall. intros H a.
  rewrite <-(ascii_nat_embedding a). apply H, in_seq. pose proof (nat_ascii_bounded a). lia.
Qed.

Lemma case_facts a :
  to_ascii_lowercase (to_ascii_lowercase a) = to_ascii_lowercase a ∧
  to_ascii_uppercase (to_ascii_lowercase a) = to_ascii_uppercase a ∧
  (a = to_ascii_lowercase a ∨ a = to_ascii_uppercase a).
Proof.
  pose proof (all_ascii_spec (λ a,
    Ascii.eqb (to_ascii_lowercase (to_ascii_lowercase a)) (to_ascii_lowercase a)
    && Ascii.eqb (to_ascii_uppercase (to_ascii_lowercase a)) (to_ascii_uppercase a)
    && (Ascii.eqb a (to_ascii_lowercase a) || Ascii.eqb a (to_ascii_uppercase a)))
    ltac:(vm_compute; reflexivity) a) as H. cbn beta in H.
  rewrite !andb_true_iff, orb_true_iff, !Ascii.eqb_eq in H. tauto.
Qed.

Lemma first_case a b :
  to_ascii_lowercase b = to_ascii_lowercase a →
  Ascii.eqb b (to_ascii_lowercase a) || Ascii.eqb b (to_ascii_uppercase a) = true.
Proof.
  intros E. rewrite orb_true_iff, !Ascii.eqb_eq.
  destruct (case_facts b) as (_ & Hu & [Hb|Hb]).
  - left. congruence.
  - right. rewrite <-(proj1 (proj2 (case_facts a))), <-E. congruence.
Qed.

(** ** Sorting *)

#[export] Instance form_cmp_pre : PreCmp form_cmp.
Proof.
  unfold form_cmp.
  apply (cmp_then_pre (λ x y, (Z.of_nat (length y) ?= Z.of_nat (length x))%Z)
           (cmp_on (map code) list_cmp)); [|apply _].
  split.
  - intros x y. apply Z.compare_antisym.
  - intros x y z. rewrite !Z.compare_le_iff. lia.
Qed.

Lemma dedup_elem l x : x ∈ dedup l ↔ x ∈ l.
Proof.
  induction l as [|y l IH]; cbn [dedup]; [done|]. rewrite elem_of_cons, <-IH.
  destruct (dedup l) as [|z l'].
  - rewrite elem_of_cons. done.
  - destruct (decide (y = z)) as [->|]; rewrite !elem_of_cons; tauto.
Qed.

Lemma dedup_sorted l : sorted_by form_cmp l → sorted_by form_cmp (dedup l).
Proof.
  unfold sorted_by. induction 1 as [|x l Hl IH Hx]; cbn [dedup]; [constructor|].
  assert (Hx' : Forall (λ y, form_cmp x y ≠ Gt) (dedup l)).
  { rewrite Forall_forall in Hx |- *. intros y Hy. by apply Hx, dedup_elem. }
  destruct (dedup l) as [|y l']; [by repeat constructor|].
  destruct (decide (x = y)); [done|by constructor].
Qed.

Lemma form_cmp_len x y : form_cmp x y ≠ Gt → length y ≤ length x.
Proof.
  unfold form_cmp, cmp_then. intros H.
  destruct (Z.compare_spec (Z.of_nat (length y)) (Z.of_nat (length x))); [lia|lia|done].
Qed.

(** Longest first. *)
Definition longest_first (l : list (list ascii)) : Prop :=
  StronglySorted (λ x y : list ascii, length y ≤ length x) l.

Lemma sorted_longest_first l : longest_first (dedup (sort_by form_cmp l)).
Proof.
  pose proof (dedup_sorted _ (sort_by_sorted form_cmp l)) as H. unfold longest_first.
  induction H as [|x l' _ IH Hx]; constructor; [done|].
  eapply Forall_impl; [exact Hx|]. intros y. apply form_cmp_len.
Qed.

(** ** Forms *)

(** Text [l] is the key in some form, in any case. *)
Definition is_form (secret : string) (l : list ascii) : Prop :=
  ∃ f, f ∈ forms secret ∧ map to_ascii_lowercase l = map to_ascii_lowercase f.

Lemma forms_elem secret f :
  f ∈ forms secret ↔
  f = bytes secret ∨ f = percent hex_upper (bytes secret) ∨ f = percent hex_lower (bytes secret)
  ∨ f = json false (bytes secret) ∨ f = json true (bytes secret).
Proof.
  unfold forms. rewrite dedup_elem, sort_by_perm, !elem_of_cons. 
  split; [|tauto]. intros [?|[?|[?|[?|[?|?%elem_of_nil]]]]]; tauto.
Qed.

Lemma flat_map_length {A B} (g : A → list B) l :
  (∀ x, 1 ≤ length (g x)) → length l ≤ length (List.flat_map g l).
Proof.
  intros H. induction l as [|x l IH]; cbn; [done|]. rewrite length_app. specialize (H x). lia.
Qed.

Lemma form_length secret f : f ∈ forms secret → str_len secret ≤ length f.
Proof.
  rewrite forms_elem, <-length_bytes. intros [->|[->|[->|[->| ->]]]]; [done| | | |];
    apply flat_map_length; intros x; repeat (case_match; cbn; try lia).
Qed.

(** A masker as [masker_new] makes it, for this key. *)
Record masks (secret : string) (m : Masker) : Prop := {
  mk_first : ∀ b, first m b = first_of (m_forms m) b;
  mk_forms : ∀ f, f ∈ m_forms m ↔ ∃ g, g ∈ forms secret ∧ f = map to_ascii_lowercase g;
  mk_sorted : longest_first (m_forms m);
  mk_len : 8 ≤ str_len secret;
}.

Lemma masker_new_masks secret m : masker_new secret = Ok m → masks secret m ∧ tail m = [] ∧ hits m = 0.
Proof.
  unfold masker_new. destruct (Nat.ltb_spec (str_len secret) MASK_MIN_SECRET) as [|L]; [done|].
  intros H. apply ok_inj in H as <-. split; [|done]. constructor; cbn [first m_forms].
  - done.
  - intros f. rewrite dedup_elem, sort_by_perm.
    change (map (map to_ascii_lowercase) (forms secret)) with (map to_ascii_lowercase <$> forms secret).
    rewrite list_elem_of_fmap. naive_solver.
  - apply sorted_longest_first.
  - done.
Qed.

Lemma form_nonempty secret m f : masks secret m → f ∈ m_forms m → 8 ≤ length f.
Proof.
  intros M Hf. apply (mk_forms _ _ M) in Hf as (g & Hg & ->). rewrite length_map.
  apply form_length in Hg. pose proof (mk_len _ _ M). lia.
Qed.

Lemma form_lower secret m f : masks secret m → f ∈ m_forms m → map to_ascii_lowercase f = f.
Proof.
  intros M Hf. apply (mk_forms _ _ M) in Hf as (g & Hg & ->). rewrite List.map_map.
  apply map_ext. intros a. apply case_facts.
Qed.

Lemma is_form_iff secret m l : masks secret m →
  is_form secret l ↔ ∃ f, f ∈ m_forms m ∧ eq_ignore_ascii_case l f = true.
Proof.
  intros M. unfold is_form, eq_ignore_ascii_case. setoid_rewrite bool_decide_eq_true. split.
  - intros (g & Hg & E). exists (map to_ascii_lowercase g). split.
    + apply (mk_forms _ _ M). by exists g.
    + rewrite (form_lower secret m (map to_ascii_lowercase g)); [done|done|]. apply (mk_forms _ _ M). by exists g.
  - intros (f & Hf & E). rewrite (form_lower secret m f M Hf) in E.
    apply (mk_forms _ _ M) in Hf as (g & Hg & ->). by exists g.
Qed.

(** ** One step *)

Section masker.
Context (secret : string) (m : Masker) (M : masks secret m).

Lemma step_first fs b rest last :
(∀ f, f ∈ fs → f ∈ m_forms m) → step_forms fs (b :: rest) last ≠ Pass → first m b = true.
Proof.
intros Hfs. rewrite (mk_first _ _ M).
assert (H : ∀ f n, f ∈ fs → n ≠ 0 → n ≤ length f →
  eq_ignore_ascii_case (take n (b :: rest)) (take n f) = true → first_of (m_forms m) b = true).
{ intros f n Hf Hn Hl E. unfold first_of. apply existsb_exists. exists f.
  split; [by apply list_elem_of_In, Hfs|].
  destruct f as [|a f]; [cbn in Hl; lia|]. destruct n as [|n]; [done|].
  apply bool_decide_eq_true in E. cbn in E. injection E as E _. by apply first_case. }
induction fs as [|f fs IH]; cbn [step_forms]; [done|].
assert (Hf : f ∈ f :: fs) by constructor.
pose proof (form_nonempty _ _ f M (Hfs f Hf)) as L.
destruct (Nat.leb_spec (length f) (length (b :: rest))) as [Hl|Hl].
- destruct (eq_ignore_ascii_case _ f) eqn:E.
  + intros _. apply (H f (length f) Hf); [lia|done|]. by rewrite (firstn_all f).
  + apply IH; [intros x Hx; apply Hfs; by constructor|].
    intros x n Hx. apply H. by constructor.
- destruct (negb last && _) eqn:E.
  + intros _. apply andb_true_iff in E as [_ E].
    apply (H f (length (b :: rest)) Hf); [done|lia|].
    rewrite firstn_all. unfold eq_ignore_ascii_case in *.
    apply bool_decide_eq_true in E. apply bool_decide_eq_true. done.
  + apply IH; [intros x Hx; apply Hfs; by constructor|].
    intros x n Hx. apply H. by constructor.
Qed.

Lemma step_match fs rest last n :
step_forms fs rest last = Match n →
n ≤ length rest ∧ ∃ f, f ∈ fs ∧ length f = n ∧ eq_ignore_ascii_case (take n rest) f = true.
Proof.
induction fs as [|f fs IH]; cbn [step_forms]; [done|].
assert (Hc : step_forms fs rest last = Match n → n ≤ length rest ∧ ∃ f0, f0 ∈ f :: fs ∧
  length f0 = n ∧ eq_ignore_ascii_case (take n rest) f0 = true).
{ intros H. apply IH in H as (H1 & f' & H2 & H3). split; [done|]. exists f'. split; [by constructor|done]. }
destruct (Nat.leb_spec (length f) (length rest)).
- destruct (eq_ignore_ascii_case _ f) eqn:E; [|done]. intros [= <-]. split; [done|].
  exists f. split; [constructor|done].
- destruct (negb last && _); done.
Qed.

(** A decision on what has come is the decision on all of it. *)
Lemma step_stable fs rest more last :
step_forms fs rest false ≠ Hold →
step_forms fs (rest ++ more) last = step_forms fs rest false.
Proof.
induction fs as [|f fs IH]; cbn [step_forms]; [done|].
destruct (Nat.leb_spec (length f) (length rest)) as [L|L].
- rewrite (proj2 (Nat.leb_le _ _)) by (rewrite length_app; lia).
  rewrite take_app_le by done. destruct (eq_ignore_ascii_case _ f); [done|apply IH].
- cbn [negb andb]. destruct (eq_ignore_ascii_case (take (length rest) f) rest) eqn:E; [done|].
  intros H. rewrite (IH H). unfold eq_ignore_ascii_case in *.
  apply bool_decide_eq_false in E.
  destruct (Nat.leb_spec (length f) (length (rest ++ more))) as [L'|L'].
  + rewrite bool_decide_eq_false_2; [done|]. intros F. apply E.
    apply (f_equal (take (length rest))) in F. rewrite !firstn_map, take_take in F.
    rewrite Nat.min_l, take_app_length in F by lia. by rewrite F.
  + rewrite bool_decide_eq_false_2; [by rewrite andb_false_r|]. intros F. apply E.
    apply (f_equal (take (length rest))) in F. rewrite !firstn_map, take_take in F.
    rewrite Nat.min_l, take_app_length in F by (rewrite length_app; lia). done.
Qed.

Lemma step_hold fs rest : step_forms fs rest false = Hold → ∃ f, f ∈ fs ∧ length rest < length f.
Proof.
induction fs as [|f fs IH]; cbn [step_forms]; [done|].
assert (Hc : step_forms fs rest false = Hold → ∃ f0, f0 ∈ f :: fs ∧ length rest < length f0).
{ intros (f' & ? & ?)%IH. exists f'. split; [by constructor|done]. }
destruct (Nat.leb_spec (length f) (length rest)) as [L|L].
- destruct (eq_ignore_ascii_case _ f); [done|exact Hc].
- destruct (negb false && _); [|exact Hc]. intros _. exists f. split; [constructor|done].
Qed.

Lemma step_last fs rest : step_forms fs rest true ≠ Hold.
Proof.
induction fs as [|f fs IH]; cbn [step_forms]; [done|].
destruct (length f <=? length rest); [|done]. by destruct (eq_ignore_ascii_case _ f).
Qed.
End masker.

(** ** Streaming *)

Section scan.
Context (secret : string) (m : Masker) (M : masks secret m).

(** What comes after does not change what was emitted. *)
Lemma scan_app last x y : ∀ skip, skip ≤ length x →
let s := scan_from m false skip x in
let s' := scan_from m last 0 (rest s ++ y) in
scan_from m last skip (x ++ y) = mkScan (out s ++ out s') (rest s') (found s + found s').
Proof.
assert (Hid : ∀ b z, mkScan (out (scan_from m last b z)) (rest (scan_from m last b z))
  (found (scan_from m last b z)) = scan_from m last b z) by (intros b z; by destruct (scan_from m last b z)).
induction x as [|b x IH]; intros skip L; cbn zeta.
{ cbn in L. assert (skip = 0) as -> by lia. cbn [scan_from out rest found app]. by rewrite Hid. }
cbn [length] in L. rewrite <-app_comm_cons. destruct skip as [|skip].
2:{ cbn [scan_from]. apply IH. lia. }
cbn [scan_from]. destruct (first m b) eqn:Fb.
- destruct (step_forms (m_forms m) (b :: x) false) as [n| |] eqn:E.
  + rewrite app_comm_cons, step_stable, E by congruence.
    apply step_match in E as (Hn & f & Hf & <- & _).
    pose proof (form_nonempty _ _ f M Hf). rewrite IH by (cbn in Hn; lia). cbn zeta.
    unfold hit, emit. cbn [out rest found]. by rewrite app_assoc.
  + cbn [rest out found app]. cbn [scan_from app]. rewrite Fb. cbn [Nat.add].
    match goal with |- _ = mkScan (out ?s) _ _ => by destruct s end.
  + rewrite app_comm_cons, step_stable, E by congruence. rewrite IH by lia. cbn zeta.
    unfold emit. by cbn [out rest found].
- rewrite IH by lia. cbn zeta. unfold emit. by cbn [out rest found].
Qed.

Lemma scan_rest last skip x :
rest (scan_from m last skip x) = [] ∨
last = false ∧ ∃ f, f ∈ m_forms m ∧ length (rest (scan_from m last skip x)) < length f.
Proof.
revert skip. induction x as [|b x IH]; intros skip; cbn [scan_from]; [by left|].
destruct skip; [|apply IH]. destruct (first m b); [|apply IH].
destruct (step_forms (m_forms m) (b :: x) last) as [n| |] eqn:E; [apply IH| |apply IH].
destruct last; [by apply step_last in E|]. right. split; [done|]. by apply step_hold.
Qed.

Lemma longest_spec f : f ∈ m_forms m → length f ≤ longest m.
Proof.
intros Hf. unfold longest. pose proof (mk_sorted _ _ M) as S.
destruct S as [|g l _ Hg]; [by apply elem_of_nil in Hf|].
apply elem_of_cons in Hf as [->|Hf]; [done|]. rewrite Forall_forall in Hg. by apply Hg.
Qed.

Lemma scan_held x : length (rest (scan m x false)) < longest m.
Proof.
destruct (scan_rest false 0 x) as [E|(_ & f & Hf & L)]; unfold scan in *.
- rewrite E. cbn. assert (∃ f, f ∈ m_forms m) as [f Hf].
  { exists (map to_ascii_lowercase (bytes secret)). apply (mk_forms _ _ M).
    exists (bytes secret). split; [|done]. apply forms_elem. by left. }
  pose proof (longest_spec f Hf). pose proof (form_nonempty _ _ f M Hf). lia.
- pose proof (longest_spec f Hf). lia.
Qed.
End scan.

(** A reply, chunk by chunk: what is sent, and the masker after the last
    [push]. *)
Fixpoint pushes (m : Masker) (chunks : list (list ascii)) : list ascii * Masker :=
  match chunks with
  | [] => ([], m)
  | c :: chunks =>
      let '(sent, m) := push m c in
      let '(more, m) := pushes m chunks in (sent ++ more, m)
  end.

Lemma scan_from_ext m m' last skip x :
  m_forms m = m_forms m' → first m = first m' → scan_from m last skip x = scan_from m' last skip x.
Proof.
  intros H1 H2. revert skip. induction x as [|b x IH]; intros skip; cbn [scan_from]; [done|].
  rewrite H1, H2. destruct skip; [|apply IH]. rewrite IH. destruct (first m' b); [|done].
  destruct (step_forms _ _ _); [by rewrite IH|done..].
Qed.

Lemma masks_push secret m c : masks secret m → masks secret (push m c).2.
Proof. intros [H1 H2 H3 H4]. by constructor. Qed.

Lemma pushes_spec secret m chunks : masks secret m →
  let '(sent, m') := pushes m chunks in
  let '(last, m'') := finish m' in
  let s := scan m (tail m ++ List.concat chunks) true in
  masks secret m' ∧ sent ++ last = out s ∧ hits m'' = hits m + found s
  ∧ (chunks ≠ [] → held m' < longest m').
Proof.
  revert m. induction chunks as [|c chunks IH]; intros m M.
  { cbn [pushes finish List.concat]. rewrite app_nil_r. cbn zeta.
    split_and!; [done..|]. intros H. by destruct H. }
  cbn [pushes]. destruct (push m c) as [sent m1] eqn:E1.
  pose proof (masks_push secret m c M) as M1. rewrite E1 in M1. cbn [snd] in M1.
  specialize (IH m1 M1). destruct (pushes m1 chunks) as [more m2] eqn:E2.
  destruct (finish m2) as [lst m3]. cbn zeta in *. destruct IH as (I1 & I2 & I3 & I4).
  unfold push in E1. injection E1 as <- <-. cbn [tail hits m_forms first] in *.
  cbn [List.concat]. unfold scan in *. rewrite (app_assoc (tail m)).
  rewrite (scan_app secret m M true (tail m ++ c) (List.concat chunks) 0) by lia.
  cbn zeta. cbn [out found].
  set (r := rest (scan_from m false 0 (tail m ++ c))) in *.
  rewrite (scan_from_ext m (mkMasker (m_forms m) (first m) r
    (hits m + found (scan_from m false 0 (tail m ++ c)))) true 0) by done.
  split_and!; [done| | |].
  - by rewrite <-app_assoc, I2.
  - rewrite I3. lia.
  - intros _. destruct chunks as [|c' chunks]; [|by apply I4].
    cbn in E2. injection E2 as <- <-. apply (scan_held secret m M).
Qed.

(** C30. Streaming is exact. However a reply is cut into chunks, what [push] and
    [finish] send is [mask_bytes] of the whole reply and counts the same
    copies; between chunks fewer bytes are held back than the longest form
    has. *)
Theorem streaming_is_one_shot secret m chunks :
  masker_new secret = Ok m →
  let '(sent, m') := pushes m chunks in
  let '(last, m'') := finish m' in
  (sent ++ last, hits m'') = mask_bytes m (List.concat chunks) ∧
  (chunks ≠ [] → held m' < longest m').
Proof.
  intros H. apply masker_new_masks in H as (M & Ht & Hh).
  pose proof (pushes_spec secret m chunks M) as S.
  destruct (pushes m chunks) as [sent m']. destruct (finish m') as [lst m'']. cbn zeta in S.
  destruct S as (_ & S1 & S2 & S3). rewrite Ht in S1, S2. cbn [app] in S1, S2.
  split; [|done]. unfold mask_bytes. cbn zeta. by rewrite S1, S2, Hh.
Qed.

Definition sample_key : string := "YXBwOnNlY3JldA/x+y==".
Definition sample_masker : Masker :=
  match masker_new sample_key with Ok m => m | Err _ => mkMasker [] (λ _, false) [] 0 end.
(** The key percent-encoded, cut in the middle. *)
Definition sample_chunks : list (list ascii) :=
  [bytes "k=YXBwOnNlY3JldA%2fx"; bytes "%2By%3d%3D."; bytes "!"].

Lemma streaming_is_one_shot_witness :
  let '(sent, m') := pushes sample_masker sample_chunks in
  let '(last, m'') := finish m' in
  (sent ++ last, hits m'') = mask_bytes sample_masker (List.concat sample_chunks)
  ∧ mask_bytes sample_masker (List.concat sample_chunks) = (bytes "k=[REDACTED].!", 1).
Proof.
  pose proof (streaming_is_one_shot sample_key sample_masker sample_chunks ltac:(vm_compute; reflexivity)) as H.
  destruct (pushes sample_masker sample_chunks) as [sent m'] eqn:E.
  destruct (finish m') as [lst m''] eqn:E'.
  split; [exact (proj1 H)|vm_compute; reflexivity].
Defined.

(** ** What is masked *)

(** A reply seen as what became of it: bytes kept and copies masked. *)
Inductive Piece : Type := Kept (b : ascii) | Masked (l : list ascii).

Definition original (ps : list Piece) : list ascii :=
  List.flat_map (λ p, match p with Kept b => [b] | Masked l => l end) ps.
Definition rendered (ps : list Piece) : list ascii :=
  List.flat_map (λ p, match p with Kept b => [b] | Masked _ => bytes MASK end) ps.
Definition copies (ps : list Piece) : nat :=
  length (List.filter (λ p, match p with Masked _ => true | _ => false end) ps).

(** Left to right, the longest copy: no copy starts at a kept byte, and none
    longer than a masked one where that starts. *)
Inductive masked (secret : string) : list Piece → Prop :=
  | masked_nil : masked secret []
  | masked_kept b ps :
      (∀ l r, b :: original ps = l ++ r → ¬ is_form secret l) →
      masked secret ps → masked secret (Kept b :: ps)
  | masked_copy l ps :
      is_form secret l →
      (∀ l' r, l ++ original ps = l' ++ r → is_form secret l' → length l' ≤ length l) →
      masked secret ps → masked secret (Masked l :: ps).

Section pieces.
Context (secret : string) (m : Masker) (M : masks secret m).

Lemma step_pass fs buf l r f :
step_forms fs buf true = Pass → buf = l ++ r → f ∈ fs → eq_ignore_ascii_case l f = false.
Proof.
intros H ->. induction fs as [|g fs IH]; [by intros ?%elem_of_nil|]. cbn [step_forms] in H.
intros [->|Hf]%elem_of_cons.
- destruct (eq_ignore_ascii_case l g) eqn:E; [|done]. exfalso.
  pose proof E as E'. apply bool_decide_eq_true in E'. apply (f_equal length) in E'.
  rewrite !length_map in E'. rewrite <-E' in H.
  rewrite (proj2 (Nat.leb_le _ _)), take_app_length, E in H; [done|]. rewrite length_app. lia.
- apply IH; [|done]. destruct (_ <=? _); [|done]. by destruct (eq_ignore_ascii_case _ g).
Qed.

Lemma step_longest fs buf n l r f :
longest_first fs → step_forms fs buf true = Match n → buf = l ++ r → f ∈ fs →
eq_ignore_ascii_case l f = true → length l ≤ n.
Proof.
intros S. induction S as [|g fs _ IH Hg]; intros H -> Hf E; [by apply elem_of_nil in Hf|].
cbn [step_forms] in H.
assert (El : length l = length f).
{ apply bool_decide_eq_true in E. apply (f_equal length) in E. by rewrite !length_map in E. }
assert (Hmax : length f ≤ length g).
{ apply elem_of_cons in Hf as [->|Hf]; [done|]. rewrite Forall_forall in Hg. by apply Hg. }
destruct (_ <=? _) eqn:Hl.
- destruct (eq_ignore_ascii_case _ g) eqn:F; [injection H as <-; lia|].
  apply elem_of_cons in Hf as [->|Hf]; [|by apply IH].
  exfalso. by rewrite <-El, take_app_length, E in F.
- apply elem_of_cons in Hf as [->|Hf]; [|by apply IH].
  apply Nat.leb_gt in Hl. rewrite length_app in Hl. lia.
Qed.

Lemma scan_pieces buf : ∀ skip, skip ≤ length buf →
let s := scan_from m true skip buf in
∃ ps, drop skip buf = original ps ∧ out s = rendered ps ∧ found s = copies ps ∧ masked secret ps.
Proof.
induction buf as [|b buf IH]; intros skip L; cbn zeta; cbn [scan_from].
{ exists []. cbn in L. assert (skip = 0) as -> by lia. split_and!; [done..|constructor]. }
cbn [length] in L. destruct skip as [|skip]; [|apply IH; lia].
assert (Hkept : (∀ l r, b :: buf = l ++ r → ¬ is_form secret l) →
  ∃ ps, b :: buf = original ps ∧ out (emit [b] (scan_from m true 0 buf)) = rendered ps
    ∧ found (emit [b] (scan_from m true 0 buf)) = copies ps ∧ masked secret ps).
{ intros Hno. destruct (IH 0 ltac:(lia)) as (ps & P1 & P2 & P3 & P4). rewrite drop_0 in P1.
  exists (Kept b :: ps). cbn [emit out found original rendered copies List.flat_map app].
  split_and!; [by f_equal|by f_equal|done|]. constructor; [|done]. by rewrite <-P1. }
rewrite drop_0. destruct (first m b) eqn:Fb.
- destruct (step_forms (m_forms m) (b :: buf) true) as [n| |] eqn:E.
  + destruct (step_match _ _ _ _ E) as (Hn & f & Hf & <- & Heq).
    pose proof (form_nonempty _ _ f M Hf) as H8. cbn [length] in Hn.
    destruct (IH (length f - 1) ltac:(lia)) as (ps & P1 & P2 & P3 & P4).
    assert (Hd : b :: buf = take (length f) (b :: buf) ++ original ps).
    { rewrite <-P1. rewrite <-(take_drop (length f) (b :: buf)) at 1. f_equal.
      by destruct (length f) as [|k]; [lia|]; cbn; rewrite Nat.sub_0_r. }
    exists (Masked (take (length f) (b :: buf)) :: ps).
    cbn [hit emit out found original rendered copies List.flat_map List.filter length].
    split_and!; [done|by rewrite P2|by rewrite P3|]. constructor; [| |done].
    * apply (is_form_iff secret m _ M). by exists f.
    * rewrite <-Hd. intros l' r Hl' (f' & Hf' & E')%(is_form_iff secret m _ M).
      rewrite length_take_le by (cbn; lia).
      eapply step_longest; [apply (mk_sorted _ _ M)|exact E|exact Hl'|exact Hf'|exact E'].
  + by apply step_last in E.
  + apply Hkept. intros l r Hl (f & Hf & E')%(is_form_iff secret m _ M).
    by rewrite (step_pass _ _ _ _ _ E Hl Hf) in E'.
- apply Hkept. intros l r Hl (f & Hf & E')%(is_form_iff secret m _ M).
  assert (step_forms (m_forms m) (b :: buf) true = Pass) as E.
  { destruct (step_forms _ _ _) eqn:E; [|by apply step_last in E|done].
    rewrite (step_first secret m M (m_forms m) b buf true) in Fb; [done|done|by rewrite E]. }
  by rewrite (step_pass _ _ _ _ _ E Hl Hf) in E'.
Qed.
End pieces.

(** C29. Every copy of the key is masked and nothing else is touched. A masked
    reply is the reply with stretches replaced by [MASK], each one a copy of
    the key - raw, percent-encoded in either hex case, or a JSON string with
    [/] plain or escaped, in any ASCII case - the longest that starts there;
    no copy starts at a byte that was kept; the count is of the stretches. *)
Theorem every_copy_of_the_key_is_masked secret m body :
  masker_new secret = Ok m →
  ∃ ps, body = original ps ∧ mask_bytes m body = (rendered ps, copies ps) ∧ masked secret ps.
Proof.
  intros H. apply masker_new_masks in H as (M & _ & _).
  destruct (scan_pieces secret m M body 0 ltac:(lia)) as (ps & P1 & P2 & P3 & P4).
  exists ps. rewrite drop_0 in P1. split_and!; [done| |done].
  unfold mask_bytes, scan. cbn zeta. by rewrite P2, P3.
Qed.

Lemma every_copy_of_the_key_is_masked_witness :
  ∃ ps, bytes "k=yxbwonnly3jlda/x+y==" = original ps
    ∧ bytes "k=[REDACTED]" = rendered ps ∧ copies ps = 1.
Proof.
  destruct (every_copy_of_the_key_is_masked sample_key sample_masker
    (bytes "k=yxbwonnly3jlda/x+y==") ltac:(vm_compute; reflexivity)) as (ps & H1 & H2 & _).
  exists ps. assert (E : mask_bytes sample_masker (bytes "k=yxbwonnly3jlda/x+y==")
    = (bytes "k=[REDACTED]", 1)) by (vm_compute; reflexivity).
  rewrite E in H2. split; [exact H1|].
  exact (conj (f_equal fst H2) (eq_sym (f_equal snd H2))).
Defined.
