(* ===== verification/Base58.v ===== *)
(** * Base58 ([src/src/domain/base58.rs])

    Bytes are [Z] in 0 to 255, the digits and the carry of the code's [u8]s and
    [u32]s are [Z], the [u32] additions written out modulo 2^32. [digits] and
    [bytes] are little-endian, as in the code. *)

From Stdlib Require Import Ascii String.
From S2P Require Import Prelude.
From S2P Require Import Text.
From S2P Require Import Bytes.

#[local] Open Scope list_scope.
#[local] Open Scope Z_scope.

Definition ALPHABET : list ascii :=
  list_ascii_of_string "123456789ABCDEFGHJKLMNPQRSTUVWXYZabcdefghijkmnopqrstuvwxyz".

Definition u32 (x : Z) : Z := x mod 2 ^ 32.
Definition u8 (x : Z) : Z := x mod 2 ^ 8.

(** [ALPHABET[d as usize] as char]. *)
Definition letter (d : Z) : ascii := nth (Z.to_nat d) ALPHABET "000"%char.

(** [for d in digits.iter_mut()]: the digits and the carry after it. *)
Fixpoint encode_carry (digits : list Z) (carry : Z) : list Z * Z :=
  match digits with
  | [] => ([], carry)
  | d :: digits =>
      let carry := u32 (carry + u32 (Z.shiftl d 8)) in
      let '(ds, c) := encode_carry digits (carry / 58) in
      (u8 (carry mod 58) :: ds, c)
  end.

(** [while carry > 0]: each turn divides it, so its bits are enough. *)
Fixpoint encode_push (fuel : nat) (carry : Z) : list Z :=
  match fuel with
  | O => []
  | S fuel => if 0 <? carry then u8 (carry mod 58) :: encode_push fuel (carry / 58) else []
  end.

Definition encode_byte (digits : list Z) (byte : Z) : list Z :=
  let '(ds, carry) := encode_carry digits byte in ds ++ encode_push 32 carry.

Fixpoint take_while {A} (p : A → bool) (l : list A) : list A :=
  match l with
  | [] => []
  | x :: l => if p x then x :: take_while p l else []
  end.

Definition bs58_encode (bytes : list Z) : list ascii :=
  let zeros := length (take_while (Z.eqb 0) bytes) in
  let digits := fold_left encode_byte (drop zeros bytes) [] in
  repeat "1"%char zeros ++ map letter (rev digits).

Fixpoint decode_carry (bytes : list Z) (carry : Z) : list Z * Z :=
  match bytes with
  | [] => ([], carry)
  | b :: bytes =>
      let carry := u32 (carry + u32 (b * 58)) in
      let '(bs, c) := decode_carry bytes (Z.shiftr carry 8) in
      (Z.land carry 255 :: bs, c)
  end.

Fixpoint decode_push (fuel : nat) (carry : Z) : list Z :=
  match fuel with
  | O => []
  | S fuel => if 0 <? carry then Z.land carry 255 :: decode_push fuel (Z.shiftr carry 8) else []
  end.

Definition decode_digit (bytes : list Z) (v : Z) : list Z :=
  let '(bs, carry) := decode_carry bytes v in bs ++ decode_push 32 carry.

Section decode.
(** [{:?}] of a [char]. *)
Context (debug_char : ascii → string).

Definition decode_char (bytes : list Z) (c : ascii) : result string (list Z) :=
match position c ALPHABET with
| Some v => Ok (decode_digit bytes (Z.of_nat v))
| None => Err ("invalid base58 character " +:+ debug_char c)%string
end.

Definition bs58_decode (s : list ascii) : result string (list Z) :=
let ones := length (take_while (Ascii.eqb "1") s) in
bytes ← try_fold decode_char [] (drop ones s);
Ok (repeat 0 ones ++ rev bytes).
End decode.

(** ** Base58 round trips

    Both loops compute the one canonical list of digits of a number
    ([absorb_canon]), whence both round trips. *)

(** ** Digits in a base *)

Section base.
Context (B : Z) (HB : 2 ≤ B).

(** Little-endian. *)
Fixpoint value (ds : list Z) : Z :=
match ds with [] => 0 | d :: ds => d + B * value ds end.

Definition digits (ds : list Z) : Prop := Forall (λ d, 0 ≤ d < B) ds.

(** Digits with no zero at the end. *)
Definition canon (ds : list Z) : Prop :=
digits ds ∧ (ds = [] ∨ B ^ (Z.of_nat (length ds) - 1) ≤ value ds).

Lemma value_bound ds : digits ds → 0 ≤ value ds < B ^ Z.of_nat (length ds).
Proof.
induction 1 as [|d ds Hd _ IH]; cbn [value length]; [rewrite Z.pow_0_r; lia|].
rewrite Nat2Z.inj_succ, Z.pow_succ_r by lia. nia.
Qed.

Lemma value_app a b : value (a ++ b) = value a + B ^ Z.of_nat (length a) * value b.
Proof.
induction a as [|x a IH]; cbn [value length app]; [rewrite Z.pow_0_r; lia|].
rewrite IH, Nat2Z.inj_succ, Z.pow_succ_r by lia. lia.
Qed.

Lemma digits_inj a b : digits a → digits b → length a = length b → value a = value b → a = b.
Proof.
intros Ha. revert b. induction Ha as [|x a Hx _ IH]; intros [|y b] Hb L E; try done.
inversion Hb as [|? ? Hy Hb']; subst. cbn [value] in E. injection L as L.
assert (x = y).
{ apply (f_equal (λ z, z mod B)) in E. rewrite !(Z.mul_comm B), !Z_mod_plus_full in E.
  by rewrite !Z.mod_small in E by lia. }
subst. f_equal. apply IH; [done..|]. nia.
Qed.

Lemma canon_inj a b : canon a → canon b → value a = value b → a = b.
Proof.
intros [Ha Ca] [Hb Cb] E. apply digits_inj; [done..| |done].
pose proof (value_bound a Ha) as Va. pose proof (value_bound b Hb) as Vb.
assert (Hpow : ∀ n, 0 < B ^ n ∨ n < 0).
{ intros n. destruct (Z.le_gt_cases 0 n); [left; by apply Z.pow_pos_nonneg; lia|by right]. }
destruct Ca as [->|Ca], Cb as [->|Cb]; cbn [length value] in *.
- done.
- destruct b as [|y b]; [done|]. cbn [length] in *.
  destruct (Hpow (Z.of_nat (S (length b)) - 1)); lia.
- destruct a as [|y a]; [done|]. cbn [length] in *.
  destruct (Hpow (Z.of_nat (S (length a)) - 1)); lia.
- destruct (Nat.lt_trichotomy (length a) (length b)) as [L|[L|L]]; [|done|].
  + pose proof (Z.pow_le_mono_r B (Z.of_nat (length a)) (Z.of_nat (length b) - 1)). lia.
  + pose proof (Z.pow_le_mono_r B (Z.of_nat (length b)) (Z.of_nat (length a) - 1)). lia.
Qed.

(** ** One turn of the outer loop, for any multiplier *)

Context (M : Z).

Fixpoint carry_through (ds : list Z) (c : Z) : list Z * Z :=
match ds with
| [] => ([], c)
| d :: ds =>
    let c := c + d * M in
    let '(ds, c') := carry_through ds (c / B) in (c mod B :: ds, c')
end.

Fixpoint push_carry (fuel : nat) (c : Z) : list Z :=
match fuel with
| O => []
| S fuel => if 0 <? c then c mod B :: push_carry fuel (c / B) else []
end.

Definition absorb (ds : list Z) (x : Z) : list Z :=
let '(ds, c) := carry_through ds x in ds ++ push_carry 32 c.

Context (HM : 1 ≤ M ≤ 256).

Lemma carry_through_spec ds c :
0 ≤ c → digits ds →
let '(ds', c') := carry_through ds c in
digits ds' ∧ length ds' = length ds ∧ 0 ≤ c'
∧ value ds' + B ^ Z.of_nat (length ds) * c' = c + M * value ds.
Proof.
intros Hc Hd. revert c Hc. induction Hd as [|d ds Hd _ IH]; intros c Hc; cbn [carry_through].
{ cbn [length value]. rewrite Z.pow_0_r. split_and!; [constructor|done|done|lia]. }
assert (0 ≤ (c + d * M) / B) as Hq by (apply Z.div_pos; nia).
specialize (IH _ Hq). destruct (carry_through ds ((c + d * M) / B)) as [ds' c'].
destruct IH as (H1 & H2 & H3 & H4). cbn [value length].
pose proof (Z.mod_pos_bound (c + d * M) B). pose proof (Z.div_mod (c + d * M) B).
rewrite Nat2Z.inj_succ, Z.pow_succ_r by lia.
split_and!; [constructor; [lia|done]|lia|done|nia].
Qed.

Lemma push_carry_spec fuel c :
0 ≤ c < 2 ^ Z.of_nat fuel → canon (push_carry fuel c) ∧ value (push_carry fuel c) = c.
Proof.
revert c. induction fuel as [|fuel IH]; intros c Hc; cbn [push_carry].
{ rewrite Z.pow_0_r in Hc. split; [split; [constructor|by left]|cbn; lia]. }
destruct (Z.ltb_spec 0 c) as [L|L].
2:{ split; [split; [constructor|by left]|cbn; lia]. }
rewrite Nat2Z.inj_succ, Z.pow_succ_r in Hc by lia.
assert (0 ≤ c / B < 2 ^ Z.of_nat fuel) as Hq.
{ split; [apply Z.div_pos; lia|apply Z.div_lt_upper_bound; nia]. }
destruct (IH _ Hq) as [[H1 H2] H3].
pose proof (Z.mod_pos_bound c B). pose proof (Z.div_mod c B).
split; [|cbn [value]; lia]. split; [constructor; [lia|done]|]. right. cbn [value length].
rewrite H3. destruct H2 as [H2|H2].
- rewrite H2. cbn [length]. rewrite H2 in H3. cbn in H3. change (Z.of_nat 1 - 1) with 0. lia.
- rewrite H3 in H2. destruct (push_carry fuel (c / B)) as [|y l]; [cbn in *; lia|].
  cbn [length] in *. replace (Z.of_nat (S (S (length l))) - 1) with (Z.succ (Z.of_nat (S (length l)) - 1)) by lia.
  rewrite Z.pow_succ_r by lia. nia.
Qed.

Lemma carry_bound ds c : 0 ≤ c < M → digits ds → 0 ≤ (carry_through ds c).2 < M.
Proof.
intros Hc Hd. revert c Hc. induction Hd as [|d ds Hd _ IH]; intros c Hc; cbn [carry_through]; [done|].
assert (0 ≤ (c + d * M) / B < M) as Hq.
{ split; [apply Z.div_pos; nia|apply Z.div_lt_upper_bound; nia]. }
specialize (IH _ Hq). by destruct (carry_through ds _).
Qed.

(** A turn keeps the digits canonical: it multiplies and adds. *)
Lemma absorb_canon ds x :
canon ds → 0 ≤ x < M → canon (absorb ds x) ∧ value (absorb ds x) = M * value ds + x.
Proof.
intros [Hd Hc] Hx. unfold absorb. pose proof (carry_bound ds x Hx Hd) as Hb.
pose proof (carry_through_spec ds x ltac:(lia) Hd) as S.
destruct (carry_through ds x) as [ds' c]. destruct S as (H1 & H2 & H3 & H4). cbn [snd] in Hb.
destruct (push_carry_spec 32 c) as [[P1 P2] P3].
{ change (2 ^ Z.of_nat 32) with 4294967296. lia. }
assert (V : value (ds' ++ push_carry 32 c) = M * value ds + x) by (rewrite value_app, P3, H2; lia).
split; [|done]. split; [by apply Forall_app|]. rewrite V, length_app, H2.
destruct P2 as [P2|P2].
- rewrite P2 in *. cbn [value] in P3. subst c. rewrite app_nil_r, Nat.add_0_r.
  destruct Hc as [->|Hc]; [left; by destruct ds'|right].
  pose proof (value_bound ds Hd). nia.
- destruct (push_carry 32 c) as [|y l] eqn:E.
  + cbn [length value] in *. rewrite Nat.add_0_r.
    destruct Hc as [->|Hc]; [left; by destruct ds'|right].
    pose proof (value_bound ds Hd). nia.
  + right. rewrite P3 in P2. cbn [length] in *.
    replace (Z.of_nat (length ds + S (length l)) - 1)
      with (Z.of_nat (length ds) + (Z.of_nat (S (length l)) - 1)) by lia.
    rewrite Z.pow_add_r by lia. pose proof (value_bound ds' H1).
    pose proof (Z.pow_pos_nonneg B (Z.of_nat (length ds)) ltac:(lia) ltac:(lia)). nia.
Qed.

Lemma fold_absorb xs ds :
canon ds → Forall (λ x, 0 ≤ x < M) xs →
canon (fold_left absorb xs ds)
∧ value (fold_left absorb xs ds) = fold_left (λ v x, M * v + x) xs (value ds).
Proof.
intros Hc Hx. revert ds Hc. induction Hx as [|x xs Hx _ IH]; intros ds Hc; cbn [fold_left]; [done|].
destruct (absorb_canon ds x Hc Hx) as [H1 H2]. destruct (IH _ H1) as [H3 H4].
split; [done|]. by rewrite H4, H2.
Qed.

Lemma canon_nil : canon [].
Proof. split; [constructor|by left]. Qed.

(** The last digit of a canonical list is not 0, and that is all it asks. *)
Lemma canon_last ds d : digits (ds ++ [d]) → canon (ds ++ [d]) ↔ d ≠ 0.
Proof.
intros Hd. pose proof Hd as Hd'. apply Forall_app in Hd' as [H1 H2]. inversion H2 as [|? ? H3 _]; subst.
unfold canon. rewrite value_app, length_app. cbn [value length].
replace (Z.of_nat (length ds + 1) - 1) with (Z.of_nat (length ds)) by lia.
pose proof (value_bound ds H1). split.
- intros [_ [E|E]] ->; [by destruct ds|nia].
- intros N. split; [done|]. right.
  pose proof (Z.pow_pos_nonneg B (Z.of_nat (length ds)) ltac:(lia) ltac:(lia)). nia.
Qed.
End base.

(** The big-endian number of a list. *)
Lemma be_value B xs : fold_left (λ v x, B * v + x) xs 0 = value B (rev xs).
Proof.
  induction xs as [|x xs IH] using rev_ind; [done|].
  rewrite fold_left_app, rev_app_distr. cbn. rewrite IH. lia.
Qed.

(** ** The code's loops *)

Lemma u32_small x : 0 ≤ x < 2 ^ 32 → u32 x = x.
Proof. apply Z.mod_small. Qed.

Lemma encode_carry_eq ds c : 0 ≤ c < 256 → digits 58 ds → encode_carry ds c = carry_through 58 256 ds c.
Proof.
  intros Hc Hd. revert c Hc. induction Hd as [|d ds Hd _ IH]; intros c Hc; [done|].
  cbn [encode_carry carry_through]. rewrite Z.shiftl_mul_pow2 by lia. change (2 ^ 8) with 256.
  rewrite (u32_small (d * 256)), u32_small by lia.
  assert (0 ≤ (c + d * 256) / 58 < 256).
  { split; [apply Z.div_pos; lia|apply Z.div_lt_upper_bound; lia]. }
  rewrite IH by done. destruct (carry_through 58 256 ds _).
  pose proof (Z.mod_pos_bound (c + d * 256) 58). unfold u8. rewrite Z.mod_small; [done|lia].
Qed.

Lemma encode_push_eq fuel c : encode_push fuel c = push_carry 58 fuel c.
Proof.
  revert c. induction fuel as [|fuel IH]; intros c; [done|]. cbn [encode_push push_carry].
  destruct (0 <? c); [|done]. rewrite IH. pose proof (Z.mod_pos_bound c 58).
  unfold u8. rewrite (Z.mod_small (c mod 58)); [done|lia].
Qed.

Lemma encode_byte_eq ds x : 0 ≤ x < 256 → digits 58 ds → encode_byte ds x = absorb 58 256 ds x.
Proof.
  intros Hx Hd. unfold encode_byte, absorb. rewrite encode_carry_eq by done.
  destruct (carry_through 58 256 ds x). by rewrite encode_push_eq.
Qed.

Lemma land_255 x : Z.land x 255 = x mod 256.
Proof. change 255 with (Z.ones 8). rewrite Z.land_ones by lia. done. Qed.

Lemma shiftr_8 x : Z.shiftr x 8 = x / 256.
Proof. rewrite Z.shiftr_div_pow2 by lia. done. Qed.

Lemma decode_carry_eq ds c : 0 ≤ c < 58 → digits 256 ds → decode_carry ds c = carry_through 256 58 ds c.
Proof.
  intros Hc Hd. revert c Hc. induction Hd as [|d ds Hd _ IH]; intros c Hc; [done|].
  cbn [decode_carry carry_through]. rewrite (u32_small (d * 58)), u32_small by lia.
  rewrite land_255, shiftr_8. assert (0 ≤ (c + d * 58) / 256 < 58).
  { split; [apply Z.div_pos; lia|apply Z.div_lt_upper_bound; lia]. }
  by rewrite IH.
Qed.

Lemma decode_push_eq fuel c : decode_push fuel c = push_carry 256 fuel c.
Proof.
  revert c. induction fuel as [|fuel IH]; intros c; [done|]. cbn [decode_push push_carry].
  by rewrite land_255, shiftr_8, IH.
Qed.

Lemma decode_digit_eq ds x : 0 ≤ x < 58 → digits 256 ds → decode_digit ds x = absorb 256 58 ds x.
Proof.
  intros Hx Hd. unfold decode_digit, absorb. rewrite decode_carry_eq by done.
  destruct (carry_through 256 58 ds x). by rewrite decode_push_eq.
Qed.

(** What the two outer loops compute. *)
Lemma encode_fold t : Forall (λ x, 0 ≤ x < 256) t →
  let ds := fold_left encode_byte t [] in canon 58 ds ∧ value 58 ds = value 256 (rev t).
Proof.
  intros Ht. enough (∀ ds, canon 58 ds → fold_left encode_byte t ds = fold_left (absorb 58 256) t ds) as E.
  { rewrite E by apply canon_nil. rewrite <-be_value. apply (fold_absorb 58 ltac:(lia) 256); [lia|apply canon_nil|done]. }
  induction Ht as [|x t Hx _ IH]; intros ds Hc; cbn [fold_left]; [done|].
  rewrite encode_byte_eq by (done || apply Hc). apply IH. by apply (absorb_canon 58 ltac:(lia) 256).
Qed.

Lemma decode_fold t : Forall (λ x, 0 ≤ x < 58) t →
  let ds := fold_left decode_digit t [] in canon 256 ds ∧ value 256 ds = value 58 (rev t).
Proof.
  intros Ht. enough (∀ ds, canon 256 ds → fold_left decode_digit t ds = fold_left (absorb 256 58) t ds) as E.
  { rewrite E by apply canon_nil. rewrite <-be_value. apply (fold_absorb 256 ltac:(lia) 58); [lia|apply canon_nil|done]. }
  induction Ht as [|x t Hx _ IH]; intros ds Hc; cbn [fold_left]; [done|].
  rewrite decode_digit_eq by (done || apply Hc). apply IH. by apply (absorb_canon 256 ltac:(lia) 58).
Qed.

(** ** The alphabet *)

Definition letter_ok (d : Z) : bool :=
  bool_decide (position (letter d) ALPHABET = Some (Z.to_nat d))
  && Bool.eqb (Ascii.eqb "1" (letter d)) (d =? 0).

Lemma letter_facts d : 0 ≤ d < 58 →
  position (letter d) ALPHABET = Some (Z.to_nat d) ∧ Ascii.eqb "1" (letter d) = (d =? 0).
Proof.
  intros H. assert (A : forallb (λ n, letter_ok (Z.of_nat n)) (seq 0 58) = true) by (vm_compute; reflexivity).
  rewrite forallb_forall in A. specialize (A (Z.to_nat d)).
  rewrite Z2Nat.id, in_seq in A by lia. specialize (A ltac:(lia)).
  unfold letter_ok in A. rewrite andb_true_iff, bool_decide_eq_true, Bool.eqb_true_iff in A. done.
Qed.

Lemma position_some c l i : position c l = Some i → (i < length l)%nat ∧ nth i l "000"%char = c.
Proof.
  revert i. induction l as [|x l IH]; intros i; cbn [position]; [done|].
  destruct (Ascii.eqb_spec x c) as [->|].
  - intros [= <-]. cbn. split; [lia|done].
  - destruct (position c l) as [j|]; [|done]. cbn. intros [= <-].
    destruct (IH j eq_refl). cbn. split; [lia|done].
Qed.

Lemma letter_position c v : position c ALPHABET = Some v → (v < 58)%nat ∧ letter (Z.of_nat v) = c.
Proof. intros [H1 H2]%position_some. split; [exact H1|]. unfold letter. by rewrite Nat2Z.id. Qed.

(** The leading zeros of a list, and what follows them. *)
Lemma take_while_spec {A} (p : A → bool) x l :
  (∀ y, p y = true ↔ y = x) →
  let n := length (take_while p l) in
  l = repeat x n ++ drop n l ∧ match drop n l with y :: _ => y ≠ x | [] => True end.
Proof.
  intros Hp. induction l as [|y l IH]; cbn [take_while]; [done|].
  destruct (p y) eqn:E; cbn [length repeat drop].
  - apply Hp in E as ->. destruct IH as [IH1 IH2]. split; [|done]. cbn. by rewrite <-IH1.
  - split; [done|]. intros ->. by rewrite (proj2 (Hp x) eq_refl) in E.
Qed.

Lemma take_while_repeat {A} (p : A → bool) x n l :
  (∀ y, p y = true ↔ y = x) → match l with y :: _ => y ≠ x | [] => True end →
  length (take_while p (repeat x n ++ l)) = n ∧ drop n (repeat x n ++ l) = l.
Proof.
  intros Hp Hl. induction n as [|n [IH1 IH2]]; cbn.
  - split; [|by rewrite drop_0]. destruct l as [|y l]; [done|]. cbn.
    destruct (p y) eqn:E; [by apply Hp in E|done].
  - rewrite (proj2 (Hp x) eq_refl). cbn. by rewrite IH1.
Qed.

Lemma eqb_zero y : (0 =? y) = true ↔ y = 0.
Proof. rewrite Z.eqb_eq. naive_solver. Qed.
Lemma eqb_one y : Ascii.eqb "1" y = true ↔ y = "1"%char.
Proof. rewrite Ascii.eqb_eq. naive_solver. Qed.

(** A list that does not start with 0 is canonical backwards. *)
Lemma rev_canon B t : 2 ≤ B → Forall (λ x, 0 ≤ x < B) t →
  canon B (rev t) ↔ match t with y :: _ => y ≠ 0 | [] => True end.
Proof.
  intros HB Ht. destruct t as [|y t]; cbn [rev]; [split; [done|intros _; apply canon_nil]|].
  apply (canon_last B HB 1 ltac:(lia)). change (rev t ++ [y]) with (rev (y :: t)).
  unfold digits. rewrite Forall_forall in Ht |- *. intros x Hx. apply Ht.
  rewrite list_elem_of_In in Hx |- *. by apply in_rev.
Qed.

Lemma head_rev B ds : 2 ≤ B → canon B ds → match rev ds with y :: _ => y ≠ 0 | [] => True end.
Proof.
  intros HB Hc. apply (rev_canon B); [done| |by rewrite rev_involutive].
  destruct Hc as [Hd _]. unfold digits in Hd. rewrite Forall_forall in Hd |- *. intros x Hx. apply Hd.
  rewrite list_elem_of_In in Hx |- *. by apply in_rev.
Qed.

Section round.
Context (debug_char : ascii → string).

Lemma decode_letters ds acc : Forall (λ d, 0 ≤ d < 58) ds →
try_fold (decode_char debug_char) acc (map letter ds) = Ok (fold_left decode_digit ds acc).
Proof.
intros Hd. revert acc. induction Hd as [|d ds Hd _ IH]; intros acc; cbn [map try_fold fold_left]; [done|].
assert (decode_char debug_char acc (letter d) = Ok (decode_digit acc d)) as ->; [|apply IH].
unfold decode_char. destruct (letter_facts d Hd) as [-> _]. by rewrite Z2Nat.id by lia.
Qed.

Lemma decode_ok s acc r :
try_fold (decode_char debug_char) acc s = Ok r →
∃ ds, Forall (λ d, 0 ≤ d < 58) ds ∧ s = map letter ds ∧ r = fold_left decode_digit ds acc.
Proof.
revert acc. induction s as [|c s IH]; intros acc; cbn [try_fold].
{ intros H. apply ok_inj in H as <-. by exists []. }
destruct (decode_char debug_char acc c) as [acc'|] eqn:Ec; [|done]. revert Ec.
unfold decode_char. destruct (position c ALPHABET) as [v|] eqn:E; [|done].
intros Ec. apply ok_inj in Ec as <-. cbn [mbind result_bind]. intros (ds & H1 & -> & ->)%IH.
destruct (letter_position c v E) as [Hv <-]. exists (Z.of_nat v :: ds).
split_and!; [constructor; [lia|done]|done|done].
Qed.

Definition is_byte (x : Z) : Prop := 0 ≤ x < 256.

Lemma in_rev_forall {A} (P : A → Prop) l : Forall P l → Forall P (rev l).
Proof.
rewrite !Forall_forall. intros H x Hx. apply H. rewrite list_elem_of_In in Hx |- *. by apply in_rev.
Qed.

Lemma repeat_forall {A} (P : A → Prop) x n : P x → Forall P (repeat x n).
Proof. intros H. apply Forall_forall. intros y Hy. by apply list_elem_of_In, repeat_spec in Hy as ->. Qed.

Lemma decode_encode b : Forall is_byte b → bs58_decode debug_char (bs58_encode b) = Ok b.
Proof.
intros Hb. unfold bs58_encode.
destruct (take_while_spec (Z.eqb 0) 0 b eqb_zero) as [E Hh].
set (n := length (take_while (Z.eqb 0) b)) in *. set (t := drop n b) in *.
assert (Ht : Forall (λ x, 0 ≤ x < 256) t) by (apply Forall_drop; exact Hb).
destruct (encode_fold t Ht) as [C V]. set (ds := fold_left encode_byte t []) in *.
assert (Hr : Forall (λ d, 0 ≤ d < 58) (rev ds)) by apply in_rev_forall, C.
pose proof (head_rev 58 ds ltac:(lia) C) as Hhd.
assert (Hl : match map letter (rev ds) with y :: _ => y ≠ "1"%char | [] => True end).
{ destruct (rev ds) as [|d l]; [done|]. cbn [map]. apply Forall_cons in Hr as [Hd _].
  destruct (letter_facts d Hd) as [_ F]. intros E1. rewrite E1 in F.
  symmetry in F. by apply Z.eqb_eq in F. }
unfold bs58_decode.
destruct (take_while_repeat (Ascii.eqb "1") "1"%char n _ eqb_one Hl) as [T1 T2]. rewrite T1, T2.
rewrite decode_letters by done. cbn [mbind result_bind].
destruct (decode_fold (rev ds) Hr) as [C' V']. rewrite rev_involutive, V in V'.
assert (fold_left decode_digit (rev ds) [] = rev t) as ->.
{ apply (canon_inj 256 ltac:(lia)); [done| |done]. by apply rev_canon. }
by rewrite rev_involutive, <-E.
Qed.

Lemma encode_decode s b :
bs58_decode debug_char s = Ok b → Forall is_byte b ∧ bs58_encode b = s.
Proof.
unfold bs58_decode. destruct (take_while_spec (Ascii.eqb "1") "1"%char s eqb_one) as [E Hh].
set (n := length (take_while (Ascii.eqb "1") s)) in *.
intros H. apply bind_ok in H as (bs & H & Hb). apply ok_inj in Hb as <-.
apply decode_ok in H as (ds & Hd & Es & ->). rewrite Es in *.
assert (Hz : match ds with y :: _ => y ≠ 0 | [] => True end).
{ destruct ds as [|d l]; [done|]. cbn in Hh. intros ->. by apply Hh. }
destruct (decode_fold ds Hd) as [C V]. set (bs := fold_left decode_digit ds []) in *.
assert (Hr : Forall is_byte (rev bs)) by apply in_rev_forall, C.
split. { apply Forall_app. split; [|done]. apply repeat_forall. unfold is_byte. lia. }
pose proof (head_rev 256 bs ltac:(lia) C) as Hhd. unfold bs58_encode.
destruct (take_while_repeat (Z.eqb 0) 0 n _ eqb_zero Hhd) as [T1 T2]. rewrite T1, T2.
destruct (encode_fold (rev bs) Hr) as [C' V']. rewrite rev_involutive, V in V'.
assert (fold_left encode_byte (rev bs) [] = rev ds) as ->; [|by rewrite rev_involutive].
apply (canon_inj 58 ltac:(lia)); [done| |done]. apply rev_canon; [lia|done|done].
Qed.

Lemma position_in c l : c ∈ l ↔ is_Some (position c l).
Proof.
induction l as [|x l IH]; cbn [position]; [split; [by intros ?%elem_of_nil|by intros [? ?]]|].
rewrite elem_of_cons, IH. destruct (Ascii.eqb_spec x c) as [->|N]; [split; eauto|].
rewrite fmap_is_Some. split; [intros [->|?]; done|by right].
Qed.

Lemma decodes_iff s : is_ok (bs58_decode debug_char s) = true ↔ Forall (λ c, c ∈ ALPHABET) s.
Proof.
unfold bs58_decode. destruct (take_while_spec (Ascii.eqb "1") "1"%char s eqb_one) as [E _].
set (n := length (take_while (Ascii.eqb "1") s)) in *. set (t := drop n s) in *.
assert (Forall (λ c, c ∈ ALPHABET) s ↔ Forall (λ c, c ∈ ALPHABET) t) as ->.
{ rewrite E, Forall_app. split; [tauto|]. intros H. split; [|done].
  apply repeat_forall. apply position_in. by eexists. }
generalize (@nil Z) as acc. clearbody t. clear E. induction t as [|c t IH]; intros acc.
{ split; [constructor|done]. }
cbn [try_fold]. rewrite Forall_cons, position_in.
destruct (decode_char debug_char acc c) as [acc'|] eqn:Ec; revert Ec; unfold decode_char;
  (destruct (position c ALPHABET) as [v|]; [|]); try done; intros _; cbn [mbind result_bind].
- rewrite IH. split; [eauto|tauto].
- split; [done|]. by intros [[? ?] _].
Qed.

(** Base58 is a bijection between byte strings and texts of its alphabet:
  every byte string decodes back from its encoding, leading zeros included;
  a text that decodes at all decodes to bytes that encode back to it; and a
  text decodes if and only if every char is of the alphabet. *)
Theorem base58_round_trips :
(∀ b, Forall is_byte b → bs58_decode debug_char (bs58_encode b) = Ok b) ∧
(∀ s b, bs58_decode debug_char s = Ok b → Forall is_byte b ∧ bs58_encode b = s) ∧
(∀ s, is_ok (bs58_decode debug_char s) = true ↔ Forall (λ c, c ∈ ALPHABET) s).
Proof. exact (conj decode_encode (conj encode_decode decodes_iff)). Qed.
End round.

Lemma base58_round_trips_witness :
  bs58_decode (λ _, EmptyString) (bs58_encode [0; 0; 255; 1]) = Ok [0; 0; 255; 1]
  ∧ of_bytes (bs58_encode [0; 0; 255; 1]) = "11LQY"%string.
Proof.
  split; [|vm_compute; reflexivity].
  apply (proj1 (base58_round_trips (λ _, EmptyString))).
  repeat (constructor; [unfold is_byte; lia|]); constructor.
Defined.
