(* ===== verification/SolanaKeys.v ===== *)
(** * Solana's keys, accounts and derived addresses ([src/src/domain/solana.rs])

    A [Pubkey] is its 32 bytes and a [Signature] its 64, as [Z] in 0 to 255; a
    Rust panic ([expect]) is [None]. The [U256] arithmetic of the alloy crate,
    SHA-256, base64 and the debug text of a char are parameters. *)

From Stdlib Require Import Ascii String.
From S2P Require Import Prelude.
From S2P Require Import Text.
From S2P Require Import Bytes.
From S2P Require Import Base58.

#[local] Open Scope string_scope.
#[local] Open Scope list_scope.
#[local] Open Scope Z_scope.

Notation Pubkey := (list Z).
Notation Signature := (list Z).

(** ** Keys and signatures as text *)

(** [Pubkey::read]. *)
Definition pubkey_read (data : list Z) (offset : nat) : option Pubkey :=
  if (offset + 32 <=? length data)%nat then Some (take 32 (drop offset data)) else None.

Definition PUBKEY_MAX_B58 : nat := 44.
Definition SIGNATURE_MAX_B58 : nat := 88.

Definition show_nat (n : nat) : string := show_N (Z.of_nat n).

Definition bounded (s what : string) (max : nat) : result string string :=
  let t := trim s in
  if (max <? str_len t)%nat then
    Err (what +:+ " must be at most " +:+ show_nat max +:+ " base58 chars, got "
         +:+ show_nat (str_len t) +:+ ": " +:+ s)%string
  else Ok t.

Section text.
(** [{:?}] of a [char]. *)
Context (debug_char : ascii → string).

(** The body both [from_str]s share: [n] bytes in at most [max] chars. *)
Definition id_from_str (what : string) (n max : nat) (s : string) : result string (list Z) :=
t ← bounded s what max;
v ← bs58_decode debug_char (bytes t);
if (length v =? n)%nat then Ok v
else Err (what +:+ " must be " +:+ show_nat n +:+ " bytes, got " +:+ show_nat (length v)
          +:+ ": " +:+ s)%string.

Definition pubkey_from_str : string → result string Pubkey :=
id_from_str "pubkey" 32 PUBKEY_MAX_B58.
Definition signature_from_str : string → result string Signature :=
id_from_str "signature" 64 SIGNATURE_MAX_B58.

Definition show_pubkey (k : Pubkey) : string := of_bytes (bs58_encode k).
Definition show_signature (k : Signature) : string := of_bytes (bs58_encode k).
End text.

Module ids.
Definition SYSTEM : string := "11111111111111111111111111111111".
Definition TOKEN : string := "TokenkegQfeZyiNwAJbNbGKPFXCWuBvf9Ss623VQ5DA".
Definition TOKEN_2022 : string := "TokenzQdBNbLqP5VEhdkAS6EPFLC1PHnBqCXEpPxuEb".
Definition ATA : string := "ATokenGPvbdGVxr1b2hvZbsiqW5xWH25efTNsLJA8knL".
Definition WSOL : string := "So11111111111111111111111111111111111111112".
Definition USDC : string := "EPjFWdd5AufqSSqeM2qN1xzybapC8G4wEGGkZwyTDt1v".
Definition DLMM : string := "LBUZKhRxPF3XUpBCjp4YzTKgLccjZhTSDM9YuVaPwxo".
Definition JUP_PERPS : string := "PERPHjGBqRHArX4DySjwM6UJHiR3sWAatqfdBS2qQJu".
Definition JLP_POOL : string := "5BUwFW4nRbftYTDMbgxykoFWqWHPzahFSNAaaaJtVKsq".
Definition JUP_CUSTODY_SOL : string := "7xS2gz2bTp3fwCC7knJvUWTEU9Tycczu6VhJYKgi1wdz".
Definition JUP_CUSTODY_USDC : string := "G18jKKXQwBbrHeiK3C9MRXhkHsLHf7XgCSisykV46EZa".
Definition COMPUTE_BUDGET : string := "ComputeBudget111111111111111111111111111111".
Definition MEMO : string := "MemoSq4gqABAXKb96qnH8TysNcWxMyWCqXgDLGmfcHr".
Definition SYSVAR_RENT : string := "SysvarRent111111111111111111111111111111111".
Definition DLMM_EVENT_AUTHORITY : string := "D1ZN9Wj1fRSUQfCjhvnu1hqDMT7hzjzBBpi12nVniYD6".
Definition JUP_PERPS_EVENT_AUTHORITY : string := "37hJBDnntwqhGbK7L6M1bLyvccj4u55CCUiLPdYkiqBN".
Definition JUP_PERPETUALS : string := "H4ND9aYttUVLFmNypZqLjZ52FYiGvdEB45GmwNoKEjTj".
Definition all : list string :=
[SYSTEM; TOKEN; TOKEN_2022; ATA; WSOL; USDC; DLMM; JUP_PERPS; JLP_POOL; JUP_CUSTODY_SOL;
 JUP_CUSTODY_USDC; COMPUTE_BUDGET; MEMO; SYSVAR_RENT; DLMM_EVENT_AUTHORITY;
 JUP_PERPS_EVENT_AUTHORITY; JUP_PERPETUALS].

(** [None] is the [expect]. *)
Definition key (debug_char : ascii → string) (id : string) : option Pubkey :=
ok (pubkey_from_str debug_char id).
End ids.

(** ** Account reads *)

Inductive AccountState : Type :=
  | AccountOk (owner : Pubkey) (lamports : Z) (data_b64 : string) (executable : bool)
  | Absent.

Record AccountRead : Type := mkRead {
  ar_pubkey : Pubkey;
  ar_slot : Z;
  ar_state : AccountState;
}.

(** [data], with base64's decoder. *)
Definition account_data (b64d : string → option (list Z)) (r : AccountRead) : option (list Z) :=
  match ar_state r with AccountOk _ _ d _ => b64d d | Absent => None end.
Definition account_owner (r : AccountRead) : option Pubkey :=
  match ar_state r with AccountOk o _ _ _ => Some o | Absent => None end.
Definition account_lamports (r : AccountRead) : option Z :=
  match ar_state r with AccountOk _ l _ _ => Some l | Absent => None end.
Definition account_exists (r : AccountRead) : bool :=
  match ar_state r with AccountOk _ _ _ _ => true | Absent => false end.
Definition account_headline (r : AccountRead) : string :=
  match ar_state r with
  | AccountOk o l _ _ =>
      ("account " +:+ show_pubkey (ar_pubkey r) +:+ " owner " +:+ show_pubkey o
       +:+ " lamports " +:+ show_N l)%string
  | Absent => ("account " +:+ show_pubkey (ar_pubkey r) +:+ " absent")%string
  end.

Record AccountSet : Type := mkSet {
  as_accounts : gmap (list Z) AccountRead;
  slot_min : Z;
  slot_max : Z;
}.

Definition set_default : AccountSet := mkSet ∅ 0 0.
Definition set_get (s : AccountSet) (k : Pubkey) : option AccountRead := as_accounts s !! k.
Definition set_insert (s : AccountSet) (r : AccountRead) : AccountSet :=
  let '(lo, hi) :=
    if decide (as_accounts s = ∅) then (ar_slot r, ar_slot r)
    else (Z.min (slot_min s) (ar_slot r), Z.max (slot_max s) (ar_slot r)) in
  mkSet (<[ar_pubkey r := r]> (as_accounts s)) lo hi.

(** ** Program derived addresses *)

Definition MAX_SEEDS : nat := 16.
Definition MAX_SEED_LEN : nat := 32.
Definition PDA_MARKER : list Z := str_bytes "ProgramDerivedAddress".

(** The little-endian number of bytes, and of [U256]'s four limbs. *)
Fixpoint le_value (base : Z) (ds : list Z) : Z :=
  match ds with [] => 0 | d :: ds => d + base * le_value base ds end.

Definition FIELD_P : Z := le_value (2 ^ 64)
  [0xffffffffffffffed; 0xffffffffffffffff; 0xffffffffffffffff; 0x7fffffffffffffff].
Definition EDWARDS_D : Z := le_value (2 ^ 64)
  [0x75eb4dca135978a3; 0x00700a4d4141d8ab; 0x8cc740797779e898; 0x52036cee2b6ffe73].

Section pda.
Context (reduce_mod : Z → Z → Z) (mul_mod add_mod pow_mod : Z → Z → Z → Z).
Context (sha256 : list Z → list Z).
Context (debug_char : ascii → string).

(** [b[31] &= 0x7f]. *)
Definition clear_sign (b : list Z) : list Z := alter (λ x, Z.land x 127) 31%nat b.

Definition is_on_curve (b : list Z) : bool :=
let b := clear_sign b in
let y := reduce_mod (le_value 256 b) FIELD_P in
let yy := mul_mod y y FIELD_P in
let u := add_mod yy (FIELD_P - 1) FIELD_P in
let v := add_mod (mul_mod EDWARDS_D yy FIELD_P) 1 FIELD_P in
if u =? 0 then true
else if v =? 0 then false
else pow_mod (mul_mod u v FIELD_P) (Z.shiftr (FIELD_P - 1) 1) FIELD_P =? 1.

Definition seeds_valid (seeds : list (list Z)) (max_seeds : nat) : bool :=
(length seeds <=? max_seeds)%nat && forallb (λ s, (length s <=? MAX_SEED_LEN)%nat) seeds.

Definition create_program_address (seeds : list (list Z)) (program : Pubkey) : option Pubkey :=
if negb (seeds_valid seeds MAX_SEEDS) then None
else
  let h := sha256 (List.concat seeds ++ program ++ PDA_MARKER) in
  if negb (is_on_curve h) then Some h else None.

(** [for bump in (1..=u8::MAX).rev()], [bump] to go. *)
Fixpoint bump_from (bump : nat) (seeds : list (list Z)) (program : Pubkey) : option (Pubkey * Z) :=
match bump with
| O => None
| S next =>
    match create_program_address (seeds ++ [[Z.of_nat bump]]) program with
    | Some k => Some (k, Z.of_nat bump)
    | None => bump_from next seeds program
    end
end.

Definition try_find_program_address (seeds : list (list Z)) (program : Pubkey) : option (Pubkey * Z) :=
if negb (seeds_valid seeds (MAX_SEEDS - 1)) then None else bump_from 255 seeds program.

(** The same value: its [None] is the [expect]. *)
Definition find_program_address : list (list Z) → Pubkey → option (Pubkey * Z) :=
try_find_program_address.

Definition ata (owner mint token_program : Pubkey) : option Pubkey :=
program ← ids.key debug_char ids.ATA;
fst <$> find_program_address [owner; token_program; mint] program.

(** [to_le_bytes] of [n] bytes; of an [i64] through its two's complement. *)
Fixpoint le_bytes (n : nat) (x : Z) : list Z :=
match n with
| O => []
| S n => x mod 256 :: le_bytes n (x / 256)
end.

Definition bin_array_pda (lb_pair : Pubkey) (index : Z) : option Pubkey :=
program ← ids.key debug_char ids.DLMM;
fst <$> find_program_address [str_bytes "bin_array"; lb_pair; le_bytes 8 index] program.

Definition jup_position_pda (wallet : Pubkey) (side_long : bool) : option Pubkey :=
collateral ← ids.key debug_char (if side_long then ids.JUP_CUSTODY_SOL else ids.JUP_CUSTODY_USDC);
let side := if side_long then 1 else 2 in
pool ← ids.key debug_char ids.JLP_POOL;
custody ← ids.key debug_char ids.JUP_CUSTODY_SOL;
program ← ids.key debug_char ids.JUP_PERPS;
fst <$> find_program_address [str_bytes "position"; wallet; pool; custody; collateral; [side]] program.
End pda.

(** ** Solana's keys: round trips, derived addresses, account sets *)

(** ** Trimming a text of the alphabet *)

(** [c] starts no string of [ws]. *)
Definition starts_none (ws : list string) (c : ascii) : bool :=
  forallb (λ p, match p with String a _ => negb (Ascii.eqb a c) | EmptyString => false end) ws.

Lemma first_strip_none ws c s : starts_none ws c = true → first_strip ws (String c s) = None.
Proof.
  induction ws as [|p ws IH]; [done|]. cbn [starts_none forallb first_strip].
  intros [H1 H2]%andb_prop. destruct p as [|a p]; [done|]. cbn [strip_prefix].
  destruct (Ascii.eqb a c); [done|]. by apply IH.
Qed.

Lemma first_strip_empty ws c : starts_none ws c = true → first_strip ws EmptyString = None.
Proof.
  induction ws as [|p ws IH]; [done|]. cbn [starts_none forallb first_strip].
  intros [H1 H2]%andb_prop. destruct p as [|a p]; [done|]. cbn [strip_prefix]. by apply IH.
Qed.

Lemma trim_start_fuel_none ws fuel s :
  first_strip ws s = None → trim_start_fuel ws fuel s = s.
Proof. intros H. destruct fuel; cbn [trim_start_fuel]; [done|by rewrite H]. Qed.

Lemma strip_none_all ws s :
  starts_none ws "1" = true → Forall (λ c, starts_none ws c = true) (bytes s) → first_strip ws s = None.
Proof.
  intros H1 H. destruct s as [|c s]; [by eapply first_strip_empty|]. inversion H; subst.
  by apply first_strip_none.
Qed.

Lemma alphabet_not_space c :
  c ∈ ALPHABET → starts_none white_space c = true ∧ starts_none (map str_rev white_space) c = true.
Proof.
  assert (A : forallb (λ c, starts_none white_space c && starts_none (map str_rev white_space) c) ALPHABET = true)
    by (vm_compute; reflexivity).
  rewrite forallb_forall in A. intros H. rewrite list_elem_of_In in H. apply andb_prop, (A c H).
Qed.

Lemma trim_alphabet s : Forall (λ c, c ∈ ALPHABET) (bytes s) → trim s = s.
Proof.
  intros H. unfold trim, trim_start, trim_end.
  rewrite (trim_start_fuel_none white_space).
  2: { apply strip_none_all; [reflexivity|]. eapply Forall_impl; [exact H|]. intros c Hc. by apply alphabet_not_space. }
  rewrite trim_start_fuel_none.
  { apply bytes_inj. by rewrite !str_rev_bytes, reverse_involutive. }
  apply strip_none_all; [reflexivity|]. rewrite str_rev_bytes, Forall_reverse.
  eapply Forall_impl; [exact H|]. intros c Hc. by apply alphabet_not_space.
Qed.

(** ** The length of an encoding *)

Lemma encode_alphabet b : Forall is_byte b → Forall (λ c, c ∈ ALPHABET) (bs58_encode b).
Proof.
  intros H. apply (decodes_iff (λ _, EmptyString)). by rewrite decode_encode.
Qed.

Lemma pow_le_base a b n : 0 < a ≤ b → a ^ Z.of_nat n ≤ b ^ Z.of_nat n.
Proof. intros H. apply Z.pow_le_mono_l. lia. Qed.

Lemma pow_le_exp b n m : 1 < b → b ^ Z.of_nat n ≤ b ^ Z.of_nat m → (n ≤ m)%nat.
Proof. intros Hb H. apply Z.pow_le_mono_r_iff in H; lia. Qed.

(** A text of [max] chars has room for [length b] bytes if [58 ^ max] does. *)
Lemma encode_length b max :
  Forall is_byte b → 256 ^ Z.of_nat (length b) ≤ 58 ^ Z.of_nat max → (length (bs58_encode b) ≤ max)%nat.
Proof.
  intros Hb Hmax. unfold bs58_encode.
  destruct (take_while_spec (Z.eqb 0) 0 b eqb_zero) as [E _].
  set (n := length (take_while (Z.eqb 0) b)) in *. set (t := drop n b) in *.
  assert (Ht : Forall (λ x, 0 ≤ x < 256) t) by (apply Forall_drop; exact Hb).
  assert (Hlen : length b = (n + length t)%nat) by (rewrite E at 1; by rewrite length_app, repeat_length).
  clearbody t n. clear E.
  destruct (encode_fold t Ht) as [[_ C] V]. set (ds := fold_left encode_byte t []) in *.
  rewrite length_app, repeat_length, length_map, length_rev. rewrite Hlen in Hmax.
  pose proof (pow_le_base 58 256 n ltac:(lia)) as Hn.
  rewrite Nat2Z.inj_add, Z.pow_add_r in Hmax by lia.
  destruct C as [->|C].
  - cbn [length]. rewrite Nat.add_0_r. apply (pow_le_exp 58); [lia|].
    pose proof (Z.pow_pos_nonneg 256 (Z.of_nat (length t))). nia.
  - destruct (decide (n + length ds ≤ max)%nat) as [|N]; [done|exfalso].
    assert (Hv : value 58 ds < 256 ^ Z.of_nat (length t)).
    { rewrite V, <-(length_rev t). apply value_bound; [lia|]. by apply in_rev_forall. }
    destruct (length ds) as [|m]; [rewrite Z.pow_neg_r in C by lia|].
    { pose proof (Z.pow_pos_nonneg 256 (Z.of_nat (length t))).
      enough (n ≤ max)%nat by lia. apply (pow_le_exp 58); [lia|]. nia. }
    replace (Z.of_nat (S m) - 1) with (Z.of_nat m) in C by lia.
    assert (58 ^ Z.of_nat max ≤ 58 ^ (Z.of_nat n + Z.of_nat m)) as Hp by (apply Z.pow_le_mono_r; lia).
    rewrite Z.pow_add_r in Hp by lia. pose proof (Z.pow_pos_nonneg 58 (Z.of_nat n)). nia.
Qed.

(** ** Keys and signatures as text *)

Section text.
Context (debug_char : ascii → string).

Lemma id_round_trip what n max b :
256 ^ Z.of_nat n ≤ 58 ^ Z.of_nat max → Forall is_byte b → length b = n →
id_from_str debug_char what n max (of_bytes (bs58_encode b)) = Ok b.
Proof.
intros Hmax Hb <-. unfold id_from_str, bounded.
rewrite trim_alphabet by (rewrite bytes_of_bytes; by apply encode_alphabet).
rewrite <-length_bytes, bytes_of_bytes.
pose proof (encode_length b max Hb Hmax). destruct (Nat.ltb_spec max (length (bs58_encode b))); [lia|].
cbn [mbind result_bind]. rewrite bytes_of_bytes, decode_encode by done. cbn [mbind result_bind].
by rewrite Nat.eqb_refl.
Qed.

Lemma id_parsed what n max s b :
id_from_str debug_char what n max s = Ok b →
Forall is_byte b ∧ length b = n ∧ of_bytes (bs58_encode b) = trim s.
Proof.
intros (t & Ht & H)%bind_ok. apply bind_ok in H as (v & Hv & H).
unfold bounded in Ht. destruct (_ <? _)%nat; [done|]. apply ok_inj in Ht as <-.
destruct (Nat.eqb_spec (length v) n) as [Hn|]; [|done]. apply ok_inj in H as <-.
apply encode_decode in Hv as [Hb ->]. by rewrite of_bytes_bytes.
Qed.

End text.

Section keys.
Context (debug_char : ascii → string).

(** Every id of [ids] reads as a key whose text it is. *)
Lemma ids_parse id : id ∈ ids.all → ∃ k, ids.key debug_char id = Some k ∧ show_pubkey k = id.
Proof.
assert (A : forallb (λ id, is_ok (pubkey_from_str (λ _, EmptyString) id)
                           && forallb (λ c, existsb (Ascii.eqb c) ALPHABET) (bytes id)) ids.all = true)
  by (vm_compute; reflexivity).
rewrite forallb_forall in A. intros Hid. rewrite list_elem_of_In in Hid.
apply A, andb_prop in Hid as [Hok Ha].
destruct (pubkey_from_str _ id) as [k|] eqn:E; [|done].
apply id_parsed in E as (Hb & Hl & Hs). rewrite trim_alphabet in Hs.
- exists k. split; [|done]. unfold ids.key, pubkey_from_str.
  rewrite <-Hs. unfold show_pubkey.
  rewrite (id_round_trip debug_char "pubkey" 32 PUBKEY_MAX_B58 k); [reflexivity| |exact Hb|exact Hl].
  vm_compute. discriminate.
- apply Forall_forall. intros c Hc. rewrite forallb_forall in Ha. rewrite list_elem_of_In in Hc.
  apply Ha, existsb_exists in Hc as (x & Hx & ->%Ascii.eqb_eq). by apply list_elem_of_In.
Qed.

Definition is_key (k : Pubkey) : Prop := Forall is_byte k ∧ length k = 32%nat.
Definition is_signature (k : Signature) : Prop := Forall is_byte k ∧ length k = 64%nat.

(** The text of every key and of every signature fits the bound its parser
  puts on untrusted input and reads back as it; whatever reads as a key or a
  signature is 32 or 64 bytes whose text is the input without its spaces, so
  that no two texts are one key; and each constant of [ids] is the text of a
  key, so that [ids::key] never panics on them. *)
Theorem ids_round_trip :
(∀ k, is_key k → pubkey_from_str debug_char (show_pubkey k) = Ok k) ∧
(∀ s k, pubkey_from_str debug_char s = Ok k → is_key k ∧ show_pubkey k = trim s) ∧
(∀ k, is_signature k → signature_from_str debug_char (show_signature k) = Ok k) ∧
(∀ s k, signature_from_str debug_char s = Ok k → is_signature k ∧ show_signature k = trim s) ∧
(∀ id, id ∈ ids.all → ∃ k, ids.key debug_char id = Some k ∧ show_pubkey k = id).
Proof.
split_and!.
- intros k [Hb Hl]. apply id_round_trip; [vm_compute; discriminate|done..].
- intros s k H. apply id_parsed in H as (Hb & Hl & Hs). done.
- intros k [Hb Hl]. apply id_round_trip; [vm_compute; discriminate|done..].
- intros s k H. apply id_parsed in H as (Hb & Hl & Hs). done.
- apply ids_parse.
Qed.
End keys.

Lemma ids_round_trip_witness :
  pubkey_from_str (λ _, EmptyString) (show_pubkey (repeat 255 32)) = Ok (repeat 255 32)
  ∧ str_len (show_pubkey (repeat 255 32)) = 44%nat
  ∧ (∃ k, pubkey_from_str (λ _, EmptyString) "  So11111111111111111111111111111111111111112 " = Ok k
          ∧ show_pubkey k = ids.WSOL).
Proof.
  split; [|split; [vm_compute; reflexivity|]].
  - apply (proj1 (ids_round_trip (λ _, EmptyString))). split; [|reflexivity].
    repeat (constructor; [unfold is_byte; lia|]). constructor.
  - eexists. split; [vm_compute; reflexivity|].
    refine (proj2 (proj1 (proj2 (ids_round_trip (λ _, EmptyString)))
      "  So11111111111111111111111111111111111111112 "%string _ _)).
    vm_compute. reflexivity.
Defined.

(** ** Derived addresses *)

Section pda.
Context (reduce_mod : Z → Z → Z) (mul_mod add_mod pow_mod : Z → Z → Z → Z).
Context (sha256 : list Z → list Z).
Context (debug_char : ascii → string).

#[local] Notation on_curve := (is_on_curve reduce_mod mul_mod add_mod pow_mod).
#[local] Notation try_find := (try_find_program_address reduce_mod mul_mod add_mod pow_mod sha256).

(** The address at a bump. *)
Definition address (seeds : list (list Z)) (program : Pubkey) (bump : Z) : Pubkey :=
sha256 (List.concat seeds ++ [bump] ++ program ++ PDA_MARKER).

Lemma seeds_valid_snoc seeds x :
seeds_valid seeds (MAX_SEEDS - 1) = true → seeds_valid (seeds ++ [[x]]) MAX_SEEDS = true.
Proof.
unfold seeds_valid. intros [Hl%Nat.leb_le Hs]%andb_prop. rewrite length_app, forallb_app, Hs.
cbn [length forallb andb]. rewrite andb_true_r. apply Nat.leb_le. unfold MAX_SEEDS in *. lia.
Qed.

Lemma create_at seeds program x :
seeds_valid seeds (MAX_SEEDS - 1) = true →
create_program_address reduce_mod mul_mod add_mod pow_mod sha256 (seeds ++ [[x]]) program
= if on_curve (address seeds program x) then None else Some (address seeds program x).
Proof.
intros H. unfold create_program_address. rewrite seeds_valid_snoc by done. cbn [negb].
rewrite concat_app. cbn [List.concat]. rewrite app_nil_r, <-app_assoc. fold (address seeds program x).
by destruct (on_curve _).
Qed.

Lemma bump_from_some seeds program n k b :
seeds_valid seeds (MAX_SEEDS - 1) = true →
bump_from reduce_mod mul_mod add_mod pow_mod sha256 n seeds program = Some (k, b) ↔
1 ≤ b ≤ Z.of_nat n ∧ k = address seeds program b ∧ on_curve k = false ∧
(∀ c, b < c ≤ Z.of_nat n → on_curve (address seeds program c) = true).
Proof.
intros Hs. induction n as [|n IH]; cbn [bump_from].
{ split; [done|]. intros [? _]. lia. }
rewrite create_at by done. destruct (on_curve (address seeds program (Z.of_nat (S n)))) eqn:E.
- rewrite IH. split.
  + intros (Hb & Hk & Ho & Hc). split_and!; [lia..|done|done|]. intros c Hcb.
    destruct (decide (c = Z.of_nat (S n))) as [->|]; [done|]. apply Hc. lia.
  + intros (Hb & Hk & Ho & Hc). assert (b ≠ Z.of_nat (S n)) by (intros ->; congruence).
    split_and!; [lia..|done|done|]. intros c Hcb. apply Hc. lia.
- split.
  + intros [= <- <-]. split_and!; [lia..|done|done|]. intros c Hc. lia.
  + intros (Hb & Hk & Ho & Hc). destruct (decide (b = Z.of_nat (S n))) as [->|]; [by rewrite Hk|].
    rewrite Hc in E; [done|lia].
Qed.

Lemma bump_from_none seeds program n :
seeds_valid seeds (MAX_SEEDS - 1) = true →
bump_from reduce_mod mul_mod add_mod pow_mod sha256 n seeds program = None →
∀ c, 1 ≤ c ≤ Z.of_nat n → on_curve (address seeds program c) = true.
Proof.
intros Hs. induction n as [|n IH]; cbn [bump_from]; [lia|]. rewrite create_at by done.
destruct (on_curve (address seeds program (Z.of_nat (S n)))) eqn:E; [|done].
intros H c Hc. destruct (decide (c = Z.of_nat (S n))) as [->|]; [done|]. apply IH; [done|lia].
Qed.

Lemma try_find_spec seeds program :
match try_find seeds program with
| Some (k, b) =>
    seeds_valid seeds (MAX_SEEDS - 1) = true ∧ 1 ≤ b ≤ 255 ∧ k = address seeds program b
    ∧ on_curve k = false ∧ ∀ c, b < c ≤ 255 → on_curve (address seeds program c) = true
| None =>
    seeds_valid seeds (MAX_SEEDS - 1) = false
    ∨ ∀ c, 1 ≤ c ≤ 255 → on_curve (address seeds program c) = true
end.
Proof.
unfold try_find_program_address. destruct (seeds_valid seeds (MAX_SEEDS - 1)) eqn:Hs; [|by left]. cbn [negb].
destruct (bump_from _ _ _ _ _ 255 seeds program) as [[k b]|] eqn:E.
- apply bump_from_some in E; [|done]. tauto.
- right. exact (bump_from_none seeds program 255 Hs E).
Qed.

(** The seeds of the accounts the program derives are valid. *)
Lemma owned_seeds seeds :
(length seeds ≤ 15)%nat → Forall (λ s, (length s ≤ 32)%nat) seeds → seeds_valid seeds (MAX_SEEDS - 1) = true.
Proof.
intros Hl Hs. unfold seeds_valid. apply andb_true_intro. split; [by apply Nat.leb_le|].
rewrite forallb_forall. rewrite Forall_forall in Hs. intros s Hin. apply Nat.leb_le, Hs. by apply list_elem_of_In.
Qed.

Lemma length_le_bytes n x : length (le_bytes n x) = n.
Proof. revert x. induction n as [|n IH]; intros x; cbn [le_bytes length]; [done|by rewrite IH]. Qed.

Lemma ids_key_32 id k : ids.key debug_char id = Some k → length k = 32%nat.
Proof.
unfold ids.key. destruct (pubkey_from_str debug_char id) as [v|] eqn:E; [|done]. intros [= <-].
by apply id_parsed in E as (_ & ? & _).
Qed.

(** Off the curve at some bump, so that [find_program_address] does not panic. *)
Definition derivable (seeds : list (list Z)) (program : Pubkey) : Prop :=
∃ c, 1 ≤ c ≤ 255 ∧ on_curve (address seeds program c) = false.

Lemma find_derivable seeds program :
seeds_valid seeds (MAX_SEEDS - 1) = true →
derivable seeds program ↔ is_Some (try_find seeds program).
Proof.
intros Hs. pose proof (try_find_spec seeds program) as H. destruct (try_find seeds program) as [[k b]|].
- destruct H as (_ & Hb & -> & Ho & _). split; [by eexists|intros _; by exists b].
- split; [|by intros [? ?]]. intros (c & Hc & Ho). destruct H as [H|H]; [congruence|]. by rewrite H in Ho.
Qed.

(** A derived address is the canonical one: [try_find_program_address]
  returns the address at the greatest bump from 255 down to 1 that is off the
  curve, with that bump, and nothing only if there are more than 15 seeds, a
  seed is longer than 32 bytes or every bump is on the curve; so a returned
  address has no private key, and the token account of an owner is derived
  without a panic unless all 255 bumps are on the curve. *)
Theorem derived_addresses_are_canonical seeds program :
(∀ k b, try_find seeds program = Some (k, b) ↔
   ((length seeds ≤ 15)%nat ∧ Forall (λ s, (length s ≤ 32)%nat) seeds)
   ∧ 1 ≤ b ≤ 255 ∧ k = address seeds program b ∧ on_curve k = false
   ∧ ∀ c, b < c ≤ 255 → on_curve (address seeds program c) = true) ∧
(∀ owner mint token, is_key owner → is_key mint → is_key token →
   ∃ p, ids.key debug_char ids.ATA = Some p ∧
     (ata reduce_mod mul_mod add_mod pow_mod sha256 debug_char owner mint token = None ↔
      ¬ derivable [owner; token; mint] p)).
Proof.
split.
- intros k b. split.
  + intros E. pose proof (try_find_spec seeds program) as H. rewrite E in H. destruct H as (Hs & H).
    split; [|exact H]. unfold seeds_valid in Hs. apply andb_prop in Hs as [Hl%Nat.leb_le Hs]. split; [done|].
    rewrite forallb_forall in Hs. apply Forall_forall. intros s Hin. apply Nat.leb_le, Hs. by apply list_elem_of_In.
  + intros ([Hl Hf] & H). unfold try_find_program_address. pose proof (owned_seeds seeds Hl Hf) as Hs.
    rewrite Hs. cbn [negb]. by apply bump_from_some.
- intros owner mint token [_ Ho] [_ Hm] [_ Ht].
  destruct (ids_parse debug_char ids.ATA) as (p & Hp & _). { unfold ids.all. set_solver. }
  exists p. split; [done|]. unfold ata. rewrite Hp. cbn [mbind option_bind].
  rewrite find_derivable.
  2: { apply owned_seeds; [cbn; lia|]. repeat (apply Forall_cons; split; [lia|]). by apply Forall_nil. }
  unfold find_program_address. destruct (try_find _ p); cbn [fmap option_fmap option_map].
  + split; [done|]. intros []. by eexists.
  + split; [|done]. by intros _ [? ?].
Qed.
End pda.

(** A toy hash, for which bumps above 253 are on the curve ([y = 1] is, for
    [u = 0]), with a toy power that finds no square. *)
Definition sample_hash (b : list Z) : list Z :=
  let bump := nth 2 b 0 in (if 253 <? bump then 1 else 2) :: repeat 0 31.

Lemma derived_addresses_are_canonical_witness :
  try_find_program_address Z.modulo (λ a b m, (a * b) mod m) (λ a b m, (a + b) mod m) (λ b e m, b mod m)
    sample_hash [[7]; [8]] (repeat 3 32) = Some (2 :: repeat 0 31, 253).
Proof.
  apply (derived_addresses_are_canonical Z.modulo (λ a b m, (a * b) mod m) (λ a b m, (a + b) mod m)
    (λ b e m, b mod m) sample_hash (λ _, EmptyString)).
  split; [split; [cbn; lia|repeat constructor; cbn; lia]|].
  split; [lia|]. split; [reflexivity|]. split; [vm_compute; reflexivity|].
  intros c Hc. assert (c = 254 ∨ c = 255) as [->| ->] by lia; vm_compute; reflexivity.
Defined.

(** ** Account sets *)

Definition set_of (reads : list AccountRead) : AccountSet := fold_left set_insert reads set_default.

(** The last read of a key. *)
Definition last_read (reads : list AccountRead) (k : Pubkey) : option AccountRead :=
  last (List.filter (λ r, bool_decide (ar_pubkey r = k)) reads).

Lemma set_of_snoc reads r : set_of (reads ++ [r]) = set_insert (set_of reads) r.
Proof. unfold set_of. by rewrite fold_left_app. Qed.

Lemma set_of_empty reads : as_accounts (set_of reads) = ∅ ↔ reads = [].
Proof.
  destruct reads as [|r reads _] using rev_ind; [done|]. rewrite set_of_snoc. unfold set_insert.
  destruct (decide _); cbn [as_accounts]; split; intros H; try (by apply insert_non_empty in H); by destruct reads.
Qed.

Lemma set_insert_accounts s r : as_accounts (set_insert s r) = <[ar_pubkey r := r]> (as_accounts s).
Proof. unfold set_insert. by destruct (decide _). Qed.

(** However reads come in, an account set holds the last read of every key
    and its slot range is the range of the slots of all reads: it contains
    each of them and both its ends are the slot of some read. *)
Theorem account_set_spans_its_reads reads :
  (∀ k, set_get (set_of reads) k = last_read reads k) ∧
  (∀ r, r ∈ reads → slot_min (set_of reads) ≤ ar_slot r ≤ slot_max (set_of reads)) ∧
  (reads ≠ [] → ∃ a b, a ∈ reads ∧ b ∈ reads
     ∧ ar_slot a = slot_min (set_of reads) ∧ ar_slot b = slot_max (set_of reads)).
Proof.
  induction reads as [|r reads (IH1 & IH2 & IH3)] using rev_ind.
  { split_and!; [intros k; apply lookup_empty|by intros r ?%elem_of_nil|done]. }
  rewrite set_of_snoc. split_and!.
  - intros k. unfold set_get, last_read in *. rewrite set_insert_accounts, List.filter_app. cbn [List.filter].
    case_bool_decide as E; [|rewrite app_nil_r, lookup_insert_ne by done; apply IH1].
    by rewrite last_snoc, <-E, lookup_insert_eq.
  - intros x. rewrite elem_of_app, list_elem_of_singleton. unfold set_insert.
    destruct (decide (as_accounts (set_of reads) = ∅)) as [E|E]; cbn [slot_min slot_max].
    + apply set_of_empty in E as ->. intros [?%elem_of_nil| ->]; [done|lia].
    + intros [H%IH2| ->]; lia.
  - intros _. unfold set_insert.
    destruct (decide (as_accounts (set_of reads) = ∅)) as [E|E]; cbn [slot_min slot_max].
    + exists r, r. set_solver.
    + rewrite set_of_empty in E. destruct (IH3 E) as (a & b & Ha & Hb & Ea & Eb). rewrite <-Ea, <-Eb.
      exists (if decide (ar_slot a ≤ ar_slot r) then a else r), (if decide (ar_slot r ≤ ar_slot b) then b else r).
      rewrite !elem_of_app, !list_elem_of_singleton.
      destruct (decide (ar_slot a ≤ ar_slot r)), (decide (ar_slot r ≤ ar_slot b)); (split_and!; [tauto..|lia|lia]).
Qed.

Lemma account_set_spans_its_reads_witness :
  let reads := [mkRead [1] 42 Absent; mkRead [2] 40 Absent; mkRead [1] 41 Absent] in
  slot_min (set_of reads) ≤ 42 ≤ slot_max (set_of reads).
Proof.
  intros reads. refine (proj1 (proj2 (account_set_spans_its_reads reads)) (mkRead [1] 42 Absent) _).
  apply list_elem_of_In. left. reflexivity.
Defined.
