(* ===== verification/Secrets.v ===== *)
(** * Secrets to redact ([src/src/domain/secrets.rs])

    Which environment values are credentials, the registry of secret values and
    their redaction out of texts, JSON values and observations. *)

From Stdlib Require Import Ascii String.
From S2P Require Import Prelude.
From S2P Require Import Text.
From S2P Require Import Bytes.
From S2P Require Import Substr.
From S2P Require Import Json.
From S2P Require Import Base58.
From S2P Require Import SolanaKeys.

#[local] Open Scope string_scope.
#[local] Open Scope list_scope.
#[local] Open Scope nat_scope.

(** ** Which values are credentials *)

Definition SECRET_ENV_SUFFIXES : list string :=
  ["_API_KEY"; "_SECRET"; "_TOKEN"; "_PASSWORD"; "_PRIVATE_KEY"].
Definition MIN_ENV_SECRET_CHARS : nat := 8.
Definition PLACEHOLDERS : list string :=
  ["changeme"; "change-me"; "change_me"; "password"; "passw0rd"; "postgres"; "placeholder"; "example";
   "undefined"; "not-used"; "not_used"; "notused"; "unused"; "disabled"; "anonymous"; "localhost";
   "replace-me"; "replaceme"].

Definition to_lower (s : string) : string := of_bytes (map to_ascii_lowercase (bytes s)).
Definition to_ascii_uppercase (a : ascii) : ascii :=
  if is_ascii_lowercase a then ascii_of_N (N_of_ascii a - 32) else a.
Definition to_upper (s : string) : string := of_bytes (map to_ascii_uppercase (bytes s)).

(** [s.parse::<f64>().is_ok()]: the documented grammar of [f64::from_str]. *)
Fixpoint take_digits (s : string) : nat * string :=
  match s with
  | String a r => if is_ascii_digit a then let '(n, r) := take_digits r in (S n, r) else (0, s)
  | EmptyString => (0, s)
  end.
Definition skip_sign (s : string) : string :=
  match s with String "+" r | String "-" r => r | _ => s end.
Definition exponent_ok (s : string) : bool :=
  match s with
  | EmptyString => true
  | String "e" r | String "E" r => let '(n, r) := take_digits (skip_sign r) in (0 <? n) && str_is_empty r
  | _ => false
  end.
Definition parses_f64 (s : string) : bool :=
  let s := skip_sign s in
  let lower := to_lower s in
  if existsb (String.eqb lower) ["inf"; "infinity"; "nan"] then true
  else
    let '(n, r) := take_digits s in
    let '(m, r) := match r with String "." r => take_digits r | _ => (0, r) end in
    (0 <? n + m) && exponent_ok r.

Definition is_var_char (a : ascii) : bool :=
  is_ascii_uppercase a || is_ascii_digit a || Ascii.eqb a "_".
Definition is_var (s : string) : bool :=
  match s with
  | String a _ => (is_ascii_uppercase a || Ascii.eqb a "_") && str_forall is_var_char s
  | EmptyString => false
  end.

Definition is_template (v : string) : bool :=
  (starts_with "${" v && ends_with "}" v)
  || match strip_prefix "$" v with Some r => is_var r | None => false end
  || (starts_with "<" v && ends_with ">" v).

Definition is_placeholder (v : string) : bool :=
  let lower := to_lower v in
  existsb (String.eqb lower) PLACEHOLDERS
  || starts_with "your" lower
  || is_template v
  || match chars v with [] => true | c :: cs => forallb (String.eqb c) cs end
  || parses_f64 v.

Definition is_ascii_hexdigit (a : ascii) : bool :=
  is_ascii_digit a || in_range 65 70 (code a) || in_range 97 102 (code a).
Definition is_hex (s : string) : bool := str_forall is_ascii_hexdigit s.

Definition strip_0x (v : string) : option string :=
  match strip_prefix "0x" v with Some h => Some h | None => strip_prefix "0X" v end.

Definition is_evm_address (v : string) : bool :=
  match strip_0x v with Some h => (str_len h =? 40) && is_hex h | None => false end.

Definition is_chain_id (v : string) : bool :=
  match strip_0x v with
  | Some h => (str_len h =? 64) && is_hex h
  | None =>
      (32 <=? str_len v) && (str_len v <=? 88)
      && match bs58_decode (λ _, EmptyString) (bytes v) with
         | Ok b => (length b =? 32) || (length b =? 64)
         | Err _ => false
         end
  end.

Definition is_env_secret (name value : string) : bool :=
  let upper := to_upper name in
  match List.find (λ s, (str_len s <? str_len upper) && ends_with s upper) SECRET_ENV_SUFFIXES with
  | None => false
  | Some suffix =>
      let v := trim value in
      if (char_count v <? MIN_ENV_SECRET_CHARS) || is_placeholder v || is_evm_address v then false
      else negb (String.eqb suffix "_TOKEN" && is_chain_id v)
  end.

(** ** The registry *)

(** [values], longest first, and the set [seen] of them. *)
Record SecretRegistry : Type := mkRegistry {
  values : list string;
  seen : gset string;
}.

Definition registry_new : SecretRegistry := mkRegistry [] ∅.

Definition longest_first (a b : string) : comparison := (Z.of_nat (str_len b) ?= Z.of_nat (str_len a))%Z.

Definition register (r : SecretRegistry) (value : string) : SecretRegistry :=
  if str_is_empty value || bool_decide (value ∈ seen r) then r
  else mkRegistry (sort_by longest_first (values r ++ [value])) ({[value]} ∪ seen r).

Definition REDACTED : string := "[REDACTED]".

Definition redact (r : SecretRegistry) (text : string) : string :=
  match values r with
  | [] => text
  | _ => fold_left (λ result secret, replace secret REDACTED result) (values r) text
  end.

(** ** JSON *)

(** One rename: [if let Some(x) = o.remove(&old) { o.insert(new, x) }]. *)
Definition rename (o : list (string * json)) (p : string * string) : list (string * json) :=
  match obj_get (fst p) o with
  | Some x => obj_insert (snd p) x (obj_remove (fst p) o)
  | None => o
  end.

Definition renamed (f : string → option string) (o : list (string * json)) : list (string * string) :=
  omap (λ p, n ← f (fst p); Some (fst p, n)) o.

Fixpoint map_strings (f : string → option string) (v : json) : json :=
  match v with
  | JString s => JString (default s (f s))
  | JArray l => JArray (map (map_strings f) l)
  | JObject o =>
      let o := map (λ p, (fst p, map_strings f (snd p))) o in
      JObject (fold_left rename (renamed f o) o)
  | _ => v
  end.

Definition redact_leaf (r : SecretRegistry) (s : string) : option string :=
  if existsb (λ x, contains x s) (values r) then Some (redact r s) else None.

Definition redact_value (r : SecretRegistry) (v : json) : json :=
  match values r with [] => v | _ => map_strings (redact_leaf r) v end.

(** The fields of an [Observation] the redaction touches; [rest] holds the
    others, the cache key among them. *)
Record Observation (R : Type) : Type := mkObs {
  headline : string;
  errors : list (string * R);
  features : list (string * json);
  data : json;
  obs_rest : R;
}.
Arguments mkObs {R} headline errors features data obs_rest.
Arguments headline {R}.
Arguments errors {R}.
Arguments features {R}.
Arguments data {R}.
Arguments obs_rest {R}.

Definition redact_observation {R} (r : SecretRegistry) (obs : Observation R) : Observation R :=
  match values r with
  | [] => obs
  | _ =>
      mkObs (redact r (headline obs))
        (map (λ e, (redact r (fst e), snd e)) (errors obs))
        (map (λ p, (fst p, redact_value r (snd p))) (features obs))
        (redact_value r (data obs)) (obs_rest obs)
  end.

(** ** What redaction hides, and which on-chain ids stay visible *)

(** ** The registry *)

Definition registry_of (l : list string) : SecretRegistry := fold_left register l registry_new.

#[export] Instance longest_first_pre : PreCmp longest_first.
Proof.
  split.
  - intros x y. apply Z.compare_antisym.
  - intros x y z. unfold longest_first. rewrite !Z.compare_le_iff. lia.
Qed.

(** What [register] keeps: the values are those of [seen], once each, none
    empty, the longest first. *)
Record registry_ok (r : SecretRegistry) : Prop := {
  ok_nonempty : Forall (λ v, v ≠ EmptyString) (values r);
  ok_nodup : NoDup (values r);
  ok_seen : ∀ v, v ∈ values r ↔ v ∈ seen r;
  ok_sorted : sorted_by longest_first (values r);
}.

Lemma str_is_empty_spec s : str_is_empty s = true ↔ s = EmptyString.
Proof. by destruct s. Qed.

Lemma register_ok r v : registry_ok r → registry_ok (register r v).
Proof.
  intros [H1 H2 H3 H4]. unfold register. destruct (str_is_empty v) eqn:Ev; [done|].
  case_bool_decide as Es; [done|]. cbn [orb].
  assert (v ≠ EmptyString) by (intros ->; done).
  constructor; cbn [values seen].
  - rewrite sort_by_perm. apply Forall_app. split; [done|]. by constructor.
  - rewrite sort_by_perm, Permutation_app_comm. apply NoDup_cons. split; [|done]. by rewrite H3.
  - intros x. rewrite sort_by_perm, elem_of_app, list_elem_of_singleton, H3. set_solver.
  - apply (sort_by_sorted longest_first).
Qed.

Lemma registry_of_ok l : registry_ok (registry_of l).
Proof.
  unfold registry_of. assert (H : registry_ok registry_new).
  { constructor; cbn; [constructor|constructor|set_solver|constructor]. }
  revert H. generalize registry_new. induction l as [|v l IH]; intros r H; [done|].
  cbn [fold_left]. apply IH. by apply register_ok.
Qed.

Lemma register_values r v x :
  registry_ok r → x ∈ values (register r v) ↔ x ∈ values r ∨ (x = v ∧ v ≠ EmptyString).
Proof.
  intros H. unfold register. destruct (str_is_empty v) eqn:Ev.
  { apply str_is_empty_spec in Ev as ->. cbn [orb]. tauto. }
  assert (v ≠ EmptyString) by (intros ->; done).
  case_bool_decide as Es; cbn [orb values].
  - apply (ok_seen r H) in Es. split; [by left|]. by intros [?|[-> _]].
  - rewrite sort_by_perm, elem_of_app, list_elem_of_singleton. tauto.
Qed.

Lemma registry_of_values l x : x ∈ values (registry_of l) ↔ x ∈ l ∧ x ≠ EmptyString.
Proof.
  induction l as [|v l IH] using rev_ind.
  { cbn. split; [by intros ?%elem_of_nil|]. by intros [?%elem_of_nil _]. }
  assert (registry_of (l ++ [v]) = register (registry_of l) v) as -> by (unfold registry_of; by rewrite fold_left_app).
  rewrite register_values by apply registry_of_ok. rewrite IH, elem_of_app, list_elem_of_singleton.
  destruct (decide (x = v)) as [->|]; tauto.
Qed.

(** ** Texts *)

(** A secret no copy of which a placeholder can make: it has no bracket and is
    no part of the placeholder's word. *)
Record maskable (s : string) : Prop := {
  m_nonempty : s ≠ EmptyString;
  m_brackets : Forall (λ a, a ≠ "["%char ∧ a ≠ "]"%char) (bytes s);
  m_word : ¬ occurs s "REDACTED";
}.

Lemma replace_hides p s text :
  p ≠ EmptyString → maskable s → s = p ∨ ¬ occurs s text → ¬ occurs s (replace p REDACTED text).
Proof.
  intros Hp [Hn Hb Hw] H. unfold replace.
  apply (join_free s "REDACTED" "[" "]"); [reflexivity|done|done| |done].
  eapply Forall_impl; [by apply split_pieces|]. intros x [Hx Ho]. destruct H as [->|H]; [done|].
  intros Hs. apply H. by eapply occurs_trans.
Qed.

Lemma redact_fold_hides vals s text :
  Forall (λ v, v ≠ EmptyString) vals → maskable s → s ∈ vals ∨ ¬ occurs s text →
  ¬ occurs s (fold_left (λ result secret, replace secret REDACTED result) vals text).
Proof.
  intros Hv Hs. revert text. induction Hv as [|v vals Hv _ IH]; intros text H; cbn [fold_left].
  { destruct H as [?%elem_of_nil|]; done. }
  apply IH. destruct H as [[->|H]%elem_of_cons|H].
  - right. apply replace_hides; [done..|by left].
  - by left.
  - right. apply replace_hides; [done..|by right].
Qed.

Lemma redact_eq r text :
  redact r text = fold_left (λ result secret, replace secret REDACTED result) (values r) text.
Proof. unfold redact. by destruct (values r). Qed.

Lemma redact_fold_none vals text :
  Forall (λ v, v ≠ EmptyString) vals → Forall (λ v, ¬ occurs v text) vals →
  fold_left (λ result secret, replace secret REDACTED result) vals text = text.
Proof.
  intros Hv. induction Hv as [|v vals Hv _ IH]; [done|]. intros [H1 H2]%Forall_cons_1. cbn [fold_left].
  rewrite replace_none by done. by apply IH.
Qed.

Lemma redact_hides r s text :
  registry_ok r → maskable s → s ∈ values r → ¬ occurs s (redact r text).
Proof. intros Hr Hs Hin. rewrite redact_eq. apply redact_fold_hides; [apply Hr|done|by left]. Qed.

Lemma redact_none r text :
  registry_ok r → Forall (λ v, ¬ occurs v text) (values r) → redact r text = text.
Proof. intros Hr H. rewrite redact_eq. apply redact_fold_none; [apply Hr|done]. Qed.

(** ** JSON values *)

(** Every string leaf and object key of a value satisfies [Q]. *)
Inductive all_texts (Q : string → Prop) : json → Prop :=
  | at_null : all_texts Q JNull
  | at_bool b : all_texts Q (JBool b)
  | at_number n : all_texts Q (JNumber n)
  | at_string s : Q s → all_texts Q (JString s)
  | at_array l : Forall (all_texts Q) l → all_texts Q (JArray l)
  | at_object o : Forall (λ p, Q (fst p) ∧ all_texts Q (snd p)) o → all_texts Q (JObject o).

Section rename.
Context (f : string → option string) (Q : string → Prop) (V : json → Prop).
Context (Hf : ∀ k, match f k with Some n => Q n | None => Q k end).

(** Some pairs of [ps] are still to rename. *)
Definition pending (ps : list (string * string)) (o : list (string * json)) : Prop :=
Forall (λ p, (Q (fst p) ∨ fst p ∈ map fst ps) ∧ V (snd p)) o.

Lemma rename_pending p ps o :
Q (snd p) → pending (p :: ps) o → pending ps (rename o p).
Proof.
intros Hq Ho. unfold rename, pending in *. destruct (obj_get (fst p) o) as [x|] eqn:E.
- apply obj_get_in in E. rewrite Forall_forall in Ho. apply obj_insert_forall.
  { split; [by left|]. apply (Ho _ E). }
  apply Forall_forall. intros q Hq'. unfold obj_remove in Hq'.
  rewrite list_elem_of_In, List.filter_In, <-list_elem_of_In in Hq'. destruct Hq' as [Hin Hne].
  destruct (Ho _ Hin) as [[?|Hk] ?]; (split; [|done]); [by left|]. right.
  rewrite map_cons in Hk. apply elem_of_cons in Hk as [Hk|Hk]; [|done].
  rewrite Hk, String.eqb_refl in Hne. done.
- apply obj_get_none in E. rewrite Forall_forall in *. intros q Hin. destruct (Ho _ Hin) as [[?|Hk] ?];
    (split; [|done]); [by left|]. right. rewrite map_cons in Hk. apply elem_of_cons in Hk as [Hk|Hk]; [|done].
  by destruct (E _ Hin).
Qed.

Lemma renames_done ps o :
Forall (λ p, Q (snd p)) ps → pending ps o →
Forall (λ p, Q (fst p) ∧ V (snd p)) (fold_left rename ps o).
Proof.
intros H. revert o. induction H as [|p ps Hp _ IH]; intros o Ho; cbn [fold_left].
- eapply Forall_impl; [exact Ho|]. intros q [[?|?%elem_of_nil] ?]; done.
- apply IH. by apply rename_pending.
Qed.

Lemma renamed_pending o :
Forall (λ p, V (snd p)) o → Forall (λ p, Q (snd p)) (renamed f o) ∧ pending (renamed f o) o.
Proof.
intros H. unfold renamed, pending. split.
- apply Forall_forall. intros p Hp. apply list_elem_of_omap in Hp as ([k v] & _ & E). cbn [fst snd] in E.
  pose proof (Hf k) as Hk. destruct (f k); [|done]. cbn in E. by injection E as <-.
- rewrite Forall_forall in *. intros [k v] Hin. split; [|by apply (H _ Hin)]. cbn [fst].
  pose proof (Hf k) as Hk. destruct (f k) as [n|] eqn:E; [right|by left].
  apply list_elem_of_fmap. exists (k, n). split; [done|]. apply list_elem_of_omap.
  exists (k, v). split; [done|]. cbn [fst]. by rewrite E.
Qed.
End rename.

(** The walk puts [f] on every leaf and key. *)
Lemma map_strings_all f Q v :
  (∀ k, match f k with Some n => Q n | None => Q k end) → all_texts Q (map_strings f v).
Proof.
  intros Hf. induction v as [|b|n|s|l IH|o IH] using json_rect'; cbn [map_strings]; try constructor.
  - specialize (Hf s). by destruct (f s).
  - apply Forall_fmap. exact IH.
  - set (o' := map _ o). destruct (renamed_pending f Q (all_texts Q) Hf o') as [H1 H2].
    { apply Forall_fmap. exact IH. }
    by apply renames_done with (ps := renamed f o').
Qed.

Lemma fold_rename_none o : fold_left rename [] o = o.
Proof. done. Qed.

Lemma map_strings_id f v : all_texts (λ s, f s = None) v → map_strings f v = v.
Proof.
  induction v as [|b|n|s|l IH|o IH] using json_rect'; intros H; inversion H as [| | |? E|? E|? E]; subst;
    cbn [map_strings]; try done.
  - by rewrite E.
  - f_equal. clear H. induction E as [|x l Hx _ IHl]; [done|]. inversion IH; subst.
    rewrite map_cons. f_equal; auto.
  - assert (map (λ p, (fst p, map_strings f (snd p))) o = o) as ->.
    { clear H. induction E as [|[k x] o [_ Hx] _ IHo]; [done|]. inversion IH; subst.
      rewrite map_cons. cbn [fst snd] in *. f_equal; [f_equal|]; auto. }
    assert (renamed f o = []) as ->; [|done].
    clear H IH. induction E as [|[k x] o [Hk _] _ IHo]; [done|]. unfold renamed in *.
    cbn [omap list_omap fst] in *. rewrite Hk. done.
Qed.

(** ** What is hidden *)

Lemma redact_value_hides r s v :
  registry_ok r → maskable s → s ∈ values r → all_texts (λ t, ¬ occurs s t) (redact_value r v).
Proof.
  intros Hr Hs Hin.
  assert (redact_value r v = map_strings (redact_leaf r) v) as ->.
  { unfold redact_value. destruct (values r); [by apply elem_of_nil in Hin|done]. }
  apply map_strings_all. intros k. unfold redact_leaf.
  destruct (existsb (λ x, contains x k) (values r)) eqn:E; [by apply redact_hides|].
  intros H. apply not_true_iff_false in E. apply E. apply existsb_exists. exists s.
  split; [by apply list_elem_of_In|by apply contains_spec].
Qed.

(** A value none of whose texts holds a registered secret. *)
Lemma redact_value_none r v :
  all_texts (λ t, Forall (λ x, ¬ occurs x t) (values r)) v → redact_value r v = v.
Proof.
  intros H. assert (all_texts (λ s, redact_leaf r s = None) v) as Hn.
  { revert H. assert (Himp : ∀ t, Forall (λ x, ¬ occurs x t) (values r) → redact_leaf r t = None).
    { intros t Ht. unfold redact_leaf. destruct (existsb _ _) eqn:E; [|done].
      apply existsb_exists in E as (x & Hx & Hc). rewrite Forall_forall in Ht.
      destruct (Ht x); [by apply list_elem_of_In|by apply contains_spec]. }
    induction v as [|b|n|s|l IH|o IH] using json_rect'; intros H;
      inversion H as [| | |? E|? E|? E]; subst; constructor; auto.
    - rewrite Forall_forall in *. auto.
    - rewrite Forall_forall in *. intros p Hp. destruct (E p Hp). auto. }
  unfold redact_value. destruct (values r); [done|]. by apply map_strings_id.
Qed.

(** The parts of an observation that are redacted: the headline, the messages of
    the errors, the values of the features and the data. *)
Definition obs_free {R} (Q : string → Prop) (obs : Observation R) : Prop :=
  Q (headline obs) ∧ Forall (λ e, Q (fst e)) (errors obs)
  ∧ Forall (λ p, all_texts Q (snd p)) (features obs) ∧ all_texts Q (data obs).

(** C39. Redaction hides the registered secrets: after any registrations, no
    redacted text, and no string leaf or object key of a redacted JSON value,
    holds a registered secret, whatever others are registered with it and
    however they overlap - for a secret without square brackets that is no part
    of the word REDACTED, which is to say one the placeholder itself cannot
    bring back. Of an observation that goes for the headline, the messages of
    its errors, the values of its features and its data; the cache key, the
    schema, the tool and the rest, the fields and classes of the errors and the
    names of the features are left alone, secret or not. What holds no
    registered secret comes out unchanged. *)
Theorem redaction_hides_secrets (l : list string) :
  let r := registry_of l in
  (∀ s text, s ∈ l → maskable s → ¬ occurs s (redact r text)) ∧
  (∀ s v, s ∈ l → maskable s → all_texts (λ t, ¬ occurs s t) (redact_value r v)) ∧
  (∀ R s (obs : Observation R), s ∈ l → maskable s →
     obs_free (λ t, ¬ occurs s t) (redact_observation r obs)) ∧
  (∀ R (obs : Observation R),
     obs_rest (redact_observation r obs) = obs_rest obs
     ∧ map snd (errors (redact_observation r obs)) = map snd (errors obs)
     ∧ map fst (features (redact_observation r obs)) = map fst (features obs)) ∧
  (∀ text, Forall (λ s, ¬ occurs s text ∨ s = EmptyString) l → redact r text = text) ∧
  (∀ v, all_texts (λ t, Forall (λ s, ¬ occurs s t) (values r)) v → redact_value r v = v).
Proof.
  intros r. pose proof (registry_of_ok l) as Hr.
  assert (Hin : ∀ s, s ∈ l → maskable s → s ∈ values r).
  { intros s H Hs. apply registry_of_values. split; [done|apply Hs]. }
  split_and!.
  - intros s text H Hs. by apply redact_hides; auto.
  - intros s v H Hs. by apply redact_value_hides; auto.
  - intros R s obs H Hs. specialize (Hin s H Hs). unfold redact_observation.
    destruct (values r) as [|v0 vs] eqn:E; [by apply elem_of_nil in Hin|]. rewrite <-E in Hin.
    unfold obs_free. cbn [headline errors features data]. split_and!.
    + by apply redact_hides.
    + apply Forall_fmap, Forall_true. intros e. by apply redact_hides.
    + apply Forall_fmap, Forall_true. intros p. by apply redact_value_hides.
    + by apply redact_value_hides.
  - intros R obs. unfold redact_observation. destruct (values r); [done|].
    cbn [obs_rest errors features]. by rewrite !map_map.
  - intros text H. apply redact_none; [done|]. apply Forall_forall. intros v Hv.
    apply registry_of_values in Hv as [Hv Hn]. rewrite Forall_forall in H. by destruct (H v Hv).
  - apply redact_value_none.
Qed.

Lemma redaction_hides_secrets_witness :
  ¬ occurs "hunter2hunter2" (redact (registry_of ["2hunter2"; "hunter2hunter2"]) "key=hunter2hunter2hunter2")
  ∧ redact (registry_of ["2hunter2"; "hunter2hunter2"]) "key=hunter2hunter2hunter2" = "key=[REDACTED]hunter2"%string.
Proof.
  split; [|vm_compute; reflexivity].
  apply (proj1 (redaction_hides_secrets ["2hunter2"; "hunter2hunter2"])).
  - apply list_elem_of_In. right. left. reflexivity.
  - constructor; [discriminate| |].
    + repeat (constructor; [split; discriminate|]). constructor.
    + intros H. apply contains_spec in H. vm_compute in H. discriminate H.
Defined.

(** ** On-chain ids *)

(** Lower bound of a base58 text: a char at least for each byte. *)
Lemma encode_length_ge b : Forall is_byte b → length b ≤ length (bs58_encode b).
Proof.
  intros Hb. unfold bs58_encode. destruct (take_while_spec (Z.eqb 0) 0%Z b eqb_zero) as [E Hh].
  set (n := length (take_while (Z.eqb 0) b)) in *. set (t := drop n b) in *.
  assert (Ht : Forall (λ x, 0 ≤ x < 256)%Z t) by (apply Forall_drop; exact Hb).
  assert (Hlen : length b = n + length t) by (rewrite E at 1; by rewrite length_app, repeat_length).
  clearbody t n. clear E.
  destruct (encode_fold t Ht) as [[Hd _] V]. set (ds := fold_left encode_byte t []) in *.
  rewrite length_app, repeat_length, length_map, length_rev, Hlen.
  enough (length t ≤ length ds) by lia. destruct t as [|x t]; [cbn; lia|].
  pose proof (value_bound 58 ltac:(lia) ds Hd) as Hv. rewrite V in Hv. cbn [rev] in Hv.
  rewrite value_app in Hv. cbn [value] in Hv. rewrite length_rev in Hv.
  inversion Ht as [|? ? Hx Ht']; subst.
  pose proof (value_bound 256 ltac:(lia) (rev t) (in_rev_forall _ _ Ht')) as Hr.
  assert (256 ^ Z.of_nat (length t) < 58 ^ Z.of_nat (length ds))%Z as Hp.
  { pose proof (Z.pow_pos_nonneg 256 (Z.of_nat (length t))). nia. }
  destruct (decide (length (x :: t) ≤ length ds)) as [|N]; [done|exfalso]. cbn [length] in N.
  assert (58 ^ Z.of_nat (length ds) ≤ 58 ^ Z.of_nat (length t))%Z as H1 by (apply Z.pow_le_mono_r; lia).
  pose proof (pow_le_base 58 256 (length t) ltac:(lia)) as H2. lia.
Qed.

(** The chars of a text of the alphabet: ASCII letters and digits but [0]. *)
Lemma alphabet_facts c : c ∈ ALPHABET → is_continuation c = false ∧ c ≠ "0"%char.
Proof.
  assert (A : forallb (λ c, negb (is_continuation c) && negb (Ascii.eqb c "0")) ALPHABET = true)
    by (vm_compute; reflexivity).
  rewrite forallb_forall in A. intros H. rewrite list_elem_of_In in H.
  apply A, andb_prop in H as [H1 H2]. split; [by destruct (is_continuation c)|]. intros ->. done.
Qed.

Lemma char_count_len s : Forall (λ c, is_continuation c = false) (bytes s) → char_count s = str_len s.
Proof.
  induction s as [|a s IH]; [done|]. cbn [list_ascii_of_string char_count]. intros [H1 H2]%Forall_cons_1.
  rewrite H1, IH by done. done.
Qed.

(** The base58 text of [n] bytes, as the tests see it. *)
Lemma chain_text b (n max : nat) :
  Forall is_byte b → length b = n → (256 ^ Z.of_nat n ≤ 58 ^ Z.of_nat max)%Z →
  let v := of_bytes (bs58_encode b) in
  trim v = v ∧ n ≤ str_len v ≤ max ∧ char_count v = str_len v ∧ strip_0x v = None
  ∧ bs58_decode (λ _, EmptyString) (bytes v) = Ok b.
Proof.
  intros Hb <- Hmax v. pose proof (encode_alphabet b Hb) as Ha.
  assert (Hv : bytes v = bs58_encode b) by apply bytes_of_bytes.
  split_and!.
  - apply trim_alphabet. by rewrite Hv.
  - rewrite <-length_bytes, Hv. by apply encode_length_ge.
  - rewrite <-length_bytes, Hv. by apply encode_length.
  - apply char_count_len. rewrite Hv. eapply Forall_impl; [exact Ha|]. intros c Hc. by apply alphabet_facts.
  - unfold strip_0x. rewrite <-Hv in Ha. destruct v as [|c v]; [done|].
    apply Forall_cons_1 in Ha as [Hc _]. apply alphabet_facts in Hc as [_ Hc].
    cbn [strip_prefix]. destruct (Ascii.eqb_spec "0" c) as [<-|]; done.
  - rewrite Hv. by apply decode_encode.
Qed.

(** The suffix a name is found by. *)
Lemma str_rev_app a b : str_rev (a +:+ b)%string = (str_rev b +:+ str_rev a)%string.
Proof. apply bytes_inj. by rewrite bytes_app, !str_rev_bytes, bytes_app, reverse_app. Qed.

Lemma ends_with_app x a b : ends_with x (a +:+ b)%string =
  match strip_prefix (str_rev x) (str_rev b +:+ str_rev a)%string with Some _ => true | None => false end.
Proof. unfold ends_with, strip_suffix. rewrite str_rev_app. by destruct (strip_prefix _ _). Qed.

Lemma to_upper_app a b : to_upper (a +:+ b)%string = (to_upper a +:+ to_upper b)%string.
Proof. apply bytes_inj. unfold to_upper. by rewrite !bytes_app, !bytes_of_bytes, map_app. Qed.

Lemma to_upper_len a : str_len (to_upper a) = str_len a.
Proof. unfold to_upper. by rewrite <-length_bytes, bytes_of_bytes, length_map, length_bytes. Qed.

(** A name of a non-empty prefix and one of the suffixes has that suffix. *)
Lemma suffix_found prefix suffix :
  prefix ≠ EmptyString → suffix ∈ SECRET_ENV_SUFFIXES →
  List.find (λ s, (str_len s <? str_len (to_upper (prefix +:+ suffix)%string))
                  && ends_with s (to_upper (prefix +:+ suffix)%string)) SECRET_ENV_SUFFIXES = Some suffix.
Proof.
  intros Hp Hs.
  assert (Hlen : str_len suffix < str_len (to_upper (prefix +:+ suffix)%string)).
  { rewrite to_upper_len, str_len_app_s. destruct prefix; [done|]. unfold str_len. cbn. lia. }
  revert Hlen. rewrite to_upper_app.
  unfold SECRET_ENV_SUFFIXES in *. rewrite !elem_of_cons, elem_of_nil in Hs.
  generalize (to_upper prefix) as u. intros u.
  destruct Hs as [->|[->|[->|[->|[->|[]]]]]]; intros Hlen;
    repeat (cbn [List.find]; rewrite ends_with_app;
      match goal with |- context [strip_prefix ?x (?y +:+ ?z)%string] =>
        let e := eval vm_compute in x in let f := eval vm_compute in y in
        change (strip_prefix x (y +:+ z)%string) with (strip_prefix e (f +:+ z)%string) end;
      rewrite !str_app_cons; cbn [strip_prefix Ascii.eqb Bool.eqb]; rewrite ?andb_false_r);
    rewrite andb_true_r, (proj2 (Nat.ltb_lt _ _)); done.
Qed.

Lemma env_secret_unfold prefix suffix v :
  prefix ≠ EmptyString → suffix ∈ SECRET_ENV_SUFFIXES →
  is_env_secret (prefix +:+ suffix)%string v =
    let v := trim v in
    if (char_count v <? MIN_ENV_SECRET_CHARS) || is_placeholder v || is_evm_address v then false
    else negb (String.eqb suffix "_TOKEN" && is_chain_id v).
Proof. intros Hp Hs. unfold is_env_secret. by rewrite suffix_found. Qed.

(** A base58 id of 32 or 64 bytes, under every suffix. *)
Lemma chain_id_case b prefix suffix :
  is_key b ∨ is_signature b → prefix ≠ EmptyString → suffix ∈ SECRET_ENV_SUFFIXES →
  is_env_secret (prefix +:+ suffix)%string (of_bytes (bs58_encode b)) =
    negb (is_placeholder (of_bytes (bs58_encode b))) && negb (String.eqb suffix "_TOKEN").
Proof.
  intros Hb Hp Hs. rewrite env_secret_unfold by done.
  assert (∃ n max, Forall is_byte b ∧ length b = n ∧ (256 ^ Z.of_nat n ≤ 58 ^ Z.of_nat max)%Z
    ∧ 32 ≤ n ∧ max ≤ 88 ∧ (n = 32 ∨ n = 64)) as (n & max & Hby & Hn & Hmax & L1 & L2 & Hn').
  { destruct Hb as [[H1 H2]|[H1 H2]]; [exists 32, 44|exists 64, 88];
      (split; [exact H1|split; [exact H2|split; [vm_compute; discriminate|lia]]]). }
  destruct (chain_text b n max Hby Hn Hmax) as (Ht & [La Lb] & Hc & H0 & Hd).
  cbn zeta. set (v := of_bytes (bs58_encode b)) in *. rewrite Ht, Hc.
  assert (str_len v <? MIN_ENV_SECRET_CHARS = false) as -> by (apply Nat.ltb_ge; unfold MIN_ENV_SECRET_CHARS; lia).
  assert (is_evm_address v = false) as -> by (unfold is_evm_address; by rewrite H0).
  assert (is_chain_id v = true) as ->.
  { unfold is_chain_id. rewrite H0, Hd, Hn, !andb_true_iff, !Nat.leb_le. split; [lia|].
    by destruct Hn' as [-> | ->]. }
  cbn [orb]. rewrite orb_false_r, andb_true_r. by destruct (is_placeholder v).
Qed.

(** An EVM address, in either case of [0x]. *)
Lemma hex_not_space : ∀ c, is_ascii_hexdigit c = true →
  starts_none white_space c = true ∧ starts_none (map str_rev white_space) c = true.
Proof.
  intros c. unfold is_ascii_hexdigit. intros H.
  assert (A : forallb (λ n, let c := ascii_of_nat n in
    negb (is_ascii_hexdigit c) || (starts_none white_space c && starts_none (map str_rev white_space) c))
    (seq 0 256) = true) by (vm_compute; reflexivity).
  rewrite forallb_forall in A. specialize (A (nat_of_ascii c)).
  rewrite ascii_nat_embedding in A. unfold is_ascii_hexdigit in A. rewrite H in A.
  apply andb_prop, A, in_seq. pose proof (nat_ascii_bounded c). lia.
Qed.

Lemma trim_hex p h :
  p = "0x"%string ∨ p = "0X"%string → is_hex h = true → h ≠ EmptyString → trim (p +:+ h)%string = (p +:+ h)%string.
Proof.
  intros Hp Hh Hn. unfold trim, trim_start, trim_end.
  rewrite (trim_start_fuel_none white_space).
  2: { destruct Hp as [-> | ->]; rewrite str_app_cons; apply first_strip_none; reflexivity. }
  rewrite trim_start_fuel_none.
  { apply bytes_inj. by rewrite !str_rev_bytes, reverse_involutive. }
  rewrite str_rev_app.
  assert (Hf : Forall (λ c, starts_none (map str_rev white_space) c = true) (bytes (str_rev h))).
  { rewrite str_rev_bytes, Forall_reverse. eapply str_forall_Forall; [|exact Hh].
    intros a Ha. by apply hex_not_space. }
  destruct (str_rev h) as [|c r] eqn:E.
  { apply (f_equal bytes) in E. rewrite str_rev_bytes in E. apply (f_equal length) in E.
    rewrite length_reverse in E. destruct h; done. }
  rewrite str_app_cons. apply first_strip_none. by apply Forall_cons_1 in Hf as [? _].
Qed.

(** Public on-chain ids are not taken for credentials: under a name in
    [_TOKEN] no Solana address and no signature is ever registered, while under
    the other suffixes, where 32 or 64 bytes are key material, every one is that
    is no placeholder; an EVM address is registered under no name at all; and a
    name without one of the suffixes registers nothing. *)
Theorem chain_ids_stay_visible :
  (∀ prefix suffix b, prefix ≠ EmptyString → suffix ∈ SECRET_ENV_SUFFIXES → is_key b ∨ is_signature b →
     is_env_secret (prefix +:+ suffix)%string (of_bytes (bs58_encode b))
     = negb (String.eqb suffix "_TOKEN") && negb (is_placeholder (of_bytes (bs58_encode b)))) ∧
  (∀ name p h, p = "0x"%string ∨ p = "0X"%string → str_len h = 40 → is_hex h = true →
     is_env_secret name (p +:+ h)%string = false) ∧
  (∀ name value, is_env_secret name value = true →
     ∃ suffix, suffix ∈ SECRET_ENV_SUFFIXES ∧ ends_with suffix (to_upper name) = true).
Proof.
  split_and!.
  - intros prefix suffix b Hp Hs Hb. rewrite chain_id_case by done. apply andb_comm.
  - intros name p h Hp Hl Hh. unfold is_env_secret. destruct (List.find _ _); [|done].
    rewrite trim_hex; [|done..|destruct h; done].
    assert (is_evm_address (p +:+ h)%string = true) as ->; [|by rewrite orb_true_r].
    unfold is_evm_address. assert (strip_0x (p +:+ h)%string = Some h) as ->.
    { destruct Hp as [-> | ->]; rewrite !str_app_cons; reflexivity. }
    by rewrite Hl, Hh.
  - intros name value. unfold is_env_secret. destruct (List.find _ _) as [suffix|] eqn:E; [|done].
    intros _. apply find_some in E as [E [_ H]%andb_prop]. exists suffix. split; [by apply list_elem_of_In|done].
Qed.

Lemma chain_ids_stay_visible_witness :
  is_env_secret "USDC_TOKEN" (show_pubkey (repeat 5%Z 32)) = false
  ∧ is_env_secret "wallet_Private_Key" (show_pubkey (repeat 5%Z 32)) = true.
Proof.
  split; [|vm_compute; reflexivity].
  refine (proj1 chain_ids_stay_visible "USDC"%string "_TOKEN"%string (repeat 5%Z 32) _ _ _).
  - discriminate.
  - apply list_elem_of_In. right. right. left. reflexivity.
  - left. split; [|reflexivity]. repeat (constructor; [unfold is_byte; lia|]). constructor.
Defined.
