(* ===== verification/Solana.v ===== *)
(** * Solana's transaction wire format ([src/src/domain/solana_tx.rs])

    Bytes are [Z] in 0 to 255; a [Pubkey] is its 32 bytes, a signature its 64.
    A [usize] position is a [nat]; [as u8] and [as u16] truncate. A Rust panic
    ([expect], a slice out of range) is [None]. *)

From Stdlib Require Import Ascii String.
From S2P Require Import Prelude.
From S2P Require Import Text.
From S2P Require Import Base58.

#[local] Open Scope string_scope.
#[local] Open Scope list_scope.
#[local] Open Scope Z_scope.

Notation Pubkey := (list Z).

Definition PACKET_DATA_SIZE : nat := 1232.
Definition MAX_COMPUTE_UNITS : Z := 1400000.

Definition u16 (x : Z) : Z := x mod 2 ^ 16.

Record AccountMeta : Type := mkMeta {
  pubkey : Pubkey;
  is_signer : bool;
  is_writable : bool;
}.

Definition meta_writable (pubkey : Pubkey) (is_signer : bool) : AccountMeta :=
  mkMeta pubkey is_signer true.
Definition meta_readonly (pubkey : Pubkey) (is_signer : bool) : AccountMeta :=
  mkMeta pubkey is_signer false.

Record Instruction : Type := mkIx {
  program_id : Pubkey;
  accounts : list AccountMeta;
  data : list Z;
}.

(** ** compact-u16 *)

(** [n] is a [u16]: three turns are enough. *)
Fixpoint encode_compact_go (fuel : nat) (n : Z) : list Z :=
  match fuel with
  | O => []
  | S fuel =>
      let b := Z.land n 127 in
      let n := Z.shiftr n 7 in
      if n =? 0 then [b] else Z.lor b 128 :: encode_compact_go fuel n
  end.
Definition encode_compact_u16 (n : Z) : list Z := encode_compact_go 3 n.

(** [for i in 0..3], [turns] to go; [u16::try_from]. *)
Fixpoint decode_compact_go (turns : nat) (i : nat) (v : Z) (bytes : list Z) : option (Z * nat) :=
  match turns with
  | O => None
  | S turns =>
      match bytes with
      | [] => None
      | b :: bytes =>
          let v := Z.lor v (Z.shiftl (Z.land b 127) (7 * Z.of_nat i)) in
          if Z.land b 128 =? 0 then (if v <=? u16_max then Some (v, S i) else None)
          else decode_compact_go turns (S i) v bytes
      end
  end.
Definition decode_compact_u16 (bytes : list Z) : option (Z * nat) := decode_compact_go 3 0 0 bytes.

(** ** The legacy message *)

Record MessageHeader : Type := mkHeader {
  num_required_signatures : Z;
  num_readonly_signed : Z;
  num_readonly_unsigned : Z;
}.

Record CompiledInstruction : Type := mkCompiled {
  program_id_index : Z;
  c_accounts : list Z;
  c_data : list Z;
}.

Record LegacyMessage : Type := mkLegacy {
  header : MessageHeader;
  account_keys : list Pubkey;
  recent_blockhash : list Z;
  instructions : list CompiledInstruction;
}.

(** [(key, signer, writable)]. *)
Notation KeyEntry := (Pubkey * bool * bool)%type.

Fixpoint upsert (keys : list KeyEntry) (k : Pubkey) (s w : bool) : list KeyEntry :=
  match keys with
  | [] => [(k, s, w)]
  | (k', s', w') :: keys =>
      if decide (k' = k) then (k', s' || s, w' || w) :: keys
      else (k', s', w') :: upsert keys k s w
  end.

Definition upsert_ix (keys : list KeyEntry) (ix : Instruction) : list KeyEntry :=
  fold_left (λ keys m, upsert keys (pubkey m) (is_signer m) (is_writable m)) (accounts ix)
    (upsert keys (program_id ix) false false).

Definition collect_keys (payer : Pubkey) (ixs : list Instruction) : list KeyEntry :=
  fold_left upsert_ix ixs [(payer, true, true)].

Definition part (keys : list KeyEntry) (s w : bool) : list Pubkey :=
  map (λ e, e.1.1) (List.filter (λ e, Bool.eqb e.1.2 s && Bool.eqb e.2 w) keys).

Definition ordered_keys (keys : list KeyEntry) : list Pubkey :=
  part keys true true ++ part keys true false ++ part keys false true ++ part keys false false.

Fixpoint index_of (k : Pubkey) (keys : list Pubkey) : option nat :=
  match keys with
  | [] => None
  | x :: keys => if decide (x = k) then Some O else S <$> index_of k keys
  end.

(** [index]: [None] is the [expect]. *)
Definition key_index (keys : list Pubkey) (k : Pubkey) : option Z :=
  i ← index_of k keys; Some (u8 (Z.of_nat i)).

Fixpoint all_some {A B} (f : A → option B) (l : list A) : option (list B) :=
  match l with
  | [] => Some []
  | a :: l => b ← f a; bs ← all_some f l; Some (b :: bs)
  end.

Definition compile_ix (keys : list Pubkey) (ix : Instruction) : option CompiledInstruction :=
  p ← key_index keys (program_id ix);
  accs ← all_some (λ m, key_index keys (pubkey m)) (accounts ix);
  Some (mkCompiled p accs (data ix)).

Definition compile (payer : Pubkey) (ixs : list Instruction) (recent_blockhash : list Z)
    : option (result string LegacyMessage) :=
  let keys := collect_keys payer ixs in
  let account_keys := ordered_keys keys in
  if (256 <? length account_keys)%nat
  then Some (Err (show_N (Z.of_nat (length account_keys)) +:+ " account keys (max 256)")%string)
  else
    let count s w := u8 (Z.of_nat (length (part keys s w))) in
    let header := mkHeader (u8 (count true true + count true false)) (count true false)
                    (count false false) in
    instructions ← all_some (compile_ix account_keys) ixs;
    Some (Ok (mkLegacy header account_keys recent_blockhash instructions)).

Definition compact_len {A} (l : list A) : list Z := encode_compact_u16 (u16 (Z.of_nat (length l))).

Definition serialize_ix (ix : CompiledInstruction) : list Z :=
  program_id_index ix :: compact_len (c_accounts ix) ++ c_accounts ix
  ++ compact_len (c_data ix) ++ c_data ix.

Definition serialize (m : LegacyMessage) : list Z :=
  [num_required_signatures (header m); num_readonly_signed (header m); num_readonly_unsigned (header m)]
  ++ compact_len (account_keys m) ++ List.concat (account_keys m)
  ++ recent_blockhash m
  ++ compact_len (instructions m) ++ List.concat (map serialize_ix (instructions m)).

Definition tx_size (m : LegacyMessage) : nat :=
  let n := num_required_signatures (header m) in
  (length (encode_compact_u16 n) + 64 * Z.to_nat n + length (serialize m))%nat.

(** ** Parsing *)

Record MessageView : Type := mkView {
  version : option Z;
  v_header : MessageHeader;
  static_keys : list Pubkey;
  v_recent_blockhash : list Z;
}.

(** A [Reader]'s method on bytes [b]: from the position [at] to the value and
    the next position. *)
Definition Reader (A : Type) : Type := list Z → nat → result string (A * nat).

Definition rret {A} (a : A) : Reader A := λ b p, Ok (a, p).
Definition rbind {A B} (r : Reader A) (f : A → Reader B) : Reader B :=
  λ b p, match r b p with Ok (a, p) => f a b p | Err e => Err e end.
Definition rfail {A} (e : string) : Reader A := λ b p, Err e.
Notation "'read' x := r 'in' k" := (rbind r (λ x, k)) (at level 200, x pattern, right associativity)
  : tengu_scope.
#[local] Open Scope tengu_scope.

(** [Reader::take]. *)
Definition take_bytes (n : nat) : Reader (list Z) := λ b p,
  if (p + n <=? length b)%nat then Ok (take n (drop p b), (p + n)%nat)
  else Err ("message truncated at byte " +:+ show_N (Z.of_nat p))%string.

(** [self.take(1)?[0]]: one byte was taken. *)
Definition read_u8 : Reader Z :=
  read s := take_bytes 1 in rret (hd 0 s).

Definition compact : Reader nat := λ b p,
  match decode_compact_u16 (drop (Nat.min p (length b)) b) with
  | Some (v, n) => Ok (Z.to_nat v, (p + n)%nat)
  | None => Err ("bad compact-u16 at byte " +:+ show_N (Z.of_nat p))%string
  end.

Definition key : Reader Pubkey := take_bytes 32.

(** [(0..n).map(|_| r).collect()] and [for _ in 0..n { r }]. *)
Fixpoint times {A} (n : nat) (r : Reader A) : Reader (list A) :=
  match n with
  | O => rret []
  | S n => read a := r in read l := times n r in rret (a :: l)
  end.

Definition skip_ix : Reader unit :=
  read _ := read_u8 in
  read n := compact in
  read _ := take_bytes n in
  read n := compact in
  read _ := take_bytes n in
  rret tt.

Definition skip_table : Reader unit :=
  read _ := key in
  read n := compact in
  read _ := take_bytes n in
  read n := compact in
  read _ := take_bytes n in
  rret tt.

Definition read_version : Reader (option Z * Z) :=
  read first := read_u8 in
  if Z.land first 128 =? 0 then rret (None, first)
  else
    let v := Z.land first 127 in
    if v =? 0 then read nrs := read_u8 in rret (Some 0, nrs)
    else rfail ("unsupported message version " +:+ show_N v)%string.

Definition read_message : Reader MessageView :=
  read (version, nrs) := read_version in
  read ro_signed := read_u8 in
  read ro_unsigned := read_u8 in
  read n_keys := compact in
  read keys := times n_keys key in
  if (Z.of_nat (length keys) <? nrs) || (nrs =? 0) then
    rfail (show_N nrs +:+ " required signatures with " +:+ show_N (Z.of_nat (length keys))
           +:+ " static keys")%string
  else
    read blockhash := take_bytes 32 in
    read n := compact in
    read _ := times n skip_ix in
    read _ := match version with
              | Some _ => read n := compact in read _ := times n skip_table in rret tt
              | None => rret tt
              end in
    rret (mkView version (mkHeader nrs ro_signed ro_unsigned) keys blockhash).

Definition parse_message (bytes : list Z) : result string MessageView :=
  match read_message bytes O with
  | Err e => Err e
  | Ok (view, p) =>
      if (p =? length bytes)%nat then Ok view
      else Err (show_N (Z.of_nat (length bytes - p)) +:+ " trailing bytes after the message")%string
  end.

(** [signers]: [None] is the slice out of range. *)
Definition signers (v : MessageView) : option (list Pubkey) :=
  let n := Z.to_nat (num_required_signatures (v_header v)) in
  if (n <=? length (static_keys v))%nat then Some (take n (static_keys v)) else None.

Definition signer_index (v : MessageView) (k : Pubkey) : option (option nat) :=
  s ← signers v; Some (index_of k s).

(** ** Transactions *)

Record Transaction : Type := mkTx {
  signatures : list (list Z);
  tx_message : list Z;
}.

Definition unsigned (msg : LegacyMessage) : Transaction :=
  mkTx (repeat (repeat 0 64) (Z.to_nat (num_required_signatures (header msg)))) (serialize msg).

(** [chunks_exact(64)] of [64 * n] bytes. *)
Fixpoint chunks64 (n : nat) (b : list Z) : list (list Z) :=
  match n with
  | O => []
  | S n => take 64 b :: chunks64 n (drop 64 b)
  end.

Definition parse_tx (bytes : list Z) : result string (Transaction * MessageView) :=
  match decode_compact_u16 bytes with
  | None => Err "bad signature count"%string
  | Some (n, used) =>
      let n := Z.to_nat n in
      let sig_end := (used + 64 * n)%nat in
      if (length bytes <? sig_end)%nat then Err "transaction truncated in signatures"%string
      else
        let signatures := chunks64 n (drop used bytes) in
        let message := drop sig_end bytes in
        view ← parse_message message;
        let nrs := num_required_signatures (v_header view) in
        if negb (nrs =? Z.of_nat n) then
          Err (show_N (Z.of_nat n) +:+ " signature slots for " +:+ show_N nrs
               +:+ " required signatures")%string
        else Ok (mkTx signatures message, view)
  end.

Definition serialize_tx (tx : Transaction) : list Z :=
  compact_len (signatures tx) ++ List.concat (signatures tx) ++ tx_message tx.

Definition tx_id (tx : Transaction) : option (list Z) := head (signatures tx).
