(* ===== verification/SolanaProps.v ===== *)
(** * Transactions round trip

    [reads r e a]: the reader [r] takes exactly the bytes [e], wherever they
    stand, and returns [a]; it composes along [rbind]. *)

From Stdlib Require Import Ascii String.
From S2P Require Import Prelude.
From S2P Require Import Text.
From S2P Require Import Base58.
From S2P Require Import Solana.

#[local] Open Scope list_scope.
#[local] Open Scope Z_scope.
#[local] Open Scope tengu_scope.

(** ** compact-u16 *)

Lemma land_low x k : 0 ≤ x < 2 ^ k → 0 ≤ k → ∀ y, Z.land x (Z.shiftl y k) = 0.
Proof.
  intros Hx Hk y. apply Z.bits_inj'. intros n Hn. rewrite Z.land_spec, Z.bits_0.
  destruct (Z.lt_ge_cases n k) as [L|L].
  - rewrite Z.shiftl_spec_low by done. apply andb_false_r.
  - rewrite <-(Z.mod_small x (2 ^ k)), Z.mod_pow2_bits_high by lia. done.
Qed.

Lemma lor_shifted a b k : 0 ≤ a < 2 ^ k → 0 ≤ k → Z.lor a (Z.shiftl b k) = a + b * 2 ^ k.
Proof.
  intros Ha Hk. rewrite <-Z.add_nocarry_lor by (by apply land_low). by rewrite Z.shiftl_mul_pow2.
Qed.

(** The two kinds of byte: the last one and one that continues. *)
Lemma last_byte x : 0 ≤ x < 128 → Z.land x 127 = x ∧ Z.land x 128 = 0.
Proof.
  intros H. split.
  - change 127 with (Z.ones 7). rewrite Z.land_ones by lia. by apply Z.mod_small.
  - exact (land_low x 7 H ltac:(lia) 1).
Qed.

Lemma more_byte x : 0 ≤ x < 128 →
  Z.lor x 128 = x + 128 ∧ Z.land (x + 128) 127 = x ∧ (Z.land (x + 128) 128 =? 0) = false.
Proof.
  intros H. pose proof (lor_shifted x 1 7 H ltac:(lia)) as E. change (Z.shiftl 1 7) with 128 in E.
  change (1 * 2 ^ 7) with 128 in E. split; [done|]. rewrite <-E. split.
  - rewrite Z.land_lor_distr_l. destruct (last_byte x H) as [-> _]. apply Z.lor_0_r.
  - rewrite Z.land_lor_distr_l. by destruct (last_byte x H) as [_ ->].
Qed.

Lemma encode_go_step fuel n : 0 ≤ n →
  encode_compact_go (S fuel) n =
  if n / 128 =? 0 then [n mod 128] else n mod 128 + 128 :: encode_compact_go fuel (n / 128).
Proof.
  intros H. cbn [encode_compact_go]. change 127 with (Z.ones 7).
  rewrite Z.land_ones, Z.shiftr_div_pow2 by lia. change (2 ^ 7) with 128.
  destruct (n / 128 =? 0); [done|]. f_equal. apply more_byte, Z.mod_pos_bound. lia.
Qed.

Lemma decode_go_last turns i v b rest k :
  0 ≤ b < 128 → k = 7 * Z.of_nat i → 0 ≤ v < 2 ^ k →
  decode_compact_go (S turns) i v (b :: rest)
  = if v + b * 2 ^ k <=? u16_max then Some (v + b * 2 ^ k, S i) else None.
Proof.
  intros Hb -> Hv. cbn [decode_compact_go]. destruct (last_byte b Hb) as [-> ->].
  rewrite lor_shifted by (done || lia). done.
Qed.

Lemma decode_go_more turns i v b rest k :
  0 ≤ b < 128 → k = 7 * Z.of_nat i → 0 ≤ v < 2 ^ k →
  decode_compact_go (S turns) i v (b + 128 :: rest)
  = decode_compact_go turns (S i) (v + b * 2 ^ k) rest.
Proof.
  intros Hb -> Hv. cbn [decode_compact_go]. destruct (more_byte b Hb) as (_ & -> & ->).
  by rewrite lor_shifted by (done || lia).
Qed.

Lemma decode_encode_compact n rest :
  0 ≤ n ≤ u16_max →
  decode_compact_u16 (encode_compact_u16 n ++ rest) = Some (n, length (encode_compact_u16 n)).
Proof.
  intros [H0 H1]. unfold decode_compact_u16, encode_compact_u16.
  assert (Hq : ∀ x, 0 ≤ x → 0 ≤ x mod 128 < 128 ∧ x = x mod 128 + 128 * (x / 128) ∧ 0 ≤ x / 128).
  { intros x Hx. pose proof (Z.mod_pos_bound x 128). pose proof (Z.div_mod x 128).
    pose proof (Z.div_pos x 128). lia. }
  destruct (Hq n H0) as (A1 & A2 & A3). destruct (Hq (n / 128) A3) as (B1 & B2 & B3).
  destruct (Hq (n / 128 / 128) B3) as (C1 & C2 & C3).
  assert (C4 : n / 128 / 128 / 128 = 0) by (apply Z.div_small; ilia).
  assert (Hl : (n <=? u16_max) = true) by lia.
  rewrite encode_go_step by done. destruct (Z.eqb_spec (n / 128) 0) as [E|E].
  { cbn [app length]. rewrite (decode_go_last _ _ _ _ _ 0) by (done || cbn; lia).
    rewrite Z.pow_0_r, Z.mul_1_r, Z.add_0_l. replace (n mod 128) with n by lia. by rewrite Hl. }
  cbn [app]. rewrite (decode_go_more _ _ _ _ _ 0) by (done || cbn; lia).
  rewrite Z.pow_0_r, Z.mul_1_r, Z.add_0_l.
  rewrite encode_go_step by done. destruct (Z.eqb_spec (n / 128 / 128) 0) as [E'|E'].
  { cbn [app length]. rewrite (decode_go_last _ _ _ _ _ 7) by (done || cbn; lia).
    change (2 ^ 7) with 128. replace (n mod 128 + _ * 128) with n by lia. by rewrite Hl. }
  cbn [app]. rewrite (decode_go_more _ _ _ _ _ 7) by (done || cbn; lia). change (2 ^ 7) with 128.
  rewrite encode_go_step by done. rewrite C4. cbn [Z.eqb app length].
  rewrite (decode_go_last _ _ _ _ _ 14) by (done || (change (2 ^ 14) with 16384; cbn; lia)).
  change (2 ^ 14) with 16384. replace (n mod 128 + _ * 128 + _ * 16384) with n by lia. by rewrite Hl.
Qed.

Lemma decode_compact_bounds bytes v k :
  decode_compact_u16 bytes = Some (v, k) → 0 ≤ v ≤ u16_max ∧ (1 ≤ k ≤ 3)%nat ∧ (k ≤ length bytes)%nat.
Proof.
  enough (∀ turns i v0 bs, 0 ≤ v0 → decode_compact_go turns i v0 bs = Some (v, k) →
    0 ≤ v ≤ u16_max ∧ (S i ≤ k ≤ i + turns)%nat ∧ (k ≤ i + length bs)%nat) as H.
  { intros E. apply (H 3%nat 0%nat 0 bytes) in E; [lia|done]. }
  induction turns as [|turns IH]; intros i v0 bs Hv; cbn [decode_compact_go]; [done|].
  destruct bs as [|b bs]; [done|].
  assert (0 ≤ Z.lor v0 (Z.shiftl (Z.land b 127) (7 * Z.of_nat i))) as Hv'.
  { apply Z.lor_nonneg. split; [done|]. apply Z.shiftl_nonneg, Z.land_nonneg. by right. }
  cbn [length]. destruct (Z.land b 128 =? 0).
  - destruct (Z.leb_spec (Z.lor v0 (Z.shiftl (Z.land b 127) (7 * Z.of_nat i))) u16_max); [|done].
    intros [= <- <-]. lia.
  - intros E. apply IH in E; [|done]. lia.
Qed.

(** ** Readers *)

Definition reads {A} (r : Reader A) (e : list Z) (a : A) : Prop :=
  ∀ pre post, r (pre ++ e ++ post) (length pre) = Ok (a, length (pre ++ e)).

Lemma reads_ret {A} (a : A) : reads (rret a) [] a.
Proof. intros pre post. unfold rret. by rewrite app_nil_r. Qed.

Lemma reads_bind {A B} (r : Reader A) (f : A → Reader B) e1 e2 a b :
  reads r e1 a → reads (f a) e2 b → reads (rbind r f) (e1 ++ e2) b.
Proof.
  intros H1 H2 pre post. unfold rbind. rewrite <-(app_assoc e1), H1.
  rewrite (app_assoc pre), H2. by rewrite <-app_assoc.
Qed.

Lemma reads_then {A B} (r : Reader A) (f : A → Reader B) e a b :
  reads r e a → reads (f a) [] b → reads (rbind r f) e b.
Proof. intros H1 H2. rewrite <-(app_nil_r e). by eapply reads_bind. Qed.

Lemma reads_take e n : length e = n → reads (take_bytes n) e e.
Proof.
  intros <- pre post. unfold take_bytes. rewrite (proj2 (Nat.leb_le _ _)).
  - by rewrite drop_app_length, take_app_length, length_app.
  - rewrite !length_app. lia.
Qed.

Lemma reads_u8 x : reads read_u8 [x] x.
Proof. eapply reads_then; [by apply reads_take|apply reads_ret]. Qed.

Lemma reads_compact n : 0 ≤ n ≤ u16_max → reads compact (encode_compact_u16 n) (Z.to_nat n).
Proof.
  intros Hn pre post. unfold compact. rewrite Nat.min_l by (rewrite length_app; lia).
  by rewrite drop_app_length, decode_encode_compact, length_app.
Qed.

Lemma reads_length {A} (l : list A) :
  Z.of_nat (length l) ≤ u16_max → reads compact (compact_len l) (length l).
Proof.
  intros H. unfold compact_len, u16. rewrite Z.mod_small by ilia.
  replace (length l) with (Z.to_nat (Z.of_nat (length l))) at 2 by lia.
  apply reads_compact. ilia.
Qed.

Lemma reads_times {A B} (r : Reader A) (enc : B → list Z) (val : B → A) l :
  (∀ x, x ∈ l → reads r (enc x) (val x)) →
  reads (times (length l) r) (List.concat (map enc l)) (map val l).
Proof.
  induction l as [|x l IH]; intros H; cbn [times map List.concat length]; [apply reads_ret|].
  eapply reads_bind; [apply H; constructor|].
  eapply reads_then; [|apply reads_ret].
  apply IH. intros y Hy. apply H. by constructor.
Qed.

Lemma reads_parse {A} (r : Reader A) e a : reads r e a → r e O = Ok (a, length e).
Proof. intros H. specialize (H [] []). by rewrite app_nil_r in H. Qed.

(** ** Messages *)

Record ix_ok (ix : CompiledInstruction) : Prop := {
  ix_accounts : Z.of_nat (length (c_accounts ix)) ≤ u16_max;
  ix_data : Z.of_nat (length (c_data ix)) ≤ u16_max;
}.

(** A message as the wire can hold it. *)
Record wire_ok (m : LegacyMessage) : Prop := {
  w_signatures : 0 < num_required_signatures (header m) < 128;
  w_signers : num_required_signatures (header m) ≤ Z.of_nat (length (account_keys m));
  w_keys : Forall (λ k, length k = 32%nat) (account_keys m);
  w_count : Z.of_nat (length (account_keys m)) ≤ u16_max;
  w_hash : length (recent_blockhash m) = 32%nat;
  w_ixs : Forall ix_ok (instructions m);
  w_ix_count : Z.of_nat (length (instructions m)) ≤ u16_max;
}.

Lemma reads_skip_ix ix : ix_ok ix → reads skip_ix (serialize_ix ix) tt.
Proof.
  intros [H1 H2]. unfold skip_ix, serialize_ix.
  change (?x :: ?l) with ([x] ++ l). eapply reads_bind; [apply reads_u8|].
  eapply reads_bind; [by apply reads_length|]. eapply reads_bind; [by apply reads_take|].
  eapply reads_bind; [by apply reads_length|]. 
  eapply reads_then; [by apply reads_take|apply reads_ret].
Qed.

Definition view_of (m : LegacyMessage) : MessageView :=
  mkView None (header m) (account_keys m) (recent_blockhash m).

Lemma reads_version x : 0 ≤ x < 128 → reads read_version [x] (None, x).
Proof.
  intros H. eapply reads_then; [apply reads_u8|].
  destruct (last_byte x H) as [_ ->]. apply reads_ret.
Qed.

Lemma reads_keys l : Forall (λ k, length k = 32%nat) l → reads (times (length l) key) (List.concat l) l.
Proof.
  intros H. rewrite <-(map_id l) at 2 3. apply (reads_times key (λ k, k) (λ k, k)).
  rewrite Forall_forall in H. intros k Hk. by apply reads_take, H.
Qed.

Lemma reads_message m : wire_ok m → reads read_message (serialize m) (view_of m).
Proof.
  intros [H1 H2 H3 H4 H5 H6 H7]. unfold read_message, serialize, view_of.
  destruct (header m) as [nrs ros rou]. cbn [num_required_signatures num_readonly_signed
    num_readonly_unsigned app] in *.
  change (nrs :: ?l) with ([nrs] ++ l). eapply reads_bind; [apply reads_version; lia|].
  change (ros :: ?l) with ([ros] ++ l). eapply reads_bind; [apply reads_u8|].
  change (rou :: ?l) with ([rou] ++ l). eapply reads_bind; [apply reads_u8|].
  eapply reads_bind; [by apply reads_length|]. eapply reads_bind; [by apply reads_keys|].
  destruct (Z.ltb_spec (Z.of_nat (length (account_keys m))) nrs); [lia|].
  destruct (Z.eqb_spec nrs 0); [lia|]. cbn [orb].
  eapply reads_bind; [by apply reads_take|]. eapply reads_bind; [by apply reads_length|].
  eapply reads_then.
  { apply (reads_times skip_ix serialize_ix (λ _, tt)). rewrite Forall_forall in H6.
    intros ix Hix. by apply reads_skip_ix, H6. }
  eapply reads_then; apply reads_ret.
Qed.

Lemma parse_serialize m : wire_ok m → parse_message (serialize m) = Ok (view_of m).
Proof.
  intros H. unfold parse_message. rewrite (reads_parse _ _ _ (reads_message m H)).
  by rewrite Nat.eqb_refl.
Qed.

(** ** Transactions *)

Lemma chunks64_concat l : Forall (λ s, length s = 64%nat) l → ∀ post,
  chunks64 (length l) (List.concat l ++ post) = l.
Proof.
  induction 1 as [|s l Hs _ IH]; intros post; [done|].
  cbn [length chunks64 List.concat]. rewrite <-app_assoc, <-Hs, take_app_length, drop_app_length.
  by rewrite IH.
Qed.

Lemma length_concat_const {A} (l : list (list A)) n :
  Forall (λ s, length s = n) l → length (List.concat l) = (n * length l)%nat.
Proof.
  induction 1 as [|s l Hs _ IH]; cbn [List.concat length]; [lia|]. rewrite length_app, IH. lia.
Qed.

Lemma parse_serialize_tx m sigs :
  wire_ok m → Z.of_nat (length sigs) = num_required_signatures (header m) →
  Forall (λ s, length s = 64%nat) sigs →
  parse_tx (serialize_tx (mkTx sigs (serialize m))) = Ok (mkTx sigs (serialize m), view_of m).
Proof.
  intros W Hn Hs. pose proof (w_signatures m W). unfold parse_tx, serialize_tx.
  cbn [signatures tx_message]. unfold compact_len, u16. rewrite Z.mod_small by lia.
  rewrite decode_encode_compact by ilia. rewrite Nat2Z.id.
  set (e := encode_compact_u16 _). rewrite !length_app, (length_concat_const sigs 64) by done.
  destruct (Nat.ltb_spec (length e + (64 * length sigs + length (serialize m)))
    (length e + 64 * length sigs)); [lia|].
  rewrite drop_app_length, chunks64_concat by done.
  rewrite (app_assoc e), <-(length_concat_const sigs 64 Hs), <-length_app, drop_app_length.
  rewrite parse_serialize by done. cbn [mbind result_bind view_of v_header].
  rewrite <-Hn, Z.eqb_refl. done.
Qed.

(** ** The keys of a message *)

Definition key_of (e : Pubkey * bool * bool) : Pubkey := e.1.1.

Lemma key_in keys k : k ∈ map key_of keys ↔ ∃ s w, (k, s, w) ∈ keys.
Proof.
  change (map key_of keys) with (key_of <$> keys). rewrite list_elem_of_fmap. split.
  - intros ([[k' s] w] & -> & H). by exists s, w.
  - intros (s & w & H). by exists (k, s, w).
Qed.

(** The entry of [k] is merged into, or is new; the others stay. *)
Lemma upsert_elem keys k s w k' s' w' :
  NoDup (map key_of keys) →
  (k', s', w') ∈ upsert keys k s w ↔
  (k' ≠ k ∧ (k', s', w') ∈ keys)
  ∨ (k' = k ∧ ((∃ s0 w0, (k, s0, w0) ∈ keys ∧ s' = s0 || s ∧ w' = w0 || w)
               ∨ (¬ (∃ s0 w0, (k, s0, w0) ∈ keys) ∧ s' = s ∧ w' = w))).
Proof.
  induction keys as [|[[k0 s0] w0] keys IH]; intros Hn; cbn [upsert].
  - rewrite list_elem_of_singleton. setoid_rewrite elem_of_nil. naive_solver.
  - rewrite map_cons in Hn. apply NoDup_cons in Hn as [Hk0 Hn]. rewrite key_in in Hk0.
    change (key_of (k0, s0, w0)) with k0 in Hk0. destruct (decide (k0 = k)) as [->|N].
    + setoid_rewrite elem_of_cons. split.
      * intros [[= -> -> ->]|H]; [right; eauto 10|].
        left. split; [|by right]. intros ->. eauto.
      * intros [[N [[= ? ?]|H]]|(-> & [(a & b & [[= -> ->]|H] & -> & ->)|(H & _)])];
          [done|by right|by left|destruct Hk0; eauto|destruct H; eauto].
    + setoid_rewrite elem_of_cons. rewrite (IH Hn). split.
      * intros [[= -> -> ->]|[[N' H]|(-> & [(a & b & H & E)|(H & E)])]].
        -- left. split; [done|by left].
        -- left. split; [done|by right].
        -- right. split; [done|]. left. exists a, b. split; [by right|done].
        -- right. split; [done|]. right. split; [|done]. intros (a & b & [[= -> _ _]|?]); eauto.
      * intros [[N' [H|H]]|(-> & [(a & b & [[= -> ? ?]|H] & E)|(H & E)])].
        -- by left.
        -- right. by left.
        -- done.
        -- right. right. split; [done|]. left. by exists a, b.
        -- right. right. split; [done|]. right. split; [|done].
           intros (a & b & ?). apply H. exists a, b. by right.
Qed.

Lemma upsert_keys keys k s w :
  map key_of (upsert keys k s w) =
  map key_of keys ++ (if decide (k ∈ map key_of keys) then [] else [k]).
Proof.
  induction keys as [|[[k0 s0] w0] keys IH]; cbn [upsert]; [done|].
  destruct (decide (k0 = k)) as [->|N]; rewrite !map_cons; unfold key_of at 1 3; cbn [fst].
  - rewrite decide_True by constructor. by rewrite app_nil_r.
  - rewrite IH. cbn [app]. f_equal. unfold key_of at 3. cbn [fst].
    destruct (decide (k ∈ map key_of keys)) as [D|D].
    + rewrite decide_True; [done|by constructor].
    + rewrite decide_False; [done|]. by intros [->|?]%elem_of_cons.
Qed.

Lemma upsert_nodup keys k s w : NoDup (map key_of keys) → NoDup (map key_of (upsert keys k s w)).
Proof.
  intros Hn. rewrite upsert_keys. destruct (decide _); [by rewrite app_nil_r|].
  apply NoDup_app. split_and!; [done| |apply NoDup_singleton].
  by intros x Hx ->%list_elem_of_singleton.
Qed.

(** Every key mention of the instructions, a program's id first. *)
Definition mentions (ixs : list Instruction) : list AccountMeta :=
  List.concat (map (λ ix, mkMeta (program_id ix) false false :: accounts ix) ixs).

Definition upsert_meta (keys : list (Pubkey * bool * bool)) (m : AccountMeta) :=
  upsert keys (pubkey m) (is_signer m) (is_writable m).

Lemma collect_keys_mentions payer ixs :
  collect_keys payer ixs = fold_left upsert_meta (mentions ixs) [(payer, true, true)].
Proof.
  unfold collect_keys, mentions. generalize [(payer, true, true)] as keys.
  induction ixs as [|ix ixs IH]; intros keys; [done|].
  cbn [map List.concat fold_left]. by rewrite IH, fold_left_app.
Qed.

(** Does [k] sign, is it written: the payer always, any other key if some
    instruction says so. *)
Definition signs (payer : Pubkey) (ms : list AccountMeta) (k : Pubkey) : bool :=
  bool_decide (k = payer) || existsb (λ m, bool_decide (pubkey m = k) && is_signer m) ms.
Definition writes (payer : Pubkey) (ms : list AccountMeta) (k : Pubkey) : bool :=
  bool_decide (k = payer) || existsb (λ m, bool_decide (pubkey m = k) && is_writable m) ms.

Lemma no_mention k ms (f : AccountMeta → bool) :
  k ∉ map pubkey ms → existsb (λ m, bool_decide (pubkey m = k) && f m) ms = false.
Proof.
  intros H. apply not_true_iff_false. rewrite existsb_exists. intros (m & Hm & E).
  apply andb_true_iff in E as [E _]. apply bool_decide_eq_true in E. apply H. rewrite <-E.
  apply (list_elem_of_fmap_2 pubkey). by apply list_elem_of_In.
Qed.

(** One more mention, as flags. *)
Lemma signs_snoc payer ms m k :
  signs payer (ms ++ [m]) k = signs payer ms k || bool_decide (pubkey m = k) && is_signer m.
Proof. unfold signs. rewrite existsb_app. cbn [existsb]. by rewrite orb_false_r, orb_assoc. Qed.
Lemma writes_snoc payer ms m k :
  writes payer (ms ++ [m]) k = writes payer ms k || bool_decide (pubkey m = k) && is_writable m.
Proof. unfold writes. rewrite existsb_app. cbn [existsb]. by rewrite orb_false_r, orb_assoc. Qed.

Lemma unmentioned payer ms k : ¬ (k = payer ∨ k ∈ map pubkey ms) →
  signs payer ms k = false ∧ writes payer ms k = false.
Proof.
  intros H. unfold signs, writes. rewrite bool_decide_false, !no_mention by tauto. done.
Qed.

Lemma fold_upsert payer ms :
  let keys := fold_left upsert_meta ms [(payer, true, true)] in
  NoDup (map key_of keys) ∧ head (map key_of keys) = Some payer ∧
  ∀ k s w, (k, s, w) ∈ keys ↔
    (k = payer ∨ k ∈ map pubkey ms) ∧ s = signs payer ms k ∧ w = writes payer ms k.
Proof.
  induction ms as [|m ms IH] using rev_ind; cbn zeta.
  { cbn [fold_left]. split_and!; [apply NoDup_singleton|done|].
    intros k s w. rewrite list_elem_of_singleton. unfold signs, writes. cbn [existsb].
    rewrite !orb_false_r. split.
    - intros [= -> -> ->]. rewrite bool_decide_true by done. split; [by left|done].
    - intros ([->|?%elem_of_nil] & -> & ->); [|done]. by rewrite bool_decide_true. }
  destruct IH as (Hn & Hh & He). rewrite fold_left_app. cbn [fold_left].
  set (keys := fold_left upsert_meta ms [(payer, true, true)]) in *.
  split_and!; [by apply upsert_nodup| |].
  { unfold upsert_meta. rewrite upsert_keys. by destruct (map key_of keys). }
  intros k s w. unfold upsert_meta. rewrite upsert_elem by done.
  rewrite map_app, elem_of_app, signs_snoc, writes_snoc. cbn [map]. rewrite list_elem_of_singleton.
  setoid_rewrite He. destruct (decide (k = pubkey m)) as [->|N].
  - rewrite (bool_decide_true (pubkey m = pubkey m)) by done. cbn [andb].
    destruct (decide (pubkey m = payer ∨ pubkey m ∈ map pubkey ms)) as [D|D].
    + split.
      * intros [[? _]|(_ & [(a & b & (H & -> & ->) & -> & ->)|(H & _)])]; [done|tauto|].
        destruct H. eexists _, _. by split.
      * intros (_ & -> & ->). right. split; [done|]. left. eexists _, _. by split.
    + destruct (unmentioned payer ms _ D) as [-> ->]. cbn [orb]. split.
      * intros [[? _]|(_ & [(a & b & (H & _) & _)|(_ & H)])]; [done..|tauto].
      * intros (_ & -> & ->). right. split; [done|]. right. split; [|done].
        by intros (? & ? & ? & _).
  - rewrite (bool_decide_false (pubkey m = k)) by congruence. cbn [andb]. rewrite !orb_false_r.
    naive_solver.
Qed.

Lemma in_part keys s w k : k ∈ part keys s w ↔ (k, s, w) ∈ keys.
Proof.
  unfold part. rewrite list_elem_of_In, in_map_iff. setoid_rewrite List.filter_In.
  setoid_rewrite andb_true_iff. setoid_rewrite Bool.eqb_true_iff. rewrite list_elem_of_In. split.
  - intros ([[k' s'] w'] & <- & H & E1 & E2). cbn in *. by subst.
  - intros H. by exists (k, s, w).
Qed.

Lemma part_nodup keys s w : NoDup (map key_of keys) → NoDup (part keys s w).
Proof.
  unfold part. change (λ e : Pubkey * bool * bool, e.1.1) with key_of.
  induction keys as [|e keys IH]; cbn [List.filter]; [constructor|].
  rewrite map_cons. intros [H1 H2]%NoDup_cons. destruct (_ && _); [|by apply IH].
  rewrite map_cons. apply NoDup_cons. split; [|by apply IH]. intros H. apply H1.
  rewrite list_elem_of_In, in_map_iff in H |- *. destruct H as (x & E & Hx).
  exists x. split; [done|]. by apply List.filter_In in Hx as [? _].
Qed.

Section keys.
Context (payer : Pubkey) (ms : list AccountMeta).
Let keys := fold_left upsert_meta ms [(payer, true, true)].

Lemma in_parts s w k :
k ∈ part keys s w ↔ (k = payer ∨ k ∈ map pubkey ms) ∧ s = signs payer ms k ∧ w = writes payer ms k.
Proof. rewrite in_part. apply (fold_upsert payer ms). Qed.

Lemma ordered_in k : k ∈ ordered_keys keys ↔ k = payer ∨ k ∈ map pubkey ms.
Proof.
unfold ordered_keys. rewrite !elem_of_app, !in_parts.
destruct (signs payer ms k), (writes payer ms k); intuition congruence.
Qed.

Lemma ordered_nodup : NoDup (ordered_keys keys).
Proof.
pose proof (λ s w, part_nodup keys s w (proj1 (fold_upsert payer ms))) as Hp.
unfold ordered_keys. rewrite !NoDup_app. setoid_rewrite elem_of_app. setoid_rewrite elem_of_app.
setoid_rewrite in_parts. split_and!; try apply Hp; intuition congruence.
Qed.

Lemma ordered_head : head (ordered_keys keys) = Some payer.
Proof.
destruct (fold_upsert payer ms) as (_ & Hh & He). fold keys in Hh, He. unfold ordered_keys.
assert (Hp : head (part keys true true) = Some payer).
{ destruct keys as [|[[k s] w] l]; [done|]. cbn in Hh. injection Hh as ->.
  destruct (proj1 (He payer s w) ltac:(constructor)) as (_ & -> & ->).
  unfold part, signs, writes. rewrite bool_decide_true by done. done. }
by destruct (part keys true true).
Qed.

(** The four groups, one after the other. *)
Let a := length (part keys true true).
Let b := length (part keys true false).
Let c := length (part keys false true).
Let d := length (part keys false false).

Lemma ordered_length : length (ordered_keys keys) = (a + (b + (c + d)))%nat.
Proof. unfold ordered_keys. by rewrite !length_app. Qed.

Lemma ordered_flags i k :
ordered_keys keys !! i = Some k →
(signs payer ms k = true ↔ (i < a + b)%nat) ∧
(writes payer ms k = true ↔ (i < a)%nat ∨ (a + b ≤ i < a + b + c)%nat).
Proof.
assert (Hin : ∀ s w j, part keys s w !! j = Some k →
  s = signs payer ms k ∧ w = writes payer ms k ∧ (j < length (part keys s w))%nat).
{ intros s w j Hj. pose proof (lookup_lt_Some _ _ _ Hj). 
  assert (k ∈ part keys s w) as Hk by (apply list_elem_of_lookup; eauto).
  apply in_parts in Hk as (_ & ? & ?). done. }
unfold ordered_keys. rewrite !lookup_app_Some. subst a b c d.
intros [H|[L1 [H|[L2 [H|[L3 H]]]]]]; apply Hin in H as (<- & <- & H);
  (split; split; intros ?; try done; lia).
Qed.
End keys.

(** ** Indices *)

Lemma index_of_some k l i : index_of k l = Some i → l !! i = Some k.
Proof.
  revert i. induction l as [|x l IH]; intros i; cbn [index_of]; [done|].
  destruct (decide (x = k)) as [->|]; [by intros [= <-]|].
  destruct (index_of k l) as [j|]; [|done]. cbn. intros [= <-]. by apply IH.
Qed.

Lemma index_of_in k l : k ∈ l → is_Some (index_of k l).
Proof.
  induction l as [|x l IH]; [by intros ?%elem_of_nil|]. cbn [index_of].
  destruct (decide (x = k)) as [->|N]; [by eexists|]. intros [->|H]%elem_of_cons; [done|].
  destruct (IH H) as [i ->]. by eexists.
Qed.

Lemma key_index_in keys k :
  (length keys ≤ 256)%nat → k ∈ keys → ∃ i, key_index keys k = Some i ∧ keys !! Z.to_nat i = Some k.
Proof.
  intros L [i E]%index_of_in. unfold key_index. rewrite E. cbn [mbind option_bind].
  pose proof (index_of_some _ _ _ E) as Hi. pose proof (lookup_lt_Some _ _ _ Hi).
  exists (Z.of_nat i). unfold u8. rewrite Z.mod_small by (change (2 ^ 8) with 256; lia).
  by rewrite Nat2Z.id.
Qed.

Lemma all_some_spec {A B} (f : A → option B) (R : A → B → Prop) l :
  (∀ x, x ∈ l → ∃ y, f x = Some y ∧ R x y) → ∃ ys, all_some f l = Some ys ∧ Forall2 R l ys.
Proof.
  induction l as [|x l IH]; intros H; cbn [all_some]; [by exists []|].
  destruct (H x ltac:(constructor)) as (y & -> & Hy).
  destruct IH as (ys & -> & Hys). { intros z Hz. apply H. by constructor. }
  exists (y :: ys). split; [done|by constructor].
Qed.

(** A compiled instruction names, by index, what the instruction names. *)
Definition ix_resolves (keys : list Pubkey) (ix : Instruction) (c : CompiledInstruction) : Prop :=
  keys !! Z.to_nat (program_id_index c) = Some (program_id ix)
  ∧ Forall2 (λ m i, keys !! Z.to_nat i = Some (pubkey m)) (accounts ix) (c_accounts c)
  ∧ c_data c = data ix.

Lemma compile_ix_spec keys ix :
  (length keys ≤ 256)%nat → program_id ix ∈ keys → (∀ m, m ∈ accounts ix → pubkey m ∈ keys) →
  ∃ c, compile_ix keys ix = Some c ∧ ix_resolves keys ix c.
Proof.
  intros L Hp Ha. unfold compile_ix. destruct (key_index_in keys _ L Hp) as (p & -> & Hp').
  cbn [mbind option_bind].
  destruct (all_some_spec (λ m, key_index keys (pubkey m))
    (λ m i, keys !! Z.to_nat i = Some (pubkey m)) (accounts ix)) as (idxs & -> & His).
  { intros m Hm. apply key_index_in; [done|by apply Ha]. }
  cbn [mbind option_bind]. eexists. by split.
Qed.

Lemma mentions_in ixs ix k : ix ∈ ixs →
  k = program_id ix ∨ k ∈ map pubkey (accounts ix) → k ∈ map pubkey (mentions ixs).
Proof.
  intros Hix Hk. unfold mentions. rewrite concat_map, List.map_map, list_elem_of_In, in_concat.
  eexists. split; [apply in_map_iff; exists ix; split; [reflexivity|by apply list_elem_of_In]|].
  apply list_elem_of_In. rewrite map_cons. cbn [pubkey]. apply elem_of_cons. exact Hk.
Qed.

(** ** [compile] *)

Definition mentioned (payer : Pubkey) (ixs : list Instruction) (k : Pubkey) : Prop :=
  k = payer ∨ k ∈ map pubkey (mentions ixs).

Section compile.
Context (payer : Pubkey) (ixs : list Instruction) (bh : list Z).
Let keys := collect_keys payer ixs.
Let count s w := Z.of_nat (length (part keys s w)).

Lemma compile_spec :
∃ r, compile payer ixs bh = Some r ∧
  match r with
  | Err _ => (256 < length (ordered_keys keys))%nat
  | Ok m =>
      (length (ordered_keys keys) ≤ 256)%nat ∧ account_keys m = ordered_keys keys
      ∧ recent_blockhash m = bh ∧ Forall2 (ix_resolves (account_keys m)) ixs (instructions m)
      ∧ header m = mkHeader (u8 (u8 (count true true) + u8 (count true false)))
                     (u8 (count true false)) (u8 (count false false))
  end.
Proof.
unfold compile. fold keys. destruct (Nat.ltb_spec 256 (length (ordered_keys keys))) as [L|L].
{ eexists. split; [done|]. done. }
assert (Hin : ∀ k, k ∈ ordered_keys keys ↔ mentioned payer ixs k).
{ intros k. unfold keys. rewrite collect_keys_mentions. apply ordered_in. }
destruct (all_some_spec (compile_ix (ordered_keys keys)) (ix_resolves (ordered_keys keys)) ixs)
  as (cs & -> & Hcs).
{ intros ix Hix. apply compile_ix_spec; [done| |].
  - apply Hin. right. eapply mentions_in; [done|by left].
  - intros m Hm. apply Hin. right. eapply mentions_in; [done|]. right.
    by apply (list_elem_of_fmap_2 pubkey). }
cbn [mbind option_bind]. eexists. split; [done|]. by split_and!.
Qed.
End compile.

Lemma u8_small x : 0 ≤ x < 256 → u8 x = x.
Proof. apply Z.mod_small. Qed.

(** [compile] orders the keys as the wire asks, and never panics: it refuses
    exactly when more than 256 keys are mentioned; else the payer is first,
    each mentioned key stands once and no other key does, every instruction
    names its program and accounts by their indices, in order, with its data;
    and, with at most 255 keys, the header's three counts tell by a key's place
    alone whether it signs and whether it is writable - the payer both, any
    other key if some instruction says so. *)
Theorem compile_orders_the_keys payer ixs bh :
  ∃ r, compile payer ixs bh = Some r ∧
    match r with
    | Err _ => ∃ l, NoDup l ∧ (∀ k, k ∈ l ↔ mentioned payer ixs k) ∧ (256 < length l)%nat
    | Ok m =>
        head (account_keys m) = Some payer ∧ NoDup (account_keys m)
        ∧ (∀ k, k ∈ account_keys m ↔ mentioned payer ixs k)
        ∧ recent_blockhash m = bh ∧ Forall2 (ix_resolves (account_keys m)) ixs (instructions m)
        ∧ ((length (account_keys m) ≤ 255)%nat → ∀ i k, account_keys m !! i = Some k →
            let h := header m in let i := Z.of_nat i in
            (signs payer (mentions ixs) k = true ↔ i < num_required_signatures h) ∧
            (writes payer (mentions ixs) k = true ↔
               i < num_required_signatures h - num_readonly_signed h
               ∨ num_required_signatures h ≤ i
                 ∧ i < Z.of_nat (length (account_keys m)) - num_readonly_unsigned h))
    end.
Proof.
  destruct (compile_spec payer ixs bh) as (r & E & H). exists r. split; [done|].
  assert (Hin : ∀ k, k ∈ ordered_keys (collect_keys payer ixs) ↔ mentioned payer ixs k).
  { intros k. rewrite collect_keys_mentions. apply ordered_in. }
  assert (Hnd : NoDup (ordered_keys (collect_keys payer ixs))).
  { rewrite collect_keys_mentions. apply ordered_nodup. }
  destruct r as [m|e]; [|by eexists]. destruct H as (L & Hk & Hbh & Hix & Hh). rewrite Hk in *.
  split_and!; [rewrite collect_keys_mentions; apply ordered_head|done|done|done|done|].
  intros L' i k Hi. rewrite Hh. cbn [num_required_signatures num_readonly_signed num_readonly_unsigned].
  rewrite collect_keys_mentions in *.
  pose proof (ordered_length payer (mentions ixs)) as Hlen.
  destruct (ordered_flags payer (mentions ixs) i k Hi) as [F1 F2].
  rewrite !u8_small; rewrite ?u8_small by lia; try lia. rewrite F1, F2. lia.
Qed.

(** ** From the size to the wire *)

Lemma length_concat_elem {A} (l : list (list A)) x : x ∈ l → (length x ≤ length (List.concat l))%nat.
Proof.
  induction l as [|y l IH]; [by intros ?%elem_of_nil|]. cbn [List.concat]. rewrite length_app.
  intros [->|H]%elem_of_cons; [lia|]. specialize (IH H). lia.
Qed.

Lemma length_concat_count {A} (l : list (list A)) :
  Forall (λ x, 1 ≤ length x)%nat l → (length l ≤ length (List.concat l))%nat.
Proof. induction 1; cbn [List.concat length]; [lia|]. rewrite length_app. lia. Qed.

(** A message no larger than a packet fits its own counts. *)
Lemma packet_ok m :
  (tx_size m ≤ PACKET_DATA_SIZE)%nat → Forall (λ k, length k = 32%nat) (account_keys m) →
  (length (account_keys m) ≤ 38)%nat
  ∧ Z.of_nat (length (instructions m)) ≤ u16_max ∧ Forall ix_ok (instructions m)
  ∧ num_required_signatures (header m) < 128.
Proof.
  intros Hs Hk. unfold tx_size, serialize, PACKET_DATA_SIZE in Hs. rewrite !length_app in Hs.
  rewrite (length_concat_const _ 32 Hk) in Hs.
  assert (Hser : (length (List.concat (map serialize_ix (instructions m))) ≤ 1232)%nat) by lia.
  split_and!; [lia| | |lia].
  - pose proof (length_concat_count (map serialize_ix (instructions m))) as H.
    rewrite length_map in H. specialize (H ltac:(apply Forall_forall; intros x Hx;
      apply list_elem_of_In, in_map_iff in Hx as (ix & <- & _); unfold serialize_ix; cbn; lia)). ilia.
  - apply Forall_forall. intros ix Hix.
    pose proof (length_concat_elem (map serialize_ix (instructions m)) (serialize_ix ix)
      ltac:(by apply (list_elem_of_fmap_2 serialize_ix))) as H.
    unfold serialize_ix at 1 in H. cbn [length] in H. rewrite !length_app in H. split; ilia.
Qed.

Lemma compiled_wire_ok payer ixs bh m :
  (∀ k, mentioned payer ixs k → length k = 32%nat) → length bh = 32%nat →
  compile payer ixs bh = Some (Ok m) → (tx_size m ≤ PACKET_DATA_SIZE)%nat →
  wire_ok m ∧ (∀ i k, account_keys m !! i = Some k →
    signs payer (mentions ixs) k = true ↔ Z.of_nat i < num_required_signatures (header m)).
Proof.
  intros Hk Hbh E Hs. destruct (compile_spec payer ixs bh) as (r & E' & H).
  rewrite E in E'. injection E' as <-. destruct H as (_ & Ha & Hb & _ & Hh).
  assert (Hin : ∀ k, k ∈ account_keys m ↔ mentioned payer ixs k).
  { intros k. rewrite Ha, collect_keys_mentions. apply ordered_in. }
  assert (H32 : Forall (λ k, length k = 32%nat) (account_keys m)).
  { apply Forall_forall. intros k ?. by apply Hk, Hin. }
  destruct (packet_ok m Hs H32) as (P1 & P2 & P3 & P4).
  rewrite collect_keys_mentions in Ha, Hh.
  pose proof (ordered_length payer (mentions ixs)) as Hlen. rewrite <-Ha in Hlen.
  assert (Hflags : ∀ i k, account_keys m !! i = Some k →
    signs payer (mentions ixs) k = true ↔ Z.of_nat i < num_required_signatures (header m)).
  { intros i k Hi. rewrite Ha in Hi. destruct (ordered_flags _ _ i k Hi) as [F _].
    rewrite Hh, F. cbn [num_required_signatures]. rewrite !u8_small; rewrite ?u8_small by lia; lia. }
  split; [|done]. constructor; try done.
  - split; [|done].
    assert (H0 : account_keys m !! 0%nat = Some payer).
    { rewrite Ha. pose proof (ordered_head payer (mentions ixs)) as H0. by rewrite head_lookup in H0. }
    apply (Hflags 0%nat payer H0). unfold signs. by rewrite bool_decide_true.
  - rewrite Hh. cbn [num_required_signatures]. rewrite !u8_small; rewrite ?u8_small by lia; lia.
  - ilia.
  - by rewrite Hb.
Qed.

Lemma signer_has_a_slot m k i :
  wire_ok m → account_keys m !! i = Some k → Z.of_nat i < num_required_signatures (header m) →
  ∃ j, signer_index (view_of m) k = Some (Some j) ∧ account_keys m !! j = Some k
    ∧ Z.of_nat j < num_required_signatures (header m).
Proof.
  intros W Hi L. unfold signer_index, signers, view_of. cbn [v_header static_keys].
  pose proof (w_signers m W). pose proof (w_signatures m W).
  rewrite (proj2 (Nat.leb_le _ _)) by lia. cbn [mbind option_bind].
  destruct (index_of_in k (take (Z.to_nat (num_required_signatures (header m))) (account_keys m)))
    as [j Ej].
  { apply list_elem_of_lookup. exists i. by rewrite lookup_take_lt by lia. }
  exists j. rewrite Ej. split; [done|]. apply index_of_some in Ej.
  apply lookup_take_Some in Ej as [? ?]. split; [done|lia].
Qed.

(** C31. A transaction round trips, signed or not. For a compiled message whose
    transaction fits a packet, with 32-byte keys and hash, and any 64-byte
    signatures, one for each required signer: [parse] of the serialized
    transaction gives it back, and the header, keys and blockhash of its
    message; its size is [tx_size]; and every key that must sign finds its
    slot, the payer the first one. *)
Theorem transactions_round_trip payer ixs bh m sigs :
  (∀ k, mentioned payer ixs k → length k = 32%nat) → length bh = 32%nat →
  compile payer ixs bh = Some (Ok m) → (tx_size m ≤ PACKET_DATA_SIZE)%nat →
  Z.of_nat (length sigs) = num_required_signatures (header m) →
  Forall (λ s, length s = 64%nat) sigs →
  parse_tx (serialize_tx (mkTx sigs (serialize m))) = Ok (mkTx sigs (serialize m), view_of m) ∧
  length (serialize_tx (mkTx sigs (serialize m))) = tx_size m ∧
  signer_index (view_of m) payer = Some (Some 0%nat) ∧
  ∀ k, signs payer (mentions ixs) k = true → mentioned payer ixs k →
    ∃ j, signer_index (view_of m) k = Some (Some j) ∧ account_keys m !! j = Some k.
Proof.
  intros Hk Hbh E Hs Hn H64. destruct (compiled_wire_ok payer ixs bh m Hk Hbh E Hs) as [W F].
  destruct (compile_spec payer ixs bh) as (r & E' & H).
  rewrite E in E'. injection E' as <-. destruct H as (_ & Ha & _).
  rewrite collect_keys_mentions in Ha. split_and!.
  - by apply parse_serialize_tx.
  - pose proof (w_signatures m W). unfold serialize_tx, tx_size, compact_len, u16. cbn [signatures tx_message].
    rewrite Z.mod_small by lia. rewrite !length_app, (length_concat_const _ 64 H64), <-Hn. lia.
  - unfold signer_index, signers, view_of. cbn [v_header static_keys].
    pose proof (w_signers m W). pose proof (w_signatures m W).
    rewrite (proj2 (Nat.leb_le _ _)) by lia. cbn [mbind option_bind]. f_equal.
    pose proof (ordered_head payer (mentions ixs)) as Hp. rewrite <-Ha in Hp.
    destruct (account_keys m) as [|x l]; [done|]. injection Hp as ->.
    destruct (Z.to_nat (num_required_signatures (header m))) as [|n] eqn:En; [lia|].
    cbn [take index_of]. by rewrite decide_True.
  - intros k Hsig Hm. assert (k ∈ account_keys m) as Hin.
    { rewrite Ha. by apply ordered_in. }
    apply list_elem_of_lookup in Hin as [i Hi].
    destruct (signer_has_a_slot m k i W Hi) as (j & Hj & Hl & _); [by apply (F i k)|].
    by exists j.
Qed.

(** ** Samples *)

Definition sample_pubkey (n : Z) : Pubkey := map (λ i, (Z.of_nat i * 7 + n) mod 256) (seq 0 32).
Definition sample_ixs : list Instruction :=
  [mkIx (sample_pubkey 1)
     [meta_writable (sample_pubkey 2) false; meta_readonly (sample_pubkey 3) true] [1; 2; 3]].
Definition sample_message : LegacyMessage :=
  match compile (sample_pubkey 9) sample_ixs (sample_pubkey 7) with
  | Some (Ok m) => m
  | _ => mkLegacy (mkHeader 0 0 0) [] [] []
  end.

Lemma transactions_round_trip_witness :
  parse_tx (serialize_tx (unsigned sample_message)) = Ok (unsigned sample_message, view_of sample_message)
  ∧ length (serialize_tx (unsigned sample_message)) = 302%nat.
Proof.
  destruct (transactions_round_trip (sample_pubkey 9) sample_ixs (sample_pubkey 7) sample_message
    (signatures (unsigned sample_message))) as (H1 & H2 & _).
  - intros k [->|H]; [reflexivity|]. revert k H. apply Forall_forall.
    repeat (apply Forall_cons; split; [reflexivity|]). apply Forall_nil. exact I.
  - reflexivity.
  - vm_compute. reflexivity.
  - apply Nat.leb_le. vm_compute. reflexivity.
  - vm_compute. reflexivity.
  - repeat (apply Forall_cons; split; [reflexivity|]). apply Forall_nil. exact I.
  - split; [exact H1|]. change (unsigned sample_message) with
      (mkTx (signatures (unsigned sample_message)) (serialize sample_message)).
    rewrite H2. vm_compute. reflexivity.
Defined.

(** Compact-u16: every [u16] decodes back from its encoding, whatever
    follows, with the bytes it took; and what decodes at all is a [u16] read
    from one to three bytes that are there. *)
Theorem compact_u16_round_trips :
  (∀ n rest, 0 ≤ n ≤ u16_max →
    decode_compact_u16 (encode_compact_u16 n ++ rest) = Some (n, length (encode_compact_u16 n))) ∧
  (∀ bytes v k, decode_compact_u16 bytes = Some (v, k) →
    0 ≤ v ≤ u16_max ∧ (1 ≤ k ≤ 3)%nat ∧ (k ≤ length bytes)%nat).
Proof. exact (conj decode_encode_compact decode_compact_bounds). Qed.

Lemma compact_u16_round_trips_witness :
  decode_compact_u16 (encode_compact_u16 16384 ++ [7]) = Some (16384, 3%nat)
  ∧ decode_compact_u16 [255; 255; 3] = Some (65535, 3%nat) ∧ decode_compact_u16 [255; 255; 4] = None.
Proof.
  split; [|vm_compute; split; reflexivity].
  change 3%nat with (length (encode_compact_u16 16384)).
  apply (proj1 compact_u16_round_trips). ilia.
Defined.

Lemma compile_orders_the_keys_witness :
  head (account_keys sample_message) = Some (sample_pubkey 9)
  ∧ (signs (sample_pubkey 9) (mentions sample_ixs) (sample_pubkey 3) = true
     ↔ Z.of_nat 1 < num_required_signatures (header sample_message)).
Proof.
  destruct (compile_orders_the_keys (sample_pubkey 9) sample_ixs (sample_pubkey 7)) as (r & E & H).
  assert (E' : compile (sample_pubkey 9) sample_ixs (sample_pubkey 7) = Some (Ok sample_message))
    by (vm_compute; reflexivity).
  rewrite E' in E. injection E as <-. destruct H as (H1 & _ & _ & _ & _ & H6).
  split; [exact H1|].
  refine (proj1 (H6 _ 1%nat (sample_pubkey 3) _)); [apply Nat.leb_le|]; vm_compute; reflexivity.
Defined.
