(* ===== verification/SolanaIx.v ===== *)
(** * The small instructions a wallet sends ([src/src/domain/solana_tx.rs])

    System, SPL Token, associated-token and ComputeBudget instructions over the
    ids of SolanaKeys; [None] is the panic of [ids::key]. *)

From Stdlib Require Import Ascii String.
From S2P Require Import Prelude.
From S2P Require Import Text.
From S2P Require Import Base58.
From S2P Require Import SolanaKeys.
From S2P Require Import Solana.
From S2P Require Import SolanaProps.

#[local] Open Scope list_scope.
#[local] Open Scope Z_scope.

Section builders.
(** [{:?}] of a [char]. *)
Context (debug_char : ascii → string).

Definition system_transfer (from to : Pubkey) (lamports : Z) : option Instruction :=
program ← ids.key debug_char ids.SYSTEM;
Some (mkIx program [meta_writable from true; meta_writable to false]
        (le_bytes 4 2 ++ le_bytes 8 lamports)).

Definition spl_sync_native (account : Pubkey) : option Instruction :=
program ← ids.key debug_char ids.TOKEN;
Some (mkIx program [meta_writable account false] [17]).

Definition spl_close_account (account destination owner token_program : Pubkey) : Instruction :=
mkIx token_program
  [meta_writable account false; meta_writable destination false; meta_readonly owner true] [9].

Definition ata_create_idempotent (payer ata owner mint token_program : Pubkey) : option Instruction :=
program ← ids.key debug_char ids.ATA;
system ← ids.key debug_char ids.SYSTEM;
Some (mkIx program
  [meta_writable payer true; meta_writable ata false; meta_readonly owner false;
   meta_readonly mint false; meta_readonly system false; meta_readonly token_program false] [1]).

Definition cu_limit (units : Z) : option Instruction :=
program ← ids.key debug_char ids.COMPUTE_BUDGET;
Some (mkIx program [] (2 :: le_bytes 4 units)).

Definition cu_price (micro_lamports : Z) : option Instruction :=
program ← ids.key debug_char ids.COMPUTE_BUDGET;
Some (mkIx program [] (3 :: le_bytes 8 micro_lamports)).

(** ** What a wallet sends *)

#[local] Opaque ids.key.

(** The instructions of a wallet for itself. *)
Inductive own (wallet : Pubkey) : Instruction → Prop :=
| own_transfer to lamports ix : system_transfer wallet to lamports = Some ix → own wallet ix
| own_sync account ix : spl_sync_native account = Some ix → own wallet ix
| own_close account destination token_program :
    own wallet (spl_close_account account destination wallet token_program)
| own_ata ata owner mint token_program ix :
    ata_create_idempotent wallet ata owner mint token_program = Some ix → own wallet ix
| own_limit units ix : cu_limit units = Some ix → own wallet ix
| own_price micro_lamports ix : cu_price micro_lamports = Some ix → own wallet ix.

Lemma le_value_bytes n x : le_value 256 (le_bytes n x) = x mod 256 ^ Z.of_nat n.
Proof.
revert x. induction n as [|n IH]; intros x; [cbn; by rewrite Z.mod_1_r|].
cbn [le_bytes le_value]. rewrite IH, Nat2Z.inj_succ, Z.pow_succ_r by lia.
rewrite Z.rem_mul_r by lia. done.
Qed.

(** The builder [f], once its program's id is read. *)
Ltac open_key E f id :=
unfold f, mbind, option_bind in E;
destruct (ids.key debug_char id); [|discriminate E].

(** Each meta in turn: a signer is the wallet. *)
Ltac metas :=
cbn [accounts spl_close_account];
repeat (apply Forall_cons; split; [intros Hm; (reflexivity || discriminate Hm)|]);
apply Forall_nil; exact I.

(** Only the wallet signs its own instructions. *)
Lemma own_signer wallet ix m :
own wallet ix → m ∈ accounts ix → is_signer m = true → pubkey m = wallet.
Proof.
intros H Hm Hs.
enough (Forall (λ m, is_signer m = true → pubkey m = wallet) (accounts ix)) as A.
{ rewrite Forall_forall in A. by apply A. }
clear m Hm Hs. destruct H as [to l ix E|a ix E| |ata o mi tp ix E|u ix E|u ix E].
- open_key E system_transfer ids.SYSTEM. apply (inj Some) in E as <-. metas.
- open_key E spl_sync_native ids.TOKEN. apply (inj Some) in E as <-. metas.
- metas.
- open_key E ata_create_idempotent ids.ATA. destruct (ids.key debug_char ids.SYSTEM); [|discriminate E].
  apply (inj Some) in E as <-. metas.
- open_key E cu_limit ids.COMPUTE_BUDGET. apply (inj Some) in E as <-. metas.
- open_key E cu_price ids.COMPUTE_BUDGET. apply (inj Some) in E as <-. metas.
Qed.

Lemma only_payer_signs payer ixs k :
Forall (own payer) ixs → signs payer (mentions ixs) k = true → k = payer.
Proof.
intros H. unfold signs. rewrite orb_true_iff, bool_decide_eq_true, existsb_exists.
intros [?|(m & Hm & [Hk Hs]%andb_prop)]; [done|]. apply bool_decide_eq_true in Hk as <-.
unfold mentions in Hm. apply in_concat in Hm as (l & Hl & Hm). apply in_map_iff in Hl as (ix & <- & Hix).
destruct Hm as [<-|Hm]; [done|]. rewrite Forall_forall in H.
eapply own_signer; [apply H; by apply list_elem_of_In|by apply list_elem_of_In|done].
Qed.

(** A list without duplicates of nothing but [x]. *)
Lemma nodup_only {A} (x : A) l : NoDup l → x ∈ l → (∀ y, y ∈ l → y = x) → l = [x].
Proof.
intros Hn Hx Hy. destruct l as [|a l]; [by apply elem_of_nil in Hx|].
rewrite (Hy a ltac:(constructor)) in *. f_equal. destruct l as [|b l]; [done|].
rewrite (Hy b ltac:(repeat constructor)) in Hn. apply NoDup_cons in Hn as [[] _]. constructor.
Qed.

(** What a wallet sends for itself needs its signature alone: the message
  compiled of any transfers, closes, token-account creations and budget
  settings of a wallet has one required signature, of its first key, the
  wallet, which is writable; and the amount of a transfer, of a limit and of a
  price stands in the data as it was asked, on 8, 4 and 8 bytes. *)
Theorem own_instructions_need_one_signature wallet ixs bh m :
Forall (own wallet) ixs → compile wallet ixs bh = Some (Ok m) →
num_required_signatures (header m) = 1 ∧ num_readonly_signed (header m) = 0
∧ head (account_keys m) = Some wallet
∧ (∀ to x, 0 ≤ x ≤ u64_max → ∃ ix, system_transfer wallet to x = Some ix
    ∧ data ix = [2; 0; 0; 0] ++ drop 4 (data ix) ∧ le_value 256 (drop 4 (data ix)) = x)
∧ (∀ x, 0 ≤ x ≤ u32_max → ∃ ix, cu_limit x = Some ix ∧ le_value 256 (drop 1 (data ix)) = x)
∧ (∀ x, 0 ≤ x ≤ u64_max → ∃ ix, cu_price x = Some ix ∧ le_value 256 (drop 1 (data ix)) = x).
Proof.
intros Hown E. destruct (compile_spec wallet ixs bh) as (r & E' & H).
rewrite E in E'. injection E' as <-. destruct H as (_ & Ha & _ & _ & Hh).
rewrite collect_keys_mentions in Ha, Hh. set (keys := fold_left upsert_meta _ _) in *.
assert (Hs : ∀ w k, k ∈ part keys true w → k = wallet ∧ w = true).
{ intros w k Hk. apply in_parts in Hk as (_ & Hs & ->). symmetry in Hs.
  apply only_payer_signs in Hs as ->; [|done]. unfold writes. by rewrite bool_decide_true. }
assert (Htt : part keys true true = [wallet]).
{ apply nodup_only.
  - apply part_nodup. apply (fold_upsert wallet (mentions ixs)).
  - apply in_parts. unfold signs, writes. rewrite bool_decide_true by done. split; [by left|done].
  - intros k Hk. by apply (Hs true). }
assert (Htf : part keys true false = []).
{ destruct (part keys true false) as [|k l] eqn:Ef; [done|]. destruct (Hs false k) as [_ [=]].
  rewrite Ef. constructor. }
rewrite Hh, Htt, Htf. cbn [num_required_signatures num_readonly_signed].
split; [reflexivity|]. split; [reflexivity|].
split; [rewrite Ha; apply ordered_head|].
destruct (ids_parse debug_char ids.SYSTEM) as (p & Hp & _).
{ apply list_elem_of_lookup. exists 0%nat. reflexivity. }
destruct (ids_parse debug_char ids.COMPUTE_BUDGET) as (q & Hq & _).
{ apply list_elem_of_lookup. exists 11%nat. reflexivity. }
unfold system_transfer, cu_limit, cu_price. rewrite Hp, Hq. cbn [mbind option_bind].
split; [|split]; intros; (eexists; split; [reflexivity|]); cbn [data].
- split; [reflexivity|]. change (drop 4 (le_bytes 4 2 ++ ?l)) with l. rewrite le_value_bytes.
  apply Z.mod_small. unfold u64_max in *. lia.
- change (drop 1 (?a :: ?l)) with l. rewrite le_value_bytes. apply Z.mod_small. unfold u32_max in *. lia.
- change (drop 1 (?a :: ?l)) with l. rewrite le_value_bytes. apply Z.mod_small. unfold u64_max in *. lia.
Qed.
End builders.

Definition sample_own : list Instruction :=
  match cu_price (λ _, EmptyString) 5, system_transfer (λ _, EmptyString) (sample_pubkey 9) (sample_pubkey 2) 7 with
  | Some a, Some b => [a; b; spl_close_account (sample_pubkey 3) (sample_pubkey 9) (sample_pubkey 9) (sample_pubkey 4)]
  | _, _ => []
  end.
Definition sample_own_message : LegacyMessage :=
  match compile (sample_pubkey 9) sample_own (sample_pubkey 7) with
  | Some (Ok m) => m
  | _ => mkLegacy (mkHeader 0 0 0) [] [] []
  end.

Lemma own_instructions_need_one_signature_witness :
  num_required_signatures (header sample_own_message) = 1 ∧ length (account_keys sample_own_message) = 6%nat.
Proof.
  split; [|vm_compute; reflexivity].
  refine (proj1 (own_instructions_need_one_signature (λ _, EmptyString) (sample_pubkey 9) sample_own
    (sample_pubkey 7) sample_own_message _ _)); [|vm_compute; reflexivity].
  unfold sample_own.
  destruct (cu_price (λ _, EmptyString) 5) as [a|] eqn:Ea; [|apply Forall_nil; exact I].
  destruct (system_transfer (λ _, EmptyString) (sample_pubkey 9) (sample_pubkey 2) 7) as [b|] eqn:Eb;
    [|apply Forall_nil; exact I].
  apply Forall_cons; split; [exact (own_price _ _ 5 a Ea)|].
  apply Forall_cons; split; [exact (own_transfer _ _ _ 7 b Eb)|].
  apply Forall_cons; split; [apply own_close|apply Forall_nil; exact I].
Defined.
