(* ===== verification/A2aModel.v ===== *)
(** * The A2A data model and its JSON-RPC binding
    ([src/src/domain/a2a/model.rs], [src/src/domain/a2a/rpc.rs])

    States, roles, parts, tasks and messages; methods and their names in both
    dialects, the error objects, the envelope of a request and the negotiation
    of [A2A-Version]. Reading and writing the types as JSON is serde's. *)

From Stdlib Require Import Ascii String.
From S2P Require Import Prelude.
From S2P Require Import Text.
From S2P Require Import Bytes.
From S2P Require Import Substr.
From S2P Require Import Json.

#[local] Open Scope string_scope.
#[local] Open Scope list_scope.
#[local] Open Scope Z_scope.

Definition PROTOCOL_VERSION : string := "1.0".
Definition LEGACY_VERSION : string := "0.3".

(** ** Roles and states *)

Inductive Role : Type := RoleUnspecified | RoleUser | RoleAgent.
#[export] Instance role_eq_dec : EqDecision Role.
Proof. solve_decision. Defined.

Definition role_proto_name (r : Role) : string :=
  match r with
  | RoleUnspecified => "ROLE_UNSPECIFIED"
  | RoleUser => "ROLE_USER"
  | RoleAgent => "ROLE_AGENT"
  end.
Definition role_v03_name (r : Role) : string := match r with RoleAgent => "agent" | _ => "user" end.
Definition role_parse (s : string) : Role :=
  if String.eqb s "ROLE_USER" || String.eqb s "user" then RoleUser
  else if String.eqb s "ROLE_AGENT" || String.eqb s "agent" then RoleAgent
  else RoleUnspecified.

Inductive TaskState : Type :=
  | Unspecified | Submitted | Working | Completed | Failed | Canceled | InputRequired | Rejected | AuthRequired.
#[export] Instance task_state_eq_dec : EqDecision TaskState.
Proof. solve_decision. Defined.

Definition TaskState_ALL : list TaskState :=
  [Submitted; Working; Completed; Failed; Canceled; InputRequired; Rejected; AuthRequired].

Definition proto_name (s : TaskState) : string :=
  match s with
  | Unspecified => "TASK_STATE_UNSPECIFIED"
  | Submitted => "TASK_STATE_SUBMITTED"
  | Working => "TASK_STATE_WORKING"
  | Completed => "TASK_STATE_COMPLETED"
  | Failed => "TASK_STATE_FAILED"
  | Canceled => "TASK_STATE_CANCELED"
  | InputRequired => "TASK_STATE_INPUT_REQUIRED"
  | Rejected => "TASK_STATE_REJECTED"
  | AuthRequired => "TASK_STATE_AUTH_REQUIRED"
  end.
Definition v03_name (s : TaskState) : string :=
  match s with
  | Unspecified => "unknown"
  | Submitted => "submitted"
  | Working => "working"
  | Completed => "completed"
  | Failed => "failed"
  | Canceled => "canceled"
  | InputRequired => "input-required"
  | Rejected => "rejected"
  | AuthRequired => "auth-required"
  end.

Definition state_parse (s : string) : option TaskState :=
  match List.find (λ t, String.eqb (proto_name t) s || String.eqb (v03_name t) s) (Unspecified :: TaskState_ALL) with
  | Some t => Some t
  | None => if String.eqb s "cancelled" then Some Canceled else None
  end.

Definition is_terminal (s : TaskState) : bool :=
  match s with Completed | Failed | Canceled | Rejected => true | _ => false end.
Definition is_interrupted (s : TaskState) : bool :=
  match s with InputRequired | AuthRequired => true | _ => false end.
Definition is_settled (s : TaskState) : bool := is_terminal s || is_interrupted s.

(** ** Parts, messages, tasks *)

Notation JsonMap := (list (string * json)).

Record Part : Type := mkPart {
  p_text : option string;
  p_raw : option string;
  p_url : option string;
  p_data : option json;
  p_metadata : option JsonMap;
  p_filename : option string;
  p_media_type : option string;
}.

Inductive PartKind : Type := KText | KRaw | KUrl | KData.

Definition part_text (text : string) : Part := mkPart (Some text) None None None None None None.

Definition is_some {A} (o : option A) : bool := match o with Some _ => true | None => false end.

Definition part_kind (p : Part) : option PartKind :=
  let set := [(is_some (p_text p), KText); (is_some (p_raw p), KRaw); (is_some (p_url p), KUrl);
              (is_some (p_data p), KData)] in
  match map snd (List.filter fst set) with [k] => Some k | _ => None end.

Record Message : Type := mkMessage {
  message_id : string;
  m_context_id : option string;
  m_task_id : option string;
  role : Role;
  parts : list Part;
  m_metadata : option JsonMap;
  extensions : list string;
  reference_task_ids : list string;
}.

Definition agent_text (message_id text : string) : Message :=
  mkMessage message_id None None RoleAgent [part_text text] None [] [].

Record TaskStatus : Type := mkStatus {
  state : TaskState;
  status_message : option Message;
  timestamp : option string;
}.

Record Artifact : Type := mkArtifact {
  artifact_id : string;
  a_name : option string;
  a_description : option string;
  a_parts : list Part;
  a_metadata : option JsonMap;
  a_extensions : list string;
}.

Record Task : Type := mkTask {
  t_id : string;
  context_id : string;
  status : TaskStatus;
  artifacts : option (list Artifact);
  history : option (list Message);
  t_metadata : option JsonMap;
}.

(** ** Errors *)

Record RpcError : Type := mkRpc {
  e_code : Z;
  e_message : string;
  e_data : option json;
}.

Definition PARSE_ERROR : Z := -32700.
Definition INVALID_REQUEST : Z := -32600.
Definition METHOD_NOT_FOUND : Z := -32601.
Definition INVALID_PARAMS : Z := -32602.
Definition INTERNAL_ERROR : Z := -32603.
Definition TASK_NOT_FOUND : Z := -32001.
Definition TASK_NOT_CANCELABLE : Z := -32002.
Definition PUSH_NOT_SUPPORTED : Z := -32003.
Definition UNSUPPORTED_OPERATION : Z := -32004.
Definition CONTENT_TYPE_NOT_SUPPORTED : Z := -32005.
Definition INVALID_AGENT_RESPONSE : Z := -32006.
Definition EXTENDED_CARD_NOT_CONFIGURED : Z := -32007.
Definition EXTENSION_SUPPORT_REQUIRED : Z := -32008.
Definition VERSION_NOT_SUPPORTED : Z := -32009.

Definition ERRORS : list (Z * string * string) :=
  [(PARSE_ERROR, "JSONParseError", "PARSE_ERROR");
   (INVALID_REQUEST, "InvalidRequestError", "INVALID_REQUEST");
   (METHOD_NOT_FOUND, "MethodNotFoundError", "METHOD_NOT_FOUND");
   (INVALID_PARAMS, "InvalidParamsError", "INVALID_PARAMS");
   (INTERNAL_ERROR, "InternalError", "INTERNAL");
   (TASK_NOT_FOUND, "TaskNotFoundError", "TASK_NOT_FOUND");
   (TASK_NOT_CANCELABLE, "TaskNotCancelableError", "TASK_NOT_CANCELABLE");
   (PUSH_NOT_SUPPORTED, "PushNotificationNotSupportedError", "PUSH_NOTIFICATION_NOT_SUPPORTED");
   (UNSUPPORTED_OPERATION, "UnsupportedOperationError", "UNSUPPORTED_OPERATION");
   (CONTENT_TYPE_NOT_SUPPORTED, "ContentTypeNotSupportedError", "CONTENT_TYPE_NOT_SUPPORTED");
   (INVALID_AGENT_RESPONSE, "InvalidAgentResponseError", "INVALID_AGENT_RESPONSE");
   (EXTENDED_CARD_NOT_CONFIGURED, "ExtendedAgentCardNotConfiguredError", "EXTENDED_AGENT_CARD_NOT_CONFIGURED");
   (EXTENSION_SUPPORT_REQUIRED, "ExtensionSupportRequiredError", "EXTENSION_SUPPORT_REQUIRED");
   (VERSION_NOT_SUPPORTED, "VersionNotSupportedError", "VERSION_NOT_SUPPORTED")].

(** [json!] of an object. *)
Definition jobj (fields : JsonMap) : json := JObject (fold_left (λ o p, obj_insert (fst p) (snd p) o) fields []).

Definition error_row (code : Z) : option (Z * string * string) :=
  List.find (λ r, fst (fst r) =? code) ERRORS.

Definition rpc_error (code : Z) (message : string) (meta : JsonMap) : RpcError :=
  let reason := match error_row code with Some (_, _, r) => r | None => "ERROR" end in
  let info := [("@type", JString "type.googleapis.com/google.rpc.ErrorInfo"); ("reason", JString reason);
               ("domain", JString "a2a-protocol.org")] in
  let info := match meta with [] => info | _ => info ++ [("metadata", jobj meta)] end in
  mkRpc code message (Some (JArray [jobj info])).

Definition error_name (e : RpcError) : string :=
  match error_row (e_code e) with
  | Some (_, n, _) => n
  | None => ("error " +:+ show_Z (e_code e))%string
  end.

Definition parse_error (why : string) : RpcError := rpc_error PARSE_ERROR why [].
Definition invalid_request (why : string) : RpcError := rpc_error INVALID_REQUEST why [].
Definition method_not_found (method why : string) : RpcError :=
  rpc_error METHOD_NOT_FOUND ("Method not found: " +:+ method +:+ why) [("method", JString method)].
Definition invalid_params (field why : string) : RpcError :=
  mkRpc INVALID_PARAMS ("Invalid parameters: " +:+ field +:+ ": " +:+ why)
    (Some (JArray [jobj [("@type", JString "type.googleapis.com/google.rpc.BadRequest");
                         ("fieldViolations", JArray [jobj [("field", JString field); ("description", JString why)]])]])).
Definition internal (why : string) : RpcError := rpc_error INTERNAL_ERROR why [].
Definition task_not_found (id : string) : RpcError :=
  rpc_error TASK_NOT_FOUND "Task not found" [("taskId", JString id)].
Definition not_cancelable (id state : string) : RpcError :=
  rpc_error TASK_NOT_CANCELABLE ("Task is not cancelable: it is " +:+ state)
    [("taskId", JString id); ("state", JString state)].
Definition unsupported (why : string) : RpcError := rpc_error UNSUPPORTED_OPERATION why [].
Definition push_not_supported : RpcError :=
  rpc_error PUSH_NOT_SUPPORTED "Push notifications are not supported by this agent" [].
Definition content_type (why : string) : RpcError := rpc_error CONTENT_TYPE_NOT_SUPPORTED why [].
Definition version_not_supported (asked : string) : RpcError :=
  rpc_error VERSION_NOT_SUPPORTED
    ("A2A protocol version " +:+ asked +:+ " is not supported (supported: " +:+ PROTOCOL_VERSION +:+ ", "
     +:+ LEGACY_VERSION +:+ ")")
    [("requestedVersion", JString asked);
     ("supportedVersions", JString (PROTOCOL_VERSION +:+ "," +:+ LEGACY_VERSION))].

(** ** Methods *)

Inductive Method : Type :=
  | SendMessage | SendStreamingMessage | GetTask | ListTasks | CancelTask | SubscribeToTask
  | CreatePushConfig | GetPushConfig | ListPushConfigs | DeletePushConfig | GetExtendedAgentCard.
#[export] Instance method_eq_dec : EqDecision Method.
Proof. solve_decision. Defined.

Inductive Dialect : Type := V1 | V03.
#[export] Instance dialect_eq_dec : EqDecision Dialect.
Proof. solve_decision. Defined.

Definition dialect_version (d : Dialect) : string :=
  match d with V1 => PROTOCOL_VERSION | V03 => LEGACY_VERSION end.

Definition METHODS : list (Method * string * option string) :=
  [(SendMessage, "SendMessage", Some "message/send");
   (SendStreamingMessage, "SendStreamingMessage", Some "message/stream");
   (GetTask, "GetTask", Some "tasks/get");
   (ListTasks, "ListTasks", None);
   (CancelTask, "CancelTask", Some "tasks/cancel");
   (SubscribeToTask, "SubscribeToTask", Some "tasks/resubscribe");
   (CreatePushConfig, "CreateTaskPushNotificationConfig", Some "tasks/pushNotificationConfig/set");
   (GetPushConfig, "GetTaskPushNotificationConfig", Some "tasks/pushNotificationConfig/get");
   (ListPushConfigs, "ListTaskPushNotificationConfigs", Some "tasks/pushNotificationConfig/list");
   (DeletePushConfig, "DeleteTaskPushNotificationConfig", Some "tasks/pushNotificationConfig/delete");
   (GetExtendedAgentCard, "GetExtendedAgentCard", Some "agent/getAuthenticatedExtendedCard")].

Definition method_name (m : Method) (d : Dialect) : option string :=
  '(_, v1, v03) ← List.find (λ r, bool_decide (fst (fst r) = m)) METHODS;
  match d with V1 => Some v1 | V03 => v03 end.

Fixpoint method_parse_in (rows : list (Method * string * option string)) (name : string)
    : option (Method * Dialect) :=
  match rows with
  | [] => None
  | (m, v1, v03) :: rows =>
      if String.eqb v1 name then Some (m, V1)
      else if match v03 with Some n => String.eqb n name | None => false end then Some (m, V03)
      else method_parse_in rows name
  end.
Definition method_parse (name : string) : option (Method * Dialect) := method_parse_in METHODS name.

(** ** Envelopes *)

Record Incoming : Type := mkIncoming {
  in_id : json;
  in_method : string;
  in_params : json;
}.

Definition as_str (v : json) : option string := match v with JString s => Some s | _ => None end.

(** [parse_request] of the value the body parses to, or of the parser's error;
    an [Err] carries the id to answer with. *)
Definition parse_request (body : json + string) : result (json * RpcError) Incoming :=
  match body with
  | inr e => Err (JNull, parse_error ("Invalid JSON payload: " +:+ e))
  | inl (JObject obj) =>
      let id := default JNull (obj_get "id" obj) in
      let valid_id := match id with JString _ | JNumber _ => true | _ => false end in
      if negb (bool_decide (obj_get "jsonrpc" obj ≫= as_str = Some "2.0")) then
        Err (if valid_id then id else JNull,
             invalid_request (String.append "Request payload validation error: `jsonrpc` must be " (quote +:+ "2.0" +:+ quote)))
      else if negb valid_id then
        Err (JNull, invalid_request "Request payload validation error: `id` must be a string or a number")
      else
        match obj_get "method" obj ≫= as_str with
        | None => Err (id, invalid_request "Request payload validation error: `method` must be a string")
        | Some method =>
            match obj_get "params" obj with
            | None | Some JNull => Ok (mkIncoming id method (JObject []))
            | Some (JObject p) => Ok (mkIncoming id method (JObject p))
            | Some _ => Err (id, invalid_params "params" "must be an object")
            end
        end
  | inl _ =>
      Err (JNull, invalid_request "Request payload validation error: not an object (batches are not supported)")
  end.

(** ** Versions *)

(** [s.parse()] of an unsigned integer up to [max]. *)
Definition parse_uint (max : Z) (s : string) : option Z :=
  let s := match s with String "+" r => r | _ => s end in
  if str_is_empty s || negb (str_forall is_ascii_digit s) then None
  else if parse_dec 0 s <=? max then Some (parse_dec 0 s) else None.

Definition major_minor (version : string) : option (Z * Z) :=
  match split_str "." (trim version) with
  | [] => None
  | ma :: rest =>
      major ← parse_uint u32_max ma;
      minor ← match rest with [] => Some 0 | mi :: _ => parse_uint u32_max mi end;
      Some (major, minor)
  end.

Inductive VersionAsk : Type := AskAbsent | Speaks (d : Dialect) | AskUnsupported (v : string).

Definition version_ask (header : option string) : VersionAsk :=
  match header with
  | None => AskAbsent
  | Some h =>
      let raw := trim h in
      if str_is_empty raw then AskAbsent
      else
        match major_minor raw with
        | Some (1, _) => Speaks V1
        | Some (0, 3) => Speaks V03
        | _ => AskUnsupported raw
        end
  end.

Definition negotiate (header : option string) (method : string) : result RpcError (Method * Dialect) :=
  match version_ask header, method_parse method with
  | AskUnsupported v, _ => Err (version_not_supported v)
  | _, None => Err (method_not_found method "")
  | AskAbsent, Some found => Ok found
  | Speaks want, Some (m, d) =>
      if decide (want = d) then Ok (m, d)
      else Err (method_not_found method (" (not a method of A2A " +:+ dialect_version want +:+ ")"))
  end.
