(* ===== verification/A2aModelProps.v ===== *)
(** * Names and versions of A2A *)

From Stdlib Require Import Ascii String.
From S2P Require Import Prelude.
From S2P Require Import Text.
From S2P Require Import Bytes.
From S2P Require Import Substr.
From S2P Require Import Json.
From S2P Require Import A2aModel.

#[local] Open Scope string_scope.
#[local] Open Scope list_scope.
#[local] Open Scope Z_scope.

Lemma method_parse_in_sound rows name m d :
  method_parse_in rows name = Some (m, d) →
  ∃ v1 v03, (m, v1, v03) ∈ rows ∧ match d with V1 => Some v1 | V03 => v03 end = Some name.
Proof.
  induction rows as [|[[m' v1] v03] rows IH]; cbn [method_parse_in]; [done|].
  destruct (String.eqb_spec v1 name) as [->|N].
  { intros [= -> <-]. exists name, v03. split; [constructor|done]. }
  destruct v03 as [n|]; [destruct (String.eqb_spec n name) as [->|N']|].
  - intros [= -> <-]. exists v1, (Some name). split; [constructor|done].
  - intros H. destruct (IH H) as (a & b & Hin & Hn). exists a, b. split; [by constructor|done].
  - intros H. destruct (IH H) as (a & b & Hin & Hn). exists a, b. split; [by constructor|done].
Qed.

Lemma name_of_row m v1 v03 d name :
  (m, v1, v03) ∈ METHODS → match d with V1 => Some v1 | V03 => v03 end = Some name → method_name m d = Some name.
Proof.
  assert (A : forallb (λ r, match method_name (fst (fst r)) V1 with
                            | Some n => String.eqb n (snd (fst r)) | None => false end
                            && match method_name (fst (fst r)) V03, snd r with
                               | Some n, Some n' => String.eqb n n' | None, None => true | _, _ => false end)
                METHODS = true) by (vm_compute; reflexivity).
  rewrite forallb_forall in A. intros Hin. rewrite list_elem_of_In in Hin. apply A in Hin. cbn [fst snd] in Hin.
  apply andb_prop in Hin as [H1 H2]. destruct d.
  - intros [= <-]. destruct (method_name m V1) as [n|]; [|done]. apply String.eqb_eq in H1. congruence.
  - intros ->. destruct (method_name m V03) as [n|]; [|done]. apply String.eqb_eq in H2. congruence.
Qed.

Lemma method_round_trip m d name : method_name m d = Some name ↔ method_parse name = Some (m, d).
Proof.
  split.
  - destruct d, m; cbn [method_name METHODS]; vm_compute; intros H; inversion H; reflexivity.
  - intros H. apply method_parse_in_sound in H as (v1 & v03 & Hin & Hn). by eapply name_of_row.
Qed.

(** The dialect of an answer is the client's: a method and a dialect have
    one name, if any, and that name means nothing else; both spellings of every
    state read back as it; and [negotiate] answers in the method's own dialect,
    which is the one the version header asks for when there is one, so that a
    method of the other dialect is not found under it, and refuses any version
    but 1.x and 0.3. *)
Theorem negotiation_is_unambiguous :
  (∀ m d name, method_name m d = Some name ↔ method_parse name = Some (m, d)) ∧
  (∀ s, state_parse (proto_name s) = Some s ∧ state_parse (v03_name s) = Some s) ∧
  (∀ header name m d, negotiate header name = Ok (m, d) ↔
     method_name m d = Some name ∧
     (version_ask header = AskAbsent ∨ version_ask header = Speaks d)) ∧
  (∀ header name e, negotiate header name = Err e →
     e_code e = VERSION_NOT_SUPPORTED ∨ e_code e = METHOD_NOT_FOUND).
Proof.
  split_and!.
  - apply method_round_trip.
  - intros []; split; reflexivity.
  - intros header name m d. rewrite method_round_trip. unfold negotiate.
    destruct (version_ask header) as [|want|v].
    + destruct (method_parse name) as [[m' d']|].
      * split; [intros [= -> ->]; by split; [|left]|by intros [[= -> ->] _]].
      * split; [done|by intros [? _]].
    + destruct (method_parse name) as [[m' d']|]; [|split; [done|by intros [? _]]].
      destruct (decide (want = d')) as [->|N].
      * split; [intros [= -> ->]; by split; [|right]|by intros [[= -> ->] _]].
      * split; [done|]. intros [[= -> ->] [?|[= ->]]]; done.
    + split; [done|]. by intros [_ [?|?]].
  - intros header name e. unfold negotiate. destruct (version_ask header) as [|want|v].
    + destruct (method_parse name) as [[m' d']|]; [done|]. intros [= <-]. by right.
    + destruct (method_parse name) as [[m' d']|].
      * destruct (decide _); [done|]. intros [= <-]. by right.
      * intros [= <-]. by right.
    + intros [= <-]. by left.
Qed.

Lemma negotiation_is_unambiguous_witness :
  negotiate (Some "1.0.1") "GetTask" = Ok (GetTask, V1) ∧ negotiate (Some "0.3") "GetTask" ≠ Ok (GetTask, V1)
  ∧ version_ask (Some "2.0") = AskUnsupported "2.0".
Proof.
  split; [|split; [vm_compute; discriminate|reflexivity]].
  apply negotiation_is_unambiguous. split; [reflexivity|right; reflexivity].
Defined.
