(* ===== verification/A2aStore.v ===== *)
(** * The A2A task store ([src/src/application/a2a/tasks.rs])

    The tasks and contexts of one server, and what a message's parts say. The
    watch channel of an entry is its latest value [e_feed]; its abort handle is
    the name of the run it stops. The chrono conversions of times, base64 and
    the pretty printer of JSON are parameters. *)

From Stdlib Require Import Ascii String.
From S2P Require Import Prelude.
From S2P Require Import Ordered.
From S2P Require Import Text.
From S2P Require Import Bytes.
From S2P Require Import Substr.
From S2P Require Import Json.
From S2P Require Import A2aModel.

#[local] Open Scope string_scope.
#[local] Open Scope list_scope.
#[local] Open Scope Z_scope.

Inductive A2aTarget : Type := Planner | Agent (name : string).
#[export] Instance target_eq_dec : EqDecision A2aTarget.
Proof. solve_decision. Defined.
#[export] Instance target_countable : Countable A2aTarget.
Proof.
  apply (inj_countable' (λ t, match t with Planner => None | Agent n => Some n end)
    (λ o, match o with None => Planner | Some n => Agent n end)). by intros [].
Defined.

Definition label (t : A2aTarget) : string :=
  match t with Planner => "planner" | Agent a => "agent:" +:+ a end.

Record Entry : Type := mkEntry {
  target : A2aTarget;
  task : Task;
  updated_ms : Z;
  e_feed : Task;
  abort : option string;
}.

Notation Turn := (string * string)%type.

Record Store : Type := mkStore {
  tasks : gmap string Entry;
  contexts : gmap (A2aTarget * string) (list Turn);
}.

Definition store_default : Store := mkStore ∅ ∅.

Definition get (s : Store) (t : A2aTarget) (id : string) : result RpcError Entry :=
  match tasks s !! id with
  | Some e => if decide (target e = t) then Ok e else Err (task_not_found id)
  | None => Err (task_not_found id)
  end.

(** ** Room *)

(** The order of [min_by_key(|(id, e)| (e.updated_ms, id))]. *)
Definition age_cmp (a b : string * Entry) : comparison :=
  cmp_then (updated_ms (snd a) ?= updated_ms (snd b)) (str_cmp (fst a) (fst b)).

Definition settled_tasks (s : Store) : list (string * Entry) :=
  List.filter (λ p, is_settled (state (status (task (snd p))))) (map_to_list (tasks s)).

Definition busy (max_tasks : nat) : RpcError :=
  internal ("busy: " +:+ show_N (Z.of_nat max_tasks) +:+ " unfinished tasks — retry later").

(** [while self.tasks.len() >= max_tasks]: each turn removes a task. *)
Fixpoint make_room_go (fuel : nat) (max_tasks : nat) (s : Store) : result RpcError unit * Store :=
  match fuel with
  | O => (Ok tt, s)
  | S fuel =>
      if (max_tasks <=? size (tasks s))%nat then
        match min_by age_cmp (settled_tasks s) with
        | Some (id, _) => make_room_go fuel max_tasks (mkStore (delete id (tasks s)) (contexts s))
        | None => (Err (busy max_tasks), s)
        end
      else (Ok tt, s)
  end.
Definition make_room (max_tasks : nat) (s : Store) : result RpcError unit * Store :=
  make_room_go (S (size (tasks s))) max_tasks s.

(** ** Contexts *)

Definition store_history (s : Store) (t : A2aTarget) (context_id : string) : list Turn :=
  default [] (contexts s !! (t, context_id)).

(** [while d.len() > keep { d.pop_front(); }]. *)
Definition remember (s : Store) (t : A2aTarget) (context_id : string) (turn : Turn) (keep : nat) : Store :=
  match keep with
  | O => s
  | _ =>
      let d := store_history s t context_id ++ [turn] in
      mkStore (tasks s) (<[(t, context_id) := drop (length d - keep) d]> (contexts s))
  end.

(** ** Updates *)

Section store.
(** [domain/a2a/mod.rs]: [iso_ms] and [parse_iso_ms], chrono's. *)
Context (iso_ms : Z → string) (parse_iso_ms : string → option Z).

Definition update (s : Store) (id : string) (now_ms : Z) (f : Task → Task) : bool * Store :=
match tasks s !! id with
| None => (false, s)
| Some e =>
    if is_terminal (state (status (task e))) then (false, s)
    else
      let t := f (task e) in
      let t := mkTask (t_id t) (context_id t)
                 (mkStatus (state (status t)) (status_message (status t)) (Some (iso_ms now_ms)))
                 (artifacts t) (history t) (t_metadata t) in
      (true, mkStore (<[id := mkEntry (target e) t now_ms t (abort e)]> (tasks s)) (contexts s))
end.

(** ** Lists *)

Definition check_history_length (n : option Z) : result RpcError unit :=
match n with
| Some n =>
    if n <? 0 then
      Err (invalid_params "historyLength" ("must be a non-negative integer, got " +:+ show_Z n))
    else Ok tt
| None => Ok tt
end.

(** [n] is not negative: it was checked. *)
Definition with_history (t : Task) (n : option Z) : Task :=
match n with
| None => t
| Some 0 => mkTask (t_id t) (context_id t) (status t) (artifacts t) None (t_metadata t)
| Some n =>
    mkTask (t_id t) (context_id t) (status t) (artifacts t)
      ((λ h, drop (length h - Z.to_nat n) h) <$> history t) (t_metadata t)
end.

Record ListTasksRequest : Type := mkListReq {
r_context_id : option string;
r_status : option string;
page_size : option Z;
page_token : option string;
history_length : option Z;
status_timestamp_after : option string;
include_artifacts : option bool;
}.

Record ListTasksResponse : Type := mkListResp {
r_tasks : list Task;
next_page_token : string;
r_page_size : Z;
total_size : Z;
}.

Definition usize_max : Z := 2 ^ 64 - 1.

(** [filter(|s| !s.is_empty())]. *)
Definition non_empty (o : option string) : option string :=
match o with Some s => if str_is_empty s then None else Some s | None => None end.

Definition status_filter (req : ListTasksRequest) : result RpcError (option TaskState) :=
match non_empty (r_status req) with
| None => Ok None
| Some s =>
    match state_parse s with
    | Some Unspecified | None =>
        Err (invalid_params "status"
               ("invalid status value '" +:+ s +:+ "'; must be one of: "
                +:+ join ", " (map proto_name TaskState_ALL)))
    | Some t => Ok (Some t)
    end
end.

Definition after_filter (req : ListTasksRequest) : result RpcError (option Z) :=
match status_timestamp_after req with
| None => Ok None
| Some s =>
    match parse_iso_ms s with
    | Some t => Ok (Some t)
    | None => Err (invalid_params "statusTimestampAfter" ("not an ISO 8601 time: '" +:+ s +:+ "'"))
    end
end.

Definition page_offset (req : ListTasksRequest) : result RpcError Z :=
match non_empty (page_token req) with
| None => Ok 0
| Some t =>
    match strip_prefix "o" t ≫= parse_uint usize_max with
    | Some n => Ok n
    | None => Err (invalid_params "pageToken" "not a token this server issued")
    end
end.

(** Newest status first, then by id. *)
Definition row_cmp (a b : Entry) : comparison :=
cmp_then (updated_ms b ?= updated_ms a) (str_cmp (t_id (task a)) (t_id (task b))).

Definition map_or {A} (o : option A) (p : A → bool) : bool :=
match o with Some a => p a | None => true end.

Definition row_matches (t : A2aTarget) (context : option string) (status_ : option TaskState) (after : option Z)
  (e : Entry) : bool :=
bool_decide (target e = t)
&& map_or context (λ c, String.eqb (context_id (task e)) c)
&& map_or status_ (λ s, bool_decide (state (status (task e)) = s))
&& map_or after (λ a, a <=? updated_ms e).

Definition list_rows (s : Store) (t : A2aTarget) (context : option string) (status_ : option TaskState)
  (after : option Z) : list Entry :=
sort_by row_cmp (List.filter (row_matches t context status_ after) (map snd (map_to_list (tasks s)))).

Definition row_task (req : ListTasksRequest) (e : Entry) : Task :=
let t := with_history (task e) (history_length req) in
if default false (include_artifacts req) then t
else mkTask (t_id t) (context_id t) (status t) None (history t) (t_metadata t).

(** [skip(n)] of a [usize]. *)
Definition skip_z {A} (n : Z) (l : list A) : list A :=
if Z.of_nat (length l) <=? n then [] else drop (Z.to_nat n) l.

(** [usize]'s sum as a release build computes it. *)
Definition usize_add (a b : Z) : Z := (a + b) mod 2 ^ 64.

Definition list_tasks (s : Store) (t : A2aTarget) (req : ListTasksRequest)
  : result RpcError ListTasksResponse :=
let page_size := default 50 (page_size req) in
if negb (in_range 1 100 page_size) then
  Err (invalid_params "pageSize"
         ("must be between 1 and 100 inclusive, got " +:+ show_Z page_size))
else
  _ ← check_history_length (history_length req);
  status_ ← status_filter req;
  after ← after_filter req;
  offset ← page_offset req;
  let rows := list_rows s t (r_context_id req) status_ after in
  let total := Z.of_nat (length rows) in
  Ok (mkListResp
        (map (row_task req) (take (Z.to_nat page_size) (skip_z offset rows)))
        (if usize_add offset page_size <? total
         then String "o" (show_N (usize_add offset page_size)) else EmptyString)
        page_size total).
End store.

(** ** The text of a message *)

Definition to_lower (s : string) : string := of_bytes (map to_ascii_lowercase (bytes s)).
Definition media_base (m : string) : string := to_lower (trim (default EmptyString (head (split_str ";" m)))).

Definition texty (media_type : option string) : bool :=
  match media_type with
  | None => false
  | Some m =>
      let m := media_base m in
      starts_with "text/" m || String.eqb m "application/json" || ends_with "+json" m
  end.

Definition accepts_text (modes : list string) : bool :=
  match modes with
  | [] => true
  | _ =>
      existsb (λ m,
        let m := media_base m in
        starts_with "text/" m || String.eqb m "*/*" || String.eqb m "application/json" || ends_with "+json" m)
        modes
  end.

Section text.
(** [serde_json::to_string_pretty], base64's decoder with its error's text,
  and [String::from_utf8]. *)
Context (to_string_pretty : json → string).
Context (b64d : string → result string (list ascii)) (from_utf8 : list ascii → option string).

Definition part_field (i : nat) : string := "message.parts[" +:+ show_N (Z.of_nat i) +:+ "]".

Definition part_turn_text (i : nat) (p : Part) : result RpcError string :=
match part_kind p with
| None => Err (invalid_params (part_field i) "a part holds exactly one of text, raw, url, data")
| Some KText => Ok (default EmptyString (p_text p))
| Some KData =>
    Ok ("```json" +:+ nl +:+ to_string_pretty (default JNull (p_data p)) +:+ nl +:+ "```")
| Some KRaw =>
    if texty (p_media_type p) then
      match b64d (trim (default EmptyString (p_raw p))) with
      | Err e => Err (invalid_params (part_field i +:+ ".raw") ("not base64: " +:+ e))
      | Ok b =>
          match from_utf8 b with
          | None => Err (content_type (part_field i +:+ ": the bytes are not UTF-8 text"))
          | Some text =>
              Ok (match p_filename p with
                  | Some f => "[file " +:+ f +:+ "]" +:+ nl +:+ text
                  | None => text
                  end)
          end
      end
    else
      Err (content_type (part_field i +:+ ": media type " +:+ default "(none)" (p_media_type p)
        +:+ " — this agent takes text/plain, application/json and text files"))
| Some KUrl =>
    Err (content_type (part_field i
      +:+ ": file URLs are not fetched — send the content as text or data"))
end.

Definition turn_text (parts : list Part) : result RpcError string :=
match parts with
| [] => Err (invalid_params "message.parts" "at least one part is required")
| _ =>
    out ← collect (λ ip, part_turn_text (fst ip) (snd ip)) (imap pair parts);
    let text := join (nl +:+ nl) out in
    if str_is_empty (trim text)
    then Err (invalid_params "message.parts" "the message has no text")
    else Ok text
end.
End text.
