(* ===== verification/A2aStoreProps.v ===== *)
(** * The task store: room, memory, pages *)

From Stdlib Require Import Ascii String.
From S2P Require Import Prelude.
From S2P Require Import Ordered.
From S2P Require Import Text.
From S2P Require Import Bytes.
From S2P Require Import Substr.
From S2P Require Import Json.
From S2P Require Import A2aModel.
From S2P Require Import A2aStore.

#[local] Open Scope string_scope.
#[local] Open Scope list_scope.
#[local] Open Scope Z_scope.

(** ** Orders *)

#[export] Instance updated_cmp_pre : PreCmp (λ a b : Entry, updated_ms a ?= updated_ms b).
Proof. split; [intros; apply Z.compare_antisym|intros x y z; rewrite !Z.compare_le_iff; lia]. Qed.

#[export] Instance age_cmp_pre : PreCmp age_cmp.
Proof.
  unfold age_cmp. apply (cmp_then_pre (λ a b, updated_ms (snd a) ?= updated_ms (snd b)) (cmp_on fst str_cmp)); [|apply _].
  split; [intros; apply Z.compare_antisym|intros x y z; rewrite !Z.compare_le_iff; lia].
Qed.

#[export] Instance row_cmp_pre : PreCmp row_cmp.
Proof.
  unfold row_cmp.
  apply (cmp_then_pre (λ a b, updated_ms b ?= updated_ms a) (cmp_on (t_id ∘ task) str_cmp)); [|apply _].
  split; [intros; apply Z.compare_antisym|intros x y z; rewrite !Z.compare_le_iff; lia].
Qed.

(** ** Room *)

Lemma settled_tasks_in s id e :
  (id, e) ∈ settled_tasks s ↔ tasks s !! id = Some e ∧ is_settled (state (status (task e))) = true.
Proof.
  unfold settled_tasks. rewrite list_elem_of_In, List.filter_In, <-list_elem_of_In, elem_of_map_to_list. done.
Qed.

(** What [make_room] leaves: a part of the tasks, those gone settled and each
    older than every settled task that stays. *)
Record kept (s s' : Store) : Prop := {
  k_contexts : contexts s' = contexts s;
  k_sub : tasks s' ⊆ tasks s;
  k_gone : ∀ id e, tasks s !! id = Some e → tasks s' !! id = None →
    is_settled (state (status (task e))) = true ∧
    ∀ id' e', tasks s' !! id' = Some e' → is_settled (state (status (task e'))) = true →
      age_cmp (id', e') (id, e) ≠ Lt;
}.

Lemma kept_refl s : kept s s.
Proof. split; [done|done|]. intros id e H1 H2. congruence. Qed.

Lemma kept_evict s id e :
  min_by age_cmp (settled_tasks s) = Some (id, e) →
  kept s (mkStore (delete id (tasks s)) (contexts s)) ∧ tasks s !! id = Some e
  ∧ is_settled (state (status (task e))) = true.
Proof.
  intros H. apply (min_by_spec age_cmp) in H as [Hin Hmin].
  apply settled_tasks_in in Hin as [Hin Hs]. split; [|done].
  split; cbn [tasks contexts]; [done|apply delete_subseteq|].
  intros id' e' H1 H2. destruct (decide (id' = id)) as [->|N]; [|rewrite lookup_delete_ne in H2 by done; congruence].
  assert (e' = e) as -> by congruence. split; [done|]. intros id2 e2 H3 H4. apply Hmin. apply settled_tasks_in.
  split; [|done]. destruct (decide (id2 = id)) as [->|N]; [by rewrite lookup_delete_eq in H3|].
  by rewrite lookup_delete_ne in H3.
Qed.

Lemma kept_trans s1 s2 s3 : kept s1 s2 → kept s2 s3 → kept s1 s3.
Proof.
  intros [C1 S1 G1] [C2 S2 G2]. split; [congruence|by transitivity (tasks s2)|].
  intros id e H1 H3. destruct (tasks s2 !! id) as [e2|] eqn:E2.
  - assert (e2 = e) as -> by (pose proof (lookup_weaken _ _ _ _ E2 S1); congruence).
    by apply G2.
  - destruct (G1 id e H1 E2) as [Hs Hall]. split; [done|]. intros id' e' H' Hs'. apply Hall; [|done].
    by eapply lookup_weaken.
Qed.

Lemma make_room_go_spec fuel max s :
  (size (tasks s) < fuel)%nat →
  let '(r, s') := make_room_go fuel max s in
  kept s s' ∧
  match r with
  | Ok _ => (size (tasks s') < max)%nat ∧ (size (tasks s') = Nat.min (size (tasks s)) (max - 1))%nat
  | Err e => e = busy max ∧ (max ≤ size (tasks s'))%nat
      ∧ ∀ id e, tasks s' !! id = Some e → is_settled (state (status (task e))) = false
  end.
Proof.
  revert s. induction fuel as [|fuel IH]; intros s L; [lia|]. cbn [make_room_go].
  destruct (Nat.leb_spec max (size (tasks s))) as [H|H].
  2: { split; [apply kept_refl|]. lia. }
  destruct (min_by age_cmp (settled_tasks s)) as [[id e]|] eqn:E.
  - apply kept_evict in E as (K & He & _).
    assert (Hsz : size (tasks s) = S (size (delete id (tasks s)))).
    { rewrite (map_size_delete_Some id (tasks s)) by (by eexists).
      assert (size (tasks s) ≠ 0%nat) by (apply map_size_ne_0_lookup; eauto). lia. }
    specialize (IH (mkStore (delete id (tasks s)) (contexts s)) ltac:(cbn; lia)).
    destruct (make_room_go fuel max _) as [r s']. destruct IH as [K' R]. split; [by eapply kept_trans|].
    destruct r; [|done]. cbn [tasks] in R. lia.
  - split; [apply kept_refl|]. split_and!; [done|done|]. intros id e He.
    destruct (is_settled _) eqn:Es; [|done]. apply min_by_none in E.
    assert ((id, e) ∈ settled_tasks s) as Hin by by apply settled_tasks_in. rewrite E in Hin.
    by apply elem_of_nil in Hin.
Qed.

(** ** Decimal tokens *)

Lemma parse_uint_show max n : 0 ≤ n ≤ max → parse_uint max (show_N n) = Some n.
Proof.
  intros H. unfold parse_uint. pose proof (show_N_digits n ltac:(lia)) as Hd.
  pose proof (show_N_nonempty n ltac:(lia)) as He. pose proof (parse_show_N n ltac:(lia)) as Hp.
  destruct (show_N n) as [|a r]; [done|].
  assert (Ha : Ascii.eqb a "+" = false).
  { cbn [str_forall] in Hd. apply andb_prop in Hd as [Hd _]. destruct (Ascii.eqb_spec a "+") as [->|]; done. }
  assert (match String a r with String "+" r => r | _ => String a r end = String a r) as ->.
  { destruct a as [[] [] [] [] [] [] [] []]; try reflexivity. discriminate Ha. }
  rewrite Hd. cbn [str_is_empty orb negb]. rewrite Hp. destruct (Z.leb_spec n max); [done|lia].
Qed.

(** ** Pages *)

Section pages.
Context (iso_ms : Z → string) (parse_iso_ms : string → option Z).
Context (s : Store) (t : A2aTarget).

(** The request with another page token. *)
Definition with_token (req : ListTasksRequest) (token : string) : ListTasksRequest :=
mkListReq (r_context_id req) (r_status req) (page_size req) (Some token) (history_length req)
  (status_timestamp_after req) (include_artifacts req).

(** A client that follows [nextPageToken] to its end: the pages it reads. *)
Fixpoint follow (fuel : nat) (req : ListTasksRequest) : option (list ListTasksResponse) :=
match fuel with
| O => None
| S fuel =>
    match list_tasks parse_iso_ms s t req with
    | Err _ => None
    | Ok page =>
        if str_is_empty (next_page_token page) then Some [page]
        else cons page <$> follow fuel (with_token req (next_page_token page))
    end
end.

(** The rows a request asks for, all pages together. *)
Definition asked_rows (req : ListTasksRequest) : option (list Entry) :=
match status_filter req, after_filter parse_iso_ms req with
| Ok st, Ok after => Some (list_rows s t (r_context_id req) st after)
| _, _ => None
end.

Definition valid_request (req : ListTasksRequest) (rows : list Entry) : Prop :=
1 ≤ default 50 (page_size req) ≤ 100 ∧ is_ok (check_history_length (history_length req)) = true
∧ asked_rows req = Some rows.

Lemma valid_with_token req rows token : valid_request req rows → valid_request (with_token req token) rows.
Proof. done. Qed.

Lemma list_tasks_valid req rows off :
valid_request req rows → page_offset req = Ok off → 0 ≤ off ≤ Z.of_nat (length rows) →
Z.of_nat (length rows) + 100 ≤ usize_max →
let n := default 50 (page_size req) in
list_tasks parse_iso_ms s t req = Ok (mkListResp
  (map (row_task req) (take (Z.to_nat n) (drop (Z.to_nat off) rows)))
  (if off + n <? Z.of_nat (length rows) then String "o" (show_N (off + n)) else EmptyString)
  n (Z.of_nat (length rows))).
Proof.
intros (Hn & Hh & Hr) Hoff Hle Hmax n. unfold list_tasks. fold n in Hn |- *.
rewrite (proj2 (in_range_spec _ _ _) Hn). cbn [negb].
destruct (check_history_length _) as [[]|]; [|done]. cbn [mbind result_bind].
unfold asked_rows in Hr. destruct (status_filter req) as [st|]; [|done]. cbn [mbind result_bind].
destruct (after_filter _ req) as [after|]; [|done]. injection Hr as Hr.
cbn [mbind result_bind]. rewrite Hoff. cbn [mbind result_bind]. rewrite Hr. unfold usize_max in Hmax.
assert (usize_add off n = off + n) as -> by (unfold usize_add; apply Z.mod_small; lia).
f_equal. f_equal. f_equal. f_equal. unfold skip_z.
destruct (Z.leb_spec (Z.of_nat (length rows)) off); [|done]. symmetry. apply drop_ge. lia.
Qed.

Lemma page_offset_token req n :
0 ≤ n ≤ usize_max → page_offset (with_token req (String "o" (show_N n))) = Ok n.
Proof.
intros H. unfold page_offset. cbn [page_token with_token non_empty str_is_empty].
cbn [strip_prefix Ascii.eqb Bool.eqb]. cbn [mbind option_bind].
by rewrite parse_uint_show.
Qed.

Lemma follow_from req rows fuel off :
valid_request req rows → page_offset req = Ok off → 0 ≤ off ≤ Z.of_nat (length rows) →
Z.of_nat (length rows) + 100 ≤ usize_max → (length rows - Z.to_nat off < fuel)%nat →
∃ pages, follow fuel req = Some pages
  ∧ List.concat (map r_tasks pages) = map (row_task req) (drop (Z.to_nat off) rows)
  ∧ Forall (λ p, total_size p = Z.of_nat (length rows) ∧ (length (r_tasks p) ≤ 100)%nat) pages.
Proof.
revert req off. induction fuel as [|fuel IH]; intros req off V Hoff Hle Hmax L; [lia|].
pose proof (list_tasks_valid req rows off V Hoff Hle Hmax) as E. cbn zeta in E.
cbn [follow]. rewrite E. cbn [next_page_token]. clear E. destruct V as (Hn & Hh & Hr).
set (n := default 50 (page_size req)) in *.
assert (Hlen : ∀ req, (length (map (row_task req) (take (Z.to_nat n) (drop (Z.to_nat off) rows))) ≤ 100)%nat).
{ intros r. rewrite length_map, length_take. lia. }
destruct (Z.ltb_spec (off + n) (Z.of_nat (length rows))) as [H|H]; cbn [str_is_empty].
- destruct (IH (with_token req (String "o" (show_N (off + n)))) (off + n)) as (pages & -> & Hc & Hp).
  { exact (conj Hn (conj Hh Hr)). } { apply page_offset_token. unfold usize_max in *. lia. } { lia. } { done. } { lia. }
  eexists. split; [reflexivity|]. split.
  + rewrite map_cons. cbn [List.concat r_tasks]. rewrite Hc.
    change (row_task (with_token req (String "o" (show_N (off + n))))) with (row_task req).
    rewrite <-map_app. f_equal.
    replace (Z.to_nat (off + n)) with (Z.to_nat off + Z.to_nat n)%nat by lia.
    rewrite <-drop_drop. apply take_drop.
  + constructor; [|done]. split; [done|]. cbn [r_tasks]. apply Hlen.
- eexists. split; [reflexivity|]. split.
  + cbn [map List.concat r_tasks]. rewrite app_nil_r. f_equal. apply take_ge. rewrite length_drop. lia.
  + constructor; [|constructor]. split; [done|]. cbn [r_tasks]. apply Hlen.
Qed.

Lemma list_rows_spec context st after :
sorted_by row_cmp (list_rows s t context st after)
∧ ∀ e, e ∈ list_rows s t context st after ↔
    (∃ id, tasks s !! id = Some e) ∧ row_matches t context st after e = true.
Proof.
unfold list_rows. split; [apply (sort_by_sorted row_cmp)|]. intros e. rewrite sort_by_perm.
rewrite list_elem_of_In, List.filter_In, <-list_elem_of_In.
assert (e ∈ map snd (map_to_list (tasks s)) ↔ ∃ id, tasks s !! id = Some e) as ->; [|done].
rewrite list_elem_of_fmap. split.
- intros ([id x] & -> & H). exists id. by apply elem_of_map_to_list in H.
- intros [id H]. exists (id, e). split; [done|]. by apply elem_of_map_to_list.
Qed.
End pages.

(** [ListTasks] pages lose and repeat nothing: a client that follows
    [nextPageToken] from the first page of a valid request gets to an empty
    token, and the pages it has read are, one after the other, the tasks of the
    endpoint that match the filters, newest status first and then by id, at most
    100 a page, each page naming the same total. *)
Theorem pages_cover_the_list parse_iso_ms s t req rows :
  valid_request parse_iso_ms s t req rows → page_token req = None →
  Z.of_nat (length rows) + 100 ≤ usize_max →
  (∃ pages, follow parse_iso_ms s t (S (length rows)) req = Some pages
    ∧ List.concat (map r_tasks pages) = map (row_task req) rows
    ∧ Forall (λ p, total_size p = Z.of_nat (length rows) ∧ (length (r_tasks p) ≤ 100)%nat) pages)
  ∧ sorted_by row_cmp rows
  ∧ ∀ e, e ∈ rows → target e = t ∧ ∃ id, tasks s !! id = Some e.
Proof.
  intros V Ht Hmax. split.
  - destruct (follow_from parse_iso_ms s t req rows (S (length rows)) 0 V) as (pages & H1 & H2 & H3);
      [unfold page_offset; by rewrite Ht|lia|done|lia|]. exists pages. split_and!; [done| |done].
    rewrite H2. done.
  - destruct V as (_ & _ & Hr). unfold asked_rows in Hr.
    destruct (status_filter req) as [st|]; [|done]. destruct (after_filter _ req) as [after|]; [|done].
    injection Hr as <-. destruct (list_rows_spec s t (r_context_id req) st after) as [Hs Hin].
    split; [done|]. intros e He. apply Hin in He as [He Hm]. split; [|done].
    unfold row_matches in Hm. apply andb_prop in Hm as [[[Hm _]%andb_prop _]%andb_prop _].
    by apply bool_decide_eq_true in Hm.
Qed.

(** ** Samples *)

Definition sample_entry (n : Z) (st : TaskState) : Entry :=
  let id := ("t" +:+ show_N n)%string in
  let tk := mkTask id "c" (mkStatus st None None) (Some []) None None in
  mkEntry Planner tk n tk (Some id).
Definition sample_store (n : nat) : Store :=
  mkStore (list_to_map (map (λ i, (t_id (task (sample_entry (Z.of_nat i) Completed)), sample_entry (Z.of_nat i) Completed))
             (seq 0 n))) ∅.
Definition sample_request (size : Z) : ListTasksRequest := mkListReq None None (Some size) None None None None.

Lemma pages_cover_the_list_witness :
  let rows := list_rows (sample_store 5) Planner None None None in
  length rows = 5%nat ∧
  ∃ pages, follow (λ _, None) (sample_store 5) Planner 6 (sample_request 2) = Some pages ∧ length pages = 3%nat
    ∧ List.concat (map r_tasks pages) = map (row_task (sample_request 2)) rows.
Proof.
  intros rows. assert (Hlen : length rows = 5%nat) by (vm_compute; reflexivity). split; [exact Hlen|].
  destruct (pages_cover_the_list (λ _, None) (sample_store 5) Planner (sample_request 2) rows) as [(pages & H1 & H2 & _) _].
  - split; [cbn; lia|]. split; reflexivity.
  - reflexivity.
  - rewrite Hlen. unfold usize_max. lia.
  - exists pages. rewrite Hlen in H1. split; [exact H1|]. split; [|exact H2].
    assert (option_map (@length ListTasksResponse)
      (follow (λ _, None) (sample_store 5) Planner 6 (sample_request 2)) = Some 3%nat) as E by (vm_compute; reflexivity).
    rewrite H1 in E. injection E as E. exact E.
Defined.

(** A page token the server never issued can make it answer with a page
    that is empty and names a next one: the token's offset is read as any
    64-bit number and added to the page size without a check, so the sum wraps
    past zero (where overflow is checked, it panics instead). *)
Theorem forged_page_token_wraps :
  ∃ s token page, list_tasks (λ _, None) s Planner (with_token (sample_request 50) token) = Ok page
    ∧ r_tasks page = [] ∧ next_page_token page = "o49"%string.
Proof.
  exists (sample_store 60), "o18446744073709551615"%string.
  assert (E : match list_tasks (λ _, None) (sample_store 60) Planner
      (with_token (sample_request 50) "o18446744073709551615") with
    | Ok p => match r_tasks p with [] => String.eqb (next_page_token p) "o49" | _ => false end
    | Err _ => false end = true) by (vm_compute; reflexivity).
  destruct (list_tasks _ _ _ _) as [p|]; [|discriminate E]. exists p. split; [reflexivity|].
  destruct (r_tasks p); [|discriminate E]. split; [reflexivity|]. by apply String.eqb_eq.
Qed.

(** Room for one more task: [make_room] succeeds with less than the
    capacity left, and only by evicting settled tasks, each last updated no
    later than every settled task that stays, none at all while there is room;
    it is refused exactly when the unsettled tasks alone fill the store, and
    then no settled one is left; the contexts stay as they are. *)
Theorem make_room_evicts_the_oldest_settled max s :
  let '(r, s') := make_room max s in
  contexts s' = contexts s ∧ tasks s' ⊆ tasks s ∧
  (∀ id e, tasks s !! id = Some e → tasks s' !! id = None →
     is_settled (state (status (task e))) = true ∧
     ∀ id' e', tasks s' !! id' = Some e' → is_settled (state (status (task e'))) = true →
       updated_ms e ≤ updated_ms e') ∧
  match r with
  | Ok _ => (size (tasks s') < max)%nat ∧ (size (tasks s') = Nat.min (size (tasks s)) (max - 1))%nat
  | Err e => e = busy max ∧ (max ≤ size (tasks s'))%nat
      ∧ ∀ id e, tasks s' !! id = Some e → is_settled (state (status (task e))) = false
  end.
Proof.
  pose proof (make_room_go_spec (S (size (tasks s))) max s ltac:(lia)) as H. unfold make_room.
  destruct (make_room_go _ max s) as [r s']. destruct H as [[K1 K2 K3] R]. split_and!; [done|done| |done].
  intros id e H1 H2. destruct (K3 id e H1 H2) as [Hs Hall]. split; [done|]. intros id' e' H3 H4.
  specialize (Hall id' e' H3 H4). unfold age_cmp, cmp_then in Hall. cbn [snd] in Hall.
  destruct (Z.compare_spec (updated_ms e') (updated_ms e)); lia || done.
Qed.

Lemma make_room_evicts_the_oldest_settled_witness :
  let '(r, s') := make_room 3 (sample_store 4) in
  (∃ e, tasks (sample_store 4) !! "t0"%string = Some e ∧ tasks s' !! "t0"%string = None
     ∧ is_settled (state (status (task e))) = true) ∧ size (tasks s') = 2%nat.
Proof.
  pose proof (make_room_evicts_the_oldest_settled 3 (sample_store 4)) as H.
  assert (E : let '(_, s') := make_room 3 (sample_store 4) in
    match tasks s' !! "t0"%string with None => size (tasks s') | Some _ => O end = 2%nat) by (vm_compute; reflexivity).
  destruct (make_room 3 (sample_store 4)) as [r s']. destruct H as (_ & _ & H & _).
  destruct (tasks s' !! "t0"%string) eqn:Et; [discriminate E|]. split; [|exact E].
  exists (sample_entry 0 Completed). split; [reflexivity|]. split; [reflexivity|].
  exact (proj1 (H "t0"%string (sample_entry 0 Completed) eq_refl Et)).
Defined.

(** ** Memory *)

(** The turns of one context, in order, out of all that were remembered. *)
Definition turns_of (t : A2aTarget) (c : string) (l : list (A2aTarget * string * Turn)) : list Turn :=
  map snd (List.filter (λ x, bool_decide (fst x = (t, c))) l).

Definition remember_all (keep : nat) (l : list (A2aTarget * string * Turn)) (s : Store) : Store :=
  fold_left (λ s x, remember s (fst (fst x)) (snd (fst x)) (snd x) keep) l s.

Lemma drop_app_last {A} (l : list A) x n :
  (1 ≤ n)%nat → drop (length (drop (length l - n) l ++ [x]) - n) (drop (length l - n) l ++ [x])
  = drop (length (l ++ [x]) - n) (l ++ [x]).
Proof.
  intros Hn. rewrite !length_app, length_drop. cbn [length].
  destruct (decide (length l < n)%nat) as [H|H].
  - replace (length l - n)%nat with 0%nat by lia. rewrite drop_0. f_equal. lia.
  - replace (length l - (length l - n) + 1 - n)%nat with 1%nat by lia.
    replace (length l + 1 - n)%nat with (S (length l - n)) by lia.
    rewrite !drop_app, drop_drop, length_drop.
    replace (S (length l - n) - length l)%nat with 0%nat by lia.
    replace (1 - (length l - (length l - n)))%nat with 0%nat by lia.
    replace (length l - n + 1)%nat with (S (length l - n)) by lia. done.
Qed.

(** A context remembers exactly its last turns: whatever turns the
    endpoints' contexts have completed, in any interleaving, the history handed
    to the next turn is the last [keep] turns of this endpoint and this context,
    oldest first - none of another endpoint's, even under the same context id -
    and remembering touches no task. *)
Theorem contexts_remember_their_last_turns keep l t c :
  let s := remember_all keep l store_default in
  store_history s t c = drop (length (turns_of t c l) - keep) (turns_of t c l) ∧ tasks s = ∅.
Proof.
  induction l as [|[[t' c'] x] l [IH1 IH2]] using rev_ind; [done|]. cbn zeta in *.
  assert (remember_all keep (l ++ [(t', c', x)]) store_default
          = remember (remember_all keep l store_default) t' c' x keep) as ->.
  { unfold remember_all. by rewrite fold_left_app. }
  set (s := remember_all keep l store_default) in *.
  assert (Ht : turns_of t c (l ++ [(t', c', x)]) = turns_of t c l ++ if decide ((t', c') = (t, c)) then [x] else []).
  { unfold turns_of. rewrite List.filter_app, map_app. cbn [List.filter fst]. f_equal.
    destruct (decide _) as [E|N]; [by rewrite bool_decide_true|by rewrite bool_decide_false]. }
  rewrite Ht. unfold remember. destruct keep as [|keep].
  { split; [|done]. rewrite IH1, !Nat.sub_0_r, !drop_ge by lia. done. }
  split; [|done]. unfold store_history in *. cbn [contexts].
  destruct (decide ((t', c') = (t, c))) as [[= -> ->]|N].
  - rewrite lookup_insert_eq. cbn [default]. rewrite IH1. apply drop_app_last. lia.
  - rewrite lookup_insert_ne by done. by rewrite app_nil_r.
Qed.
