(* ===== verification/A2aServer.v ===== *)
(** * The A2A server ([src/src/application/a2a/mod.rs])

    A server is its store and the runs it has spawned. Each step is what one
    request or one run does while it holds the store's lock; the steps of
    different requests and runs interleave freely. The clock's time and the
    minted UUIDs are arguments of a step. *)

From Stdlib Require Import Ascii String.
From S2P Require Import Prelude.
From S2P Require Import Text.
From S2P Require Import Bytes.
From S2P Require Import Substr.
From S2P Require Import Json.
From S2P Require Import A2aModel.
From S2P Require Import A2aStore.

#[local] Open Scope string_scope.
#[local] Open Scope list_scope.
#[local] Open Scope Z_scope.

(** [run_timeout] is left to the runs' outcomes, but for its text. *)
Record Limits : Type := mkLimits {
  max_tasks : nat;
  max_running : nat;
  context_turns : nat;
  run_timeout_secs : Z;
}.

Record SendMessageConfiguration : Type := mkConfig {
  accepted_output_modes : list string;
  task_push_notification_config : option json;
  c_history_length : option Z;
  return_immediately : bool;
}.
Definition config_default : SendMessageConfiguration := mkConfig [] None None false.

Record SendMessageRequest : Type := mkSend {
  message : Message;
  configuration : option SendMessageConfiguration;
}.

Record A2aTurn : Type := mkTurn {
  turn_task_id : string;
  turn_context_id : string;
  turn_body : string;
  turn_history : list Turn;
}.

(** How a run ends: the runner's answer, its error, or the timeout. *)
Inductive Outcome : Type := Answer (answer : string) | RunError (e : string) | TimedOut.

(** A run waits for a permit, runs (with a permit) and, once the runner has
    ended, waits for the lock. *)
Inductive Phase : Type := Queued | Running | Ended (o : Outcome).

Record Run : Type := mkRun {
  run_target : A2aTarget;
  run_turn : A2aTurn;
  phase : Phase;
  aborted : bool;
}.

Record Server : Type := mkServer {
  store : Store;
  runs : gmap string Run;
}.

Section server.
Context (iso_ms : Z → string).
Context (to_string_pretty : json → string).
Context (b64d : string → result string (list ascii)) (from_utf8 : list ascii → option string).
(** [{:?}] of a list of strings. *)
Context (debug_strings : list string → string).
Context (limits : Limits).

#[local] Notation update_ := (update iso_ms).

(** ** Starting a task *)

Definition check_message (req : SendMessageRequest) : result RpcError string :=
let msg := message req in
if str_is_empty (trim (message_id msg)) then Err (invalid_params "message.messageId" "required")
else if decide (role msg = RoleAgent) then
  Err (invalid_params "message.role" "a client sends ROLE_USER messages")
else
  let cfg := default config_default (configuration req) in
  if is_some (task_push_notification_config cfg) then Err push_not_supported
  else if negb (accepts_text (accepted_output_modes cfg)) then
    Err (content_type ("this agent answers in text/plain; acceptedOutputModes is "
      +:+ debug_strings (accepted_output_modes cfg)))
  else turn_text to_string_pretty b64d from_utf8 (parts msg).

Definition closed_text (tid : string) (st : TaskState) (known : string) : string :=
if is_terminal st
then "task " +:+ tid +:+ " is " +:+ proto_name st
     +:+ " — it takes no more messages; send without taskId and with contextId " +:+ known
     +:+ " to continue the conversation"
else "task " +:+ tid +:+ " is still running — wait for it (GetTask) or cancel it".

(** A [taskId] in a message: the task must be the endpoint's and takes no
  message anyway. *)
Definition named_task (s : Store) (t : A2aTarget) (tid : string) (msg : Message) : RpcError :=
match get s t tid with
| Err e => e
| Ok e =>
    let known := context_id (task e) in
    let st := state (status (task e)) in
    match m_context_id msg with
    | Some c =>
        if negb (String.eqb c known) then
          invalid_params "message.contextId"
            ("'" +:+ c +:+ "' is not the context of task " +:+ tid +:+ " ('" +:+ known +:+ "')")
        else unsupported (closed_text tid st known)
    | None => unsupported (closed_text tid st known)
    end
end.

Definition new_task (msg : Message) (now : Z) (task_id context : string) : Task :=
let user := mkMessage (message_id msg) (Some context) (Some task_id) RoleUser (parts msg)
              (m_metadata msg) (extensions msg) (reference_task_ids msg) in
mkTask task_id context (mkStatus Submitted None (Some (iso_ms now))) (Some []) (Some [user]) None.

(** [start]: the task as created, and the run it spawns under the task's id. *)
Definition start (sv : Server) (t : A2aTarget) (req : SendMessageRequest) (now : Z)
  (uuid_context uuid_task : string) : result RpcError Task * Server :=
let msg := message req in
match check_message req with
| Err e => (Err e, sv)
| Ok text =>
    match non_empty (m_task_id msg) with
    | Some tid => (Err (named_task (store sv) t tid msg), sv)
    | None =>
        match make_room (max_tasks limits) (store sv) with
        | (Err e, s) => (Err e, mkServer s (runs sv))
        | (Ok _, s) =>
            let context :=
              match m_context_id msg with
              | Some c => if str_is_empty (trim c) then uuid_context else c
              | None => uuid_context
              end in
            let tk := new_task msg now uuid_task context in
            let turn := mkTurn uuid_task context text (store_history s t context) in
            (Ok tk,
             mkServer
               (mkStore (<[uuid_task := mkEntry t tk now tk (Some uuid_task)]> (tasks s)) (contexts s))
               (<[uuid_task := mkRun t turn Queued false]> (runs sv)))
        end
    end
end.

(** ** Cancelling and stopping *)

(** [a.abort()]: the run of the handle is dropped at its next await. *)
Definition abort_run (handle : option string) (rs : gmap string Run) : gmap string Run :=
match handle with
| None => rs
| Some h => alter (λ r, mkRun (run_target r) (run_turn r) (phase r) true) h rs
end.

Definition set_state (st : TaskState) (m : option Message) (t : Task) : Task :=
mkTask (t_id t) (context_id t) (mkStatus st m (timestamp (status t))) (artifacts t) (history t) (t_metadata t).

Definition cancel (sv : Server) (t : A2aTarget) (id : string) (now : Z) (uuid : string)
  : result RpcError Task * Server :=
match get (store sv) t id with
| Err e => (Err e, sv)
| Ok e =>
    let st := state (status (task e)) in
    if is_terminal st then (Err (not_cancelable id (proto_name st)), sv)
    else
      let rs := abort_run (abort e) (runs sv) in
      let '(_, s) := update_ (store sv) id now
        (set_state Canceled (Some (agent_text uuid "canceled by the client"))) in
      (task <$> get s t id, mkServer s rs)
end.

Definition open_tasks (s : Store) : list string :=
map fst (List.filter (λ p, negb (is_settled (state (status (task (snd p)))))) (map_to_list (tasks s))).

Definition stop_one (now : Z) (uuid : string → string) (sv : Server) (id : string) : Server :=
let rs := match tasks (store sv) !! id with Some e => abort_run (abort e) (runs sv) | None => runs sv end in
let '(_, s) := update_ (store sv) id now
  (set_state Failed (Some (agent_text (uuid id) "the tengu A2A server stopped before the task finished"))) in
mkServer s rs.

Definition stop_all (sv : Server) (now : Z) (uuid : string → string) : Server :=
fold_left (stop_one now uuid) (open_tasks (store sv)) sv.

(** ** One run *)

(** The permit is there: the task starts, unless it was canceled while queued. *)
Definition begin_run (sv : Server) (id : string) (r : Run) (now : Z) : Server :=
let '(ok, s) := update_ (store sv) id now
  (λ t, mkTask (t_id t) (context_id t) (mkStatus Working (status_message (status t)) (timestamp (status t)))
          (artifacts t) (history t) (t_metadata t)) in
mkServer s
  (if ok : bool then <[id := mkRun (run_target r) (run_turn r) Running (aborted r)]> (runs sv)
   else delete id (runs sv)).

Definition answer_text (answer : string) : string :=
if str_is_empty (trim answer) then "(the agent returned no text)" else answer.

Definition response (uuid answer : string) : Artifact :=
mkArtifact uuid (Some "response") None
  [mkPart (Some answer) None None None None None (Some "text/plain")] None [].

(** The end of [run], under the lock. *)
Definition settle_store (s : Store) (r : Run) (o : Outcome) (now : Z) (uuid : string) : Store :=
let id := turn_task_id (run_turn r) in
let fail (why : string) :=
  snd (update_ s id now (set_state Failed (Some (agent_text uuid why)))) in
match o with
| Answer a =>
    let a := answer_text a in
    let '(done, s) := update_ s id now
      (λ t, mkTask (t_id t) (context_id t) (mkStatus Completed None (timestamp (status t)))
              (Some (default [] (artifacts t) ++ [response uuid a])) (history t) (t_metadata t)) in
    if done : bool then
      remember s (run_target r) (turn_context_id (run_turn r)) (turn_body (run_turn r), a) (context_turns limits)
    else s
| RunError e => fail e
| TimedOut => fail ("timed out after " +:+ show_N (run_timeout_secs limits) +:+ " s")
end.

(** Whether a run holds a permit, and how many do; there is at least one permit. *)
Definition holds_permit (r : Run) : bool := match phase r with Queued => false | _ => true end.
Definition permits_held (sv : Server) : nat :=
length (List.filter (λ p, holds_permit (snd p)) (map_to_list (runs sv))).

(** ** The steps *)

Inductive step (sv : Server) : Server → Prop :=
| step_send t req now uuid_context uuid_task :
    (* a UUID is fresh *)
    tasks (store sv) !! uuid_task = None → runs sv !! uuid_task = None →
    step sv (snd (start sv t req now uuid_context uuid_task))
| step_cancel t id now uuid : step sv (snd (cancel sv t id now uuid))
| step_stop now uuid : step sv (stop_all sv now uuid)
| step_begin id r now :
    runs sv !! id = Some r → phase r = Queued → (permits_held sv < Nat.max 1 (max_running limits))%nat →
    step sv (begin_run sv id r now)
| step_end id r o :
    runs sv !! id = Some r → phase r = Running →
    step sv (mkServer (store sv) (<[id := mkRun (run_target r) (run_turn r) (Ended o) (aborted r)]> (runs sv)))
| step_settle id r o now uuid :
    runs sv !! id = Some r → phase r = Ended o →
    step sv (mkServer (settle_store (store sv) r o now uuid) (delete id (runs sv)))
| step_dropped id r :
    (* an aborted run ends where it awaits *)
    runs sv !! id = Some r → aborted r = true → (∀ o, phase r ≠ Ended o) →
    step sv (mkServer (store sv) (delete id (runs sv))).

Definition server_new : Server := mkServer store_default ∅.

(** ** Streams *)

Inductive StreamResponse : Type :=
| SrTask (t : Task)
| SrStatusUpdate (task_id context_id : string) (status : TaskStatus)
| SrArtifactUpdate (task_id context_id : string) (artifact : Artifact) (append last_chunk : bool).

Definition artifact_list (t : Task) : list Artifact := default [] (artifacts t).

(** One turn of the loop of [stream] on the feed's latest value [t]: its events
  and the state and count sent so far. *)
Definition stream_turn (st : TaskState) (sent : nat) (t : Task) : list StreamResponse * TaskState * nat :=
let arts := map (λ a, SrArtifactUpdate (t_id t) (context_id t) a false true) (drop sent (artifact_list t)) in
let sent := Nat.max sent (length (artifact_list t)) in
if decide (state (status t) = st) then (arts, st, sent)
else (arts ++ [SrStatusUpdate (t_id t) (context_id t) (status t)], state (status t), sent).

(** The values the loop reads, one by one, until the task settles. *)
Fixpoint stream_loop (st : TaskState) (sent : nat) (seen : list Task) : list StreamResponse :=
match seen with
| [] => []
| t :: seen =>
    let '(events, st, sent) := stream_turn st sent t in
    events ++ (if is_settled st then [] else stream_loop st sent seen)
end.

Definition stream (first : Task) (seen : list Task) : list StreamResponse :=
SrTask first
:: (if is_settled (state (status first)) then []
    else stream_loop (state (status first)) (length (artifact_list first)) seen).
End server.
