(* ===== verification/A2aServerProps.v ===== *)
(** * The A2A server: what every interleaving keeps *)

From Stdlib Require Import Ascii String.
From S2P Require Import Prelude.
From S2P Require Import Text.
From S2P Require Import Bytes.
From S2P Require Import Substr.
From S2P Require Import Json.
From S2P Require Import A2aModel.
From S2P Require Import A2aStore.
From S2P Require Import A2aStoreProps.
From S2P Require Import A2aServer.

#[local] Open Scope string_scope.
#[local] Open Scope list_scope.
#[local] Open Scope Z_scope.

Section server.
Context (iso_ms : Z → string).
Context (to_string_pretty : json → string).
Context (b64d : string → result string (list ascii)) (from_utf8 : list ascii → option string).
Context (debug_strings : list string → string).
Context (limits : Limits).

#[local] Notation step := (step iso_ms to_string_pretty b64d from_utf8 debug_strings limits).
#[local] Notation start_ := (start iso_ms to_string_pretty b64d from_utf8 debug_strings limits).
#[local] Notation state_of e := (state (status (task e))).

(** ** The invariant *)

(** What a task holds in each state. *)
Definition shape (t : Task) : Prop :=
match state (status t) with
| Submitted | Working => artifacts t = Some [] ∧ status_message (status t) = None
| Completed =>
    status_message (status t) = None ∧
    ∃ u a, artifacts t = Some [response u a] ∧ str_is_empty (trim a) = false
| Failed | Canceled => artifacts t = Some [] ∧ ∃ u text, status_message (status t) = Some (agent_text u text)
| _ => False
end.

Record entry_ok (id : string) (e : Entry) : Prop := {
eo_id : t_id (task e) = id;
eo_feed : e_feed e = task e;
eo_abort : abort e = Some id;
eo_shape : shape (task e);
}.

(** The state of a task whose run is in a phase. *)
Definition phase_state (p : Phase) : TaskState := match p with Queued => Submitted | _ => Working end.

Definition run_ok (ts : gmap string Entry) (id : string) (r : Run) : Prop :=
turn_task_id (run_turn r) = id ∧
if aborted r then ∀ e, ts !! id = Some e → is_terminal (state_of e) = true
else ∃ e, ts !! id = Some e ∧ state_of e = phase_state (phase r) ∧ target e = run_target r
      ∧ context_id (task e) = turn_context_id (run_turn r).

Record inv (sv : Server) : Prop := {
i_entry : ∀ id e, tasks (store sv) !! id = Some e → entry_ok id e;
i_size : (size (tasks (store sv)) ≤ max_tasks limits)%nat;
i_run : ∀ id r, runs sv !! id = Some r → run_ok (tasks (store sv)) id r;
i_live : ∀ id e, tasks (store sv) !! id = Some e → is_terminal (state_of e) = false →
  ∃ r, runs sv !! id = Some r ∧ aborted r = false;
i_permits : (permits_held sv ≤ Nat.max 1 (max_running limits))%nat;
i_contexts : ∀ k d, contexts (store sv) !! k = Some d → d ≠ [] ∧ (length d ≤ context_turns limits)%nat;
}.

Lemma inv_new : inv server_new.
Proof.
split; cbn [store tasks contexts runs server_new store_default].
- intros id e. by rewrite lookup_empty.
- rewrite map_size_empty. lia.
- intros id r. by rewrite lookup_empty.
- intros id e. by rewrite lookup_empty.
- unfold permits_held. cbn [runs server_new]. rewrite map_to_list_empty. cbn. lia.
- intros k d. by rewrite lookup_empty.
Qed.

(** ** Updates *)

Lemma shape_settled t : shape t → is_settled (state (status t)) = is_terminal (state (status t)).
Proof. unfold shape, is_settled. by destruct (state (status t)). Qed.

Definition stamp (now : Z) (t : Task) : Task :=
mkTask (t_id t) (context_id t) (mkStatus (state (status t)) (status_message (status t)) (Some (iso_ms now)))
  (artifacts t) (history t) (t_metadata t).

Lemma update_open s id now f e :
tasks s !! id = Some e → is_terminal (state_of e) = false →
update iso_ms s id now f
= (true, mkStore (<[id := mkEntry (target e) (stamp now (f (task e))) now (stamp now (f (task e))) (abort e)]> (tasks s))
           (contexts s)).
Proof. intros H1 H2. unfold update. by rewrite H1, H2. Qed.

Lemma update_closed s id now f :
(∀ e, tasks s !! id = Some e → is_terminal (state_of e) = true) → update iso_ms s id now f = (false, s).
Proof. intros H. unfold update. destruct (tasks s !! id) as [e|]; [|done]. by rewrite H. Qed.

(** A task replaced by a later state of itself. *)
Lemma inv_replace sv id e t now rs ctxs :
inv sv → tasks (store sv) !! id = Some e → t_id t = id → shape t →
let e' := mkEntry (target e) t now t (abort e) in
(∀ i r, rs !! i = Some r → run_ok (<[id := e']> (tasks (store sv))) i r) →
(∀ i e, <[id := e']> (tasks (store sv)) !! i = Some e → is_terminal (state_of e) = false →
  ∃ r, rs !! i = Some r ∧ aborted r = false) →
(permits_held (mkServer (store sv) rs) ≤ Nat.max 1 (max_running limits))%nat →
(∀ k d, ctxs !! k = Some d → d ≠ [] ∧ (length d ≤ context_turns limits)%nat) →
inv (mkServer (mkStore (<[id := e']> (tasks (store sv))) ctxs) rs).
Proof.
intros I He Hid Hsh e' Hr Hl Hp Hc. destruct (i_entry _ I id e He) as [H1 H2 H3 H4].
split; cbn [store tasks contexts runs]; [| |done|done|done|done].
- intros i x Hx. destruct (decide (i = id)) as [->|N].
  + rewrite lookup_insert_eq in Hx. injection Hx as <-. by split.
  + rewrite lookup_insert_ne in Hx by done. by apply (i_entry _ I).
- rewrite map_size_insert_Some by (by eexists). apply I.
Qed.

(** Runs of other tasks do not see the change. *)
Lemma run_ok_other ts id e i r : i ≠ id → run_ok (<[id := e]> ts) i r ↔ run_ok ts i r.
Proof. intros N. unfold run_ok. by rewrite lookup_insert_ne. Qed.

Lemma run_unaborted sv id r e :
inv sv → tasks (store sv) !! id = Some e → is_terminal (state_of e) = false → runs sv !! id = Some r →
aborted r = false ∧ state_of e = phase_state (phase r) ∧ turn_task_id (run_turn r) = id
∧ target e = run_target r ∧ context_id (task e) = turn_context_id (run_turn r).
Proof.
intros I He Ht Hr. destruct (i_run _ I id r Hr) as [H1 H2]. destruct (aborted r).
- rewrite H2 in Ht by done. done.
- destruct H2 as (e' & H3 & H4 & H5 & H6). assert (e' = e) as -> by congruence. done.
Qed.

(** ** Permits *)

Lemma filter_length_perm {A} (f : A → bool) l k :
l ≡ₚ k → length (List.filter f l) = length (List.filter f k).
Proof.
induction 1 as [|x l k _ IH|x y l|l k m _ IH1 _ IH2]; cbn [List.filter]; [done| | |congruence].
- destruct (f x); cbn [length]; by rewrite IH.
- by destruct (f x), (f y).
Qed.

Lemma holders_perm (rs : gmap string Run) id r :
rs !! id = None →
length (List.filter (λ p, holds_permit (snd p)) (map_to_list (<[id := r]> rs)))
= ((if holds_permit r then 1 else 0) + length (List.filter (λ p, holds_permit (snd p)) (map_to_list rs)))%nat.
Proof.
intros H. rewrite (filter_length_perm _ _ _ (map_to_list_insert rs id r H)). cbn [List.filter snd].
by destruct (holds_permit r).
Qed.

Definition holders (rs : gmap string Run) : nat :=
length (List.filter (λ p, holds_permit (snd p)) (map_to_list rs)).

Lemma holders_insert rs id r :
holders (<[id := r]> rs) = ((if holds_permit r then 1 else 0) + holders (delete id rs))%nat.
Proof. rewrite <-insert_delete_eq. apply holders_perm. apply lookup_delete_eq. Qed.

Lemma holders_delete rs id r :
rs !! id = Some r → holders rs = ((if holds_permit r then 1 else 0) + holders (delete id rs))%nat.
Proof. intros H. rewrite <-(insert_id rs id r) at 1 by done. apply holders_insert. Qed.

Lemma holders_delete_le rs id : (holders (delete id rs) ≤ holders rs)%nat.
Proof.
destruct (rs !! id) as [r|] eqn:E.
- rewrite (holders_delete rs id r E). lia.
- by rewrite delete_id.
Qed.

(** A run that changes and keeps what it holds. *)
Lemma holders_update rs id r r' :
rs !! id = Some r → holds_permit r' = holds_permit r → holders (<[id := r']> rs) = holders rs.
Proof. intros Hr H. by rewrite holders_insert, (holders_delete rs id r Hr), H. Qed.

Lemma permits_holders sv : permits_held sv = holders (runs sv).
Proof. done. Qed.

(** ** Every step keeps the invariant *)

Lemma server_eta sv : sv = mkServer (store sv) (runs sv).
Proof. by destruct sv. Qed.

Lemma alter_some {A} (f : A → A) (m : gmap string A) i x : m !! i = Some x → alter f i m = <[i := f x]> m.
Proof.
intros H. apply map_eq. intros j. destruct (decide (i = j)) as [<-|N].
- by rewrite lookup_alter_eq, lookup_insert_eq, H.
- by rewrite lookup_alter_ne, lookup_insert_ne by done.
Qed.

(** An aborted run may go. *)
Lemma inv_drop sv id r :
inv sv → runs sv !! id = Some r → aborted r = true → inv (mkServer (store sv) (delete id (runs sv))).
Proof.
intros I Hr Ha. split; cbn [store runs]; try apply I.
- intros i x Hx. apply lookup_delete_Some in Hx as [_ Hx]. by apply (i_run _ I).
- intros i e He Ht. destruct (i_live _ I i e He Ht) as (x & Hx & Hn). exists x. split; [|done].
  rewrite lookup_delete_ne; [done|]. intros <-. congruence.
- rewrite permits_holders. cbn [runs]. pose proof (holders_delete_le (runs sv) id).
  pose proof (i_permits _ I) as Hp. rewrite permits_holders in Hp. lia.
Qed.

(** Fewer settled tasks. *)
Lemma inv_room sv s : inv sv → kept (store sv) s → inv (mkServer s (runs sv)).
Proof.
intros I [K1 K2 K3]. split; cbn [store runs].
- intros id e H. apply (i_entry _ I). by eapply lookup_weaken.
- pose proof (map_subseteq_size _ _ K2). pose proof (i_size _ I). lia.
- intros id r Hr. destruct (i_run _ I id r Hr) as [H1 H2]. split; [done|]. destruct (aborted r).
  + intros e He. apply H2. by eapply lookup_weaken.
  + destruct H2 as (e & He & H3 & H4). exists e. split; [|done].
    destruct (tasks s !! id) as [e'|] eqn:E; [pose proof (lookup_weaken _ _ _ _ E K2); congruence|].
    destruct (K3 id e He E) as [Hs _]. rewrite H3 in Hs. by destruct (phase r).
- intros id e He. apply (i_live _ I). by eapply lookup_weaken.
- apply I.
- rewrite K1. apply I.
Qed.

Lemma make_room_kept s : let '(r, s') := make_room (max_tasks limits) s in
kept s s' ∧ (r = Ok tt → (size (tasks s') < max_tasks limits)%nat).
Proof.
pose proof (make_room_go_spec (S (size (tasks s))) (max_tasks limits) s ltac:(lia)) as H. unfold make_room.
destruct (make_room_go _ _ s) as [r s']. destruct H as [K R]. split; [done|]. intros ->. apply R.
Qed.

Lemma inv_start sv t req now uc ut :
inv sv → tasks (store sv) !! ut = None → runs sv !! ut = None → inv (snd (start_ sv t req now uc ut)).
Proof.
intros I Ht Hr. unfold start. destruct (check_message _ _ _ _ req) as [text|e]; [|done].
destruct (non_empty _); [done|].
pose proof (make_room_kept (store sv)) as Hm. destruct (make_room _ _) as [[[]|e] s].
2: { cbn [snd]. apply inv_room; [done|]. apply Hm. }
destruct Hm as [K Hsz]. specialize (Hsz eq_refl). cbn [snd].
pose proof (inv_room sv s I K) as I'. destruct K as [K1 K2 K3].
assert (Hts : tasks s !! ut = None).
{ destruct (tasks s !! ut) eqn:E; [|done]. pose proof (lookup_weaken _ _ _ _ E K2). congruence. }
set (c := match m_context_id (message req) with Some _ => _ | None => _ end).
split; cbn [store tasks contexts runs].
- intros i x Hx. apply lookup_insert_Some in Hx as [[<- <-]|[N Hx]]; [|by apply (i_entry _ I')].
  split; try done. 
- rewrite map_size_insert_None by done. lia.
- intros i x Hx. apply lookup_insert_Some in Hx as [[<- <-]|[N Hx]].
  + split; [done|]. cbn [aborted]. eexists. rewrite lookup_insert_eq. split_and!; [done..].
  + apply run_ok_other; [done|]. by apply (i_run _ I').
- intros i x Hx Hn. apply lookup_insert_Some in Hx as [[<- <-]|[N Hx]].
  + eexists. rewrite lookup_insert_eq. by split.
  + rewrite lookup_insert_ne by done. by eapply (i_live _ I').
- rewrite permits_holders. cbn [runs]. rewrite holders_insert. cbn [holds_permit phase].
  rewrite delete_id by done. apply I.
- apply I'.
Qed.

(** The run of a task is aborted and the task ends. *)
Lemma inv_abort sv id e st u text now :
inv sv → tasks (store sv) !! id = Some e → is_terminal (state_of e) = false → st = Canceled ∨ st = Failed →
inv (mkServer
  (mkStore (<[id := mkEntry (target e) (stamp now (set_state st (Some (agent_text u text)) (task e))) now
                      (stamp now (set_state st (Some (agent_text u text)) (task e))) (abort e)]> (tasks (store sv)))
     (contexts (store sv)))
  (abort_run (abort e) (runs sv))).
Proof.
intros I He Ht Hst. destruct (i_live _ I id e He Ht) as (r & Hr & Ha).
destruct (i_entry _ I id e He) as [H1 H2 H3 H4].
assert (abort_run (abort e) (runs sv) = <[id := mkRun (run_target r) (run_turn r) (phase r) true]> (runs sv)) as ->.
{ rewrite H3. unfold abort_run. by rewrite (alter_some _ _ _ _ Hr). }
apply inv_replace; [done|done|done| | | | |apply I].
- unfold shape in *. cbn [stamp set_state status state artifacts status_message].
  assert (artifacts (task e) = Some []) as -> by (destruct (state_of e); done || apply H4).
  destruct Hst as [-> | ->]; split; eauto.
- intros i x Hx. apply lookup_insert_Some in Hx as [[<- <-]|[N Hx]].
  + destruct (i_run _ I id r Hr) as [H5 _]. split; [done|]. cbn [aborted]. intros e'.
    rewrite lookup_insert_eq. intros [= <-]. cbn. by destruct Hst as [-> | ->].
  + apply run_ok_other; [done|]. by apply (i_run _ I).
- intros i x Hx Hn. apply lookup_insert_Some in Hx as [[<- <-]|[N Hx]].
  + cbn in Hn. by destruct Hst as [-> | ->].
  + rewrite lookup_insert_ne by done. by eapply (i_live _ I).
- rewrite permits_holders. cbn [runs]. rewrite (holders_update _ _ _ _ Hr) by done. apply I.
Qed.

Lemma inv_cancel sv t id now u : inv sv → inv (snd (cancel iso_ms sv t id now u)).
Proof.
intros I. unfold cancel, get. destruct (tasks (store sv) !! id) as [e|] eqn:He; [|done].
destruct (decide (target e = t)); [|done]. destruct (is_terminal (state_of e)) eqn:Ht; [done|].
rewrite (update_open _ _ _ _ e) by done. cbn [snd]. apply inv_abort; auto.
Qed.

Lemma inv_stop_one now u sv id : inv sv → inv (stop_one iso_ms now u sv id).
Proof.
intros I. unfold stop_one. destruct (tasks (store sv) !! id) as [e|] eqn:He.
- destruct (is_terminal (state_of e)) eqn:Ht.
  + rewrite update_closed by congruence. destruct (i_entry _ I id e He) as [_ _ H3 _]. rewrite H3.
    unfold abort_run. destruct (runs sv !! id) as [r|] eqn:Hr.
    2: { assert (alter (λ r, mkRun (run_target r) (run_turn r) (phase r) true) id (runs sv) = runs sv) as ->.
         { apply map_eq. intros j. destruct (decide (id = j)) as [<-|N]; [by rewrite lookup_alter_eq, Hr|].
           by rewrite lookup_alter_ne. }
         by rewrite <-server_eta. }
    rewrite (alter_some _ _ _ _ Hr). split; cbn [store runs]; try apply I.
    * intros i x Hx. apply lookup_insert_Some in Hx as [[<- <-]|[N Hx]]; [|by apply (i_run _ I)].
      split; [by apply (i_run _ I id r)|]. cbn [aborted]. congruence.
    * intros i x Hx Hn. destruct (i_live _ I i x Hx Hn) as (y & Hy & Hya). exists y. split; [|done].
      rewrite lookup_insert_ne; [done|]. intros <-. congruence.
    * rewrite permits_holders. cbn [runs]. rewrite (holders_update _ _ _ _ Hr) by done. apply I.
  + rewrite (update_open _ _ _ _ e) by done. apply inv_abort; auto.
- rewrite update_closed by congruence. by rewrite <-server_eta.
Qed.

Lemma inv_stop_all sv now u : inv sv → inv (stop_all iso_ms sv now u).
Proof.
unfold stop_all. generalize (open_tasks (store sv)) as l. intros l. revert sv.
induction l as [|id l IH]; intros sv I; cbn [fold_left]; [done|]. apply IH. by apply inv_stop_one.
Qed.

Lemma inv_begin sv id r now :
inv sv → runs sv !! id = Some r → phase r = Queued →
(permits_held sv < Nat.max 1 (max_running limits))%nat → inv (begin_run iso_ms sv id r now).
Proof.
intros I Hr Hq Hp. destruct (i_run _ I id r Hr) as [H1 H2]. unfold begin_run. destruct (aborted r) eqn:Ha.
{ rewrite update_closed by done. by eapply inv_drop. }
destruct H2 as (e & He & H3 & H4 & H5). rewrite Hq in H3. cbn [phase_state] in H3.
destruct (i_entry _ I id e He) as [E1 E2 E3 E4].
rewrite (update_open _ _ _ _ e) by (done || by rewrite H3).
apply inv_replace; [done|done|done| | | | |apply I].
- unfold shape in *. rewrite H3 in E4. exact E4.
- intros i x Hx. apply lookup_insert_Some in Hx as [[<- <-]|[N Hx]].
  + split; [done|]. cbn [aborted]. eexists. rewrite lookup_insert_eq. by split_and!.
  + apply run_ok_other; [done|]. by apply (i_run _ I).
- intros i x Hx Hn. apply lookup_insert_Some in Hx as [[<- <-]|[N Hx]].
  + eexists. rewrite lookup_insert_eq. by split.
  + rewrite lookup_insert_ne by done. by eapply (i_live _ I).
- rewrite permits_holders in *. cbn [runs]. rewrite holders_insert.
  pose proof (holders_delete_le (runs sv) id). cbn [holds_permit phase]. lia.
Qed.

Lemma inv_end sv id r o :
inv sv → runs sv !! id = Some r → phase r = Running →
inv (mkServer (store sv) (<[id := mkRun (run_target r) (run_turn r) (Ended o) (aborted r)]> (runs sv))).
Proof.
intros I Hr Hq. destruct (i_run _ I id r Hr) as [H1 H2]. split; cbn [store runs]; try apply I.
- intros i x Hx. apply lookup_insert_Some in Hx as [[<- <-]|[N Hx]]; [|by apply (i_run _ I)].
  split; [done|]. cbn [aborted run_turn run_target phase phase_state]. rewrite Hq in H2. exact H2.
- intros i x Hx Hn. destruct (i_live _ I i x Hx Hn) as (y & Hy & Hya). destruct (decide (i = id)) as [->|N].
  + eexists. rewrite lookup_insert_eq. split; [done|]. cbn [aborted]. congruence.
  + exists y. by rewrite lookup_insert_ne.
- rewrite permits_holders. cbn [runs]. rewrite (holders_update _ _ _ _ Hr); [apply I|].
  unfold holds_permit. by rewrite Hq.
Qed.

Lemma remember_contexts s t c turn :
(∀ k d, contexts s !! k = Some d → d ≠ [] ∧ (length d ≤ context_turns limits)%nat) →
∀ k d, contexts (remember s t c turn (context_turns limits)) !! k = Some d →
  d ≠ [] ∧ (length d ≤ context_turns limits)%nat.
Proof.
intros H k d. unfold remember. destruct (context_turns limits) as [|n] eqn:En; [apply H|]. cbn [contexts].
intros Hk. apply lookup_insert_Some in Hk as [[<- <-]|[N Hk]]; [|by apply (H k)].
rewrite length_drop, length_app. cbn [length]. split; [|lia]. intros E. apply (f_equal length) in E.
rewrite length_drop, length_app in E. cbn [length] in E. lia.
Qed.

Lemma remember_tasks s t c turn keep : tasks (remember s t c turn keep) = tasks s.
Proof. by destruct keep. Qed.

(** What a run writes when it settles: its task's last state. *)
Definition outcome_task (r : Run) (o : Outcome) (now : Z) (uuid : string) (t : Task) : Task :=
stamp now
  (match o with
   | Answer a =>
       mkTask (t_id t) (context_id t) (mkStatus Completed None (timestamp (status t)))
         (Some (default [] (artifacts t) ++ [response uuid (answer_text a)])) (history t) (t_metadata t)
   | RunError e => set_state Failed (Some (agent_text uuid e)) t
   | TimedOut => set_state Failed (Some (agent_text uuid
       ("timed out after " +:+ show_N (run_timeout_secs limits) +:+ " s"))) t
   end).

Lemma settle_open s r o now uuid e :
let id := turn_task_id (run_turn r) in
tasks s !! id = Some e → is_terminal (state_of e) = false →
let t := outcome_task r o now uuid (task e) in
tasks (settle_store iso_ms limits s r o now uuid) = <[id := mkEntry (target e) t now t (abort e)]> (tasks s)
∧ (contexts (settle_store iso_ms limits s r o now uuid) = contexts s
   ∨ ∃ turn, contexts (settle_store iso_ms limits s r o now uuid)
       = contexts (remember s (run_target r) (turn_context_id (run_turn r)) turn (context_turns limits))).
Proof.
intros id He Ht t. unfold settle_store. fold id.
destruct o as [a|e'|]; rewrite (update_open _ _ _ _ e) by done; cbn [snd]; [|split; [done|by left]..].
rewrite remember_tasks. split; [done|]. right. eexists. unfold remember, store_history. cbn [contexts].
by destruct (context_turns limits).
Qed.

Lemma settle_closed s r o now uuid :
(∀ e, tasks s !! turn_task_id (run_turn r) = Some e → is_terminal (state_of e) = true) →
settle_store iso_ms limits s r o now uuid = s.
Proof. intros H. unfold settle_store. by destruct o; rewrite update_closed. Qed.

Lemma answer_text_nonempty a : str_is_empty (trim (answer_text a)) = false.
Proof.
unfold answer_text. destruct (str_is_empty (trim a)) eqn:E; [|done].
vm_compute. reflexivity.
Qed.

Lemma outcome_shape r o now uuid t :
shape t → is_terminal (state (status t)) = false →
shape (outcome_task r o now uuid t) ∧ is_terminal (state (status (outcome_task r o now uuid t))) = true.
Proof.
intros H Ht. assert (Ha : artifacts t = Some []).
{ unfold shape in H. destruct (state (status t)); done || apply H. }
destruct o as [a|e|]; (split; [|done]); unfold shape; cbn [outcome_task stamp set_state status state artifacts status_message].
- split; [done|]. exists uuid, (answer_text a). rewrite Ha. split; [done|apply answer_text_nonempty].
- split; [done|]. eauto.
- split; [done|]. eauto.
Qed.

Lemma inv_settle sv id r o now uuid :
inv sv → runs sv !! id = Some r → phase r = Ended o →
inv (mkServer (settle_store iso_ms limits (store sv) r o now uuid) (delete id (runs sv))).
Proof.
intros I Hr Hq. destruct (i_run _ I id r Hr) as [H1 H2]. destruct (aborted r) eqn:Ha.
{ rewrite settle_closed by (rewrite H1; done). by eapply inv_drop. }
destruct H2 as (e & He & H3 & H4 & H5). rewrite Hq in H3. cbn [phase_state] in H3.
assert (Ht : is_terminal (state_of e) = false) by by rewrite H3.
destruct (i_entry _ I id e He) as [E1 E2 E3 E4].
destruct (outcome_shape r o now uuid (task e) E4 Ht) as [Hsh Hterm].
destruct (settle_open (store sv) r o now uuid e) as [Hts Hctx]; [by rewrite H1|done|].
rewrite H1 in Hts. set (s := settle_store _ _ _ _ _ _ _) in *.
assert (s = mkStore (tasks s) (contexts s)) as -> by by destruct s. rewrite Hts.
apply inv_replace; [done|done| |done| | | |].
- by destruct o.
- intros i x Hx. apply lookup_delete_Some in Hx as [N Hx]. apply run_ok_other; [done|]. by apply (i_run _ I).
- intros i x Hx Hn. apply lookup_insert_Some in Hx as [[<- <-]|[N Hx]].
  + cbn [task] in Hn. congruence.
  + rewrite lookup_delete_ne by done. by eapply (i_live _ I).
- rewrite permits_holders. cbn [runs]. pose proof (holders_delete_le (runs sv) id).
  pose proof (i_permits _ I) as Hp. rewrite permits_holders in Hp. lia.
- destruct Hctx as [-> | [turn ->]]; [apply I|]. apply remember_contexts. apply I.
Qed.

Lemma inv_step sv sv' : inv sv → step sv sv' → inv sv'.
Proof.
intros I H. destruct H as [t req now uc ut H1 H2|t id now u|now u|id r now H1 H2 H3|id r o H1 H2
  |id r o now u H1 H2|id r H1 H2 H3].
- by apply inv_start.
- by apply inv_cancel.
- by apply inv_stop_all.
- by apply inv_begin.
- by apply inv_end.
- by apply inv_settle.
- by eapply inv_drop.
Qed.

Definition reachable (sv : Server) : Prop := rtc step server_new sv.

Lemma reachable_inv sv : reachable sv → inv sv.
Proof.
unfold reachable. intros H. assert (I : inv server_new) by apply inv_new. revert I.
induction H as [|a b c Hab _ IH]; [done|]. intros I. apply IH. by eapply inv_step.
Qed.

(** ** Forward only *)

Definition rank (s : TaskState) : nat :=
match s with Submitted => 0 | Working => 1 | _ => 2 end.

(** [e'] is [e] or a later state of the same task; a terminal task is as it was. *)
Definition forward (e e' : Entry) : Prop :=
e' = e ∨
(is_terminal (state_of e) = false ∧ (rank (state_of e) < rank (state_of e'))%nat
 ∧ t_id (task e') = t_id (task e) ∧ context_id (task e') = context_id (task e)
 ∧ history (task e') = history (task e) ∧ target e' = target e).

Lemma forward_trans a b c : forward a b → forward b c → forward a c.
Proof.
intros [->|(H1 & H2 & H3 & H4 & H5 & H6)]; [done|]. intros [->|(H1' & H2' & H3' & H4' & H5' & H6')].
- right. by split_and!.
- right. split_and!; congruence || lia.
Qed.

(** What a step does to a task: it goes forward, or is evicted once terminal. *)
Definition moves (ts ts' : gmap string Entry) : Prop :=
∀ id e, ts !! id = Some e →
  match ts' !! id with
  | Some e' => forward e e'
  | None => is_terminal (state_of e) = true
  end.

(** Every task is still there. *)
Definition advances (ts ts' : gmap string Entry) : Prop :=
∀ id e, ts !! id = Some e → ∃ e', ts' !! id = Some e' ∧ forward e e'.

Lemma advances_refl ts : advances ts ts.
Proof. intros id e He. exists e. split; [done|by left]. Qed.

Lemma advances_trans a b c : advances a b → advances b c → advances a c.
Proof.
intros H1 H2 id e He. destruct (H1 id e He) as (e1 & He1 & F1). destruct (H2 id e1 He1) as (e2 & He2 & F2).
exists e2. split; [done|]. by eapply forward_trans.
Qed.

Lemma advances_moves a b : advances a b → moves a b.
Proof. intros H id e He. destruct (H id e He) as (e' & -> & F). done. Qed.

Lemma moves_refl ts : moves ts ts.
Proof. apply advances_moves, advances_refl. Qed.

Lemma advances_insert ts id e e' : ts !! id = Some e → forward e e' → advances ts (<[id := e']> ts).
Proof.
intros He Hf i x Hx. destruct (decide (i = id)) as [->|N].
- exists e'. rewrite lookup_insert_eq. assert (x = e) as -> by congruence. done.
- exists x. rewrite lookup_insert_ne, Hx by done. split; [done|by left].
Qed.

Lemma update_advances s id now f :
(∀ e, tasks s !! id = Some e → is_terminal (state_of e) = false →
   (rank (state_of e) < rank (state (status (f (task e)))))%nat ∧ t_id (f (task e)) = t_id (task e)
   ∧ context_id (f (task e)) = context_id (task e) ∧ history (f (task e)) = history (task e)) →
advances (tasks s) (tasks (snd (update iso_ms s id now f))).
Proof.
intros H. destruct (tasks s !! id) as [e|] eqn:He; [|rewrite update_closed by congruence; apply advances_refl].
destruct (is_terminal (state_of e)) eqn:Ht; [rewrite update_closed by congruence; apply advances_refl|].
rewrite (update_open _ _ _ _ e) by done. cbn [snd tasks]. eapply advances_insert; [done|].
destruct (H e eq_refl Ht) as (H1 & H2 & H3 & H4). right. split_and!; done.
Qed.

Lemma rank_open e : shape (task e) → is_terminal (state_of e) = false → (rank (state_of e) < 2)%nat.
Proof. unfold shape. destruct (state_of e); cbn; intros; done || lia. Qed.

Lemma end_advances sv id st m now :
inv sv → is_terminal st = true →
advances (tasks (store sv)) (tasks (snd (update iso_ms (store sv) id now (set_state st m)))).
Proof.
intros I Hst. apply update_advances. intros e He Ht. split_and!; try done. cbn [set_state status state].
pose proof (rank_open e (eo_shape _ _ (i_entry _ I id e He)) Ht). destruct st; cbn in *; done || lia.
Qed.

Lemma moves_kept sv s : inv sv → kept (store sv) s → moves (tasks (store sv)) (tasks s).
Proof.
intros I [K1 K2 K3] id e He. destruct (tasks s !! id) as [e'|] eqn:E.
- pose proof (lookup_weaken _ _ _ _ E K2). left. congruence.
- destruct (K3 id e He E) as [Hs _]. by rewrite <-(shape_settled _ (eo_shape _ _ (i_entry _ I id e He))).
Qed.

Lemma stop_all_advances sv now u :
inv sv → advances (tasks (store sv)) (tasks (store (stop_all iso_ms sv now u))).
Proof.
unfold stop_all. generalize (open_tasks (store sv)) as l. intros l. revert sv.
induction l as [|id l IH]; intros sv I; cbn [fold_left]; [apply advances_refl|].
eapply advances_trans; [|by apply IH, inv_stop_one]. unfold stop_one.
pose proof (end_advances sv id Failed (Some (agent_text (u id)
  "the tengu A2A server stopped before the task finished")) now I eq_refl) as Hm.
destruct (update iso_ms _ _ _ _) as [b s]. exact Hm.
Qed.

Lemma step_moves sv sv' : inv sv → step sv sv' → moves (tasks (store sv)) (tasks (store sv')).
Proof.
intros I H. destruct H as [t req now uc ut H1 H2|t id now u|now u|id r now H1 H2 H3|id r o H1 H2
  |id r o now u H1 H2|id r H1 H2 H3].
- unfold start. destruct (check_message _ _ _ _ req) as [text|e]; [|apply moves_refl].
  destruct (non_empty _); [apply moves_refl|].
  pose proof (make_room_kept (store sv)) as Hm. destruct (make_room _ _) as [[[]|e] s]; cbn [snd store].
  2: { apply moves_kept; [done|]. apply Hm. }
  destruct Hm as [K _]. pose proof (moves_kept sv s I K) as Hk. cbn [tasks].
  intros i x Hx. specialize (Hk i x Hx). rewrite lookup_insert_ne; [done|]. intros <-. congruence.
- unfold cancel, get. destruct (tasks (store sv) !! id) as [e|]; [|apply moves_refl].
  destruct (decide _); [|apply moves_refl]. destruct (is_terminal _); [apply moves_refl|].
  apply advances_moves.
  pose proof (end_advances sv id Canceled (Some (agent_text u "canceled by the client")) now I eq_refl) as Hm.
  destruct (update iso_ms _ _ _ _) as [b s]. exact Hm.
- by apply advances_moves, stop_all_advances.
- unfold begin_run. destruct (update iso_ms _ _ _ _) as [b s] eqn:Eu. cbn [store].
  pose proof (update_advances (store sv) id now (λ t, mkTask (t_id t) (context_id t)
    (mkStatus Working (status_message (status t)) (timestamp (status t))) (artifacts t) (history t) (t_metadata t))) as Hm.
  rewrite Eu in Hm. apply advances_moves, Hm. intros e He Ht. split_and!; try done. cbn [status state].
  destruct (i_run _ I id r H1) as [_ Hr]. destruct (aborted r).
  + rewrite Hr in Ht by done. done.
  + destruct Hr as (e' & He' & Hs & _). assert (e' = e) as -> by congruence. rewrite Hs, H2. cbn. lia.
- apply moves_refl.
- cbn [store]. destruct (i_run _ I id r H1) as [Hid Hr]. destruct (aborted r).
  { rewrite settle_closed by (rewrite Hid; done). apply moves_refl. }
  destruct Hr as (e & He & Hs & _). rewrite H2 in Hs. cbn [phase_state] in Hs.
  assert (Ht : is_terminal (state_of e) = false) by by rewrite Hs.
  destruct (settle_open (store sv) r o now u e) as [-> _]; [by rewrite Hid|done|]. rewrite Hid.
  eapply advances_moves, advances_insert; [done|]. right. split_and!; try done; rewrite ?Hs; destruct o; (done || (cbn; lia)).
- apply moves_refl.
Qed.

(** ** Runs end *)

(** The steps of the runs alone. *)
Inductive run_step (sv : Server) : Server → Prop :=
| rs_begin id r now :
    runs sv !! id = Some r → phase r = Queued → (permits_held sv < Nat.max 1 (max_running limits))%nat →
    run_step sv (begin_run iso_ms sv id r now)
| rs_end id r o :
    runs sv !! id = Some r → phase r = Running →
    run_step sv (mkServer (store sv) (<[id := mkRun (run_target r) (run_turn r) (Ended o) (aborted r)]> (runs sv)))
| rs_settle id r o now uuid :
    runs sv !! id = Some r → phase r = Ended o →
    run_step sv (mkServer (settle_store iso_ms limits (store sv) r o now uuid) (delete id (runs sv))).

Lemma run_step_step sv sv' : run_step sv sv' → step sv sv'.
Proof.
intros [id r now H1 H2 H3|id r o H1 H2|id r o now u H1 H2];
  [by apply step_begin|by apply step_end|by apply step_settle].
Qed.

Definition weight (r : Run) : nat := match phase r with Queued => 3 | Running => 2 | Ended _ => 1 end.
Definition work (rs : gmap string Run) : nat := sum_list_with (λ p, weight (snd p)) (map_to_list rs).

Lemma sum_list_perm {A} (f : A → nat) l k : l ≡ₚ k → sum_list_with f l = sum_list_with f k.
Proof. induction 1; cbn [sum_list_with]; lia. Qed.

Lemma work_insert rs id r : work (<[id := r]> rs) = (weight r + work (delete id rs))%nat.
Proof.
unfold work. rewrite <-insert_delete_eq.
by rewrite (sum_list_perm _ _ _ (map_to_list_insert _ id r (lookup_delete_eq rs id))).
Qed.

Lemma work_delete rs id r : rs !! id = Some r → work rs = (weight r + work (delete id rs))%nat.
Proof. intros H. rewrite <-(insert_id rs id r) at 1 by done. apply work_insert. Qed.

Lemma run_step_works sv sv' : run_step sv sv' → (work (runs sv') < work (runs sv))%nat.
Proof.
intros [id r now H1 H2 H3|id r o H1 H2|id r o now u H1 H2]; rewrite (work_delete _ _ _ H1).
- unfold begin_run. destruct (update iso_ms _ _ _ _) as [[] s]; cbn [runs].
  + rewrite work_insert. unfold weight. rewrite H2. cbn [phase]. lia.
  + unfold weight. rewrite H2. lia.
- cbn [runs]. rewrite work_insert. unfold weight. rewrite H2. cbn [phase]. lia.
- cbn [runs]. unfold weight. rewrite H2. lia.
Qed.

Lemma run_step_advances sv sv' : inv sv → run_step sv sv' →
advances (tasks (store sv)) (tasks (store sv')) ∧ (∀ id, is_Some (tasks (store sv') !! id) → is_Some (tasks (store sv) !! id)).
Proof.
intros I H. pose proof (step_moves _ _ I (run_step_step _ _ H)) as Hm.
assert (Hd : ∀ id, is_Some (tasks (store sv') !! id) ↔ is_Some (tasks (store sv) !! id)).
{ assert (Hu : ∀ s j now f k, is_Some (tasks (snd (update iso_ms s j now f)) !! k) ↔ is_Some (tasks s !! k)).
  { intros s j now f k. unfold update. destruct (tasks s !! j) as [e|] eqn:E; [|done].
    destruct (is_terminal _); [done|]. cbn [snd tasks]. rewrite lookup_insert_is_Some.
    destruct (decide (j = k)) as [<-|N]; [split; [by rewrite E|by left]|]. split; [intros [?|[]]; done|by right]. }
  intros k. destruct H as [id r now H1 H2 H3|id r o H1 H2|id r o now u H1 H2].
  - unfold begin_run. specialize (Hu (store sv) id now (λ t, mkTask (t_id t) (context_id t)
      (mkStatus Working (status_message (status t)) (timestamp (status t))) (artifacts t) (history t) (t_metadata t)) k).
    destruct (update iso_ms _ _ _ _) as [b s]. exact Hu.
  - done.
  - cbn [store]. unfold settle_store. destruct o as [a|e|]; [|apply Hu..].
    specialize (Hu (store sv) (turn_task_id (run_turn r)) now
      (λ t, mkTask (t_id t) (context_id t) (mkStatus Completed None (timestamp (status t)))
              (Some (default [] (artifacts t) ++ [response u (answer_text a)])) (history t) (t_metadata t)) k).
    destruct (update iso_ms _ _ _ _) as [[] s]; [|exact Hu]. by rewrite remember_tasks. }
split; [|intros id; apply Hd]. intros id e He. specialize (Hm id e He).
destruct (tasks (store sv') !! id) as [e'|] eqn:E; [by exists e'|].
destruct (proj2 (Hd id) ltac:(by eexists)) as [? ?]. congruence.
Qed.

(** A run can always go on. *)
Lemma run_enabled sv : inv sv → runs sv ≠ ∅ → ∃ sv', run_step sv sv'.
Proof.
intros I Hne. destruct (decide (permits_held sv = 0)%nat) as [H0|H0].
- apply map_choose in Hne as (id & r & Hr). exists (begin_run iso_ms sv id r 0). apply rs_begin; [done| |lia].
  rewrite permits_holders, (holders_delete _ _ _ Hr) in H0. unfold holds_permit in H0.
  destruct (phase r); [done|cbn in H0; lia..].
- unfold permits_held in H0. destruct (List.filter _ _) as [|[id r] l] eqn:E; [done|].
  assert ((id, r) ∈ List.filter (λ p, holds_permit (snd p)) (map_to_list (runs sv))) as Hin by (rewrite E; constructor).
  rewrite list_elem_of_In, List.filter_In, <-list_elem_of_In, elem_of_map_to_list in Hin. destruct Hin as [Hr Hh].
  cbn [snd] in Hh. unfold holds_permit in Hh. destruct (phase r) as [| |o] eqn:Hp; [done| |].
  + eexists. by apply (rs_end sv id r TimedOut).
  + eexists. by apply (rs_settle sv id r o 0 EmptyString).
Qed.

Lemma runs_drain sv :
inv sv → ∃ sv', rtc run_step sv sv' ∧ inv sv' ∧ runs sv' = ∅
  ∧ advances (tasks (store sv)) (tasks (store sv'))
  ∧ (∀ id, is_Some (tasks (store sv') !! id) → is_Some (tasks (store sv) !! id)).
Proof.
remember (work (runs sv)) as n eqn:Hn. revert sv Hn. induction (lt_wf n) as [n _ IH]. intros sv -> I.
destruct (decide (runs sv = ∅)) as [E|E].
{ exists sv. split_and!; [apply rtc_refl|done|done|apply advances_refl|done]. }
destruct (run_enabled sv I E) as [sv1 H1].
assert (I1 : inv sv1) by (eapply inv_step; [done|by apply run_step_step]).
destruct (IH _ (run_step_works _ _ H1) sv1 eq_refl I1) as (sv' & H2 & I2 & H3 & H4 & H5).
destruct (run_step_advances _ _ I H1) as [A1 A2]. exists sv'. split_and!; [|done|done| |].
- by eapply rtc_l.
- by eapply advances_trans.
- intros id ?. by apply A2, H5.
Qed.

Lemma run_steps_bound n sv sv' : nsteps run_step n sv sv' → (n + work (runs sv') ≤ work (runs sv))%nat.
Proof. induction 1 as [|n a b c H _ IH]; [lia|]. pose proof (run_step_works _ _ H). lia. Qed.

(** ** The theorems *)

(** C37. Whatever requests and runs interleave, the server stays well-formed: at
  most [max_tasks] tasks; every task stored under its own id, published as it
  is, and in a state its content fits - a completed task has one non-empty
  answer and no error, a failed or canceled one a message and no answer, an
  open one neither; every open task has a run that is not aborted, the run of a
  submitted task waiting and that of a working task holding one of at most
  [max_running] permits (one at least); and no context remembers more than
  [context_turns] turns. *)
Theorem server_stays_well_formed sv : reachable sv →
(size (tasks (store sv)) ≤ max_tasks limits)%nat ∧
(∀ id e, tasks (store sv) !! id = Some e →
   t_id (task e) = id ∧ e_feed e = task e ∧ shape (task e) ∧
   (is_terminal (state_of e) = false →
      ∃ r, runs sv !! id = Some r ∧ aborted r = false ∧ run_target r = target e
        ∧ (state_of e = Submitted ↔ holds_permit r = false) ∧ (state_of e = Working ↔ holds_permit r = true))) ∧
(permits_held sv ≤ Nat.max 1 (max_running limits))%nat ∧
(∀ k d, contexts (store sv) !! k = Some d → d ≠ [] ∧ (length d ≤ context_turns limits)%nat).
Proof.
intros R. pose proof (reachable_inv sv R) as I. split_and!; [apply I| |apply I|apply I].
intros id e He. destruct (i_entry _ I id e He) as [H1 H2 H3 H4]. split_and!; [done..|].
intros Ht. destruct (i_live _ I id e He Ht) as (r & Hr & Ha). exists r.
destruct (run_unaborted sv id r e I He Ht Hr) as (_ & Hs & _ & Hg & _). split_and!; [done..|congruence| |].
- rewrite Hs. unfold holds_permit. by destruct (phase r).
- rewrite Hs. unfold holds_permit. by destruct (phase r).
Qed.

(** Tasks only move forward, and a settled task is final: no step of any
  request or run changes a completed, failed or canceled task - a cancel that
  came first wins over the run's own end - or takes an open task away; what a
  step changes of an open task is towards its end, and never its endpoint, its
  context or its messages. Only a task that has ended is ever evicted. *)
Theorem tasks_only_move_forward sv sv' id e :
reachable sv → step sv sv' → tasks (store sv) !! id = Some e →
match tasks (store sv') !! id with
| None => is_terminal (state_of e) = true
| Some e' =>
    e' = e ∨ (is_terminal (state_of e) = false ∧ (rank (state_of e) < rank (state_of e'))%nat
      ∧ t_id (task e') = t_id (task e) ∧ context_id (task e') = context_id (task e)
      ∧ history (task e') = history (task e) ∧ target e' = target e)
end.
Proof. intros R H He. exact (step_moves sv sv' (reachable_inv sv R) H id e He). Qed.

(** C38. Every task settles if its run is let go on: from any reachable state the
  runs can be taken to their ends - no permit is lost and no run is stuck -
  by steps of the runs alone, at most three for each run, after which every
  task that was there is there and has ended. *)
Theorem every_task_can_settle sv : reachable sv →
(∃ sv', rtc run_step sv sv' ∧ runs sv' = ∅ ∧
   ∀ id, (is_Some (tasks (store sv) !! id) ↔ is_Some (tasks (store sv') !! id)) ∧
     ∀ e, tasks (store sv') !! id = Some e → is_terminal (state_of e) = true) ∧
(∀ n sv', nsteps run_step n sv sv' → (n ≤ 3 * size (runs sv))%nat).
Proof.
intros R. pose proof (reachable_inv sv R) as I. split.
- destruct (runs_drain sv I) as (sv' & H1 & I' & H2 & H3 & H4). exists sv'. split_and!; [done|done|].
  intros id. split.
  + split; [|apply H4]. intros [e He]. destruct (H3 id e He) as (e' & -> & _). by eexists.
  + intros e He. destruct (is_terminal (state_of e)) eqn:Ht; [done|].
    destruct (i_live _ I' id e He Ht) as (r & Hr & _). rewrite H2, lookup_empty in Hr. done.
- intros n sv' H. apply run_steps_bound in H.
  enough (work (runs sv) ≤ 3 * size (runs sv))%nat by lia. unfold work.
  rewrite <-length_map_to_list. induction (map_to_list (runs sv)) as [|[i r] l IH]; cbn [sum_list_with length]; [lia|].
  assert (weight r ≤ 3)%nat by (unfold weight; destruct (phase r); lia). cbn [snd]. lia.
Qed.
End server.

(** ** Streams *)

(** What a client makes of an event: the task's state and artifacts. *)
Definition client (c : option (TaskState * list Artifact)) (e : StreamResponse) : option (TaskState * list Artifact) :=
  match e, c with
  | SrTask t, _ => Some (state (status t), artifact_list t)
  | SrStatusUpdate _ _ s, Some (_, l) => Some (state s, l)
  | SrArtifactUpdate _ _ a _ _, Some (s, l) => Some (s, l ++ [a])
  | _, None => None
  end.

(** The task as the stream last read it: the first settled value, or the last. *)
Fixpoint last_read (first : Task) (seen : list Task) : Task :=
  if is_settled (state (status first)) then first
  else match seen with [] => first | t :: seen => last_read t seen end.

(** Each value has at least the artifacts of the one before. *)
Fixpoint growing (first : Task) (seen : list Task) : Prop :=
  match seen with
  | [] => True
  | t :: seen => (∃ more, artifact_list t = artifact_list first ++ more) ∧ growing t seen
  end.

Lemma client_artifacts st l tid cid arts :
  fold_left client (map (λ a, SrArtifactUpdate tid cid a false true) arts) (Some (st, l)) = Some (st, l ++ arts).
Proof.
  revert l. induction arts as [|a arts IH]; intros l; cbn [map fold_left client]; [by rewrite app_nil_r|].
  by rewrite IH, <-app_assoc.
Qed.

Lemma client_turn first t :
  (∃ more, artifact_list t = artifact_list first ++ more) →
  let '(events, st, sent) := stream_turn (state (status first)) (length (artifact_list first)) t in
  fold_left client events (Some (state (status first), artifact_list first))
    = Some (state (status t), artifact_list t)
  ∧ st = state (status t) ∧ sent = length (artifact_list t).
Proof.
  intros [more Hm]. unfold stream_turn. rewrite Hm, drop_app_length.
  assert (Hmax : Nat.max (length (artifact_list first)) (length (artifact_list first ++ more))
    = length (artifact_list first ++ more)) by (rewrite length_app; lia).
  destruct (decide (state (status t) = state (status first))) as [E|N].
  - rewrite client_artifacts, E. split_and!; done.
  - rewrite fold_left_app, client_artifacts. split_and!; done.
Qed.

Lemma stream_loop_client seen first :
  is_settled (state (status first)) = false → growing first seen →
  fold_left client (stream_loop (state (status first)) (length (artifact_list first)) seen)
    (Some (state (status first), artifact_list first))
  = Some (state (status (last_read first seen)), artifact_list (last_read first seen)).
Proof.
  revert first. induction seen as [|t seen IH]; intros first Hs Hg; cbn [stream_loop last_read]; rewrite Hs; [done|].
  destruct Hg as [Hm Hg]. pose proof (client_turn first t Hm) as Ht.
  destruct (stream_turn _ _ t) as [[events st] sent]. destruct Ht as (H1 & -> & ->).
  rewrite fold_left_app, H1. destruct (is_settled (state (status t))) eqn:E; [|by apply IH].
  cbn [fold_left]. destruct seen; cbn [last_read]; by rewrite E.
Qed.

(** A stream replays its task: a client that takes the events in order -
    the task, then each artifact and each change of state - holds at any end of
    the stream exactly the state and the artifacts of the task as last read,
    however many of its values the feed skipped, none sent twice; and the stream
    reads nothing past the first settled value. *)
Theorem streams_replay_the_task first seen :
  growing first seen →
  fold_left client (stream first seen) None
  = Some (state (status (last_read first seen)), artifact_list (last_read first seen)).
Proof.
  intros Hg. unfold stream. cbn [fold_left client]. destruct (is_settled (state (status first))) eqn:E.
  - cbn [fold_left]. destruct seen; cbn [last_read]; by rewrite E.
  - by apply stream_loop_client.
Qed.

(** ** Samples *)

Definition sample_limits : Limits := mkLimits 2 1 3 60.
Definition sample_message (text : string) : SendMessageRequest :=
  mkSend (mkMessage "m1" (Some "ctx") None RoleUser [part_text text] None [] []) None.

#[local] Notation sample_start := (start (λ _, "now"%string) (λ _, EmptyString) (λ _, Err EmptyString) (λ _, None)
  (λ _, EmptyString) sample_limits).
#[local] Notation sample_step := (step (λ _, "now"%string) (λ _, EmptyString) (λ _, Err EmptyString) (λ _, None)
  (λ _, EmptyString) sample_limits).
#[local] Notation sample_reachable := (reachable (λ _, "now"%string) (λ _, EmptyString) (λ _, Err EmptyString) (λ _, None)
  (λ _, EmptyString) sample_limits).

Definition sample_server : Server := snd (sample_start server_new Planner (sample_message "hi") 5 "u1" "t1").

Lemma sample_server_reachable : sample_reachable sample_server.
Proof. eapply rtc_l; [|apply rtc_refl]. apply step_send; vm_compute; reflexivity. Qed.

Definition sample_canceled : Server := snd (cancel (λ _, "now"%string) sample_server Planner "t1" 6 "u2").

Lemma server_stays_well_formed_witness :
  (size (tasks (store sample_server)) ≤ 2)%nat ∧ size (tasks (store sample_server)) = 1%nat.
Proof.
  split; [|vm_compute; reflexivity].
  exact (proj1 (server_stays_well_formed _ _ _ _ _ sample_limits sample_server sample_server_reachable)).
Defined.

Lemma tasks_only_move_forward_witness :
  match tasks (store sample_server) !! "t1"%string, tasks (store sample_canceled) !! "t1"%string with
  | Some e, Some e' => (rank (state (status (task e))) < rank (state (status (task e'))))%nat
  | _, _ => False
  end.
Proof.
  pose proof (tasks_only_move_forward (λ _, "now"%string) (λ _, EmptyString) (λ _, Err EmptyString) (λ _, None)
    (λ _, EmptyString) sample_limits sample_server sample_canceled "t1") as H.
  destruct (tasks (store sample_server) !! "t1"%string) as [e|] eqn:E; [|vm_compute in E; discriminate E].
  specialize (H e sample_server_reachable (step_cancel _ _ _ _ _ _ _ Planner "t1" 6 "u2") eq_refl).
  destruct (tasks (store sample_canceled) !! "t1"%string) as [e'|] eqn:E'; [|vm_compute in E'; discriminate E'].
  destruct H as [H|H]; [|apply H]. exfalso.
  vm_compute in E, E'. injection E as <-. injection E' as <-. discriminate H.
Defined.

Lemma every_task_can_settle_witness :
  ∃ sv', rtc (run_step (λ _, "now"%string) sample_limits) sample_server sv' ∧ runs sv' = ∅.
Proof.
  destruct (every_task_can_settle (λ _, "now"%string) (λ _, EmptyString) (λ _, Err EmptyString) (λ _, None)
    (λ _, EmptyString) sample_limits sample_server sample_server_reachable) as [(sv' & H1 & H2 & _) _].
  exists sv'. split; [exact H1|exact H2].
Defined.

Lemma streams_replay_the_task_witness :
  let t st arts := mkTask "t" "c" (mkStatus st None None) (Some arts) None None in
  let first := t Submitted [] in
  let seen := [t Working []; t Completed [response "u" "ok"]] in
  fold_left client (stream first seen) None = Some (Completed, [response "u" "ok"]).
Proof.
  intros t first seen. refine (streams_replay_the_task first seen _).
  split; [exists []; reflexivity|]. split; [exists [response "u" "ok"]; reflexivity|exact I].
Defined.
