(* ===== verification/IpAddr.v ===== *)
(** * IpAddr: what the scope checks use of [core::net]

    The standard library's reader of an IP literal ([str::parse::<IpAddr>]):
    dotted IPv4, and IPv6 with [::] and an embedded IPv4. A reader takes bytes
    from the front of the text and gives the rest; one that fails takes
    nothing. *)

From Stdlib Require Import Ascii String.
From S2P Require Import Prelude.
From S2P Require Import Text.
From S2P Require Import Bytes.

#[local] Open Scope string_scope.
#[local] Open Scope list_scope.
#[local] Open Scope Z_scope.

Definition reader (A : Type) : Type := list ascii → option (A * list ascii).

(** [char::to_digit] for radix 10 and 16. *)
Definition to_digit (radix : Z) (c : ascii) : option Z :=
  let n := code c in
  let d := if in_range 48 57 n then n - 48
           else if in_range 97 122 n then n - 87
           else if in_range 65 90 n then n - 55
           else radix in
  if d <? radix then Some d else None.

Definition read_given_char (c : ascii) : reader () := λ s,
  match s with
  | a :: s => if Ascii.eqb a c then Some ((), s) else None
  | [] => None
  end.

(** Reads digits while there are any; [None] past [max_digits] of them. *)
Fixpoint digits_loop (radix : Z) (max_digits n : nat) (acc : Z) (s : list ascii) : option (Z * nat * list ascii) :=
  match s with
  | c :: r =>
      match to_digit radix c with
      | Some d => if (max_digits <? S n)%nat then None else digits_loop radix max_digits (S n) (acc * radix + d) r
      | None => Some (acc, n, s)
      end
  | [] => Some (acc, n, s)
  end.

Definition read_number (radix : Z) (max_digits : nat) (allow_zero_prefix : bool) (top : Z) : reader Z := λ s,
  let has_leading_zero := match s with c :: _ => Ascii.eqb c "0" | [] => false end in
  match digits_loop radix max_digits 0 0 s with
  | None => None
  | Some (v, n, r) =>
      if (n =? 0)%nat then None
      else if negb allow_zero_prefix && has_leading_zero && (1 <? n)%nat then None
      else if v <=? top then Some (v, r) else None
  end.

(** The separator comes before every element but the first. *)
Definition read_separator {A} (sep : ascii) (index : nat) (inner : reader A) : reader A := λ s,
  if (index =? 0)%nat then inner s
  else match read_given_char sep s with Some (_, s) => inner s | None => None end.

Notation Ipv4Addr := (Z * Z * Z * Z)%type.

Definition read_octet (i : nat) : reader Z := read_separator "." i (read_number 10 3 false u8_max).

Definition read_ipv4_addr : reader Ipv4Addr := λ s,
  '(a, s) ← read_octet 0 s;
  '(b, s) ← read_octet 1 s;
  '(c, s) ← read_octet 2 s;
  '(d, s) ← read_octet 3 s;
  Some ((a, b, c, d), s).

Definition read_group (i : nat) : reader Z := read_separator ":" i (read_number 16 4 true u16_max).

(** [read_groups] into [limit] slots: the groups from the [i]th on, and whether
    they end in an embedded IPv4 address. *)
Fixpoint read_groups_from (fuel limit i : nat) (s : list ascii) : list Z * bool * list ascii :=
  match fuel with
  | O => ([], false, s)
  | S fuel =>
      let embedded :=
        if (i <? limit - 1)%nat then read_separator ":" i read_ipv4_addr s else None in
      match embedded with
      | Some ((a, b, c, d), s) => ([a * 256 + b; c * 256 + d], true, s)
      | None =>
          match read_group i s with
          | Some (g, s) => let '(gs, v4, s) := read_groups_from fuel limit (S i) s in (g :: gs, v4, s)
          | None => ([], false, s)
          end
      end
  end.
Definition read_groups (limit : nat) (s : list ascii) : list Z * bool * list ascii := read_groups_from limit limit 0 s.

(** The eight segments. *)
Definition read_ipv6_addr : reader (list Z) := λ s,
  let '(head, head_ipv4, s) := read_groups 8 s in
  if (length head =? 8)%nat then Some (head, s)
  else if head_ipv4 then None
  else
    '(_, s) ← read_given_char ":" s;
    '(_, s) ← read_given_char ":" s;
    let limit := (8 - (length head + 1))%nat in
    let '(tail, _, s) := read_groups limit s in
    Some (head ++ replicate (8 - length head - length tail) 0 ++ tail, s).

Inductive IpAddr : Type := V4 (ip : Ipv4Addr) | V6 (segments : list Z).

Definition read_ip_addr : reader IpAddr := λ s,
  match read_ipv4_addr s with
  | Some (ip, s) => Some (V4 ip, s)
  | None => match read_ipv6_addr s with Some (g, s) => Some (V6 g, s) | None => None end
  end.

(** [IpAddr::from_str]: the whole text is read. *)
Definition parse_ip (s : string) : option IpAddr :=
  match read_ip_addr (bytes s) with Some (ip, []) => Some ip | _ => None end.

(** ** The predicates *)

Definition v4_is_loopback (ip : Ipv4Addr) : bool := let '(a, _, _, _) := ip in a =? 127.
Definition v4_is_private (ip : Ipv4Addr) : bool :=
  let '(a, b, _, _) := ip in
  (a =? 10) || ((a =? 172) && in_range 16 31 b) || ((a =? 192) && (b =? 168)).
Definition v4_is_link_local (ip : Ipv4Addr) : bool := let '(a, b, _, _) := ip in (a =? 169) && (b =? 254).
Definition v4_is_unspecified (ip : Ipv4Addr) : bool := bool_decide (ip = (0, 0, 0, 0)).

Definition v6_is_loopback (g : list Z) : bool := bool_decide (g = [0; 0; 0; 0; 0; 0; 0; 1]).
Definition v6_is_unspecified (g : list Z) : bool := bool_decide (g = [0; 0; 0; 0; 0; 0; 0; 0]).
Definition to_ipv4_mapped (g : list Z) : option Ipv4Addr :=
  match g with
  | [0; 0; 0; 0; 0; 65535; ab; cd] => Some (ab / 256, ab mod 256, cd / 256, cd mod 256)
  | _ => None
  end.

(** ** Texts of addresses *)

Definition hex_char (d : Z) : ascii := if d <? 10 then digit_char d else ascii_of_N (Z.to_N (87 + d)).
(** [{:x}] of a [u16]. *)
Definition show_hex16 (v : Z) : list ascii :=
  if v <? 16 then [hex_char v]
  else if v <? 256 then [hex_char (v / 16); hex_char (v mod 16)]
  else if v <? 4096 then [hex_char (v / 256); hex_char (v / 16 mod 16); hex_char (v mod 16)]
  else [hex_char (v / 4096); hex_char (v / 256 mod 16); hex_char (v / 16 mod 16); hex_char (v mod 16)].

Definition show_v4 (ip : Ipv4Addr) : list ascii :=
  let '(a, b, c, d) := ip in
  bytes (show_N a) ++ "."%char :: bytes (show_N b) ++ "."%char :: bytes (show_N c) ++ "."%char :: bytes (show_N d).

(** Groups between colons, the first of them the [i]th. *)
Fixpoint show_groups_from (i : nat) (gs : list Z) : list ascii :=
  match gs with
  | [] => []
  | g :: gs => (if (i =? 0)%nat then [] else [":"%char]) ++ show_hex16 g ++ show_groups_from (S i) gs
  end.
Definition show_groups : list Z → list ascii := show_groups_from 0.

(** An IPv6 address with its zeros between [head] and [tail] left out. *)
Definition show_v6_short (head tail : list Z) : list ascii :=
  show_groups head ++ [":"%char; ":"%char] ++ show_groups tail.

Example parse_ip_v4 : parse_ip "172.16.0.1" = Some (V4 (172, 16, 0, 1)).
Proof. vm_compute. reflexivity. Qed.
Example parse_ip_zero : parse_ip "127.0.0.01" = None.
Proof. vm_compute. reflexivity. Qed.
Example parse_ip_mapped : parse_ip "::ffff:192.168.0.1" = Some (V6 [0; 0; 0; 0; 0; 65535; 49320; 1]).
Proof. vm_compute. reflexivity. Qed.
Example parse_ip_tail : parse_ip "2606:4700::1111" = Some (V6 [9734; 18176; 0; 0; 0; 0; 0; 4369]).
Proof. vm_compute. reflexivity. Qed.
Example parse_ip_port : parse_ip "1.2.3.4:80" = None.
Proof. vm_compute. reflexivity. Qed.
Example parse_ip_seven : parse_ip "1:2:3:4:5:6:7::" = Some (V6 [1; 2; 3; 4; 5; 6; 7; 0]).
Proof. vm_compute. reflexivity. Qed.

(** ** What is read is in range *)

Definition octet (v : Z) : Prop := 0 ≤ v ≤ 255.
Definition v4_ok (ip : Ipv4Addr) : Prop := let '(a, b, c, d) := ip in octet a ∧ octet b ∧ octet c ∧ octet d.
Definition group_ok (v : Z) : Prop := 0 ≤ v ≤ 65535.
Definition v6_ok (g : list Z) : Prop := length g = 8%nat ∧ Forall group_ok g.

Lemma to_digit_range radix c d : 0 ≤ radix → to_digit radix c = Some d → 0 ≤ d < radix.
Proof.
  intros Hr. unfold to_digit. case_match eqn:E; [|done]. intros [= <-]. apply Z.ltb_lt in E. split; [|done].
  clear E. repeat case_match; rewrite ?in_range_spec in *; lia.
Qed.

Lemma digits_loop_nonneg radix max n acc s v k r :
  0 ≤ radix → 0 ≤ acc → digits_loop radix max n acc s = Some (v, k, r) → 0 ≤ v.
Proof.
  intros Hr. revert n acc. induction s as [|c s IH]; intros n acc Ha; cbn [digits_loop]; [by intros [= <- <- <-]|].
  destruct (to_digit radix c) as [d|] eqn:Ed; [|by intros [= <- <- <-]].
  case_match; [done|]. apply IH. pose proof (to_digit_range _ _ _ Hr Ed). nia.
Qed.

Lemma read_number_range radix max z top s v r : 0 ≤ radix → read_number radix max z top s = Some (v, r) → 0 ≤ v ≤ top.
Proof.
  intros Hr. unfold read_number. destruct (digits_loop _ _ _ _ _) as [[[w n] r']|] eqn:E; [|done].
  destruct (n =? 0)%nat; [done|]. destruct (negb z && _ && _); [done|].
  destruct (Z.leb_spec w top) as [Et|]; [|done]. intros [= <- <-]. split; [|done]. by apply digits_loop_nonneg in E.
Qed.

Lemma read_octet_range i s v r : read_octet i s = Some (v, r) → octet v.
Proof.
  unfold read_octet, read_separator. case_match.
  - intros E. apply read_number_range in E; done.
  - destruct (read_given_char _ _) as [[u s']|]; [|done]. intros E. apply read_number_range in E; done.
Qed.
Lemma read_group_range i s v r : read_group i s = Some (v, r) → group_ok v.
Proof.
  unfold read_group, read_separator. case_match.
  - intros E. apply read_number_range in E; done.
  - destruct (read_given_char _ _) as [[u s']|]; [|done]. intros E. apply read_number_range in E; done.
Qed.

Lemma read_ipv4_ok s ip r : read_ipv4_addr s = Some (ip, r) → v4_ok ip.
Proof.
  unfold read_ipv4_addr. intros E.
  do 4 (apply bind_Some in E as ([? ?] & ? & E)). injection E as <- <-. cbn.
  split_and!; by eapply read_octet_range.
Qed.

Lemma read_groups_ok fuel limit i s gs v4 r :
  (i + fuel = limit)%nat → read_groups_from fuel limit i s = (gs, v4, r) → (length gs ≤ fuel)%nat ∧ Forall group_ok gs.
Proof.
  revert i s gs v4 r. induction fuel as [|fuel IH]; intros i s gs v4 r Hl; cbn [read_groups_from].
  { intros [= <- <- <-]. cbn. split; [lia|constructor]. }
  set (e := if (i <? limit - 1)%nat then _ else _).
  destruct e as [[[[[a b] c] d] s']|] eqn:Ee.
  - intros [= <- <- <-]. unfold e in Ee. case_match eqn:El; [|done]. apply Nat.ltb_lt in El.
    assert (v4_ok (a, b, c, d)) as (Ha & Hb & Hc & Hd).
    { unfold read_separator in Ee. case_match; [by eapply read_ipv4_ok|].
      destruct (read_given_char _ _) as [[u s'']|]; [|done]. by eapply read_ipv4_ok. }
    unfold octet in *. split; [cbn; lia|]. repeat constructor; cbn; lia.
  - destruct (read_group i s) as [[g s']|] eqn:Eg.
    + destruct (read_groups_from fuel limit (S i) s') as [[gs' w] s''] eqn:Er. intros [= <- <- <-].
      apply IH in Er as [H1 H2]; [|lia]. split; [cbn; lia|]. constructor; [by eapply read_group_range|done].
    + intros [= <- <- <-]. cbn. split; [lia|constructor].
Qed.

Lemma read_ipv6_ok s g r : read_ipv6_addr s = Some (g, r) → v6_ok g.
Proof.
  unfold read_ipv6_addr. destruct (read_groups 8 s) as [[head w] s'] eqn:Eh.
  apply read_groups_ok in Eh as [Hl Hh]; [|done]. case_match eqn:E8.
  { intros [= <- <-]. apply Nat.eqb_eq in E8. by split. }
  apply Nat.eqb_neq in E8. case_match; [done|]. intros E.
  apply bind_Some in E as ([? ?] & _ & E). apply bind_Some in E as ([? ?] & _ & E).
  destruct (read_groups _ _) as [[tail w'] s''] eqn:Et. injection E as <- <-.
  apply read_groups_ok in Et as [Hl' Ht]; [|done]. split.
  - rewrite !length_app, length_replicate. lia.
  - rewrite !Forall_app. split_and!; [done| |done]. apply Forall_replicate. unfold group_ok. lia.
Qed.

Lemma parse_ip_ok s ip : parse_ip s = Some ip → match ip with V4 ip => v4_ok ip | V6 g => v6_ok g end.
Proof.
  unfold parse_ip, read_ip_addr. destruct (read_ipv4_addr _) as [[v r]|] eqn:E4.
  - destruct r; [|done]. intros [= <-]. by eapply read_ipv4_ok.
  - destruct (read_ipv6_addr _) as [[g r]|] eqn:E6; [|done]. destruct r; [|done]. intros [= <-]. by eapply read_ipv6_ok.
Qed.

(** ** Printed addresses are read back *)

Definition no_digit (radix : Z) (rest : list ascii) : Prop :=
  match rest with c :: _ => to_digit radix c = None | [] => True end.

Lemma digits_loop_text radix max n acc l rest :
  forallb (λ c, is_some (to_digit radix c)) l = true → no_digit radix rest → (n + length l ≤ max)%nat →
  digits_loop radix max n acc (l ++ rest)
  = (λ p, (fst p, snd p ++ rest)) <$> digits_loop radix max n acc l.
Proof.
  revert n acc. induction l as [|c l IH]; intros n acc Hd Hr Hm; cbn [app digits_loop].
  - cbn. destruct rest as [|c rest]; [done|]. cbn in Hr |- *. by rewrite Hr.
  - cbn in Hd. apply andb_prop in Hd as [Hc Hl]. destruct (to_digit radix c); [|done].
    cbn in Hm. destruct (Nat.ltb_spec max (S n)); [lia|]. apply IH; [done|done|lia].
Qed.

(** [l] is a text of [v] that the number reader takes whole. *)
Definition number_text (radix : Z) (max : nat) (z : bool) (top v : Z) (l : list ascii) : bool :=
  bool_decide (l ≠ []) && forallb (λ c, is_some (to_digit radix c)) l && (length l <=? max)%nat
  && bool_decide (read_number radix max z top l = Some (v, [])).

Lemma read_number_text radix max z top v l rest :
  number_text radix max z top v l = true → no_digit radix rest → read_number radix max z top (l ++ rest) = Some (v, rest).
Proof.
  unfold number_text. intros [[[H1%bool_decide_eq_true H2]%andb_prop H3%Nat.leb_le]%andb_prop H4%bool_decide_eq_true]%andb_prop Hr.
  unfold read_number in *. rewrite digits_loop_text by done.
  destruct (digits_loop radix max 0 0 l) as [[[w n] r]|]; [|done]. cbn.
  destruct l as [|c l]; [done|]. cbn [app]. destruct (n =? 0)%nat; [done|].
  destruct (negb z && _ && _); [done|]. destruct (w <=? top); [|done]. by injection H4 as -> ->.
Qed.

Definition octet_text (v : Z) : bool := number_text 10 3 false u8_max v (bytes (show_N v)).
Lemma all_octets : forallb octet_text (seqZ 0 256) = true.
Proof. vm_compute. reflexivity. Qed.
Lemma octet_text_ok v : octet v → octet_text v = true.
Proof.
  unfold octet. intros H. pose proof all_octets as A. rewrite forallb_forall in A. apply A.
  apply list_elem_of_In, elem_of_seqZ. lia.
Qed.
Definition nibbles : list Z := seqZ 0 16.
Lemma nibbles_forall (p : Z → bool) v : forallb p nibbles = true → 0 ≤ v < 16 → p v = true.
Proof. intros A H. rewrite forallb_forall in A. apply A, list_elem_of_In, elem_of_seqZ. lia. Qed.

Lemma hex_char_digit d : 0 ≤ d < 16 → to_digit 16 (hex_char d) = Some d.
Proof.
  intros Hd. apply (nibbles_forall (λ d, bool_decide (to_digit 16 (hex_char d) = Some d))) in Hd; [|vm_compute; reflexivity].
  by apply bool_decide_eq_true in Hd.
Qed.
Lemma digits_step n acc d r :
  0 ≤ d < 16 → (S n ≤ 4)%nat →
  digits_loop 16 4 n acc (hex_char d :: r) = digits_loop 16 4 (S n) (acc * 16 + d) r.
Proof. intros Hd Hn. cbn [digits_loop]. rewrite hex_char_digit by done. destruct (Nat.ltb_spec 4 (S n)); [lia|done]. Qed.
Lemma digits_done n acc rest : no_digit 16 rest → digits_loop 16 4 n acc rest = Some (acc, n, rest).
Proof. destruct rest as [|c rest]; [done|]. cbn. by intros ->. Qed.

(** The value of its digits, and how many there are. *)
Lemma digits_hex16 v rest :
  group_ok v → no_digit 16 rest → ∃ n, (0 < n)%nat ∧ digits_loop 16 4 0 0 (show_hex16 v ++ rest) = Some (v, n, rest).
Proof.
  unfold group_ok. intros Hv Hr.
  pose proof (Z.div_mod v 16 ltac:(lia)) as H1. pose proof (Z.div_mod (v / 16) 16 ltac:(lia)) as H2.
  pose proof (Z.div_mod (v / 256) 16 ltac:(lia)) as H3.
  rewrite Z.div_div in H2 by lia. rewrite Z.div_div in H3 by lia.
  change (16 * 16) with 256 in H2. change (256 * 16) with 4096 in H3.
  assert (∀ k, 0 ≤ v / k mod 16 < 16) as Hm by (intros; apply Z.mod_pos_bound; lia).
  pose proof (Z.mod_pos_bound v 16 ltac:(lia)) as Hm0.
  assert (∀ k, 0 < k → v < 16 * k → 0 ≤ v / k < 16) as Hq.
  { intros k Hk Hlt. split; [apply Z.div_pos; lia|]. apply Z.div_lt_upper_bound; lia. }
  unfold show_hex16.
  destruct (Z.ltb_spec v 16); [|destruct (Z.ltb_spec v 256); [|destruct (Z.ltb_spec v 4096)]]; cbn [app];
    repeat (rewrite digits_step by (apply Hm || (apply Hq; lia) || lia)); rewrite digits_done by done;
    eexists; (split; [|do 3 f_equal; lia]); lia.
Qed.
Lemma read_hex16 v rest : group_ok v → no_digit 16 rest → read_number 16 4 true u16_max (show_hex16 v ++ rest) = Some (v, rest).
Proof.
  intros Hv Hr. unfold read_number. destruct (digits_hex16 v rest Hv Hr) as (n & Hn & ->).
  destruct (Nat.eqb_spec n 0); [lia|]. cbn [negb andb]. destruct (Z.leb_spec v u16_max) as [|H]; [done|].
  unfold group_ok in Hv. change u16_max with 65535 in H. lia.
Qed.

Lemma read_octet_first v rest :
  octet v → no_digit 10 rest → read_octet 0 (bytes (show_N v) ++ rest) = Some (v, rest).
Proof. intros H%octet_text_ok Hr. apply read_number_text; done. Qed.
Lemma read_octet_next i v rest :
  octet v → no_digit 10 rest → read_octet (S i) ("."%char :: bytes (show_N v) ++ rest) = Some (v, rest).
Proof. intros H%octet_text_ok Hr. apply read_number_text; done. Qed.
Lemma read_group_first v rest :
  group_ok v → no_digit 16 rest → read_group 0 (show_hex16 v ++ rest) = Some (v, rest).
Proof. apply read_hex16. Qed.
Lemma read_group_next i v rest :
  group_ok v → no_digit 16 rest → read_group (S i) (":"%char :: show_hex16 v ++ rest) = Some (v, rest).
Proof. apply read_hex16. Qed.

Lemma read_v4_text ip rest : v4_ok ip → no_digit 10 rest → read_ipv4_addr (show_v4 ip ++ rest) = Some (ip, rest).
Proof.
  destruct ip as [[[a b] c] d]. intros (Ha & Hb & Hc & Hd) Hr. unfold show_v4, read_ipv4_addr.
  do 3 (rewrite <-app_assoc; cbn [app]).
  rewrite read_octet_first by done. cbn [mbind option_bind].
  do 3 (rewrite read_octet_next by done; cbn [mbind option_bind]). done.
Qed.

(** The dotted text of an address is read as that address. *)
Lemma parse_v4_text ip : v4_ok ip → parse_ip (of_bytes (show_v4 ip)) = Some (V4 ip).
Proof.
  intros H. unfold parse_ip, read_ip_addr. rewrite bytes_of_bytes.
  rewrite <-(app_nil_r (show_v4 ip)), read_v4_text by done. done.
Qed.

(** An IPv6 group is never taken for the start of an embedded IPv4 address. *)
Definition no_dot (rest : list ascii) : Prop := match rest with c :: _ => c ≠ "."%char | [] => True end.

Lemma digits_loop_rest radix max n acc s v k r :
  digits_loop radix max n acc s = Some (v, k, r) → ∃ l, s = l ++ r ∧ forallb (λ c, is_some (to_digit radix c)) l = true ∧ no_digit radix r.
Proof.
  revert n acc. induction s as [|c s IH]; intros n acc; cbn [digits_loop]; [by intros [= <- <- <-]; exists []|].
  destruct (to_digit radix c) as [d|] eqn:Ed.
  - case_match; [done|]. intros (l & -> & Hl & Hr)%IH. exists (c :: l). cbn. by rewrite Ed.
  - intros [= <- <- <-]. exists []. split_and!; [done..|]. exact Ed.
Qed.
Lemma decimal_is_hex c : is_some (to_digit 10 c) = true → is_some (to_digit 16 c) = true.
Proof.
  unfold to_digit. destruct (in_range 48 57 (code c)), (in_range 97 122 (code c)), (in_range 65 90 (code c));
    match goal with |- is_some (if ?x <? 10 then _ else _) = true → _ => destruct (Z.ltb_spec x 10) as [H|]; [|done] end;
    intros _; match goal with |- is_some (if ?x <? 16 then _ else _) = true => destruct (Z.ltb_spec x 16); [done|lia] end.
Qed.
Lemma digits_not_v4 l rest :
  forallb (λ c, is_some (to_digit 16 c)) l = true → no_digit 16 rest → no_dot rest → read_ipv4_addr (l ++ rest) = None.
Proof.
  intros Hl Hr Hd. unfold read_ipv4_addr. destruct (read_octet 0 (l ++ rest)) as [[v s]|] eqn:E; [|done].
  cbn [mbind option_bind]. enough (read_octet 1 s = None) as -> by done.
  unfold read_octet, read_separator, read_number in E. cbn [Nat.eqb] in E.
  destruct (digits_loop _ _ _ _ _) as [[[w n] r]|] eqn:El; [|done].
  apply digits_loop_rest in El as (k & Ek & Hk & Hs).
  assert (r = s) as ->.
  { destruct (n =? 0)%nat; [done|]. destruct (negb _ && _ && _); [done|]. destruct (_ <=? _); [|done]. congruence. }
  clear E. unfold read_octet, read_separator. cbn [Nat.eqb].
  enough (read_given_char "." s = None) as -> by done.
  destruct s as [|c s]; [done|]. cbn. destruct (Ascii.eqb_spec c ".") as [->|]; [|done]. exfalso.
  revert Ek Hl Hk Hr Hd. clear. revert k. induction l as [|a l IH]; intros k Ek Hl Hk Hr Hd.
  - cbn in Ek. destruct k as [|b k]; [cbn in Ek; by subst rest|]. subst rest. cbn in Hk, Hr.
    apply andb_prop in Hk as [Hk _]. apply decimal_is_hex in Hk. by rewrite Hr in Hk.
  - destruct k as [|b k].
    + cbn in Ek. injection Ek as -> <-. done.
    + cbn in Ek, Hl, Hk. injection Ek as -> Ek. apply andb_prop in Hl as [_ Hl], Hk as [_ Hk]. by apply (IH k).
Qed.

Lemma no_v4_inside i l rest :
  forallb (λ c, is_some (to_digit 16 c)) l = true → no_digit 16 rest → no_dot rest →
  read_separator ":" i read_ipv4_addr ((if (i =? 0)%nat then [] else [":"%char]) ++ l ++ rest) = None.
Proof. intros Hl Hr Hd. destruct i; cbn; by apply digits_not_v4. Qed.

Lemma show_hex16_digits g : group_ok g → forallb (λ c, is_some (to_digit 16 c)) (show_hex16 g) = true.
Proof.
  intros H. destruct (digits_hex16 g [] H I) as (n & _ & E). apply digits_loop_rest in E as (l & E & Hl & _).
  rewrite !app_nil_r in E. by subst l.
Qed.

(** What ends a run of groups: the end of the text, or [::]. *)
Definition groups_end (rest : list ascii) : Prop := rest = [] ∨ ∃ r, rest = ":"%char :: ":"%char :: r.

Lemma groups_stop fuel limit i rest : groups_end rest → read_groups_from fuel limit i rest = ([], false, rest).
Proof.
  intros H. destruct fuel as [|fuel]; [done|]. cbn [read_groups_from].
  assert (read_separator ":" i read_ipv4_addr rest = None) as -> by (by destruct i, H as [->|[r ->]]).
  assert (read_group i rest = None) as -> by (by destruct i, H as [->|[r ->]]).
  by destruct (_ <? _)%nat.
Qed.

Lemma show_groups_stops i gs rest :
  i ≠ 0%nat → groups_end rest → no_digit 16 (show_groups_from i gs ++ rest) ∧ no_dot (show_groups_from i gs ++ rest).
Proof.
  intros Hi Hr. destruct gs as [|g gs]; cbn.
  - destruct Hr as [->|[r ->]]; done.
  - destruct (Nat.eqb_spec i 0); [done|]. done.
Qed.

Lemma read_show_groups fuel limit i gs rest :
  (length gs ≤ fuel)%nat → Forall group_ok gs → groups_end rest →
  read_groups_from fuel limit i (show_groups_from i gs ++ rest) = (gs, false, rest).
Proof.
  intros Hf Hg Hr. revert fuel i Hf. induction Hg as [|g gs Hg _ IH]; intros fuel i Hf; cbn [show_groups_from app].
  { by apply groups_stop. }
  destruct fuel as [|fuel]; [cbn in Hf; lia|]. cbn in Hf. cbn [read_groups_from].
  destruct (show_groups_stops (S i) gs rest) as [Hd Hp]; [done|done|].
  rewrite <-!app_assoc. rewrite no_v4_inside by (done || by apply show_hex16_digits).
  assert (read_group i ((if (i =? 0)%nat then [] else [":"%char]) ++ show_hex16 g ++ show_groups_from (S i) gs ++ rest)
          = Some (g, show_groups_from (S i) gs ++ rest)) as ->.
  { destruct i; [by apply read_group_first|by apply read_group_next]. }
  rewrite IH by lia. by destruct (_ <? _)%nat.
Qed.

Lemma show_groups_not_v4 gs rest : Forall group_ok gs → groups_end rest → read_ipv4_addr (show_groups gs ++ rest) = None.
Proof.
  intros [|g gs' Hg _] Hr; cbn.
  - by destruct Hr as [->|[r ->]].
  - rewrite <-app_assoc. destruct (show_groups_stops 1 gs' rest) as [Hd Hp]; [done|done|].
    apply digits_not_v4; [by apply show_hex16_digits|done|done].
Qed.

(** The eight groups, written out, are read as that address. *)
Lemma parse_v6_text g : v6_ok g → parse_ip (of_bytes (show_groups g)) = Some (V6 g).
Proof.
  intros [Hl Hg]. unfold parse_ip, read_ip_addr. rewrite bytes_of_bytes.
  assert (groups_end []) as He by (by left).
  rewrite <-(app_nil_r (show_groups g)), show_groups_not_v4 by done.
  unfold read_ipv6_addr, read_groups, show_groups. rewrite read_show_groups by (done || lia). by rewrite Hl.
Qed.

(** So is the text with one run of zeros left out. *)
Lemma parse_v6_short head tail :
  Forall group_ok head → Forall group_ok tail → (length head + length tail ≤ 7)%nat →
  parse_ip (of_bytes (show_v6_short head tail))
  = Some (V6 (head ++ replicate (8 - length head - length tail) 0 ++ tail)).
Proof.
  intros Hh Ht Hl. unfold parse_ip, read_ip_addr, show_v6_short. rewrite bytes_of_bytes.
  assert (groups_end ([":"%char; ":"%char] ++ show_groups tail)) as He by (right; by eexists).
  assert (groups_end []) as He' by (by left).
  rewrite show_groups_not_v4 by done. unfold read_ipv6_addr, read_groups, show_groups.
  rewrite read_show_groups by (done || lia). destruct (Nat.eqb_spec (length head) 8); [lia|].
  do 2 (cbn [app read_given_char]; rewrite Ascii.eqb_refl; cbn [mbind option_bind]).
  rewrite <-(app_nil_r (show_groups_from 0 tail)).
  rewrite read_show_groups by (done || lia). done.
Qed.
