(* ===== verification/Scope.v ===== *)
(** * Default-deny scopes of the tools ([src/src/domain/scope.rs],
    [src/src/adapters/outbound/tools/args.rs])

    What a tool may touch: hosts, environment variables, binaries, wallets and
    paths; the names no writer may write; the quoting and splitting of shell
    commands. A path is its components and whether its text ends as a
    directory's does; the file system is a class, the operating system's. *)

From Stdlib Require Import Ascii String.
From S2P Require Import Prelude.
From S2P Require Import Text.
From S2P Require Import Bytes.
From S2P Require Import Substr.
From S2P Require Import IpAddr.

#[local] Open Scope string_scope.
#[local] Open Scope list_scope.
#[local] Open Scope Z_scope.

(** ** Paths of the standard library *)

Inductive Component : Type := RootDir | CurDir | ParentDir | Normal (name : string).
#[export] Instance Component_eq_dec : EqDecision Component.
Proof. solve_decision. Defined.

Record Path : Type := mkPath {
  comps : list Component;
  dir_form : bool;
}.

(** [Path::components] (Unix): repeated separators and inner [.] are dropped. *)
Definition component_of (first : bool) (piece : string) : option Component :=
  if str_is_empty piece then None
  else if String.eqb piece "." then (if first then Some CurDir else None)
  else if String.eqb piece ".." then Some ParentDir
  else Some (Normal piece).
Definition components (s : string) : list Component :=
  match split_str "/" s with
  | [] => []
  | first :: rest =>
      (if starts_with "/" s then [RootDir] else option_list (component_of true first))
      ++ omap (component_of false) rest
  end.

(** The text ends in [/] or [/.] after a name: the system follows a link there. *)
Definition ends_as_dir (s : string) : bool := ends_with "/" s || ends_with "/." s.
Definition path_of (s : string) : Path := mkPath (components s) (ends_as_dir s).
Definition is_absolute (s : string) : bool := starts_with "/" s.
(** [Path::join]. *)
Definition path_join (base rel : string) : string :=
  if is_absolute rel then rel
  else if str_is_empty base || ends_with "/" base then base +:+ rel
  else base +:+ "/" +:+ rel.

Definition os_str (c : Component) : string :=
  match c with RootDir => "/" | CurDir => "." | ParentDir => ".." | Normal n => n end.
(** [Path::file_name] and [Path::parent]. *)
Definition file_name (cs : list Component) : option string :=
  match last cs with Some (Normal n) => Some n | _ => None end.
Definition parent (cs : list Component) : option (list Component) :=
  match last cs with Some RootDir | None => None | Some _ => Some (removelast cs) end.
(** [PathBuf::pop] and [PathBuf::push] of one component. *)
Definition path_pop (cs : list Component) : list Component := default cs (parent cs).
Definition path_push (cs : list Component) (c : Component) : list Component :=
  match c with RootDir => [RootDir] | _ => cs ++ [c] end.
(** [Path::starts_with] and [Path::strip_prefix]. *)
Definition path_starts_with (p base : list Component) : bool := bool_decide (base `prefix_of` p).
Fixpoint path_strip_prefix (base p : list Component) : option (list Component) :=
  match base, p with
  | [], _ => Some p
  | b :: base, c :: p => if decide (b = c) then path_strip_prefix base p else None
  | _ :: _, [] => None
  end.

(** A canonical path: absolute, names only. *)
Definition abs (names : list string) : list Component := RootDir :: map Normal names.

(** The operating system: [Path::symlink_metadata] answers, [Path::exists],
    and [Path::canonicalize] with the names of the path it gives. *)
Class FileSystem : Type := {
  symlink_metadata : Path → bool;
  path_exists : Path → bool;
  canonicalize : Path → option (list string);
}.

(** ** [ToolScope] *)

Record ToolScope : Type := mkScope {
  fs_roots : list string;
  net_hosts : list string;
  env_reads : list string;
  shell_bins : list string;
  wallets : list string;
}.

Inductive Op : Type := OpRead | OpWrite.

(** The refusals, without the text around them. *)
Inductive ScopeError : Type :=
  | NoFsRoots (op : Op)
  | CannotResolve
  | NotUnderRoots (op : Op) (resolved : list Component)
  | HostNotAllowed (hint : bool)
  | HostNotNamed
  | EnvNotAllowed
  | BinNotAllowed
  | WalletNotAllowed
  | NoWorkspace
  | EscapesWorkspace
  | ProtectedName (why : string)
  | SkillDirectory.

Definition deny_all : ToolScope := mkScope [] [] [] [] [].
Definition is_deny_all (s : ToolScope) : bool :=
  bool_decide (fs_roots s = []) && bool_decide (net_hosts s = []) && bool_decide (env_reads s = [])
  && bool_decide (shell_bins s = []) && bool_decide (wallets s = []).

(** ** Hosts *)

Definition host_matches (pattern host : string) : bool :=
  if String.eqb pattern "*" || String.eqb pattern host then true
  else
    match strip_prefix "*." pattern with
    | None => false
    | Some suffix =>
        match strip_suffix suffix host with
        | None => false
        | Some prefix => ends_with "." prefix && (1 <? str_len prefix)%nat
        end
    end.

Fixpoint trim_start_matches (c : ascii) (s : string) : string :=
  match s with
  | String a r => if Ascii.eqb a c then trim_start_matches c r else s
  | EmptyString => EmptyString
  end.
Definition trim_end_matches (c : ascii) (s : string) : string := str_rev (trim_start_matches c (str_rev s)).
Definition ascii_lower (s : string) : string := of_bytes (map to_ascii_lowercase (bytes s)).

Definition local_v4 (ip : Ipv4Addr) : bool :=
  let '(a, b, _, _) := ip in
  v4_is_loopback ip || v4_is_private ip || v4_is_link_local ip || v4_is_unspecified ip
  || (a =? 0) || ((a =? 100) && ((64 <=? b) && (b <? 128))).

Definition local_v6 (g : list Z) : bool :=
  let first := default 0 (head g) in
  v6_is_loopback g || v6_is_unspecified g
  || (Z.land first 65024 =? 64512)
  || (Z.land first 65472 =? 65152)
  || match to_ipv4_mapped g with Some ip => local_v4 ip | None => false end.

(** The name of a written host: brackets and final dots off, lower case. *)
Definition host_name (host : string) : string :=
  trim_end_matches "." (ascii_lower (trim_end_matches "]" (trim_start_matches "[" host))).

Definition is_local_host (host : string) : bool :=
  let name := host_name host in
  if String.eqb name "localhost" || ends_with ".localhost" name || ends_with ".local" name then true
  else
    match parse_ip name with
    | Some (V4 ip) => local_v4 ip
    | Some (V6 g) => local_v6 g
    | None => false
    end.

Definition check_net_host (s : ToolScope) (host : string) : result ScopeError () :=
  let local := is_local_host host in
  if existsb (λ pattern, if String.eqb pattern "*" then negb local else host_matches pattern host) (net_hosts s)
  then Ok ()
  else Err (HostNotAllowed (local && existsb (String.eqb "*") (net_hosts s))).

Definition check_named_host (s : ToolScope) (host : string) : result ScopeError () :=
  if existsb (λ pattern, negb (String.eqb pattern "*") && host_matches pattern host) (net_hosts s)
  then Ok () else Err HostNotNamed.

(** ** Variables, binaries, wallets *)

Definition check_env_read (s : ToolScope) (var : string) : result ScopeError () :=
  if existsb (λ v, String.eqb v "*" || String.eqb v var) (env_reads s) then Ok () else Err EnvNotAllowed.

Definition check_shell_bin (s : ToolScope) (bin : string) : result ScopeError () :=
  let basename := default bin (file_name (components bin)) in
  if existsb (λ b, String.eqb b "*" || String.eqb b basename) (shell_bins s) then Ok () else Err BinNotAllowed.

Definition check_wallet (s : ToolScope) (label : string) : result ScopeError () :=
  if existsb (String.eqb label) (wallets s) then Ok () else Err WalletNotAllowed.

(** ** Paths a tool may touch *)

(** [components] on top of [base]. *)
Definition apply_one (base : list Component) (c : Component) : list Component :=
  match c with
  | ParentDir => path_pop base
  | CurDir => base
  | c => path_push base c
  end.
Definition apply (base cs : list Component) : list Component := fold_left apply_one cs base.

Section paths.
Context {F : FileSystem}.

(** The loop up to the longest existing ancestor: the components of the head in
  reverse, whether its text is a directory's, and the tail in order; [None]
  when nothing exists. *)
Fixpoint climb (head : list Component) (dir : bool) (tail : list Component) : option (Path * list Component) :=
let p := mkPath (rev head) dir in
if symlink_metadata p then Some (p, tail)
else
  match head with
  | [] | RootDir :: _ => None
  | last :: head => climb head false (last :: tail)
  end.

Definition resolve_path (path : Path) : result ScopeError (list Component) :=
match climb (rev (comps path)) (dir_form path) [] with
| None => Ok (apply [] (comps path))
| Some (head, tail) =>
    match canonicalize head with
    | None => Err CannotResolve
    | Some real => Ok (apply (abs real) tail)
    end
end.

Definition canonical_root (root : string) : list Component :=
let p := path_of root in
if path_exists p then match canonicalize p with Some real => abs real | None => comps p end
else comps p.

Definition check_fs (s : ToolScope) (path : Path) (op : Op) : result ScopeError (list Component) :=
if bool_decide (fs_roots s = []) then Err (NoFsRoots op)
else
  canonical ← resolve_path path;
  if existsb (λ root, path_starts_with canonical (canonical_root root)) (fs_roots s)
  then Ok canonical else Err (NotUnderRoots op canonical).
Definition check_fs_read (s : ToolScope) (path : Path) : result ScopeError (list Component) := check_fs s path OpRead.
Definition check_fs_write (s : ToolScope) (path : Path) : result ScopeError (list Component) := check_fs s path OpWrite.

(** ** Names no writer may write *)

Definition names_eq (a b : string) : bool := eq_ignore_ascii_case (bytes a) (bytes b).

Definition DIRS : list (string * string) :=
[(".tengu", "`.tengu/` holds tengu's own state");
 (".claude", "`.claude/` configures Claude Code (hooks, commands, skills)");
 (".git", "`.git/` holds git hooks")].
Definition FILES : list (string * string) :=
[("CLAUDE.md", "a CLI agent loads `CLAUDE.md` as instructions");
 ("CLAUDE.local.md", "a CLI agent loads `CLAUDE.local.md` as instructions");
 ("AGENTS.md", "agents load `AGENTS.md` as instructions");
 (".mcp.json", "a CLI agent starts the servers in `.mcp.json`")].

Definition named (name : string) (l : list (string * string)) : option string :=
snd <$> List.find (λ p, names_eq name (fst p)) l.

Fixpoint find_map {A B} (f : A → option B) (l : list A) : option B :=
match l with
| [] => None
| x :: l => match f x with Some y => Some y | None => find_map f l end
end.

Definition protected_write (rel : list Component) : option string :=
match find_map (λ c, match c with Normal name => named name DIRS | _ => None end) rel with
| Some why => Some why
| None => name ← file_name rel; named name FILES
end.

Definition PROMPT_FILES : list string := ["MEMORY.md"; "USER.md"; "IDENTITY.md"; "PROFILE.md"; "CONTEXT.md"].
Definition PROMPT_FILES_WHY : string :=
"a hardened sandbox ([risk] or a Solana signer) keeps the workspace prompt files "
+:+ "(MEMORY.md, USER.md, IDENTITY.md, PROFILE.md, CONTEXT.md) out of agents' reach — "
+:+ "tengu loads them into the system prompt".

Definition protected_write_in (rel : list Component) (hardened : bool) : option string :=
match protected_write rel with
| Some why => Some why
| None =>
    name ← file_name rel;
    if hardened && existsb (names_eq name) PROMPT_FILES then Some PROMPT_FILES_WHY else None
end.

(** ** The paths of a workspace ([args.rs]) *)

Definition target_of (workspace requested : string) : string :=
if is_absolute requested then requested else path_join workspace requested.

Definition validate_path (workspace requested : string) : result ScopeError (list Component) :=
match canonicalize (path_of workspace) with
| None => Err NoWorkspace
| Some root =>
    resolved ← resolve_path (path_of (target_of workspace requested));
    if path_starts_with resolved (abs root) then Ok resolved else Err EscapesWorkspace
end.

Definition validate_write_path (workspace requested : string) (hardened : bool)
  : result ScopeError (list Component) :=
target ← validate_path workspace requested;
match canonicalize (path_of workspace) with
| None => Err NoWorkspace
| Some root =>
    let rel := default target (path_strip_prefix (abs root) target) in
    match protected_write_in rel hardened with
    | Some why => Err (ProtectedName why)
    | None =>
        if match parent rel with
           | Some dirs => existsb (λ d, names_eq (os_str d) "skills") dirs
           | None => false
           end
        then Err SkillDirectory else Ok target
    end
end.
End paths.

(** ** Shell words *)

Definition sq : string := "'".
Definition backslash : string := String "092" EmptyString.

Definition shell_quote (s : string) : string :=
  sq +:+ replace sq (sq +:+ backslash +:+ sq +:+ sq) s +:+ sq.

Definition is_whitespace (c : string) : bool := existsb (String.eqb c) white_space.
Definition is_separator (c : string) : bool := is_whitespace c || existsb (String.eqb c) [";"; "&"; "|"].
Definition is_quote (c : string) : bool := existsb (String.eqb c) [sq; Bytes.quote; "`"].

(** What [start] holds once a char is passed: the text of the word so far. *)
Definition push_char (start : option string) (c : string) : option string := Some (default "" start +:+ c).

(** The loop of [shell_words]: the chars left, the word begun, the open quote,
    the nesting of [$(]. *)
Fixpoint words_loop (cs : list string) (start quote : option string) (depth : nat) : list string :=
  match cs with
  | [] => match start with Some w => [w] | None => [] end
  | c :: cs =>
      let skip quote :=
        match cs with
        | n :: cs' => words_loop cs' (push_char (push_char start c) n) quote depth
        | [] => words_loop cs (push_char start c) quote depth
        end in
      match quote with
      | Some q =>
          if String.eqb c backslash && negb (String.eqb q sq) then skip quote
          else words_loop cs (push_char start c) (if String.eqb c q then None else quote) depth
      | None =>
          if (depth =? 0)%nat && is_separator c then
            match start with
            | Some w => w :: words_loop cs None None depth
            | None => words_loop cs None None depth
            end
          else if String.eqb c backslash then skip None
          else if is_quote c then words_loop cs (push_char start c) (Some c) depth
          else
            match String.eqb c "$", cs with
            | true, "(" :: cs' => words_loop cs' (push_char (push_char start c) "(") None (S depth)
            | _, _ =>
                words_loop cs (push_char start c) None
                  (if String.eqb c "(" && (0 <? depth)%nat then S depth
                   else if String.eqb c ")" && (0 <? depth)%nat then pred depth
                   else depth)
            end
      end
  end.
Definition shell_words (command : string) : list string := words_loop (chars command) None None 0.

(** [NAME=value] with a name of [sh]. *)
Definition is_ascii_alphabetic (a : ascii) : bool := is_ascii_lowercase a || is_ascii_uppercase a.
Definition is_assignment (word : string) : bool :=
  match split_once "=" word with
  | None => false
  | Some (name, _) =>
      match name with
      | EmptyString => false
      | String a r =>
          (Ascii.eqb a "_" || is_ascii_alphabetic a) && str_forall (λ c, Ascii.eqb c "_" || is_ascii_alphanumeric c) r
      end
  end.

Definition shell_command_binary (command : string) : string :=
  let words := shell_words command in
  match List.find (λ w, negb (is_assignment w)) words with
  | Some w => w
  | None => default "" (head words)
  end.

Example shell_binaries :
  map shell_command_binary
    ["  /usr/bin/git status"; "A=1 C=$(date +%s) git log"; "NOW=$(date +%s) && echo $(( NOW - 600 ))";
     "X=`date +%s`;sleep 1"; "; rm -rf x"; "FOO=1 && BAR=$(id)"; "   "; "X=a\ b node x"; "'node' -e 1"]
  = ["/usr/bin/git"; "git"; "echo"; "sleep"; "rm"; "FOO=1"; ""; "node"; "'node'"].
Proof. vm_compute. reflexivity. Qed.
Example local_hosts :
  map is_local_host
    ["localhost"; "LOCALHOST."; "studio.localhost"; "gaming-pc.local"; "172.31.255.255"; "100.64.0.1"; "[::1]";
     "fe80::1"; "fd00::1"; "[::ffff:127.0.0.1]"; "172.32.0.1"; "100.128.0.1"; "2606:4700::1111"; "local.example.com"]
  = [true; true; true; true; true; true; true; true; true; true; false; false; false; false].
Proof. vm_compute. reflexivity. Qed.
Example components_of_a_path :
  components "/ws//a/./../b/." = [RootDir; Normal "ws"; Normal "a"; ParentDir; Normal "b"]
  ∧ components "./a" = [CurDir; Normal "a"] ∧ components "" = [] ∧ components "/" = [RootDir].
Proof. vm_compute. done. Qed.
