(* ===== verification/ScopeProps.v ===== *)
(** * Scopes of paths: what an accepted path opens

    The laws the checks rely on of the operating system, a file system of
    directories, files and links that has them, and the properties of
    [check_fs] and [validate_path] over any system that does. *)

From Stdlib Require Import Ascii String.
From S2P Require Import Prelude.
From S2P Require Import Text.
From S2P Require Import Bytes.
From S2P Require Import Substr.
From S2P Require Import IpAddr.
From S2P Require Import Scope.

#[local] Open Scope string_scope.
#[local] Open Scope list_scope.
#[local] Open Scope nat_scope.

(** A canonical path resolves to itself; what [canonicalize] resolves exists,
    with or without a final slash; a name is looked up in the directory its
    parent resolves to; below what does not exist nothing does; the empty path
    does not resolve and the root exists. *)
Class FileSystemLaws (F : FileSystem) : Prop := {
  canonical_self : ∀ p r, canonicalize p = Some r → canonicalize (mkPath (abs r) false) = Some r;
  canonical_exists : ∀ cs d r, canonicalize (mkPath cs d) = Some r → symlink_metadata (mkPath cs false) = true;
  child_in_parent : ∀ cs r n, canonicalize (mkPath cs false) = Some r →
    symlink_metadata (mkPath (cs ++ [Normal n]) false) = symlink_metadata (mkPath (abs (r ++ [n])) false);
  missing_parent : ∀ cs c d, cs ≠ [] →
    symlink_metadata (mkPath (cs ++ [c]) d) = true → symlink_metadata (mkPath cs false) = true;
  empty_missing : ∀ d, canonicalize (mkPath [] d) = None;
  root_exists : ∀ d, symlink_metadata (mkPath [RootDir] d) = true;
}.

(** ** Paths made of names *)

Definition is_normal (c : Component) : Prop := ∃ n, c = Normal n.
Definition not_parent (c : Component) : Prop := c ≠ ParentDir.

Lemma abs_app a b : abs (a ++ b) = abs a ++ map Normal b.
Proof. unfold abs. by rewrite map_app. Qed.

#[export] Instance Normal_inj : Inj (=) (=) Normal.
Proof. by intros a b [= ->]. Qed.
#[export] Instance abs_inj : Inj (=) (=) abs.
Proof. intros a b. unfold abs. intros [= E]. by apply (inj (fmap Normal)) in E. Qed.

Lemma apply_one_abs names c : c ≠ RootDir → ∃ names', apply_one (abs names) c = abs names'.
Proof.
  intros Hc. destruct c as [| | |n]; [done|by exists names| |].
  - cbn. unfold path_pop, parent. destruct names as [|m names _] using rev_ind; [by exists []|].
    exists names. rewrite abs_app. cbn [map]. rewrite last_snoc. cbn [default]. by rewrite removelast_last.
  - exists (names ++ [n]). by rewrite abs_app.
Qed.
Lemma apply_abs cs names : Forall (λ c, c ≠ RootDir) cs → ∃ names', apply (abs names) cs = abs names'.
Proof.
  intros H. revert names. induction H as [|c cs Hc _ IH]; intros names; cbn; [by exists names|].
  destruct (apply_one_abs names c Hc) as [names' ->]. apply IH.
Qed.

(** Without a [..], [apply] appends the names. *)
Fixpoint names_of (cs : list Component) : list string :=
  match cs with
  | [] => []
  | Normal n :: cs => n :: names_of cs
  | _ :: cs => names_of cs
  end.
Lemma apply_names cs names :
  Forall (λ c, c ≠ RootDir) cs → Forall not_parent cs → apply (abs names) cs = abs (names ++ names_of cs).
Proof.
  intros H. revert names. induction H as [|c cs Hc _ IH]; intros names Hp; cbn.
  { by rewrite app_nil_r. }
  inversion Hp as [|? ? Hc' Hp']; subst. destruct c as [| | |n]; [done|by apply IH|done|].
  unfold apply. cbn [fold_left]. change (apply_one (abs names) (Normal n)) with (abs names ++ map Normal [n]).
  rewrite <-abs_app. fold (apply (abs (names ++ [n])) cs). rewrite IH by done. by rewrite <-app_assoc.
Qed.

Lemma starts_with_abs names root : path_starts_with (abs names) (abs root) = true ↔ root `prefix_of` names.
Proof.
  unfold path_starts_with. rewrite bool_decide_eq_true. unfold abs. split.
  - intros [k E]. cbn in E. injection E as E. revert names E. induction root as [|r root IH]; intros names E.
    + by exists names.
    + destruct names as [|n names]; [done|]. cbn in E. injection E as -> E. apply IH in E as [k' ->]. by exists k'.
  - intros [k ->]. exists (map Normal k). cbn. by rewrite map_app.
Qed.

(** Components of a text: a root can only come first. *)
Lemma component_of_not_root b p c : component_of b p = Some c → c ≠ RootDir.
Proof. unfold component_of. repeat case_match; naive_solver. Qed.
Lemma components_rooted s : ∃ cs, Forall (λ c, c ≠ RootDir) cs ∧
  (components s = cs ∨ (components s = RootDir :: cs ∧ is_absolute s = true)).
Proof.
  unfold components. destruct (split_str "/" s) as [|first rest]; [by exists []; split; [constructor|left]|].
  assert (Forall (λ c, c ≠ RootDir) (omap (component_of false) rest)) as Hr.
  { apply Forall_forall. intros c (x & _ & Hx)%list_elem_of_omap. by eapply component_of_not_root. }
  set (fs := option_list (component_of true first)).
  assert (Forall (λ c, c ≠ RootDir) fs) as Hf.
  { unfold fs. destruct (component_of true first) eqn:E; cbn; [|constructor]. constructor; [|constructor].
    by eapply component_of_not_root. }
  destruct (starts_with "/" s) eqn:E.
  - exists (omap (component_of false) rest). split; [done|]. right. split; [done|exact E].
  - exists (fs ++ omap (component_of false) rest). split; [by apply Forall_app|by left].
Qed.

(** ** Resolution over any system *)

Section resolution.
Context {F : FileSystem} {L : FileSystemLaws F}.

(** The loop stops at a head that exists; the tail is what it climbed over. *)
Lemma climb_some head dir tail p rest :
climb head dir tail = Some (p, rest) →
symlink_metadata p = true ∧ ∃ new, rev head = comps p ++ new ∧ rest = new ++ tail ∧ Forall (λ c, c ≠ RootDir) new.
Proof.
revert dir tail. induction head as [|c head IH]; intros dir tail; cbn [climb];
  (destruct (symlink_metadata (mkPath _ _)) eqn:E;
   [intros [= <- <-]; split; [done|]; exists []; rewrite app_nil_r; by split_and!|]); [done|].
intros H. assert (c ≠ RootDir ∧ climb head false (c :: tail) = Some (p, rest)) as [Hc Hr] by (by destruct c).
apply IH in Hr as (Hm & new & E' & -> & Hn). split; [done|]. exists (new ++ [c]). cbn [rev]. rewrite E', <-!app_assoc.
split_and!; [done..|]. apply Forall_app. by repeat constructor.
Qed.

(** When the text is not a directory's, nothing of that tail exists. *)
Lemma climb_missing head tail p rest :
climb head false tail = Some (p, rest) →
∃ new, rev head = comps p ++ new ∧ dir_form p = false ∧ rest = new ++ tail
  ∧ ∀ pre, pre ≠ [] → pre `prefix_of` new → symlink_metadata (mkPath (comps p ++ pre) false) = false.
Proof.
revert tail. induction head as [|c head IH]; intros tail; cbn [climb];
  (destruct (symlink_metadata (mkPath _ _)) eqn:E;
   [intros [= <- <-]; exists []; rewrite app_nil_r; split_and!; [done..|]; intros pre Hp ->%prefix_nil_inv; done|]); [done|].
intros H. assert (climb head false (c :: tail) = Some (p, rest)) as Hr by (by destruct c).
apply IH in Hr as (new & E' & Hd & -> & Hn). exists (new ++ [c]). cbn [rev] in E |- *. rewrite E', <-!app_assoc in *.
split_and!; [done..|]. intros pre Hp [k Hk]. destruct k as [|y k _] using rev_ind.
- rewrite app_nil_r in Hk. by subst pre.
- rewrite app_assoc in Hk. apply app_inj_tail in Hk as [Hk _]. apply Hn; [done|]. by exists k.
Qed.

Lemma climb_absolute cs dir tail :
Forall (λ c, c ≠ RootDir) cs → climb (rev (RootDir :: cs)) dir tail ≠ None.
Proof.
revert dir tail. induction cs as [|c cs IH] using rev_ind; intros dir tail H.
- cbn [rev app climb]. by rewrite root_exists.
- apply Forall_app in H as [H Hc]. apply Forall_cons in Hc as [Hc _].
  rewrite app_comm_cons, rev_app_distr. change (rev [c]) with [c]. cbn [app climb].
  destruct (symlink_metadata _); [done|]. destruct c; [done|by apply IH..].
Qed.

(** A resolved path is absolute and made of names, or was resolved by its text
  only, being relative with no existing ancestor. *)
Lemma apply_nil_relative cs : Forall (λ c, c ≠ RootDir) cs → RootDir ∉ apply [] cs.
Proof.
intros H. assert (∀ base, RootDir ∉ base → RootDir ∉ apply base cs) as G; [|by apply G; apply not_elem_of_nil].
induction H as [|c cs Hc _ IH]; intros base Hb; [done|]. apply IH. destruct c as [| | |n]; [done|done| |]; cbn.
- unfold path_pop, parent. destruct base as [|b base _] using rev_ind; [done|]. rewrite last_snoc.
  destruct b; cbn; rewrite ?removelast_last; set_solver.
- set_solver.
Qed.

Lemma resolve_absolute s q :
resolve_path (path_of s) = Ok q → RootDir ∈ q →
∃ p tail real names, climb (rev (components s)) (ends_as_dir s) [] = Some (p, tail)
  ∧ canonicalize p = Some real ∧ q = apply (abs real) tail ∧ q = abs names ∧ Forall (λ c, c ≠ RootDir) tail.
Proof.
unfold resolve_path. cbn [comps dir_form path_of]. destruct (climb _ _ _) as [[p tail]|] eqn:E.
- destruct (canonicalize p) as [real|] eqn:Ec; [|done]. intros <-%ok_inj _.
  apply climb_some in E as E'. destruct E' as (_ & new & _ & Et & Hn). rewrite app_nil_r in Et. subst tail.
  destruct (apply_abs new real Hn) as [names Hq]. exists p, new, real, names. by split_and!.
- intros <-%ok_inj Hr. exfalso. destruct (components_rooted s) as (cs & Hcs & [Hc|[Hc _]]).
  + rewrite Hc in Hr. by apply apply_nil_relative in Hr.
  + rewrite Hc in E. by apply climb_absolute in E.
Qed.

(** What the system opens at a resolved path whose text has no [..] and no
  final slash: the part that exists is canonical, and nothing of the rest
  exists, so no link is followed on the way. *)
Definition opens_in_place (names : list string) : Prop :=
∃ real new, names = real ++ new ∧ canonicalize (mkPath (abs real) false) = Some real
  ∧ ∀ pre, pre ≠ [] → pre `prefix_of` new → symlink_metadata (mkPath (abs (real ++ pre)) false) = false.

Lemma tail_names cs : Forall (λ c, c ≠ RootDir) cs → Forall not_parent cs → CurDir ∉ cs → cs = map Normal (names_of cs).
Proof.
intros H. induction H as [|c cs Hc _ IH]; intros Hp Hd; [done|]. inversion Hp; subst.
destruct c as [| | |n]; [done|set_solver|done|]. cbn. rewrite <-IH; [done|done|set_solver].
Qed.

(** [CurDir] only comes first. *)
Lemma components_curdir s a b : components s = a ++ b → a ≠ [] → CurDir ∉ b.
Proof.
unfold components. destruct (split_str "/" s) as [|first rest]; [by destruct a|].
set (fs := if starts_with "/" s then _ else _). intros E Ha.
assert (length fs ≤ 1) as Hl by (unfold fs; destruct (starts_with _ _), (component_of true first); cbn; lia).
assert (CurDir ∉ omap (component_of false) rest) as Hr.
{ intros (x & _ & Hx)%list_elem_of_omap. unfold component_of in Hx. by repeat case_match. }
destruct a as [|c a]; [done|]. destruct fs as [|f [|? ?]]; cbn in Hl, E; [|injection E as -> E|lia].
- rewrite E in Hr. set_solver.
- rewrite E in Hr. set_solver.
Qed.

Lemma missing_below names n rest :
symlink_metadata (mkPath (abs (names ++ [n])) false) = false →
symlink_metadata (mkPath (abs (names ++ n :: rest)) false) = false.
Proof.
intros H. induction rest as [|m rest IH] using rev_ind; [done|].
destruct (symlink_metadata (mkPath (abs (names ++ n :: rest ++ [m])) false)) eqn:E; [|done].
replace (abs (names ++ n :: rest ++ [m])) with (abs (names ++ n :: rest) ++ [Normal m]) in E.
- apply missing_parent in E; [by rewrite IH in E|done].
- change (names ++ n :: rest ++ [m]) with (names ++ (n :: rest) ++ [m]). by rewrite (app_assoc names), (abs_app _ [m]).
Qed.

Lemma resolve_in_place s q :
resolve_path (path_of s) = Ok q → RootDir ∈ q → ends_as_dir s = false → ParentDir ∉ components s →
∃ names, q = abs names ∧ opens_in_place names.
Proof.
intros Hq Hr Hs Hp. destruct (resolve_absolute s q Hq Hr) as (p & tail & real & names & Hc & Hreal & -> & Hn & Ht).
rewrite Hs in Hc. apply climb_missing in Hc as (new & E & Hd & -> & Hm). rewrite rev_involutive in E.
rewrite app_nil_r in *. destruct p as [cs d]. cbn [comps dir_form] in *. subst d.
assert (cs ≠ []) as Hcs by (intros ->; by rewrite empty_missing in Hreal).
assert (Forall not_parent new) as Hnp.
{ apply Forall_forall. intros c Hin ->. apply Hp. rewrite E. set_solver. }
pose proof (components_curdir s cs new E Hcs) as Hcd.
exists (real ++ names_of new). rewrite apply_names by done. split; [done|].
exists real, (names_of new). split_and!; [done|by eapply canonical_self|].
intros pre Hpre [k Hk]. pose proof (tail_names new Ht Hnp Hcd) as Hnew. rewrite Hk in Hnew.
destruct pre as [|n pre]; [done|]. apply missing_below.
rewrite <-(child_in_parent cs real n Hreal). apply Hm; [done|]. rewrite Hnew. exists (map Normal (pre ++ k)). done.
Qed.

Lemma root_in_abs names : RootDir ∈ abs names.
Proof. by left. Qed.

Lemma under_root q root : path_starts_with q (abs root) = true → RootDir ∈ q.
Proof. unfold path_starts_with. rewrite bool_decide_eq_true. intros [k ->]. by left. Qed.

Lemma accepted_abs s q :
resolve_path (path_of s) = Ok q → RootDir ∈ q →
∃ names, q = abs names ∧ (ends_as_dir s = false → ParentDir ∉ components s → opens_in_place names).
Proof.
intros Hq Hr. destruct (resolve_absolute _ _ Hq Hr) as (p & tail & real & all & _ & _ & _ & E & _).
exists all. split; [done|]. intros Hs Hp.
destruct (resolve_in_place _ _ Hq Hr Hs Hp) as (names & E' & Ho). rewrite E in E'. apply (inj abs) in E'. by rewrite E'.
Qed.

Lemma validate_path_spec ws requested q :
validate_path ws requested = Ok q →
∃ root names, canonicalize (path_of ws) = Some root ∧ q = abs (root ++ names)
  ∧ (ends_as_dir (target_of ws requested) = false → ParentDir ∉ components (target_of ws requested) →
     opens_in_place (root ++ names)).
Proof.
unfold validate_path. destruct (canonicalize (path_of ws)) as [root|]; [|done].
intros (r & Hr & H)%bind_ok. destruct (path_starts_with r (abs root)) eqn:E; [|done]. apply ok_inj in H as <-.
destruct (accepted_abs _ _ Hr (under_root r root E)) as (all & Hq & Ho).
rewrite Hq in E. apply starts_with_abs in E as [names ->]. by exists root, names.
Qed.

(** C34. A path that is accepted lies where it may: under the workspace as the
  system resolves it, made of names only, with no [..] left; and for a
  tool's scope under one of its roots. When the request has no [..] and does
  not end in a slash, opening it follows no link: its part that exists is
  canonical, and nothing of the rest exists. *)
Theorem accepted_paths_stay_under_their_root ws requested s text op q :
(validate_path ws requested = Ok q →
 ∃ root names, canonicalize (path_of ws) = Some root ∧ q = abs (root ++ names)
   ∧ (ends_as_dir (target_of ws requested) = false → ParentDir ∉ components (target_of ws requested) →
      opens_in_place (root ++ names))) ∧
(check_fs s (path_of text) op = Ok q →
 (∃ root, root ∈ fs_roots s ∧ canonical_root root `prefix_of` q) ∧
 (RootDir ∈ q → ∃ names, q = abs names
    ∧ (ends_as_dir text = false → ParentDir ∉ components text → opens_in_place names))).
Proof.
split; [apply validate_path_spec|]. unfold check_fs. case_bool_decide; [done|].
intros (r & Hr & H1)%bind_ok. destruct (existsb _ _) eqn:E; [|done]. apply ok_inj in H1 as <-. split.
- apply existsb_exists in E as (root & Hin & Hp). exists root. split; [by apply list_elem_of_In|].
  by apply bool_decide_eq_true in Hp.
- by apply accepted_abs.
Qed.

(** ** Names no writer writes *)

Lemma strip_prefix_app base k : path_strip_prefix base (base ++ k) = Some k.
Proof. induction base as [|b base IH]; [by destruct k|]. cbn. by rewrite decide_True. Qed.
Lemma strip_prefix_abs root names : path_strip_prefix (abs root) (abs (root ++ names)) = Some (map Normal names).
Proof. by rewrite abs_app, strip_prefix_app. Qed.

Lemma named_none name l : named name l = None ↔ ∀ p, p ∈ l → names_eq name (fst p) = false.
Proof.
unfold named. rewrite fmap_None. split.
- intros H p Hp. apply (find_none _ _ H). by apply list_elem_of_In.
- intros H. destruct (List.find _ l) as [p|] eqn:E; [|done]. apply find_some in E as [Hin E].
  rewrite H in E; [done|]. by apply list_elem_of_In.
Qed.

Lemma protected_dirs_none names :
find_map (λ c, match c with Normal name => named name DIRS | _ => None end) (map Normal names) = None
↔ Forall (λ n, ∀ p, p ∈ DIRS → names_eq n (fst p) = false) names.
Proof.
induction names as [|n names IH]; cbn [map find_map]; [by split|]. rewrite Forall_cons, <-IH, <-named_none.
destruct (named n DIRS); (split; [intros H|intros [H1 H2]]); done.
Qed.

Lemma file_name_names names : file_name (map Normal names) = last names.
Proof. unfold file_name. rewrite fmap_last. by destruct (last names). Qed.
Lemma parent_names names : parent (map Normal names) = match names with [] => None | _ => Some (map Normal (removelast names)) end.
Proof.
unfold parent. destruct names as [|n names _] using rev_ind; [done|].
rewrite map_app. cbn [map]. rewrite last_snoc, !removelast_last. by destruct names.
Qed.

(** What a writer may name, below its workspace. *)
Definition writable (hardened : bool) (names : list string) : Prop :=
Forall (λ n, ∀ p, p ∈ DIRS → names_eq n (fst p) = false) names ∧
(∀ n p, last names = Some n → p ∈ FILES → names_eq n (fst p) = false) ∧
(∀ n f, last names = Some n → hardened = true → f ∈ PROMPT_FILES → names_eq n f = false) ∧
(∀ n, n ∈ removelast names → names_eq n "skills" = false).

Lemma existsb_false {A} (p : A → bool) l : existsb p l = false ↔ ∀ x, x ∈ l → p x = false.
Proof.
rewrite <-not_true_iff_false, existsb_exists. split.
- intros H x Hx. apply not_true_iff_false. intros E. apply H. exists x. by rewrite <-list_elem_of_In.
- intros H (x & Hx & E). rewrite H in E; [done|by apply list_elem_of_In].
Qed.

Lemma protected_none hardened names :
protected_write_in (map Normal names) hardened = None
↔ Forall (λ n, ∀ p, p ∈ DIRS → names_eq n (fst p) = false) names
  ∧ (∀ n p, last names = Some n → p ∈ FILES → names_eq n (fst p) = false)
  ∧ (∀ n f, last names = Some n → hardened = true → f ∈ PROMPT_FILES → names_eq n f = false).
Proof.
unfold protected_write_in, protected_write. rewrite <-protected_dirs_none, file_name_names.
destruct (find_map _ _); [by split; [|intros [? _]]|].
destruct (last names) as [n|]; cbn [mbind option_bind]; [|split; [intros _; split_and!; done|done]].
destruct (named n FILES) eqn:En.
- split; [done|]. intros (_ & H & _). enough (named n FILES = None) by congruence. apply named_none. intros p. by apply H.
- assert (∀ p, p ∈ FILES → names_eq n (fst p) = false) as Hf by (by apply named_none).
  destruct hardened; cbn [andb].
  + destruct (existsb _ _) eqn:Ee.
    * split; [done|]. intros (_ & _ & H). enough (existsb (names_eq n) PROMPT_FILES = false) by congruence.
      apply existsb_false. intros f Hin. by apply H.
    * pose proof (proj1 (existsb_false _ _) Ee) as Hp. split; [|done]. intros _.
      split_and!; [done| |]; [intros n' p [= <-]; apply Hf|intros n' f [= <-] _; apply Hp].
  + split; [|done]. intros _. split_and!; [done|intros n' p [= <-]; apply Hf|done].
Qed.

Lemma skills_none names :
match parent (map Normal names) with
| Some dirs => existsb (λ d, names_eq (os_str d) "skills") dirs
| None => false
end = false ↔ ∀ n, n ∈ removelast names → names_eq n "skills" = false.
Proof.
rewrite parent_names. destruct names as [|n names]; [split; [intros _ n Hn; by apply elem_of_nil in Hn|done]|].
rewrite existsb_false. split.
- intros H m Hm. apply (H (Normal m)). by apply (list_elem_of_fmap_2 Normal).
- intros H d (m & -> & Hm)%list_elem_of_fmap. by apply H.
Qed.

(** A writer's path is accepted exactly when it is a path of the workspace
  that names, below the workspace and in any case, no directory of tengu,
  Claude Code or git, no instruction file, no skill directory and, in a
  hardened sandbox, no file of the system prompt. *)
Theorem writers_keep_off_protected_names ws requested hardened q :
validate_write_path ws requested hardened = Ok q ↔
validate_path ws requested = Ok q ∧
∀ root names, canonicalize (path_of ws) = Some root → q = abs (root ++ names) → writable hardened names.
Proof.
unfold validate_write_path. split.
- intros (t & Ht & H)%bind_ok. destruct (validate_path_spec _ _ _ Ht) as (root & names & Hr & -> & _).
  rewrite Hr, strip_prefix_abs in H.
  change (default _ (Some ?x)) with x in H. cbv zeta in H.
  destruct (protected_write_in _ _) eqn:Ep; [done|]. apply protected_none in Ep as (Hd & Hf & Hp).
  match type of H with (if ?b then _ else _) = _ => destruct b eqn:Es end; [done|]. apply ok_inj in H as <-.
  split; [done|]. intros root' names' Hr' E%(inj abs). rewrite Hr in Hr'. injection Hr' as <-.
  apply (inj (app root)) in E as <-. split_and!; try done. by apply skills_none.
- intros [Ht H]. rewrite Ht. cbn [mbind result_bind].
  destruct (validate_path_spec _ _ _ Ht) as (root & names & Hr & -> & _).
  destruct (H root names Hr eq_refl) as (Hd & Hf & Hp & Hs). rewrite Hr, strip_prefix_abs.
  change (default _ (Some ?x)) with x. cbv zeta.
  assert (protected_write_in (map Normal names) hardened = None) as -> by (apply protected_none; by split_and!).
  apply skills_none in Hs. by rewrite Hs.
Qed.
End resolution.

(** ** A file system *)

Inductive Entry : Type := EDir | EFile | ELink (target : list Component).

(** What is below the root, by canonical path; the root is the working
    directory. *)
Notation Files := (gmap (list string) Entry).

Section posix.
Context (fs : Files).

Definition is_dir (d : list string) : bool :=
match d with [] => true | _ => match fs !! d with Some EDir => true | _ => false end end.

(** Resolution from the directory [cur], through at most [links] links. *)
Fixpoint walk (links : nat) : list string → list Component → option (list string) :=
fix go (cur : list string) (cs : list Component) {struct cs} : option (list string) :=
  match cs with
  | [] => Some cur
  | RootDir :: cs => go [] cs
  | CurDir :: cs => if is_dir cur then go cur cs else None
  | ParentDir :: cs => if is_dir cur then go (removelast cur) cs else None
  | Normal n :: cs =>
      if is_dir cur then
        match fs !! (cur ++ [n]) with
        | None => None
        | Some (ELink t) => match links with O => None | S links => walk links cur (t ++ cs) end
        | Some _ => go (cur ++ [n]) cs
        end
      else None
  end.

Definition LINKS : nat := 40.
Definition posix_canonicalize (p : Path) : option (list string) :=
match comps p with
| [] => None
| cs => r ← walk LINKS [] cs; if negb (dir_form p) || is_dir r then Some r else None
end.
Definition posix_lstat (p : Path) : bool :=
if dir_form p then is_some (posix_canonicalize p)
else
  match last (comps p) with
  | None => false
  | Some (Normal n) =>
      match walk LINKS [] (removelast (comps p)) with
      | Some d => is_dir d && is_some (fs !! (d ++ [n]))
      | None => false
      end
  | Some _ => is_some (walk LINKS [] (comps p))
  end.
#[export] Instance posix : FileSystem := {
symlink_metadata := posix_lstat;
path_exists p := is_some (posix_canonicalize p);
canonicalize := posix_canonicalize;
}.

(** A canonical path: directories down to an entry that is no link. *)
Inductive clean : list string → Prop :=
| clean_root : clean []
| clean_child d n e : clean d → is_dir d = true → fs !! (d ++ [n]) = Some e → (∀ t, e ≠ ELink t) → clean (d ++ [n]).

Lemma clean_parent d : clean d → clean (removelast d).
Proof. intros [|d' n e H _ _ _]; [constructor|]. by rewrite removelast_last. Qed.

Lemma walk_clean links cur cs r : clean cur → walk links cur cs = Some r → clean r.
Proof.
revert cur cs r. induction links as [links IH] using lt_wf_ind. intros cur cs.
revert cur. induction cs as [|c cs IHc]; intros cur r Hc; destruct links as [|links]; cbn;
  try (by intros [= <-]); (destruct c as [| | |n];
    [apply IHc; constructor|case_match; [by apply IHc|done]|case_match; [apply IHc; by apply clean_parent|done]|]);
  (destruct (is_dir cur) eqn:Ed; [|done]);
  (destruct (fs !! (cur ++ [n])) as [[| |t]|] eqn:E; [| | |done]);
  try (apply IHc; by econstructor); [done|]. by apply IH; [lia|].
Qed.

Lemma walk_names links d names : clean (d ++ names) → walk links d (map Normal names) = Some (d ++ names).
Proof.
revert d. induction names as [|n names IH]; intros d Hc; [destruct links; cbn; by rewrite app_nil_r|].
assert (∃ e, is_dir d = true ∧ fs !! (d ++ [n]) = Some e ∧ ∀ t, e ≠ ELink t) as (e & Hd & He & Hl).
{ clear IH. remember (d ++ n :: names) as p eqn:Ep. revert names Ep. induction Hc as [|d' m e Hc IH Hd He Hl]; intros names Ep.
  - by destruct d.
  - destruct names as [|k names _] using rev_ind.
    + apply app_inj_tail in Ep as [-> ->]. by exists e.
    + rewrite app_comm_cons, app_assoc in Ep. apply app_inj_tail in Ep as [-> _]. by apply (IH names). }
assert (walk links (d ++ [n]) (map Normal names) = Some ((d ++ [n]) ++ names)) as E by (apply IH; by rewrite <-app_assoc).
rewrite <-app_assoc in E. destruct links; cbn in *; rewrite Hd, He; destruct e; try done; by destruct (Hl target).
Qed.

Lemma walk_app links cur a b r :
walk links cur (a ++ b) = Some r → ∃ d links', walk links cur a = Some d ∧ walk links' d b = Some r.
Proof.
revert cur a. induction links as [links IH] using lt_wf_ind. intros cur a.
revert cur. induction a as [|c a IHa]; intros cur.
{ intros H. exists cur, links. by destruct links. }
destruct links as [|links]; cbn; (destruct c as [| | |n];
    [apply IHa|case_match; [apply IHa|done]|case_match; [apply IHa|done]|]);
  (destruct (is_dir cur) eqn:Ed; [|done]);
  (destruct (fs !! (cur ++ [n])) as [[| |t]|] eqn:E; [apply IHa|apply IHa| |done]); [done|].
rewrite app_assoc. apply IH. lia.
Qed.
End posix.

Section posix_laws.
Context (fs : Files).

Lemma walk_one links d n r : walk fs links d [Normal n] = Some r → is_dir fs d && is_some (fs !! (d ++ [n])) = true.
Proof. destruct links; cbn; (destruct (is_dir fs d); [|done]); by destruct (fs !! (d ++ [n])) as [[]|]. Qed.

Lemma walk_lstat cs r : cs ≠ [] → walk fs LINKS [] cs = Some r → posix_lstat fs (mkPath cs false) = true.
Proof.
intros Hcs H. unfold posix_lstat. cbn [dir_form comps]. destruct cs as [|c cs _] using rev_ind; [done|].
rewrite last_snoc, removelast_last. destruct c as [| | |n]; try (by rewrite H).
apply walk_app in H as (d & k & -> & H). by eapply walk_one.
Qed.

Lemma canonicalize_walk cs d r :
posix_canonicalize fs (mkPath cs d) = Some r → cs ≠ [] ∧ walk fs LINKS [] cs = Some r.
Proof.
unfold posix_canonicalize. cbn [comps dir_form]. destruct cs as [|c cs]; [done|].
intros (r' & H & E)%bind_Some. split; [done|]. destruct (negb d || is_dir fs r'); [|done]. by injection E as ->.
Qed.

Lemma walk_abs r : clean fs r → walk fs LINKS [] (abs r) = Some r.
Proof. intros H. apply (walk_names fs LINKS [] r H). Qed.

#[local] Arguments walk : simpl never.
#[local] Arguments LINKS : simpl never.
#[export] Instance posix_laws : FileSystemLaws (posix fs).
Proof.
split.
- intros [cs d] r [_ H]%canonicalize_walk. apply walk_clean in H; [|constructor].
  cbn. unfold posix_canonicalize. cbn [comps dir_form abs].
  change (RootDir :: map Normal r) with (abs r). by rewrite (walk_abs r H).
- intros cs d r [Hcs H]%canonicalize_walk. by eapply walk_lstat.
- intros cs r n [Hcs H]%canonicalize_walk. cbn [symlink_metadata posix]. unfold posix_lstat.
  cbn [comps dir_form]. rewrite abs_app. change (map Normal [n]) with [Normal n]. rewrite !last_snoc, !removelast_last, H, walk_abs; [done|].
  eapply walk_clean; [|done]. constructor.
- intros cs c d Hcs H. assert (∃ r, walk fs LINKS [] cs = Some r) as [r Hr]; [|by eapply walk_lstat].
  cbn in H. unfold posix_lstat in H. cbn [comps dir_form] in H. rewrite last_snoc, removelast_last in H.
  assert (∀ r, walk fs LINKS [] (cs ++ [c]) = Some r → ∃ r, walk fs LINKS [] cs = Some r) as G.
  { intros r (d' & k & Hd & _)%walk_app. by exists d'. }
  destruct d.
  + destruct (posix_canonicalize _ _) as [r|] eqn:E; [|done]. apply canonicalize_walk in E as [_ E]. by eapply G.
  + destruct c as [| | |n]; try (destruct (walk fs LINKS [] (cs ++ _)) as [r|] eqn:E; [by eapply G|done]).
    destruct (walk fs LINKS [] cs) as [r|]; [by exists r|done].
- done.
- by intros [].
Qed.
End posix_laws.

(** ** Concrete trees *)

(** [/ws] holds a file, a link to [/secret] beside it, and a link to nothing. *)
Definition sample_files : Files :=
  list_to_map
    [(["ws"], EDir); (["ws"; "a.txt"], EFile); (["secret"], EDir); (["secret"; "key"], EFile);
     (["ws"; "link"], ELink (abs ["secret"])); (["ws"; "dangling"], ELink (abs ["secret"; "new"]))].

Definition sample_scope : ToolScope := mkScope ["/ws"] [] [] [] [].

Lemma accepted_paths_witness :
  let F := posix sample_files in
  validate_path (F := F) "/ws" "docs/new.md" = Ok (abs ["ws"; "docs"; "new.md"]) ∧
  (∃ root names, canonicalize (FileSystem := F) (path_of "/ws") = Some root
    ∧ abs ["ws"; "docs"; "new.md"] = abs (root ++ names) ∧ opens_in_place (F := F) (root ++ names)) ∧
  check_fs (F := F) sample_scope (path_of "/ws/docs/new.md") OpRead = Ok (abs ["ws"; "docs"; "new.md"]).
Proof.
  assert (validate_path (F := posix sample_files) "/ws" "docs/new.md" = Ok (abs ["ws"; "docs"; "new.md"])) as H
    by (vm_compute; reflexivity).
  split; [exact H|]. split; [|vm_compute; reflexivity].
  destruct (proj1 (accepted_paths_stay_under_their_root (F := posix sample_files) "/ws" "docs/new.md"
    sample_scope "" OpRead _) H) as (root & names & Hr & Hq & Ho).
  exists root, names. split; [exact Hr|]. split; [exact Hq|]. apply Ho; [vm_compute; reflexivity|].
  replace (components (target_of "/ws" "docs/new.md")) with (abs ["ws"; "docs"; "new.md"]) by (vm_compute; reflexivity).
  intros Hin. cbn in Hin. repeat (apply elem_of_cons in Hin as [Hin|Hin]; [done|]). by apply elem_of_nil in Hin.
Defined.

Lemma writers_keep_off_witness :
  let F := posix sample_files in
  validate_write_path (F := F) "/ws" "docs/new.md" true = Ok (abs ["ws"; "docs"; "new.md"])
  ∧ validate_write_path (F := F) "/ws" "docs/../.Git/hooks/x" false
    = Err (ProtectedName "`.git/` holds git hooks")
  ∧ validate_write_path (F := F) "/ws" "Skills/x.md" false = Err SkillDirectory
  ∧ writable true ["docs"; "new.md"].
Proof.
  assert (validate_write_path (F := posix sample_files) "/ws" "docs/new.md" true = Ok (abs ["ws"; "docs"; "new.md"])) as H
    by (vm_compute; reflexivity).
  split; [exact H|]. do 2 (split; [vm_compute; reflexivity|]).
  apply (proj1 (writers_keep_off_protected_names (F := posix sample_files) "/ws" "docs/new.md" true _) H) with (root := ["ws"]);
    reflexivity.
Defined.

(** The two conditions are needed: after a directory that does not exist, a
    [..] brings the path back to what does, and a link there is not followed,
    so a path that opens outside the workspace is accepted; and a dangling
    link is refused by its name but accepted with a slash after it, although
    writing through it creates its target outside. *)
Theorem links_escape_the_workspace :
  let F := posix sample_files in
  (* directly: refused *)
  validate_path (F := F) "/ws" "link/key" = Err EscapesWorkspace ∧
  (* through a missing directory: accepted, and what the system opens is outside *)
  validate_path (F := F) "/ws" "missing/../link/key" = Ok (abs ["ws"; "link"; "key"]) ∧
  canonicalize (FileSystem := F) (mkPath (abs ["ws"; "link"; "key"]) false) = Some ["secret"; "key"] ∧
  (* a dangling link: refused, and accepted with a slash *)
  validate_path (F := F) "/ws" "dangling" = Err CannotResolve ∧
  validate_path (F := F) "/ws" "dangling/" = Ok (abs ["ws"; "dangling"]) ∧
  sample_files !! ["ws"; "dangling"] = Some (ELink (abs ["secret"; "new"])).
Proof. vm_compute. split_and!; reflexivity. Qed.

(** ** Scopes of hosts: what a tool may reach

    The grant of [check_net_host] in words, and the networks [is_local_host]
    stands for: its octet tests and bit masks against a table of prefixes. *)

#[local] Open Scope string_scope.
#[local] Open Scope list_scope.
#[local] Open Scope Z_scope.

(** ** Patterns *)

(** A pattern other than ["*"] names a host: itself, or a subdomain. *)
Definition names_host (pattern host : string) : Prop :=
  pattern ≠ "*" ∧
  (pattern = host ∨ ∃ suffix sub, pattern = "*." +:+ suffix ∧ host = sub +:+ "." +:+ suffix ∧ sub ≠ EmptyString).

Lemma ends_with_spec p s : ends_with p s = true ↔ ∃ x, s = x +:+ p.
Proof.
  unfold ends_with. destruct (strip_suffix p s) as [x|] eqn:E.
  - apply strip_suffix_spec in E. split; [intros _; by exists x|done].
  - split; [done|]. intros [x Hx]. assert (strip_suffix p s = Some x) by (by apply strip_suffix_spec). congruence.
Qed.

Lemma host_matches_spec p h : p ≠ "*" → host_matches p h = true ↔ names_host p h.
Proof.
  intros Hp. unfold host_matches, names_host. destruct (String.eqb_spec p "*"); [done|].
  destruct (String.eqb_spec p h) as [->|Hh]; cbn [orb]; [split; [by split; [|left]|done]|].
  destruct (strip_prefix "*." p) as [suffix|] eqn:E1.
  2: { split; [done|]. intros [_ [|(suf & sub & -> & _)]]; [done|].
       assert (strip_prefix "*." ("*." +:+ suf) = Some suf) by (by apply strip_prefix_spec). congruence. }
  apply strip_prefix_spec in E1 as ->. destruct (strip_suffix suffix h) as [pre|] eqn:E2.
  2: { split; [done|]. intros [_ [|(suf & sub & E & -> & _)]]; [done|].
       apply strip_prefix_spec in E as E'. assert (strip_prefix "*." ("*." +:+ suffix) = Some suffix) as E3 by (by apply strip_prefix_spec).
       rewrite E in E3. assert (strip_prefix "*." ("*." +:+ suf) = Some suf) as E4 by (by apply strip_prefix_spec).
       rewrite E4 in E3. injection E3 as <-.
       assert (strip_suffix suf (sub +:+ "." +:+ suf) = Some (sub +:+ ".")) as E5
         by (apply strip_suffix_spec; by rewrite str_app_assoc). congruence. }
  apply strip_suffix_spec in E2 as ->. rewrite andb_true_iff, ends_with_spec, Nat.ltb_lt. split.
  - intros [[sub ->] Hl]. split; [done|]. right. exists suffix, sub. rewrite str_app_assoc. split_and!; [done..|].
    intros ->. vm_compute in Hl. lia.
  - intros [_ [|(suf & sub & E & E' & Hs)]]; [done|].
    assert (strip_prefix "*." ("*." +:+ suffix) = Some suffix) as E3 by (by apply strip_prefix_spec).
    assert (strip_prefix "*." ("*." +:+ suf) = Some suf) as E4 by (by apply strip_prefix_spec).
    rewrite E, E4 in E3. injection E3 as <-.
    assert (pre = sub +:+ ".") as ->.
    { assert (strip_suffix suf (pre +:+ suf) = Some pre) as E5 by (by apply strip_suffix_spec).
      assert (strip_suffix suf (sub +:+ "." +:+ suf) = Some (sub +:+ ".")) as E6
        by (apply strip_suffix_spec; by rewrite str_app_assoc). rewrite E', E6 in E5. by injection E5. }
    split; [by exists sub|]. rewrite str_len_app. destruct sub; [done|]. cbn. lia.
Qed.

(** The network is denied by default: a host is granted exactly when an
    entry of [net_hosts] other than the wildcard names it, itself or as a
    subdomain, never the apex, or when the wildcard is listed and the host is
    not local; a request that carries an environment value only in the first
    case; and an environment variable, a binary by its file name or a wallet
    only when it is listed. *)
Theorem grants_are_what_the_lists_say s x :
  (check_net_host s x = Ok () ↔
     (∃ p, p ∈ net_hosts s ∧ names_host p x) ∨ ("*" ∈ net_hosts s ∧ is_local_host x = false)) ∧
  (check_named_host s x = Ok () ↔ ∃ p, p ∈ net_hosts s ∧ names_host p x) ∧
  (check_env_read s x = Ok () ↔ "*" ∈ env_reads s ∨ x ∈ env_reads s) ∧
  (check_shell_bin s x = Ok () ↔
     "*" ∈ shell_bins s ∨ default x (file_name (components x)) ∈ shell_bins s) ∧
  (check_wallet s x = Ok () ↔ x ∈ wallets s).
Proof.
  assert (∀ (b : bool) (e : ScopeError), (if b then Ok () else Err e) = Ok () ↔ b = true) as Hif by (by intros []).
  assert (∀ (f : string → bool) l, existsb f l = true ↔ ∃ y, y ∈ l ∧ f y = true) as Hex.
  { intros f l. rewrite existsb_exists. by setoid_rewrite list_elem_of_In. }
  unfold check_net_host, check_named_host, check_env_read, check_shell_bin, check_wallet.
  rewrite !Hif, !Hex. split_and!.
  - split.
    + intros (p & Hp & E). destruct (String.eqb_spec p "*") as [->|Hne].
      * right. split; [done|]. by destruct (is_local_host x).
      * left. exists p. split; [done|]. by apply host_matches_spec.
    + intros [(p & Hp & Hn)|[Hs Hl]].
      * exists p. split; [done|]. destruct (String.eqb_spec p "*") as [->|]; [by destruct Hn|]. by apply host_matches_spec.
      * exists "*". split; [done|]. by rewrite Hl.
  - split; intros (p & Hp & H); exists p; (split; [done|]).
    + apply andb_prop in H as [Hne H]. apply negb_true_iff, String.eqb_neq in Hne. by apply host_matches_spec.
    + apply andb_true_intro. destruct H as [Hne H]. split; [by apply negb_true_iff, String.eqb_neq|].
      by apply host_matches_spec.
  - split.
    + intros (v & Hv & H). apply orb_prop in H as [->%String.eqb_eq| ->%String.eqb_eq]; [by left|by right].
    + intros [H|H]; [exists "*"; by split|exists x]. split; [done|]. by rewrite String.eqb_refl, orb_true_r.
  - split.
    + intros (v & Hv & H). apply orb_prop in H as [->%String.eqb_eq| ->%String.eqb_eq]; [by left|by right].
    + intros [H|H]; [exists "*"; by split|eexists; split; [exact H|]]. by rewrite String.eqb_refl, orb_true_r.
  - split; [by intros (v & Hv & ->%String.eqb_eq)|]. intros H. exists x. split; [done|]. apply String.eqb_refl.
Qed.

(** ** Networks *)

(** A prefix: base address and length, of [bits]-wide addresses. *)
Definition in_net (bits n : Z) (net : Z * Z) : Prop :=
  n / 2 ^ (bits - snd net) = fst net / 2 ^ (bits - snd net).
Definition in_nets (bits n : Z) (nets : list (Z * Z)) : Prop := ∃ net, net ∈ nets ∧ in_net bits n net.

Definition v4_num (ip : Ipv4Addr) : Z := let '(a, b, c, d) := ip in ((a * 256 + b) * 256 + c) * 256 + d.
Definition v6_num (g : list Z) : Z := fold_left (λ n w, n * 65536 + w) g 0.

(** [0/8], [10/8], [100.64/10], [127/8], [169.254/16], [172.16/12], [192.168/16]. *)
Definition V4_NETS : list (Z * Z) :=
  [(v4_num (0, 0, 0, 0), 8); (v4_num (10, 0, 0, 0), 8); (v4_num (100, 64, 0, 0), 10); (v4_num (127, 0, 0, 0), 8);
   (v4_num (169, 254, 0, 0), 16); (v4_num (172, 16, 0, 0), 12); (v4_num (192, 168, 0, 0), 16)].
(** [::], [::1], [fc00::/7], [fe80::/10]. *)
Definition V6_NETS : list (Z * Z) :=
  [(v6_num [0; 0; 0; 0; 0; 0; 0; 0], 128); (v6_num [0; 0; 0; 0; 0; 0; 0; 1], 128);
   (v6_num [64512; 0; 0; 0; 0; 0; 0; 0], 7); (v6_num [65152; 0; 0; 0; 0; 0; 0; 0], 10)].
(** [::ffff:0:0/96]: the IPv4 address inside. *)
Definition mapped_v4 (n : Z) : option Z := if n / 2 ^ 32 =? 65535 then Some (n mod 2 ^ 32) else None.
Definition local_v6_num (n : Z) : Prop :=
  in_nets 128 n V6_NETS ∨ ∃ m, mapped_v4 n = Some m ∧ in_nets 32 m V4_NETS.

Lemma in_nets_cons bits n net nets : in_nets bits n (net :: nets) ↔ in_net bits n net ∨ in_nets bits n nets.
Proof.
  unfold in_nets. setoid_rewrite elem_of_cons. split.
  - intros (x & [->|Hx] & H); [by left|right; by exists x].
  - intros [H|(x & Hx & H)]; [exists net|exists x]; auto.
Qed.
Lemma in_nets_nil bits n : ¬ in_nets bits n [].
Proof. intros (x & Hx & _). by apply elem_of_nil in Hx. Qed.

(** Membership by the first octet, or by the first two. *)
Lemma v4_top8 a b c d : octet b → octet c → octet d → v4_num (a, b, c, d) / 2 ^ 24 = a.
Proof.
  unfold octet, v4_num. intros. symmetry. apply Z.div_unique with (r := (b * 256 + c) * 256 + d); lia.
Qed.
Lemma v4_top16 a b c d : octet c → octet d → v4_num (a, b, c, d) / 2 ^ 16 = a * 256 + b.
Proof. unfold octet, v4_num. intros. symmetry. apply Z.div_unique with (r := c * 256 + d); lia. Qed.

Lemma local_v4_spec ip : v4_ok ip → local_v4 ip = true ↔ in_nets 32 (v4_num ip) V4_NETS.
Proof.
  destruct ip as [[[a b] c] d]. intros (Ha & Hb & Hc & Hd).
  assert (∀ k, 0 ≤ k ≤ 8 → v4_num (a, b, c, d) / 2 ^ (16 + k) = (a * 256 + b) / 2 ^ k) as Hk.
  { intros k Hk. rewrite Z.pow_add_r, <-Z.div_div, v4_top16 by (done || lia). done. }
  unfold V4_NETS. rewrite !in_nets_cons. unfold in_net. cbn [fst snd].
  change (2 ^ (32 - 8)) with (2 ^ 24). change (2 ^ (32 - 16)) with (2 ^ 16).
  change (2 ^ (32 - 10)) with (2 ^ (16 + 6)). change (2 ^ (32 - 12)) with (2 ^ (16 + 4)).
  rewrite v4_top8, v4_top16, !Hk by (done || lia).
  change (v4_num (0, 0, 0, 0) / 2 ^ 24) with 0. change (v4_num (10, 0, 0, 0) / 2 ^ 24) with 10.
  change (v4_num (127, 0, 0, 0) / 2 ^ 24) with 127.
  change (v4_num (100, 64, 0, 0) / 2 ^ (16 + 6)) with 401. change (v4_num (169, 254, 0, 0) / 2 ^ 16) with 43518.
  change (v4_num (172, 16, 0, 0) / 2 ^ (16 + 4)) with 2753. change (v4_num (192, 168, 0, 0) / 2 ^ 16) with 49320.
  change (2 ^ 6) with 64. change (2 ^ 4) with 16.
  assert (in_nets 32 (v4_num (a, b, c, d)) [] ↔ False) as -> by (split; [apply in_nets_nil|done]).
  unfold octet in *.
  assert ((a * 256 + b) / 64 = 401 ↔ a = 100 ∧ 64 ≤ b < 128) as -> by (Z.to_euclidean_division_equations; lia).
  assert ((a * 256 + b) / 16 = 2753 ↔ a = 172 ∧ 16 ≤ b ≤ 31) as -> by (Z.to_euclidean_division_equations; lia).
  unfold local_v4, v4_is_loopback, v4_is_private, v4_is_link_local, v4_is_unspecified.
  rewrite !orb_true_iff, !andb_true_iff, !Z.eqb_eq, in_range_spec, Z.leb_le, Z.ltb_lt, bool_decide_eq_true.
  split.
  - intros [[[[[H|H]|H]|[= -> -> -> ->]]|H]|H]; lia.
  - lia.
Qed.

(** A mask of the high bits of a 16-bit group is a division. *)
Lemma land_high a k :
  0 ≤ a < 2 ^ 16 → 0 ≤ k ≤ 16 → Z.land a (Z.shiftl (Z.ones (16 - k)) k) = a / 2 ^ k * 2 ^ k.
Proof.
  intros Ha Hk.
  replace (Z.land a _) with (Z.shiftl (Z.land (Z.shiftr a k) (Z.ones (16 - k))) k).
  - rewrite Z.land_ones, Z.shiftr_div_pow2, Z.shiftl_mul_pow2 by lia. f_equal. apply Z.mod_small.
    split; [apply Z.div_pos; lia|]. apply Z.div_lt_upper_bound; [lia|]. rewrite <-Z.pow_add_r by lia.
    replace (k + (16 - k)) with 16 by lia. lia.
  - apply Z.bits_inj'. intros n Hn. rewrite Z.land_spec, !Z.shiftl_spec by done.
    destruct (Z_lt_le_dec n k) as [Hl|Hl].
    + rewrite !(Z.testbit_neg_r _ (n - k)) by lia. by rewrite andb_false_r.
    + rewrite Z.land_spec, Z.shiftr_spec by lia. do 2 f_equal. lia.
Qed.

Lemma fc00_prefix a : group_ok a → (Z.land a 65024 =? 64512) = true ↔ a / 2 ^ 9 = 126.
Proof.
  unfold group_ok. intros Ha. change 65024 with (Z.shiftl (Z.ones (16 - 9)) 9).
  rewrite land_high, Z.eqb_eq by lia. change (2 ^ 9) with 512. lia.
Qed.
Lemma fe80_prefix a : group_ok a → (Z.land a 65472 =? 65152) = true ↔ a / 2 ^ 6 = 1018.
Proof.
  unfold group_ok. intros Ha. change 65472 with (Z.shiftl (Z.ones (16 - 6)) 6).
  rewrite land_high, Z.eqb_eq by lia. change (2 ^ 6) with 64. lia.
Qed.

Lemma v6_num_snoc g w : v6_num (g ++ [w]) = v6_num g * 65536 + w.
Proof. unfold v6_num. by rewrite fold_left_app. Qed.

Lemma v6_top g l k :
  Forall group_ok l → 0 ≤ k → v6_num (g ++ l) / 2 ^ (16 * Z.of_nat (length l) + k) = v6_num g / 2 ^ k.
Proof.
  intros Hl Hk. induction l as [|w l IH] using rev_ind; [by rewrite app_nil_r|].
  apply Forall_app in Hl as [Hl Hw]. apply Forall_cons in Hw as [Hw _]. unfold group_ok in Hw.
  rewrite app_assoc, v6_num_snoc, length_app. cbn [length].
  replace (16 * Z.of_nat (length l + 1) + k) with (16 + (16 * Z.of_nat (length l) + k)) by lia.
  rewrite Z.pow_add_r, <-Z.div_div by lia.
  replace ((v6_num (g ++ l) * 65536 + w) / 2 ^ 16) with (v6_num (g ++ l)); [by apply IH|].
  apply Z.div_unique with (r := w); change (2 ^ 16) with 65536; lia.
Qed.

Lemma v6_num_nonneg g : Forall group_ok g → 0 ≤ v6_num g.
Proof.
  induction g as [|w g IH] using rev_ind; [done|]. intros [Hg Hw]%Forall_app. apply Forall_cons in Hw as [Hw _].
  unfold group_ok in Hw. rewrite v6_num_snoc. specialize (IH Hg). lia.
Qed.

(** Addresses of one length are their numbers. *)
Lemma v6_num_inj g h : Forall group_ok g → Forall group_ok h → length g = length h → v6_num g = v6_num h → g = h.
Proof.
  revert h. induction g as [|w g IH] using rev_ind; intros h Hg Hh Hl E.
  - by destruct h.
  - destruct h as [|v h _] using rev_ind; [rewrite length_app in Hl; cbn in Hl; lia|].
    apply Forall_app in Hg as [Hg Hw], Hh as [Hh Hv]. apply Forall_cons in Hw as [Hw _], Hv as [Hv _].
    unfold group_ok in *. rewrite !v6_num_snoc in E. rewrite !length_app in Hl. cbn in Hl.
    assert (v6_num g = v6_num h ∧ w = v) as [Eg ->] by lia. f_equal. apply IH; [done|done|lia|done].
Qed.

Lemma mapped_some g ip :
  v6_ok g → to_ipv4_mapped g = Some ip → mapped_v4 (v6_num g) = Some (v4_num ip) ∧ v4_ok ip.
Proof.
  intros [_ Hg] H. assert (∃ ab cd, g = [0; 0; 0; 0; 0; 65535; ab; cd]
    ∧ ip = (ab / 256, ab mod 256, cd / 256, cd mod 256)) as (ab & cd & -> & ->).
  { unfold to_ipv4_mapped in H. repeat case_match; try done. injection H as <-. by do 2 eexists. }
  do 6 apply Forall_cons in Hg as [_ Hg]. apply Forall_cons in Hg as [Ha Hg]. apply Forall_cons in Hg as [Hb _].
  unfold group_ok in *. split.
  - unfold mapped_v4, v6_num, v4_num. cbn [fold_left].
    replace (((((((((0 * 65536 + 0) * 65536 + 0) * 65536 + 0) * 65536 + 0) * 65536 + 0) * 65536 + 65535) * 65536 + ab) * 65536 + cd))
      with (65535 * 2 ^ 32 + (ab * 65536 + cd)) by lia.
    rewrite Z.div_add_l, (Z.div_small (ab * 65536 + cd)) by lia. rewrite Z.add_0_r, Z.eqb_refl. f_equal.
    rewrite Z.add_comm, Z.mod_add, Z.mod_small by lia.
    pose proof (Z.div_mod ab 256). pose proof (Z.div_mod cd 256). lia.
  - unfold v4_ok, octet. pose proof (Z.mod_pos_bound ab 256). pose proof (Z.mod_pos_bound cd 256).
    pose proof (Z.div_mod ab 256). pose proof (Z.div_mod cd 256). lia.
Qed.

Lemma mapped_none g : v6_ok g → to_ipv4_mapped g = None → mapped_v4 (v6_num g) = None.
Proof.
  intros [Hl Hg] H. unfold mapped_v4. destruct (Z.eqb_spec (v6_num g / 2 ^ 32) 65535) as [E|]; [exfalso|done].
  destruct g as [|a [|b [|c [|d [|e [|f [|ab [|cd [|? ?]]]]]]]]]; try done. clear Hl.
  change [a; b; c; d; e; f; ab; cd] with ([a; b; c; d; e; f] ++ [ab; cd]) in *.
  apply Forall_app in Hg as [Hg1 Hg2].
  pose proof (v6_top [a; b; c; d; e; f] [ab; cd] 0 Hg2 ltac:(lia)) as Ht.
  change (16 * Z.of_nat (length [ab; cd]) + 0) with 32 in Ht. change (2 ^ 0) with 1 in Ht. rewrite E, Z.div_1_r in Ht.
  assert ([a; b; c; d; e; f] = [0; 0; 0; 0; 0; 65535]) as [= -> -> -> -> -> ->]; [|done].
  apply v6_num_inj; [done| |done|done]. repeat constructor; unfold group_ok; lia.
Qed.

Lemma local_v6_spec g : v6_ok g → local_v6 g = true ↔ local_v6_num (v6_num g).
Proof.
  intros Hg. destruct Hg as [Hl Hg'] eqn:Eg. clear Eg. unfold local_v6, local_v6_num, V6_NETS.
  rewrite !in_nets_cons. unfold in_net. cbn [fst snd]. change (128 - 128) with 0. rewrite !Z.div_1_r.
  assert (in_nets 128 (v6_num g) [] ↔ False) as -> by (split; [apply in_nets_nil|done]).
  destruct g as [|a g7]; [done|]. change (default 0 (head (a :: g7))) with a. cbn in Hl.
  apply Forall_cons in Hg' as Ha. destruct Ha as [Ha Hg7].
  assert (∀ k, 0 ≤ k → v6_num (a :: g7) / 2 ^ (112 + k) = a / 2 ^ k) as Hk.
  { intros k Hk. pose proof (v6_top [a] g7 k Hg7 Hk) as E. change (v6_num [a]) with a in E. rewrite <-E.
    change ([a] ++ g7) with (a :: g7). do 2 f_equal. lia. }
  change (128 - 7) with (112 + 9). change (128 - 10) with (112 + 6). rewrite !Hk by lia.
  rewrite !orb_true_iff, fc00_prefix, fe80_prefix by done.
  change (v6_num [64512; 0; 0; 0; 0; 0; 0; 0] / 2 ^ (112 + 9)) with 126.
  change (v6_num [65152; 0; 0; 0; 0; 0; 0; 0] / 2 ^ (112 + 6)) with 1018.
  assert (∀ h, v6_ok h → a :: g7 = h ↔ v6_num (a :: g7) = v6_num h) as Hnum.
  { intros h [Hlh Hh]. split; [by intros ->|]. apply v6_num_inj; [done|done|]. rewrite Hlh. cbn. lia. }
  unfold v6_is_loopback, v6_is_unspecified. rewrite !bool_decide_eq_true.
  rewrite !Hnum by (split; [done|]; repeat constructor; unfold group_ok; lia).
  destruct (to_ipv4_mapped (a :: g7)) as [ip|] eqn:Em.
  - apply mapped_some in Em as [Em Hip]; [|done]. rewrite (local_v4_spec ip Hip), Em. split.
    + intros [[[[H|H]|H]|H]|H]; [tauto..|]. right. by exists (v4_num ip).
    + intros [H|(m & [= <-] & H)]; tauto.
  - apply mapped_none in Em; [|done]. rewrite Em. split; [intros [[[[H|H]|H]|H]|H]; first [done|tauto]|].
    intros [H|(m & H & _)]; [tauto|done].
Qed.

(** ** Addresses as they are written *)

Definition addr_char (a : ascii) : bool :=
  is_ascii_digit a || in_range 97 102 (code a) || Ascii.eqb a ":" || Ascii.eqb a ".".

Lemma addr_char_no_upper a : addr_char a = true → to_ascii_lowercase a = a.
Proof.
  intros H. unfold to_ascii_lowercase. destruct (is_ascii_uppercase a) eqn:E; [|done]. exfalso.
  unfold is_ascii_uppercase in E. apply in_range_spec in E. unfold addr_char, is_ascii_digit in H.
  rewrite !orb_true_iff, !in_range_spec, !Ascii.eqb_eq in H.
  destruct H as [[[H|H]| ->]| ->]; [lia|lia|change (code ":") with 58 in E; lia|change (code ".") with 46 in E; lia].
Qed.
Lemma addr_chars_lower t : Forall (λ a, addr_char a = true) t → map to_ascii_lowercase t = t.
Proof. induction 1 as [|a t Ha _ IH]; [done|]. cbn. by rewrite IH, addr_char_no_upper. Qed.

Lemma trim_start_keep c t : head t ≠ Some c → trim_start_matches c (of_bytes t) = of_bytes t.
Proof. destruct t as [|a t]; [done|]. cbn. intros H. destruct (Ascii.eqb_spec a c) as [->|]; [done|done]. Qed.
Lemma str_rev_of_bytes t : str_rev (of_bytes t) = of_bytes (reverse t).
Proof. apply bytes_inj. by rewrite str_rev_bytes, !bytes_of_bytes. Qed.
Lemma trim_end_keep c t : last t ≠ Some c → trim_end_matches c (of_bytes t) = of_bytes t.
Proof.
  intros H. unfold trim_end_matches. rewrite str_rev_of_bytes, trim_start_keep, str_rev_of_bytes, reverse_involutive; [done|].
  by rewrite head_reverse.
Qed.
Lemma trim_end_one c t : last t ≠ Some c → trim_end_matches c (of_bytes (t ++ [c])) = of_bytes t.
Proof.
  intros H. unfold trim_end_matches. rewrite str_rev_of_bytes, reverse_snoc. cbn [trim_start_matches string_of_list_ascii].
  rewrite Ascii.eqb_refl, trim_start_keep, str_rev_of_bytes, reverse_involutive; [done|]. by rewrite head_reverse.
Qed.

(** The text of an address, bare or in brackets, is its own name. *)
Definition address_text (t : list ascii) : Prop := Forall (λ a, addr_char a = true) t ∧ last t ≠ Some "."%char.

Lemma addr_ends t c : Forall (λ a, addr_char a = true) t → addr_char c = false → head t ≠ Some c ∧ last t ≠ Some c.
Proof.
  intros H Hc. rewrite Forall_forall in H. split; intros E.
  - destruct t as [|a t]; [done|]. injection E as ->. rewrite (H c) in Hc; [done|by left].
  - apply last_Some_elem_of in E. by rewrite (H c) in Hc.
Qed.

Lemma host_name_bare t : address_text t → host_name (of_bytes t) = of_bytes t.
Proof.
  intros [Ht Hl]. unfold host_name, ascii_lower.
  rewrite trim_start_keep by (by apply addr_ends). rewrite (trim_end_keep "]" t) by (by apply addr_ends).
  rewrite bytes_of_bytes, addr_chars_lower by done. by apply trim_end_keep.
Qed.
Lemma host_name_bracketed t : address_text t → host_name (of_bytes ("["%char :: t ++ ["]"%char])) = of_bytes t.
Proof.
  intros [Ht Hl]. unfold host_name, ascii_lower.
  assert (trim_start_matches "[" (of_bytes ("["%char :: t ++ ["]"%char])) = of_bytes (t ++ ["]"%char])) as ->.
  { cbn [string_of_list_ascii trim_start_matches]. rewrite Ascii.eqb_refl. apply trim_start_keep.
    destruct t as [|a t]; [done|]. cbn. intros [= ->]. by apply Forall_cons in Ht as [? _]. }
  rewrite (trim_end_one "]" t) by (by apply addr_ends). rewrite bytes_of_bytes, addr_chars_lower by done. by apply trim_end_keep.
Qed.

Lemma not_a_name t suffix :
  Forall (λ a, addr_char a = true) t → existsb (Ascii.eqb "l") (bytes suffix) = true →
  of_bytes t ≠ suffix ∧ ends_with suffix (of_bytes t) = false.
Proof.
  intros Ht Hs. apply existsb_exists in Hs as (l & Hl & <-%Ascii.eqb_eq). apply list_elem_of_In in Hl.
  rewrite Forall_forall in Ht. split.
  - intros E. rewrite <-E, bytes_of_bytes in Hl. by apply Ht in Hl.
  - apply not_true_iff_false. intros (x & E)%ends_with_spec. apply (f_equal list_ascii_of_string) in E.
    rewrite bytes_of_bytes, bytes_app in E. assert ("l"%char ∈ t) as Hin by (rewrite E; set_solver). by apply Ht in Hin.
Qed.

Lemma local_text t ip :
  address_text t → parse_ip (of_bytes t) = Some ip →
  let b := match ip with V4 ip => local_v4 ip | V6 g => local_v6 g end in
  is_local_host (of_bytes t) = b ∧ is_local_host (of_bytes ("["%char :: t ++ ["]"%char])) = b.
Proof.
  intros Ht Hp. unfold is_local_host. rewrite host_name_bare, host_name_bracketed by done. cbv zeta.
  destruct Ht as [Ht _]. destruct (not_a_name t "localhost" Ht eq_refl) as [H1 _].
  destruct (not_a_name t ".localhost" Ht eq_refl) as [_ H2], (not_a_name t ".local" Ht eq_refl) as [_ H3].
  destruct (String.eqb_spec (of_bytes t) "localhost"); [done|]. rewrite H2, H3, Hp. by destruct ip.
Qed.

Lemma digits_text s : str_forall is_ascii_digit s = true → Forall (λ a, addr_char a = true) (bytes s).
Proof. apply str_forall_Forall. intros a H. unfold addr_char. by rewrite H. Qed.
Lemma last_app_ne {A} (a b : list A) : b ≠ [] → last (a ++ b) = last b.
Proof. intros H. rewrite last_app. destruct b as [|x b _] using rev_ind; [done|]. by rewrite last_snoc. Qed.

Lemma show_v4_text ip : v4_ok ip → address_text (show_v4 ip).
Proof.
  destruct ip as [[[a b] c] d]. intros (Ha & Hb & Hc & Hd). unfold octet in *.
  assert (∀ v, 0 ≤ v → Forall (λ a, addr_char a = true) (bytes (show_N v))) as Hs by (intros; by apply digits_text, show_N_digits).
  unfold show_v4. split.
  - repeat (first [apply Forall_app; split; [apply Hs; lia|]|constructor; [done|]]). apply Hs. lia.
  - assert (bytes (show_N d) ≠ []) as Hn.
    { intros E. pose proof (show_N_nonempty d ltac:(lia)) as H. apply (bytes_inj _ EmptyString) in E. by rewrite E in H. }
    assert (∃ p, bytes (show_N a) ++ "."%char :: bytes (show_N b) ++ "."%char :: bytes (show_N c) ++ "."%char :: bytes (show_N d)
      = p ++ bytes (show_N d)) as [p ->].
    { exists (bytes (show_N a) ++ "."%char :: bytes (show_N b) ++ "."%char :: bytes (show_N c) ++ ["."%char]).
      do 3 (rewrite <-!app_assoc; cbn [app]). done. }
    rewrite last_app_ne by done. intros E. apply last_Some_elem_of in E.
    pose proof (show_N_digits d ltac:(lia)) as H.
    apply (str_forall_Forall _ (λ a, is_ascii_digit a = true)) in H; [|done]. rewrite Forall_forall in H. by apply H in E.
Qed.

Definition group_char (a : ascii) : bool := addr_char a && negb (Ascii.eqb a ".").
Lemma hex_char_text d : 0 ≤ d < 16 → group_char (hex_char d) = true.
Proof. intros Hd. apply (nibbles_forall (λ d, group_char (hex_char d))); [vm_compute; reflexivity|done]. Qed.
Lemma show_hex16_text g : group_ok g → Forall (λ a, group_char a = true) (show_hex16 g).
Proof.
  unfold group_ok, show_hex16. intros Hg.
  assert (∀ v, 0 ≤ v mod 16 < 16) as Hm by (intros; apply Z.mod_pos_bound; lia).
  assert (∀ k m, 0 < k → g < m * k → m ≤ 16 → 0 ≤ g / k < 16) as Hq.
  { intros k m Hk Hm1 Hm2. split; [apply Z.div_pos; lia|]. apply Z.div_lt_upper_bound; [done|nia]. }
  repeat case_match; rewrite ?Z.ltb_lt, ?Z.ltb_ge in *; repeat constructor; apply hex_char_text; try apply Hm;
    first [lia|by apply (Hq _ 16); lia].
Qed.
Lemma show_groups_text i gs : Forall group_ok gs → Forall (λ a, group_char a = true) (show_groups_from i gs).
Proof.
  intros H. revert i. induction H as [|g gs Hg _ IH]; intros i; cbn; [constructor|].
  apply Forall_app. split; [case_match; repeat constructor|]. apply Forall_app. split; [by apply show_hex16_text|apply IH].
Qed.
Lemma group_chars_text t : Forall (λ a, group_char a = true) t → address_text t.
Proof.
  intros H. split.
  - eapply Forall_impl; [exact H|]. intros a Ha. by apply andb_prop in Ha as [Ha _].
  - intros E. apply last_Some_elem_of in E. rewrite Forall_forall in H. by apply H in E.
Qed.

(** C35. The wildcard's exception is a table of networks: an address written
    as [a.b.c.d], or as IPv6 groups with or without a run of zeros left out,
    bare or in brackets, is local exactly when it is in one of them
    (loopback, private, shared, link-local, unique-local and unspecified
    addresses, and IPv6 addresses that map one of the IPv4 ones). *)
Theorem local_hosts_are_the_listed_networks :
  (∀ ip, v4_ok ip →
     let t := show_v4 ip in
     (is_local_host (of_bytes t) = true ↔ in_nets 32 (v4_num ip) V4_NETS) ∧
     (is_local_host (of_bytes ("["%char :: t ++ ["]"%char])) = true ↔ in_nets 32 (v4_num ip) V4_NETS)) ∧
  (∀ g, v6_ok g →
     let t := show_groups g in
     (is_local_host (of_bytes t) = true ↔ local_v6_num (v6_num g)) ∧
     (is_local_host (of_bytes ("["%char :: t ++ ["]"%char])) = true ↔ local_v6_num (v6_num g))) ∧
  (∀ head tail, Forall group_ok head → Forall group_ok tail → (length head + length tail ≤ 7)%nat →
     let t := show_v6_short head tail in
     let n := v6_num (head ++ replicate (8 - length head - length tail) 0 ++ tail) in
     (is_local_host (of_bytes t) = true ↔ local_v6_num n) ∧
     (is_local_host (of_bytes ("["%char :: t ++ ["]"%char])) = true ↔ local_v6_num n)).
Proof.
  split_and!.
  - intros ip Hip t. destruct (local_text t (V4 ip)) as [H1 H2]; [by apply show_v4_text|by apply parse_v4_text|].
    rewrite H1, H2, local_v4_spec by done. done.
  - intros g Hg t. destruct (local_text t (V6 g)) as [H1 H2]; [|by apply parse_v6_text|].
    { apply group_chars_text, show_groups_text. apply Hg. }
    rewrite H1, H2, local_v6_spec by done. done.
  - intros head tail Hh Ht Hl t n.
    assert (v6_ok (head ++ replicate (8 - length head - length tail) 0 ++ tail)) as Hg.
    { split; [rewrite !length_app, length_replicate; lia|]. rewrite !Forall_app. split_and!; [done| |done].
      apply Forall_replicate. unfold group_ok. lia. }
    destruct (local_text t (V6 (head ++ replicate (8 - length head - length tail) 0 ++ tail))) as [H1 H2].
    { apply group_chars_text. unfold t, show_v6_short. rewrite !Forall_app. split_and!;
        [by apply show_groups_text|by repeat constructor|by apply show_groups_text]. }
    { by apply parse_v6_short. }
    rewrite H1, H2. unfold n. rewrite local_v6_spec by done. done.
Qed.

(** ** Shell words: quoted text stays one word

    What [sh] makes of a word that is quoted throughout, and that a command
    line built from plain words and quoted texts is split back into them. *)

(** ** The chars of a text *)

(** A text of whole chars: no continuation byte follows an ASCII byte or comes first. *)
Fixpoint whole_chars_from (prev_ascii : bool) (s : string) : bool :=
  match s with
  | EmptyString => true
  | String a s => negb (is_continuation a && prev_ascii) && whole_chars_from (code a <? 128)%Z s
  end.
Definition whole_chars (s : string) : bool := whole_chars_from true s.

Definition starts_char (s : string) : Prop :=
  match s with String a _ => is_continuation a = false | EmptyString => True end.

Lemma whole_starts s : whole_chars s = true → starts_char s.
Proof. destruct s as [|a s]; [done|]. cbn. by destruct (is_continuation a). Qed.

Lemma whole_after p a c s :
  (code c <? 128)%Z = true → whole_chars_from p (a +:+ String c s) = true → whole_chars s = true.
Proof.
  intros Hc. revert p. induction a as [|x a IH]; intros p.
  - change (EmptyString +:+ ?x) with x. cbn [whole_chars_from]. rewrite Hc. by intros [_ H]%andb_prop.
  - rewrite str_app_cons. cbn [whole_chars_from]. intros [_ H]%andb_prop. by apply IH in H.
Qed.

Lemma chars_cons a s : starts_char s → chars (String a s) = String a EmptyString :: chars s.
Proof.
  destruct s as [|b s]; [done|]. intros H. unfold starts_char in H. remember (String b s) as t eqn:Et.
  cbn [chars]. rewrite Et at 1. rewrite H. by destruct (chars t).
Qed.

Lemma chars_nonempty a s : chars (String a s) ≠ [].
Proof. cbn. destruct s, (chars _); try done. by destruct (is_continuation _). Qed.

Lemma chars_app a b : starts_char b → chars (a +:+ b) = chars a ++ chars b.
Proof.
  intros Hb. induction a as [|x a IH]; [done|]. rewrite str_app_cons. destruct a as [|y a].
  - change (EmptyString +:+ b) with b. by rewrite chars_cons.
  - cbn [chars] in *. rewrite str_app_cons in *. cbn [chars] in *. rewrite IH.
    set (cs := match a with EmptyString => _ | String _ _ => _ end).
    assert (cs ≠ []) as Hn by apply (chars_nonempty y a).
    destruct cs as [|c cs]; [done|]. cbn [app]. by destruct (is_continuation y).
Qed.

Lemma concat_chars s : List.concat (map list_ascii_of_string (chars s)) = bytes s.
Proof.
  induction s as [|a s IH]; [done|]. cbn [chars list_ascii_of_string]. rewrite <-IH.
  destruct s as [|b s]; [done|]. destruct (chars (String b s)) as [|c cs] eqn:E; [by apply chars_nonempty in E|].
  by destruct (is_continuation b).
Qed.

Lemma chars_occur c s : c ∈ chars s → occurs c s.
Proof.
  intros H. apply list_elem_of_split in H as (l & k & E). pose proof (concat_chars s) as Hc. rewrite E, map_app in Hc.
  rewrite concat_app in Hc. cbn in Hc.
  exists (of_bytes (List.concat (map list_ascii_of_string l))), (of_bytes (List.concat (map list_ascii_of_string k))).
  apply bytes_inj. by rewrite !bytes_app, !bytes_of_bytes, <-Hc.
Qed.

(** ** The loop in a quote and over plain chars *)

Definition str_concat (cs : list string) : string := of_bytes (List.concat (map list_ascii_of_string cs)).
Lemma str_concat_chars s : str_concat (chars s) = s.
Proof. unfold str_concat. by rewrite concat_chars, of_bytes_bytes. Qed.
Lemma str_concat_cons c cs : str_concat (c :: cs) = c +:+ str_concat cs.
Proof. apply bytes_inj. unfold str_concat. by rewrite bytes_app, !bytes_of_bytes. Qed.

Lemma words_in_quote cs rest w :
  sq ∉ cs → words_loop (cs ++ rest) (Some w) (Some sq) 0 = words_loop rest (Some (w +:+ str_concat cs)) (Some sq) 0.
Proof.
  revert w. induction cs as [|c cs IH]; intros w H; [by rewrite str_app_nil_r|].
  apply not_elem_of_cons in H as [Hc H]. cbn [app words_loop].
  assert (String.eqb c sq = false) as -> by (by apply String.eqb_neq).
  rewrite (String.eqb_refl sq), andb_false_r. cbn [push_char default]. unfold push_char. rewrite IH by done.
  by rewrite str_concat_cons, str_app_assoc.
Qed.

(** The special chars of the loop; a plain word has none. *)
Definition plain_char (c : string) : bool :=
  negb (is_separator c) && negb (String.eqb c backslash) && negb (is_quote c) && negb (String.eqb c "$").

Lemma words_plain cs rest st :
  Forall (λ c, plain_char c = true) cs → cs ≠ [] →
  words_loop (cs ++ rest) st None 0 = words_loop rest (Some (default "" st +:+ str_concat cs)) None 0.
Proof.
  intros H. revert st. induction H as [|c cs Hc _ IH]; intros st Hn; [done|]. cbn [app words_loop].
  unfold plain_char in Hc. apply andb_prop in Hc as [[[H1 H2]%andb_prop H3]%andb_prop H4].
  apply negb_true_iff in H1, H2, H3, H4. rewrite H1, H2, H3, H4. cbn [Nat.eqb andb Nat.ltb Nat.leb].
  rewrite !andb_false_r. unfold push_char. rewrite str_concat_cons.
  destruct cs as [|c' cs]; [by rewrite str_app_nil_r|]. rewrite IH by done.
  change (default _ (Some ?x)) with x. by rewrite str_app_assoc.
Qed.

(** ** Quoting *)

Definition esc : string := sq +:+ backslash +:+ sq +:+ sq.

Lemma sq_nonempty : sq ≠ EmptyString.
Proof. done. Qed.

Lemma body_starts a l rest : starts_char a → starts_char (join esc (a :: l) +:+ sq +:+ rest).
Proof. intros H. destruct a as [|x a]; [by destruct l|]. by destruct l. Qed.

Lemma words_body s :
  whole_chars s = true → ∀ w rest, starts_char rest →
  words_loop (chars (join esc (split_str sq s) +:+ sq +:+ rest)) (Some w) (Some sq) 0
  = words_loop (chars rest) (Some (w +:+ join esc (split_str sq s) +:+ sq)) None 0.
Proof.
  enough (split_str sq s ≠ [] ∧ (whole_chars s = true →
    (∀ rest, starts_char (join esc (split_str sq s) +:+ sq +:+ rest)) ∧
    ∀ w rest, starts_char rest →
    words_loop (chars (join esc (split_str sq s) +:+ sq +:+ rest)) (Some w) (Some sq) 0
    = words_loop (chars rest) (Some (w +:+ join esc (split_str sq s) +:+ sq)) None 0)) as [_ H] by (intros Hs; by apply H).
  revert s. apply (split_ind sq sq_nonempty (λ s l, l ≠ [] ∧ (whole_chars s = true →
    (∀ rest, starts_char (join esc l +:+ sq +:+ rest)) ∧
    ∀ w rest, starts_char rest →
    words_loop (chars (join esc l +:+ sq +:+ rest)) (Some w) (Some sq) 0
    = words_loop (chars rest) (Some (w +:+ join esc l +:+ sq)) None 0))).
  - intros s Hs. split; [done|]. intros Hw. split; [intros rest; apply (body_starts s []); by apply whole_starts|].
    intros w rest Hr. change (join esc [s]) with s. rewrite chars_app by done.
    rewrite words_in_quote by (intros Hin; by apply chars_occur in Hin).
    rewrite str_concat_chars. change (sq +:+ rest) with (String "'" rest). rewrite chars_cons by done.
    cbn [words_loop]. unfold push_char. cbn. by rewrite str_app_assoc.
  - intros s a b l E [Hl IH]. split; [done|]. intros Hw.
    pose proof (before_match_free _ _ _ _ sq_nonempty E) as Ha. apply split_once_str_sound in E as ->.
    assert (whole_chars b = true) as Hb by (by eapply (whole_after true a "'" b)).
    destruct (IH Hb) as [IHs IHw].
    assert (starts_char a) as Hsa by (apply whole_starts in Hw; by destruct a).
    split; [intros rest; by apply body_starts|]. intros w rest Hr. rewrite join_cons by done.
    rewrite !str_app_assoc. rewrite chars_app by done.
    rewrite words_in_quote by (intros Hin; by apply chars_occur in Hin). rewrite str_concat_chars.
    set (tl := join esc l +:+ sq +:+ rest).
    assert (starts_char tl) as Htl by apply (IHs rest).
    change (esc +:+ tl) with (String "'" (String "092" (String "'" (String "'" tl)))).
    rewrite !chars_cons by done. cbn [words_loop]. unfold push_char. cbn. unfold tl.
    rewrite IHw by done. do 2 f_equal. rewrite !str_app_assoc. done.
Qed.

(** What [sh] makes of a word: quotes removed, nothing in it expanded; [None]
    when a char stands outside quotes, or a quote is not closed. *)
Fixpoint sh_value (quoted : bool) (s : list ascii) : option (list ascii) :=
  match s with
  | [] => if quoted then None else Some []
  | c :: s =>
      if quoted then
        if Ascii.eqb c "'" then sh_value false s else cons c <$> sh_value true s
      else if Ascii.eqb c "'" then sh_value true s
      else if Ascii.eqb c "092" then match s with n :: s => cons n <$> sh_value false s | [] => None end
      else None
  end.

Lemma sh_value_run a s : "'"%char ∉ a → sh_value true (a ++ s) = app a <$> sh_value true s.
Proof.
  induction a as [|c a IH]; intros H; cbn.
  - by destruct (sh_value true s).
  - apply not_elem_of_cons in H as [Hc H]. destruct (Ascii.eqb_spec c "'"); [by subst|]. rewrite IH by done.
    by destruct (sh_value true s).
Qed.

Lemma sq_free a : ¬ occurs sq a → "'"%char ∉ bytes a.
Proof.
  intros H Hin. apply H. apply list_elem_of_split in Hin as (l & k & E).
  exists (of_bytes l), (of_bytes k). apply bytes_inj. rewrite !bytes_app, !bytes_of_bytes. done.
Qed.

Lemma sh_value_body s : sh_value true (bytes (join esc (split_str sq s) +:+ sq)) = Some (bytes s).
Proof.
  enough (split_str sq s ≠ [] ∧ sh_value true (bytes (join esc (split_str sq s) +:+ sq)) = Some (bytes s)) by tauto.
  revert s. apply (split_ind sq sq_nonempty
    (λ s l, l ≠ [] ∧ sh_value true (bytes (join esc l +:+ sq)) = Some (bytes s))).
  - intros s Hs. split; [done|]. change (join esc [s]) with s. rewrite bytes_app, sh_value_run by (by apply sq_free).
    cbn. by rewrite app_nil_r.
  - intros s a b l E [Hl IH]. split; [done|]. pose proof (before_match_free _ _ _ _ sq_nonempty E) as Ha.
    apply split_once_str_sound in E as ->. rewrite join_cons, !str_app_assoc, bytes_app by done.
    rewrite sh_value_run by (by apply sq_free). rewrite bytes_app.
    change (bytes esc) with ["'"%char; "092"%char; "'"%char; "'"%char]. cbn. rewrite IH. cbn. by rewrite !bytes_app.
Qed.

Lemma sh_value_quoted s : sh_value false (bytes (shell_quote s)) = Some (bytes s).
Proof. apply (sh_value_body s). Qed.

(** A word of a command line: quoted text, or a word without special chars. *)
Definition shell_word (w : string) : Prop :=
  (∃ s, whole_chars s = true ∧ w = shell_quote s) ∨
  (w ≠ EmptyString ∧ starts_char w ∧ Forall (λ c, plain_char c = true) (chars w)).

Lemma shell_word_starts w rest : shell_word w → starts_char (w +:+ rest).
Proof. intros [(s & _ & ->)|(Hn & Hs & _)]; [done|]. by destruct w. Qed.

Lemma words_one w rest :
  shell_word w → starts_char rest →
  words_loop (chars (w +:+ rest)) None None 0 = words_loop (chars rest) (Some w) None 0.
Proof.
  intros [(s & Hs & ->)|(Hn & _ & Hp)] Hr.
  - change (shell_quote s) with (sq +:+ join esc (split_str sq s) +:+ sq). rewrite !str_app_assoc.
    assert (starts_char (join esc (split_str sq s) +:+ sq +:+ rest)) as Hst.
    { pose proof (split_nonempty sq sq_nonempty s) as Hne. pose proof (join_split sq sq_nonempty s) as Hj.
      destruct (split_str sq s) as [|p l]; [done|]. apply body_starts. apply whole_starts in Hs.
      rewrite <-Hj in Hs. destruct p as [|x p]; [done|]. by destruct l. }
    change (sq +:+ ?t) with (String "'" t) at 1. rewrite chars_cons by done. cbn [words_loop].
    assert (is_separator (String "'" EmptyString) = false) as -> by (vm_compute; reflexivity).
    rewrite andb_false_r. change (String.eqb (String "'" EmptyString) backslash) with false.
    change (is_quote (String "'" EmptyString)) with true. cbn iota.
    change (push_char None "'") with (Some sq). change (Some "'") with (Some sq). rewrite words_body by done. done.
  - rewrite chars_app by done. rewrite words_plain; [|done|].
    + change (default _ None) with EmptyString. by rewrite str_concat_chars.
    + destruct w; [done|]. apply chars_nonempty.
Qed.

Lemma words_join ws : Forall shell_word ws → shell_words (join " " ws) = ws.
Proof.
  unfold shell_words. intros H. induction H as [|w ws Hw Hws IH]; [done|]. destruct Hws as [|w' ws Hw' Hws].
  - change (join " " [w]) with w. rewrite <-(str_app_nil_r w) at 1. rewrite words_one by done. done.
  - rewrite join_cons by done. rewrite words_one; [|done|done].
    change (" " +:+ ?t) with (String " " t). rewrite chars_cons.
    + cbn [words_loop]. change ((0 =? 0) && is_separator " ") with true. cbn iota. by rewrite IH.
    + destruct ws as [|w'' ws].
      * change (join " " [w']) with w'. rewrite <-(str_app_nil_r w'). by apply shell_word_starts.
      * rewrite join_cons by done. by apply shell_word_starts.
Qed.

Lemma quoted_is_no_assignment s : is_assignment (shell_quote s) = false.
Proof.
  unfold shell_quote, is_assignment. change (sq +:+ ?t) with (String "'" t) at 1.
  set (t := replace sq _ s +:+ sq). cbn. by destruct (split_once "=" t) as [[? ?]|].
Qed.

(** Quoted text is one word: [sh] reads it back as the text it was, to the
    last quote, backslash, dollar or newline, expanding nothing; a command line
    of such texts and of plain words is split into exactly them; and the
    binary a scope is asked for is then its first word that is no assignment,
    or the first of all, never a part of quoted text. *)
Theorem quoted_text_is_one_word ws s rest :
  Forall shell_word ws → Forall shell_word rest → whole_chars s = true →
  sh_value false (bytes (shell_quote s)) = Some (bytes s) ∧
  shell_words (join " " ws) = ws ∧
  shell_command_binary (join " " ws)
    = match List.find (λ w, negb (is_assignment w)) ws with Some w => w | None => default "" (head ws) end ∧
  (forallb is_assignment ws = true →
   shell_command_binary (join " " (ws ++ shell_quote s :: rest)) = shell_quote s).
Proof.
  intros Hws Hrest Hs. split; [apply sh_value_quoted|]. split; [by apply words_join|]. unfold shell_command_binary.
  split; [by rewrite words_join|]. intros Ha. rewrite words_join.
  - assert (List.find (λ w, negb (is_assignment w)) (ws ++ shell_quote s :: rest) = Some (shell_quote s)) as ->; [|done].
    clear Hws. induction ws as [|w ws IH]; cbn [app List.find].
    + by rewrite quoted_is_no_assignment.
    + cbn in Ha. apply andb_prop in Ha as [Hw Ha]. rewrite Hw. by apply IH.
  - apply Forall_app. split; [done|]. constructor; [left; by exists s|done].
Qed.

Lemma quoted_text_is_one_word_witness :
  shell_words (join " " ["A=1"; shell_quote "it's; rm -rf $HOME"; "-x"]) = ["A=1"; shell_quote "it's; rm -rf $HOME"; "-x"]
  ∧ shell_command_binary (join " " (["A=1"] ++ [shell_quote "it's; rm -rf $HOME"])) = shell_quote "it's; rm -rf $HOME".
Proof.
  assert (Forall shell_word ["A=1"; shell_quote "it's; rm -rf $HOME"; "-x"]) as H.
  { apply Forall_cons. split; [right; split; [done|split; [done|by repeat constructor]]|].
    apply Forall_cons. split; [left; exists "it's; rm -rf $HOME"; by vm_compute|].
    apply Forall_cons. split; [right; split; [done|split; [done|by repeat constructor]]|constructor]. }
  assert (Forall shell_word ["A=1"]) as H1 by (apply Forall_cons in H as [H _]; by repeat constructor).
  split.
  - apply (quoted_text_is_one_word _ "" [] H); [constructor|reflexivity].
  - apply (quoted_text_is_one_word ["A=1"] "it's; rm -rf $HOME" [] H1); [constructor|vm_compute; reflexivity..].
Defined.
