(* ===== verification/SourceRecord.v ===== *)
(** * Source records ([src/src/domain/source/record.rs])

    One row per thing an approved source published, as a parser read it: the
    typed fact with its provenance, its identity and what [validate] refuses.
    Times are epoch milliseconds. The canonical JSON of a record's content and
    its SHA-256 are the parameter [canonical_sha256]. *)

From Stdlib Require Import Ascii String.
From S2P Require Import Prelude.
From S2P Require Import Text.
From S2P Require Import Lineage.
From S2P Require Import Bytes.
From S2P Require Import Substr.

#[local] Open Scope string_scope.
#[local] Open Scope list_scope.
#[local] Open Scope Z_scope.

Definition RECORD_SCHEMA : string := "source_record/1".

(** ** Enumerations *)

Inductive SourceClass : Type :=
  LawRegulator | CompanyPrimary | RegistryMarketplace | CustomerDemand | IndependentReporting | SocialInference.
#[export] Instance SourceClass_eq_dec : EqDecision SourceClass.
Proof. solve_decision. Defined.

Inductive Trust : Type := Primary | Corroborating | TriggerOnly.
#[export] Instance Trust_eq_dec : EqDecision Trust.
Proof. solve_decision. Defined.

Definition class_name (c : SourceClass) : string :=
  match c with
  | LawRegulator => "law_regulator"
  | CompanyPrimary => "company_primary"
  | RegistryMarketplace => "registry_marketplace"
  | CustomerDemand => "customer_demand"
  | IndependentReporting => "independent_reporting"
  | SocialInference => "social_inference"
  end.

Definition trust_name (t : Trust) : string :=
  match t with Primary => "primary" | Corroborating => "corroborating" | TriggerOnly => "trigger_only" end.

(** Whether a source of the class may carry the trust. *)
Definition allows (c : SourceClass) (t : Trust) : bool :=
  match c with
  | IndependentReporting => negb (bool_decide (t = Primary))
  | SocialInference => bool_decide (t = TriggerOnly)
  | _ => true
  end.

Inductive ParseStatus : Type := ParseOk | ParsePartial | ParseFailed.
Definition parse_name (p : ParseStatus) : string :=
  match p with ParseOk => "Ok" | ParsePartial => "Partial" | ParseFailed => "Error" end.

Inductive AccessMethod : Type := HttpGet | HttpPost | BulkFile.

Record ParseError : Type := mkParseError { pe_field : string; pe_message : string }.

(** ** Shapes of text *)

Definition valid_token (s : string) : bool := negb (str_is_empty s) && negb (any_space_or_control s).

Definition all_digits (s : string) : bool := negb (str_is_empty s) && str_forall is_ascii_digit s.

Definition valid_source_id (s : string) : bool :=
  negb (str_is_empty s)
  && str_forall (λ c, is_ascii_lowercase c || is_ascii_digit c || Ascii.eqb c "_") s.

Definition valid_url (s : string) : bool :=
  valid_token s && (starts_with "https://" s || starts_with "http://" s).

Definition valid_key (s : string) : bool :=
  valid_token s
  && (3 <=? length (split_str ":" s))%nat
  && forallb (λ p, negb (str_is_empty p)) (split_str ":" s).

Definition strip_minus (s : string) : string := default s (strip_prefix "-" s).

Definition valid_decimal (s : string) : bool :=
  let body := strip_minus s in
  match split_once "." body with
  | Some (int, frac) => all_digits int && all_digits frac
  | None => all_digits body
  end.

Definition valid_currency (s : string) : bool :=
  (str_len s =? 3)%nat && str_forall is_ascii_uppercase s.

Definition valid_cpv (s : string) : bool :=
  let digits p n := (str_len p =? n)%nat && str_forall is_ascii_digit p in
  match split_once "-" s with
  | Some (code, check) => digits code 8%nat && digits check 1%nat
  | None => digits s 8%nat
  end.

(** [split_parser_version]: the name and [n]. *)
Definition split_parser_version (v : string) : option (string * Z) :=
  '(name, n) ← split_once "/" v;
  let name_ok :=
    negb (str_is_empty name)
    && str_forall (λ c, is_ascii_lowercase c || is_ascii_digit c || Ascii.eqb c "-" || Ascii.eqb c "_") name in
  let n_ok := all_digits n && negb (starts_with "0" n) in
  if negb (name_ok && n_ok) then None
  else n ← try_u32 (parse_dec 0 n); Some (name, n).

(** [rsplit_once] at an ASCII char: at the last one. *)
Fixpoint rsplit_once (c : ascii) (s : string) : option (string * string) :=
  match s with
  | EmptyString => None
  | String a s =>
      match rsplit_once c s with
      | Some (x, y) => Some (String a x, y)
      | None => if Ascii.eqb a c then Some (EmptyString, s) else None
      end
  end.

Definition record_id_of (source_id native_id content_hash : string) : string :=
  source_id +:+ ":" +:+ native_id +:+ ":" +:+ content_hash.

Definition split_record_id (id : string) : option (string * string * string) :=
  '(source, rest) ← split_once ":" id;
  '(native, hash) ← rsplit_once ":" rest;
  if valid_source_id source && valid_token native && valid_sha256 hash
  then Some (source, native, hash) else None.

Definition sec_filing_key (accession : string) : string := "sec:filing:" +:+ accession.
Definition sec_cik_entity (cik10 : string) : string := "sec:cik:" +:+ cik10.
Definition ted_procedure_key (procedure_id : string) : string := "ted:procedure:" +:+ procedure_id.
Definition ted_notice_key (publication_number : string) : string := "ted:notice:" +:+ publication_number.
Definition ted_buyer_entity (country buyer_id : string) : string :=
  "ted:buyer:" +:+ country +:+ ":" +:+ buyer_id.

(** The first item that an earlier one equals. *)
Fixpoint first_duplicate_go (seen items : list string) : option string :=
  match items with
  | [] => None
  | i :: items => if bool_decide (i ∈ seen) then Some i else first_duplicate_go (i :: seen) items
  end.
Definition first_duplicate (items : list string) : option string := first_duplicate_go [] items.

(** ** Facts *)

Record NativeAmount : Type := mkAmount { amount : string; na_currency : string }.

Definition amount_validate (a : NativeAmount) : result string unit :=
  if negb (valid_decimal (amount a)) then
    Err ("amount `" +:+ amount a
      +:+ "` is not a plain decimal (digits, one optional `.` between digits, optional leading `-`)")
  else if negb (valid_currency (na_currency a)) then
    Err ("currency `" +:+ na_currency a +:+ "` is not an ISO 4217 code (three uppercase letters)")
  else Ok tt.

Inductive PlaceRole : Type := Buyer | Performance | Legal | Delivery.
Inductive PlaceScheme : Type := Iso3166 | Nuts.
Definition scheme_debug (s : PlaceScheme) : string := match s with Iso3166 => "Iso3166" | Nuts => "Nuts" end.

Record Place : Type := mkPlace { pl_role : PlaceRole; scheme : PlaceScheme; pl_code : string }.

Definition place_ok (p : Place) : bool :=
  let n := str_len (pl_code p) in
  match scheme p with
  | Iso3166 => ((n =? 2) || (n =? 3))%nat && str_forall is_ascii_uppercase (pl_code p)
  | Nuts =>
      (2 <=? n)%nat && (n <=? 5)%nat
      && forallb is_ascii_uppercase (take 2 (bytes (pl_code p)))
      && forallb (λ c, is_ascii_uppercase c || is_ascii_digit c) (drop 2 (bytes (pl_code p)))
  end.

Definition place_validate (p : Place) : result string unit :=
  if place_ok p then Ok tt
  else Err ("place code `" +:+ pl_code p +:+ "` is not a valid " +:+ scheme_debug (scheme p) +:+ " code").

Record Origin : Type := mkOrigin { o_source_id : string; o_native_id : option string }.

Record SecFiling : Type := mkFiling {
  cik : string;
  form : string;
  items : list string;
  title : string;
}.

Record TedNotice : Type := mkNotice {
  notice_type : string;
  procedure_id : option string;
  lot_ids : list string;
  buyer_name : option string;
  places : list Place;
  cpv : list string;
  deadline_ms : option Z;
  value : option NativeAmount;
}.

Inductive WithdrawnHow : Type := Gone | Moved.

Record Withdrawn : Type := mkWithdrawn {
  how : WithdrawnHow;
  http_status : option Z;
  moved_to : option string;
  w_reason : string;
}.

Inductive Fact : Type :=
  | FSecFiling (f : SecFiling)
  | FTedNotice (n : TedNotice)
  | FUnparsed (reason : string)
  | FWithdrawn (w : Withdrawn).

Definition fact_kind (f : Fact) : string :=
  match f with
  | FSecFiling _ => "sec_filing"
  | FTedNotice _ => "ted_notice"
  | FUnparsed _ => "unparsed"
  | FWithdrawn _ => "withdrawn"
  end.

Definition fact_is_typed (f : Fact) : bool :=
  match f with FSecFiling _ | FTedNotice _ => true | _ => false end.

Definition fact_currency (f : Fact) : option string :=
  match f with FTedNotice n => na_currency <$> value n | _ => None end.

(** One problem when the check fails. *)
Definition unless (ok : bool) (problem : string) : list string := if ok then [] else [problem].

(** One problem for the value found. *)
Definition found {A} (o : option A) (problem : A → string) : list string :=
  match o with Some a => [problem a] | None => [] end.

Definition errors_of {A} (r : result string A) (prefix : string) : list string :=
  match r with Err e => [prefix +:+ e] | Ok _ => [] end.

Definition bad_token (s : string) : bool := negb (valid_token s).

(** [filter(|x| !p(x))] of an option. *)
Definition reject_if {A} (p : A → bool) (o : option A) : option A :=
  match o with Some a => if p a then Some a else None | None => None end.

Definition fact_problems (f : Fact) : list string :=
  match f with
  | FSecFiling f =>
      unless ((str_len (cik f) =? 10)%nat && str_forall is_ascii_digit (cik f))
        ("fact.cik: `" +:+ cik f +:+ "` is not 10 digits")
      ++ unless (valid_token (form f)) ("fact.form: `" +:+ form f +:+ "` is empty or has whitespace")
      ++ found (List.find bad_token (items f)) (λ i, "fact.items: `" +:+ i +:+ "` is empty or has whitespace")
  | FTedNotice n =>
      unless (valid_token (notice_type n))
        ("fact.notice_type: `" +:+ notice_type n +:+ "` is empty or has whitespace")
      ++ found (reject_if bad_token (procedure_id n))
           (λ p, "fact.procedure_id: `" +:+ p +:+ "` is empty or has whitespace (omit it instead)")
      ++ found (List.find bad_token (lot_ids n)) (λ l, "fact.lot_ids: `" +:+ l +:+ "` is empty or has whitespace")
      ++ found (first_duplicate (lot_ids n)) (λ l, "fact.lot_ids: `" +:+ l +:+ "` listed twice")
      ++ found (reject_if (λ b, str_is_empty (trim b)) (buyer_name n))
           (λ _, "fact.buyer_name: empty (omit it instead)")
      ++ List.concat (map (λ p, errors_of (place_validate p) "fact.places: ") (places n))
      ++ found (List.find (λ c, negb (valid_cpv c)) (cpv n))
           (λ c, "fact.cpv: `" +:+ c +:+ "` is not 8 digits with an optional `-<check digit>`")
      ++ match value n with Some a => errors_of (amount_validate a) "fact.value: " | None => [] end
  | FUnparsed reason => unless (negb (str_is_empty (trim reason))) "fact.reason: empty"
  | FWithdrawn w =>
      unless (negb (str_is_empty (trim (w_reason w)))) "fact.reason: empty"
      ++ match how w, moved_to w with
         | Moved, None => ["fact.moved_to: required when `how = moved`"]
         | Gone, Some _ => ["fact.moved_to: only when `how = moved`"]
         | Moved, Some u => unless (valid_url u) ("fact.moved_to: `" +:+ u +:+ "` is not an http(s) URL")
         | Gone, None => []
         end
      ++ found (reject_if (λ s, negb (in_range 300 599 s)) (http_status w))
           (λ s, "fact.http_status: " +:+ show_Z s +:+ " is not 300–599")
  end.

(** ** Inferences *)

Record Inference : Type := mkInference {
  i_text : string;
  i_model : string;
  prompt_sha256 : string;
  generation : option string;
  as_of_ms : Z;
}.

(** [if out.is_empty() { Ok(()) } else { Err(out) }]. *)
Definition no_problems (out : list string) : result (list string) unit :=
  match out with [] => Ok tt | _ => Err out end.

Definition inference_validate (i : Inference) : result (list string) unit :=
  no_problems
    (unless (negb (str_is_empty (trim (i_text i)))) "text: empty"
     ++ unless (valid_token (i_model i)) ("model: `" +:+ i_model i +:+ "` is empty or has whitespace")
     ++ unless (valid_sha256 (prompt_sha256 i))
          ("prompt_sha256: `" +:+ prompt_sha256 i +:+ "` is not 64 lowercase hex")
     ++ found (reject_if bad_token (generation i))
          (λ _, "generation: empty or has whitespace (omit it instead)")).

(** ** Records *)

Record SourceRecord : Type := mkRecord {
  schema : string;
  record_id : string;
  source_id : string;
  source_class : SourceClass;
  trust : Trust;
  native_id : string;
  event_key : string;
  entities : list string;
  url : string;
  published_ms : Z;
  observed_ms : Z;
  parsed_ms : Z;
  valid_from_ms : Z;
  valid_until_ms : option Z;
  jurisdiction : string;
  language : string;
  currency : option string;
  content_hash : string;
  snapshots : list string;
  parser_version : string;
  license_or_terms : string;
  terms_sha256 : string;
  access_method : AccessMethod;
  parse : ParseStatus;
  parse_errors : list ParseError;
  fact : Fact;
  supersedes : option string;
  origin : option Origin;
}.

(** What the content hash covers: the fields of [content]'s JSON. *)
Record Content : Type := mkContent {
  ct_source_id : string;
  ct_native_id : string;
  ct_event_key : string;
  ct_entities : list string;
  ct_url : string;
  ct_published_ms : Z;
  ct_valid_from_ms : Z;
  ct_valid_until_ms : option Z;
  ct_jurisdiction : string;
  ct_language : string;
  ct_currency : option string;
  ct_fact : Fact;
  ct_origin : option Origin;
  ct_supersedes : option string;
}.

Definition content (r : SourceRecord) : Content :=
  mkContent (source_id r) (native_id r) (event_key r) (entities r) (url r) (published_ms r)
    (valid_from_ms r) (valid_until_ms r) (jurisdiction r) (language r) (currency r) (fact r)
    (origin r) (supersedes r).

(** [self] with the identity's two fields. *)
Definition set_identity (r : SourceRecord) (id hash : string) : SourceRecord :=
  mkRecord (schema r) id (source_id r) (source_class r) (trust r) (native_id r) (event_key r) (entities r)
    (url r) (published_ms r) (observed_ms r) (parsed_ms r) (valid_from_ms r) (valid_until_ms r)
    (jurisdiction r) (language r) (currency r) hash (snapshots r) (parser_version r) (license_or_terms r)
    (terms_sha256 r) (access_method r) (parse r) (parse_errors r) (fact r) (supersedes r) (origin r).

Section identity.
(** The canonical JSON of the content, hashed; [{:?}] of an option of text. *)
Context (canonical_sha256 : Content → string) (debug_option : option string → string).

Definition content_hash_now (r : SourceRecord) : string := canonical_sha256 (content r).

Definition with_identity (r : SourceRecord) : SourceRecord :=
set_identity r (record_id_of (source_id r) (native_id r) (content_hash_now r)) (content_hash_now r).

Definition withdrawal (r : SourceRecord) (withdrawn : Withdrawn) (snapshot : string) (observed_ms parsed_ms : Z)
  : SourceRecord :=
with_identity
  (mkRecord (schema r) "" (source_id r) (source_class r) (trust r) (native_id r) (event_key r) (entities r)
     (url r) (published_ms r) observed_ms parsed_ms (valid_from_ms r) (valid_until_ms r)
     (jurisdiction r) (language r) None "" [snapshot] (parser_version r) (license_or_terms r)
     (terms_sha256 r) (access_method r) ParseOk [] (FWithdrawn withdrawn) None (origin r)).

Definition is_unparsed (f : Fact) : bool := match f with FUnparsed _ => true | _ => false end.

(** The table of parse status, errors and fact. *)
Definition parse_coherent (p : ParseStatus) (no_errors unparsed : bool) : bool :=
match p, no_errors, unparsed with
| ParseOk, true, false | ParsePartial, false, false | ParseFailed, false, true => true
| _, _, _ => false
end.

Definition opt_str_eqb (a b : option string) : bool := bool_decide (a = b).


Definition blank (s : string) : bool := str_is_empty (trim s).

Definition shape_problems (r : SourceRecord) : list string :=
unless (String.eqb (schema r) RECORD_SCHEMA) ("schema: `" +:+ schema r +:+ "` is not `" +:+ RECORD_SCHEMA +:+ "`")
++ unless (valid_source_id (source_id r)) ("source_id: `" +:+ source_id r +:+ "` is not [a-z0-9_]+")
++ unless (valid_token (native_id r)) ("native_id: `" +:+ native_id r +:+ "` is empty or has whitespace")
++ unless (valid_key (event_key r)) ("event_key: `" +:+ event_key r +:+ "` is not <scheme>:<kind>:<id>")
++ found (List.find (λ e, negb (valid_key e)) (entities r))
     (λ e, "entities: `" +:+ e +:+ "` is not <scheme>:<kind>:<id>")
++ found (first_duplicate (entities r)) (λ e, "entities: `" +:+ e +:+ "` listed twice")
++ unless (valid_url (url r)) ("url: `" +:+ url r +:+ "` is not an http(s) URL").

Definition clock_problems (r : SourceRecord) : list string :=
unless (observed_ms r <=? parsed_ms r)
  ("parsed_ms: " +:+ show_Z (parsed_ms r) +:+ " is before observed_ms " +:+ show_Z (observed_ms r))
++ found (reject_if (λ u, u <=? valid_from_ms r) (valid_until_ms r))
     (λ u, "valid_until_ms: " +:+ show_Z u +:+ " is not after valid_from_ms " +:+ show_Z (valid_from_ms r)).

Definition place_problems (r : SourceRecord) : list string :=
unless (valid_token (jurisdiction r)) "jurisdiction: empty or has whitespace"
++ unless (valid_token (language r)) "language: empty or has whitespace"
++ found (reject_if (λ c, negb (valid_currency c)) (currency r))
     (λ c, "currency: `" +:+ c +:+ "` is not an ISO 4217 code")
++ unless (opt_str_eqb (currency r) (fact_currency (fact r)) || negb (is_some (fact_currency (fact r))))
     ("currency: " +:+ debug_option (currency r) +:+ " differs from the fact's amount currency "
      +:+ debug_option (fact_currency (fact r))).

Definition identity_problems (r : SourceRecord) : list string :=
(if negb (valid_sha256 (content_hash r)) then
   ["content_hash: `" +:+ content_hash r +:+ "` is not 64 lowercase hex"]
 else
   unless (String.eqb (content_hash r) (content_hash_now r))
     ("content_hash: `" +:+ content_hash r +:+ "` does not match the content (`" +:+ content_hash_now r +:+ "`)"))
++ (let id := record_id_of (source_id r) (native_id r) (content_hash r) in
    unless (String.eqb (record_id r) id) ("record_id: `" +:+ record_id r +:+ "` is not `" +:+ id +:+ "`")).

Definition provenance_problems (r : SourceRecord) : list string :=
unless (negb (bool_decide (snapshots r = []))) "snapshots: none (a record rests on at least one raw snapshot)"
++ found (List.find (λ s, negb (valid_sha256 s)) (snapshots r))
     (λ s, "snapshots: `" +:+ s +:+ "` is not 64 lowercase hex")
++ found (first_duplicate (snapshots r)) (λ s, "snapshots: `" +:+ s +:+ "` listed twice")
++ unless (is_some (split_parser_version (parser_version r)))
     ("parser_version: `" +:+ parser_version r +:+ "` is not <parser>/<n ≥ 1>")
++ unless (negb (blank (license_or_terms r))) "license_or_terms: empty"
++ unless (valid_sha256 (terms_sha256 r)) ("terms_sha256: `" +:+ terms_sha256 r +:+ "` is not 64 lowercase hex")
++ unless (allows (source_class r) (trust r))
     ("trust: a `" +:+ class_name (source_class r) +:+ "` source cannot be `" +:+ trust_name (trust r) +:+ "`").

Definition parse_problems (r : SourceRecord) : list string :=
unless (parse_coherent (parse r) (bool_decide (length (parse_errors r) = 0%nat)) (is_unparsed (fact r)))
  ("parse: `" +:+ parse_name (parse r) +:+ "` with " +:+ show_N (Z.of_nat (length (parse_errors r)))
   +:+ " error(s) and a `" +:+ fact_kind (fact r)
   +:+ "` fact (ok ⇒ no errors + typed fact; partial ⇒ errors + typed fact; error ⇒ errors + unparsed)")
++ found (List.find (λ e, blank (pe_field e) || blank (pe_message e)) (parse_errors r))
     (λ e, "parse_errors: field and message required (`" +:+ pe_field e +:+ "`: `" +:+ pe_message e +:+ "`)").

Definition link_problems (r : SourceRecord) : list string :=
match supersedes r with
| Some s =>
    if negb (is_some (split_record_id s)) then
      ["supersedes: `" +:+ s +:+ "` is not <source_id>:<native_id>:<content_hash>"]
    else if String.eqb s (record_id r) then ["supersedes: the record itself"] else []
| None => []
end
++ match origin r with
   | Some o =>
       unless (valid_source_id (o_source_id o)) ("origin.source_id: `" +:+ o_source_id o +:+ "` is not [a-z0-9_]+")
       ++ found (reject_if bad_token (o_native_id o))
            (λ _, "origin.native_id: empty or has whitespace (omit it instead)")
       ++ unless (negb (String.eqb (o_source_id o) (source_id r) && opt_str_eqb (o_native_id o) (Some (native_id r))))
            "origin: the record itself"
   | None => []
   end.

Definition validate (r : SourceRecord) : result (list string) unit :=
no_problems
  (shape_problems r ++ clock_problems r ++ place_problems r ++ identity_problems r ++ provenance_problems r
   ++ parse_problems r ++ fact_problems (fact r) ++ link_problems r).
End identity.

(** ** Identities of source records *)

Lemma rsplit_once_none c s : str_forall (λ a, negb (Ascii.eqb a c)) s = true → rsplit_once c s = None.
Proof.
  induction s as [|a s IH]; cbn [str_forall rsplit_once]; [done|]. intros [Ha Hs]%andb_prop.
  rewrite (IH Hs). by destruct (Ascii.eqb a c).
Qed.

Lemma rsplit_once_app c a b :
  str_forall (λ x, negb (Ascii.eqb x c)) b = true → rsplit_once c (a +:+ String c b) = Some (a, b).
Proof.
  intros Hb. induction a as [|x a IH].
  - change (EmptyString +:+ String c b)%string with (String c b). cbn [rsplit_once].
    by rewrite (rsplit_once_none c b Hb), Ascii.eqb_refl.
  - rewrite str_app_cons. cbn [rsplit_once]. by rewrite IH.
Qed.

Lemma rsplit_once_inv c s a b : rsplit_once c s = Some (a, b) → s = (a +:+ String c b)%string.
Proof.
  revert a b. induction s as [|x s IH]; intros a b; cbn [rsplit_once]; [done|].
  destruct (rsplit_once c s) as [[y z]|].
  - intros [= <- <-]. rewrite str_app_cons. by rewrite (IH y z).
  - destruct (Ascii.eqb_spec x c) as [->|]; [|done]. by intros [= <- <-].
Qed.

Lemma str_forall_impl (p q : ascii → bool) s :
  (∀ a, p a = true → q a = true) → str_forall p s = true → str_forall q s = true.
Proof.
  intros H. induction s as [|a s IH]; cbn [str_forall]; [done|]. intros [Ha Hs]%andb_prop.
  rewrite (H a Ha). by apply IH.
Qed.

(** Neither an id nor a hash holds a colon. *)
Lemma source_id_no_colon s : valid_source_id s = true → str_forall (λ a, negb (Ascii.eqb a ":")) s = true.
Proof.
  unfold valid_source_id. intros [_ H]%andb_prop. revert H. apply str_forall_impl. intros a Ha.
  destruct (Ascii.eqb_spec a ":") as [->|]; [done|done].
Qed.

Lemma sha256_no_colon s : valid_sha256 s = true → str_forall (λ a, negb (Ascii.eqb a ":")) s = true.
Proof.
  unfold valid_sha256. intros [_ H]%andb_prop. revert H. apply str_forall_impl. intros a Ha.
  destruct (Ascii.eqb_spec a ":") as [->|]; [done|done].
Qed.

Lemma record_id_split s n h :
  valid_source_id s = true → valid_token n = true → valid_sha256 h = true →
  split_record_id (record_id_of s n h) = Some (s, n, h).
Proof.
  intros Hs Hn Hh. unfold split_record_id, record_id_of.
  change (s +:+ ":" +:+ n +:+ ":" +:+ h)%string with (s +:+ String ":" (n +:+ String ":" h))%string.
  rewrite split_once_app by (by apply source_id_no_colon). cbn [mbind option_bind].
  rewrite rsplit_once_app by (by apply sha256_no_colon). cbn [mbind option_bind].
  by rewrite Hs, Hn, Hh.
Qed.

Lemma split_record_id_sound id s n h :
  split_record_id id = Some (s, n, h) →
  id = record_id_of s n h ∧ valid_source_id s = true ∧ valid_token n = true ∧ valid_sha256 h = true.
Proof.
  unfold split_record_id, record_id_of. destruct (split_once ":" id) as [[s' rest]|] eqn:E; [|done].
  cbn [mbind option_bind]. destruct (rsplit_once ":" rest) as [[n' h']|] eqn:E'; [|done]. cbn [mbind option_bind].
  destruct (valid_source_id s') eqn:Hs, (valid_token n') eqn:Hn, (valid_sha256 h') eqn:Hh; cbn; try done.
  intros [= <- <- <-]. apply split_once_inv in E as ->. apply rsplit_once_inv in E' as ->. done.
Qed.

Section identity.
Context (canonical_sha256 : Content → string) (debug_option : option string → string).
#[local] Notation with_identity := (with_identity canonical_sha256).
#[local] Notation validate := (validate canonical_sha256 debug_option).

Lemma unless_nil b p : unless b p = [] ↔ b = true.
Proof. by destruct b. Qed.

Lemma no_problems_ok l : no_problems l = Ok tt ↔ l = [].
Proof. by destruct l. Qed.

Lemma valid_identity r : validate r = Ok tt →
valid_source_id (source_id r) = true ∧ valid_token (native_id r) = true ∧ valid_sha256 (content_hash r) = true
∧ content_hash r = canonical_sha256 (content r)
∧ record_id r = record_id_of (source_id r) (native_id r) (content_hash r).
Proof.
intros H. apply no_problems_ok in H. apply app_nil in H as [Hshape H]. apply app_nil in H as [_ H].
apply app_nil in H as [_ H]. apply app_nil in H as [Hid _].
unfold shape_problems in Hshape. apply app_nil in Hshape as [_ Hshape]. apply app_nil in Hshape as [Hs Hshape].
apply app_nil in Hshape as [Hn _]. apply unless_nil in Hs, Hn.
unfold identity_problems in Hid. apply app_nil in Hid as [Hh Hi]. apply unless_nil, String.eqb_eq in Hi.
destruct (valid_sha256 (content_hash r)); [|done]. cbn in Hh. apply unless_nil, String.eqb_eq in Hh. done.
Qed.

(** A record's id is its content: the id prints and parses back to its
  three parts, a native id with colons included; two valid records with one
  id come from one source, one item and, unless two contents collide under
  the hash, say the same; and the same content read again, by another
  parser, with other clocks, gets the same id, so a second read of it, or of
  a withdrawal, is not a second record. *)
Theorem record_ids_are_content :
(∀ s n h, valid_source_id s = true → valid_token n = true → valid_sha256 h = true →
   split_record_id (record_id_of s n h) = Some (s, n, h)) ∧
(∀ id s n h, split_record_id id = Some (s, n, h) →
   id = record_id_of s n h ∧ valid_source_id s = true ∧ valid_token n = true ∧ valid_sha256 h = true) ∧
(∀ a b, validate a = Ok tt → validate b = Ok tt → record_id a = record_id b →
   source_id a = source_id b ∧ native_id a = native_id b
   ∧ canonical_sha256 (content a) = canonical_sha256 (content b)) ∧
(∀ a b, content a = content b → record_id (with_identity a) = record_id (with_identity b)) ∧
(∀ r w s s' o o' p p',
   record_id (withdrawal canonical_sha256 r w s o p) = record_id (withdrawal canonical_sha256 r w s' o' p')).
Proof.
split_and!.
- apply record_id_split.
- apply split_record_id_sound.
- intros a b Ha Hb E. apply valid_identity in Ha as (Sa & Na & Ha & <- & Ia), Hb as (Sb & Nb & Hb & <- & Ib).
  pose proof (record_id_split _ _ _ Sa Na Ha) as Ea. pose proof (record_id_split _ _ _ Sb Nb Hb) as Eb.
  rewrite <-Ia, E, Ib, Eb in Ea. injection Ea as -> -> ->. done.
- intros a b E. unfold SourceRecord.with_identity, content_hash_now. cbn [set_identity record_id]. rewrite E.
  injection E as E1 E2 _. congruence.
- intros r w s s' o o' p p'. done.
Qed.
End identity.
