(* ===== verification/SourceAsof.v ===== *)
(** * The as-of view ([src/src/domain/source/{rules,asof}.rs])

    What the source records said at an instant [t]: the current version of each
    item, corrections applied, class rules checked, events graded and
    disagreements listed. A [BTreeMap] is a [gmap] read through [btree_iter],
    a [BTreeSet] the list [btree_set] of its elements in order. *)

From Stdlib Require Import Ascii String.
From S2P Require Import Prelude.
From S2P Require Import Ordered.
From S2P Require Import Text.
From S2P Require Import Bytes.
From S2P Require Import Substr.
From S2P Require Import SourceRecord.

#[local] Open Scope string_scope.
#[local] Open Scope list_scope.
#[local] Open Scope Z_scope.

(** ** Rules ([rules.rs]) *)

Definition MIN_DEMAND_EVENTS : nat := 2.

Inductive Revision : Type := Immutable | InPlace.
#[export] Instance Revision_eq_dec : EqDecision Revision.
Proof. solve_decision. Defined.

Record SourcePolicy : Type := mkPolicy { revision : Revision; listing_max_age_ms : option Z }.

Inductive IssueCode : Type :=
  JurisdictionMissing | ListingStale | ListingMaxAgeMissing | SourceNotInRegistry
  | SupersedesOtherEvent | SupersedesNotVisible.
#[export] Instance IssueCode_eq_dec : EqDecision IssueCode.
Proof. solve_decision. Defined.

(** The derived order: the variants' positions. *)
Definition issue_code_index (c : IssueCode) : Z :=
  match c with
  | JurisdictionMissing => 0 | ListingStale => 1 | ListingMaxAgeMissing => 2
  | SourceNotInRegistry => 3 | SupersedesOtherEvent => 4 | SupersedesNotVisible => 5
  end.
#[export] Instance issue_code_index_inj : Inj (=) (=) issue_code_index.
Proof. by intros [] []. Qed.
#[export] Instance IssueCode_countable : Countable IssueCode.
Proof.
  apply (inj_countable issue_code_index
    (λ i, List.find (λ c, i =? issue_code_index c)
       [JurisdictionMissing; ListingStale; ListingMaxAgeMissing; SourceNotInRegistry; SupersedesOtherEvent;
        SupersedesNotVisible])). by intros [].
Defined.

(** [Issue]: the record's id, the code, the detail; ordered as derived. *)
Notation Issue := (string * (IssueCode * string))%type.
Definition issue_new (record_id : string) (code : IssueCode) (detail : string) : Issue :=
  (record_id, (code, detail)).
Definition issue_cmp : Issue → Issue → comparison :=
  pair_cmp str_cmp (pair_cmp (cmp_on issue_code_index Z.compare) str_cmp).

Inductive DemandStatus : Type := NoDemand | SingleSignal | Aggregate.
Definition demand_of (events : nat) : DemandStatus :=
  match events with
  | O => NoDemand
  | n => if (n <? MIN_DEMAND_EVENTS)%nat then SingleSignal else Aggregate
  end.

Definition valid_jurisdiction (j : string) : bool :=
  let letters (s : string) (lens : list nat) :=
    existsb (Nat.eqb (str_len s)) lens && str_forall is_ascii_uppercase s in
  match split_once "-" j with
  | Some (country, sub) =>
      letters country [2%nat]
      && ((1 <=? str_len sub)%nat && (str_len sub <=? 3)%nat)
      && str_forall (λ c, is_ascii_uppercase c || is_ascii_digit c) sub
  | None => letters j [2%nat; 3%nat]
  end.

Section asof.
(** [time.rs]: [fmt_time], chrono's RFC 3339. *)
Context (fmt_time : Z → string).

Definition class_issues (r : SourceRecord) (policy : option SourcePolicy) (newest_read_ms : option Z) (t : Z)
  : list Issue :=
match policy with
| None =>
    [issue_new (record_id r) SourceNotInRegistry
       ("source `" +:+ source_id r +:+ "` has no [sources.registry] row")]
| Some policy =>
    match source_class r with
    | LawRegulator =>
        if negb (valid_jurisdiction (jurisdiction r)) then
          [issue_new (record_id r) JurisdictionMissing
             "a law / regulator fact needs its jurisdiction: an ISO 3166 code or EU"]
        else []
    | RegistryMarketplace =>
        match listing_max_age_ms policy, newest_read_ms with
        | None, _ =>
            [issue_new (record_id r) ListingMaxAgeMissing
               "a registry / marketplace fact needs its row's listing_max_age_days"]
        | Some _, None => [issue_new (record_id r) ListingStale "no read of its source at or before t"]
        | Some max, Some read =>
            if max <? t - read then
              [issue_new (record_id r) ListingStale
                 ("newest read " +:+ fmt_time read +:+ " is " +:+ show_Z (t - read)
                  +:+ " ms before t; the row allows " +:+ show_Z max +:+ " ms")]
            else []
        end
    | _ => []
    end
end.

(** ** The view's data *)

Inductive AsOfMode : Type := Captured | Knowable.

Record Coverage : Type := mkCoverage {
cov_source_id : string;
query_key : string;
fetched_ms : Z;
from_ms : Z;
to_ms : Z;
complete : bool;
error_class : option string;
}.

Record Purge : Type := mkPurge {
p_source_id : string;
purged_ms : Z;
raw_before_ms : option Z;
records_before_ms : option Z;
p_snapshots : Z;
p_records : Z;
p_reason : string;
}.

Record AsOfInput : Type := mkInput {
records : list SourceRecord;
coverage : list Coverage;
purges : list Purge;
policies : gmap string SourcePolicy;
}.

Inductive RecordState : Type := InForce | Pending | Expired | StWithdrawn | StUnparsed.

Definition state_is_typed (s : RecordState) : bool :=
match s with InForce | Pending | Expired => true | _ => false end.

Record Current : Type := mkCurrent {
record : SourceRecord;
c_visible_ms : Z;
state : RecordState;
last_fact : option SourceRecord;
}.

Inductive SupersededBy : Type := ByRevision | ByCorrection.
#[export] Instance SupersededBy_eq_dec : EqDecision SupersededBy.
Proof. solve_decision. Defined.
#[export] Instance SupersededBy_countable : Countable SupersededBy.
Proof.
apply (inj_countable' (λ b, match b with ByRevision => false | ByCorrection => true end)
  (λ b : bool, if b then ByCorrection else ByRevision)). by intros [].
Defined.
Definition by_index (b : SupersededBy) : Z := match b with ByRevision => 0 | ByCorrection => 1 end.
#[export] Instance by_index_inj : Inj (=) (=) by_index.
Proof. by intros [] []. Qed.

(** [Supersession]: old, new, by; ordered as derived. *)
Notation Supersession := (string * (string * SupersededBy))%type.
Definition supersession_cmp : Supersession → Supersession → comparison :=
pair_cmp str_cmp (pair_cmp str_cmp (cmp_on by_index Z.compare)).

Inductive Confidence : Type := Confirmed | Corroborated | Single | CTriggerOnly | CNone.

Record EventRow : Type := mkEvent {
ev_event_key : string;
confidence : Confidence;
primary : nat;
origins : list string;
ev_records : list string;
}.

(** [Conflict]: event, lots, field, record ids; ordered as derived. *)
Notation Conflict := (string * (list string * (string * list string)))%type.
Definition conflict_cmp : Conflict → Conflict → comparison :=
pair_cmp str_cmp (pair_cmp (lex_cmp str_cmp) (pair_cmp str_cmp (lex_cmp str_cmp))).

Record AsOfView : Type := mkView {
at_ms : Z;
mode : AsOfMode;
current : list Current;
superseded : list Supersession;
issues : list Issue;
events : list EventRow;
conflicts : list Conflict;
visible : gmap string SourceRecord;
}.

(** ** Visibility *)

Definition origin_of (r : SourceRecord) : string :=
match origin r with Some o => o_source_id o | None => source_id r end.

Definition is_withdrawn (f : Fact) : bool := match f with FWithdrawn _ => true | _ => false end.

Definition visible_ms (r : SourceRecord) (revision : Revision) (mode : AsOfMode) (reads_base : bool) : Z :=
let read := Z.max (published_ms r) (observed_ms r) in
match mode with
| Captured => Z.max read (parsed_ms r)
| Knowable =>
    if bool_decide (revision = Immutable) && reads_base && negb (is_withdrawn (fact r))
    then published_ms r else read
end.

Definition revision_of (policies : gmap string SourcePolicy) (source_id : string) : Revision :=
match policies !! source_id with Some p => revision p | None => InPlace end.

(** [(r.observed_ms, r.parsed_ms) < (e.observed_ms, e.parsed_ms)]. *)
Definition read_cmp (r e : SourceRecord) : comparison :=
pair_cmp Z.compare Z.compare (observed_ms r, parsed_ms r) (observed_ms e, parsed_ms e).

Definition dedup_one (by_id : gmap string SourceRecord) (r : SourceRecord) : gmap string SourceRecord :=
match by_id !! record_id r with
| Some e => match read_cmp r e with Lt => <[record_id r := r]> by_id | _ => by_id end
| None => <[record_id r := r]> by_id
end.
Definition dedup (records : list SourceRecord) : gmap string SourceRecord := fold_left dedup_one records ∅.

Definition item_key (r : SourceRecord) : string * string := (source_id r, native_id r).
Definition item_cmp : string * string → string * string → comparison := pair_cmp str_cmp str_cmp.

(** [min_by_key(|r| (r.observed_ms, r.parsed_ms, r.record_id))]. *)
Definition base_cmp (a b : SourceRecord) : comparison :=
cmp_then (read_cmp a b) (str_cmp (record_id a) (record_id b)).

Definition reads_base (base r : SourceRecord) : bool :=
String.eqb (record_id r) (record_id base)
|| existsb (λ s, bool_decide (s ∈ snapshots base)) (snapshots r).

(** The versions of one item with their visible instants. *)
Definition item_visibility (policies : gmap string SourcePolicy) (mode : AsOfMode) (source_id : string)
  (versions : list SourceRecord) : list (SourceRecord * Z) :=
match min_by base_cmp versions with
| Some base =>
    map (λ r, (r, visible_ms r (revision_of policies source_id) mode (reads_base base r))) versions
| None => []
end.

(** The items, the versions of each in the order of their ids. *)
Definition items_of (records : list SourceRecord) : gmap (string * string) (list SourceRecord) :=
group item_key (btree_values str_cmp (dedup records)).

Definition visibility (records : list SourceRecord) (policies : gmap string SourcePolicy) (mode : AsOfMode)
  : list ((string * string) * list (SourceRecord * Z)) :=
map (λ p, (fst p, item_visibility policies mode (fst (fst p)) (snd p)))
  (btree_iter item_cmp (items_of records)).

Definition parser_n (r : SourceRecord) : Z :=
match split_parser_version (parser_version r) with Some (_, n) => n | None => 0 end.

(** The order of [version_key]. *)
Definition version_cmp (a b : SourceRecord) : comparison :=
cmp_then (observed_ms a ?= observed_ms b)
  (cmp_then (parser_n a ?= parser_n b)
     (cmp_then (parsed_ms a ?= parsed_ms b) (str_cmp (record_id a) (record_id b)))).

Definition fetch_one (t : Z) (out : gmap string Z) (c : Coverage) : gmap string Z :=
if complete c && (fetched_ms c <=? t)
then <[cov_source_id c := match out !! cov_source_id c with Some e => Z.max e (fetched_ms c) | None => fetched_ms c end]> out
else out.
Definition newest_fetches (coverage : list Coverage) (t : Z) : gmap string Z :=
fold_left (fetch_one t) coverage ∅.

(** ** The view *)

(** One item's visible versions, oldest first; [None] when there are none. *)
Definition seen_of (t : Z) (versions : list (SourceRecord * Z)) : option (list (SourceRecord * Z)) :=
match sort_by (cmp_on fst version_cmp) (List.filter (λ p, snd p <=? t) versions) with
| [] => None
| seen => Some seen
end.

Definition seen_items (input : AsOfInput) (t : Z) (mode : AsOfMode) : list (list (SourceRecord * Z)) :=
omap (λ p, seen_of t (snd p)) (visibility (records input) (policies input) mode).

(** [seen.windows(2)]. *)
Definition revisions (seen : list (SourceRecord * Z)) : list Supersession :=
zip_with (λ a b, (record_id (fst a), (record_id (fst b), ByRevision))) seen (tail seen).

Definition visible_of (items : list (list (SourceRecord * Z))) : gmap string SourceRecord :=
fold_left (λ m r, <[record_id r := r]> m) (map fst (List.concat items)) ∅.

Definition currents_of (items : list (list (SourceRecord * Z))) : list string :=
omap (λ seen, record_id ∘ fst <$> last seen) items.

(** What one visible record with [supersedes] does: the issue it raises, the
  record it removes. *)
Definition correction_of (visible : gmap string SourceRecord) (currents : list string) (r : SourceRecord)
  : list Issue * list (string * Supersession) :=
match supersedes r with
| None => ([], [])
| Some target =>
    let is_current := bool_decide (record_id r ∈ currents) in
    match visible !! target with
    | None =>
        (if is_current then
           [issue_new (record_id r) SupersedesNotVisible
              "the record it corrects is not visible at t; nothing removed"]
         else [], [])
    | Some x =>
        if negb (String.eqb (event_key x) (event_key r)) then
          (if is_current then
             [issue_new (record_id r) SupersedesOtherEvent
                "the record it corrects belongs to another event; ignored"]
           else [], [])
        else ([], [(record_id x, (record_id x, (record_id r, ByCorrection)))])
    end
end.

(** The loop over every visible record, current or not. *)
Definition corrections_of (items : list (list (SourceRecord * Z))) : list (list Issue * list (string * Supersession)) :=
let visible := visible_of items in
map (correction_of visible (currents_of items)) (btree_values str_cmp visible).

Definition removed_of (items : list (list (SourceRecord * Z))) : list string :=
map fst (List.concat (map snd (corrections_of items))).

Definition state_at (t : Z) (r : SourceRecord) : RecordState :=
match fact r with
| FWithdrawn _ => StWithdrawn
| FUnparsed _ => StUnparsed
| _ =>
    if t <? valid_from_ms r then Pending
    else match valid_until_ms r with
         | Some u => if u <=? t then Expired else InForce
         | None => InForce
         end
end.

(** [seen.iter().rev().skip(1).find(|r| r.fact.is_typed())]. *)
Definition last_typed (seen : list (SourceRecord * Z)) : option SourceRecord :=
List.find (λ r, fact_is_typed (fact r)) (map fst (tail (reverse seen))).

Definition max_option (a b : option Z) : option Z :=
match a, b with
| Some a, Some b => Some (Z.max a b)
| Some a, None => Some a
| None, b => b
end.

Definition newest_read (t : Z) (fetches : gmap string Z) (r : SourceRecord) : option Z :=
max_option (if observed_ms r <=? t then Some (observed_ms r) else None) (fetches !! source_id r).

(** One item's row of [current], unless a correction removed its record. *)
Definition current_of (t : Z) (removed : list string) (seen : list (SourceRecord * Z)) : option Current :=
match last seen with
| None => None
| Some (r, v) =>
    if bool_decide (record_id r ∈ removed) then None
    else
      let st := state_at t r in
      Some (mkCurrent r v st (if state_is_typed st then None else last_typed seen))
end.

(** ** Events *)

Definition confidence_of (primary origins typed : nat) : Confidence :=
if (0 <? primary)%nat then Confirmed
else if (2 <=? origins)%nat then Corroborated
else if (origins =? 1)%nat then Single
else if (0 <? typed)%nat then CTriggerOnly
else CNone.

Definition typed_of (rows : list Current) : list SourceRecord :=
map record (List.filter (λ c, state_is_typed (state c)) rows).
Definition counts (flagged : list string) (r : SourceRecord) : bool :=
negb (bool_decide (trust r = TriggerOnly)) && negb (bool_decide (record_id r ∈ flagged)).
Definition counted_of (flagged : list string) (rows : list Current) : list SourceRecord :=
List.filter (counts flagged) (typed_of rows).

Definition event_row (flagged : list string) (key : string) (rows : list Current) : EventRow :=
let typed := typed_of rows in
let counted := counted_of flagged rows in
let primary := length (List.filter (λ r, bool_decide (trust r = Primary)) counted) in
let origins := btree_set str_cmp (map origin_of counted) in
mkEvent key (confidence_of primary (length origins) (length typed)) primary origins
  (sort_by str_cmp (map (record_id ∘ record) rows)).

Definition events_of (current : list Current) (flagged : list string) : list EventRow :=
map (λ p, event_row flagged (fst p) (snd p))
  (btree_iter str_cmp (group (event_key ∘ record) current)).

(** ** Conflicts *)

Fixpoint trim_leading_zeros (s : string) : string :=
match s with
| String a s' => if Ascii.eqb a "0" then trim_leading_zeros s' else s
| EmptyString => EmptyString
end.

Definition decimal_key (a : string) : string :=
let '(neg, body) := match strip_prefix "-" a with Some b => (true, b) | None => (false, a) end in
let '(int, frac) := default (body, EmptyString) (split_once "." body) in
let int := trim_leading_zeros int in
let frac := trim_zeros frac in
let int := if str_is_empty int then "0" else int in
let s := if str_is_empty frac then int else int +:+ "." +:+ frac in
if neg && negb (String.eqb s "0") then "-" +:+ s else s.

Definition sorted_join (v : list string) : string := join "," (sort_by str_cmp v).

Definition compared (f : Fact) : list (string * option string) :=
match f with
| FSecFiling f => [("cik", Some (cik f)); ("form", Some (form f)); ("items", Some (sorted_join (items f)))]
| FTedNotice n =>
    [("value", (λ v, decimal_key (amount v) +:+ " " +:+ na_currency v) <$> value n);
     ("deadline_ms", show_Z <$> deadline_ms n);
     ("cpv", match cpv n with [] => None | v => Some (sorted_join v) end)]
| FUnparsed _ | FWithdrawn _ => []
end.

(** [(kind, stage, lot set)]. *)
Notation Stage := (string * (string * list string))%type.
Definition stage (f : Fact) : Stage :=
match f with
| FTedNotice n => (fact_kind f, (notice_type n, sort_by str_cmp (lot_ids n)))
| _ => (fact_kind f, (EmptyString, []))
end.

Definition conflict_key (r : SourceRecord) : string * Stage := (event_key r, stage (fact r)).
Definition conflict_key_cmp : string * Stage → string * Stage → comparison :=
pair_cmp str_cmp (pair_cmp str_cmp (pair_cmp str_cmp (lex_cmp str_cmp))).

(** The values of field [i] among the rows that state it. *)
Definition stated (i : nat) (rows : list SourceRecord) : list (string * string) :=
omap (λ r, f ← compared (fact r) !! i; v ← snd f; Some (record_id r, v)) rows.

Definition field_conflict (event_key : string) (lots : list string) (rows : list SourceRecord)
  (i : nat) (field : string) : option Conflict :=
let said := stated i rows in
if (1 <? length (btree_set str_cmp (map snd said)))%nat
then Some (event_key, (lots, (field, sort_by str_cmp (map fst said))))
else None.

Definition group_conflicts (p : (string * Stage) * list SourceRecord) : list Conflict :=
let '((event_key, (_, (_, lots))), rows) := p in
match rows with
| r :: _ :: _ =>
    omap id (imap (λ i f, field_conflict event_key lots rows i (fst f)) (compared (fact r)))
| _ => []
end.

Definition conflicts_of (current : list Current) : list Conflict :=
sort_by conflict_cmp
  (List.concat (map group_conflicts
     (btree_iter conflict_key_cmp (group conflict_key (typed_of current))))).

(** ** [as_of] *)

Definition as_of (input : AsOfInput) (t : Z) (mode : AsOfMode) : AsOfView :=
let items := seen_items input t mode in
let visible := visible_of items in
let corrections := corrections_of items in
let removed := removed_of items in
let fetches := newest_fetches (coverage input) t in
let current := omap (current_of t removed) items in
let issues :=
  btree_set issue_cmp
    (List.concat (map fst corrections)
     ++ List.concat (map (λ c, class_issues (record c) (policies input !! source_id (record c))
                                 (newest_read t fetches (record c)) t) current)) in
mkView t mode current
  (btree_set supersession_cmp
     (List.concat (map revisions items) ++ map snd (List.concat (map snd corrections))))
  issues
  (events_of current (map fst issues))
  (conflicts_of current) visible.
End asof.
