(* ===== verification/SourceAsofProps.v ===== *)
(** * What an as-of view may depend on, and what it says *)

From Stdlib Require Import Ascii String.
From S2P Require Import Prelude.
From S2P Require Import Ordered.
From S2P Require Import Text.
From S2P Require Import Bytes.
From S2P Require Import Substr.
From S2P Require Import SourceRecord.
From S2P Require Import SourceAsof.

#[local] Open Scope string_scope.
#[local] Open Scope list_scope.
#[local] Open Scope Z_scope.

#[export] Instance read_cmp_pre : PreCmp read_cmp.
Proof. apply (cmp_on_pre (λ r, (observed_ms r, parsed_ms r)) (pair_cmp Z.compare Z.compare)). Qed.

#[export] Instance base_cmp_pre : PreCmp base_cmp.
Proof. apply (cmp_then_pre read_cmp (cmp_on record_id str_cmp)); apply _. Qed.

#[export] Instance version_cmp_pre : PreCmp version_cmp.
Proof.
  apply (cmp_then_pre (cmp_on observed_ms Z.compare)); [apply _|].
  apply (cmp_then_pre (cmp_on parser_n Z.compare)); [apply _|].
  apply (cmp_then_pre (cmp_on parsed_ms Z.compare) (cmp_on record_id str_cmp)); apply _.
Qed.

(** Versions that compare equal have one id. *)
Lemma version_cmp_id a b : version_cmp a b = Eq → record_id a = record_id b.
Proof.
  unfold version_cmp, cmp_then. repeat case_match; try done. apply cmp_eq.
Qed.

(** ** Samples *)
Section samples.
(** A filing of source [sec] and item [native] about the event [e:k:1]. *)
Definition sample (id native : string) (published observed parsed : Z) (trust : Trust) (snapshot : string)
  (supersedes : option string) : SourceRecord :=
mkRecord RECORD_SCHEMA id "sec" CompanyPrimary trust native "e:k:1" [] "https://x" published observed parsed 0 None
  "US" "en" None "" [snapshot] "sec-submissions/1" "terms" "" HttpGet ParseOk []
  (FSecFiling (mkFiling "0000000001" "8-K" [] "")) supersedes None.

Definition sample_policies : gmap string SourcePolicy := {["sec" := mkPolicy Immutable None]}.

(** Read by 20: a filing, its correction; read later: an edit of the filing. *)
Definition first_filing : SourceRecord := sample "r1" "a" 1 2 3 Corroborating "s1" None.
Definition correction : SourceRecord := sample "r2" "b" 4 5 6 Primary "s2" (Some "r1").
Definition later_edit : SourceRecord := sample "r3" "a" 1 30 31 Corroborating "s3" None.

Definition sample_input (records : list SourceRecord) : AsOfInput := mkInput records [] [] sample_policies.
End samples.

(** ** Deduplication *)

Section dedup.
Lemma dedup_from_lookup l m id r :
NoDup (map record_id l) → (∀ x, x ∈ l → m !! record_id x = None) →
fold_left dedup_one l m !! id = Some r ↔ (r ∈ l ∧ record_id r = id) ∨ m !! id = Some r.
Proof.
revert m. induction l as [|x l IH]; intros m Hnd Hm; cbn [fold_left map] in *.
{ rewrite elem_of_nil. tauto. }
apply NoDup_cons in Hnd as [Hx Hnd]. assert (m !! record_id x = None) as Hmx by (apply Hm; by left).
unfold dedup_one at 2. rewrite Hmx. rewrite IH; [|done|].
- rewrite elem_of_cons. destruct (decide (record_id x = id)) as [<-|N].
  + rewrite lookup_insert_eq, Hmx. split; [|naive_solver].
    intros [[Hr E]|[= ->]]; [|tauto]. destruct Hx. rewrite <-E. by apply list_elem_of_fmap_2.
  + rewrite lookup_insert_ne by done. naive_solver.
- intros y Hy. rewrite lookup_insert_ne; [apply Hm; by right|]. intros E. apply Hx.
  rewrite E. by apply list_elem_of_fmap_2.
Qed.

Lemma dedup_lookup l id r :
NoDup (map record_id l) → dedup l !! id = Some r ↔ r ∈ l ∧ record_id r = id.
Proof.
intros H. unfold dedup. rewrite dedup_from_lookup; [|done|intros; apply lookup_empty].
rewrite lookup_empty. naive_solver.
Qed.

(** In every case an entry is a record of the list, under its id. *)
Lemma dedup_sound l id r : dedup l !! id = Some r → r ∈ l ∧ record_id r = id.
Proof.
unfold dedup. enough (∀ m, (∀ i x, m !! i = Some x → x ∈ l ∧ record_id x = i) →
  ∀ k, (∀ x, x ∈ k → x ∈ l) → ∀ i x, fold_left dedup_one k m !! i = Some x → x ∈ l ∧ record_id x = i) as G.
{ apply (G ∅); [|done]. intros i x. by rewrite lookup_empty. }
intros m Hm k. revert m Hm. induction k as [|y k IH]; intros m Hm Hk i x; cbn [fold_left]; [apply Hm|].
apply IH; [|intros; apply Hk; by right]. intros j z. unfold dedup_one.
assert (∀ j z, <[record_id y := y]> m !! j = Some z → z ∈ l ∧ record_id z = j) as Hins.
{ intros j' z'. destruct (decide (record_id y = j')) as [<-|N].
  - rewrite lookup_insert_eq. intros [= <-]. split; [|done]. apply Hk. by left.
  - rewrite lookup_insert_ne by done. apply Hm. }
destruct (m !! record_id y); [destruct (read_cmp y s)|]; try apply Hins; apply Hm.
Qed.
End dedup.

(** The seen versions of one item. *)
Definition seen_at (i : AsOfInput) (t : Z) (m : AsOfMode) (k : string * string) : option (list (SourceRecord * Z)) :=
  items_of (records i) !! k ≫= λ vs, seen_of t (item_visibility (policies i) m (fst k) vs).

(** Views that see the same of every item see the same items. *)
Lemma seen_items_ext i i' t m : (∀ k, seen_at i t m k = seen_at i' t m k) → seen_items i t m = seen_items i' t m.
Proof.
  intros E. unfold seen_items, visibility.
  assert (∀ (f : (string * string) * list SourceRecord → list (SourceRecord * Z)) l,
    omap (λ p, seen_of t (snd p)) (map (λ p, (fst p, f p)) l) = omap (λ p, seen_of t (f p)) l) as G.
  { intros f l. induction l as [|p l IH]; cbn; [done|]. by rewrite IH. }
  rewrite !G. apply (omap_btree_iter_eq item_cmp
    (λ k vs, seen_of t (item_visibility (policies i) m (fst k) vs))
    (λ k vs, seen_of t (item_visibility (policies i') m (fst k) vs))).
  exact E.
Qed.

(** ** Captured views *)

(** When a captured view first shows a record. *)
Definition captured_ms (r : SourceRecord) : Z := Z.max (Z.max (published_ms r) (observed_ms r)) (parsed_ms r).

Section captured.
Context (t : Z).

Definition captured_by (r : SourceRecord) : bool := captured_ms r <=? t.

Lemma dedup_captured_ext l k :
NoDup (map record_id l) → NoDup (map record_id k) →
(∀ r, captured_ms r ≤ t → r ∈ l ↔ r ∈ k) →
filter (λ kv, captured_by kv.2 = true) (dedup l) = filter (λ kv, captured_by kv.2 = true) (dedup k).
Proof.
intros Hl Hk E. apply map_eq. intros id. apply option_eq. intros r.
rewrite !map_lookup_filter_Some, !dedup_lookup by done. cbn. unfold captured_by.
rewrite Z.leb_le. naive_solver.
Qed.

Lemma filter_map_comm {A B} (p : B → bool) (f : A → B) l :
List.filter p (map f l) = map f (List.filter (λ a, p (f a)) l).
Proof. induction l as [|a l IH]; cbn; [done|]. destruct (p (f a)); cbn; by rewrite IH. Qed.

Lemma filter_comm {A} (p q : A → bool) l : List.filter p (List.filter q l) = List.filter q (List.filter p l).
Proof.
induction l as [|a l IH]; cbn; [done|]. destruct (p a) eqn:E, (q a) eqn:E'; cbn; by rewrite ?E, ?E', IH.
Qed.

Lemma captured_visibility pol s versions :
item_visibility pol Captured s versions = map (λ r, (r, captured_ms r)) versions.
Proof.
unfold item_visibility. destruct (min_by base_cmp versions) eqn:E; [done|].
by apply min_by_none in E as ->.
Qed.

(** One item's part of a captured view, from the records captured by [t]. *)
Definition captured_seen (m : gmap string SourceRecord) (k : string * string) : option (list (SourceRecord * Z)) :=
match sort_by (cmp_on fst version_cmp)
        (map (λ r, (r, captured_ms r)) (List.filter (has_key item_key k) (btree_values str_cmp m))) with
| [] => None
| seen => Some seen
end.

Lemma captured_item pol l k :
(items_of l !! k ≫= λ vs, seen_of t (item_visibility pol Captured (fst k) vs))
= captured_seen (filter (λ kv, captured_by kv.2 = true) (dedup l)) k.
Proof.
unfold captured_seen. rewrite btree_values_filter by apply _.
rewrite (filter_comm (has_key item_key k)). unfold items_of. rewrite group_lookup.
set (vs := List.filter (has_key item_key k) (btree_values str_cmp (dedup l))).
assert (seen_of t (item_visibility pol Captured (fst k) vs) =
  match sort_by (cmp_on fst version_cmp) (map (λ r, (r, captured_ms r)) (List.filter captured_by vs)) with
  | [] => None | seen => Some seen end) as E.
{ unfold seen_of. rewrite captured_visibility, filter_map_comm. done. }
destruct vs as [|v vs]; [done|]. exact E.
Qed.

Lemma captured_items_ext i i' :
NoDup (map record_id (records i)) → NoDup (map record_id (records i')) →
(∀ r, captured_ms r ≤ t → r ∈ records i ↔ r ∈ records i') →
seen_items i t Captured = seen_items i' t Captured.
Proof.
intros H H' E. apply seen_items_ext. intros k. unfold seen_at. rewrite !captured_item.
by rewrite (dedup_captured_ext _ _ H H' E).
Qed.
End captured.

(** ** Coverage *)

Definition counts_at (t : Z) (s : string) (c : Coverage) : Prop :=
  complete c = true ∧ fetched_ms c ≤ t ∧ cov_source_id c = s.

Lemma newest_fetches_spec cov t s :
  match newest_fetches cov t !! s with
  | Some m => (∃ c, c ∈ cov ∧ counts_at t s c ∧ fetched_ms c = m) ∧ ∀ c, c ∈ cov → counts_at t s c → fetched_ms c ≤ m
  | None => ∀ c, c ∈ cov → ¬ counts_at t s c
  end.
Proof.
  unfold newest_fetches. induction cov as [|c cov IH] using rev_ind.
  { cbn [fold_left]. rewrite lookup_empty. intros c ?%elem_of_nil. done. }
  assert (c ∈ cov ++ [c]) as Hc0 by (apply elem_of_app; right; by left).
  assert (∀ x, x ∈ cov → x ∈ cov ++ [c]) as Hl by (intros; apply elem_of_app; by left).
  rewrite fold_left_app. cbn [fold_left]. set (m := fold_left _ cov _) in *. unfold fetch_one.
  destruct (complete c && (fetched_ms c <=? t)) eqn:E.
  - apply andb_prop in E as [Ec Et%Z.leb_le].
    destruct (decide (cov_source_id c = s)) as [<-|N].
    + rewrite lookup_insert_eq. assert (counts_at t (cov_source_id c) c) as Hc by done.
      destruct (m !! cov_source_id c) as [e|].
      * destruct IH as ((d & Hd & Hcd & <-) & Hle). split.
        -- destruct (Z.max_spec (fetched_ms d) (fetched_ms c)) as [[_ ->]|[_ ->]]; [by exists c|].
           exists d. split_and!; [by apply Hl|done..].
        -- intros x [Hx| ->%list_elem_of_singleton]%elem_of_app Hcx; [specialize (Hle x Hx Hcx)|]; lia.
      * split; [by exists c|].
        intros x [Hx| ->%list_elem_of_singleton]%elem_of_app Hcx; [by destruct (IH x Hx)|lia].
    + rewrite lookup_insert_ne by done. destruct (m !! s) as [e|].
      * destruct IH as ((d & Hd & Hcd & <-) & Hle). split.
        { exists d. split_and!; [by apply Hl|done..]. }
        intros x [Hx| ->%list_elem_of_singleton]%elem_of_app Hcx; [by apply Hle|]. by destruct Hcx as (_ & _ & ?).
      * intros x [Hx| ->%list_elem_of_singleton]%elem_of_app; [by apply IH|]. by intros (_ & _ & ?).
  - assert (∀ s, ¬ counts_at t s c) as Hc.
    { intros s' (H1 & H2 & _). rewrite H1 in E. apply Z.leb_le in H2. by rewrite H2 in E. }
    destruct (m !! s) as [e|].
    + destruct IH as ((d & Hd & Hcd & <-) & Hle). split.
      { exists d. split_and!; [by apply Hl|done..]. }
      intros x [Hx| ->%list_elem_of_singleton]%elem_of_app Hcx; [by apply Hle|by destruct (Hc s)].
    + intros x [Hx| ->%list_elem_of_singleton]%elem_of_app; [by apply IH|apply Hc].
Qed.

Lemma newest_fetches_ext cov cov' t :
  (∀ c, complete c = true → fetched_ms c ≤ t → c ∈ cov ↔ c ∈ cov') →
  newest_fetches cov t = newest_fetches cov' t.
Proof.
  intros E. apply map_eq. intros s. pose proof (newest_fetches_spec cov t s) as H.
  pose proof (newest_fetches_spec cov' t s) as H'.
  destruct (newest_fetches cov t !! s) as [m|], (newest_fetches cov' t !! s) as [m'|]; [| | |done].
  - destruct H as ((c & Hc & Kc & <-) & Hle), H' as ((d & Hd & Kd & <-) & Hle').
    f_equal. apply Z.le_antisymm; [apply Hle'|apply Hle]; try done; apply E; try apply Kc; try apply Kd; done.
  - destruct H as ((c & Hc & Kc & _) & _). destruct (H' c); [|done]. by apply E; [apply Kc|apply Kc|].
  - destruct H' as ((c & Hc & Kc & _) & _). destruct (H c); [|done]. by apply E; [apply Kc|apply Kc|].
Qed.

(** C32. No hindsight: a captured view at [t] depends only on the records whose
    publication, read and parse are all at or before [t], on the complete
    fetches at or before [t] and on the registry rows; whatever was read,
    corrected, withdrawn, fetched or purged after [t], and the order in which
    the store hands anything in, leave it as it was, to the last issue and
    conflict (the store keeps one record per id). *)
Theorem captured_view_has_no_hindsight fmt_time i i' t :
  NoDup (map record_id (records i)) → NoDup (map record_id (records i')) →
  (∀ r, captured_ms r ≤ t → r ∈ records i ↔ r ∈ records i') →
  (∀ c, complete c = true → fetched_ms c ≤ t → c ∈ coverage i ↔ c ∈ coverage i') →
  policies i = policies i' →
  as_of fmt_time i t Captured = as_of fmt_time i' t Captured.
Proof.
  intros H H' Er Ec Ep. unfold as_of.
  rewrite (captured_items_ext t i i' H H' Er), (newest_fetches_ext _ _ t Ec), Ep. done.
Qed.

Lemma captured_view_has_no_hindsight_witness :
  as_of show_Z (sample_input [later_edit; correction; first_filing]) 20 Captured
  = as_of show_Z (sample_input [first_filing; correction]) 20 Captured
  ∧ map (record_id ∘ record) (current (as_of show_Z (sample_input [first_filing; correction]) 20 Captured)) = ["r2"].
Proof.
  split; [|vm_compute; reflexivity].
  apply captured_view_has_no_hindsight; cbn [records coverage policies sample_input].
  - by apply (bool_decide_unpack _); vm_compute.
  - by apply (bool_decide_unpack _); vm_compute.
  - intros r Hr. rewrite !elem_of_cons. split; [intros [->|H]|]; [|tauto..].
    exfalso. revert Hr. vm_compute. by intros [].
  - done.
  - done.
Defined.

(** ** What a view shows *)

(** [r] is the kept record of its id, first visible at [v]. *)
Definition visible_from (i : AsOfInput) (m : AsOfMode) (r : SourceRecord) (v : Z) : Prop :=
  dedup (records i) !! record_id r = Some r ∧
  ∃ base, min_by base_cmp (entries (items_of (records i)) (item_key r)) = Some base ∧
    v = visible_ms r (revision_of (policies i) (source_id r)) m (reads_base base r).

Definition shown (i : AsOfInput) (t : Z) (m : AsOfMode) (r : SourceRecord) : Prop :=
  ∃ v, visible_from i m r v ∧ v ≤ t.

Section view.
Context (i : AsOfInput) (t : Z) (m : AsOfMode).

Lemma in_filter {A} (p : A → bool) l x : x ∈ List.filter p l ↔ p x = true ∧ x ∈ l.
Proof. rewrite !list_elem_of_In, List.filter_In. tauto. Qed.

Lemma items_of_in k vs r : items_of (records i) !! k = Some vs →
r ∈ vs ↔ item_key r = k ∧ dedup (records i) !! record_id r = Some r.
Proof.
intros H. apply group_some in H as [-> _]. rewrite in_filter, btree_values_in by apply _.
unfold has_key. rewrite bool_decide_eq_true. split; [|intros [? ?]; split; [done|by eexists]].
intros [E (id & Hr)]. split; [done|]. pose proof (dedup_sound _ _ _ Hr) as [_ Hid]. congruence.
Qed.

Lemma item_present r : dedup (records i) !! record_id r = Some r → is_Some (items_of (records i) !! item_key r).
Proof.
intros H. unfold items_of. rewrite group_lookup.
assert (r ∈ List.filter (has_key item_key (item_key r)) (btree_values str_cmp (dedup (records i)))) as Hr.
{ rewrite in_filter, btree_values_in by apply _. unfold has_key. rewrite bool_decide_eq_true. split; [done|by eexists]. }
destruct (List.filter _ _); [by apply elem_of_nil in Hr|by eexists].
Qed.

Lemma seen_items_in seen : seen ∈ seen_items i t m ↔ ∃ k, seen_at i t m k = Some seen.
Proof.
unfold seen_items, visibility. rewrite list_elem_of_omap. split.
- intros (p & Hp & Hs). apply list_elem_of_fmap in Hp as ([k vs] & -> & Hk).
  apply btree_iter_in in Hk. exists k. unfold seen_at. by rewrite Hk.
- intros (k & Hk). unfold seen_at in Hk. destruct (items_of (records i) !! k) as [vs|] eqn:E; [|done].
  exists (k, item_visibility (policies i) m (fst k) vs). split; [|done].
  apply list_elem_of_fmap. exists (k, vs). split; [done|]. by apply btree_iter_in.
Qed.

Lemma seen_at_in k seen r v : seen_at i t m k = Some seen →
(r, v) ∈ seen ↔ item_key r = k ∧ visible_from i m r v ∧ v ≤ t.
Proof.
unfold seen_at. destruct (items_of (records i) !! k) as [vs|] eqn:E; [|done]. cbn. unfold seen_of.
set (l := sort_by _ _). intros Hs. assert (seen = l) as ->. { by destruct l; [|injection Hs as <-]. } clear Hs.
unfold l. rewrite sort_by_perm, in_filter. cbn [snd]. rewrite Z.leb_le.
unfold item_visibility, visible_from, entries.
destruct (min_by base_cmp vs) as [base|] eqn:Eb.
- rewrite list_elem_of_fmap. split.
  + intros [Hv (r' & [= <- ->] & Hr)]. apply (items_of_in _ _ _ E) in Hr as [<- Hd].
    split_and!; [done|done| |done]. exists base. rewrite E. cbn. by split.
  + intros (<- & [Hd (b & Hb & ->)] & Hv). rewrite E in Hb. cbn in Hb. rewrite Eb in Hb. injection Hb as <-.
    split; [done|]. exists r. split; [done|]. by apply (items_of_in _ _ _ E).
- apply min_by_none in Eb as ->. apply group_some in E as [_ []]. done.
Qed.

Lemma seen_at_of r v : visible_from i m r v → v ≤ t → ∃ seen, seen_at i t m (item_key r) = Some seen ∧ (r, v) ∈ seen.
Proof.
intros Hf Hv. destruct (seen_at i t m (item_key r)) as [seen|] eqn:E.
{ exists seen. split; [done|]. by apply (seen_at_in _ _ _ _ E). }
exfalso. destruct (item_present r (proj1 Hf)) as [vs Hvs]. unfold seen_at in E. rewrite Hvs in E. cbn in E.
unfold seen_of in E. destruct (sort_by _ _) eqn:Es; [|done].
assert ((r, v) ∈ @nil (SourceRecord * Z)) as Hin; [|by apply elem_of_nil in Hin].
rewrite <-Es, sort_by_perm, in_filter. cbn [snd]. rewrite Z.leb_le. split; [done|].
destruct Hf as [Hd (b & Hb & ->)]. unfold entries in Hb. rewrite Hvs in Hb. cbn in Hb.
unfold item_visibility. rewrite Hb. apply list_elem_of_fmap. exists r. split; [done|]. by apply (items_of_in _ _ _ Hvs).
Qed.

Lemma seen_at_sorted k seen : seen_at i t m k = Some seen → sorted_by (cmp_on fst version_cmp) seen ∧ seen ≠ [].
Proof.
unfold seen_at. destruct (items_of _ !! k) as [vs|]; [|done]. cbn. unfold seen_of.
pose proof (sort_by_sorted (cmp_on fst version_cmp)
  (List.filter (λ p : SourceRecord * Z, snd p <=? t) (item_visibility (policies i) m (fst k) vs))) as H.
destruct (sort_by _ _); [done|]. intros [= <-]. by split.
Qed.

Lemma visible_unique r r' : 
dedup (records i) !! record_id r = Some r → dedup (records i) !! record_id r' = Some r' →
record_id r = record_id r' → r = r'.
Proof. intros H H' E. rewrite E in H. congruence. Qed.

Lemma visible_from_unique r v v' : visible_from i m r v → visible_from i m r v' → v = v'.
Proof. intros [_ (b & Hb & ->)] [_ (b' & Hb' & ->)]. rewrite Hb in Hb'. by injection Hb' as <-. Qed.

Lemma fold_insert_lookup (l : list SourceRecord) (acc : gmap string SourceRecord) id r :
(∀ x y, x ∈ l → y ∈ l → record_id x = record_id y → x = y) →
fold_left (λ m r, <[record_id r := r]> m) l acc !! id = Some r ↔
(r ∈ l ∧ record_id r = id) ∨ (acc !! id = Some r ∧ ∀ x, x ∈ l → record_id x ≠ id).
Proof.
revert acc. induction l as [|x l IH] using rev_ind; intros acc Hu.
{ cbn. setoid_rewrite elem_of_nil. naive_solver. }
assert (x ∈ l ++ [x]) as Hx by (apply elem_of_app; right; by left).
rewrite fold_left_app. cbn [fold_left]. destruct (decide (record_id x = id)) as [<-|N].
- rewrite lookup_insert_eq. split.
  + intros [= <-]. by left.
  + intros [[Hr E]|[_ H]]; [|by destruct (H x)]. f_equal. by apply Hu.
- rewrite lookup_insert_ne by done. rewrite IH.
  + setoid_rewrite elem_of_app. setoid_rewrite list_elem_of_singleton. naive_solver.
  + intros a b Ha Hb. apply Hu; apply elem_of_app; by left.
Qed.

Lemma visible_of_lookup id r :
visible_of (seen_items i t m) !! id = Some r ↔ shown i t m r ∧ record_id r = id.
Proof.
assert (∀ r, r ∈ map fst (List.concat (seen_items i t m)) ↔ shown i t m r) as Hin.
{ intros x. rewrite list_elem_of_fmap. split.
  - intros ([y v] & -> & Hc). apply list_elem_of_In, in_concat in Hc as (seen & Hs & Hy).
    apply list_elem_of_In, seen_items_in in Hs as (k & Hk). apply list_elem_of_In in Hy.
    apply (seen_at_in _ _ _ _ Hk) in Hy as (_ & Hf & Hv). by exists v.
  - intros (v & Hf & Hv). destruct (seen_at_of _ _ Hf Hv) as (seen & Hk & Hy). exists (x, v). split; [done|].
    apply list_elem_of_In, in_concat. exists seen. split; apply list_elem_of_In; [|done].
    apply seen_items_in. by eexists. }
unfold visible_of. rewrite fold_insert_lookup.
- rewrite Hin, lookup_empty. naive_solver.
- intros x y Hx Hy. apply Hin in Hx as (? & [Hx _] & _), Hy as (? & [Hy _] & _). by apply visible_unique.
Qed.

(** The last of an item's seen versions is its newest. *)
Lemma seen_last k seen r v r' v' :
seen_at i t m k = Some seen → last seen = Some (r, v) → (r', v') ∈ seen → version_cmp r' r ≠ Gt.
Proof.
intros Hs Hl Hin. apply seen_at_sorted in Hs as [Hs _]. apply last_Some in Hl as (l & ->).
apply elem_of_app in Hin as [Hin|Hin].
2: { apply list_elem_of_singleton in Hin as [= -> ->]. by rewrite (cmp_refl version_cmp). }
unfold sorted_by in Hs. clear -Hs Hin. induction l as [|x l IH]; [by apply elem_of_nil in Hin|].
inversion_clear Hs as [|? ? Hs' Hx]. apply elem_of_cons in Hin as [<-|Hin]; [|by apply IH].
rewrite Forall_forall in Hx. specialize (Hx (r, v)). apply Hx. apply elem_of_app. right. by left.
Qed.

(** A seen version that is not the last has a successor. *)
Lemma seen_revised seen r v :
(r, v) ∈ seen → last seen = Some (r, v) ∨ ∃ new, (record_id r, (new, ByRevision)) ∈ revisions seen.
Proof.
intros Hin. apply list_elem_of_split in Hin as (l1 & l2 & ->).
destruct l2 as [|[x w] l2]; [left; apply last_snoc|]. right. exists (record_id x). unfold revisions.
induction l1 as [|y l1 IH]; cbn [app tail zip_with]; [by left|].
destruct l1 as [|z l1]; cbn [app tail zip_with] in *; right; [by left|]. exact IH.
Qed.
End view.

Section theorems.
Context (fmt_time : Z → string) (i : AsOfInput) (t : Z) (m : AsOfMode).

#[local] Notation items := (seen_items i t m).

(** [r'] corrects [x]: it names it, and they are of one event. *)
Definition corrects (r' x : SourceRecord) : Prop :=
supersedes r' = Some (record_id x) ∧ event_key x = event_key r'.

Lemma in_concat_map {A B} (f : A → list B) l y : y ∈ List.concat (map f l) ↔ ∃ x, x ∈ l ∧ y ∈ f x.
Proof.
rewrite list_elem_of_In, in_concat. split.
- intros (b & Hb & Hy). apply in_map_iff in Hb as (x & <- & Hx). exists x. by rewrite !list_elem_of_In.
- intros (x & Hx & Hy). exists (f x). split; [|by apply list_elem_of_In].
  apply in_map_iff. exists x. split; [done|by apply list_elem_of_In].
Qed.

Lemma shown_values r : r ∈ btree_values str_cmp (visible_of items) ↔ shown i t m r.
Proof.
rewrite btree_values_in. split.
- intros (k & Hk). by apply visible_of_lookup in Hk as [Hk _].
- intros Hr. exists (record_id r). by apply visible_of_lookup.
Qed.

Lemma correction_in p : p ∈ List.concat (map snd (corrections_of items)) ↔
∃ r' x, shown i t m r' ∧ shown i t m x ∧ corrects r' x
        ∧ p = (record_id x, (record_id x, (record_id r', ByCorrection))).
Proof.
unfold corrections_of. rewrite map_map, in_concat_map. setoid_rewrite shown_values. split.
- intros (r' & Hr' & Hp). unfold correction_of in Hp.
  destruct (supersedes r') as [tg|] eqn:Es; [|by apply elem_of_nil in Hp].
  destruct (visible_of items !! tg) as [x|] eqn:Ex; [|by apply elem_of_nil in Hp].
  destruct (String.eqb_spec (event_key x) (event_key r')) as [Ee|_]; [|by apply elem_of_nil in Hp].
  apply list_elem_of_singleton in Hp as ->. apply visible_of_lookup in Ex as [Hx <-].
  exists r', x. split_and!; done.
- intros (r' & x & Hr' & Hx & [Es Ee] & ->). exists r'. split; [done|]. unfold correction_of. rewrite Es.
  assert (visible_of items !! record_id x = Some x) as -> by (by apply visible_of_lookup).
  rewrite Ee, String.eqb_refl. by left.
Qed.

Lemma removed_in x : shown i t m x →
record_id x ∈ removed_of items ↔ ∃ r', shown i t m r' ∧ corrects r' x.
Proof.
intros Hx. unfold removed_of. rewrite list_elem_of_fmap. setoid_rewrite correction_in. split.
- intros (p & E & r' & x' & Hr' & Hx' & Hc & ->). cbn in E.
  assert (x = x') as -> by (destruct Hx as (? & [? _] & _), Hx' as (? & [? _] & _); by eapply visible_unique).
  by exists r'.
- intros (r' & Hr' & Hc). eexists. split; [|by exists r', x]. done.
Qed.

Lemma current_in c : c ∈ current (as_of fmt_time i t m) ↔
∃ k seen r v, seen_at i t m k = Some seen ∧ last seen = Some (r, v) ∧ record_id r ∉ removed_of items
  ∧ c = mkCurrent r v (state_at t r) (if state_is_typed (state_at t r) then None else last_typed seen).
Proof.
unfold as_of. cbn [current]. rewrite list_elem_of_omap. setoid_rewrite seen_items_in. split.
- intros (seen & (k & Hk) & Hc). unfold current_of in Hc. destruct (last seen) as [[r v]|] eqn:El; [|done].
  case_bool_decide as Hr; [done|]. injection Hc as <-. exists k, seen, r, v. done.
- intros (k & seen & r & v & Hk & El & Hr & ->). exists seen. split; [by exists k|].
  unfold current_of. rewrite El. by rewrite bool_decide_false.
Qed.

Lemma superseded_in s : s ∈ superseded (as_of fmt_time i t m) ↔
(∃ k seen, seen_at i t m k = Some seen ∧ s ∈ revisions seen) ∨
∃ p, p ∈ List.concat (map snd (corrections_of items)) ∧ s = snd p.
Proof.
unfold as_of. cbn [superseded]. rewrite btree_set_in, elem_of_app, in_concat_map, list_elem_of_fmap.
setoid_rewrite seen_items_in. split; (intros [H|H]; [left|right]).
- destruct H as (seen & (k & Hk) & Hs). by exists k, seen.
- destruct H as (p & -> & Hp). by exists p.
- destruct H as (k & seen & Hk & Hs). exists seen. split; [by exists k|done].
- destruct H as (p & Hp & ->). by exists p.
Qed.

Lemma nodup_omap {A B K} (g : A → option B) (ka : A → K) (kb : B → K) l :
(∀ a b, a ∈ l → g a = Some b → kb b = ka a) → NoDup (map ka l) → NoDup (map kb (omap g l)).
Proof.
induction l as [|a l IH]; cbn; intros Hg Hn; [done|]. apply NoDup_cons in Hn as [Ha Hn].
assert (NoDup (map kb (omap g l))) as IH' by (apply IH; [|done]; intros; apply Hg; [by right|done]).
destruct (g a) as [b|] eqn:E; [|done]. cbn. apply NoDup_cons. split; [|done].
intros (b' & E1 & (a' & Ha' & E2)%list_elem_of_omap)%list_elem_of_fmap. apply Ha.
rewrite <-(Hg a b), E1, (Hg a' b'); [by apply list_elem_of_fmap_2|by right|done|by left|done].
Qed.

Lemma omap_omap {A B C} (f : A → option B) (g : B → option C) (l : list A) : omap g (omap f l) = omap (λ a, f a ≫= g) l.
Proof. induction l as [|a l IH]; cbn; [done|]. destruct (f a); cbn; [|done]. destruct (g _); by rewrite IH. Qed.

Lemma current_keys : NoDup (map (item_key ∘ record) (current (as_of fmt_time i t m))).
Proof.
unfold as_of. cbn [current]. generalize (removed_of items). intros gone. unfold seen_items. rewrite omap_omap.
apply (nodup_omap _ fst).
- intros [k vs] c Hk Hc. unfold visibility in Hk. apply list_elem_of_fmap in Hk as ([k' vs'] & E & Hk).
  injection E as -> ->. apply btree_iter_in in Hk. cbn in Hc.
  destruct (seen_of _ _) as [seen|] eqn:Es; [|done]. cbn in Hc. unfold current_of in Hc.
  destruct (last seen) as [[r v]|] eqn:El; [|done]. case_bool_decide; [done|]. injection Hc as <-. cbn.
  assert (seen_at i t m k' = Some seen) as Hs by (unfold seen_at; by rewrite Hk).
  apply (seen_at_in _ _ _ _ _ _ v Hs). apply last_Some in El as (l & ->). apply elem_of_app. right. by left.
- unfold visibility. rewrite map_map. cbn. apply btree_iter_nodup.
Qed.
End theorems.

(** What a view says of each item, whatever the store hands in: the records
    it shows are those visible by [t]; a current row is the newest visible
    version of its item, in the state of its clocks, corrected by no visible
    record of its event, and no item has two; and every visible record is
    current or listed as superseded, by a newer version or by a correction:
    none is dropped. *)
Theorem every_visible_record_is_accounted_for fmt_time i t m :
  let v := as_of fmt_time i t m in
  (∀ id r, visible v !! id = Some r ↔ shown i t m r ∧ record_id r = id) ∧
  (∀ c, c ∈ current v →
     visible_from i m (record c) (c_visible_ms c) ∧ c_visible_ms c ≤ t ∧ state c = state_at t (record c)
     ∧ (∀ r, shown i t m r → item_key r = item_key (record c) → version_cmp r (record c) ≠ Gt)
     ∧ (∀ r, shown i t m r → ¬ corrects r (record c))) ∧
  NoDup (map (item_key ∘ record) (current v)) ∧
  (∀ r, shown i t m r →
     (∃ c, c ∈ current v ∧ record c = r) ∨ ∃ new by_, (record_id r, (new, by_)) ∈ superseded v).
Proof.
  intros v. split_and!.
  - intros id r. apply visible_of_lookup.
  - intros c Hc. apply current_in in Hc as (k & seen & r & w & Hk & El & Hr & ->). cbn [record c_visible_ms state].
    assert ((r, w) ∈ seen) as Hin by (apply last_Some in El as (l & ->); apply elem_of_app; right; by left).
    apply (seen_at_in _ _ _ _ _ _ _ Hk) in Hin as (<- & Hf & Hw). split_and!; [done..| |].
    + intros r' (v' & Hf' & Hv') E. eapply (seen_last i t m _ seen); [exact Hk|exact El|].
      by apply (seen_at_in _ _ _ _ _ _ v' Hk).
    + intros r' Hr' Hc. apply Hr. apply removed_in; [by exists w|]. by exists r'.
  - apply current_keys.
  - intros r (w & Hf & Hw). destruct (seen_at_of _ _ _ _ _ Hf Hw) as (seen & Hk & Hin).
    destruct (seen_revised seen r w Hin) as [El|(new & Hn)].
    + destruct (decide (record_id r ∈ removed_of (seen_items i t m))) as [Hr|Hr].
      * right. apply removed_in in Hr as (r' & Hr' & Hc); [|by exists w].
        exists (record_id r'), ByCorrection. apply superseded_in. right.
        exists (record_id r, (record_id r, (record_id r', ByCorrection))). split; [|done].
        apply correction_in. exists r', r. split_and!; [done|by exists w|done|done].
      * left. eexists. split; [apply current_in; exists (item_key r), seen, r, w; done|done].
    + right. exists new, ByRevision.
      apply superseded_in. left. by exists (item_key r), seen.
Qed.

(** ** Confidence *)

Lemma length_pos {A} (l : list A) : (0 < length l)%nat ↔ ∃ x, x ∈ l.
Proof.
  destruct l as [|x l]; cbn; split; try lia.
  - by intros (x & ?%elem_of_nil).
  - intros _. exists x. by left.
Qed.

(** A set of two or more holds two different values. *)
Lemma btree_set_two l :
  (2 ≤ length (btree_set str_cmp l))%nat ↔ ∃ a b, a ∈ l ∧ b ∈ l ∧ a ≠ b.
Proof.
  pose proof (btree_set_nodup str_cmp l) as Hn.
  assert (∀ x, x ∈ btree_set str_cmp l ↔ x ∈ l) as Hin by apply btree_set_in. split.
  - destruct (btree_set str_cmp l) as [|a [|b s]]; cbn; try lia. intros _. exists a, b.
    rewrite <-!Hin. split_and!; [by left|right; by left|]. intros ->. apply NoDup_cons in Hn as [Hn _].
    apply Hn. by left.
  - intros (a & b & Ha & Hb & N). apply Hin in Ha, Hb.
    destruct (btree_set str_cmp l) as [|x [|y s]]; cbn; [by apply elem_of_nil in Ha| |lia].
    apply list_elem_of_singleton in Ha, Hb. congruence.
Qed.

Section confidence.
Context (v : AsOfView).

(** [r] counts toward the event [key]: a current typed record of it, not
  trigger-level and without an issue. *)
Definition counted (key : string) (r : SourceRecord) : Prop :=
∃ c, c ∈ current v ∧ record c = r ∧ event_key r = key ∧ state_is_typed (state c) = true
     ∧ trust r ≠ TriggerOnly ∧ (∀ x, x ∈ issues v → fst x ≠ record_id r).

Definition states_something (key : string) : Prop :=
∃ c, c ∈ current v ∧ event_key (record c) = key ∧ state_is_typed (state c) = true.

Definition rows_of (key : string) : list Current :=
List.filter (has_key (event_key ∘ record) key) (current v).

Lemma typed_in key r : r ∈ typed_of (rows_of key) ↔
∃ c, c ∈ current v ∧ record c = r ∧ event_key r = key ∧ state_is_typed (state c) = true.
Proof.
unfold typed_of, rows_of. rewrite list_elem_of_fmap. split.
- intros (c & -> & Hc). apply in_filter in Hc as [Ht Hc]. apply in_filter in Hc as [Hk Hc].
  unfold has_key in Hk. apply bool_decide_eq_true in Hk. by exists c.
- intros (c & Hc & <- & Hk & Ht). exists c. split; [done|]. apply in_filter. split; [done|].
  apply in_filter. split; [|done]. by apply bool_decide_eq_true.
Qed.

Lemma counted_in key r : r ∈ counted_of (map fst (issues v)) (rows_of key) ↔ counted key r.
Proof.
unfold counted_of. rewrite in_filter, typed_in. unfold counts, counted.
rewrite andb_true_iff, !negb_true_iff, !bool_decide_eq_false, list_elem_of_fmap. split.
- intros ([Ht Hf] & c & Hc & E & Hk & Hs). exists c. split_and!; try done.
  intros x Hx Ex. apply Hf. by exists x.
- intros (c & Hc & E & Hk & Hs & Ht & Hf). split; [split; [done|]|by exists c].
  intros (x & Ex & Hx). by apply (Hf x Hx).
Qed.
#[local] Notation cs key := (counted_of (map fst (issues v)) (rows_of key)).

Lemma primary_iff key :
(0 < length (List.filter (λ r, bool_decide (trust r = Primary)) (cs key)))%nat
↔ ∃ r, counted key r ∧ trust r = Primary.
Proof.
rewrite length_pos. setoid_rewrite in_filter. setoid_rewrite bool_decide_eq_true.
setoid_rewrite counted_in. naive_solver.
Qed.

Lemma origins_iff key :
(2 ≤ length (btree_set str_cmp (map origin_of (cs key))))%nat
↔ ∃ a b, counted key a ∧ counted key b ∧ origin_of a ≠ origin_of b.
Proof.
rewrite btree_set_two. split.
- intros (? & ? & Ha & Hb & N). apply list_elem_of_fmap in Ha as (a & -> & Ha), Hb as (b & -> & Hb).
  apply counted_in in Ha, Hb. by exists a, b.
- intros (a & b & Ha & Hb & N). apply counted_in in Ha, Hb. exists (origin_of a), (origin_of b).
  split_and!; [by apply list_elem_of_fmap_2..|done].
Qed.

Lemma some_counted_iff key :
(0 < length (btree_set str_cmp (map origin_of (cs key))))%nat ↔ ∃ r, counted key r.
Proof.
rewrite length_pos. setoid_rewrite btree_set_in. setoid_rewrite <-counted_in. split.
- intros (x & (r & _ & Hr)%list_elem_of_fmap). by exists r.
- intros (r & Hr). exists (origin_of r). by apply list_elem_of_fmap_2.
Qed.

Lemma typed_iff key : (0 < length (typed_of (rows_of key)))%nat ↔ states_something key.
Proof.
rewrite length_pos. setoid_rewrite typed_in. unfold states_something. split.
- intros (r & c & Hc & <- & Hk & Hs). by exists c.
- intros (c & Hc & Hk & Hs). by exists (record c), c.
Qed.
End confidence.

Lemma no_primary (P : SourceRecord → Prop) :
  ¬ (∃ r, P r ∧ trust r = Primary) ↔ ∀ r, P r → trust r ≠ Primary.
Proof. split; [intros H r Hr E; apply H; by exists r|]. intros H (r & Hr & E). by apply (H r). Qed.

(** [confidence_of] by its conditions. *)
Lemma confidence_cases p n ty :
  (confidence_of p n ty = Confirmed ↔ (0 < p)%nat) ∧
  (confidence_of p n ty = Corroborated ↔ ¬ (0 < p)%nat ∧ (2 ≤ n)%nat) ∧
  (confidence_of p n ty = Single ↔ ¬ (0 < p)%nat ∧ ¬ (2 ≤ n)%nat ∧ (0 < n)%nat) ∧
  (confidence_of p n ty = CTriggerOnly ↔ ¬ (0 < p)%nat ∧ ¬ (0 < n)%nat ∧ (0 < ty)%nat) ∧
  (confidence_of p n ty = CNone ↔ ¬ (0 < p)%nat ∧ ¬ (0 < n)%nat ∧ ¬ (0 < ty)%nat).
Proof.
  unfold confidence_of. destruct (Nat.ltb_spec 0 p), (Nat.leb_spec 2 n), (Nat.eqb_spec n 1), (Nat.ltb_spec 0 ty);
    split_and!; split; intros; try done; try lia.
Qed.

(** Confidence follows the table: an event is confirmed exactly when a
    current typed record of it without an issue is primary; corroborated when
    none is and two come from different origins, a copy counting as its
    origin, so copies of one item never corroborate; single when all come from
    one; trigger-only when only trigger-level or flagged records state
    anything; none otherwise. Every current record is in the row of its event,
    and no event has two rows. *)
Theorem confidence_follows_the_table fmt_time i t m e :
  let v := as_of fmt_time i t m in
  let key := ev_event_key e in
  e ∈ events v →
  (confidence e = Confirmed ↔ ∃ r, counted v key r ∧ trust r = Primary) ∧
  (confidence e = Corroborated ↔
     (∀ r, counted v key r → trust r ≠ Primary)
     ∧ ∃ a b, counted v key a ∧ counted v key b ∧ origin_of a ≠ origin_of b) ∧
  (confidence e = Single ↔
     (∀ r, counted v key r → trust r ≠ Primary) ∧ (∃ r, counted v key r)
     ∧ ∀ a b, counted v key a → counted v key b → origin_of a = origin_of b) ∧
  (confidence e = CTriggerOnly ↔ (∀ r, ¬ counted v key r) ∧ states_something v key) ∧
  (confidence e = CNone ↔ ¬ states_something v key) ∧
  (∀ c, c ∈ current v → event_key (record c) = key → record_id (record c) ∈ ev_records e) ∧
  NoDup (map ev_event_key (events v)) ∧ (∀ c, c ∈ current v → event_key (record c) ∈ map ev_event_key (events v)).
Proof.
  intros v key He.
  assert (map ev_event_key (events v) = map fst (btree_iter str_cmp (group (event_key ∘ record) (current v)))) as Ek.
  { change (events v) with (events_of (current v) (map fst (issues v))). unfold events_of. by rewrite map_map. }
  rewrite Ek. change (events v) with (events_of (current v) (map fst (issues v))) in He.
  apply list_elem_of_fmap in He as ([k rows] & -> & Hk). apply btree_iter_in, group_some in Hk as [-> _].
  cbn in key. subst key. cbn [fst snd]. fold (rows_of v k). unfold event_row. cbn [confidence ev_records].
  set (p := length (List.filter _ _)). set (n := length (btree_set _ _)). set (ty := length (typed_of _)).
  destruct (confidence_cases p n ty) as (H1 & H2 & H3 & H4 & H5). rewrite H1, H2, H3, H4, H5.
  pose proof (primary_iff v k) as Hp. pose proof (origins_iff v k) as Ho. pose proof (some_counted_iff v k) as Hs.
  pose proof (typed_iff v k) as Ht. fold p in Hp. fold n in Ho, Hs. fold ty in Ht.
  assert (∀ r, counted v k r → states_something v k) as Hcs.
  { intros r (c & Hcc & <- & Hkk & Hst & _). by exists c. }
  rewrite Hp, Ho, Hs, Ht. clear Hp Ho Hs Ht H1 H2 H3 H4 H5. split_and!.
  - done.
  - by rewrite no_primary.
  - rewrite no_primary. split; intros (A & B & C).
    + split_and!; [done|done|]. intros a b Ha Hb. destruct (decide (origin_of a = origin_of b)) as [E|N]; [done|].
      destruct B. by exists a, b.
    + split_and!; [done| |done]. intros (a & b & Ha & Hb & N). by apply N, C.
  - split.
    + intros (_ & A & B). split; [|done]. intros r Hr. apply A. by exists r.
    + intros (A & B). split_and!; [intros (r & Hr & _); by apply (A r)|intros (r & Hr); by apply (A r)|done].
  - split; [by intros (_ & _ & A)|]. intros A. split_and!; [|intros (r & Hr); by apply A, (Hcs r)|done].
    intros (r & Hr & _). by apply A, (Hcs r).
  - intros c Hc <-. rewrite sort_by_perm. apply list_elem_of_fmap. exists c. split; [done|].
    apply in_filter. split; [|done]. by apply bool_decide_eq_true.
  - apply btree_iter_nodup.
  - intros c Hc. apply list_elem_of_fmap.
    destruct (group (event_key ∘ record) (current v) !! event_key (record c)) as [xs|] eqn:E.
    + exists (event_key (record c), xs). split; [done|]. by apply btree_iter_in.
    + rewrite group_lookup in E.
      assert (c ∈ List.filter (has_key (event_key ∘ record) (event_key (record c))) (current v)) as Hin.
      { apply in_filter. split; [by apply bool_decide_eq_true|done]. }
      destruct (List.filter (has_key _ _) (current v)); [by apply elem_of_nil in Hin|done].
Qed.

Lemma confidence_follows_the_table_witness :
  let v := as_of show_Z (sample_input [later_edit; correction; first_filing]) 20 Captured in
  ∃ e, e ∈ events v ∧ confidence e = Confirmed ∧ NoDup (map ev_event_key (events v)).
Proof.
  intros v. exists (mkEvent "e:k:1" Confirmed 1 ["sec"] ["r2"]).
  assert (mkEvent "e:k:1" Confirmed 1 ["sec"] ["r2"] ∈ events v) as He.
  { apply list_elem_of_lookup. exists 0%nat. vm_compute. reflexivity. }
  split_and!; [exact He|reflexivity|].
  apply (confidence_follows_the_table show_Z (sample_input [later_edit; correction; first_filing]) 20 Captured _ He).
Defined.

(** ** Knowable views: what a later read may change

    In the knowable clock a record of an immutable source counts from its
    publication when it rests on the bytes of its item's first read. *)

(** The record an item's first read made. *)
Definition first_read (i : AsOfInput) (k : string * string) : option SourceRecord :=
  min_by base_cmp (entries (items_of (records i)) k).

(** Nothing a knowable view at [t] may show: published after [t], or read
    after [t] and not the first bytes of an immutable item. *)
Definition unknowable (i : AsOfInput) (t : Z) (r : SourceRecord) : Prop :=
  t < published_ms r ∨
  (t < observed_ms r ∧
   (revision_of (policies i) (source_id r) = InPlace ∨ is_withdrawn (fact r) = true
    ∨ ∀ b, first_read i (item_key r) = Some b → reads_base b r = false)).

Lemma unknowable_hidden i t r b :
  unknowable i t r → first_read i (item_key r) = Some b →
  t < visible_ms r (revision_of (policies i) (source_id r)) Knowable (reads_base b r).
Proof.
  intros H Hb. unfold visible_ms. case_match eqn:E.
  - destruct H as [H|[_ [H|[H|H]]]]; [done| | |]; apply andb_prop in E as [[E1 E2]%andb_prop E3].
    + apply bool_decide_eq_true in E1. congruence.
    + by rewrite H in E3.
    + by rewrite (H b Hb) in E2.
  - destruct H as [H|[H _]]; lia.
Qed.

(** Keeping what a predicate keeps changes nothing when the rest is hidden. *)
Lemma filter_filtered {A B} (p : A → bool) (q : B → bool) (f : A → B) l :
  (∀ x, x ∈ l → p x = false → q (f x) = false) →
  List.filter q (map f (List.filter p l)) = List.filter q (map f l).
Proof.
  induction l as [|x l IH]; intros H; cbn; [done|].
  assert (∀ y, y ∈ l → p y = false → q (f y) = false) as H' by (intros; apply H; [by right|done]).
  destruct (p x) eqn:E; cbn; [by rewrite IH|]. rewrite (H x) by (by left || done). by apply IH.
Qed.

Section stable.
Context (i i' : AsOfInput) (t : Z).
Context (Hn : NoDup (map record_id (records i))) (Hn' : NoDup (map record_id (records i'))).
Context (Hsub : ∀ r, r ∈ records i → r ∈ records i').
Context (Hpol : policies i = policies i').

Definition old (r : SourceRecord) : bool := bool_decide (record_id r ∈ map record_id (records i)).

Lemma old_in r : r ∈ records i' → old r = true ↔ r ∈ records i.
Proof.
intros Hr. unfold old. rewrite bool_decide_eq_true. split; [|apply list_elem_of_fmap_2].
intros (x & E & Hx)%list_elem_of_fmap.
assert (dedup (records i') !! record_id r = Some r) as H1 by (by apply dedup_lookup).
assert (dedup (records i') !! record_id r = Some x) as H2 by (apply dedup_lookup; [done|]; split; [by apply Hsub|done]).
congruence.
Qed.

Lemma old_values : btree_values str_cmp (dedup (records i)) = List.filter old (btree_values str_cmp (dedup (records i'))).
Proof.
rewrite <-btree_values_filter by apply _. f_equal. apply map_eq. intros id. apply option_eq. intros r.
rewrite map_lookup_filter_Some, !dedup_lookup by done. cbn. split.
- intros [Hr <-]. split_and!; [by apply Hsub|done|]. by apply old_in; [apply Hsub|].
- intros [[Hr <-] Ho]. split; [|done]. by apply old_in.
Qed.

(** An item's versions are the old ones among the new input's. *)
Lemma old_versions k :
entries (items_of (records i)) k = List.filter old (entries (items_of (records i')) k).
Proof.
unfold entries, items_of. rewrite !group_lookup, old_values, (filter_comm (has_key item_key k)).
set (l := List.filter (has_key item_key k) _). destruct l as [|x l]; [done|].
cbn -[List.filter]. by destruct (List.filter old (x :: l)).
Qed.

Lemma entries_in k r : r ∈ entries (items_of (records i')) k → r ∈ records i' ∧ item_key r = k.
Proof.
unfold entries. destruct (items_of (records i') !! k) as [vs|] eqn:E; [|by intros ?%elem_of_nil].
cbn. intros Hr. apply (items_of_in _ _ _ _ E) in Hr as [Hk Hd]. split; [|done].
by apply dedup_sound in Hd as [Hd _].
Qed.

(** New versions are read after the item's first read, and none is knowable. *)
Context (Hnew : ∀ r, r ∈ records i' → r ∉ records i → unknowable i' t r).
Context (Hlater : ∀ r o, r ∈ records i' → r ∉ records i → o ∈ records i → item_key o = item_key r →
∃ b, b ∈ records i ∧ item_key b = item_key r ∧ base_cmp b r = Lt).

Lemma base_kept k b : first_read i k = Some b → first_read i' k = Some b.
Proof.
unfold first_read. rewrite old_versions. intros H. apply min_by_spec in H as [Hb Hmin]; [|apply _].
apply in_filter in Hb as [Hob Hb]. pose proof (entries_in _ _ Hb) as [Hbr Hbk]. apply min_by_unique; [apply _| |done|].
- intros x y Hx Hy E. apply entries_in in Hx as [Hx _], Hy as [Hy _].
  unfold base_cmp, cmp_then in E. destruct (read_cmp x y); try done. apply cmp_eq in E.
  assert (dedup (records i') !! record_id x = Some x) as H1 by (by apply dedup_lookup).
  assert (dedup (records i') !! record_id x = Some y) as H2 by (by apply dedup_lookup). congruence.
- intros x Hx. destruct (old x) eqn:Eo; [apply Hmin, in_filter; by split|].
  pose proof (entries_in _ _ Hx) as [Hxr Hxk].
  destruct (Hlater x b) as (b' & Hb' & Hk' & Hlt); [done| |by apply old_in|by rewrite Hbk|].
  { intros Hin. apply old_in in Hin; [congruence|done]. }
  assert (b' ∈ entries (items_of (records i')) k) as Hin'.
  { assert (dedup (records i') !! record_id b' = Some b') as Hd by (apply dedup_lookup; [done|]; split; [by apply Hsub|done]).
    destruct (item_present i' b' Hd) as [vs Hvs]. rewrite Hk', Hxk in Hvs. unfold entries. rewrite Hvs. cbn.
    apply (items_of_in _ _ _ _ Hvs). by rewrite Hk'. }
  assert (base_cmp b' b ≠ Lt) as Hb'b by (apply Hmin, in_filter; split; [apply old_in; [by apply Hsub|done]|done]).
  intros Hxb. apply Hb'b. apply (cmp_lt_trans base_cmp b' x b Hlt). congruence.
Qed.

Lemma knowable_item k : seen_at i t Knowable k = seen_at i' t Knowable k.
Proof.
assert (∀ j vs s, seen_of t (item_visibility (policies j) Knowable s vs) =
  match sort_by (cmp_on fst version_cmp) (List.filter (λ p, snd p <=? t) (item_visibility (policies j) Knowable s vs))
  with [] => None | seen => Some seen end) as Hs by done.
assert (∀ j, seen_at j t Knowable k =
  seen_of t (item_visibility (policies j) Knowable (fst k) (entries (items_of (records j)) k))) as G.
{ intros j. unfold seen_at, entries. by destruct (items_of (records j) !! k). }
rewrite !G, !Hs, <-Hpol. enough (List.filter (λ p, snd p <=? t)
    (item_visibility (policies i) Knowable (fst k) (entries (items_of (records i)) k)) =
  List.filter (λ p, snd p <=? t)
    (item_visibility (policies i) Knowable (fst k) (entries (items_of (records i')) k))) as -> by done.
assert (∀ b x, first_read i' k = Some b → x ∈ entries (items_of (records i')) k → old x = false →
  (visible_ms x (revision_of (policies i) (fst k)) Knowable (reads_base b x) <=? t) = false) as Hid.
{ intros b x Eb Hx Ho. apply Z.leb_gt. apply entries_in in Hx as [Hx <-]. rewrite Hpol.
  apply (unknowable_hidden i' t x b); [|done]. apply Hnew; [done|]. intros Hin. apply old_in in Hin; [congruence|done]. }
unfold item_visibility at 2. fold (first_read i' k).
destruct (first_read i' k) as [b'|] eqn:Eb'.
2: { apply min_by_none in Eb' as E. by rewrite old_versions, E. }
unfold item_visibility. fold (first_read i k). destruct (first_read i k) as [b|] eqn:Eb.
- apply base_kept in Eb. rewrite Eb in Eb'. injection Eb' as <-. rewrite old_versions.
  apply (filter_filtered old (λ p, snd p <=? t)). intros x Hx Ho. cbn [snd]. by apply Hid.
- apply min_by_none in Eb. rewrite old_versions in Eb.
  rewrite <-(filter_filtered old (λ p, snd p <=? t)); [by rewrite Eb|].
  intros x Hx Ho. cbn [snd]. by apply Hid.
Qed.
End stable.

(** C33. A knowable view at [t] is not rewritten by what is read later: records
    published after [t], edits and withdrawals read after [t], and anything
    read after [t] of a source edited in place leave the view as it was,
    provided that an item the store already held keeps its first read; so do
    fetches after [t] and every purge. *)
Theorem knowable_view_is_stable fmt_time i i' t :
  NoDup (map record_id (records i)) → NoDup (map record_id (records i')) →
  (∀ r, r ∈ records i → r ∈ records i') →
  (∀ r, r ∈ records i' → r ∉ records i → unknowable i' t r) →
  (∀ r o, r ∈ records i' → r ∉ records i → o ∈ records i → item_key o = item_key r →
     ∃ b, b ∈ records i ∧ item_key b = item_key r ∧ base_cmp b r = Lt) →
  (∀ c, complete c = true → fetched_ms c ≤ t → c ∈ coverage i ↔ c ∈ coverage i') →
  policies i = policies i' →
  as_of fmt_time i t Knowable = as_of fmt_time i' t Knowable.
Proof.
  intros Hn Hn' Hsub Hnew Hlater Hc Hpol. unfold as_of.
  rewrite (seen_items_ext i i' t Knowable), (newest_fetches_ext _ _ t Hc), Hpol; [done|].
  intros k. by apply knowable_item.
Qed.

Lemma only_new r :
  r ∈ [later_edit; correction; first_filing] → r ∉ [first_filing; correction] → r = later_edit.
Proof.
  intros [->|Hr]%elem_of_cons Ho; [done|]. destruct Ho. apply elem_of_cons in Hr as [->|Hr]; [right; by left|].
  apply elem_of_cons in Hr as [->|Hr]; [by left|]. by apply elem_of_nil in Hr.
Qed.

Lemma knowable_view_is_stable_witness :
  as_of show_Z (sample_input [first_filing; correction]) 2 Knowable
  = as_of show_Z (sample_input [later_edit; correction; first_filing]) 2 Knowable
  ∧ map (record_id ∘ record) (current (as_of show_Z (sample_input [first_filing; correction]) 2 Knowable)) = ["r1"].
Proof.
  split; [|vm_compute; reflexivity].
  apply knowable_view_is_stable; cbn [records coverage policies sample_input].
  - by apply (bool_decide_unpack _); vm_compute.
  - by apply (bool_decide_unpack _); vm_compute.
  - intros r. rewrite !elem_of_cons. tauto.
  - intros r Hr Ho. assert (r = later_edit) as -> by (apply only_new; done).
    right. split; [vm_compute; reflexivity|]. right. right. intros b Hb. vm_compute in Hb. by injection Hb as <-.
  - intros r o Hr Ho. assert (r = later_edit) as -> by (apply only_new; done).
    intros _ _. exists first_filing. split; [by left|]. by split.
  - done.
  - done.
Defined.

(** The condition on first reads is needed: a record published after [t]
    that turns out to be the first read of an item the store held from a later
    read makes the earlier one an edit, and takes it out of the view at [t],
    although the module's table says that nothing published after [t] changes
    it. *)
Theorem later_publication_may_empty_a_view :
  let old := sample "r1" "a" 1 10 11 Primary "s1" None in
  let new := sample "r2" "a" 6 8 9 Primary "s2" None in
  5 < published_ms new
  ∧ map (record_id ∘ record) (current (as_of show_Z (sample_input [old]) 5 Knowable)) = ["r1"]
  ∧ current (as_of show_Z (sample_input [old; new]) 5 Knowable) = [].
Proof. vm_compute. split_and!; reflexivity. Qed.
