(* ===== verification/Tz.v ===== *)
(** * Civil time in three zones ([src/src/domain/tz.rs])

    Daylight time and the two conversions between UTC and wall clocks. A
    calendar date is its day number (0 = 1970-01-01), a naive date and time its
    milliseconds since that midnight; the calendar of [chrono] - years, first
    days of months, n-th weekdays - is a class. *)

From Stdlib Require Import Ascii String.
From S2P Require Import Prelude.
From S2P Require Import Text.

#[local] Open Scope string_scope.
#[local] Open Scope list_scope.
#[local] Open Scope Z_scope.

Definition HOUR_MS : Z := 3600000.
Definition DAY_MS : Z := 86400000.

(** Monday is 0; day 0 was a Thursday. *)
Definition SUN : Z := 6.
Definition weekday (d : Z) : Z := (d + 3) mod 7.

(** The calendar: the dates that exist, the year of a date, the first day of a
    month and the n-th weekday of a month. *)
Class Calendar : Type := {
  date_ok : Z → bool;
  year_of : Z → Z;
  from_ymd1 : Z → Z → option Z;
  from_weekday_of_month : Z → Z → Z → Z → option Z;
}.

(** What is documented of it, for the years 1 to 9999. *)
Class CalendarLaws (C : Calendar) : Prop := {
  month_exists : ∀ y m, 1 ≤ y ≤ 9999 → 1 ≤ m ≤ 12 → ∃ d, from_ymd1 y m = Some d;
  month_length : ∀ y m a b, 1 ≤ y ≤ 9999 → 1 ≤ m ≤ 11 →
    from_ymd1 y m = Some a → from_ymd1 y (m + 1) = Some b → 28 ≤ b - a ≤ 31;
  year_bounds : ∀ y a d, 1 ≤ y ≤ 9999 → from_ymd1 y 1 = Some a → year_of d = y → a ≤ d;
  year_end : ∀ y a d, 1 ≤ y ≤ 9999 → from_ymd1 y 12 = Some a → year_of d = y → d < a + 31;
  year_within : ∀ y a b d, 1 ≤ y ≤ 9999 → from_ymd1 y 1 = Some a → from_ymd1 y 12 = Some b →
    a ≤ d < b + 31 → year_of d = y;
  year_mono : ∀ d e, d ≤ e → year_of d ≤ year_of e;
  nth_exists : ∀ y m w n a, 1 ≤ y ≤ 9999 → 1 ≤ m ≤ 12 → 0 ≤ w ≤ 6 → 1 ≤ n ≤ 4 → from_ymd1 y m = Some a →
    ∃ d, from_weekday_of_month y m w n = Some d ∧ weekday d = w ∧ a + 7 * (n - 1) ≤ d < a + 7 * n;
  dates_exist : ∀ d, 1 ≤ year_of d ≤ 9999 → date_ok d = true;
}.

Inductive Zone : Type := NewYork | Paris | Utc.
#[export] Instance Zone_eq_dec : EqDecision Zone.
Proof. solve_decision. Defined.

Definition zone_parse (name : string) : option Zone :=
  let name := trim name in
  if String.eqb name "America/New_York" then Some NewYork
  else if String.eqb name "Europe/Paris" then Some Paris
  else if String.eqb name "UTC" || String.eqb name "Etc/UTC" then Some Utc
  else None.
Definition zone_name (z : Zone) : string :=
  match z with NewYork => "America/New_York" | Paris => "Europe/Paris" | Utc => "UTC" end.

Definition standard_offset_ms (z : Zone) : Z :=
  match z with NewYork => -5 * HOUR_MS | Paris => HOUR_MS | Utc => 0 end.

(** The loop of [last_weekday]: a week is enough. *)
Fixpoint back_to (fuel : nat) (w d : Z) : Z :=
  match fuel with
  | O => d
  | S fuel => if weekday d =? w then d else back_to fuel w (d - 1)
  end.

Section zones.
Context {C : Calendar}.

(** [n] is cast to a byte. *)
Definition nth_weekday (year month w n : Z) : Z :=
match from_weekday_of_month year month w (n mod 256) with
| Some d => d
| None => default 0 (from_ymd1 year month)
end.

Definition last_weekday (year month w : Z) : Z :=
let '(ny, nm) := if month =? 12 then (year + 1, 1) else (year, month + 1) in
back_to 7 w (default 0 (from_ymd1 ny nm) - 1).

(** Out of the calendar's range the epoch stands in. *)
Definition naive_utc (utc_ms : Z) : Z := if date_ok (utc_ms / DAY_MS) then utc_ms else 0.
Definition utc_ms_of (date hour_utc : Z) : Z := date * DAY_MS + hour_utc * HOUR_MS.

Definition is_dst (z : Zone) (utc_ms : Z) : bool :=
let year := year_of (naive_utc utc_ms / DAY_MS) in
match z with
| Utc => false
| NewYork =>
    let start := utc_ms_of (nth_weekday year 3 SUN 2) 7 in
    let end_ := utc_ms_of (nth_weekday year 11 SUN 1) 6 in
    (start <=? utc_ms) && (utc_ms <? end_)
| Paris =>
    let start := utc_ms_of (last_weekday year 3 SUN) 1 in
    let end_ := utc_ms_of (last_weekday year 10 SUN) 1 in
    (start <=? utc_ms) && (utc_ms <? end_)
end.

Definition offset_ms (z : Zone) (utc_ms : Z) : Z :=
standard_offset_ms z + (if is_dst z utc_ms then HOUR_MS else 0).

Definition to_local (z : Zone) (utc_ms : Z) : Z := naive_utc (utc_ms + offset_ms z utc_ms).
Definition local_date (z : Zone) (utc_ms : Z) : Z := to_local z utc_ms / DAY_MS.

Definition to_utc_ms (z : Zone) (local : Z) : Z :=
let wall := local in
let standard := wall - standard_offset_ms z in
let daylight := standard - HOUR_MS in
if negb (bool_decide (z = Utc)) && is_dst z daylight then daylight else standard.

(** [Zone::at]. *)
Definition at_ (z : Zone) (date hour minute : Z) : Z :=
to_utc_ms z (date * DAY_MS + Z.min hour 23 * HOUR_MS + Z.min minute 59 * 60000).
End zones.
