(* ===== verification/TzProps.v ===== *)
(** * Civil time: what the conversions keep

    Lemmas of [Tz] over any calendar that has the laws, a Gregorian calendar
    that has them, and the properties: wall clocks read back, local dates never
    go back, a wall time lands on its date. *)

From Stdlib Require Import Ascii String.
From S2P Require Import Prelude.
From S2P Require Import Text.
From S2P Require Import Tz.

#[local] Open Scope list_scope.
#[local] Open Scope Z_scope.

(** ** Looking back for a weekday *)

Lemma weekday_range d : 0 ≤ weekday d ≤ 6.
Proof. unfold weekday. pose proof (Z.mod_pos_bound (d + 3) 7). lia. Qed.

Lemma back_to_spec w d : 0 ≤ w ≤ 6 → weekday (back_to 7 w d) = w ∧ d - 6 ≤ back_to 7 w d ≤ d.
Proof.
  intros Hw. assert (∀ k fuel d, (0 ≤ k < fuel)%nat → weekday (d - Z.of_nat k) = w →
    (∀ j, (j < k)%nat → weekday (d - Z.of_nat j) ≠ w) → back_to fuel w d = d - Z.of_nat k) as H.
  { intros k. induction k as [|k IH]; intros fuel e Hf Hk Hj; destruct fuel as [|fuel]; try lia; cbn [back_to].
    - replace (e - Z.of_nat 0) with e in * by lia. by rewrite Hk, Z.eqb_refl.
    - destruct (Z.eqb_spec (weekday e) w) as [E|_].
      { destruct (Hj 0%nat); [lia|]. by replace (e - Z.of_nat 0) with e by lia. }
      rewrite IH; [lia|lia| |].
      + by replace (e - 1 - Z.of_nat k) with (e - Z.of_nat (S k)) by lia.
      + intros j Hjk. replace (e - 1 - Z.of_nat j) with (e - Z.of_nat (S j)) by lia. apply Hj. lia. }
  pose proof (weekday_range d) as Hd. set (k := (weekday d - w) mod 7).
  assert (0 ≤ k < 7) as Hk by (apply Z.mod_pos_bound; lia).
  assert (∀ j, 0 ≤ j < 7 → weekday (d - j) = w ↔ j = k) as Hj.
  { intros j Hj. unfold k, weekday in *. Z.to_euclidean_division_equations. lia. }
  rewrite (H (Z.to_nat k) 7%nat d); [|lia| |].
  - rewrite Z2Nat.id by lia. split; [by apply Hj|lia].
  - rewrite Z2Nat.id by lia. by apply Hj.
  - intros j Hjk E. apply Hj in E; lia.
Qed.

Section laws.
Context {C : Calendar} {L : CalendarLaws C}.

(** ** The year around a date *)

(** January 1 and December 1 of a year. *)
Lemma year_frame y : 1 ≤ y ≤ 9999 →
∃ m, (∀ k, 1 ≤ k ≤ 12 → from_ymd1 y k = Some (m k)) ∧
  (∀ k, 1 ≤ k ≤ 11 → 28 ≤ m (k + 1) - m k ≤ 31) ∧
  (∀ d, year_of d = y ↔ m 1 ≤ d < m 12 + 31).
Proof.
intros Hy. exists (λ k, default 0 (from_ymd1 y k)).
assert (∀ k, 1 ≤ k ≤ 12 → from_ymd1 y k = Some (default 0 (from_ymd1 y k))) as Hm.
{ intros k Hk. by destruct (month_exists y k Hy Hk) as [d ->]. }
split; [exact Hm|]. split.
- intros k Hk. apply (month_length y k); [done|done|apply Hm; lia|apply Hm; lia].
- intros d. split.
  + intros Hd. split; [eapply year_bounds|eapply year_end]; try exact Hd; try done; apply Hm; lia.
  + intros Hd. eapply year_within; [done|apply Hm; lia|apply Hm; lia|exact Hd].
Qed.

Lemma months_span (m : Z → Z) (Hm : ∀ k, 1 ≤ k ≤ 11 → 28 ≤ m (k + 1) - m k ≤ 31) i j :
1 ≤ i ≤ j ∧ j ≤ 12 → 28 * (j - i) ≤ m j - m i ≤ 31 * (j - i).
Proof.
intros Hij. replace j with (i + Z.of_nat (Z.to_nat (j - i))) in * by lia.
generalize dependent (Z.to_nat (j - i)). intros n. induction n as [|n IH]; intros Hn.
- replace (i + Z.of_nat 0) with i by lia. lia.
- specialize (IH ltac:(lia)). pose proof (Hm (i + Z.of_nat n) ltac:(lia)) as H.
  replace (i + Z.of_nat n + 1) with (i + Z.of_nat (S n)) in H by lia. lia.
Qed.

Lemma year_near d k :
2 ≤ year_of d ≤ 9998 → -20 ≤ k ≤ 20 → year_of d - 1 ≤ year_of (d + k) ≤ year_of d + 1.
Proof.
intros Hd Hk. set (y := year_of d) in *.
destruct (year_frame y ltac:(lia)) as (m & _ & Hm & Hy).
destruct (year_frame (y - 1) ltac:(lia)) as (p & _ & Hp & Hpy).
destruct (year_frame (y + 1) ltac:(lia)) as (n & _ & Hn & Hny).
assert (m 1 ≤ d < m 12 + 31) as Hdm by by apply Hy.
pose proof (months_span m Hm 1 12 ltac:(lia)). pose proof (months_span p Hp 1 12 ltac:(lia)).
pose proof (months_span n Hn 1 12 ltac:(lia)).
assert (year_of (p 12 + 30) = y - 1) as E1 by (apply Hpy; lia).
assert (year_of (m 1) = y) as E2 by (apply Hy; lia).
assert (year_of (m 12 + 30) = y) as E3 by (apply Hy; lia).
assert (year_of (n 1) = y + 1) as E4 by (apply Hny; lia).
assert (p 12 + 30 < m 1) as G1.
{ destruct (Z_lt_le_dec (p 12 + 30) (m 1)) as [|Hle]; [done|]. apply year_mono in Hle. lia. }
assert (m 12 + 30 < n 1) as G2.
{ destruct (Z_lt_le_dec (m 12 + 30) (n 1)) as [|Hle]; [done|]. apply year_mono in Hle. lia. }
split.
- assert (year_of (p 12) = y - 1) as E by (apply Hpy; lia).
  assert (year_of (p 12) ≤ year_of (d + k)) by (apply year_mono; lia). lia.
- assert (year_of (n 12) = y + 1) as E by (apply Hny; lia).
  assert (year_of (d + k) ≤ year_of (n 12)) by (apply year_mono; lia). lia.
Qed.
(** Frames of two years are in order. *)
Lemma frames_ordered y y' m m' :
(∀ d, year_of d = y ↔ m 1 ≤ d < m 12 + 31) → (∀ d, year_of d = y' ↔ m' 1 ≤ d < m' 12 + 31) →
y < y' → m 1 ≤ m 12 → m' 1 ≤ m' 12 → m 12 + 30 < m' 1.
Proof.
intros Hm Hm' Hy H1 H2. destruct (Z_lt_le_dec (m 12 + 30) (m' 1)) as [|Hle]; [done|]. apply year_mono in Hle.
assert (year_of (m 12 + 30) = y) by (apply Hm; lia). assert (year_of (m' 1) = y') by (apply Hm'; lia). lia.
Qed.

(** ** Daylight time *)

(** The Sundays of the switches, and the hour of the second on a standard clock. *)
Definition dst_start (z : Zone) (y : Z) : Z :=
match z with NewYork => nth_weekday y 3 SUN 2 | _ => last_weekday y 3 SUN end.
Definition dst_end (z : Zone) (y : Z) : Z :=
match z with NewYork => nth_weekday y 11 SUN 1 | _ => last_weekday y 10 SUN end.
Definition end_hour (z : Zone) : Z := match z with NewYork => HOUR_MS | _ => 2 * HOUR_MS end.

(** Instants and wall readings the calendar covers with some days around them. *)
Definition civil (t : Z) : Prop := 2 ≤ year_of (t / DAY_MS) ≤ 9998.

Lemma day_shift t k : -20 * DAY_MS ≤ k ≤ 20 * DAY_MS → ∃ j, -20 ≤ j ≤ 20 ∧ (t + k) / DAY_MS = t / DAY_MS + j.
Proof.
unfold DAY_MS. intros Hk. exists ((t + k) / 86400000 - t / 86400000). split; [|lia].
Z.to_euclidean_division_equations. lia.
Qed.
Lemma civil_near t k : civil t → -20 * DAY_MS ≤ k ≤ 20 * DAY_MS → 1 ≤ year_of ((t + k) / DAY_MS) ≤ 9999.
Proof.
intros Ht Hk. destruct (day_shift t k Hk) as (j & Hj & ->). pose proof (year_near _ j Ht Hj). unfold civil in Ht. lia.
Qed.
Lemma naive_utc_near t k : civil t → -20 * DAY_MS ≤ k ≤ 20 * DAY_MS → naive_utc (t + k) = t + k.
Proof. intros Ht Hk. unfold naive_utc. by rewrite dates_exist by (by apply civil_near). Qed.

Lemma is_dst_spec z t :
1 ≤ year_of (t / DAY_MS) ≤ 9999 →
let y := year_of (t / DAY_MS) in
is_dst z t = true ↔ z ≠ Utc
  ∧ dst_start z y * DAY_MS + 2 * HOUR_MS - standard_offset_ms z ≤ t
  ∧ t < dst_end z y * DAY_MS + end_hour z - standard_offset_ms z.
Proof.
intros Hy y. unfold is_dst, naive_utc. rewrite dates_exist by done. fold y.
destruct z; [| |split; [done|by intros [? _]]]; unfold utc_ms_of, dst_start, dst_end, end_hour, standard_offset_ms, HOUR_MS;
  rewrite andb_true_iff, Z.leb_le, Z.ltb_lt; split; intros H; split_and?; try done; lia.
Qed.

Lemma edges_in_year z y m :
1 ≤ y ≤ 9999 → (∀ k, 1 ≤ k ≤ 12 → from_ymd1 y k = Some (m k)) →
(∀ k, 1 ≤ k ≤ 11 → 28 ≤ m (k + 1) - m k ≤ 31) →
m 3 ≤ dst_start z y < m 4 ∧ m 10 ≤ dst_end z y < m 12
∧ weekday (dst_start z y) = SUN ∧ weekday (dst_end z y) = SUN.
Proof.
intros Hy Hf Hm. pose proof (months_span m Hm 3 4 ltac:(lia)). pose proof (months_span m Hm 10 11 ltac:(lia)).
pose proof (months_span m Hm 11 12 ltac:(lia)).
assert (∀ k n, 1 ≤ k ≤ 12 → 1 ≤ n ≤ 4 →
  weekday (nth_weekday y k SUN n) = SUN ∧ m k + 7 * (n - 1) ≤ nth_weekday y k SUN n < m k + 7 * n) as Hn.
{ intros k n Hk Hn. unfold nth_weekday. rewrite (Z.mod_small n) by lia.
  destruct (nth_exists y k SUN n (m k)) as (d & -> & Hw & Hd); [done|done|done|done|by apply Hf|]. done. }
assert (∀ k, 1 ≤ k ≤ 11 → weekday (last_weekday y k SUN) = SUN ∧ m (k + 1) - 7 ≤ last_weekday y k SUN < m (k + 1)) as Hl.
{ intros k Hk. unfold last_weekday. destruct (Z.eqb_spec k 12); [lia|]. rewrite Hf by lia. cbn [default].
  destruct (back_to_spec SUN (m (k + 1) - 1)) as [H2 H3]; [done|]. split; [done|]. cbn in *. lia. }
pose proof (Hn 3 2 ltac:(lia) ltac:(lia)). pose proof (Hn 11 1 ltac:(lia) ltac:(lia)).
pose proof (Hl 3 ltac:(lia)) as Hl3. pose proof (Hl 10 ltac:(lia)) as Hl10.
change (3 + 1) with 4 in Hl3. change (10 + 1) with 11 in Hl10.
destruct z; cbn [dst_start dst_end]; split_and!; lia.
Qed.

Lemma offset_small z t : -5 * HOUR_MS ≤ offset_ms z t ≤ 2 * HOUR_MS.
Proof. unfold offset_ms, standard_offset_ms, HOUR_MS. destruct z, (is_dst _ _); lia. Qed.

Lemma to_local_civil z t : civil t → to_local z t = t + offset_ms z t.
Proof.
intros Ht. unfold to_local. apply naive_utc_near; [done|]. pose proof (offset_small z t). unfold HOUR_MS, DAY_MS in *. lia.
Qed.

(** When daylight time is over, its end lies between. *)
Lemma fall_back z t t' :
1 ≤ year_of (t / DAY_MS) ≤ 9999 → 1 ≤ year_of (t' / DAY_MS) ≤ 9999 →
t ≤ t' → is_dst z t = true → is_dst z t' = false →
∃ e, t < e * DAY_MS + end_hour z - standard_offset_ms z ≤ t'.
Proof.
intros Hy Hy' Hle Hd Hd'. apply is_dst_spec in Hd as (Hz & H1 & H2); [|done].
set (y := year_of (t / DAY_MS)) in *. set (y' := year_of (t' / DAY_MS)) in *.
exists (dst_end z y). split; [done|].
assert (y ≤ y') as Hyy by (apply year_mono, Z.div_le_mono; [unfold DAY_MS; lia|done]).
destruct (Z.eq_dec y y') as [E|Hne].
- apply not_true_iff_false in Hd'. apply Z.nlt_ge. intros H3. apply Hd', is_dst_spec; [done|]. fold y'.
  rewrite <-E. split_and!; [done|lia|lia].
- destruct (year_frame y Hy) as (m & Hf & Hm & Hmy). destruct (year_frame y' Hy') as (m' & Hf' & Hm' & Hmy').
  pose proof (months_span m Hm 1 12 ltac:(lia)). pose proof (months_span m' Hm' 1 12 ltac:(lia)).
  pose proof (frames_ordered y y' m m' Hmy Hmy' ltac:(lia) ltac:(lia) ltac:(lia)) as Ho.
  destruct (edges_in_year z y m Hy Hf Hm) as (_ & He & _ & _).
  assert (m' 1 ≤ t' / DAY_MS) by by apply Hmy'.
  assert (DAY_MS * (t' / DAY_MS) ≤ t') by (apply Z.mul_div_le; unfold DAY_MS; lia).
  unfold end_hour, standard_offset_ms, HOUR_MS, DAY_MS in *. destruct z; [lia|lia|done].
Qed.

Lemma div_day x d r : 0 ≤ r < DAY_MS → (d * DAY_MS + r ≤ x → d ≤ x / DAY_MS) ∧ (x < d * DAY_MS + r → x / DAY_MS ≤ d).
Proof.
unfold DAY_MS. intros Hr. split; intros H.
- apply Z.div_le_lower_bound; lia.
- assert (x / 86400000 < d + 1); [|lia]. apply Z.div_lt_upper_bound; lia.
Qed.

Lemma local_date_mono z t t' : civil t → civil t' → t ≤ t' → local_date z t ≤ local_date z t'.
Proof.
intros Ht Ht' Hle. unfold local_date. rewrite !to_local_civil by done.
destruct (Z_le_gt_dec (t + offset_ms z t) (t' + offset_ms z t')) as [H|H].
{ apply Z.div_le_mono; [unfold DAY_MS; lia|done]. }
assert (is_dst z t = true ∧ is_dst z t' = false) as [Hd Hd'].
{ unfold offset_ms in H. destruct (is_dst z t), (is_dst z t'); unfold HOUR_MS in *; split; try done; lia. }
destruct (fall_back z t t') as (e & H1 & H2); [| |done|done|done|].
{ pose proof (civil_near t 0 Ht ltac:(unfold DAY_MS; lia)) as E. by rewrite Z.add_0_r in E. }
{ pose proof (civil_near t' 0 Ht' ltac:(unfold DAY_MS; lia)) as E. by rewrite Z.add_0_r in E. }
unfold offset_ms. rewrite Hd, Hd'. transitivity e.
- apply (div_day _ _ (end_hour z + HOUR_MS)); [unfold end_hour, HOUR_MS, DAY_MS; destruct z; lia|lia].
- apply (div_day _ _ (end_hour z)); [unfold end_hour, HOUR_MS, DAY_MS; destruct z; lia|lia].
Qed.

(** ** Wall clocks *)

(** Reading a wall time: shown by the instant it resolves to, or in the gap. *)
Lemma to_utc_cases z w :
let s := w - standard_offset_ms z in
(to_utc_ms z w = s - HOUR_MS ∧ is_dst z (s - HOUR_MS) = true) ∨
(to_utc_ms z w = s ∧ is_dst z (s - HOUR_MS) = false).
Proof.
intros s. unfold to_utc_ms. fold s. destruct (bool_decide_reflect (z = Utc)) as [->|]; cbn [negb andb].
- by right.
- destruct (is_dst z (s - HOUR_MS)) eqn:E; [by left|by right].
Qed.

Lemma reading_offset z w k :
civil w → -2 * HOUR_MS ≤ k ≤ 2 * HOUR_MS →
naive_utc (w - standard_offset_ms z + k) = w - standard_offset_ms z + k
∧ 1 ≤ year_of ((w - standard_offset_ms z + k) / DAY_MS) ≤ 9999.
Proof.
intros Hw Hk.
assert (-20 * DAY_MS ≤ - standard_offset_ms z + k ≤ 20 * DAY_MS) as H
  by (unfold standard_offset_ms, HOUR_MS, DAY_MS in *; destruct z; lia).
replace (w - standard_offset_ms z + k) with (w + (- standard_offset_ms z + k)) by lia.
split; [by apply naive_utc_near|by apply civil_near].
Qed.

(** The wall times of the spring gap: 02:00 to 03:00 of the switch's Sunday on a
  standard clock. *)
Definition in_gap (z : Zone) (w : Z) : Prop :=
z ≠ Utc ∧ ∃ y, dst_start z y * DAY_MS + 2 * HOUR_MS ≤ w < dst_start z y * DAY_MS + 3 * HOUR_MS.

Lemma to_local_at z w : civil w →
(to_local z (to_utc_ms z w) = w ∧ is_dst z (w - standard_offset_ms z) = is_dst z (w - standard_offset_ms z - HOUR_MS) ∨
 to_local z (to_utc_ms z w) = w ∧ is_dst z (w - standard_offset_ms z - HOUR_MS) = true ∨
 to_local z (to_utc_ms z w) = w + HOUR_MS ∧ is_dst z (w - standard_offset_ms z) = true
   ∧ is_dst z (w - standard_offset_ms z - HOUR_MS) = false).
Proof.
intros Hw. set (s := w - standard_offset_ms z).
destruct (to_utc_cases z w) as [[-> Hd]|[-> Hd]]; fold s in Hd |- *; unfold to_local, offset_ms; rewrite ?Hd.
- right. left. split; [|done].
  replace (s - HOUR_MS + (standard_offset_ms z + HOUR_MS)) with (w + 0) by (unfold s; lia).
  rewrite (naive_utc_near w 0); [lia|done|unfold DAY_MS; lia].
- fold s. destruct (is_dst z s) eqn:Es.
  + right. right. split; [|done]. replace (s + (standard_offset_ms z + HOUR_MS)) with (w + HOUR_MS) by (unfold s; lia).
    apply naive_utc_near; [done|unfold DAY_MS, HOUR_MS; lia].
  + left. split; [|congruence]. replace (s + (standard_offset_ms z + 0)) with (w + 0) by (unfold s; lia).
    rewrite (naive_utc_near w 0); [lia|done|unfold DAY_MS; lia].
Qed.

Lemma gap_spec z w :
civil w → is_dst z (w - standard_offset_ms z) = true →
is_dst z (w - standard_offset_ms z - HOUR_MS) = false → in_gap z w.
Proof.
intros Hw. set (s := w - standard_offset_ms z). intros Hs Hs'.
destruct (reading_offset z w 0 Hw) as [_ Hy]; [unfold HOUR_MS; lia|].
destruct (reading_offset z w (- HOUR_MS) Hw) as [_ Hy']; [unfold HOUR_MS; lia|].
fold s in Hy, Hy'. rewrite Z.add_0_r in Hy. replace (s + - HOUR_MS) with (s - HOUR_MS) in Hy' by lia.
apply is_dst_spec in Hs as (Hz & H1 & H2); [|done]. set (y := year_of (s / DAY_MS)) in *.
split; [done|]. exists y.
destruct (year_frame y Hy) as (m & Hf & Hm & Hmy). pose proof (months_span m Hm 1 3 ltac:(lia)).
destruct (edges_in_year z y m Hy Hf Hm) as (Hst & _ & _ & _).
assert (year_of ((s - HOUR_MS) / DAY_MS) = y) as E.
{ apply Hmy. assert (s / DAY_MS < m 12 + 31) by by apply Hmy. split.
  - apply Z.div_le_lower_bound; unfold standard_offset_ms, HOUR_MS, DAY_MS in *; [lia|destruct z; lia].
  - eapply Z.le_lt_trans; [|eassumption]. apply Z.div_le_mono; unfold HOUR_MS, DAY_MS; lia. }
apply not_true_iff_false in Hs'.
assert (s - HOUR_MS < dst_start z y * DAY_MS + 2 * HOUR_MS - standard_offset_ms z) as H3.
{ apply Z.nle_gt. intros H3. apply Hs', is_dst_spec; [done|]. rewrite E. split_and!; [done|done|]. unfold HOUR_MS in *. lia. }
unfold s, HOUR_MS in *. lia.
Qed.

(** A wall time resolves to an instant of its own date. *)
Lemma local_date_at z w : civil w → local_date z (to_utc_ms z w) = w / DAY_MS.
Proof.
intros Hw. unfold local_date. destruct (to_local_at z w Hw) as [[-> _]|[[-> _]|(-> & Hs & Hs')]]; [done|done|].
destruct (gap_spec z w Hw Hs Hs') as (_ & y & Hg). set (d := dst_start z y) in *.
assert (w / DAY_MS = d ∧ (w + HOUR_MS) / DAY_MS = d) as [-> ->]; [|done].
split; symmetry; [apply Z.div_unique with (r := w - d * DAY_MS)|apply Z.div_unique with (r := w + HOUR_MS - d * DAY_MS)];
  unfold HOUR_MS, DAY_MS in *; lia.
Qed.

Lemma reading_shows z w t : civil w → civil t → to_local z t = w → to_utc_ms z w ≤ t
∧ ¬ (is_dst z (w - standard_offset_ms z) = true ∧ is_dst z (w - standard_offset_ms z - HOUR_MS) = false).
Proof.
intros Hw Ht H. rewrite to_local_civil in H by done. unfold offset_ms in H.
destruct (is_dst z t) eqn:Et; subst w.
- replace (t + (standard_offset_ms z + HOUR_MS) - standard_offset_ms z - HOUR_MS) with t by lia. split; [|by intros [_ ?]; congruence].
  destruct (to_utc_cases z (t + (standard_offset_ms z + HOUR_MS))) as [[-> _]|[_ Hd]]; [lia|].
  replace (t + (standard_offset_ms z + HOUR_MS) - standard_offset_ms z - HOUR_MS) with t in Hd by lia. congruence.
- replace (t + (standard_offset_ms z + 0) - standard_offset_ms z) with t by lia. split; [|by intros [? _]; congruence].
  destruct (to_utc_cases z (t + (standard_offset_ms z + 0))) as [[-> _]|[-> _]]; unfold HOUR_MS; lia.
Qed.

(** Wall clocks read back. An instant's local time resolves to the instant,
  or, in the hour that the end of daylight time repeats, to its earlier twin,
  which shows the same time; a wall time resolves to the first instant that
  shows it, or, in the gap of the spring switch, which no instant shows, to
  the instant an hour further on the clock. *)
Theorem wall_clocks_read_back z :
(∀ t, civil t →
   to_utc_ms z (to_local z t) = t ∨
   to_utc_ms z (to_local z t) = t - HOUR_MS ∧ to_local z (t - HOUR_MS) = to_local z t) ∧
(∀ w, civil w →
   to_local z (to_utc_ms z w) = w ∨
   in_gap z w ∧ to_local z (to_utc_ms z w) = w + HOUR_MS ∧ ∀ t, civil t → to_local z t ≠ w) ∧
(∀ w t, civil w → civil t → to_local z t = w → to_utc_ms z w ≤ t).
Proof.
split_and!.
- intros t Ht. pose proof (to_local_civil z t Ht) as Hl. unfold offset_ms in Hl.
  destruct (to_utc_cases z (to_local z t)) as [[-> Hd]|[-> Hd]]; rewrite Hl in Hd |- *; destruct (is_dst z t) eqn:Et.
  + left. lia.
  + right. split; [lia|].
    replace (t + (standard_offset_ms z + 0) - standard_offset_ms z - HOUR_MS) with (t - HOUR_MS) in Hd by lia.
    unfold to_local, offset_ms. rewrite Hd.
    replace (t - HOUR_MS + (standard_offset_ms z + HOUR_MS)) with (t + standard_offset_ms z) by lia.
    rewrite naive_utc_near; [lia|done|]. unfold standard_offset_ms, HOUR_MS, DAY_MS. destruct z; lia.
  + replace (t + (standard_offset_ms z + HOUR_MS) - standard_offset_ms z - HOUR_MS) with t in Hd by lia. congruence.
  + left. lia.
- intros w Hw. destruct (to_local_at z w Hw) as [[-> _]|[[-> _]|(H & Hs & Hs')]]; [by left|by left|].
  right. split; [by apply gap_spec|]. split; [done|]. intros t Ht E.
  destruct (reading_shows z w t Hw Ht E) as [_ Hn]. by apply Hn.
- intros w t Hw Ht E. by destruct (reading_shows z w t Hw Ht E).
Qed.

(** Dates and times well inside the calendar. *)
Definition settled (d : Z) : Prop := 3 ≤ year_of d ≤ 9997.

Lemma settled_civil d r : settled d → -19 * DAY_MS ≤ r ≤ 19 * DAY_MS → civil (d * DAY_MS + r).
Proof.
intros Hd Hr. unfold civil. unfold settled in Hd.
destruct (day_shift (d * DAY_MS) r) as (j & Hj & ->); [unfold DAY_MS in *; lia|].
rewrite Z.div_mul by (unfold DAY_MS; lia). pose proof (year_near d j ltac:(lia) Hj). lia.
Qed.

Definition wall_ms (hour minute : Z) : Z := Z.min hour 23 * HOUR_MS + Z.min minute 59 * 60000.
Lemma wall_ms_range h m : 0 ≤ h → 0 ≤ m → 0 ≤ wall_ms h m < DAY_MS.
Proof. unfold wall_ms, HOUR_MS, DAY_MS. lia. Qed.

Lemma at_date z d h m : settled d → 0 ≤ h → 0 ≤ m →
local_date z (at_ z d h m) = d ∧ civil (at_ z d h m).
Proof.
intros Hd Hh Hm. pose proof (wall_ms_range h m Hh Hm) as Hw. unfold at_.
replace (d * DAY_MS + Z.min h 23 * HOUR_MS + Z.min m 59 * 60000) with (d * DAY_MS + wall_ms h m) by (unfold wall_ms; lia).
split.
- rewrite local_date_at by (apply settled_civil; [done|unfold DAY_MS in *; lia]).
  symmetry. apply Z.div_unique with (r := wall_ms h m); lia.
- destruct (to_utc_cases z (d * DAY_MS + wall_ms h m)) as [[-> _]|[-> _]].
  + replace (d * DAY_MS + wall_ms h m - standard_offset_ms z - HOUR_MS)
      with (d * DAY_MS + (wall_ms h m - standard_offset_ms z - HOUR_MS)) by lia.
    apply settled_civil; [done|]. unfold standard_offset_ms, HOUR_MS, DAY_MS in *. destruct z; lia.
  + replace (d * DAY_MS + wall_ms h m - standard_offset_ms z)
      with (d * DAY_MS + (wall_ms h m - standard_offset_ms z)) by lia.
    apply settled_civil; [done|]. unfold standard_offset_ms, HOUR_MS, DAY_MS in *. destruct z; lia.
Qed.

Lemma at_increasing z d h m d' h' m' :
settled d → settled d' → 0 ≤ h → 0 ≤ m → 0 ≤ h' → 0 ≤ m' → d < d' → at_ z d h m < at_ z d' h' m'.
Proof.
intros Hd Hd' Hh Hm Hh' Hm' Hlt. destruct (at_date z d h m Hd Hh Hm) as [E1 C1], (at_date z d' h' m' Hd' Hh' Hm') as [E2 C2].
apply Z.nle_gt. intros Hle. pose proof (local_date_mono z _ _ C2 C1 Hle). lia.
Qed.

(** The calendar of a zone is a calendar: local dates never go back, not
  over a switch either; a wall time of a date lands on that date, also when
  the gap moves it; so the wall times of a later date come later. *)
Theorem local_dates_never_go_back z :
(∀ t t', civil t → civil t' → t ≤ t' → local_date z t ≤ local_date z t') ∧
(∀ d h m, settled d → 0 ≤ h → 0 ≤ m → local_date z (at_ z d h m) = d) ∧
(∀ d h m d' h' m', settled d → settled d' → 0 ≤ h → 0 ≤ m → 0 ≤ h' → 0 ≤ m' →
   d < d' → at_ z d h m < at_ z d' h' m').
Proof.
split_and!.
- apply local_date_mono.
- intros d h m Hd Hh Hm. by apply at_date.
- apply at_increasing.
Qed.

(** Daylight time follows the rule of the zone, every year of the calendar:
  from 02:00 standard time of the second Sunday of March (New York) or the
  last one (Paris), to 01:00 standard time of the first Sunday of November
  or 02:00 of the last of October; the search of the last Sunday ends. *)
Theorem daylight_time_follows_the_rule z t y :
1 ≤ y ≤ 9999 → year_of (t / DAY_MS) = y →
∃ march april november s e,
  from_ymd1 y 3 = Some march ∧ from_ymd1 y 4 = Some april ∧ from_ymd1 y 11 = Some november ∧
  weekday s = SUN ∧ weekday e = SUN ∧
  match z with
  | NewYork => march + 7 ≤ s < march + 14 ∧ november ≤ e < november + 7
  | _ => april - 7 ≤ s < april ∧ november - 7 ≤ e < november
  end ∧
  (is_dst z t = true ↔ z ≠ Utc
    ∧ s * DAY_MS + 2 * HOUR_MS ≤ t + standard_offset_ms z < e * DAY_MS + end_hour z).
Proof.
intros Hy E. destruct (year_frame y Hy) as (m & Hf & Hm & _).
destruct (edges_in_year z y m Hy Hf Hm) as (_ & _ & Hws & Hwe).
exists (m 3), (m 4), (m 11), (dst_start z y), (dst_end z y).
split_and!; [apply Hf; lia..|done|done| |].
- assert (∀ k, 1 ≤ k ≤ 11 → m (k + 1) - 7 ≤ last_weekday y k SUN < m (k + 1)) as Hl.
  { intros k Hk. unfold last_weekday. destruct (Z.eqb_spec k 12); [lia|]. rewrite Hf by lia.
    destruct (back_to_spec SUN (m (k + 1) - 1)) as [_ H3]; [done|]. cbn [default] in *. unfold id. lia. }
  assert (∀ k n, 1 ≤ k ≤ 12 → 1 ≤ n ≤ 4 → m k + 7 * (n - 1) ≤ nth_weekday y k SUN n < m k + 7 * n) as Hn.
  { intros k n Hk Hn. unfold nth_weekday. rewrite (Z.mod_small n) by lia.
    destruct (nth_exists y k SUN n (m k)) as (d & -> & Hw & Hd); [done|done|done|done|by apply Hf|]. done. }
  pose proof (Hl 3 ltac:(lia)). pose proof (Hl 10 ltac:(lia)). pose proof (Hn 3 2 ltac:(lia) ltac:(lia)).
  pose proof (Hn 11 1 ltac:(lia) ltac:(lia)). change (3 + 1) with 4 in *. change (10 + 1) with 11 in *.
  destruct z; cbn [dst_start dst_end]; lia.
- rewrite is_dst_spec by lia. rewrite E. split; intros (Hz & H1 & H2); (split; [done|]); lia.
Qed.
End laws.

(** ** The Gregorian calendar *)

Definition leap_days (y : Z) : Z := (y - 1) / 4 - (y - 1) / 100 + (y - 1) / 400.
Definition year_first (y : Z) : Z := 365 * (y - 1970) + leap_days y - 477.
Definition is_leap (y : Z) : bool := (y mod 4 =? 0) && (negb (y mod 100 =? 0) || (y mod 400 =? 0)).
Definition days_before (m : Z) : Z :=
  nth (Z.to_nat (m - 1)) [0; 31; 59; 90; 120; 151; 181; 212; 243; 273; 304; 334] 0.
Definition month_first (y m : Z) : Z :=
  year_first y + days_before m + (if is_leap y && (2 <? m) then 1 else 0).
Definition greg_year (d : Z) : Z :=
  let g := 400 * (d + 719162) / 146097 + 1 in
  if d <? year_first g then g - 1 else if year_first (g + 1) <=? d then g + 1 else g.
Definition month_next (y m : Z) : Z := if m =? 12 then year_first (y + 1) else month_first y (m + 1).
Definition greg_nth (y m w n : Z) : option Z :=
  let first := month_first y m in
  let d := first + (w - weekday first) mod 7 + 7 * (n - 1) in
  if (1 <=? n) && (d <? month_next y m) then Some d else None.

#[local] Instance gregorian : Calendar := {
  date_ok d := in_range (year_first (-262143)) (year_first 262143 - 1) d;
  year_of := greg_year;
  from_ymd1 y m := if in_range 1 12 m && in_range (-262143) 262142 y then Some (month_first y m) else None;
  from_weekday_of_month := greg_nth;
}.

Lemma div_step y k : 0 < k → y / k - (y - 1) / k = if y mod k =? 0 then 1 else 0.
Proof.
  intros Hk. pose proof (Z.div_mod y k ltac:(lia)) as H. pose proof (Z.mod_pos_bound y k Hk).
  destruct (Z.eqb_spec (y mod k) 0) as [E|E].
  - assert ((y - 1) / k = y / k - 1); [|lia]. symmetry. apply Z.div_unique with (r := k - 1); lia.
  - assert ((y - 1) / k = y / k); [|lia]. symmetry. apply Z.div_unique with (r := y mod k - 1); lia.
Qed.

Lemma year_first_next y : year_first (y + 1) = year_first y + 365 + (if is_leap y then 1 else 0).
Proof.
  unfold year_first, leap_days. replace (y + 1 - 1) with y by lia.
  pose proof (div_step y 4 ltac:(lia)) as H4. pose proof (div_step y 100 ltac:(lia)) as H100.
  pose proof (div_step y 400 ltac:(lia)) as H400.
  assert (y mod 400 = 0 → y mod 100 = 0) as D1 by (intros; Z.to_euclidean_division_equations; lia).
  assert (y mod 100 = 0 → y mod 4 = 0) as D2 by (intros; Z.to_euclidean_division_equations; lia).
  unfold is_leap. destruct (Z.eqb_spec (y mod 4) 0), (Z.eqb_spec (y mod 100) 0), (Z.eqb_spec (y mod 400) 0);
    cbn [andb orb negb]; lia.
Qed.

Lemma year_first_mono y z : y < z → year_first y + 365 ≤ year_first z.
Proof.
  intros H. replace z with (y + 1 + Z.of_nat (Z.to_nat (z - y - 1))) by lia.
  generalize (Z.to_nat (z - y - 1)). intros n. induction n as [|n IH].
  - rewrite Z.add_0_r, year_first_next. destruct (is_leap y); lia.
  - replace (y + 1 + Z.of_nat (S n)) with (y + 1 + Z.of_nat n + 1) by lia. rewrite year_first_next. destruct (is_leap _); lia.
Qed.

Lemma greg_year_spec d : year_first (greg_year d) ≤ d < year_first (greg_year d + 1).
Proof.
  unfold greg_year. set (g := 400 * (d + 719162) / 146097 + 1).
  pose proof (Z.div_mod (400 * (d + 719162)) 146097 ltac:(lia)) as Hg.
  pose proof (Z.mod_pos_bound (400 * (d + 719162)) 146097 ltac:(lia)) as Hr.
  assert (∀ y, 146097 * (y - 1) - 699 ≤ 400 * (year_first y + 719162) ≤ 146097 * (y - 1) + 396) as Hb.
  { intros y. unfold year_first, leap_days.
    pose proof (Z.div_mod (y - 1) 4 ltac:(lia)). pose proof (Z.mod_pos_bound (y - 1) 4 ltac:(lia)).
    pose proof (Z.div_mod (y - 1) 100 ltac:(lia)). pose proof (Z.mod_pos_bound (y - 1) 100 ltac:(lia)).
    pose proof (Z.div_mod (y - 1) 400 ltac:(lia)). pose proof (Z.mod_pos_bound (y - 1) 400 ltac:(lia)). lia. }
  pose proof (Hb (g - 1)) as H1. pose proof (Hb (g + 2)) as H2. unfold g in H1, H2. cbv zeta.
  destruct (Z.ltb_spec d (year_first g)) as [Hl|Hl].
  - replace (g - 1 + 1) with g by lia. split; [|done]. unfold g. lia.
  - destruct (Z.leb_spec (year_first (g + 1)) d) as [Hh|Hh]; [|done].
    split; [done|]. replace (g + 1 + 1) with (g + 2) by lia. unfold g. lia.
Qed.

Lemma greg_year_iff d y : greg_year d = y ↔ year_first y ≤ d < year_first (y + 1).
Proof.
  pose proof (greg_year_spec d) as H. split; [by intros <-|]. intros Hy. set (g := greg_year d) in *.
  destruct (Z.lt_trichotomy g y) as [Hlt|[E|Hgt]]; [|done|].
  - destruct (Z.eq_dec (g + 1) y) as [<-|]; [lia|]. pose proof (year_first_mono (g + 1) y ltac:(lia)). lia.
  - destruct (Z.eq_dec (y + 1) g) as [<-|]; [lia|]. pose proof (year_first_mono (y + 1) g ltac:(lia)). lia.
Qed.

Definition month_days (leap : bool) (m : Z) : Z :=
  (if m =? 12 then 365 + (if leap then 1 else 0) else days_before (m + 1) + (if leap && (2 <? m + 1) then 1 else 0))
  - (days_before m + (if leap && (2 <? m) then 1 else 0)).
Lemma all_months : forallb (λ l, forallb (λ m, in_range 28 31 (month_days l m)) (seqZ 1 12)) [true; false] = true.
Proof. vm_compute. reflexivity. Qed.
Lemma month_days_range l m : 1 ≤ m ≤ 12 → 28 ≤ month_days l m ≤ 31.
Proof.
  intros Hm. pose proof all_months as H. rewrite forallb_forall in H.
  assert (forallb (λ m, in_range 28 31 (month_days l m)) (seqZ 1 12) = true) as Hl by (apply H; destruct l; cbn; auto).
  rewrite forallb_forall in Hl. apply in_range_spec, Hl, list_elem_of_In, elem_of_seqZ. lia.
Qed.
Lemma month_lengths y m : 1 ≤ m ≤ 12 → 28 ≤ month_next y m - month_first y m ≤ 31.
Proof.
  intros Hm. replace (month_next y m - month_first y m) with (month_days (is_leap y) m); [by apply month_days_range|].
  unfold month_next, month_first, month_days. rewrite year_first_next. destruct (m =? 12); lia.
Qed.

#[local] Instance gregorian_laws : CalendarLaws gregorian.
Proof.
  assert (∀ y m, 1 ≤ y ≤ 9999 → 1 ≤ m ≤ 12 → from_ymd1 (Calendar := gregorian) y m = Some (month_first y m)) as Hf.
  { intros y m Hy Hm. cbn. assert (in_range 1 12 m && in_range (-262143) 262142 y = true) as ->; [|done].
    apply andb_true_intro. rewrite !in_range_spec. lia. }
  assert (∀ y, month_first y 12 + 31 = year_first (y + 1)) as Hdec.
  { intros y. rewrite year_first_next. unfold month_first.
    change (days_before 12) with 334. change (2 <? 12) with true. rewrite andb_true_r. lia. }
  assert (∀ y, month_first y 1 = year_first y) as Hjan.
  { intros y. unfold month_first. change (days_before 1) with 0. change (2 <? 1) with false. rewrite andb_false_r. lia. }
  split.
  - intros y m Hy Hm. eexists. by apply Hf.
  - intros y m a b Hy Hm. rewrite !Hf by lia. intros [= <-] [= <-].
    pose proof (month_lengths y m ltac:(lia)) as H. unfold month_next in H. destruct (Z.eqb_spec m 12); lia.
  - intros y a d Hy. rewrite Hf by lia. intros [= <-] H%greg_year_iff. rewrite Hjan. lia.
  - intros y a d Hy. rewrite Hf by lia. intros [= <-] H%greg_year_iff. rewrite Hdec. lia.
  - intros y a b d Hy. rewrite !Hf by lia. intros [= <-] [= <-]. rewrite Hjan, Hdec. apply greg_year_iff.
  - intros d e Hle. cbn. apply Z.nlt_ge. intros Hlt. pose proof (greg_year_spec d). pose proof (greg_year_spec e).
    destruct (Z.eq_dec (greg_year e + 1) (greg_year d)) as [E|]; [rewrite E in *; lia|].
    pose proof (year_first_mono (greg_year e + 1) (greg_year d) ltac:(lia)). lia.
  - intros y m w n a Hy Hm Hw Hn. rewrite Hf by done. intros [= <-]. cbn. unfold greg_nth. cbv zeta.
    set (f := month_first y m). pose proof (month_lengths y m Hm) as Hl. fold f in Hl.
    pose proof (Z.mod_pos_bound (w - weekday f) 7 ltac:(lia)) as Hr.
    exists (f + (w - weekday f) mod 7 + 7 * (n - 1)).
    assert ((1 <=? n) && (f + (w - weekday f) mod 7 + 7 * (n - 1) <? month_next y m) = true) as ->.
    { apply andb_true_intro. rewrite Z.leb_le, Z.ltb_lt. lia. }
    split; [done|]. split; [|lia]. unfold weekday in *. Z.to_euclidean_division_equations. lia.
  - intros d Hd. change (year_of d) with (greg_year d) in Hd. pose proof (greg_year_spec d). apply in_range_spec.
    pose proof (year_first_mono (-262143) (greg_year d) ltac:(lia)).
    pose proof (year_first_mono (greg_year d + 1) 262143 ltac:(lia)). lia.
Qed.

(** ** Concrete times *)

(** 2026-11-01 05:30 UTC is 01:30 EDT; an hour later it is 01:30 EST. *)
Definition nov_1 : Z := 1793511000000.
Example overlap : to_local NewYork nov_1 = to_local NewYork (nov_1 + HOUR_MS)
  ∧ to_utc_ms NewYork (to_local NewYork (nov_1 + HOUR_MS)) = nov_1.
Proof. vm_compute. done. Qed.
(** 2026-03-08 02:30 in New York is in the gap: 03:30 EDT, 07:30 UTC. *)
Example gap : at_ NewYork (year_first 2026 + 66) 2 30 = (year_first 2026 + 66) * DAY_MS + 7 * HOUR_MS + 1800000.
Proof. vm_compute. done. Qed.

Lemma daylight_time_witness :
  is_dst NewYork nov_1 = true ∧
  ∃ s e, weekday s = SUN ∧ weekday e = SUN ∧
    (is_dst NewYork nov_1 = true ↔ NewYork ≠ Utc
      ∧ s * DAY_MS + 2 * HOUR_MS ≤ nov_1 + standard_offset_ms NewYork < e * DAY_MS + end_hour NewYork).
Proof.
  split; [vm_compute; reflexivity|].
  destruct (daylight_time_follows_the_rule (L := gregorian_laws) NewYork nov_1 2026) as (a & b & c & s & e & _ & _ & _ & Hs & He & _ & H).
  - lia.
  - vm_compute. reflexivity.
  - exists s, e. split; [exact Hs|]. split; [exact He|exact H].
Defined.

Lemma wall_clocks_read_back_witness :
  civil nov_1 ∧ (to_utc_ms NewYork (to_local NewYork nov_1) = nov_1 ∨
    to_utc_ms NewYork (to_local NewYork nov_1) = nov_1 - HOUR_MS
    ∧ to_local NewYork (nov_1 - HOUR_MS) = to_local NewYork nov_1).
Proof.
  assert (civil nov_1) as H by (vm_compute; split; done). split; [exact H|].
  exact (proj1 (wall_clocks_read_back (L := gregorian_laws) NewYork) nov_1 H).
Defined.
