(* ===== verification/Schedule.v ===== *)
(** * Feed schedules ([src/src/domain/schedule.rs], [time.rs])

    When a feed fires: clock ticks, windows with their own grid, a base grid
    outside the windows, and the earliest of them after an instant; the readers
    of clock texts. Instants are i64 milliseconds; additions the code saturates
    saturate here, the others stay far inside for the intervals a schedule may
    have (a week at most). *)

From Stdlib Require Import Ascii String.
From S2P Require Import Prelude.
From S2P Require Import Ordered.
From S2P Require Import Text.
From S2P Require Import Bytes.
From S2P Require Import Tz.

#[local] Open Scope string_scope.
#[local] Open Scope list_scope.
#[local] Open Scope Z_scope.

Definition DAY_MIN : Z := 1440.
Definition SCAN_BACK_DAYS : Z := 1.
Definition SCAN_AHEAD_DAYS : Z := 8.
Definition MAX_BASE_STEPS : nat := 1000.
Definition MIN_GRACE_MS : Z := 60000.
Definition CLOCK_STEP_GRACE_MS : Z := 1000.
Definition MAX_EVERY_SECS : Z := 7 * 86400.

Definition saturating_add (a b : Z) : Z := Z.max i64_min (Z.min i64_max (a + b)).

(** A set of weekdays, a bit each from Monday on. *)
Definition DAYS_ALL : Z := 127.
Definition DAYS_NONE : Z := 0.
Definition days_with (days w : Z) : Z := Z.lor days (Z.shiftl 1 w).
Definition days_contain (days w : Z) : bool := negb (Z.land days (Z.shiftl 1 w) =? 0).

Record Window : Type := mkWindow {
  w_days : Z;
  from : Z;
  to : Z;
  w_every_ms : Z;
}.

Record AtTick : Type := mkTick {
  t_days : Z;
  minute : Z;
}.

Record Schedule : Type := mkSchedule {
  zone : Zone;
  every_ms : option Z;
  windows : list Window;
  ats : list AtTick;
}.

Record Fire : Type := mkFire {
  at_ms : Z;
  f_every_ms : option Z;
}.

Definition list_max (l : list Z) : option Z := fold_left (λ m x, Some (match m with Some y => Z.max y x | None => x end)) l None.

Definition longest_interval_ms (s : Schedule) : option Z :=
  list_max (option_list (every_ms s) ++ map w_every_ms (windows s)).

(** [((t - start) + every - 1) / every * every] for [t > start]. *)
Definition grid_after (start every t : Z) : Z :=
  if t <=? start then start else saturating_add start (Z.quot (t - start + every - 1) every * every).

(** Smallest multiple of [every] at or after [t]. *)
Definition align_up (t every : Z) : Z :=
  let rem := t mod every in
  if rem =? 0 then t else saturating_add t (every - rem).

Section schedule.
Context {C : Calendar}.

Definition succ_opt (d : Z) : option Z := if date_ok (d + 1) then Some (d + 1) else None.
Definition pred_opt (d : Z) : option Z := if date_ok (d - 1) then Some (d - 1) else None.

(** A minute past the day is looked up on the days after it: one call per day. *)
Fixpoint local_ms_go (fuel : nat) (z : Zone) (date minute : Z) : option Z :=
match fuel with
| O => None
| S fuel =>
    if DAY_MIN <=? minute then date' ← succ_opt date; local_ms_go fuel z date' (minute - DAY_MIN)
    else Some (at_ z date (minute / 60) (minute mod 60))
end.
Definition local_ms (z : Zone) (date minute : Z) : option Z :=
local_ms_go (S (Z.to_nat (minute / DAY_MIN))) z date minute.

Definition span (w : Window) (z : Zone) (date : Z) : option (Z * Z) :=
if negb (days_contain (w_days w) (weekday date)) then None
else
  start ← local_ms z date (from w);
  end_date ← (if from w <? to w then Some date else succ_opt date);
  end_ ← local_ms z end_date (to w);
  if start <? end_ then Some (start, end_) else None.

(** Local dates from a day before [t]'s to eight after it. *)
Definition dates_around (z : Zone) (t : Z) : list Z :=
omap (λ k, let d := local_date z t + k in if date_ok d then Some d else None)
  (seqZ (- SCAN_BACK_DAYS) (SCAN_BACK_DAYS + SCAN_AHEAD_DAYS + 1)).

Definition next_at_tick (z : Zone) (tick : AtTick) (t : Z) : option Z :=
min_by Z.compare
  (List.filter (λ at_, t <=? at_)
     (omap (λ d, local_ms z d (minute tick))
        (List.filter (λ d, days_contain (t_days tick) (weekday d)) (dates_around z t)))).

Definition next_in_window (z : Zone) (w : Window) (t : Z) : option Z :=
every ← try_i64 (w_every_ms w);
let every := Z.max every 1 in
min_by Z.compare
  (omap (λ p : Z * Z, let at_ := grid_after (fst p) every t in if at_ <? snd p then Some at_ else None)
     (omap (span w z) (dates_around z t))).

(** End of the latest-ending occurrence of a window that contains [t]. *)
Definition window_end_at (s : Schedule) (t : Z) : option Z :=
let today := local_date (zone s) t in
let days := option_list (pred_opt today) ++ [today] in
list_max
  (map snd
     (List.filter (λ p : Z * Z, (fst p <=? t) && (t <? snd p))
        (List.concat (map (λ w, omap (span w (zone s)) days) (windows s))))).

Fixpoint base_loop (steps : nat) (s : Schedule) (every horizon at_ : Z) : option Z :=
match steps with
| O => None
| S steps =>
    if horizon <? at_ then None
    else
      match window_end_at s at_ with
      | None => Some at_
      | Some end_ => base_loop steps s every horizon (align_up end_ every)
      end
end.

(** First instant of the base grid at or after [t] outside every window. *)
Definition next_on_base (s : Schedule) (every t : Z) : option Z :=
every ← try_i64 every;
let every := Z.max every 1 in
let horizon := saturating_add t (SCAN_AHEAD_DAYS * DAY_MS) in
base_loop MAX_BASE_STEPS s every horizon (align_up t every).

(** Keep the earlier fire; on a tie the at-tick, then the finer grid. *)
Definition rank (f : Fire) : Z * Z :=
(at_ms f, match f_every_ms f with Some e => Z.min u64_max (e + 1) | None => 0 end).
Definition rank_cmp (f g : Fire) : comparison := pair_cmp Z.compare Z.compare (rank f) (rank g).
Definition offer (best : option Fire) (f : Fire) : option Fire :=
match best with
| None => Some f
| Some b => match rank_cmp f b with Lt => Some f | _ => Some b end
end.

(** The instant to look from: a last fire past the grace is a clock stepped back. *)
Definition fire_from (now_ms : Z) (last_fire_ms : option Z) : Z :=
match last_fire_ms with
| Some last =>
    let stepped_back := saturating_add now_ms CLOCK_STEP_GRACE_MS <? last in
    let last := if stepped_back then now_ms else last in
    Z.max now_ms (saturating_add last 1)
| None => now_ms
end.

(** What the ticks, the windows and the base offer, in that order. *)
Definition offers (s : Schedule) (t : Z) : list Fire :=
omap (λ tick, (λ a, mkFire a None) <$> next_at_tick (zone s) tick t) (ats s)
++ omap (λ w, (λ a, mkFire a (Some (w_every_ms w))) <$> next_in_window (zone s) w t) (windows s)
++ match every_ms s with
   | Some every => option_list ((λ a, mkFire a (Some every)) <$> next_on_base s every t)
   | None => []
   end.

Definition next_fire (s : Schedule) (now_ms : Z) (last_fire_ms : option Z) : option Fire :=
fold_left offer (offers s (fire_from now_ms last_fire_ms)) None.
End schedule.

Definition late_grace_ms (fire : Fire) : Z :=
  match f_every_ms fire with
  | None => MIN_GRACE_MS
  | Some e => Z.max (Z.min e i64_max) MIN_GRACE_MS
  end.

(** ** Clock texts *)

Definition parse_day (s : string) : option Z :=
  let s := of_bytes (map to_ascii_lowercase (bytes (trim s))) in
  (fix find (i : Z) (names : list string) : option Z :=
     match names with
     | [] => None
     | n :: names => if String.eqb s n then Some i else find (i + 1) names
     end) 0 ["mon"; "tue"; "wed"; "thu"; "fri"; "sat"; "sun"].

(** [str::parse::<u32>]: an optional plus, digits, in range. *)
Definition parse_u32 (s : string) : option Z :=
  let s := match s with String "+" r => r | _ => s end in
  if negb (str_is_empty s) && str_forall is_ascii_digit s then try_u32 (parse_dec 0 s) else None.

Definition parse_hm (s : string) : option Z :=
  '(h, m) ← split_once ":" (trim s);
  if negb (str_len h =? 2)%nat || negb (str_len m =? 2)%nat then None
  else
    h ← parse_u32 h;
    m ← parse_u32 m;
    if (h <? 24) && (m <? 60) then Some (h * 60 + m) else None.

Definition parse_clock (s : string) (allow_end : bool) : option Z :=
  if allow_end && String.eqb (trim s) "24:00" then Some DAY_MIN else parse_hm s.

Definition parse_at (s : string) : option AtTick :=
  '(day, hm) ← split_once " " (trim s);
  days ← (if eq_ignore_ascii_case (bytes day) (bytes "daily") then Some DAYS_ALL
          else w ← parse_day day; Some (days_with DAYS_NONE w));
  m ← parse_clock (trim hm) false;
  Some (mkTick days m).

Example clock_texts :
  parse_at "Sun 18:00" = Some (mkTick 64 1080) ∧ parse_at " daily 09:30 " = Some (mkTick 127 570)
  ∧ parse_clock "24:00" true = Some 1440 ∧ parse_clock "24:00" false = None ∧ parse_hm "9:30" = None.
Proof. vm_compute. done. Qed.
