(* ===== verification/ScheduleProps.v ===== *)
(** * Feed schedules: the next fire is the earliest one

    What a schedule fires at, as a set of instants over all dates, and that
    [next_fire] finds the first of them: its scan of dates is wide enough, its
    walk past windows ends, and nothing already fired fires again. *)

From Stdlib Require Import Ascii String.
From S2P Require Import Prelude.
From S2P Require Import Ordered.
From S2P Require Import Text.
From S2P Require Import Tz.
From S2P Require Import TzProps.
From S2P Require Import Schedule.

#[local] Open Scope list_scope.
#[local] Open Scope Z_scope.

(** ** Extrema *)

Lemma list_max_go l m :
  fold_left (λ m x, Some (match m with Some y => Z.max y x | None => x end)) l (Some m)
  = Some (fold_left Z.max l m).
Proof. revert m. induction l as [|x l IH]; intros m; [done|]. cbn. apply IH. Qed.

Lemma list_max_spec l :
  match list_max l with
  | Some m => m ∈ l ∧ ∀ x, x ∈ l → x ≤ m
  | None => l = []
  end.
Proof.
  destruct l as [|a l]; [done|]. unfold list_max. cbn [fold_left]. rewrite list_max_go. revert a.
  induction l as [|x l IH]; intros a; cbn.
  - split; [by left|]. intros x [->|Hx]%elem_of_cons; [done|by apply elem_of_nil in Hx].
  - destruct (IH (Z.max a x)) as [H1 H2]. split.
    + apply elem_of_cons in H1 as [E|H1]; [|by do 2 right]. rewrite E.
      destruct (Z.max_spec a x) as [[_ ->]|[_ ->]]; [by right; left|by left].
    + intros y [->|[->|Hy]%elem_of_cons]%elem_of_cons; [| |apply H2; by right];
        (transitivity (Z.max a x); [lia|apply H2; by left]).
Qed.

Lemma Z_min_spec l m : min_by Z.compare l = Some m → m ∈ l ∧ ∀ x, x ∈ l → m ≤ x.
Proof. intros H. apply min_by_spec in H as [Hm Hl]; [|apply _]. split; [done|]. intros x Hx. by apply Z.compare_ge_iff, Hl. Qed.

#[export] Instance rank_cmp_pre : PreCmp rank_cmp.
Proof. change rank_cmp with (cmp_on rank (pair_cmp Z.compare Z.compare)). apply _. Qed.

Lemma offers_min l : fold_left offer l None = min_by rank_cmp l.
Proof.
  destruct l as [|f l]; [done|]. cbn. revert f. induction l as [|g l IH]; intros f; [done|]. cbn. rewrite <-IH.
  f_equal. unfold offer. by destruct (rank_cmp g f).
Qed.

(** ** Grids *)

Definition roomy (t : Z) : Prop := - 2 ^ 61 ≤ t ≤ 2 ^ 61.

Lemma saturating_add_roomy a b : roomy a → roomy b → saturating_add a b = a + b.
Proof. unfold roomy, saturating_add, i64_min, i64_max. lia. Qed.

(** The first instant of a grid at or after [t]. *)
Lemma grid_after_spec start every t :
  1 ≤ every ≤ 2 ^ 40 → roomy start → - 2 ^ 60 ≤ t - start ≤ 2 ^ 60 →
  ∃ k, 0 ≤ k ∧ grid_after start every t = start + k * every ∧ t ≤ grid_after start every t
    ∧ ∀ j, 0 ≤ j → t ≤ start + j * every → grid_after start every t ≤ start + j * every.
Proof.
  intros He Hs Ht. unfold grid_after. destruct (Z.leb_spec t start) as [Hle|Hgt].
  { exists 0. split; [lia|]. split; [lia|]. split; [lia|]. intros j Hj _. nia. }
  set (q := Z.quot (t - start + every - 1) every).
  assert (0 ≤ q ∧ q * every ≤ t - start + every - 1 < (q + 1) * every) as (Hq & Hq1 & Hq2).
  { unfold q. rewrite Z.quot_div_nonneg by lia. pose proof (Z.div_mod (t - start + every - 1) every ltac:(lia)).
    pose proof (Z.mod_pos_bound (t - start + every - 1) every ltac:(lia)).
    split; [apply Z.div_pos; lia|]. lia. }
  rewrite saturating_add_roomy; [|done|unfold roomy; lia].
  exists q. split; [lia|]. split; [lia|]. split; [lia|]. intros j Hj Hjt. assert (q ≤ j); [|nia]. nia.
Qed.

Lemma align_up_spec t every :
  1 ≤ every ≤ 2 ^ 40 → - 2 ^ 60 ≤ t ≤ 2 ^ 60 →
  t ≤ align_up t every < t + every ∧ (every | align_up t every) ∧ ∀ x, (every | x) → t ≤ x → align_up t every ≤ x.
Proof.
  intros He Ht. unfold align_up. pose proof (Z.mod_pos_bound t every ltac:(lia)) as Hr.
  pose proof (Z.div_mod t every ltac:(lia)) as Hd. destruct (Z.eqb_spec (t mod every) 0) as [E|E].
  - split; [lia|]. split; [exists (t / every); lia|done].
  - rewrite saturating_add_roomy by (unfold roomy; lia). split; [lia|]. split; [exists (t / every + 1); lia|].
    intros x [j ->] Hx. assert (t / every < j); [|nia]. nia.
Qed.

(** ** What a schedule fires at *)

Definition window_ok (w : Window) : Prop :=
  0 ≤ from w < DAY_MIN ∧ 0 ≤ to w ≤ DAY_MIN ∧ 1 ≤ w_every_ms w ≤ MAX_EVERY_SECS * 1000.
Definition tick_ok (t : AtTick) : Prop := 0 ≤ minute t < DAY_MIN.
(** The schedules configuration makes; the walk past windows is long enough for
    ninety of them. *)
Definition schedule_ok (s : Schedule) : Prop :=
  Forall window_ok (windows s) ∧ Forall tick_ok (ats s) ∧ (length (windows s) ≤ 90)%nat
  ∧ ∀ e, every_ms s = Some e → 1 ≤ e ≤ MAX_EVERY_SECS * 1000.

Section fires.
Context {C : Calendar} {L : CalendarLaws C}.

(** Dates well inside the calendar's years. *)
Definition inside (d : Z) : Prop := 4 ≤ year_of d ≤ 9996.

(** Ticks on their days; windows on their grid; the base grid outside every
  occurrence of every window. *)
Inductive fires (s : Schedule) : Fire → Prop :=
| fire_tick tick d a :
    tick ∈ ats s → inside d → days_contain (t_days tick) (weekday d) = true →
    local_ms (zone s) d (minute tick) = Some a → fires s (mkFire a None)
| fire_window w d start end_ k :
    w ∈ windows s → inside d → span w (zone s) d = Some (start, end_) →
    0 ≤ k → start + k * w_every_ms w < end_ →
    fires s (mkFire (start + k * w_every_ms w) (Some (w_every_ms w)))
| fire_base every a :
    every_ms s = Some every → (every | a) →
    (∀ w d start end_, w ∈ windows s → inside d → span w (zone s) d = Some (start, end_) → ¬ (start ≤ a < end_)) →
    fires s (mkFire a (Some every)).

(** Instants the calendar and i64 leave room around. *)
Definition live (t : Z) : Prop := 5 ≤ year_of (t / DAY_MS) ≤ 9995 ∧ - 2 ^ 59 ≤ t ≤ 2 ^ 59.

Lemma inside_near d k : 5 ≤ year_of d ≤ 9995 → -20 ≤ k ≤ 20 → inside (d + k).
Proof. intros Hd Hk. pose proof (year_near (C := C) d k ltac:(lia) Hk). unfold inside. lia. Qed.
Lemma inside_settled d k : inside d → -20 ≤ k ≤ 20 → settled (d + k).
Proof. unfold inside. intros Hd Hk. pose proof (year_near (C := C) d k ltac:(lia) Hk). unfold settled. lia. Qed.
Lemma inside_settled0 d : inside d → settled d.
Proof. unfold inside, settled. lia. Qed.

Lemma live_civil t : live t → civil t.
Proof. unfold live, civil. lia. Qed.

(** Today is within a day of the UTC date. *)
Lemma today_near z t : live t → ∃ j, -1 ≤ j ≤ 1 ∧ local_date z t = t / DAY_MS + j.
Proof.
intros Ht. unfold local_date. rewrite to_local_civil by (by apply live_civil).
pose proof (offset_small z t) as Ho. exists ((t + offset_ms z t) / DAY_MS - t / DAY_MS). split; [|lia].
unfold HOUR_MS, DAY_MS in *. clear Ht. revert Ho. generalize (offset_ms z t). intros o Ho.
Z.to_euclidean_division_equations. lia.
Qed.

Lemma today_inside z t k : live t → -15 ≤ k ≤ 15 → inside (local_date z t + k).
Proof.
intros Ht Hk. destruct (today_near z t Ht) as (j & Hj & ->).
replace (t / DAY_MS + j + k) with (t / DAY_MS + (j + k)) by lia. apply inside_near; [apply Ht|lia].
Qed.

Lemma inside_date_ok d : inside d → date_ok d = true.
Proof. unfold inside. intros H. apply dates_exist. lia. Qed.

Lemma dates_around_in z t d :
live t → d ∈ dates_around z t ↔ local_date z t - 1 ≤ d ≤ local_date z t + 8.
Proof.
intros Ht. unfold dates_around, SCAN_BACK_DAYS, SCAN_AHEAD_DAYS. rewrite list_elem_of_omap. cbv zeta. split.
- intros (k & Hk%elem_of_seqZ & H). destruct (date_ok _); [|done]. injection H as <-. lia.
- intros Hd. exists (d - local_date z t). rewrite elem_of_seqZ. split; [lia|].
  replace (local_date z t + (d - local_date z t)) with d by lia.
  rewrite inside_date_ok; [done|]. replace d with (local_date z t + (d - local_date z t)) by lia. apply today_inside; [done|lia].
Qed.

(** ** Wall times of a date *)

(** The date a minute of [d] falls on. *)
Definition minute_date (d m : Z) : Z := if m =? DAY_MIN then d + 1 else d.

Lemma local_ms_spec z d m : settled d → settled (minute_date d m) → 0 ≤ m ≤ DAY_MIN →
∃ r, 0 ≤ r < DAY_MS ∧ local_ms z d m = Some (to_utc_ms z (minute_date d m * DAY_MS + r)).
Proof.
intros Hs Hs1 Hm. unfold local_ms, minute_date, DAY_MIN in *. cbn [local_ms_go]. unfold DAY_MIN.
destruct (Z.eqb_spec m 1440) as [->|Hne].
- change (1440 <=? 1440) with true. unfold succ_opt. rewrite dates_exist by (unfold settled in Hs1; lia).
  cbn [mbind option_bind]. change (Z.to_nat (1440 / 1440)) with 1%nat. cbn [local_ms_go].
  change (DAY_MIN <=? 1440 - 1440) with false. cbn iota. exists 0. split; [unfold DAY_MS; lia|].
  change ((1440 - 1440) / 60) with 0. change ((1440 - 1440) mod 60) with 0. unfold at_. do 2 f_equal.
  change (Z.min 0 23) with 0. change (Z.min 0 59) with 0. lia.
- destruct (Z.leb_spec 1440 m); [lia|].
  assert (0 ≤ m / 60 ∧ 0 ≤ m mod 60) as [Hh Hmm] by (split; [apply Z.div_pos; lia|apply Z.mod_pos_bound; lia]).
  exists (wall_ms (m / 60) (m mod 60)). split; [by apply wall_ms_range|]. unfold at_, wall_ms. do 2 f_equal. lia.
Qed.

(** A wall time of a date, as an instant. *)
Lemma wall_instant z d r : settled d → 0 ≤ r < DAY_MS →
civil (to_utc_ms z (d * DAY_MS + r)) ∧ local_date z (to_utc_ms z (d * DAY_MS + r)) = d.
Proof.
intros Hd Hr. split.
- destruct (to_utc_cases z (d * DAY_MS + r)) as [[-> _]|[-> _]].
  + replace (d * DAY_MS + r - standard_offset_ms z - HOUR_MS) with (d * DAY_MS + (r - standard_offset_ms z - HOUR_MS)) by lia.
    apply settled_civil; [done|]. unfold standard_offset_ms, HOUR_MS, DAY_MS in *. destruct z; lia.
  + replace (d * DAY_MS + r - standard_offset_ms z) with (d * DAY_MS + (r - standard_offset_ms z)) by lia.
    apply settled_civil; [done|]. unfold standard_offset_ms, HOUR_MS, DAY_MS in *. destruct z; lia.
- rewrite local_date_at by (apply settled_civil; [done|unfold DAY_MS in *; lia]).
  symmetry. apply Z.div_unique with (r := r); lia.
Qed.

(** Instants of scanned dates are near. *)
Lemma reading_near z t d r :
live t → local_date z t - 2 ≤ d ≤ local_date z t + 10 → 0 ≤ r < DAY_MS →
t - 20 * DAY_MS ≤ to_utc_ms z (d * DAY_MS + r) ≤ t + 20 * DAY_MS.
Proof.
intros Ht Hd Hr. destruct (today_near z t Ht) as (j & Hj & Hday). rewrite Hday in Hd.
pose proof (Z.div_mod t DAY_MS ltac:(unfold DAY_MS; lia)) as Hm. pose proof (Z.mod_pos_bound t DAY_MS ltac:(unfold DAY_MS; lia)).
destruct (to_utc_cases z (d * DAY_MS + r)) as [[-> _]|[-> _]];
  unfold standard_offset_ms, HOUR_MS, DAY_MS in *; destruct z; lia.
Qed.

Lemma span_spec w z d start end_ :
window_ok w → inside d → span w z d = Some (start, end_) →
days_contain (w_days w) (weekday d) = true ∧ start < end_
∧ ∃ r d' r', d ≤ d' ≤ d + 1 ∧ 0 ≤ r < DAY_MS ∧ 0 ≤ r' < DAY_MS
  ∧ start = to_utc_ms z (d * DAY_MS + r) ∧ end_ = to_utc_ms z (d' * DAY_MS + r').
Proof.
intros (Hf & Ht & _) Hd. pose proof (inside_settled0 d Hd) as Hs. pose proof (inside_settled d 1 Hd ltac:(lia)) as Hs1.
unfold span. destruct (days_contain _ _); [|done]. cbn [negb].
assert (minute_date d (from w) = d) as E by (unfold minute_date; destruct (Z.eqb_spec (from w) DAY_MIN); lia).
destruct (local_ms_spec z d (from w) Hs ltac:(by rewrite E) ltac:(lia)) as (r & Hr & ->). rewrite E. cbn [mbind option_bind].
set (e := if from w <? to w then Some d else succ_opt d).
assert (∃ ed, e = Some ed ∧ settled ed ∧ settled (minute_date ed (to w)) ∧ d ≤ minute_date ed (to w) ≤ d + 1)
  as (ed & -> & Hed & Hed1 & Hdd).
{ unfold e, minute_date. destruct (Z.ltb_spec (from w) (to w)).
  - exists d. destruct (Z.eqb_spec (to w) DAY_MIN); split_and!; done || lia.
  - exists (d + 1). unfold succ_opt. rewrite dates_exist by (unfold settled in Hs1; lia).
    destruct (Z.eqb_spec (to w) DAY_MIN); [lia|]. split_and!; done || lia. }
cbn [mbind option_bind].
destruct (local_ms_spec z ed (to w) Hed Hed1 Ht) as (r' & Hr' & ->). cbn [mbind option_bind].
destruct (Z.ltb_spec (to_utc_ms z (d * DAY_MS + r)) (to_utc_ms z (minute_date ed (to w) * DAY_MS + r'))) as [Hlt|]; [|done].
intros [= <- <-]. split; [done|]. split; [done|]. by exists r, (minute_date ed (to w)), r'.
Qed.

(** An occurrence lies on its date and the next one. *)
Lemma span_dates w z d start end_ x :
window_ok w → inside d → span w z d = Some (start, end_) → civil x → start ≤ x < end_ →
d ≤ local_date z x ≤ d + 1.
Proof.
intros Hw Hd Hs Hx Hin. apply span_spec in Hs as (_ & _ & r & d' & r' & Hd' & Hr & Hr' & -> & ->); [|done|done].
destruct (wall_instant z d r (inside_settled0 d Hd) Hr) as [C1 E1].
assert (settled d') as Hs'.
{ replace d' with (d + (d' - d)) by lia. apply inside_settled; [done|lia]. }
destruct (wall_instant z d' r' Hs' Hr') as [C2 E2].
pose proof (local_date_mono z _ _ C1 Hx ltac:(lia)). pose proof (local_date_mono z _ _ Hx C2 ltac:(lia)). lia.
Qed.

Lemma near_roomy t a : live t → t - 20 * DAY_MS ≤ a ≤ t + 20 * DAY_MS → roomy a ∧ - 2 ^ 60 ≤ t - a ≤ 2 ^ 60.
Proof. intros [_ Ht] Ha. unfold roomy, DAY_MS in *. lia. Qed.

(** ** Ticks *)

Lemma tick_ms z d m : inside d → 0 ≤ m < DAY_MIN →
∃ r, 0 ≤ r < DAY_MS ∧ local_ms z d m = Some (to_utc_ms z (d * DAY_MS + r)).
Proof.
intros Hd Hm. assert (minute_date d m = d) as E by (unfold minute_date; destruct (Z.eqb_spec m DAY_MIN); lia).
pose proof (inside_settled0 d Hd) as Hs. destruct (local_ms_spec z d m Hs ltac:(by rewrite E) ltac:(lia)) as (r & Hr & H).
exists r. by rewrite E in H.
Qed.

Lemma next_at_tick_sound z tick t a :
live t → next_at_tick z tick t = Some a →
t ≤ a ∧ ∃ d, inside d ∧ days_contain (t_days tick) (weekday d) = true ∧ local_ms z d (minute tick) = Some a.
Proof.
intros Ht H. apply Z_min_spec in H as [H _]. apply list_elem_of_In, filter_In in H as [H Hle].
apply list_elem_of_In, list_elem_of_omap in H as (d & Hd & Ha).
apply list_elem_of_In, filter_In in Hd as [Hd Hc]. apply list_elem_of_In, dates_around_in in Hd; [|done].
split; [by apply Z.leb_le|]. exists d. split; [|done].
replace d with (local_date z t + (d - local_date z t)) by lia. apply today_inside; [done|lia].
Qed.

Lemma next_at_tick_complete z tick t d a :
live t → tick_ok tick → inside d → days_contain (t_days tick) (weekday d) = true →
local_ms z d (minute tick) = Some a → t ≤ a → local_date z a ≤ local_date z t + 8 →
∃ b, next_at_tick z tick t = Some b ∧ b ≤ a.
Proof.
intros Ht Hk Hd Hc Ha Hle Hw.
destruct (tick_ms z d (minute tick) Hd Hk) as (r & Hr & E). rewrite Ha in E. injection E as ->.
destruct (wall_instant z d r (inside_settled0 d Hd) Hr) as [Hci Hda]. rewrite Hda in Hw.
pose proof (local_date_mono z _ _ (live_civil t Ht) Hci Hle) as Hm. rewrite Hda in Hm.
assert (to_utc_ms z (d * DAY_MS + r) ∈ List.filter (λ at_, t <=? at_)
  (omap (λ d, local_ms z d (minute tick))
     (List.filter (λ d, days_contain (t_days tick) (weekday d)) (dates_around z t)))) as Hin.
{ apply list_elem_of_In, filter_In. split; [|by apply Z.leb_le].
  apply list_elem_of_In, list_elem_of_omap. exists d. split; [|done].
  apply list_elem_of_In, filter_In. split; [|done]. apply list_elem_of_In, dates_around_in; [done|lia]. }
unfold next_at_tick. destruct (min_by Z.compare _) as [b|] eqn:Eb.
- exists b. split; [done|]. apply Z_min_spec in Eb as [_ Hb]. by apply Hb.
- apply min_by_none in Eb. rewrite Eb in Hin. by apply elem_of_nil in Hin.
Qed.

(** ** Windows *)

Lemma window_every w : window_ok w → try_i64 (w_every_ms w) = Some (w_every_ms w) ∧ Z.max (w_every_ms w) 1 = w_every_ms w.
Proof.
intros (_ & _ & He). unfold MAX_EVERY_SECS in He. split; [|lia].
apply try_range_some. split; [done|]. unfold i64_min, i64_max. lia.
Qed.

Lemma scanned_grid z w t d start end_ :
live t → window_ok w → local_date z t - 1 ≤ d ≤ local_date z t + 8 → span w z d = Some (start, end_) →
∃ k, 0 ≤ k ∧ grid_after start (w_every_ms w) t = start + k * w_every_ms w
  ∧ t ≤ grid_after start (w_every_ms w) t
  ∧ ∀ j, 0 ≤ j → t ≤ start + j * w_every_ms w → grid_after start (w_every_ms w) t ≤ start + j * w_every_ms w.
Proof.
intros Ht Hw Hd Hs.
assert (inside d) as Hi by (replace d with (local_date z t + (d - local_date z t)) by lia; apply today_inside; [done|lia]).
apply span_spec in Hs as (_ & _ & r & d' & r' & _ & Hr & _ & Es & _); [|done|done].
destruct (near_roomy t start Ht) as [H1 H2]; [rewrite Es; apply reading_near; [done|lia|done]|].
apply grid_after_spec; [|done|done]. destruct Hw as (_ & _ & He). unfold MAX_EVERY_SECS in He. lia.
Qed.

Lemma next_in_window_sound z w t a :
live t → window_ok w → next_in_window z w t = Some a →
t ≤ a ∧ ∃ d start end_ k, inside d ∧ span w z d = Some (start, end_) ∧ 0 ≤ k ∧ a = start + k * w_every_ms w ∧ a < end_.
Proof.
intros Ht Hw. destruct (window_every w Hw) as [E1 E2]. unfold next_in_window. rewrite E1. cbn [mbind option_bind]. rewrite E2.
intros H. apply Z_min_spec in H as [H _]. apply list_elem_of_omap in H as ([start end_] & Hs & H). cbn [fst snd] in H.
apply list_elem_of_omap in Hs as (d & Hd & Hs). apply dates_around_in in Hd; [|done].
destruct (scanned_grid z w t d start end_ Ht Hw Hd Hs) as (k & Hk & E & Hle & _).
destruct (Z.ltb_spec (grid_after start (w_every_ms w) t) end_) as [Hlt|]; [|done]. injection H as <-.
split; [done|]. exists d, start, end_, k. split_and!; try done.
replace d with (local_date z t + (d - local_date z t)) by lia. apply today_inside; [done|lia].
Qed.

Lemma next_in_window_complete z w t d start end_ k :
live t → window_ok w → inside d → span w z d = Some (start, end_) → 0 ≤ k →
let a := start + k * w_every_ms w in
a < end_ → civil a → t ≤ a → local_date z a ≤ local_date z t + 8 →
∃ b, next_in_window z w t = Some b ∧ b ≤ a.
Proof.
intros Ht Hw Hd Hs Hk a Hlt Hc Hle Hwi. destruct (window_every w Hw) as [E1 E2].
unfold next_in_window. rewrite E1. cbn [mbind option_bind]. rewrite E2.
assert (start ≤ a) by (destruct Hw as (_ & _ & He); unfold a; nia).
pose proof (span_dates w z d start end_ a Hw Hd Hs Hc ltac:(lia)) as Hda.
pose proof (local_date_mono z _ _ (live_civil t Ht) Hc Hle) as Hm.
assert (local_date z t - 1 ≤ d ≤ local_date z t + 8) as Hdr by lia.
destruct (scanned_grid z w t d start end_ Ht Hw Hdr Hs) as (j & _ & _ & _ & Hmin). specialize (Hmin k Hk Hle).
assert (grid_after start (w_every_ms w) t ∈
  omap (λ p : Z * Z, if grid_after (fst p) (w_every_ms w) t <? snd p then Some (grid_after (fst p) (w_every_ms w) t) else None)
     (omap (span w z) (dates_around z t))) as Hin.
{ apply list_elem_of_omap. exists (start, end_). split.
  - apply list_elem_of_omap. exists d. split; [by apply dates_around_in|done].
  - cbn [fst snd]. destruct (Z.ltb_spec (grid_after start (w_every_ms w) t) end_); [done|]. unfold a in *. lia. }
destruct (min_by Z.compare _) as [b|] eqn:Eb.
- exists b. split; [done|]. apply Z_min_spec in Eb as [_ Hb]. specialize (Hb _ Hin). unfold a in *. lia.
- apply min_by_none in Eb. rewrite Eb in Hin. by apply elem_of_nil in Hin.
Qed.

(** ** The base grid *)

(** Instants whose neighbours by three weeks are live. *)
Definition roomily_live (t : Z) : Prop := 6 ≤ year_of (t / DAY_MS) ≤ 9994 ∧ - 2 ^ 58 ≤ t ≤ 2 ^ 58.

Lemma roomily_near t k : roomily_live t → -20 * DAY_MS ≤ k ≤ 20 * DAY_MS → live (t + k).
Proof.
intros [Hy Ht] Hk. destruct (day_shift t k Hk) as (j & Hj & E). unfold live. rewrite E.
pose proof (year_near (C := C) (t / DAY_MS) j ltac:(lia) Hj). unfold DAY_MS in *. lia.
Qed.
Lemma roomily_live_live t : roomily_live t → live t.
Proof. intros H. rewrite <-(Z.add_0_r t). apply roomily_near; [done|unfold DAY_MS; lia]. Qed.

Definition covered (s : Schedule) (x : Z) : Prop :=
∃ w d start end_, w ∈ windows s ∧ inside d ∧ span w (zone s) d = Some (start, end_) ∧ start ≤ x < end_.

Lemma window_end_some s x end_ :
live x → window_end_at s x = Some end_ →
∃ w d start, w ∈ windows s ∧ local_date (zone s) x - 1 ≤ d ≤ local_date (zone s) x
  ∧ span w (zone s) d = Some (start, end_) ∧ start ≤ x < end_.
Proof.
intros Hx H. unfold window_end_at in H. pose proof (list_max_spec (map snd (List.filter (λ p : Z * Z, (fst p <=? x) && (x <? snd p))
  (List.concat (map (λ w, omap (span w (zone s)) (option_list (pred_opt (local_date (zone s) x)) ++ [local_date (zone s) x])) (windows s)))))) as Hm.
cbv zeta in H. rewrite H in Hm. destruct Hm as [Hm _].
apply list_elem_of_fmap in Hm as ([start e] & -> & Hm). apply list_elem_of_In, filter_In in Hm as [Hm Hp].
apply andb_prop in Hp as [Hp1%Z.leb_le Hp2%Z.ltb_lt]. cbn [fst snd] in *.
apply in_concat in Hm as (l & Hl & Hin). apply in_map_iff in Hl as (w & <- & Hw).
apply list_elem_of_In in Hin, Hw. apply list_elem_of_omap in Hin as (d & Hd & Hs).
exists w, d, start. split_and!; try done; apply elem_of_app in Hd as [Hd|Hd%list_elem_of_singleton]; try lia.
- unfold pred_opt in Hd. destruct (date_ok _); [|by apply elem_of_nil in Hd]. apply list_elem_of_singleton in Hd. lia.
- unfold pred_opt in Hd. destruct (date_ok _); [|by apply elem_of_nil in Hd]. apply list_elem_of_singleton in Hd. lia.
Qed.

Lemma window_end_none s x : Forall window_ok (windows s) → live x → window_end_at s x = None → ¬ covered s x.
Proof.
intros Hok Hx H (w & d & start & end_ & Hw & Hd & Hs & Hin).
rewrite Forall_forall in Hok. pose proof (span_dates w _ d start end_ x (Hok w Hw) Hd Hs (live_civil x Hx) Hin) as Hdx.
unfold window_end_at in H. pose proof (list_max_spec (map snd (List.filter (λ p : Z * Z, (fst p <=? x) && (x <? snd p))
  (List.concat (map (λ w, omap (span w (zone s)) (option_list (pred_opt (local_date (zone s) x)) ++ [local_date (zone s) x])) (windows s)))))) as Hm.
cbv zeta in H. rewrite H in Hm. apply map_eq_nil in Hm.
assert ((start, end_) ∈ @nil (Z * Z)) as Hn; [|by apply elem_of_nil in Hn]. rewrite <-Hm.
apply list_elem_of_In, filter_In. split; [|cbn; apply andb_true_intro; split; [apply Z.leb_le|apply Z.ltb_lt]; lia].
apply in_concat. exists (omap (span w (zone s)) (option_list (pred_opt (local_date (zone s) x)) ++ [local_date (zone s) x])).
split; [apply in_map_iff; exists w; split; [done|by apply list_elem_of_In]|].
apply list_elem_of_In, list_elem_of_omap. exists d. split; [|done]. apply elem_of_app.
destruct (Z.eq_dec d (local_date (zone s) x)) as [->|Hne]; [right; by left|]. left.
assert (d = local_date (zone s) x - 1) as -> by lia. unfold pred_opt.
rewrite inside_date_ok by done. by left.
Qed.

(** The ends the walk may meet: those of eleven dates. *)
Definition ends (s : Schedule) (t : Z) : list Z :=
List.concat (map (λ w, omap (λ d, snd <$> span w (zone s) d) (seqZ (local_date (zone s) t - 1) 11)) (windows s)).
Definition after (s : Schedule) (t x : Z) : nat := length (List.filter (λ e, x <? e) (ends s t)).

Lemma omap_length {A B} (f : A → option B) l : (length (omap f l) ≤ length l)%nat.
Proof. induction l as [|a l IH]; cbn; [done|]. destruct (f a); cbn; lia. Qed.
Lemma ends_length s t : (length (ends s t) ≤ 11 * length (windows s))%nat.
Proof.
unfold ends. induction (windows s) as [|w ws IH]; cbn [map List.concat length]; [lia|]. rewrite length_app.
pose proof (omap_length (λ d, snd <$> span w (zone s) d) (seqZ (local_date (zone s) t - 1) 11)) as H.
rewrite length_seqZ in H. change (Z.to_nat 11) with 11%nat in H. lia.
Qed.

Lemma filter_fewer {A} (p q : A → bool) l y :
(∀ x, q x = true → p x = true) → y ∈ l → p y = true → q y = false →
(length (List.filter q l) < length (List.filter p l))%nat.
Proof.
intros Hpq Hy Hp Hq. assert (∀ l, length (List.filter q l) ≤ length (List.filter p l))%nat as Hle.
{ intros k. induction k as [|x k IH]; cbn; [done|]. destruct (q x) eqn:E; [rewrite (Hpq x E); cbn; lia|].
  destruct (p x); cbn; lia. }
induction l as [|x l IH]; [by apply elem_of_nil in Hy|]. cbn.
apply elem_of_cons in Hy as [<-|Hy].
- rewrite Hp, Hq. cbn. specialize (Hle l). lia.
- specialize (IH Hy). destruct (q x) eqn:E; [rewrite (Hpq x E); cbn; lia|]. destruct (p x); cbn; lia.
Qed.

Lemma date_ahead z t x : live t → t ≤ x ≤ t + 8 * DAY_MS → civil x → local_date z t ≤ local_date z x ≤ local_date z t + 9.
Proof.
intros Ht Hx Hc. split; [apply local_date_mono; [by apply live_civil|done|lia]|].
unfold local_date. rewrite !to_local_civil by (done || by apply live_civil).
assert (offset_ms z x ≤ offset_ms z t + HOUR_MS) as Ho.
{ unfold offset_ms. destruct (is_dst z x), (is_dst z t); unfold HOUR_MS; lia. }
replace ((t + offset_ms z t) / DAY_MS + 9) with ((t + offset_ms z t + 9 * DAY_MS) / DAY_MS)
  by (rewrite Z.div_add; [done|unfold DAY_MS; lia]).
apply Z.div_le_mono; unfold HOUR_MS, DAY_MS in *; lia.
Qed.

Lemma base_loop_spec s every t steps at_ :
Forall window_ok (windows s) → 1 ≤ every ≤ MAX_EVERY_SECS * 1000 → roomily_live t → t ≤ at_ → (every | at_) →
(after s t at_ < steps)%nat → (∀ x, (every | x) → t ≤ x < at_ → covered s x) →
match base_loop steps s every (t + 8 * DAY_MS) at_ with
| Some a => t ≤ a ∧ (every | a) ∧ ¬ covered s a ∧ ∀ x, (every | x) → t ≤ x < a → covered s x
| None => ∀ x, (every | x) → t ≤ x ≤ t + 8 * DAY_MS → covered s x
end.
Proof.
intros Hok He Ht. revert at_. induction steps as [|steps IH]; intros at_ Hle Hdiv Hsteps Hcov; [lia|].
cbn [base_loop]. destruct (Z.ltb_spec (t + 8 * DAY_MS) at_) as [Hlt|Hge].
{ intros x Hx Hr. apply Hcov; [done|lia]. }
pose proof (roomily_live_live t Ht) as Htl.
assert (live at_) as Hl.
{ replace at_ with (t + (at_ - t)) by lia. apply roomily_near; [done|]. unfold DAY_MS in *. lia. }
destruct (window_end_at s at_) as [end_|] eqn:Ew; [|by split_and!; [| |by apply window_end_none|]].
apply window_end_some in Ew as (w & d & start & Hw & Hd & Hs & Hin); [|done].
pose proof (date_ahead (zone s) t at_ Htl ltac:(lia) (live_civil _ Hl)) as Hda.
assert (inside d) as Hi.
{ replace d with (local_date (zone s) t + (d - local_date (zone s) t)) by lia. apply today_inside; [done|lia]. }
rewrite Forall_forall in Hok. pose proof (span_spec w _ d start end_ (Hok w Hw) Hi Hs) as (_ & _ & r & d' & r' & Hd' & Hr & Hr' & _ & Ee).
assert (t - 20 * DAY_MS ≤ end_ ≤ t + 20 * DAY_MS) as Hnear by (rewrite Ee; apply reading_near; [done|lia|done]).
destruct (align_up_spec end_ every) as (Hup & Hud & Hum);
  [unfold MAX_EVERY_SECS in He; lia|destruct Htl as [_ Hb]; unfold DAY_MS in *; lia|].
rewrite <-Forall_forall in Hok. apply IH; [lia|done| |].
- assert (after s t (align_up end_ every) < after s t at_)%nat; [|lia].
  apply (filter_fewer _ _ _ end_).
  + intros x. rewrite !Z.ltb_lt. lia.
  + apply list_elem_of_In, in_concat. eexists. split.
    * apply in_map_iff. exists w. split; [done|by apply list_elem_of_In].
    * apply list_elem_of_In, list_elem_of_omap. exists d. split; [apply elem_of_seqZ; lia|by rewrite Hs].
  + apply Z.ltb_lt. lia.
  + apply Z.ltb_ge. lia.
- intros x Hx Hxr. destruct (Z_lt_le_dec x at_) as [|Hxa]; [apply Hcov; [done|lia]|].
  destruct (Z_lt_le_dec x end_) as [Hxe|Hxe]; [|specialize (Hum x Hx Hxe); lia].
  exists w, d, start, end_. split_and!; try done; lia.
Qed.

Lemma next_on_base_spec s every t :
schedule_ok s → every_ms s = Some every → roomily_live t →
match next_on_base s every t with
| Some a => t ≤ a ∧ (every | a) ∧ ¬ covered s a ∧ ∀ x, (every | x) → t ≤ x < a → covered s x
| None => ∀ x, (every | x) → t ≤ x ≤ t + 8 * DAY_MS → covered s x
end.
Proof.
intros (Hok & _ & Hn & He) E Ht. specialize (He every E). unfold next_on_base.
assert (try_i64 every = Some every) as ->.
{ apply try_range_some. split; [done|]. unfold MAX_EVERY_SECS in He. unfold i64_min, i64_max. lia. }
cbn [mbind option_bind]. replace (Z.max every 1) with every by lia. cbv zeta.
pose proof Ht as [_ Hb].
rewrite saturating_add_roomy by (unfold roomy, SCAN_AHEAD_DAYS, DAY_MS; lia). change SCAN_AHEAD_DAYS with 8.
destruct (align_up_spec t every) as (Hup & Hud & Hum); [unfold MAX_EVERY_SECS in He; lia|lia|].
apply base_loop_spec; [done|done|done|lia|done| |].
- pose proof (ends_length s t) as Hl. unfold after.
  assert (length (List.filter (λ e, (align_up t every <? e)%Z) (ends s t)) ≤ length (ends s t))%nat.
  { clear Hl. induction (ends s t) as [|x l IHl]; cbn; [done|]. destruct (_ <? _); cbn; lia. }
  unfold MAX_BASE_STEPS. lia.
- intros x Hx Hr. specialize (Hum x Hx ltac:(lia)). lia.
Qed.

(** ** The earliest fire *)

(** Within eight days, on the clock and on the calendar. *)
Definition within (z : Zone) (t x : Z) : Prop := x ≤ t + 8 * DAY_MS ∧ local_date z x ≤ local_date z t + 8.

Lemma offers_sound s t f :
schedule_ok s → roomily_live t → f ∈ offers s t → fires s f ∧ t ≤ at_ms f.
Proof.
intros Hs Ht. pose proof (roomily_live_live t Ht) as Htl. pose proof Hs as (Hw & _).
unfold offers. rewrite !elem_of_app. intros [H|[H|H]].
- apply list_elem_of_omap in H as (tick & Hin & H). destruct (next_at_tick _ _ _) as [a|] eqn:E; [|done].
  injection H as <-. apply next_at_tick_sound in E as (Hle & d & Hd & Hc & Ha); [|done].
  split; [by econstructor|done].
- apply list_elem_of_omap in H as (w & Hin & H). destruct (next_in_window _ _ _) as [a|] eqn:E; [|done].
  injection H as <-. rewrite Forall_forall in Hw.
  apply next_in_window_sound in E as (Hle & d & st & en & k & Hd & Hsp & Hk0 & -> & Hlt); [|done|by apply Hw].
  split; [by econstructor|done].
- destruct (every_ms s) as [every|] eqn:E; [|by apply elem_of_nil in H].
  pose proof (next_on_base_spec s every t Hs E Ht) as Hb.
  destruct (next_on_base s every t) as [a|]; [|by apply elem_of_nil in H].
  cbn in H. apply list_elem_of_singleton in H as ->. destruct Hb as (Hle & Hd & Hc & _). split; [|done].
  apply fire_base; [done|done|]. intros w d st en Hw' Hd' Hsp Hin. apply Hc. by exists w, d, st, en.
Qed.

Lemma rank_le a b e : a ≤ b → rank_cmp (mkFire a e) (mkFire b e) ≠ Gt.
Proof.
intros H. unfold rank_cmp, pair_cmp, cmp_then. cbn. destruct (Z.compare_spec a b); [|done|lia].
by rewrite Z.compare_refl.
Qed.

Lemma offers_complete s t g :
schedule_ok s → roomily_live t → fires s g → t ≤ at_ms g → within (zone s) t (at_ms g) →
∃ f, f ∈ offers s t ∧ rank_cmp f g ≠ Gt.
Proof.
intros Hs Ht Hg Hle [Hx Hd8]. pose proof (roomily_live_live t Ht) as Htl.
assert (civil (at_ms g)) as Hc.
{ apply live_civil. replace (at_ms g) with (t + (at_ms g - t)) by lia. apply roomily_near; [done|unfold DAY_MS in *; lia]. }
unfold offers. destruct Hg as [tick d a Hin Hd Hday Ha|w d st en k Hin Hd Hsp Hk Hlt|every a He Hdiv Hout]; cbn [at_ms] in *.
- destruct Hs as (_ & Hk & _). rewrite Forall_forall in Hk.
  destruct (next_at_tick_complete (zone s) tick t d a Htl (Hk _ Hin) Hd Hday Ha Hle Hd8) as (b & Hb & Hba).
  exists (mkFire b None). split; [|by apply rank_le]. apply elem_of_app. left. apply list_elem_of_omap.
  exists tick. split; [done|]. by rewrite Hb.
- destruct Hs as (Hw & _). rewrite Forall_forall in Hw.
  destruct (next_in_window_complete (zone s) w t d st en k Htl (Hw _ Hin) Hd Hsp Hk Hlt Hc Hle Hd8) as (b & Hb & Hba).
  exists (mkFire b (Some (w_every_ms w))). split; [|by apply rank_le]. apply elem_of_app. right. apply elem_of_app. left.
  apply list_elem_of_omap. exists w. split; [done|]. by rewrite Hb.
- pose proof (next_on_base_spec s every t Hs He Ht) as Hb. rewrite He.
  assert (¬ covered s a) as Hnc by (intros (w & d & st & en & Hw & Hd & Hsp & Hin); by apply (Hout w d st en)).
  destruct (next_on_base s every t) as [b|].
  + destruct Hb as (_ & _ & _ & Hmin). exists (mkFire b (Some every)). split.
    * apply elem_of_app. right. apply elem_of_app. right. by left.
    * apply rank_le. apply Z.nlt_ge. intros Hlt. apply Hnc, Hmin; [done|lia].
  + destruct Hnc. apply Hb; [done|lia].
Qed.

(** C36. [next_fire] finds the earliest fire. From the instant it looks from, the
  fire it answers is one of the schedule (a tick on its day, a window's grid
  point, a base grid point outside every window) and none of the schedule's
  fires of the next eight days ranks before it: earlier, or at the same time
  a tick, or a finer grid; when it answers none there is none in that time.
  The dates it scans are enough over every switch of daylight time, and the
  walk past windows ends. *)
Theorem next_fire_is_the_earliest s now last :
schedule_ok s → roomily_live (fire_from now last) →
let t := fire_from now last in
(∀ f, next_fire s now last = Some f → fires s f ∧ t ≤ at_ms f
   ∧ ∀ g, fires s g → t ≤ at_ms g → within (zone s) t (at_ms g) → rank_cmp f g ≠ Gt) ∧
(next_fire s now last = None → ∀ g, fires s g → t ≤ at_ms g → ¬ within (zone s) t (at_ms g)).
Proof.
intros Hs Ht t. unfold next_fire. rewrite offers_min. fold t in Ht |- *. split.
- intros f Hf. apply min_by_spec in Hf as [Hin Hmin]; [|apply _].
  destruct (offers_sound s t f Hs Ht Hin) as [Hff Hle]. split; [done|]. split; [done|].
  intros g Hg Hgt Hw. destruct (offers_complete s t g Hs Ht Hg Hgt Hw) as (h & Hh & Hhg).
  intros E. apply (Hmin h Hh). rewrite (cmp_flip (c := rank_cmp)) in E.
  destruct (rank_cmp g f) eqn:E2; try done. destruct (rank_cmp h g) eqn:E3; [| |done].
  + by rewrite (cmp_eq_l rank_cmp _ _ _ E3).
  + apply (cmp_lt_trans rank_cmp h g f E3). congruence.
- intros Hn g Hg Hgt Hw. destruct (offers_complete s t g Hs Ht Hg Hgt Hw) as (h & Hh & _).
  apply min_by_none in Hn. rewrite Hn in Hh. by apply elem_of_nil in Hh.
Qed.

(** Nothing fires twice: a fire is never before now, and it is after the
  last one unless the wall clock stepped back by more than the grace, when
  the last fire counts as now. *)
Theorem fires_never_repeat s now last f :
schedule_ok s → roomily_live (fire_from now (Some last)) → - 2 ^ 60 ≤ now ≤ 2 ^ 60 → - 2 ^ 60 ≤ last ≤ 2 ^ 60 →
next_fire s now (Some last) = Some f →
now ≤ at_ms f ∧ (last ≤ now + CLOCK_STEP_GRACE_MS → last < at_ms f) ∧
(now + CLOCK_STEP_GRACE_MS < last → now < at_ms f).
Proof.
intros Hs Ht Hnow Hlast Hf.
assert (fire_from now (Some last) ≤ at_ms f) as Hle.
{ unfold next_fire in Hf. rewrite offers_min in Hf. apply min_by_spec in Hf as [Hin _]; [|apply _]. by eapply offers_sound. }
unfold fire_from, CLOCK_STEP_GRACE_MS in *. rewrite (saturating_add_roomy now) in Hle by (unfold roomy; lia).
destruct (Z.ltb_spec (now + 1000) last); rewrite saturating_add_roomy in Hle by (unfold roomy; lia); lia.
Qed.
End fires.

(** ** A concrete schedule *)

#[local] Existing Instance gregorian.

(** Every quarter of an hour, on the minute in the trading window of weekdays,
    and on Sundays at 18:00, in New York. *)
Definition sample_schedule : Schedule :=
  mkSchedule NewYork (Some 900000) [mkWindow 31 570 960 60000] [mkTick 64 1080].

Lemma sample_schedule_ok : schedule_ok sample_schedule.
Proof.
  split; [|split; [|split; [cbn; lia|intros e [= <-]; unfold MAX_EVERY_SECS; lia]]].
  - apply Forall_singleton. unfold window_ok, DAY_MIN, MAX_EVERY_SECS. cbn. lia.
  - apply Forall_singleton. unfold tick_ok, DAY_MIN. cbn. lia.
Qed.

(** 2026-11-01 05:30 UTC, in the hour the clocks repeat. *)
Lemma sample_live : roomily_live (fire_from nov_1 (Some (nov_1 - 1000))).
Proof.
  replace (fire_from nov_1 (Some (nov_1 - 1000))) with nov_1 by (vm_compute; reflexivity). split.
  - replace (year_of (nov_1 / DAY_MS)) with 2026 by (vm_compute; reflexivity). lia.
  - unfold nov_1. lia.
Qed.

Lemma next_fire_witness :
  next_fire sample_schedule nov_1 (Some (nov_1 - 1000)) = Some (mkFire nov_1 (Some 900000)) ∧
  fires sample_schedule (mkFire nov_1 (Some 900000)) ∧
  ∀ g, fires sample_schedule g → nov_1 ≤ at_ms g → within NewYork nov_1 (at_ms g) →
    rank_cmp (mkFire nov_1 (Some 900000)) g ≠ Gt.
Proof.
  assert (next_fire sample_schedule nov_1 (Some (nov_1 - 1000)) = Some (mkFire nov_1 (Some 900000))) as H
    by (vm_compute; reflexivity).
  split; [exact H|].
  destruct (next_fire_is_the_earliest (L := gregorian_laws) sample_schedule nov_1 (Some (nov_1 - 1000))
    sample_schedule_ok sample_live) as [Hf _].
  replace (fire_from nov_1 (Some (nov_1 - 1000))) with nov_1 in Hf by (vm_compute; reflexivity).
  destruct (Hf _ H) as (H1 & _ & H2). split; [exact H1|exact H2].
Defined.

Lemma fires_never_repeat_witness :
  next_fire sample_schedule nov_1 (Some (nov_1 - 1000)) = Some (mkFire nov_1 (Some 900000))
  ∧ nov_1 ≤ at_ms (mkFire nov_1 (Some 900000)).
Proof.
  assert (next_fire sample_schedule nov_1 (Some (nov_1 - 1000)) = Some (mkFire nov_1 (Some 900000))) as H
    by (vm_compute; reflexivity).
  split; [exact H|].
  apply (fires_never_repeat (L := gregorian_laws) sample_schedule nov_1 (nov_1 - 1000)
    (mkFire nov_1 (Some 900000)) sample_schedule_ok sample_live); [unfold nov_1; lia|unfold nov_1; lia|exact H].
Defined.
