(* ===== verification/Sessions.v ===== *)
(** * Market sessions ([src/src/domain/calendar.rs])

    The session of an exchange, a weekly window or a market that never closes
    at an instant, trading days, and the weekend clock around a break. Dates
    are the day numbers of Tz; [parse_date] is chrono's. *)

From Stdlib Require Import Ascii String.
From S2P Require Import Prelude.
From S2P Require Import Text.
From S2P Require Import Bytes.
From S2P Require Import Substr.
From S2P Require Import Tz.
From S2P Require Import TzProps.
From S2P Require Import Schedule.

#[local] Open Scope string_scope.
#[local] Open Scope list_scope.
#[local] Open Scope Z_scope.

Definition WEEK_MIN : Z := 7 * DAY_MIN.
Definition MAX_WALK_DAYS : nat := 31.
Definition SAT : Z := 5.

Inductive Session : Type := Open | Pre | Post | Overnight | Closed.
#[export] Instance Session_eq_dec : EqDecision Session.
Proof. solve_decision. Defined.
Definition session_str (s : Session) : string :=
  match s with Open => "open" | Pre => "pre" | Post => "post" | Overnight => "overnight" | Closed => "closed" end.

Record ExchangeCalendar : Type := mkExchange {
  x_zone : Zone;
  x_open : Z;
  x_close : Z;
  x_pre : option Z;
  x_post : option Z;
  overnight : bool;
  early_close : option Z;
  early_post : option Z;
  holidays : gset Z;
  early_closes : gset Z;
}.

Record WeekendTimes : Type := mkTimes {
  tm_anchor : Z;
  tm_entry : Z;
  tm_exit : Z;
}.
Definition DEFAULT_TIMES : WeekendTimes := mkTimes (20 * 60) (18 * 60) (9 * 60).

Record WeekendWindow : Type := mkWeekend {
  last_trading_day : Z;
  wk_next_trading_day : Z;
  closed_days : Z;
  anchor_ms : Z;
  entry_ms : Z;
  exit_ms : Z;
}.

Record WeeklyWindow : Type := mkWeekly {
  y_zone : Zone;
  y_open : Z;
  y_close : Z;
  daily_break : option (Z * Z);
}.

Inductive SessionCalendar : Type :=
  | Exchange (c : ExchangeCalendar)
  | Weekly (w : WeeklyWindow)
  | AlwaysOpen.
Definition exchange (c : SessionCalendar) : option ExchangeCalendar := match c with Exchange c => Some c | _ => None end.

(** [(from..to).contains(&x)]. *)
Definition in_half_open (from to x : Z) : bool := (from <=? x) && (x <? to).
Definition in_cyclic (from to x : Z) : bool := if from <? to then in_half_open from to x else (from <=? x) || (x <? to).

Definition local_minute (local : Z) : Z * Z := (local / DAY_MS, local mod DAY_MS / 60000).

Section sessions.
Context {C : Calendar}.

Definition is_trading_day (c : ExchangeCalendar) (date : Z) : bool :=
  negb ((weekday date =? SAT) || (weekday date =? SUN)) && negb (bool_decide (date ∈ holidays c)).
Definition is_early_close (c : ExchangeCalendar) (date : Z) : bool :=
  is_some (early_close c) && bool_decide (date ∈ early_closes c) && is_trading_day c date.

Fixpoint walk_loop (n : nat) (c : ExchangeCalendar) (d step : Z) : option Z :=
  match n with
  | O => None
  | S n =>
      let d := d + step in
      if date_ok d then if is_trading_day c d then Some d else walk_loop n c d step else None
  end.
Definition walk (c : ExchangeCalendar) (date step : Z) : option Z := walk_loop MAX_WALK_DAYS c date step.
Definition prev_trading_day (c : ExchangeCalendar) (date : Z) : option Z := walk c date (-1).
Definition next_trading_day (c : ExchangeCalendar) (date : Z) : option Z := walk c date 1.

Definition exchange_session (c : ExchangeCalendar) (utc_ms : Z) : Session :=
  let '(day, m) := local_minute (to_local (x_zone c) utc_ms) in
  let in_day :=
    if is_trading_day c day then
      let '(close, post) :=
        if is_early_close c day then (default (x_close c) (early_close c), early_post c) else (x_close c, x_post c) in
      if in_half_open (x_open c) close m then Some Open
      else if match x_pre c with Some pre => in_half_open pre (x_open c) m | None => false end then Some Pre
      else if match post with Some post => in_half_open close post m | None => false end then Some Post
      else if overnight c && match x_pre c with Some pre => m <? pre | None => false end then Some Overnight
      else None
    else None in
  match in_day with
  | Some s => s
  | None =>
      let evening := overnight c && match x_post c with Some post => post <=? m | None => false end in
      if evening && match succ_opt day with Some d => is_trading_day c d | None => false end then Overnight else Closed
  end.

Definition weekly_session (w : WeeklyWindow) (utc_ms : Z) : Session :=
  let local := to_local (y_zone w) utc_ms in
  let '(day, m) := local_minute local in
  let week_minute := weekday day * DAY_MIN + m in
  let inside := in_cyclic (y_open w) (y_close w) week_minute in
  let on_break := match daily_break w with Some (from, to) => in_cyclic from to m | None => false end in
  if inside && negb on_break then Open else Closed.

Definition session (c : SessionCalendar) (utc_ms : Z) : Session :=
  match c with Exchange c => exchange_session c utc_ms | Weekly w => weekly_session w utc_ms | AlwaysOpen => Open end.

(** ** The weekend clock *)

Definition clock_at (c : ExchangeCalendar) (date minute : Z) : Z := at_ (x_zone c) date (minute / 60) (minute mod 60).
Definition window_of (c : ExchangeCalendar) (times : WeekendTimes) (last before day : Z) : WeekendWindow :=
  mkWeekend last day (day - last - 1) (clock_at c last (tm_anchor times)) (clock_at c before (tm_entry times))
    (clock_at c day (tm_exit times)).

Fixpoint window_loop (n : nat) (c : ExchangeCalendar) (times : WeekendTimes) (utc_ms day : Z) : option WeekendWindow :=
  match n with
  | O => None
  | S n =>
      before ← pred_opt day;
      if negb (is_trading_day c before) then
        last ← prev_trading_day c day;
        let w := window_of c times last before day in
        if utc_ms <? exit_ms w then Some w
        else day ← next_trading_day c day; window_loop n c times utc_ms day
      else day ← next_trading_day c day; window_loop n c times utc_ms day
  end.
Definition first_trading_day (c : ExchangeCalendar) (today : Z) : option Z :=
  if is_trading_day c today then Some today else next_trading_day c today.
Definition weekend_window_with (c : ExchangeCalendar) (utc_ms : Z) (times : WeekendTimes) : option WeekendWindow :=
  day ← first_trading_day c (local_date (x_zone c) utc_ms);
  window_loop MAX_WALK_DAYS c times utc_ms day.
Definition weekend_window (c : ExchangeCalendar) (utc_ms : Z) : option WeekendWindow := weekend_window_with c utc_ms DEFAULT_TIMES.
End sessions.

Definition parse_week_hm (s : string) : option Z :=
  '(day, hm) ← split_once " " (trim s);
  let name := of_bytes (map to_ascii_lowercase (bytes day)) in
  day ← (if String.eqb name "mon" then Some 0 else if String.eqb name "tue" then Some 1 else if String.eqb name "wed" then Some 2
         else if String.eqb name "thu" then Some 3 else if String.eqb name "fri" then Some 4 else if String.eqb name "sat" then Some 5
         else if String.eqb name "sun" then Some 6 else None);
  minute ← parse_hm hm;
  Some (day * DAY_MIN + minute).

(** ** What the walks find *)

(** A break: the days without trading between two trading days. *)
Definition is_break (c : ExchangeCalendar) (last day : Z) : Prop :=
  is_trading_day c last = true ∧ is_trading_day c day = true ∧ last + 1 < day
  ∧ ∀ d, last < d < day → is_trading_day c d = false.

(** Any 31 days from one of [lo, hi] on hold a trading day. *)
Definition trades_within (c : ExchangeCalendar) (lo hi : Z) : Prop :=
  ∀ d, lo ≤ d ≤ hi → ∃ k, 0 ≤ k ≤ 30 ∧ is_trading_day c (d + k) = true.

Lemma break_unique c last last' day : is_break c last day → is_break c last' day → last = last'.
Proof.
  intros (H1 & _ & H2 & H3) (H1' & _ & H2' & H3').
  destruct (Z.lt_trichotomy last last') as [Hlt|[->|Hlt]]; [|done|].
  - rewrite H3 in H1' by lia. done.
  - rewrite H3' in H1 by lia. done.
Qed.

Lemma first_from c d n : is_trading_day c (d + Z.of_nat n) = true →
  ∃ j, 0 ≤ j ≤ Z.of_nat n ∧ is_trading_day c (d + j) = true ∧ ∀ i, 0 ≤ i < j → is_trading_day c (d + i) = false.
Proof.
  revert d. induction n as [|n IH]; intros d Hn.
  { exists 0. rewrite Z.add_0_r in *. split; [lia|]. split; [done|]. intros i Hi. lia. }
  destruct (is_trading_day c d) eqn:Hd.
  { exists 0. rewrite Z.add_0_r. split; [lia|]. split; [done|]. intros i Hi. lia. }
  destruct (IH (d + 1)) as (j & Hj & Ht & Hmin).
  { replace (d + 1 + Z.of_nat n) with (d + Z.of_nat (S n)) by lia. done. }
  exists (j + 1). split; [lia|]. split; [by replace (d + (j + 1)) with (d + 1 + j) by lia|].
  intros i Hi. destruct (decide (i = 0)) as [->|]; [by rewrite Z.add_0_r|].
  replace (d + i) with (d + 1 + (i - 1)) by lia. apply Hmin. lia.
Qed.

Lemma trades_first c lo hi d : trades_within c lo hi → lo ≤ d ≤ hi →
  ∃ e, d ≤ e ≤ d + 30 ∧ is_trading_day c e = true ∧ ∀ i, d ≤ i < e → is_trading_day c i = false.
Proof.
  intros Hr Hd. destruct (Hr d Hd) as (k & Hk & Ht).
  destruct (first_from c d (Z.to_nat k)) as (j & Hj & Htj & Hmin); [by rewrite Z2Nat.id by lia|].
  exists (d + j). split; [lia|]. split; [done|]. intros i Hi.
  replace i with (d + (i - d)) by lia. apply Hmin. lia.
Qed.

Section walks.
Context {C : Calendar}.

Lemma walk_some n c d step e : walk_loop n c d step = Some e →
  ∃ k, 1 ≤ k ≤ Z.of_nat n ∧ e = d + step * k ∧ is_trading_day c e = true
    ∧ ∀ j, 1 ≤ j < k → is_trading_day c (d + step * j) = false.
Proof.
  revert d. induction n as [|n IH]; intros d; cbn [walk_loop]; [done|].
  destruct (date_ok (d + step)); [|done]. destruct (is_trading_day c (d + step)) eqn:Ht.
  - intros [= <-]. exists 1. split; [lia|]. split; [lia|]. split; [done|]. intros j Hj. lia.
  - intros (k & Hk & -> & Hke & Hmin)%IH. exists (k + 1). split; [lia|]. split; [lia|]. split; [done|].
    intros j Hj. destruct (decide (j = 1)) as [->|]; [by replace (d + step * 1) with (d + step) by lia|].
    replace (d + step * j) with (d + step + step * (j - 1)) by lia. apply Hmin. lia.
Qed.

Lemma walk_finds n c d step k : 1 ≤ k ≤ Z.of_nat n → is_trading_day c (d + step * k) = true →
  (∀ j, 1 ≤ j ≤ k → date_ok (d + step * j) = true) → is_Some (walk_loop n c d step).
Proof.
  revert d k. induction n as [|n IH]; intros d k Hk Ht Hok; [lia|]. cbn [walk_loop].
  pose proof (Hok 1 ltac:(lia)) as H1. rewrite Z.mul_1_r in H1. rewrite H1.
  destruct (is_trading_day c (d + step)) eqn:E; [done|].
  destruct (decide (k = 1)) as [->|]; [rewrite Z.mul_1_r in Ht; congruence|].
  apply (IH _ (k - 1)); [lia|by replace (d + step + step * (k - 1)) with (d + step * k) by lia|].
  intros j Hj. replace (d + step + step * j) with (d + step * (j + 1)) by lia. apply Hok. lia.
Qed.

Lemma next_trading_spec c d e : next_trading_day c d = Some e →
  d < e ∧ is_trading_day c e = true ∧ ∀ i, d < i < e → is_trading_day c i = false.
Proof.
  intros (k & Hk & -> & Ht & Hmin)%walk_some. split; [lia|]. split; [done|]. intros i Hi.
  replace i with (d + 1 * (i - d)) by lia. apply Hmin. lia.
Qed.
Lemma prev_trading_spec c d e : prev_trading_day c d = Some e →
  e < d ∧ is_trading_day c e = true ∧ ∀ i, e < i < d → is_trading_day c i = false.
Proof.
  intros (k & Hk & -> & Ht & Hmin)%walk_some. split; [lia|]. split; [done|]. intros i Hi.
  replace i with (d + -1 * (d - i)) by lia. apply Hmin. lia.
Qed.
Lemma break_before c l d : prev_trading_day c d = Some l → is_trading_day c d = true → is_trading_day c (d - 1) = false → is_break c l d.
Proof.
  intros (Hl & Ht & Hmin)%prev_trading_spec Hd Hb. split; [done|]. split; [done|]. split; [|done].
  destruct (decide (l = d - 1)) as [->|]; [congruence|lia].
Qed.
Lemma next_trading_some c d k : 1 ≤ k ≤ 31 → is_trading_day c (d + k) = true →
  (∀ j, 1 ≤ j ≤ k → date_ok (d + j) = true) → is_Some (next_trading_day c d).
Proof.
  intros Hk Ht Hok. apply (walk_finds _ _ _ _ k); [unfold MAX_WALK_DAYS; lia|by rewrite Z.mul_1_l|].
  intros j Hj. rewrite Z.mul_1_l. by apply Hok.
Qed.
Lemma prev_trading_some c d k : 1 ≤ k ≤ 31 → is_trading_day c (d - k) = true →
  (∀ j, 1 ≤ j ≤ k → date_ok (d - j) = true) → is_Some (prev_trading_day c d).
Proof.
  intros Hk Ht Hok. apply (walk_finds _ _ _ _ k); [unfold MAX_WALK_DAYS; lia|by replace (d + -1 * k) with (d - k) by lia|].
  intros j Hj. replace (d + -1 * j) with (d - j) by lia. by apply Hok.
Qed.

Lemma window_loop_sound n c times t day w : is_trading_day c day = true → window_loop n c times t day = Some w →
  ∃ last, is_break c last (wk_next_trading_day w) ∧ w = window_of c times last (wk_next_trading_day w - 1) (wk_next_trading_day w)
    ∧ t < exit_ms w ∧ day ≤ wk_next_trading_day w
    ∧ ∀ l e, is_break c l e → day ≤ e < wk_next_trading_day w → clock_at c e (tm_exit times) ≤ t.
Proof.
  revert day. induction n as [|n IH]; intros day Hday; cbn [window_loop]; [done|].
  unfold pred_opt at 1. destruct (date_ok (day - 1)); [|done]. cbn [mbind option_bind].
  destruct (is_trading_day c (day - 1)) eqn:Hb; cbn [negb].
  - destruct (next_trading_day c day) as [day'|] eqn:Hn; [|done]. cbn [mbind option_bind].
    apply next_trading_spec in Hn as (Hlt & Ht & Hmin). intros H. apply IH in H as (last & H1 & H2 & H3 & H4 & H5); [|done].
    exists last. split; [done|]. split; [done|]. split; [done|]. split; [lia|]. intros l e Hle He.
    destruct (decide (day' ≤ e)); [by apply (H5 l); [done|lia]|]. destruct Hle as (_ & Hte & Hlong & Hnone).
    destruct (decide (e = day)) as [->|]; [by rewrite Hnone in Hb by lia|]. by rewrite Hmin in Hte by lia.
  - destruct (prev_trading_day c day) as [last|] eqn:Hp; [|done]. cbn [mbind option_bind].
    pose proof (break_before c last day Hp Hday Hb) as Hbr.
    destruct (Z.ltb_spec t (exit_ms (window_of c times last (day - 1) day))) as [Hx|Hx].
    + intros [= <-]. exists last. cbn [wk_next_trading_day window_of]. split; [done|]. split; [done|]. split; [done|]. split; [lia|].
      intros l e _ He. lia.
    + cbn [exit_ms window_of] in Hx.
      destruct (next_trading_day c day) as [day'|] eqn:Hn; [|done]. cbn [mbind option_bind].
      apply next_trading_spec in Hn as (Hlt & Ht & Hmin). intros H. apply IH in H as (last' & H1 & H2 & H3 & H4 & H5); [|done].
      exists last'. split; [done|]. split; [done|]. split; [done|]. split; [lia|]. intros l e Hle He.
      destruct (decide (day' ≤ e)); [by apply (H5 l); [done|lia]|].
      destruct (decide (e = day)) as [->|]; [done|]. destruct Hle as (_ & Hte & _). by rewrite Hmin in Hte by lia.
Qed.

(** With a day without trading ahead, and a trading day behind it whose exit
    is still to come, the loop ends on a window. *)
Lemma window_loop_finds n c times t day rest target :
  is_trading_day c day = true → rest < target → is_trading_day c target = true →
  (∀ d, rest ≤ d < target → is_trading_day c d = false) → t < clock_at c target (tm_exit times) →
  (∀ d, day - 31 ≤ d ≤ target → date_ok d = true) →
  (∀ d, day - 31 ≤ d ≤ target → ∃ k, 0 ≤ k ≤ 30 ∧ is_trading_day c (d + k) = true) →
  (day < rest ∧ rest - day < Z.of_nat n) ∨ (day = target ∧ (0 < n)%nat) →
  is_Some (window_loop n c times t day).
Proof.
  intros Hday Hrt Htarget Hrest Hexit. revert day Hday. induction n as [|n IH]; intros day Hday Hok Hreach Hpos; [lia|].
  cbn [window_loop]. unfold pred_opt at 1. rewrite Hok by lia. cbn [mbind option_bind].
  assert (is_Some (prev_trading_day c day)) as [last Hlast].
  { destruct (Hreach (day - 31) ltac:(lia)) as (k & Hk & Htk).
    apply (prev_trading_some c day (31 - k)); [lia|by replace (day - (31 - k)) with (day - 31 + k) by lia|].
    intros j Hj. apply Hok. lia. }
  assert (day ≠ target → is_Some (d' ← next_trading_day c day; window_loop n c times t d')) as Hgo.
  { intros Hne. destruct Hpos as [[Hlt Hfuel]|[? _]]; [|done].
    destruct (first_from c (day + 1) (Z.to_nat (target - day - 1))) as (j & Hj & Htj & Hmin).
    { replace (day + 1 + Z.of_nat (Z.to_nat (target - day - 1))) with target by lia. done. }
    destruct (Hreach (day + 1) ltac:(lia)) as (k & Hk & Htk).
    assert (j ≤ k). { apply Z.nlt_ge. intros Hkj. rewrite Hmin in Htk by lia. done. }
    destruct (next_trading_some c day (j + 1)) as [e He]; [lia|by replace (day + (j + 1)) with (day + 1 + j) by lia| |].
    { intros i Hi. apply Hok. lia. }
    rewrite He. cbn [mbind option_bind]. apply next_trading_spec in He as (Hde & Hte & Hmine).
    assert (e ≤ target). { apply Z.nlt_ge. intros Hlt'. rewrite Hmine in Htarget by lia. done. }
    apply IH; [done| | |].
    - intros d Hd. apply Hok. lia.
    - intros d Hd. apply Hreach. lia.
    - destruct (decide (e < rest)) as [|Hge]; [left; lia|right]. split; [|lia].
      destruct (decide (e < target)) as [Hlt'|]; [|lia]. rewrite Hrest in Hte by lia. done. }
  destruct (decide (day = target)) as [->|Hne].
  - rewrite (Hrest (target - 1)) by lia. cbn [negb]. rewrite Hlast. cbn [mbind option_bind exit_ms window_of].
    rewrite (proj2 (Z.ltb_lt _ _) Hexit). done.
  - specialize (Hgo Hne). destruct (is_trading_day c (day - 1)); cbn [negb]; [done|].
    rewrite Hlast. cbn [mbind option_bind]. by destruct (t <? _).
Qed.
End walks.

(** ** The first break that is left *)

(** Days and instants with a century of the calendar around them. *)
Definition era `{Calendar} (d : Z) : Prop := 100 ≤ year_of d ≤ 9900.

Section breaks.
Context {C : Calendar} {L : CalendarLaws C}.

Lemma year_far n d k : 1 + Z.of_nat n ≤ year_of d ≤ 9999 - Z.of_nat n → Z.abs k ≤ 20 * Z.of_nat n →
  year_of d - Z.of_nat n ≤ year_of (d + k) ≤ year_of d + Z.of_nat n.
Proof.
  revert d k. induction n as [|n IH]; intros d k Hd Hk; [replace (d + k) with d by lia; lia|].
  set (s := if decide (0 ≤ k) then Z.min k 20 else Z.max k (-20)).
  assert (-20 ≤ s ≤ 20 ∧ Z.abs (k - s) ≤ 20 * Z.of_nat n) as [Hs Hks] by (subst s; case_decide; lia).
  pose proof (year_near (C := C) d s ltac:(lia) Hs) as Hn. specialize (IH (d + s) (k - s) ltac:(lia) Hks).
  replace (d + s + (k - s)) with (d + k) in IH by lia. lia.
Qed.

Lemma era_settled d k : era d → -200 ≤ k ≤ 200 → settled (d + k).
Proof. intros Hd Hk. unfold era in Hd. pose proof (year_far 10 d k ltac:(lia) ltac:(lia)). unfold settled. lia. Qed.
Lemma era_civil t : era (t / DAY_MS) → civil t.
Proof. unfold era, civil. lia. Qed.
Lemma settled_date d : settled d → date_ok d = true.
Proof. intros Hd. unfold settled in Hd. apply dates_exist. lia. Qed.
Lemma date_of_local z t : civil t → ∃ j, -1 ≤ j ≤ 1 ∧ local_date z t = t / DAY_MS + j.
Proof.
  intros Ht. unfold local_date. rewrite to_local_civil by done. pose proof (offset_small z t).
  exists ((t + offset_ms z t) / DAY_MS - t / DAY_MS). split; [|lia].
  unfold HOUR_MS, DAY_MS in *. Z.to_euclidean_division_equations. lia.
Qed.
Lemma near_settled z t k : era (t / DAY_MS) → -199 ≤ k ≤ 199 → settled (local_date z t + k).
Proof.
  intros Ht Hk. destruct (date_of_local z t (era_civil t Ht)) as (j & Hj & ->).
  replace (t / DAY_MS + j + k) with (t / DAY_MS + (j + k)) by lia. apply era_settled; [done|lia].
Qed.

Lemma clock_date c d m : settled d → 0 ≤ m → local_date (x_zone c) (clock_at c d m) = d ∧ civil (clock_at c d m).
Proof.
  intros Hd Hm. unfold clock_at. apply at_date; [done|apply Z.div_pos; lia|].
  pose proof (Z.mod_pos_bound m 60 ltac:(lia)). lia.
Qed.
Lemma clock_increasing c d m d' m' : settled d → settled d' → 0 ≤ m → 0 ≤ m' → d < d' → clock_at c d m < clock_at c d' m'.
Proof.
  intros Hd Hd' Hm Hm' Hlt. unfold clock_at.
  pose proof (Z.mod_pos_bound m 60 ltac:(lia)). pose proof (Z.mod_pos_bound m' 60 ltac:(lia)).
  apply at_increasing; [done|done|apply Z.div_pos; lia|lia|apply Z.div_pos; lia|lia|done].
Qed.
Lemma clock_after c t d m : civil t → settled d → 0 ≤ m → local_date (x_zone c) t < d → t < clock_at c d m.
Proof.
  intros Ht Hd Hm Hlt. destruct (clock_date c d m Hd Hm) as [Hdate Hciv]. apply Z.nle_gt. intros Hle.
  pose proof (local_date_mono (x_zone c) _ _ Hciv Ht Hle). lia.
Qed.
Lemma clock_not_before c t d m : civil t → settled d → 0 ≤ m → t < clock_at c d m → local_date (x_zone c) t ≤ d.
Proof.
  intros Ht Hd Hm Hlt. destruct (clock_date c d m Hd Hm) as [Hdate Hciv].
  rewrite <- Hdate. apply local_date_mono; [done|done|lia].
Qed.

Lemma saturday_ahead c d : ∃ s, d ≤ s ≤ d + 6 ∧ weekday s = SAT ∧ weekday (s + 1) = SUN
  ∧ is_trading_day c s = false ∧ is_trading_day c (s + 1) = false.
Proof.
  pose proof (weekday_range d) as Hd. exists (d + (5 - weekday d) mod 7).
  assert (weekday (d + (5 - weekday d) mod 7) = SAT ∧ weekday (d + (5 - weekday d) mod 7 + 1) = SUN) as [H1 H2].
  { unfold weekday, SAT, SUN in *. Z.to_euclidean_division_equations. lia. }
  pose proof (Z.mod_pos_bound (5 - weekday d) 7 ltac:(lia)).
  split; [lia|]. split; [done|]. split; [done|]. unfold is_trading_day. by rewrite H1, H2.
Qed.

(** What the weekend clock of a break is. *)
Definition the_window (c : ExchangeCalendar) (times : WeekendTimes) (l e : Z) : WeekendWindow := window_of c times l (e - 1) e.
Definition times_ok (times : WeekendTimes) : Prop := 0 ≤ tm_anchor times ∧ 0 ≤ tm_entry times ∧ 0 ≤ tm_exit times.

(** It is the first break whose exit is still to come. *)
Definition first_left (c : ExchangeCalendar) (times : WeekendTimes) (t : Z) (w : WeekendWindow) : Prop :=
  ∃ l e, is_break c l e ∧ w = the_window c times l e ∧ t < exit_ms w ∧ local_date (x_zone c) t ≤ e ≤ local_date (x_zone c) t + 70
    ∧ ∀ l' e', is_break c l' e' → settled e' → t < exit_ms (the_window c times l' e') → e ≤ e'.

Section at_instant.
Context (c : ExchangeCalendar) (times : WeekendTimes) (t : Z).
#[local] Abbreviation today := (local_date (x_zone c) t).
Context (Ht : era (t / DAY_MS)) (Htimes : times_ok times) (Hreach : trades_within c (today - 31) (today + 66)).

Lemma near_today d : -199 ≤ d - today ≤ 199 → settled d.
Proof using L Ht. intros Hd. replace d with (today + (d - today)) by lia. by apply near_settled. Qed.

Lemma first_day day : today ≤ day ≤ today + 30 → is_trading_day c day = true → (∀ i, today ≤ i < day → is_trading_day c i = false) →
  first_trading_day c today = Some day.
Proof using L Ht.
  intros Hle Hday Hmin. unfold first_trading_day. destruct (is_trading_day c today) eqn:E.
  { destruct (decide (today = day)) as [->|]; [done|]. by rewrite Hmin in E by lia. }
  assert (today ≠ day) by congruence. destruct (next_trading_some c today (day - today)) as [e He].
  - lia.
  - by replace (today + (day - today)) with day by lia.
  - intros j Hj. apply settled_date, near_today. lia.
  - rewrite He. f_equal. apply next_trading_spec in He as (H1 & H2 & H3).
    destruct (Z.lt_trichotomy e day) as [|[|]]; [by rewrite Hmin in H2 by lia|done|by rewrite H3 in Hday by lia].
Qed.

(** A break whose exit is ahead: the one around the next Saturday. *)
Lemma break_ahead day : today ≤ day ≤ today + 30 → is_trading_day c day = true → ∃ rest target l,
  day < rest < target ∧ rest ≤ day + 6 ∧ target ≤ today + 66 ∧ is_break c l target
  ∧ (∀ d, rest ≤ d < target → is_trading_day c d = false) ∧ t < clock_at c target (tm_exit times).
Proof using All.
  intros Hd Htd. destruct (saturday_ahead c day) as (s & Hs & _ & _ & Hsat & _).
  destruct (trades_first c _ _ s Hreach ltac:(lia)) as (target & Htarget & Htt & Hrest).
  assert (s ≠ target) by congruence. assert (day ≠ s) by congruence.
  destruct (Hreach (target - 31) ltac:(lia)) as (k & Hk & Htk).
  destruct (prev_trading_some c target (31 - k)) as [l Hl].
  - lia.
  - by replace (target - (31 - k)) with (target - 31 + k) by lia.
  - intros j Hj. apply settled_date, near_today. lia.
  - exists s, target, l. split; [lia|]. split; [lia|]. split; [lia|]. split; [|split].
    + apply break_before; [done|done|apply Hrest; lia].
    + exact Hrest.
    + apply clock_after; [by apply era_civil|apply near_today; lia|apply Htimes|lia].
Qed.

(** The weekend clock answers, and what it answers is the first break whose
    exit is still to come. *)
Theorem weekend_window_is_the_first_break_left : ∃ w, weekend_window_with c t times = Some w ∧ first_left c times t w.
Proof using All.
  assert (today - 31 ≤ today ≤ today + 66) as Hin by lia. destruct (trades_first c _ _ today Hreach Hin) as (day & Hday & Htd & Hmin). clear Hin.
  destruct (break_ahead day Hday Htd) as (s & target & l' & Hds & Hs & Htarget & Hbt & Hrest & Hx).
  pose proof Hbt as (_ & Htt & _).
  destruct (window_loop_finds MAX_WALK_DAYS c times t day s target) as [w Hw]; try done; [lia| | | |].
  - intros d Hd. apply settled_date, near_today. lia.
  - intros d Hd. apply Hreach. lia.
  - left. unfold MAX_WALK_DAYS. lia.
  - exists w. unfold weekend_window_with. rewrite (first_day day Hday Htd Hmin). split; [exact Hw|].
    destruct (window_loop_sound _ _ _ _ _ _ Htd Hw) as (l & Hbr & Heq & Hxw & Hge & Hleast).
    assert (∀ l' e', is_break c l' e' → settled e' → t < exit_ms (the_window c times l' e') → wk_next_trading_day w ≤ e') as Hall.
    { intros l0 e Hbr' Hs' Hx'. apply Z.nlt_ge. intros Hlt.
      assert (today ≤ e) by (apply (clock_not_before c t e (tm_exit times)); [by apply era_civil|done|apply Htimes|done]).
      destruct (decide (e < day)) as [Hbefore|].
      - destruct Hbr' as (_ & Hte & _). rewrite Hmin in Hte by lia. done.
      - pose proof (Hleast l0 e Hbr' ltac:(lia)). cbn [exit_ms the_window window_of] in Hx'. lia. }
    pose proof (Hall l' target Hbt (near_today target ltac:(clear -Hday Hds Htarget; lia)) Hx).
    exists l, (wk_next_trading_day w). split; [done|]. split; [done|]. split; [done|]. split; [lia|done].
Qed.
End at_instant.
End breaks.
