(* ===== verification/EvidenceCoverage.v ===== *)
(** * Evidence coverage ([src/src/domain/evidence_coverage.rs])

    Which cadence slots of a window a recorded stream holds, its gaps, and what
    a second source has of them. Instants are Z; the windows in use are far
    inside i64. *)

From Stdlib Require Import Ascii String.
From S2P Require Import Prelude.
From S2P Require Import Ordered.
From S2P Require Import Text.
From S2P Require Import Bytes.

#[local] Open Scope string_scope.
#[local] Open Scope list_scope.
#[local] Open Scope Z_scope.

(** [domain/evidence.rs] *)
Inductive Provenance : Type := LiveRecorded | Backfilled | Missing | NotApplicable | Derived | Reported.
#[export] Instance Provenance_eq_dec : EqDecision Provenance.
Proof. solve_decision. Defined.

Record Window : Type := mkWindow {
  from_ms : Z;
  to_ms : Z;
  cadence_ms : Z;
}.

Definition first_slot_ms (w : Window) : Z :=
  let c := cadence_ms w in
  from_ms w / c * c + (if from_ms w mod c =? 0 then 0 else c).

Definition n_slots (w : Window) : nat :=
  let first := first_slot_ms w in
  if to_ms w <? first + cadence_ms w then O
  else Z.to_nat (Z.quot (to_ms w - first) (cadence_ms w)).

Definition window_new (from_ms to_ms cadence_ms : Z) : result string Window :=
  if cadence_ms <=? 0 then Err ("cadence " +:+ show_Z cadence_ms +:+ " ms is not > 0")
  else if to_ms <=? from_ms then
    Err ("window to " +:+ show_Z to_ms +:+ " is not after from " +:+ show_Z from_ms)
  else
    let w := mkWindow from_ms to_ms cadence_ms in
    if (n_slots w =? 0)%nat then Err "the window holds no whole slot" else Ok w.

Definition slot_of (w : Window) (t_ms : Z) : option nat :=
  let first := first_slot_ms w in
  if t_ms <? first then None
  else
    let i := Z.to_nat (Z.quot (t_ms - first) (cadence_ms w)) in
    if (i <? n_slots w)%nat then Some i else None.

Definition slot_start (w : Window) (i : nat) : Z := first_slot_ms w + Z.of_nat i * cadence_ms w.

Record Stream : Type := mkStream {
  key : string;
  covered_ms : list Z;
  rows : nat;
}.

Record Bar : Type := mkBar {
  t_open_ms : Z;
  trades : option Z;
}.

Record Bars : Type := mkBars {
  bar_ms : Z;
  source : string;
  by_instrument : gmap string (list Bar);
}.

Definition key_instrument (key : string) : string :=
  match split_once "/" key with
  | Some (_, r) => match split_once ":" (String "/" r) with Some (_, rest) => rest | None => key end
  | None => key
  end.

Record Gap : Type := mkGap {
  g_from_ms : Z;
  g_to_ms : Z;
  slots : nat;
}.

Record GapFill : Type := mkFill {
  minutes : nat;
  backfilled : nat;
  flat : nat;
}.

Definition fill_label (f : GapFill) : Provenance :=
  if (0 <? minutes f)%nat && (backfilled f =? minutes f)%nat then Backfilled else Missing.

Record KeyGap : Type := mkKeyGap {
  k_gap : Gap;
  k_label : Provenance;
  fill : option GapFill;
}.

Record KeyCoverage : Type := mkKeyCoverage {
  k_key : string;
  covered_slots : nat;
  own_gaps : list KeyGap;
}.

Record SweepGap : Type := mkSweep {
  s_gap : Gap;
  backfilled_keys : nat;
  missing_keys : list string;
  s_bars : nat;
  flat_bars : nat;
}.

Record Interval : Type := mkInterval {
  i_from_ms : Z;
  i_to_ms : Z;
  label : Provenance;
  i_keys : nat;
  note : string;
}.

Record Coverage : Type := mkCov {
  window : Window;
  c_slots : nat;
  swept_slots : nat;
  keys : nat;
  live_keys : nat;
  never_covered : list string;
  complete_keys : nat;
  sweep_gaps : list SweepGap;
  per_key : list KeyCoverage;
  timeline : list Interval;
  second_source : option string;
}.

(** Runs [(a, b)] of [true]: the index, the start of the run that is open. *)
Fixpoint runs_loop (i : nat) (start : option nat) (l : list bool) : list (nat * nat) :=
  match l with
  | [] => match start with Some s => [(s, i)] | None => [] end
  | gap :: l =>
      match gap, start with
      | true, None => runs_loop (S i) (Some i) l
      | false, Some s => (s, i) :: runs_loop (S i) None l
      | _, _ => runs_loop (S i) start l
      end
  end.
Definition runs (uncovered : list bool) : list (nat * nat) := runs_loop 0 None uncovered.

(** The bars of an instrument by open time; a later one replaces an earlier. *)
Definition bars_of (bars : Bars) (instrument : string) : gmap Z (option Z) :=
  fold_left (λ m b, <[t_open_ms b := trades b]> m) (default [] (by_instrument bars !! instrument)) ∅.

Fixpoint fill_loop (fuel : nat) (have : gmap Z (option Z)) (step to_ m : Z) (f : GapFill) : GapFill :=
  match fuel with
  | O => f
  | S fuel =>
      if m <? to_ then
        let f :=
          match have !! m with
          | Some trades =>
              mkFill (S (minutes f)) (S (backfilled f))
                (flat f + (if bool_decide (trades = Some 0) then 1 else 0))
          | None => mkFill (S (minutes f)) (backfilled f) (flat f)
          end in
        fill_loop fuel have step to_ (m + step) f
      else f
  end.
Definition fill_fuel (from_ to_ : Z) : nat := Z.to_nat (to_ - from_) + 1.
Definition gap_fill (bars : Bars) (instrument : string) (from_ to_ : Z) : GapFill :=
  let step := Z.max (bar_ms bars) 1 in
  let m := from_ / step * step in
  fill_loop (fill_fuel m to_) (bars_of bars instrument) step to_ m (mkFill 0 0 0).

(** ** The coverage of streams *)

Definition mark (w : Window) (cov : list bool) (t : Z) : list bool :=
  match slot_of w t with Some i => <[i := true]> cov | None => cov end.
Definition mark_all (w : Window) (cov : list bool) (ts : list Z) : list bool := fold_left (mark w) ts cov.

(** What the loop over the streams holds: the slots any covers, the live keys
    with their slots, the keys with none. *)
Record Scan : Type := mkScan {
  swept : list bool;
  per_key_slots : list (string * list bool);
  never : list string;
}.
Definition scan_one (w : Window) (st : Scan) (s : Stream) : Scan :=
  let cov := mark_all w (replicate (n_slots w) false) (covered_ms s) in
  let swept := mark_all w (swept st) (covered_ms s) in
  if existsb id cov then mkScan swept (per_key_slots st ++ [(key s, cov)]) (never st)
  else if (0 <? rows s)%nat || negb (bool_decide (covered_ms s = [])) then
    mkScan swept (per_key_slots st) (never st ++ [key s])
  else mkScan swept (per_key_slots st) (never st).
Definition scan (w : Window) (streams : list Stream) : Scan :=
  fold_left (scan_one w) streams (mkScan (replicate (n_slots w) false) [] []).

Definition gap_of (w : Window) (r : nat * nat) : Gap :=
  mkGap (slot_start w (fst r)) (slot_start w (snd r)) (snd r - fst r).

(** One live key over one sweep gap: the counts so far, with its fill. *)
Definition sweep_key (b : Bars) (gap : Gap) (acc : SweepGap) (k : string) : SweepGap :=
  let f := gap_fill b (key_instrument k) (g_from_ms gap) (g_to_ms gap) in
  let nbars := (s_bars acc + backfilled f)%nat in
  let flats := (flat_bars acc + flat f)%nat in
  match fill_label f with
  | Backfilled => mkSweep gap (S (backfilled_keys acc)) (missing_keys acc) nbars flats
  | _ => mkSweep gap (backfilled_keys acc) (missing_keys acc ++ [k]) nbars flats
  end.
Definition sweep_gap (bars : option Bars) (live : list string) (gap : Gap) : SweepGap :=
  match bars with
  | Some b => fold_left (sweep_key b gap) live (mkSweep gap 0 [] 0 0)
  | None => mkSweep gap 0 live 0 0
  end.

Definition in_runs (rs : list (nat * nat)) (i : nat) : bool := existsb (λ r, (fst r <=? i)%nat && (i <? snd r)%nat) rs.

(** The slots a live key misses while others were recorded. *)
Definition own_runs (sweep_runs : list (nat * nat)) (cov : list bool) : list (nat * nat) :=
  runs (imap (λ i c, negb c && negb (in_runs sweep_runs i)) cov).

Definition key_gap (w : Window) (bars : option Bars) (k : string) (r : nat * nat) : KeyGap :=
  let gap := gap_of w r in
  let fill := (λ b, gap_fill b (key_instrument k) (g_from_ms gap) (g_to_ms gap)) <$> bars in
  mkKeyGap gap (match fill with Some f => fill_label f | None => Missing end) fill.

Definition key_coverage (w : Window) (bars : option Bars) (sweep_runs : list (nat * nat)) (p : string * list bool)
    : KeyCoverage :=
  mkKeyCoverage (fst p) (length (List.filter id (snd p)))
    (map (key_gap w bars (fst p)) (own_runs sweep_runs (snd p))).

Definition live_interval (w : Window) (live a b : nat) : list Interval :=
  if (a <? b)%nat then [mkInterval (slot_start w a) (slot_start w b) LiveRecorded live ""] else [].

Definition gap_intervals (bars : option Bars) (g : SweepGap) : list Interval :=
  let src := match bars with Some b => source b | None => "no second source" end in
  let gap := s_gap g in
  (if (0 <? backfilled_keys g)%nat then
     [mkInterval (g_from_ms gap) (g_to_ms gap) Backfilled (backfilled_keys g)
        (src +:+ ": " +:+ show_Z (Z.of_nat (s_bars g)) +:+ " bars, "
         +:+ show_Z (Z.of_nat (flat_bars g)) +:+ " flat (n = 0)")]
   else [])
  ++ (if negb (bool_decide (missing_keys g = [])) then
        [mkInterval (g_from_ms gap) (g_to_ms gap) Missing (length (missing_keys g))
           (match bars with Some _ => "no " +:+ src +:+ " bar for every minute" | None => src end)]
      else []).

(** The loop over the sweep gaps, from [cursor]. *)
Fixpoint timeline_loop (w : Window) (bars : option Bars) (live n cursor : nat) (rs : list ((nat * nat) * SweepGap))
    : list Interval :=
  match rs with
  | [] => live_interval w live cursor n
  | (r, g) :: rs =>
      live_interval w live cursor (fst r) ++ gap_intervals bars g ++ timeline_loop w bars live n (snd r) rs
  end.

Definition coverage (w : Window) (streams : list Stream) (bars : option Bars) : Coverage :=
  let n := n_slots w in
  let st := scan w streams in
  let per_key_slots := sort_by (cmp_on fst str_cmp) (per_key_slots st) in
  let never_covered := sort_by str_cmp (never st) in
  let sweep_runs := runs (map negb (swept st)) in
  let sweep_gaps := map (λ r, sweep_gap bars (map fst per_key_slots) (gap_of w r)) sweep_runs in
  let per_key := map (key_coverage w bars sweep_runs) per_key_slots in
  let complete := length (List.filter (λ p, bool_decide (own_runs sweep_runs (snd p) = [])) per_key_slots) in
  let live := length per_key_slots in
  mkCov w n (length (List.filter id (swept st))) (length per_key_slots + length never_covered) live
    never_covered complete sweep_gaps per_key
    (timeline_loop w bars live n 0 (zip sweep_runs sweep_gaps)) (source <$> bars).

(** ** The cases of the tests in the source *)

Definition M : Z := 60000.
Example slots_on_the_grid :
  let w := mkWindow (10 * M + 55000) (20 * M + 30000) M in
  first_slot_ms w = 11 * M ∧ n_slots w = 9%nat ∧ slot_of w (11 * M + 5) = Some 0%nat
  ∧ slot_of w (10 * M + 59000) = None ∧ slot_of w (20 * M) = None
  ∧ window_new 0 (M - 1) M = Err "the window holds no whole slot"
  ∧ key_instrument "mkt_ctx/1:hyperliquid:xyz:CBRS" = "hyperliquid:xyz:CBRS".
Proof. vm_compute. done. Qed.

Definition sample_window : Window := mkWindow 0 (10 * M) M.
Definition sample_streams : list Stream :=
  [mkStream "mkt_ctx/1:x:A" (map (λ m, m * M + 2000) [0; 1; 2; 5; 6; 7; 8; 9]) 8;
   mkStream "mkt_ctx/1:x:B" (map (λ m, m * M + 3000) [0; 1; 2; 5; 6; 8; 9]) 7;
   mkStream "mkt_ctx/1:x:C" [] 10].
Definition sample_bars : Bars :=
  mkBars M "market.db 1m"
    (list_to_map
       [("x:A", map (λ m, mkBar (m * M) (Some (if m =? 3 then 0 else 4))) (seqZ 0 10));
        ("x:B", [mkBar (3 * M) (Some 1)])]).

(** ** Evidence coverage: every slot is accounted for

    The slot grid, runs of slots, what a second source fills, and the two
    properties of a report: each slot of each key is covered, in a gap of the
    key or in a gap of all, and the timeline labels each slot for every key. *)

#[local] Open Scope list_scope.
#[local] Open Scope Z_scope.

(** ** The slot grid *)

Definition window_ok (w : Window) : Prop := 0 < cadence_ms w ∧ from_ms w < to_ms w.

Lemma first_slot_spec w : 0 < cadence_ms w →
  (cadence_ms w | first_slot_ms w) ∧ from_ms w ≤ first_slot_ms w < from_ms w + cadence_ms w.
Proof.
  intros Hc. unfold first_slot_ms. pose proof (Z.div_mod (from_ms w) (cadence_ms w) ltac:(lia)) as H.
  pose proof (Z.mod_pos_bound (from_ms w) (cadence_ms w) Hc) as Hr.
  destruct (Z.eqb_spec (from_ms w mod cadence_ms w) 0) as [E|E].
  - split; [exists (from_ms w / cadence_ms w); lia|lia].
  - split; [exists (from_ms w / cadence_ms w + 1); lia|lia].
Qed.

Lemma n_slots_spec w i : 0 < cadence_ms w →
  (i < n_slots w)%nat ↔ first_slot_ms w + (Z.of_nat i + 1) * cadence_ms w ≤ to_ms w.
Proof.
  intros Hc. unfold n_slots. destruct (Z.ltb_spec (to_ms w) (first_slot_ms w + cadence_ms w)); [split; [lia|nia]|].
  rewrite Z.quot_div_nonneg by lia. set (d := to_ms w - first_slot_ms w).
  pose proof (Z.div_mod d (cadence_ms w) ltac:(lia)). pose proof (Z.mod_pos_bound d (cadence_ms w) Hc).
  assert (0 ≤ d / cadence_ms w) by (apply Z.div_pos; lia).
  split; intros Hi; [assert (Z.of_nat i + 1 ≤ d / cadence_ms w) by lia; nia|].
  assert (Z.of_nat i + 1 ≤ d / cadence_ms w); [|lia]. apply Z.div_le_lower_bound; subst d; lia.
Qed.

Lemma slot_of_spec w t i : 0 < cadence_ms w →
  slot_of w t = Some i ↔ (i < n_slots w)%nat ∧ slot_start w i ≤ t < slot_start w i + cadence_ms w.
Proof.
  intros Hc. unfold slot_of, slot_start. destruct (Z.ltb_spec t (first_slot_ms w)); [split; [done|nia]|].
  rewrite Z.quot_div_nonneg by lia. set (d := t - first_slot_ms w).
  pose proof (Z.div_mod d (cadence_ms w) ltac:(lia)). pose proof (Z.mod_pos_bound d (cadence_ms w) Hc).
  assert (0 ≤ d / cadence_ms w) by (apply Z.div_pos; lia). split.
  - destruct (Nat.ltb_spec (Z.to_nat (d / cadence_ms w)) (n_slots w)); [|done]. intros [= <-]. split; [done|]. lia.
  - intros [Hi Ht]. assert (d / cadence_ms w = Z.of_nat i) as E by nia. rewrite E, Nat2Z.id.
    by destruct (Nat.ltb_spec i (n_slots w)); [|lia].
Qed.

Lemma slot_start_lt w i j : 0 < cadence_ms w → slot_start w i < slot_start w j ↔ (i < j)%nat.
Proof. intros Hc. unfold slot_start. split; intros H; [|nia]. assert (Z.of_nat i < Z.of_nat j); [nia|lia]. Qed.
Lemma slot_start_le w i j : 0 < cadence_ms w → slot_start w i ≤ slot_start w j ↔ (i ≤ j)%nat.
Proof. intros Hc. rewrite <-Z.nlt_ge, slot_start_lt by done. lia. Qed.

(** The slots of a window are the whole cells of the cadence grid inside it:
    each lies on the grid and inside, every such cell is a slot, and an instant
    is in the slot whose cell holds it. [Window::new] refuses a cadence that is
    not positive, an empty span and a window without a whole cell, and nothing
    else. *)
Theorem slots_are_the_whole_cells from_ to_ c :
  (∀ w, window_new from_ to_ c = Ok w →
     (∀ i, (i < n_slots w)%nat →
        (c | slot_start w i) ∧ from_ ≤ slot_start w i ∧ slot_start w i + c ≤ to_) ∧
     (∀ x, (c | x) → from_ ≤ x → x + c ≤ to_ → ∃ i, (i < n_slots w)%nat ∧ slot_start w i = x) ∧
     (∀ t i, slot_of w t = Some i ↔ (i < n_slots w)%nat ∧ slot_start w i ≤ t < slot_start w i + c)) ∧
  ((∃ w, window_new from_ to_ c = Ok w) ↔ 0 < c ∧ from_ < to_ ∧ ∃ x, (c | x) ∧ from_ ≤ x ∧ x + c ≤ to_).
Proof.
  assert (∀ w, 0 < cadence_ms w → ∀ x, (cadence_ms w | x) → from_ms w ≤ x → x + cadence_ms w ≤ to_ms w →
    ∃ i, (i < n_slots w)%nat ∧ slot_start w i = x) as Hcell.
  { intros w Hc x [k ->] Hx1 Hx2. destruct (first_slot_spec w Hc) as [[f Hf] Hb].
    assert (f ≤ k) as Hk by nia. exists (Z.to_nat (k - f)). unfold slot_start. rewrite n_slots_spec by done.
    rewrite Hf, Z2Nat.id by lia. split; lia. }
  split.
  - intros w. unfold window_new. destruct (Z.leb_spec c 0); [done|]. destruct (Z.leb_spec to_ from_); [done|].
    cbv zeta. destruct (_ =? 0)%nat eqn:E; [done|]. intros <-%ok_inj.
    set (w := mkWindow from_ to_ c). assert (0 < cadence_ms w) as Hc by done.
    destruct (first_slot_spec w Hc) as [[f Hf] Hb]. split_and!.
    + intros i Hi. apply n_slots_spec in Hi; [|done]. unfold slot_start.
      change (cadence_ms w) with c in *. change (from_ms w) with from_ in *. change (to_ms w) with to_ in *.
      clearbody w. split; [exists (f + Z.of_nat i); lia|]. split; nia.
    + apply (Hcell w Hc).
    + intros t i. by apply (slot_of_spec w).
  - unfold window_new. split.
    + intros [w H]. destruct (Z.leb_spec c 0); [done|]. destruct (Z.leb_spec to_ from_); [done|]. split; [done|].
      split; [done|]. cbv zeta in H. destruct (Nat.eqb_spec (n_slots (mkWindow from_ to_ c)) 0) as [|Hn]; [done|].
      set (v := mkWindow from_ to_ c) in *. destruct (first_slot_spec v ltac:(done)) as [Hd Hb].
      exists (first_slot_ms v). split; [done|]. split; [apply Hb|].
      assert (0 < n_slots v)%nat as Hi by lia. apply n_slots_spec in Hi; [|done]. cbn [cadence_ms to_ms v] in Hi. lia.
    + intros (Hc & Hft & x & Hx & Hx1 & Hx2). destruct (Z.leb_spec c 0); [lia|]. destruct (Z.leb_spec to_ from_); [lia|].
      cbv zeta. destruct (Hcell (mkWindow from_ to_ c) Hc x Hx Hx1 Hx2) as (i & Hi & _).
      destruct (Nat.eqb_spec (n_slots (mkWindow from_ to_ c)) 0); [lia|]. by eexists.
Qed.

(** ** Runs *)

(** Runs in order, a slot at least between two. *)
Fixpoint separated (lo : nat) (rs : list (nat * nat)) : Prop :=
  match rs with
  | [] => True
  | (a, b) :: rs => (lo ≤ a < b)%nat ∧ separated (S b) rs
  end.

Lemma in_runs_cons a b rs i : in_runs ((a, b) :: rs) i = true ↔ (a ≤ i < b)%nat ∨ in_runs rs i = true.
Proof. change (in_runs ((a, b) :: rs) i) with ((a <=? i)%nat && (i <? b)%nat || in_runs rs i). rewrite orb_true_iff, andb_true_iff, Nat.leb_le, Nat.ltb_lt. done. Qed.

Lemma runs_loop_spec l i start lo :
  (lo ≤ match start with Some s => s | None => i end)%nat → (∀ s, start = Some s → (s < i)%nat) →
  separated lo (runs_loop i start l) ∧
  (∀ j, in_runs (runs_loop i start l) j = true ↔
     (∃ s, start = Some s ∧ (s ≤ j < i)%nat) ∨ (i ≤ j)%nat ∧ l !! (j - i)%nat = Some true) ∧
  (∀ r, r ∈ runs_loop i start l → (snd r ≤ i + length l)%nat).
Proof.
  revert i start lo. induction l as [|g l IH]; intros i start lo Hlo Hs; cbn [runs_loop].
  - destruct start as [s|].
    + specialize (Hs s eq_refl). split; [split; [lia|done]|]. split.
      * intros j. rewrite in_runs_cons. split.
        -- intros [H|H]; [left; by exists s|done].
        -- intros [(s' & [= <-] & H)|[_ H]]; [by left|done].
      * intros r ->%list_elem_of_singleton. cbn. lia.
    + split_and!; [done| |by intros r ?%elem_of_nil]. intros j. split; [done|]. intros [(s & ? & _)|[_ H]]; done.
  - assert (∀ j : nat, (i ≤ j)%nat ∧ (g :: l) !! (j - i)%nat = Some true
      ↔ (j = i ∧ g = true) ∨ (S i ≤ j)%nat ∧ l !! (j - S i)%nat = Some true) as Hl.
    { intros j. destruct (decide (j = i)) as [->|Hne].
      - rewrite Nat.sub_diag. cbn. split; [intros [_ [= ->]]; by left|]. intros [[_ ->]|[? _]]; [done|lia].
      - split.
        + intros [H1 H2]. right. split; [lia|]. replace (j - i)%nat with (S (j - S i)) in H2 by lia. done.
        + intros [[? _]|[H1 H2]]; [done|]. split; [lia|]. by replace (j - i)%nat with (S (j - S i)) by lia. }
    destruct g, start as [s|].
    + specialize (Hs s eq_refl). destruct (IH (S i) (Some s) lo Hlo) as (H1 & H2 & H3); [intros ? [= <-]; lia|].
      split; [done|]. split; [|intros r Hr; specialize (H3 r Hr); cbn; lia].
      intros j. rewrite H2, Hl. split.
      * intros [(s' & [= <-] & H)|H]; [|by right; right]. destruct (decide (j = i)) as [->|]; [by right; left|left; exists s; split; [done|lia]].
      * intros [(s' & [= <-] & H)|[[-> _]|H]]; [left; exists s; split; [done|lia]|left; exists s; split; [done|lia]|by right].
    + destruct (IH (S i) (Some i) lo Hlo) as (H1 & H2 & H3); [intros ? [= <-]; lia|].
      split; [done|]. split; [|intros r Hr; specialize (H3 r Hr); cbn; lia].
      intros j. rewrite H2, Hl. split.
      * intros [(s' & [= <-] & H)|H]; [right; left; split; [lia|done]|by right; right].
      * intros [(s' & ? & _)|[[-> _]|H]]; [done|left; exists i; split; [done|lia]|by right].
    + specialize (Hs s eq_refl). destruct (IH (S i) None (S i)) as (H1 & H2 & H3); [lia|done|].
      split; [split; [lia|done]|]. split.
      * intros j. rewrite in_runs_cons, H2, Hl. split.
        -- intros [H|[(? & ? & _)|H]]; [left; by exists s|done|by right; right].
        -- intros [(s' & [= <-] & H)|[[_ ?]|H]]; [by left|done|by right; right].
      * intros r [->|Hr]%elem_of_cons; cbn; [lia|]. specialize (H3 r Hr). lia.
    + destruct (IH (S i) None lo) as (H1 & H2 & H3); [lia|done|].
      split; [done|]. split; [|intros r Hr; specialize (H3 r Hr); cbn; lia].
      intros j. rewrite H2, Hl. split; [intros [(? & ? & _)|H]; [done|by right; right]|].
      intros [(? & ? & _)|[[_ ?]|H]]; [done|done|by right].
Qed.

(** The runs of a list are its maximal stretches of [true]. *)
Lemma runs_spec l :
  separated 0 (runs l) ∧ (∀ i, in_runs (runs l) i = true ↔ l !! i = Some true)
  ∧ ∀ r, r ∈ runs l → (snd r ≤ length l)%nat.
Proof.
  destruct (runs_loop_spec l 0 None 0) as (H1 & H2 & H3); [lia|done|]. split; [done|]. split; [|exact H3].
  intros i. unfold runs. rewrite H2. rewrite Nat.sub_0_r. split; [intros [(? & ? & _)|[_ H]]; done|].
  intros H. right. split; [lia|done].
Qed.

(** ** What the streams cover *)

(** A row of [s] with a status that covers was observed in slot [i]. *)
Definition covers (w : Window) (s : Stream) (i : nat) : Prop := ∃ t, t ∈ covered_ms s ∧ slot_of w t = Some i.
#[export] Instance covers_dec w s i : Decision (covers w s i).
Proof.
  destruct (decide (Exists (λ t, slot_of w t = Some i) (covered_ms s))) as [H|H]; rewrite Exists_exists in H; [by left|by right].
Defined.
Definition swept_by (w : Window) (streams : list Stream) (i : nat) : Prop := ∃ s, s ∈ streams ∧ covers w s i.

Definition cov_of (w : Window) (s : Stream) : list bool := mark_all w (replicate (n_slots w) false) (covered_ms s).
Definition live_streams (w : Window) : list Stream → list Stream := filter (λ s, existsb id (cov_of w s) = true).
Definition never_streams (w : Window) : list Stream → list Stream :=
  filter (λ s, existsb id (cov_of w s) = false ∧ ((0 < rows s)%nat ∨ covered_ms s ≠ [])).

Lemma slot_of_lt w t i : slot_of w t = Some i → (i < n_slots w)%nat.
Proof.
  unfold slot_of. destruct (_ <? _); [done|]. destruct (Nat.ltb_spec (Z.to_nat (Z.quot (t - first_slot_ms w) (cadence_ms w))) (n_slots w)); [|done].
  by intros [= <-].
Qed.

Lemma mark_length w cov t : length (mark w cov t) = length cov.
Proof. unfold mark. destruct (slot_of w t); [apply length_insert|done]. Qed.
Lemma mark_all_length w ts cov : length (mark_all w cov ts) = length cov.
Proof. unfold mark_all. revert cov. induction ts as [|t ts IH]; intros cov; cbn; [done|]. by rewrite IH, mark_length. Qed.

Lemma mark_lookup w cov t i : length cov = n_slots w →
  mark w cov t !! i = Some true ↔ slot_of w t = Some i ∨ cov !! i = Some true.
Proof.
  intros Hl. unfold mark. destruct (slot_of w t) as [j|] eqn:E; [|split; [by right|intros [|]; done]].
  apply slot_of_lt in E. destruct (decide (i = j)) as [->|Hne].
  - rewrite list_lookup_insert_eq by lia. split; [by left|done].
  - rewrite list_lookup_insert_ne by done. split; [by right|]. intros [[= ->]|]; done.
Qed.
Lemma mark_all_lookup w ts cov i : length cov = n_slots w →
  mark_all w cov ts !! i = Some true ↔ (∃ t, t ∈ ts ∧ slot_of w t = Some i) ∨ cov !! i = Some true.
Proof.
  unfold mark_all. revert cov. induction ts as [|t ts IH]; intros cov Hl; cbn.
  - split; [by right|]. intros [(t & ?%elem_of_nil & _)|]; done.
  - rewrite IH, mark_lookup by (by rewrite ?mark_length). split.
    + intros [(t' & ? & ?)|[?|?]]; [left; exists t'; split; [by right|done]|left; exists t; split; [by left|done]|by right].
    + intros [(t' & [->|?]%elem_of_cons & ?)|?]; [by right; left|left; by exists t'|by right; right].
Qed.

Lemma cov_of_length w s : length (cov_of w s) = n_slots w.
Proof. unfold cov_of. by rewrite mark_all_length, length_replicate. Qed.
Lemma cov_of_lookup w s i : cov_of w s !! i = Some true ↔ covers w s i.
Proof.
  unfold cov_of. rewrite mark_all_lookup by apply length_replicate. split; [|by left].
  intros [H|[? ?]%lookup_replicate_1]; done.
Qed.
Lemma live_iff w s : existsb id (cov_of w s) = true ↔ ∃ i, covers w s i.
Proof.
  rewrite existsb_exists. split.
  - intros ([] & Hin%list_elem_of_In & Hx); [|done]. apply list_elem_of_lookup in Hin as [i Hi]. exists i. by apply cov_of_lookup.
  - intros [i Hi%cov_of_lookup]. exists true. split; [|done]. apply list_elem_of_In, list_elem_of_lookup. by exists i.
Qed.

(** The loop over the streams is a filter, and [swept] the union. *)
Lemma scan_spec w streams :
  let st := scan w streams in
  per_key_slots st = map (λ s, (key s, cov_of w s)) (live_streams w streams)
  ∧ never st = map key (never_streams w streams)
  ∧ length (swept st) = n_slots w
  ∧ ∀ i, swept st !! i = Some true ↔ swept_by w streams i.
Proof.
  unfold scan. cut (∀ st0, length (swept st0) = n_slots w →
    let st := fold_left (scan_one w) streams st0 in
    per_key_slots st = per_key_slots st0 ++ map (λ s, (key s, cov_of w s)) (live_streams w streams)
    ∧ never st = never st0 ++ map key (never_streams w streams)
    ∧ length (swept st) = n_slots w
    ∧ ∀ i, swept st !! i = Some true ↔ swept_by w streams i ∨ swept st0 !! i = Some true).
  { intros Hall. destruct (Hall (mkScan (replicate (n_slots w) false) [] []) (length_replicate _ _)) as (H1 & H2 & H3 & H4).
    split_and!; [done..|]. intros i. rewrite H4. split; [|by left]. cbn [swept]. by intros [?|[? _]%lookup_replicate_1]. }
  induction streams as [|s streams IH]; intros st0 Hl; cbn [fold_left].
  - cbn. rewrite !app_nil_r. split_and!; [done..|]. intros i. split; [by right|]. intros [(? & ?%elem_of_nil & _)|?]; done.
  - assert (swept (scan_one w st0 s) = mark_all w (swept st0) (covered_ms s)) as Hsw.
    { unfold scan_one. cbv zeta. by repeat case_match. }
    destruct (IH (scan_one w st0 s)) as (H1 & H2 & H3 & H4); [by rewrite Hsw, mark_all_length|].
    split_and!; [..|done|].
    + rewrite H1. unfold live_streams, scan_one, cov_of. cbv zeta. rewrite filter_cons. fold (cov_of w s).
      destruct (existsb id (cov_of w s)) eqn:E; cbn; [by rewrite <-app_assoc|]. by repeat case_match.
    + rewrite H2. unfold never_streams, scan_one. cbv zeta. rewrite filter_cons. fold (cov_of w s).
      destruct (existsb id (cov_of w s)) eqn:E.
      * rewrite decide_False by (by intros [? _]). done.
      * destruct ((0 <? rows s)%nat || negb (bool_decide (covered_ms s = []))) eqn:Eb.
        -- rewrite decide_True; [cbn; by rewrite <-app_assoc|]. split; [done|].
           apply orb_true_iff in Eb as [?%Nat.ltb_lt|Hb%negb_true_iff]; [by left|right]. by apply bool_decide_eq_false in Hb.
        -- rewrite decide_False; [done|]. intros [_ Hd]. apply orb_false_iff in Eb as [?%Nat.ltb_ge Hb%negb_false_iff].
           apply bool_decide_eq_true in Hb. destruct Hd; [lia|done].
    + intros i. rewrite H4, Hsw, mark_all_lookup by done. unfold swept_by. split.
      * intros [(s' & ? & ?)|[?|?]]; [left; exists s'; split; [by right|done]|left; exists s; split; [by left|done]|by right].
      * intros [(s' & [->|?]%elem_of_cons & ?)|?]; [by right; left|left; by exists s'|by right; right].
Qed.

(** ** The second source *)

Definition has_bar (b : Bars) (instrument : string) (m : Z) : Prop :=
  ∃ x, x ∈ default [] (by_instrument b !! instrument) ∧ t_open_ms x = m.

(** The second source has a bar of [k] for every bar time that meets the gap. *)
Definition fills (bars : option Bars) (k : string) (g : Gap) : Prop :=
  ∃ b, bars = Some b ∧
    let step := Z.max (bar_ms b) 1 in
    ∀ m, (step | m) → g_from_ms g - step < m < g_to_ms g → has_bar b (key_instrument k) m.

Lemma bars_of_lookup b instrument m : is_Some (bars_of b instrument !! m) ↔ has_bar b instrument m.
Proof.
  unfold bars_of, has_bar. generalize (default [] (by_instrument b !! instrument)). intros l.
  cut (∀ m0 : gmap Z (option Z), is_Some (fold_left (λ m b, <[t_open_ms b := trades b]> m) l m0 !! m)
    ↔ (∃ x, x ∈ l ∧ t_open_ms x = m) ∨ is_Some (m0 !! m)).
  { intros H. rewrite H, lookup_empty. split; [|by left]. intros [|[? ?]]; done. }
  induction l as [|x l IH]; intros m0; cbn [fold_left].
  - split; [by right|]. intros [(? & ?%elem_of_nil & _)|]; done.
  - rewrite IH, lookup_insert_is_Some'. split.
    + intros [(y & ? & ?)|[?|?]]; [left; exists y; split; [by right|done]|left; exists x; split; [by left|done]|by right].
    + intros [(y & [->|?]%elem_of_cons & ?)|?]; [by right; left|left; by exists y|by right; right].
Qed.

Lemma fill_loop_spec have step to_ fuel m f : 0 < step → (Z.to_nat (to_ - m) < fuel)%nat →
  ∃ N B, let f' := fill_loop fuel have step to_ m f in
    minutes f' = (minutes f + N)%nat ∧ backfilled f' = (backfilled f + B)%nat ∧ (B ≤ N)%nat
    ∧ ((0 < N)%nat ↔ m < to_)
    ∧ (B = N ↔ ∀ j, 0 ≤ j → m + j * step < to_ → is_Some (have !! (m + j * step))).
Proof.
  intros Hs. revert m f. induction fuel as [|fuel IH]; intros m f Hf; [lia|]. cbn [fill_loop].
  destruct (Z.ltb_spec m to_) as [Hm|Hm].
  2: { exists O, O. cbn. split_and!; [lia..|]. split; [intros _ j Hj1 Hj2; nia|done]. }
  set (f1 := match have !! m with Some _ => _ | None => _ end).
  destruct (IH (m + step) f1) as (N & B & H1 & H2 & H3 & H4 & H5); [lia|]. cbv zeta in H1, H2.
  assert (∀ P : Z → Prop, (∀ j, 0 ≤ j → m + j * step < to_ → P (m + j * step))
    ↔ P m ∧ ∀ j, 0 ≤ j → m + step + j * step < to_ → P (m + step + j * step)) as Hsplit.
  { intros P. split.
    - intros H. split; [rewrite <-(Z.add_0_r m); apply (H 0); lia|]. intros j Hj Hlt.
      replace (m + step + j * step) with (m + (j + 1) * step) by lia. apply H; lia.
    - intros [H0 H] j Hj Hlt. destruct (decide (j = 0)) as [->|]; [by rewrite Z.add_0_r|].
      replace (m + j * step) with (m + step + (j - 1) * step) by lia. apply H; lia. }
  exists (S N). destruct (have !! m) as [tr|] eqn:E; [exists (S B)|exists B]; cbv zeta; rewrite H1, H2; cbn;
    rewrite (Hsplit (λ m, is_Some (have !! m))), <-H5; split_and!; try lia.
  - rewrite E. split; [intros; split; [by eexists|lia]|intros [_ ?]; lia].
  - rewrite E. split; [intros; lia|intros [[? ?] _]; done].
Qed.

(** [gap_fill] labels a gap as filled when every bar time is there. *)
Lemma gap_fill_label b k g : g_from_ms g < g_to_ms g →
  fill_label (gap_fill b (key_instrument k) (g_from_ms g) (g_to_ms g)) = Backfilled ↔ fills (Some b) k g.
Proof.
  intros Hg. unfold gap_fill. cbv zeta. set (step := Z.max (bar_ms b) 1). assert (0 < step) as Hs by lia.
  pose proof (Z.div_mod (g_from_ms g) step ltac:(lia)) as Hd. pose proof (Z.mod_pos_bound (g_from_ms g) step Hs) as Hr.
  set (q := g_from_ms g / step) in *. set (m := q * step).
  destruct (fill_loop_spec (bars_of b (key_instrument k)) step (g_to_ms g) (fill_fuel m (g_to_ms g)) m (mkFill 0 0 0) Hs)
    as (N & B & H1 & H2 & H3 & H4 & H5); [unfold fill_fuel; lia|]. cbn [minutes backfilled] in H1, H2.
  assert (0 < N)%nat as HN by (apply H4; lia).
  transitivity (B = N).
  { unfold fill_label. rewrite H1, H2. destruct (Nat.ltb_spec 0 (0 + N)%nat); [|lia]. cbn [andb].
    destruct (Nat.eqb_spec (0 + B) (0 + N)%nat); split; done || lia. }
  rewrite H5. unfold fills. split.
  - intros H. exists b. split; [done|]. intros x [y ->] Hx. apply bars_of_lookup. fold step.
    replace (y * step) with (m + (y - q) * step) by lia. fold step in Hx. apply H; [|lia].
    assert (q - 1 < y); [|lia]. apply (Zmult_lt_reg_r _ _ step); lia.
  - intros (? & [= <-] & H) j Hj Hlt. apply bars_of_lookup, H; fold step; [exists (q + j); lia|]. lia.
Qed.

Lemma sweep_gap_gap bars live g : s_gap (sweep_gap bars live g) = g.
Proof.
  unfold sweep_gap. destruct bars as [b|]; [|done]. generalize (mkSweep g 0 [] 0 0), (eq_refl : s_gap (mkSweep g 0 [] 0 0) = g).
  induction live as [|k live IH]; intros acc Hacc; cbn [fold_left]; [done|]. apply IH. unfold sweep_key. cbv zeta. by case_match.
Qed.

(** A sweep gap counts the live keys it is filled for and lists the rest. *)
Lemma sweep_gap_spec bars live g : g_from_ms g < g_to_ms g →
  ∃ full, live ≡ₚ full ++ missing_keys (sweep_gap bars live g)
    ∧ backfilled_keys (sweep_gap bars live g) = length full
    ∧ (∀ k, k ∈ full → fills bars k g) ∧ (∀ k, k ∈ missing_keys (sweep_gap bars live g) → ¬ fills bars k g).
Proof.
  intros Hg. unfold sweep_gap. destruct bars as [b|].
  2: { exists []. cbn. split_and!; [done..|by intros ? ?%elem_of_nil|]. intros k _ (b & ? & _). done. }
  cut (∀ acc, ∃ full, let r := fold_left (sweep_key b g) live acc in
    ∃ rest, missing_keys r = missing_keys acc ++ rest ∧ live ≡ₚ full ++ rest
    ∧ backfilled_keys r = (backfilled_keys acc + length full)%nat
    ∧ (∀ k, k ∈ full → fills (Some b) k g) ∧ (∀ k, k ∈ rest → ¬ fills (Some b) k g)).
  { intros H. destruct (H (mkSweep g 0 [] 0 0)) as (full & rest & Hm & H1 & H2 & H3 & H4). exists full.
    rewrite Hm. cbn. split_and!; done. }
  induction live as [|k live IH]; intros acc; cbn [fold_left].
  - exists [], []. rewrite app_nil_r. split_and!; [done..|cbn; lia|by intros ? ?%elem_of_nil|by intros ? ?%elem_of_nil].
  - destruct (IH (sweep_key b g acc k)) as (full & rest & Hm & H1 & H2 & H3 & H4).
    destruct (decide (fill_label (gap_fill b (key_instrument k) (g_from_ms g) (g_to_ms g)) = Backfilled)) as [E|E].
    + exists (k :: full), rest. cbv zeta. rewrite Hm, H2. unfold sweep_key. rewrite E. cbn. split_and!; [done|by rewrite H1|lia| |done].
      intros k' [->|?]%elem_of_cons; [by apply gap_fill_label|by apply H3].
    + exists full, (k :: rest). cbv zeta. rewrite Hm, H2. unfold sweep_key. cbv zeta.
      assert (missing_keys (sweep_key b g acc k) = missing_keys acc ++ [k] ∧ backfilled_keys (sweep_key b g acc k) = backfilled_keys acc)
        as [Hk1 Hk2] by (unfold sweep_key; cbv zeta; by case_match).
      unfold sweep_key in Hk1, Hk2. cbv zeta in Hk1, Hk2. rewrite Hk1, Hk2, <-app_assoc.
      split_and!; [done|rewrite H1; apply Permutation_middle|lia|done|].
      intros k' [->|?]%elem_of_cons; [by rewrite <-gap_fill_label|by apply H4].
Qed.

(** ** Gaps and the timeline *)

(** Slot [i] lies in the gap. *)
Definition in_gap (w : Window) (i : nat) (g : Gap) : Prop := g_from_ms g ≤ slot_start w i < g_to_ms g.

Lemma in_gap_of w i r : 0 < cadence_ms w → in_gap w i (gap_of w r) ↔ (fst r ≤ i < snd r)%nat.
Proof. intros Hc. unfold in_gap, gap_of. cbn [g_from_ms g_to_ms]. by rewrite slot_start_le, slot_start_lt. Qed.

Lemma in_runs_exists rs i : in_runs rs i = true ↔ ∃ r, r ∈ rs ∧ (fst r ≤ i < snd r)%nat.
Proof.
  unfold in_runs. rewrite existsb_exists.
  by split; intros (r & Hr & Hi); exists r; revert Hr Hi; rewrite list_elem_of_In, andb_true_iff, Nat.leb_le, Nat.ltb_lt.
Qed.

Lemma separated_weaken lo lo' rs : (lo ≤ lo')%nat → separated lo' rs → separated lo rs.
Proof. destruct rs as [|[a b] rs]; [done|]. intros ? [??]. split; [lia|done]. Qed.
Lemma separated_nonempty lo rs r : separated lo rs → r ∈ rs → (lo ≤ fst r < snd r)%nat.
Proof.
  revert lo. induction rs as [|[a b] rs IH]; intros lo; [by intros _ ?%elem_of_nil|]. intros [? Hs] [->|Hr]%elem_of_cons; [done|].
  specialize (IH (S b) Hs Hr). cbn in *. lia.
Qed.

(** The keys an interval of the timeline labels [p] at slot [i], all intervals together. *)
Definition labelled (w : Window) (tl : list Interval) (p : Provenance) (i : nat) : nat :=
  sum_list_with i_keys (filter (λ v, label v = p ∧ i_from_ms v ≤ slot_start w i < i_to_ms v) tl).
Definition share (p : Provenance) (g : SweepGap) : nat :=
  match p with Backfilled => backfilled_keys g | Missing => length (missing_keys g) | _ => O end.

Lemma labelled_app w l1 l2 p i : labelled w (l1 ++ l2) p i = (labelled w l1 p i + labelled w l2 p i)%nat.
Proof. unfold labelled. by rewrite filter_app, sum_list_with_app. Qed.
Lemma labelled_one w v p i :
  labelled w [v] p i = if decide (label v = p ∧ i_from_ms v ≤ slot_start w i < i_to_ms v) then i_keys v else O.
Proof. unfold labelled. rewrite filter_cons, filter_nil. case_decide; cbn; lia. Qed.

Lemma live_interval_labelled w live a b p i : 0 < cadence_ms w →
  labelled w (live_interval w live a b) p i = if decide (p = LiveRecorded ∧ (a ≤ i < b)%nat) then live else O.
Proof.
  intros Hc. unfold live_interval. destruct (Nat.ltb_spec a b).
  - rewrite labelled_one. cbn [label i_from_ms i_to_ms i_keys].
    rewrite (decide_ext _ (p = LiveRecorded ∧ (a ≤ i < b)%nat)); [done|]. rewrite slot_start_le, slot_start_lt by done.
    split; intros [-> ?]; done.
  - rewrite decide_False by lia. done.
Qed.

Lemma gap_intervals_labelled w bars g r p i : 0 < cadence_ms w → s_gap g = gap_of w r →
  labelled w (gap_intervals bars g) p i = if decide (fst r ≤ i < snd r)%nat then share p g else O.
Proof.
  intros Hc Hg. unfold gap_intervals. rewrite labelled_app, Hg. pose proof (in_gap_of w i r Hc) as Hin. unfold in_gap in Hin.
  assert (∀ q k note, labelled w [mkInterval (g_from_ms (gap_of w r)) (g_to_ms (gap_of w r)) q k note] p i
    = if decide (fst r ≤ i < snd r)%nat then (if decide (q = p) then k else O) else O) as H1.
  { intros q k nt. rewrite labelled_one. cbn [label i_from_ms i_to_ms i_keys]. repeat case_decide; tauto. }
  destruct (Nat.ltb_spec 0 (backfilled_keys g)) as [Hb|Hb]; rewrite ?H1;
    (destruct (bool_decide (missing_keys g = [])) eqn:Em; cbn [negb];
       [apply bool_decide_eq_true in Em|apply bool_decide_eq_false in Em; rewrite H1]);
    change (labelled w [] p i) with O; destruct (decide (fst r ≤ i < snd r)%nat); [|lia| |lia| |lia| |lia];
    destruct p; cbn [share]; rewrite ?Em; repeat case_decide; cbn [length]; try done; lia.
Qed.

Definition holds_slot (i : nat) (x : (nat * nat) * SweepGap) : bool := (fst (fst x) <=? i)%nat && (i <? snd (fst x))%nat.

Lemma timeline_loop_labelled w bars live n cursor rs p i : 0 < cadence_ms w →
  separated cursor (map fst rs) → (∀ r, r ∈ map fst rs → (snd r ≤ n)%nat) → Forall (λ x, s_gap (snd x) = gap_of w (fst x)) rs →
  labelled w (timeline_loop w bars live n cursor rs) p i =
    if decide (cursor ≤ i < n)%nat then
      match List.find (holds_slot i) rs with
      | Some x => share p (snd x)
      | None => if decide (p = LiveRecorded) then live else O
      end
    else O.
Proof.
  intros Hc. revert cursor. induction rs as [|[[a b] g] rs IH]; intros cursor Hsep Hn Hg.
  - cbn [timeline_loop List.find]. rewrite live_interval_labelled by done. repeat case_decide; tauto.
  - apply Forall_cons in Hg as [Hg1 Hg]. cbn [map fst snd separated] in *. destruct Hsep as [Hab Hsep].
    assert (b ≤ n)%nat as Hbn by (apply (Hn (a, b)); by left).
    cbn [timeline_loop fst snd]. rewrite !labelled_app, live_interval_labelled, (gap_intervals_labelled _ _ _ (a, b)) by done.
    rewrite (IH b); [|by apply (separated_weaken _ (S b)); [lia|]|intros r Hr; apply Hn; by right|done].
    cbn [List.find fst snd]. unfold holds_slot at 2. cbn [fst snd].
    assert (List.find (holds_slot i) rs = None ∨ (b ≤ i)%nat) as Hf.
    { destruct (List.find (holds_slot i) rs) as [x|] eqn:Ef; [right|by left]. apply find_some in Ef as [Hx Hi].
      apply andb_true_iff in Hi as [Hi%Nat.leb_le _]. 
      assert (fst x ∈ map fst rs) as Hx' by (apply list_elem_of_fmap; exists x; split; [done|by apply list_elem_of_In]).
      pose proof (separated_nonempty _ _ _ Hsep Hx'). lia. }
    destruct (Nat.leb_spec a i), (Nat.ltb_spec i b); cbn [andb];
      repeat (case_decide || lia); try tauto; try lia; try (destruct Hf as [-> |]; lia);
      destruct p; cbn [share]; done || lia.
Qed.

(** ** The report *)

#[export] Instance swept_by_dec w streams i : Decision (swept_by w streams i).
Proof.
  destruct (decide (Exists (λ s, covers w s i) streams)) as [H|H]; rewrite Exists_exists in H; [by left|by right].
Defined.

Lemma covers_lt w s i : covers w s i → (i < n_slots w)%nat.
Proof. intros (t & _ & H). by apply slot_of_lt in H. Qed.
Lemma exists_slot w (P : nat → Prop) : (∀ i, P i → (i < n_slots w)%nat) → Exists P (seq 0 (n_slots w)) ↔ ∃ i, P i.
Proof.
  intros HP. rewrite Exists_exists. split; [intros (i & _ & ?); by exists i|]. intros (i & Hi). exists i.
  split; [|done]. apply elem_of_seq. specialize (HP i Hi). lia.
Qed.

Lemma live_streams_eq w streams :
  live_streams w streams = filter (λ s, Exists (covers w s) (seq 0 (n_slots w))) streams.
Proof. apply list_filter_iff. intros s. rewrite live_iff, exists_slot; [done|]. apply covers_lt. Qed.
Lemma never_streams_eq w streams : never_streams w streams =
  filter (λ s, ¬ Exists (covers w s) (seq 0 (n_slots w)) ∧ ((0 < rows s)%nat ∨ covered_ms s ≠ [])) streams.
Proof.
  apply list_filter_iff. intros s. rewrite exists_slot by apply covers_lt. rewrite <-live_iff. by rewrite not_true_iff_false.
Qed.

Lemma count_true (P : nat → Prop) `{∀ i, Decision (P i)} l o : (∀ i, l !! i = Some true ↔ P (o + i)%nat ∧ (i < length l)%nat) →
  length (List.filter id l) = length (filter P (seq o (length l))).
Proof.
  revert o. induction l as [|x l IH]; intros o Hl; [done|]. cbn [length seq]. rewrite filter_cons. cbn [List.filter].
  assert (length (List.filter id l) = length (filter P (seq (S o) (length l)))) as IH'.
  { apply IH. intros i. specialize (Hl (S i)). cbn in Hl. rewrite Hl, <-plus_n_Sm. split; intros [? ?]; (split; [done|lia]). }
  specialize (Hl O) as H0. rewrite Nat.add_0_r in H0. cbn in H0. destruct x; cbn [id].
  - rewrite decide_True; [cbn; by rewrite IH'|]. by apply H0.
  - rewrite decide_False; [done|]. intros HP. assert (Some false = Some true) by (apply H0; split; [done|lia]). done.
Qed.

Section report.
Context (w : Window) (Hc : 0 < cadence_ms w) (streams : list Stream) (bars : option Bars).
#[local] Definition scanned := scan w streams.
#[local] Definition run_list := runs (map negb (swept scanned)).

Lemma rs_spec : separated 0 run_list ∧ (∀ r, r ∈ run_list → (snd r ≤ n_slots w)%nat)
∧ ∀ i, (i < n_slots w)%nat → in_runs run_list i = true ↔ ¬ swept_by w streams i.
Proof.
destruct (runs_spec (map negb (swept scanned))) as (H1 & H2 & H3). destruct (scan_spec w streams) as (_ & _ & Hl & Hs).
fold scanned in Hl, Hs. split_and!; [done| |].
- intros r Hr. apply H3 in Hr. by rewrite length_map, Hl in Hr.
- intros i Hi. unfold run_list. rewrite H2. rewrite <-Hs. change (map negb (swept scanned)) with (negb <$> swept scanned).
  rewrite list_lookup_fmap. destruct (lookup_lt_is_Some_2 (swept scanned) i) as [b ->]; [lia|]. destruct b; cbn; split; congruence.
Qed.

Lemma sweep_gaps_eq : map s_gap (sweep_gaps (coverage w streams bars)) = map (gap_of w) run_list.
Proof.
cbn [sweep_gaps coverage]. rewrite map_map. fold scanned. fold run_list. apply map_ext. intros r. apply sweep_gap_gap.
Qed.

Lemma own_runs_spec s : let own := own_runs run_list (cov_of w s) in
separated 0 own ∧ ∀ i, in_runs own i = true ↔ (i < n_slots w)%nat ∧ ¬ covers w s i ∧ swept_by w streams i.
Proof.
intros own. destruct rs_spec as (_ & _ & H3). unfold own, own_runs.
destruct (runs_spec (imap (λ i c, negb c && negb (in_runs run_list i)) (cov_of w s))) as (H1 & H2 & _).
split; [done|]. intros i. rewrite H2, list_lookup_imap. destruct (cov_of w s !! i) as [b|] eqn:E; cbn.
- pose proof (lookup_lt_Some _ _ _ E) as Hlt. rewrite cov_of_length in Hlt. rewrite <-(cov_of_lookup w s i), E.
  specialize (H3 i Hlt). split.
  + intros [= [->%negb_true_iff Hr%negb_true_iff]%andb_true_iff]. split; [done|]. split; [done|].
    destruct (decide (swept_by w streams i)) as [|Hn]; [done|]. apply H3 in Hn. congruence.
  + intros (_ & Hb & Hsw). destruct b; [done|]. cbn. destruct (in_runs run_list i); [|done]. by destruct (proj1 H3).
- split; [done|]. intros [Hlt _]. apply lookup_ge_None in E. rewrite cov_of_length in E. lia.
Qed.
End report.

Lemma own_gaps_spec w streams bars s : 0 < cadence_ms w →
  let k := key_coverage w bars (run_list w streams) (key s, cov_of w s) in
  (∀ i, (i < n_slots w)%nat →
     (∃ g, g ∈ map k_gap (own_gaps k) ∧ in_gap w i g) ↔ ¬ covers w s i ∧ swept_by w streams i)
  ∧ (own_runs (run_list w streams) (cov_of w s) = [] ↔
     Forall (λ i, swept_by w streams i → covers w s i) (seq 0 (n_slots w))).
Proof.
  intros Hc k. destruct (own_runs_spec w streams s) as [Hsep Ho]. split.
  - intros i Hi. unfold k, key_coverage. cbn [own_gaps snd fst]. rewrite map_map.
    transitivity (in_runs (own_runs (run_list w streams) (cov_of w s)) i = true); [|rewrite Ho; tauto].
    rewrite in_runs_exists. split.
    + intros (g & Hg & Hig). apply list_elem_of_fmap in Hg as (r & -> & Hr). exists r. split; [done|]. by apply (in_gap_of w).
    + intros (r & Hr & Hir). exists (gap_of w r). split; [|by apply in_gap_of]. apply list_elem_of_fmap. by exists r.
  - rewrite Forall_forall. split.
    + intros E i Hi%elem_of_seq Hsw. destruct (decide (covers w s i)) as [|Hn]; [done|].
      assert (in_runs (own_runs (run_list w streams) (cov_of w s)) i = true) as H by (apply Ho; split_and!; [lia|done..]).
      by rewrite E in H.
    + intros H. destruct (own_runs _ _) as [|[a b] l] eqn:E; [done|]. exfalso. destruct Hsep as [Hab _].
      assert (in_runs ((a, b) :: l) a = true) as Ha by (apply in_runs_cons; left; lia).
      apply Ho in Ha as (Hlt & Hn & Hsw). apply Hn, H; [apply elem_of_seq; lia|done].
Qed.

(** Every slot of every key is accounted for. A report has one entry for each
    stream that covers a slot, with the number of slots it covers; its own gaps
    hold exactly the slots another stream covers and it does not, and the sweep
    gaps exactly the slots no stream covers. A stream with rows and no covered
    slot is listed apart; a key is complete when it covers every slot that any
    covers; gaps follow each other with a slot between them. *)
Theorem gaps_are_what_no_row_covers w streams bars : 0 < cadence_ms w →
  let c := coverage w streams bars in
  let slots := seq 0 (n_slots w) in
  ∃ live, live ≡ₚ filter (λ s, Exists (covers w s) slots) streams
   ∧ Forall2 (λ s k, k_key k = key s ∧ covered_slots k = length (filter (covers w s) slots)
        ∧ ∀ i, (i < n_slots w)%nat →
            (∃ g, g ∈ map k_gap (own_gaps k) ∧ in_gap w i g) ↔ ¬ covers w s i ∧ swept_by w streams i)
       live (per_key c)
   ∧ (∀ i, (i < n_slots w)%nat → (∃ g, g ∈ map s_gap (sweep_gaps c) ∧ in_gap w i g) ↔ ¬ swept_by w streams i)
   ∧ never_covered c ≡ₚ map key (filter (λ s, ¬ Exists (covers w s) slots ∧ ((0 < rows s)%nat ∨ covered_ms s ≠ [])) streams)
   ∧ swept_slots c = length (filter (swept_by w streams) slots)
   ∧ complete_keys c = length (filter (λ s, Forall (λ i, swept_by w streams i → covers w s i) slots) live)
   ∧ live_keys c = length live ∧ keys c = (live_keys c + length (never_covered c))%nat
   ∧ ∃ rs, map s_gap (sweep_gaps c) = map (gap_of w) rs ∧ separated 0 rs.
Proof.
  intros Hc c slots. destruct (scan_spec w streams) as (H1 & H2 & H3 & H4).
  destruct (rs_spec w streams) as (R1 & R2 & R3).
  pose proof (sort_by_perm (cmp_on fst str_cmp) (per_key_slots (scan w streams))) as Hp.
  rewrite H1 in Hp at 2. apply Permutation_map_inv in Hp as (live & Heq & Hlive%Permutation_sym).
  exists live. rewrite <-live_streams_eq, <-never_streams_eq.
  split; [done|]. split; [|split_and!].
  - cbn [per_key c coverage]. rewrite Heq, map_map. change (runs _) with (run_list w streams).
    apply Forall2_fmap_r, Forall_Forall2_diag, Forall_forall. intros s _. split; [done|]. split; [|by apply own_gaps_spec].
    cbn [key_coverage covered_slots snd]. rewrite (count_true (covers w s) (cov_of w s) 0), cov_of_length; [done|].
    intros i. rewrite cov_of_lookup, cov_of_length. cbn. split; [|by intros []]. intros Hs. split; [done|by apply (covers_lt w s)].
  - intros i Hi. rewrite <-R3 by done. unfold c. rewrite sweep_gaps_eq, in_runs_exists. split.
    + intros (g & Hg & Hig). apply list_elem_of_fmap in Hg as (r & -> & Hr). exists r. split; [done|]. by apply (in_gap_of w).
    + intros (r & Hr & Hir). exists (gap_of w r). split; [|by apply in_gap_of]. apply list_elem_of_fmap. by exists r.
  - cbn [never_covered c coverage]. by rewrite sort_by_perm, H2.
  - cbn [swept_slots c coverage]. rewrite (count_true (swept_by w streams) (swept (scan w streams)) 0), H3; [done|].
    intros i. rewrite H4, H3. cbn. split; [|by intros []]. intros Hs. split; [done|]. destruct Hs as (s & _ & Hs). by apply (covers_lt w s).
  - cbn [complete_keys c coverage]. rewrite Heq. change (runs _) with (run_list w streams). clear -Hc.
    induction live as [|s live IH]; [done|]. cbn [map List.filter snd]. rewrite filter_cons.
    destruct (own_gaps_spec w streams None s Hc) as [_ Ho]. case_bool_decide as E; cbn [length].
    + rewrite decide_True; [cbn; by rewrite IH|by apply Ho].
    + rewrite decide_False; [done|by intros HF%Ho].
  - cbn [live_keys c coverage]. by rewrite Heq, length_map.
  - done.
  - exists (run_list w streams). split; [apply sweep_gaps_eq|done].
Qed.

Lemma gaps_are_what_no_row_covers_witness :
  0 < cadence_ms sample_window ∧ ∃ g, g ∈ map s_gap (sweep_gaps (coverage sample_window sample_streams None)).
Proof.
  split; [done|].
  destruct (gaps_are_what_no_row_covers sample_window sample_streams None eq_refl) as (_ & _ & _ & H & _).
  destruct (proj2 (H 3%nat ltac:(vm_compute; lia))) as (g & Hg & _); [|by exists g].
  by apply (bool_decide_eq_false_1 (swept_by sample_window sample_streams 3)); vm_compute.
Defined.

(** The timeline labels every slot of the window for every live key, once. A
    slot some stream covers is live for all of them; any other slot is in one
    gap, backfilled for exactly the keys the second source has a bar of at every
    bar time that meets the gap, missing for the rest, and for all when there is
    no second source. *)
Theorem the_timeline_labels_every_slot w streams bars i : 0 < cadence_ms w → (i < n_slots w)%nat →
  let c := coverage w streams bars in
  let at_ p := labelled w (timeline c) p i in
  (swept_by w streams i → at_ LiveRecorded = live_keys c ∧ at_ Backfilled = O ∧ at_ Missing = O) ∧
  (¬ swept_by w streams i → at_ LiveRecorded = O ∧
     ∃ g full rest, g ∈ map s_gap (sweep_gaps c) ∧ in_gap w i g ∧ map k_key (per_key c) ≡ₚ full ++ rest
       ∧ (∀ k, k ∈ full → fills bars k g) ∧ (∀ k, k ∈ rest → ¬ fills bars k g)
       ∧ at_ Backfilled = length full ∧ at_ Missing = length rest) ∧
  (∀ p, p ≠ LiveRecorded → p ≠ Backfilled → p ≠ Missing → at_ p = O).
Proof.
  intros Hc Hi c at_. destruct (rs_spec w streams) as (R1 & R2 & R3).
  set (keys_ := map fst (sort_by (cmp_on fst str_cmp) (per_key_slots (scan w streams)))).
  set (gs := map (λ r, sweep_gap bars keys_ (gap_of w r)) (run_list w streams)).
  assert (map fst (zip (run_list w streams) gs) = run_list w streams) as Hfst.
  { change (map fst) with (fmap (M := list) (@fst (nat * nat) SweepGap)). apply fst_zip. unfold gs. by rewrite length_map. }
  assert (Forall (λ x, snd x = sweep_gap bars keys_ (gap_of w (fst x))) (zip (run_list w streams) gs)) as Hgs.
  { unfold gs. clear. induction (run_list w streams) as [|r l IH]; cbn; by constructor. }
  assert (∀ p, at_ p = match List.find (holds_slot i) (zip (run_list w streams) gs) with
    | Some x => share p (snd x) | None => if decide (p = LiveRecorded) then live_keys c else O end) as Hat.
  { intros p. unfold at_. change (timeline c)
      with (timeline_loop w bars (live_keys c) (n_slots w) 0 (zip (run_list w streams) gs)).
    rewrite timeline_loop_labelled, decide_True; [done|lia|done|by rewrite Hfst|by rewrite Hfst|].
    eapply Forall_impl; [exact Hgs|]. intros x ->. apply sweep_gap_gap. }
  destruct (List.find _ _) as [[r g]|] eqn:Ef.
  - apply find_some in Ef as [Hx Hr]. apply list_elem_of_In in Hx. apply andb_true_iff in Hr as [Hr1%Nat.leb_le Hr2%Nat.ltb_lt].
    cbn [fst snd] in *. rewrite Forall_forall in Hgs. specialize (Hgs _ Hx). cbn [fst snd] in Hgs.
    assert (r ∈ run_list w streams) as Hrl by (rewrite <-Hfst; apply list_elem_of_fmap; by exists (r, g)).
    assert (¬ swept_by w streams i) as Hns by (apply R3; [done|]; apply in_runs_exists; by exists r).
    split; [done|]. rewrite !Hat. split; [|intros [] ???; by rewrite Hat].
    intros _. split; [done|]. destruct (sweep_gap_spec bars keys_ (gap_of w r)) as (full & F1 & F2 & F3 & F4).
    { cbn. apply slot_start_lt; [done|]. by apply (separated_nonempty _ _ _ R1). }
    rewrite <-Hgs in F1, F2, F4. exists (gap_of w r), full, (missing_keys g). split_and!; [| | |done|done|exact F2|done].
    + unfold c. rewrite sweep_gaps_eq. apply list_elem_of_fmap. by exists r.
    + by apply in_gap_of.
    + unfold c. cbn [per_key coverage]. rewrite map_map. exact F1.
  - assert (swept_by w streams i) as Hsw.
    { destruct (decide (swept_by w streams i)) as [|Hn]; [done|]. apply R3 in Hn; [|done]. apply in_runs_exists in Hn as (r & Hr & Hir).
      rewrite <-Hfst in Hr. apply list_elem_of_fmap in Hr as (x & -> & Hx). apply list_elem_of_In in Hx.
      pose proof (find_none _ _ Ef x Hx) as Hf. unfold holds_slot in Hf.
      apply andb_false_iff in Hf as [Hf%Nat.leb_gt|Hf%Nat.ltb_ge]; lia. }
    split; [by rewrite !Hat|]. split; [done|]. intros p ???. rewrite Hat. by rewrite decide_False.
Qed.

Lemma the_timeline_labels_every_slot_witness :
  (0 < cadence_ms sample_window ∧ (3 < n_slots sample_window)%nat) ∧
  labelled sample_window (timeline (coverage sample_window sample_streams (Some sample_bars))) LiveRecorded 3 = O.
Proof.
  assert (3 < n_slots sample_window)%nat as Hn by (vm_compute; lia). split; [done|].
  destruct (the_timeline_labels_every_slot sample_window sample_streams (Some sample_bars) 3 eq_refl Hn) as (_ & H & _).
  apply H. by apply (bool_decide_eq_false_1 (swept_by sample_window sample_streams 3)); vm_compute.
Defined.

(** The report of the test in the source. *)
Example sample_coverage :
  let c := coverage sample_window sample_streams (Some sample_bars) in
  (c_slots c, swept_slots c, keys c, live_keys c, never_covered c, complete_keys c)
  = (10%nat, 8%nat, 3%nat, 2%nat, ["mkt_ctx/1:x:C"%string], 1%nat)
  ∧ sweep_gaps c = [mkSweep (mkGap (3 * M) (5 * M) 2) 1 ["mkt_ctx/1:x:B"%string] 3 1]
  ∧ map (λ i, (i_from_ms i / M, label i, i_keys i)) (timeline c)
    = [(0, LiveRecorded, 2%nat); (3, Backfilled, 1%nat); (3, Missing, 1%nat); (5, LiveRecorded, 2%nat)].
Proof. vm_compute. done. Qed.
