(* ===== verification/F64.v ===== *)
(** * Rust's [f64]

    IEEE-754 binary64 as the standard library's [SpecFloat]: exact results
    rounded to nearest, ties to even; comparisons with NaN are false. No source
    of its own: the numbers of the trading domains. A literal [n / 10^k] with
    [10^k] exact is the quotient of two exact numbers, so the nearest double.
    [show] is [Display]: the shortest decimal that reads back, without an
    exponent. *)

From Stdlib Require Import Ascii String.
From Stdlib Require Export SpecFloat.
From S2P Require Import Prelude.
From S2P Require Import Text.

#[local] Open Scope string_scope.
#[local] Open Scope list_scope.
#[local] Open Scope Z_scope.

Abbreviation f64 := spec_float.

Declare Scope f64_scope.
Delimit Scope f64_scope with f64.
Bind Scope f64_scope with spec_float.

Definition prec : Z := 53.
Definition emax : Z := 1024.

Definition f64_add : f64 → f64 → f64 := SFadd prec emax.
Definition f64_sub : f64 → f64 → f64 := SFsub prec emax.
Definition f64_mul : f64 → f64 → f64 := SFmul prec emax.
Definition f64_div : f64 → f64 → f64 := SFdiv prec emax.

Infix "+" := f64_add : f64_scope.
Infix "-" := f64_sub : f64_scope.
Infix "*" := f64_mul : f64_scope.
Infix "/" := f64_div : f64_scope.
Notation "- x" := (SFopp x) : f64_scope.
Infix "<?" := SFltb : f64_scope.
Infix "<=?" := SFleb : f64_scope.
Infix "=?" := SFeqb : f64_scope.
Notation "x >? y" := (SFltb y x) (only parsing) : f64_scope.
Notation "x >=? y" := (SFleb y x) (only parsing) : f64_scope.

(** [n as f64]. *)
Definition of_Z (n : Z) : f64 := binary_normalize prec emax n 0 false.
Definition zero : f64 := S754_zero false.
Definition neg_zero : f64 := S754_zero true.
Definition one : f64 := of_Z 1.
Definition infinity : f64 := S754_infinity false.

Definition is_finite (x : f64) : bool :=
  match x with S754_zero _ | S754_finite _ _ _ => true | _ => false end.
Definition is_nan (x : f64) : bool := match x with S754_nan => true | _ => false end.

(** [is_finite() && x > 0.0]. *)
Definition is_pos (x : f64) : bool := is_finite x && (x >? zero)%f64.

(** [f64::signum]: 1 or -1 by the sign, zeros included. *)
Definition signum (x : f64) : f64 :=
  match x with
  | S754_nan => S754_nan
  | S754_zero s | S754_infinity s | S754_finite s _ _ => if s then SFopp one else one
  end.

(** [f64::max] and [f64::min]: a NaN loses. *)
Definition fmax (x y : f64) : f64 :=
  if is_nan x then y else if is_nan y then x else if (x <? y)%f64 then y else x.
Definition fmin (x y : f64) : f64 :=
  if is_nan x then y else if is_nan y then x else if (y <? x)%f64 then y else x.

(** [iter.sum::<f64>()]: from -0. *)
Definition sum (l : list f64) : f64 := fold_left f64_add l neg_zero.

(** ** [Display] *)

(** The double nearest [n * 10^q]. *)
Definition of_decimal (n : positive) (q : Z) : f64 :=
  if 0 <=? q then of_Z (Z.pos n * 10 ^ q)
  else
    let '(m, e, l) := SFdiv_core_binary prec emax (Z.pos n) 0 (10 ^ (- q)) 0 in
    binary_round_aux prec emax false m e l.

(** The place [p] of the first digit of [m * 2^e]: [10^(p-1) <= v < 10^p]. *)
Definition place (m : positive) (e : Z) : Z :=
  let p := (Z.log2 (Z.pos m) + e) * 30103 / 100000 in
  let reached k :=
    Z.leb (10 ^ Z.max k 0 * 2 ^ Z.max (- e) 0) (Z.pos m * 2 ^ Z.max e 0 * 10 ^ Z.max (- k) 0) in
  if reached (p + 1) then p + 2 else if reached p then p + 1 else p.

(** The [n] digits that read back as [x = m * 2^e], the nearer of the two
    decimals around it first. *)
Definition digits_at (x : f64) (m : positive) (e p : Z) (n : Z) : option Z :=
  let q := p - n in
  let num := Z.pos m * 2 ^ Z.max e 0 * 10 ^ Z.max (- q) 0 in
  let den := 10 ^ Z.max q 0 * 2 ^ Z.max (- e) 0 in
  let lo := num / den in
  let reads d := match d with Z.pos d' => (of_decimal d' q =? x)%f64 | _ => false end in
  let '(a, b) := if 2 * (num - lo * den) <=? den then (lo, lo + 1) else (lo + 1, lo) in
  if reads a then Some a else if reads b then Some b else None.
Fixpoint shortest (fuel : nat) (x : f64) (m : positive) (e p n : Z) : Z * Z :=
  match fuel with
  | O => (0, n)
  | S fuel => match digits_at x m e p n with Some d => (d, n) | None => shortest fuel x m e p (n + 1) end
  end.

Definition zeros_of (k : Z) : string := zeros (Z.to_nat k) EmptyString.
Definition show_digits (d n p : Z) : string :=
  let ds := show_N d in
  let len := Z.of_nat (str_len ds) in
  (* rounding up may carry into one more digit *)
  let p := p + (len - n) in
  if p <=? 0 then "0." +:+ zeros_of (- p) +:+ trim_zeros ds
  else if len <=? p then ds +:+ zeros_of (p - len)
  else
    let frac := trim_zeros (substring (Z.to_nat p) (str_len ds) ds) in
    substring 0 (Z.to_nat p) ds +:+ (match frac with EmptyString => EmptyString | _ => "." +:+ frac end).

(** [{x}]; 17 digits always read back. *)
Definition show (x : f64) : string :=
  match x with
  | S754_nan => "NaN"
  | S754_infinity s => if s then "-inf" else "inf"
  | S754_zero s => if s then "-0" else "0"
  | S754_finite s m e =>
      let p := place m e in
      let '(d, n) := shortest 17 (S754_finite false m e) m e p 1 in
      (if s then "-" else "") +:+ show_digits d n p
  end.

Definition dec (n : positive) (q : Z) : f64 := of_decimal n q.

(** ** Rounding to an integer, and to a number of decimals *)

(** [n] with the sign [s], zero included. *)
Definition signed_Z (s : bool) (n : Z) : f64 :=
  if n =? 0 then S754_zero s else let x := of_Z n in if s then SFopp x else x.
(** [f64::trunc]. *)
Definition trunc (x : f64) : f64 :=
  match x with
  | S754_finite s m e => if 0 <=? e then x else signed_Z s (Z.pos m / 2 ^ (- e))
  | x => x
  end.
(** [f64::round]: halves away from zero. *)
Definition round (x : f64) : f64 :=
  match x with
  | S754_finite s m e => if 0 <=? e then x else signed_Z s ((2 * Z.pos m + 2 ^ (- e)) / (2 * 2 ^ (- e)))
  | x => x
  end.
(** [x as u64]: toward zero, saturating, NaN to 0. *)
Definition as_u64_sat (x : f64) : Z :=
  match x with
  | S754_finite false m e => Z.min (Z.shiftl (Z.pos m) e) (2 ^ 64 - 1)
  | S754_infinity false => 2 ^ 64 - 1
  | _ => 0
  end.

(** [num / den] to the nearest integer, ties to even. *)
Definition div_even (num den : Z) : Z :=
  let q := num / den in
  let r := 2 * (num - q * den) in
  if r <? den then q else if den <? r then q + 1 else if Z.even q then q else q + 1.
(** [|x| * 10^d] to the nearest integer: the digits [{x:.d}] prints. *)
Definition fixed_units (m : positive) (e : Z) (d : nat) : Z :=
  div_even (Z.pos m * 2 ^ Z.max e 0 * 10 ^ Z.of_nat d) (2 ^ Z.max (- e) 0).
Definition show_units (s : bool) (n : Z) (d : nat) : string :=
  let ds := pad_left (S d) (show_N n) in
  let k := (str_len ds - d)%nat in
  (if s then "-" else "") +:+ substring 0 k ds
  +:+ (if (d =? 0)%nat then EmptyString else "." +:+ substring k d ds).
(** [{x:.d}]. *)
Definition show_fixed (x : f64) (d : nat) : string :=
  match x with
  | S754_zero s => show_units s 0 d
  | S754_finite s m e => show_units s (fixed_units m e d) d
  | x => show x
  end.
(** [format!("{x:.d}").parse::<f64>()]. *)
Definition reparse_fixed (x : f64) (d : nat) : f64 :=
  match x with
  | S754_finite s m e =>
      match fixed_units m e d with
      | Z.pos n => let y := of_decimal n (- Z.of_nat d) in if s then SFopp y else y
      | _ => S754_zero s
      end
  | x => x
  end.
(** The exponent [{x:e}] prints. *)
Definition sci_exponent (x : f64) : Z :=
  match x with
  | S754_finite _ m e =>
      let p := place m e in
      let '(d, n) := shortest 17 (S754_finite false m e) m e p 1 in
      p + (Z.of_nat (str_len (show_N d)) - n) - 1
  | _ => 0
  end.

(** ** Values *)

Example show_f64 :
  map show [dec 1 (-1); (dec 1 (-1) + dec 2 (-1))%f64; of_Z 100; dec 15 (-1); dec 123456 (-3); dec 1 (-12);
            (of_Z 1 / of_Z 3)%f64; of_Z (-250); neg_zero; dec 999999 (-6)]
  = ["0.1"; "0.30000000000000004"; "100"; "1.5"; "123.456"; "0.000000000001"; "0.3333333333333333"; "-250"; "-0"; "0.999999"].
Proof. vm_compute. reflexivity. Qed.

Example f64_ops :
  is_finite (of_Z 1 / zero)%f64 = false ∧ (S754_nan <=? S754_nan)%f64 = false ∧ (zero =? neg_zero)%f64 = true
  ∧ of_decimal 1 (-12) = (of_Z 1 / of_Z 1000000000000)%f64 ∧ fmax S754_nan one = one ∧ signum neg_zero = (- one)%f64
  ∧ sum [] = neg_zero ∧ (sum [] + zero)%f64 = zero ∧ sum [of_Z 1; of_Z 2] = of_Z 3.
Proof. vm_compute. done. Qed.

Example f64_rounding :
  round (dec 25 (-1)) = of_Z 3 ∧ round (- dec 25 (-1))%f64 = of_Z (-3) ∧ round (dec 49 (-2)) = zero ∧ trunc (- dec 3 (-1))%f64 = neg_zero
  ∧ trunc (dec 29 (-1)) = of_Z 2 ∧ as_u64_sat (dec 29 (-1)) = 2 ∧ as_u64_sat (of_Z (-3)) = 0
  ∧ map (λ '(n, q, d), show_fixed (dec n q) d) [(25%positive, (-2), 1%nat); (35%positive, (-2), 1%nat); (5%positive, (-1), 0%nat);
       (34716%positive, (-2), 6%nat); (999%positive, (-3), 2%nat)] = ["0.2"; "0.3"; "0"; "347.160000"; "1.00"]
  ∧ reparse_fixed (dec 1 (-1) + dec 2 (-1))%f64 2 = dec 3 (-1)
  ∧ map sci_exponent [dec 34716 (-2); dec 1234 (-6); of_Z 1; dec 99 (-1)] = [2; -3; 0; 0].
Proof. vm_compute. done. Qed.
