(* ===== verification/F64Facts.v ===== *)
(** * Facts about [f64]

    Sums, differences and products of valid doubles are valid, and do not
    vanish where the exact result is at least the smallest positive double. *)

From S2P Require Import Prelude.
From S2P Require Import F64.

#[local] Open Scope Z_scope.

#[local] Abbreviation emin := (SpecFloat.emin prec emax).
#[local] Abbreviation fexp := (SpecFloat.fexp prec emax).

Definition valid (x : f64) : bool := valid_binary prec emax x.
Definition is_zero (x : f64) : bool := match x with S754_zero _ => true | _ => false end.

Lemma sf_eqb_zero x : SFeqb x zero = is_zero x.
Proof. destruct x as [[]|[]| |[] m e]; reflexivity. Qed.

Lemma eqb_self x : SFeqb x x = negb (is_nan x).
Proof.
  destruct x as [[]|[]| |[] m e]; try reflexivity; unfold SFeqb; cbn [SFcompare]; rewrite Z.compare_refl;
    change (Pos.compare_cont Eq m m) with (Pos.compare m m); by rewrite Pos.compare_refl.
Qed.

(** ** Digits and shifts *)

Lemma digits2_log2 p : Z.pos (digits2_pos p) = Z.log2 (Z.pos p) + 1.
Proof.
  induction p as [p IH|p IH|]; cbn [digits2_pos]; [| |done].
  - rewrite Pos2Z.inj_succ, IH, Pos2Z.inj_xI, Z.log2_succ_double by lia. lia.
  - rewrite Pos2Z.inj_succ, IH, Pos2Z.inj_xO, Z.log2_double by lia. lia.
Qed.
Lemma Zdigits2_log2 m : 0 < m → Zdigits2 m = Z.log2 m + 1.
Proof. destruct m as [|p|p]; try lia. intros _. apply digits2_log2. Qed.

Lemma fexp_eq x : fexp x = Z.max (x - 53) (-1074).
Proof. reflexivity. Qed.
Lemma emin_eq : emin = -1074.
Proof. reflexivity. Qed.

Lemma shr_1_m r : 0 ≤ shr_m r → shr_m (shr_1 r) = shr_m r / 2.
Proof.
  destruct r as [m r s]. cbn [shr_m]. intros Hm. destruct m as [|[p|p|]|p]; cbn [shr_1 shr_m]; try done; try lia.
  - apply (Z.div_unique _ _ _ 1); lia.
  - apply (Z.div_unique _ _ _ 0); lia.
Qed.
Lemma iter_shr_m p r : 0 ≤ shr_m r → shr_m (iter_pos shr_1 p r) = shr_m r / 2 ^ Z.pos p.
Proof.
  revert r. induction p as [p IH|p IH|]; intros r Hr; cbn [iter_pos].
  - assert (0 ≤ shr_m r / 2) by (apply Z.div_pos; lia).
    assert (0 ≤ shr_m r / 2 / 2 ^ Z.pos p) by (apply Z.div_pos; lia).
    rewrite !IH, shr_1_m by (rewrite ?IH, ?shr_1_m by (rewrite ?shr_1_m by done; done); done).
    rewrite !Z.div_div by lia. f_equal.
    replace (Z.pos p~1) with (1 + Z.pos p + Z.pos p) by lia. rewrite !Z.pow_add_r by lia. lia.
  - assert (0 ≤ shr_m r / 2 ^ Z.pos p) by (apply Z.div_pos; lia).
    rewrite !IH by (rewrite ?IH by done; done). rewrite Z.div_div by lia. f_equal.
    replace (Z.pos p~0) with (Z.pos p + Z.pos p) by lia. rewrite Z.pow_add_r by lia. lia.
  - rewrite shr_1_m by done. f_equal.
Qed.

(** One rounding shift: the new exponent, and the mantissa cut by it. *)
Lemma shr_fexp_spec m e l : 0 < m →
  let e' := Z.max e (fexp (Z.log2 m + 1 + e)) in
  snd (shr_fexp prec emax m e l) = e' ∧ shr_m (fst (shr_fexp prec emax m e l)) = m / 2 ^ (e' - e).
Proof.
  intros Hm e'. unfold shr_fexp. rewrite Zdigits2_log2 by done.
  assert (shr_m (shr_record_of_loc m l) = m) as Hr by (by destruct l as [|[]]).
  set (n := fexp (Z.log2 m + 1 + e) - e). assert (e' = e + Z.max n 0) as -> by lia.
  destruct n as [|k|k] eqn:En; cbn [shr fst snd].
  - rewrite Hr. replace (e + Z.max 0 0 - e) with 0 by lia. rewrite Z.div_1_r. split; [lia|done].
  - rewrite iter_shr_m, Hr by lia. split; [lia|]. do 2 f_equal. lia.
  - rewrite Hr. replace (e + Z.max (Z.neg k) 0 - e) with 0 by lia. rewrite Z.div_1_r. split; [lia|done].
Qed.

Lemma log2_cut m k : 0 < m → 0 ≤ k ≤ Z.log2 m → 0 < m / 2 ^ k ∧ Z.log2 (m / 2 ^ k) = Z.log2 m - k.
Proof.
  intros Hm Hk. pose proof (Z.log2_spec m Hm) as [Hl Hu].
  assert (0 < m / 2 ^ k).
  { apply Z.div_str_pos. split; [lia|]. etransitivity; [|exact Hl]. apply Z.pow_le_mono_r; lia. }
  split; [done|]. rewrite <-Z.shiftr_div_pow2 by lia. rewrite Z.log2_shiftr by done. lia.
Qed.

Lemma log2_succ_cases m : 0 < m → Z.log2 (m + 1) = Z.log2 m ∨ m + 1 = 2 ^ (Z.log2 m + 1).
Proof.
  intros Hm. pose proof (Z.log2_spec m Hm) as [Hl Hu]. rewrite <-Z.add_1_r in Hu.
  destruct (decide (m + 1 = 2 ^ (Z.log2 m + 1))) as [|Hne]; [by right|left].
  apply Z.log2_unique; [apply Z.log2_nonneg|]. rewrite <-Z.add_1_r. lia.
Qed.

(** ** Rounding *)

(** A number of sign [s] that is not zero. *)
Definition signed (s : bool) (x : f64) : Prop :=
  match x with S754_finite s' _ _ | S754_infinity s' => s' = s | _ => False end.
Lemma signed_nonzero s x : signed s x → is_zero x = false.
Proof. by destruct x. Qed.

(** Rounding a positive number not below the smallest double, at an exponent
    not above its own, gives a valid number that is not zero. *)
Lemma round_aux_spec s m e l : 0 < m → emin < Z.log2 m + 1 + e →
  signed s (binary_round_aux prec emax s m e l)
  ∧ (e ≤ fexp (Z.log2 m + 1 + e) → valid (binary_round_aux prec emax s m e l) = true).
Proof.
  intros Hm He. rewrite emin_eq in He. unfold binary_round_aux.
  destruct (shr_fexp_spec m e l Hm) as [Hs1 Hm1]. destruct (shr_fexp prec emax m e l) as [r1 e1]. cbn [fst snd] in *.
  pose proof (Z.log2_nonneg m).
  assert (0 ≤ e1 - e ≤ Z.log2 m) as Hk by (rewrite fexp_eq in Hs1; lia).
  destruct (log2_cut m (e1 - e) Hm Hk) as [Hp1 Hl1]. rewrite <-Hs1 in Hm1. rewrite <-Hm1 in Hp1, Hl1.
  set (m1 := shr_m r1) in *. set (m2 := round_nearest_even m1 (loc_of_shr_record r1)).
  assert (m2 = m1 ∨ m2 = m1 + 1) as Hm2.
  { unfold m2, round_nearest_even. destruct (loc_of_shr_record r1) as [|[]]; [by left| |by left|by right]. destruct (Z.even m1); auto. }
  assert (0 < m2) as Hp2 by lia.
  destruct (shr_fexp_spec m2 e1 loc_Exact Hp2) as [Hs3 Hm3]. destruct (shr_fexp prec emax m2 e1 loc_Exact) as [r3 e3]. cbn [fst snd] in *.
  assert (Z.log2 m2 = Z.log2 m1 ∨ Z.log2 m2 = Z.log2 m1 + 1 ∧ m2 = 2 ^ (Z.log2 m1 + 1)) as Hl2.
  { destruct Hm2 as [-> | ->]; [by left|]. destruct (log2_succ_cases m1 Hp1) as [|E]; [by left|]. right. rewrite E.
    rewrite Z.log2_pow2 by (pose proof (Z.log2_nonneg m1); lia). done. }
  pose proof (Z.log2_nonneg m1) as H01.
  assert (0 ≤ e3 - e1 ≤ 1) as Hk3 by (rewrite fexp_eq in Hs1, Hs3; lia).
  assert (e3 - e1 = 0 ∨ e3 - e1 = 1 ∧ Z.log2 m2 = Z.log2 m1 + 1 ∨ e3 - e1 = 1 ∧ 1 ≤ Z.log2 m2) as Hcase
    by (rewrite fexp_eq in Hs1, Hs3; lia).
  assert (0 < shr_m r3 ∧ Z.log2 (shr_m r3) = Z.log2 m2 - (e3 - e1)) as [Hp3 Hl3].
  { rewrite Hm3, <-Hs3. apply log2_cut; [done|]. lia. }
  destruct (shr_m r3) as [|p|p] eqn:E3; [lia| |lia]. split; [by destruct (_ <=? _)|]. intros Hexp.
  destruct (e3 <=? emax - prec) eqn:Eb; [|done]. cbn [valid valid_binary bounded]. unfold bounded. rewrite Eb, andb_true_r.
  unfold canonical_mantissa. apply Z.eqb_eq. rewrite digits2_log2, Hl3.
  rewrite fexp_eq in *. lia.
Qed.

Lemma shl_align_spec m e e' :
  let '(m', e'') := shl_align m e e' in
  e'' = Z.min e e' ∧ Z.pos m' = Z.pos m * 2 ^ (e - e'') ∧ Z.log2 (Z.pos m') + e'' = Z.log2 (Z.pos m) + e.
Proof.
  unfold shl_align. destruct (e' - e) as [|d|d] eqn:E.
  - split; [lia|]. rewrite Z.sub_diag, Z.mul_1_r. done.
  - split; [lia|]. rewrite Z.sub_diag, Z.mul_1_r. done.
  - assert (Z.pos (Pos.iter xO m d) = Z.pos m * 2 ^ Z.pos d) as Hm.
    { rewrite <-Z.shiftl_mul_pow2 by lia. cbn [Z.shiftl]. by apply Pos.iter_swap_gen. }
    replace (e - e') with (Z.pos d) by lia. split; [lia|]. split; [done|]. rewrite Hm, Z.log2_mul_pow2 by lia. lia.
Qed.

Lemma round_spec s m e : emin ≤ e →
  signed s (binary_round prec emax s m e) ∧ valid (binary_round prec emax s m e) = true.
Proof.
  intros He. unfold binary_round. rewrite digits2_log2.
  pose proof (shl_align_spec m e (fexp (Z.log2 (Z.pos m) + 1 + e))) as H. destruct (shl_align _ _ _) as [mz ez].
  destruct H as (H1 & _ & H3). pose proof (Z.log2_nonneg (Z.pos m)). rewrite emin_eq in He.
  destruct (round_aux_spec s (Z.pos mz) ez loc_Exact) as [Hz Hv]; [lia|rewrite emin_eq; lia|]. split; [done|]. apply Hv.
  rewrite fexp_eq in *. lia.
Qed.

Lemma normalize_spec m e s : emin ≤ e →
  valid (binary_normalize prec emax m e s) = true ∧ (m ≠ 0 → is_zero (binary_normalize prec emax m e s) = false).
Proof. intros He. destruct m as [|p|p]; cbn [binary_normalize]; [done|split; intros; [|eapply signed_nonzero]; by apply round_spec..]. Qed.

Lemma of_Z_valid n : valid (of_Z n) = true.
Proof. apply normalize_spec. by rewrite emin_eq. Qed.

(** ** Operations *)

Lemma valid_finite s m e : valid (S754_finite s m e) = true →
  e = fexp (Z.log2 (Z.pos m) + 1 + e) ∧ emin ≤ e ∧ e ≤ 971.
Proof.
  cbn. unfold bounded, canonical_mantissa. rewrite andb_true_iff, Z.eqb_eq, Z.leb_le, digits2_log2.
  intros [H1 H2]. split; [done|]. rewrite fexp_eq in H1. rewrite emin_eq. split; [lia|]. unfold emax, prec in H2. lia.
Qed.

Lemma add_valid x y : valid x = true → valid y = true → valid (x + y)%f64 = true.
Proof.
  destruct x as [[]|[]| |s m e], y as [[]|[]| |s' m' e']; try done.
  intros (_ & H1 & _)%valid_finite (_ & H2 & _)%valid_finite. apply normalize_spec. lia.
Qed.
Lemma sub_valid x y : valid x = true → valid y = true → valid (x - y)%f64 = true.
Proof.
  destruct x as [[]|[]| |s m e], y as [[]|[]| |s' m' e']; try done.
  intros (_ & H1 & _)%valid_finite (_ & H2 & _)%valid_finite. apply normalize_spec. lia.
Qed.
Lemma opp_valid x : valid (- x)%f64 = valid x.
Proof. by destruct x. Qed.
Lemma abs_valid x : valid (SFabs x) = valid x.
Proof. by destruct x. Qed.
Lemma abs_zero x : is_zero (SFabs x) = is_zero x.
Proof. by destruct x. Qed.

(** The sum of two numbers of one sign is not zero unless both are. *)
Lemma add_same_sign x y : valid x = true → valid y = true → is_zero x = false → is_zero y = false →
  (is_nan x = false → SFeqb (signum x) (signum y) = true) → is_zero (x + y)%f64 = false.
Proof.
  destruct x as [[]|[]| |s m e], y as [[]|[]| |s' m' e']; try done; try (intros _ _ _ _ H; specialize (H eq_refl); done).
  intros (_ & H1 & _)%valid_finite (_ & H2 & _)%valid_finite _ _ Hs. specialize (Hs eq_refl). apply normalize_spec; [lia|].
  destruct s, s'; try done; cbn [cond_Zopp]; lia.
Qed.

Lemma shl_align_fst m e e' : e' ≤ e → Z.pos (fst (shl_align m e e')) = Z.pos m * 2 ^ (e - e').
Proof.
  intros He. pose proof (shl_align_spec m e e') as H. destruct (shl_align _ _ _) as [m' e'']. destruct H as (-> & H & _).
  cbn [fst]. rewrite H. do 2 f_equal. lia.
Qed.

Lemma pos_compare_lt m m' : Pos.compare_cont Eq m m' = Lt → Z.pos m < Z.pos m'.
Proof. done. Qed.

(** Two distinct positive numbers differ by something. *)
Lemma sub_lt_nonzero x y : valid x = true → valid y = true →
  (SFabs x <? SFabs y)%f64 = true → is_zero (SFabs y - SFabs x)%f64 = false.
Proof.
  destruct x as [[]|[]| |s m e], y as [[]|[]| |s' m' e']; try done.
  intros (He & H1 & _)%valid_finite (He' & H2 & _)%valid_finite. cbn [SFabs]. unfold SFltb. cbn [SFcompare]. intros Hlt.
  apply normalize_spec; [lia|]. cbn [cond_Zopp]. rewrite !shl_align_fst by lia.
  rewrite fexp_eq in He, He'. rewrite emin_eq in H1, H2.
  pose proof (Z.log2_spec (Z.pos m) ltac:(lia)) as [Hm1 Hm2]. pose proof (Z.log2_spec (Z.pos m') ltac:(lia)) as [Hm1' _].
  destruct (Z.compare_spec e e') as [->|Hee|Hee]; [| |done].
  - rewrite Z.min_id, Z.sub_diag, !Z.mul_1_r.
    destruct (Pos.compare_cont Eq m m') eqn:Ec; try done. apply pos_compare_lt in Ec. lia.
  - rewrite Z.min_r, Z.sub_diag, Z.mul_1_r by lia.
    assert (2 ^ 52 ≤ Z.pos m') by (etransitivity; [|exact Hm1']; apply Z.pow_le_mono_r; lia).
    assert (Z.pos m < 2 ^ 53) by (eapply Z.lt_le_trans; [exact Hm2|]; apply Z.pow_le_mono_r; lia).
    assert (2 ≤ 2 ^ (e' - e)) by (change 2 with (2 ^ 1) at 1; apply Z.pow_le_mono_r; lia). nia.
Qed.

(** A number times the sign of another keeps its size. *)
Lemma signum_mul_spec x y : valid y = true → is_nan x = false →
  valid (signum x * y)%f64 = true ∧ is_zero (signum x * y)%f64 = is_zero y.
Proof.
  intros Hy Hx. assert (∃ s, signum x = S754_finite s 4503599627370496 (-52)) as [s ->].
  { destruct x as [[]|[]| |[] m e]; try done; by eexists. }
  destruct y as [[]|[]| |s' m' e']; try done. apply valid_finite in Hy as (He & H1 & _).
  unfold f64_mul. cbn [SFmul]. rewrite Pos2Z.inj_mul. change (Z.pos 4503599627370496) with (2 ^ 52). rewrite Z.mul_comm.
  assert (Z.log2 (Z.pos m' * 2 ^ 52) = Z.log2 (Z.pos m') + 52) as Hl by (rewrite Z.log2_mul_pow2; lia).
  pose proof (Z.log2_nonneg (Z.pos m')). rewrite emin_eq in H1.
  destruct (round_aux_spec (xorb s s') (Z.pos m' * 2 ^ 52) (-52 + e') loc_Exact) as [Hz%signed_nonzero Hv]; [lia|rewrite emin_eq; lia|].
  split; [|exact Hz]. apply Hv. rewrite fexp_eq in *. lia.
Qed.

(** ** Decimals *)

Lemma fexp_mono x y : x ≤ y → fexp x ≤ fexp y.
Proof. rewrite !fexp_eq. lia. Qed.

(** The quotient of a division, at the exponent the rounding needs. *)
Lemma div_core_spec m1 m2 : 0 < m1 → 0 < m2 → -1000 ≤ Z.log2 m1 - Z.log2 m2 →
  let '(q, e, l) := SFdiv_core_binary prec emax m1 0 m2 0 in
  0 < q ∧ emin < Z.log2 q + 1 + e ∧ e ≤ fexp (Z.log2 q + 1 + e).
Proof.
  intros H1 H2 Hd. unfold SFdiv_core_binary. rewrite !Zdigits2_log2 by done.
  set (d1 := Z.log2 m1) in *. set (d2 := Z.log2 m2) in *. rewrite !Z.add_0_r, Z.sub_0_r.
  replace (d1 + 1 - (d2 + 1)) with (d1 - d2) by lia. set (e := Z.min (fexp (d1 - d2)) 0). set (s := 0 - e).
  pose proof (fexp_eq (d1 - d2)) as Ef.
  assert (0 ≤ s) as Hs by lia.
  assert (match s with Z.pos _ => Z.shiftl m1 s | Z0 => m1 | Z.neg _ => 0 end = m1 * 2 ^ s) as ->.
  { destruct s; [lia|by rewrite Z.shiftl_mul_pow2|lia]. }
  pose proof (Z_div_mod (m1 * 2 ^ s) m2 ltac:(lia)) as Hdiv. destruct (Z.div_eucl _ _) as [q r]. destruct Hdiv as [Hqr Hr].
  pose proof (Z.log2_spec m1 H1) as [Hl1 _]. pose proof (Z.log2_spec m2 H2) as [_ Hl2]. fold d1 in Hl1. fold d2 in Hl2.
  assert (0 ≤ d1) by apply Z.log2_nonneg. assert (0 ≤ d2) by apply Z.log2_nonneg.
  assert (2 ^ (d1 + s) ≤ m1 * 2 ^ s) as Hlow by (rewrite Z.pow_add_r by lia; nia).
  assert (d2 + 1 ≤ d1 + s) as Hds by lia.
  assert (2 ^ (d1 + s - (d2 + 1)) ≤ q) as Hq.
  { assert (0 < 2 ^ (d1 + s - (d2 + 1))) by (apply Z.pow_pos_nonneg; lia).
    assert (2 ^ (d1 + s) = 2 ^ (d2 + 1) * 2 ^ (d1 + s - (d2 + 1))) as E by (rewrite <-Z.pow_add_r by lia; f_equal; lia).
    assert (Z.succ d2 = d2 + 1) as E' by lia. rewrite E' in Hl2. nia. }
  assert (0 < q) as Hqp by (assert (0 < 2 ^ (d1 + s - (d2 + 1))) by (apply Z.pow_pos_nonneg; lia); lia).
  assert (d1 + s - (d2 + 1) ≤ Z.log2 q) as Hlog by (apply Z.log2_le_pow2; lia).
  split; [done|]. split; [rewrite emin_eq; lia|].
  etransitivity; [|apply (fexp_mono (d1 - d2)); lia]. lia.
Qed.

Lemma of_decimal_valid n k : 0 ≤ k ≤ 200 → valid (of_decimal n (- k)) = true.
Proof.
  intros Hk. unfold of_decimal. destruct (0 <=? - k); [apply of_Z_valid|]. rewrite Z.opp_involutive.
  assert (0 < 10 ^ k) as H10 by (apply Z.pow_pos_nonneg; lia).
  pose proof (div_core_spec (Z.pos n) (10 ^ k) ltac:(lia) H10) as H.
  destruct (SFdiv_core_binary _ _ _ _ _ _) as [[q e] l]. destruct H as (Hq & He & Hv).
  - assert (Z.log2 (10 ^ k) ≤ 4 * k).
    { assert (10 ^ k ≤ 2 ^ (4 * k)) as Hle by (rewrite Z.pow_mul_r by lia; apply Z.pow_le_mono_l; lia).
      apply Z.log2_le_mono in Hle. by rewrite Z.log2_pow2 in Hle by lia. }
    pose proof (Z.log2_nonneg (Z.pos n)). lia.
  - by apply (round_aux_spec false q e l).
Qed.
Lemma reparse_fixed_valid x d : (d ≤ 200)%nat → valid (reparse_fixed x d) = true.
Proof.
  intros Hd. destruct x as [[]|[]| |s m e]; try done. cbn [reparse_fixed]. destruct (fixed_units m e d) as [|n|n]; try done.
  destruct s; [rewrite opp_valid|]; apply of_decimal_valid; lia.
Qed.

(** ** The order of [f64]

    Comparison as a lexicographic order on sign, exponent and mantissa, for
    everything but NaN: transitivity, [min] and [max], signs of sums. *)

(** The key of a number: its class and sign, exponent, mantissa. *)
Definition key (x : f64) : Z * Z * Z :=
  match x with
  | S754_zero _ | S754_nan => (0, 0, 0)
  | S754_infinity s => (if s then -2 else 2, 0, 0)
  | S754_finite s m e => if s then (-1, - e, Z.neg m) else (1, e, Z.pos m)
  end.
Definition key_lt (a b : Z * Z * Z) : Prop :=
  let '(a1, a2, a3) := a in let '(b1, b2, b3) := b in
  a1 < b1 ∨ a1 = b1 ∧ (a2 < b2 ∨ a2 = b2 ∧ a3 < b3).

Lemma compare_key x y : is_nan x = false → is_nan y = false →
  match SFcompare x y with
  | Some Lt => key_lt (key x) (key y)
  | Some Gt => key_lt (key y) (key x)
  | Some Eq => key x = key y
  | None => False
  end.
Proof.
  destruct x as [[]|[]| |[] m e], y as [[]|[]| |[] m' e']; try done; intros _ _; cbn [SFcompare]; try (cbn; lia);
    destruct (Z.compare_spec e e') as [->|H|H]; cbn; try lia;
    change (Pos.compare_cont Eq m m') with (Pos.compare m m'); destruct (Pos.compare_spec m m') as [->|H|H]; cbn; try done; lia.
Qed.

Lemma ltb_key x y : is_nan x = false → is_nan y = false → SFltb x y = true ↔ key_lt (key x) (key y).
Proof.
  intros Hx Hy. pose proof (compare_key x y Hx Hy) as H. unfold SFltb. destruct (SFcompare x y) as [[]|]; [| |clear Hx Hy|done].
  - rewrite H. destruct (key y) as [[a b] c]. split; [done|]. cbn. lia.
  - done.
  - split; [done|]. destruct (key x) as [[a b] c], (key y) as [[a' b'] c']. cbn in *. lia.
Qed.
Lemma leb_key x y : is_nan x = false → is_nan y = false → SFleb x y = true ↔ ¬ key_lt (key y) (key x).
Proof.
  intros Hx Hy. pose proof (compare_key x y Hx Hy) as H. unfold SFleb. destruct (SFcompare x y) as [[]|]; [| | |done].
  - rewrite H. destruct (key y) as [[a b] c]. split; [|done]. cbn. lia.
  - split; [|done]. destruct (key x) as [[a b] c], (key y) as [[a' b'] c']. cbn in *. lia.
  - split; [done|]. intros N. by destruct (N H).
Qed.

Lemma leb_nan_l x y : SFleb x y = true → is_nan x = false ∧ is_nan y = false.
Proof. by destruct x as [[]|[]| |[] m e], y as [[]|[]| |[] m' e']. Qed.
Lemma ltb_nan_l x y : SFltb x y = true → is_nan x = false ∧ is_nan y = false.
Proof. by destruct x as [[]|[]| |[] m e], y as [[]|[]| |[] m' e']. Qed.

Lemma leb_trans x y z : SFleb x y = true → SFleb y z = true → SFleb x z = true.
Proof.
  intros H1 H2. destruct (leb_nan_l _ _ H1) as [Hx Hy], (leb_nan_l _ _ H2) as [_ Hz].
  rewrite leb_key in H1, H2 |- * by done.
  destruct (key x) as [[a b] c], (key y) as [[a' b'] c'], (key z) as [[a'' b''] c'']. cbn in *. lia.
Qed.
Lemma leb_refl x : is_nan x = false → SFleb x x = true.
Proof. intros Hx. rewrite leb_key by done. destruct (key x) as [[a b] c]. cbn. lia. Qed.
(** Not above means at most, numbers only. *)
Lemma not_ltb_leb x y : is_nan x = false → is_nan y = false → SFltb y x = false → SFleb x y = true.
Proof. intros Hx Hy H. rewrite leb_key by done. rewrite <-ltb_key by done. by rewrite H. Qed.
Lemma not_leb_ltb x y : is_nan x = false → is_nan y = false → SFleb y x = false → SFltb x y = true.
Proof.
  intros Hx Hy H. rewrite ltb_key by done. apply not_true_iff_false in H. rewrite leb_key in H by done.
  destruct (key x) as [[a b] c], (key y) as [[a' b'] c']. cbn in *. lia.
Qed.
Lemma ltb_leb x y : SFltb x y = true → SFleb x y = true.
Proof.
  intros H. destruct (ltb_nan_l _ _ H) as [Hx Hy]. rewrite ltb_key in H by done. rewrite leb_key by done.
  destruct (key x) as [[a b] c], (key y) as [[a' b'] c']. cbn in *. lia.
Qed.

Lemma fmin_spec x y : is_nan x = false → SFleb (fmin x y) x = true ∧ (is_nan y = false → SFleb (fmin x y) y = true)
  ∧ is_nan (fmin x y) = false ∧ (fmin x y = x ∨ fmin x y = y).
Proof.
  intros Hx. unfold fmin. rewrite Hx. destruct (is_nan y) eqn:Hy; [split_and!; auto using leb_refl; done|].
  destruct (SFltb y x) eqn:E.
  - split_and!; auto using leb_refl, ltb_leb.
  - split_and!; auto using leb_refl, not_ltb_leb.
Qed.
Lemma fmax_spec x y : is_nan x = false → SFleb x (fmax x y) = true ∧ (is_nan y = false → SFleb y (fmax x y) = true)
  ∧ is_nan (fmax x y) = false.
Proof.
  intros Hx. unfold fmax. rewrite Hx. destruct (is_nan y) eqn:Hy; [split_and!; auto using leb_refl; done|].
  destruct (SFltb x y) eqn:E; split_and!; auto using leb_refl, ltb_leb, not_ltb_leb.
Qed.

(** ** Above zero *)

Definition above_zero (x : f64) : bool := match x with S754_finite false _ _ | S754_infinity false => true | _ => false end.
Lemma gtb_above x : SFltb zero x = above_zero x.
Proof. by destruct x as [[]|[]| |[] m e]. Qed.
Lemma is_pos_spec x : is_pos x = true ↔ ∃ m e, x = S754_finite false m e.
Proof.
  split; [destruct x as [[]|[]| |[] m e]; try done; by eauto|]. by intros (m & e & ->).
Qed.

(** Positive numbers add up to a positive number. *)
Lemma add_above x y : valid x = true → valid y = true → above_zero x = true → above_zero y = true →
  valid (x + y)%f64 = true ∧ above_zero (x + y)%f64 = true.
Proof.
  intros Hx Hy. pose proof (add_valid x y Hx Hy) as Hv.
  destruct x as [[]|[]| |[] m e], y as [[]|[]| |[] m' e']; try done. intros _ _. split; [done|].
  apply valid_finite in Hx as (_ & H1 & _). apply valid_finite in Hy as (_ & H2 & _).
  unfold f64_add in *. cbn [SFadd cond_Zopp] in *.
  set (k := (_ + _)) in *. assert (0 < k) as Hk by (unfold k; lia). clearbody k.
  destruct k as [|p|p]; [lia| |lia]. cbn [binary_normalize] in *.
  destruct (round_spec false p (Z.min e e')) as [Hs _]; [lia|].
  by destruct (binary_round _ _ _ _ _) as [[]|[]| |[] mm ee].
Qed.
Lemma sub_finite_nan x y : valid x = true → valid y = true → is_nan x = false → is_finite y = true → is_nan (x - y)%f64 = false.
Proof.
  assert (∀ k e s, SpecFloat.emin prec emax ≤ e → is_nan (binary_normalize prec emax k e s) = false) as Hn.
  { intros [|p|p] e s He; [done|..]; cbn [binary_normalize];
      match goal with |- is_nan (binary_round _ _ ?s ?p ?e) = _ => destruct (round_spec s p e He) as [H _]; by destruct (binary_round _ _ _ _ _) end. }
  destruct x as [[]|[]| |s m e], y as [[]|[]| |s' m' e']; try done.
  intros (_ & H1 & _)%valid_finite (_ & H2 & _)%valid_finite _ _. apply Hn. lia.
Qed.

(** ** Products of numbers not below zero *)

Lemma shr_fexp_nonneg m e l : 0 ≤ m → 0 ≤ shr_m (fst (shr_fexp prec emax m e l)).
Proof.
  intros Hm. unfold shr_fexp, shr. assert (shr_m (shr_record_of_loc m l) = m) as E by (by destruct l as [|[]]).
  destruct (_ - _); cbn [fst]; [by rewrite E| |by rewrite E]. rewrite iter_shr_m by (by rewrite E). rewrite E. apply Z.div_pos; lia.
Qed.
Lemma round_aux_positive m e l : 0 ≤ m → let x := binary_round_aux prec emax false m e l in is_nan x = false ∧ (x <? zero)%f64 = false.
Proof.
  intros Hm. unfold binary_round_aux. pose proof (shr_fexp_nonneg m e l Hm) as H1. destruct (shr_fexp prec emax m e l) as [r1 e1].
  cbn [fst] in H1.
  assert (0 ≤ round_nearest_even (shr_m r1) (loc_of_shr_record r1)) as H2.
  { unfold round_nearest_even. destruct (loc_of_shr_record r1) as [|[]]; try lia. destruct (Z.even _); lia. }
  pose proof (shr_fexp_nonneg _ e1 loc_Exact H2) as H3. destruct (shr_fexp _ _ _ _ _) as [r2 e2]. cbn [fst] in H3.
  destruct (shr_m r2); [done| |lia]. by destruct (_ <=? _).
Qed.
(** Finite numbers not below zero: the product is a number not below zero. *)
Lemma mul_positive x y : is_finite x = true → is_finite y = true → (zero <=? x)%f64 = true → (zero <=? y)%f64 = true →
  is_nan (x * y)%f64 = false ∧ ((x * y)%f64 <? zero)%f64 = false.
Proof.
  destruct x as [[]|[]| |[] m e], y as [[]|[]| |[] m' e']; try done; intros _ _ _ _.
  unfold f64_mul. cbn [SFmul xorb]. apply round_aux_positive. lia.
Qed.

(** ** Equality as numbers *)

(** Doubles equal as numbers: the same, or two zeros. *)
Lemma eqb_cases x y : (x =? y)%f64 = true → x = y ∨ is_zero x = true ∧ is_zero y = true.
Proof.
  destruct x as [s|s| |s m e], y as [s'|s'| |s' m' e']; unfold SFeqb; cbn [SFcompare]; try done;
    try (by destruct s); try (by destruct s'); try (by destruct s, s'; auto).
  destruct s, s'; try done; destruct (Z.compare_spec e e') as [->| |]; try done;
    change (Pos.compare_cont Eq m m') with (m ?= m')%positive; destruct (Pos.compare_spec m m') as [->| |]; try done; by left.
Qed.
Lemma eqb_sym x y : (x =? y)%f64 = true → (y =? x)%f64 = true.
Proof.
  intros H. destruct (eqb_cases _ _ H) as [->|[Hx Hy]]; [done|]. by destruct x, y.
Qed.
Lemma eqb_trans x y z : (x =? y)%f64 = true → (y =? z)%f64 = true → (x =? z)%f64 = true.
Proof.
  intros H1 H2. destruct (eqb_cases _ _ H1) as [->|[Hx Hy]]; [done|]. destruct (eqb_cases _ _ H2) as [->|[Hy' Hz]]; [done|]. by destruct x, z.
Qed.
Lemma eqb_nan x y : (x =? y)%f64 = true → is_nan x = false ∧ is_nan y = false.
Proof. intros H. destruct (eqb_cases _ _ H) as [->|[Hx Hy]]; [rewrite eqb_self in H; by destruct (is_nan y)|]. by destruct x, y. Qed.
(** Sums of numbers equal as numbers. *)
Lemma zero_add_eqb x y z : is_zero x = true → is_zero y = true → is_nan z = false → (x + z =? y + z)%f64 = true ∧ (z + x =? z + y)%f64 = true.
Proof.
  intros Hx Hy Hz. destruct x as [[]| | |], y as [[]| | |], z as [[]|[]| |[] ? ?]; try done;
   unfold f64_add; cbn [SFadd]; rewrite eqb_self; done.
Qed.
Lemma add_eqb x x' y y' : (x =? x')%f64 = true → (y =? y')%f64 = true → is_nan (x + y)%f64 = false → (x + y =? x' + y')%f64 = true.
Proof.
  intros Hx Hy Hn. destruct (eqb_nan _ _ Hx) as [Nx Nx'], (eqb_nan _ _ Hy) as [Ny Ny'].
  assert ((x + y =? x' + y)%f64 = true) as H1.
  { destruct (eqb_cases _ _ Hx) as [->|[Zx Zx']]; [by rewrite eqb_self, Hn|]. by apply zero_add_eqb. }
  apply (eqb_trans _ _ _ H1). destruct (eqb_cases _ _ Hy) as [->|[Zy Zy']]; [|by apply zero_add_eqb].
  destruct (eqb_nan _ _ H1) as [_ H]. by rewrite eqb_self, H.
Qed.
Lemma sub_add_opp x y : (x - y)%f64 = (x + - y)%f64.
Proof. destruct x as [[]|[]| |[] ? ?], y as [[]|[]| |[] ? ?]; reflexivity. Qed.
Lemma zero_plus x : is_nan x = false → (zero + x =? x)%f64 = true.
Proof.
  intros Hn. destruct x as [[]|[]| |s m e]; try done. change (zero + S754_finite s m e)%f64 with (S754_finite s m e).
  by rewrite eqb_self.
Qed.
