(* ===== verification/Observation.v ===== *)
(** * Observations ([src/src/domain/observation.rs])

    The envelope of a tool's typed result, its per-field results and its
    freshness. Instants are Z in i64, ages in u64. A failed read is a value of
    [Field], never a number. The text renderings and the JSON of a payload are
    left out. *)

From Stdlib Require Import Ascii String.
From S2P Require Import Prelude.
From S2P Require Import Ordered.
From S2P Require Import Text.
From S2P Require Import Bytes.
From S2P Require Import F64.

#[local] Open Scope string_scope.
#[local] Open Scope list_scope.
#[local] Open Scope Z_scope.

(** ** Machine integers *)

Definition i64_min : Z := - 2 ^ 63.
Definition i64_max : Z := 2 ^ 63 - 1.
Definition sat_i64 (n : Z) : Z := Z.max i64_min (Z.min i64_max n).
Definition in_i64 (n : Z) : bool := (i64_min <=? n) && (n <=? i64_max).

(** [now_ms.saturating_sub(at_ms).max(0) as u64]. *)
Definition elapsed_ms (now_ms at_ms : Z) : Z := Z.max (sat_i64 (now_ms - at_ms)) 0.

(** ** Values ([serde_json::Value], a number as serde_json keeps it) *)

Inductive Value : Type :=
  | Null
  | Bool (b : bool)
  | Int (n : Z)
  | Float (x : f64)
  | Str (s : string)
  | Array (l : list Value)
  | Object (o : list (string * Value)).

Definition as_f64 (v : Value) : option f64 :=
  match v with Int n => Some (of_Z n) | Float x => Some x | _ => None end.
Definition as_str (v : Value) : option string := match v with Str s => Some s | _ => None end.
Definition as_u64 (v : Value) : option Z :=
  match v with Int n => if (0 <=? n) && (n <? 2 ^ 64) then Some n else None | _ => None end.

Definition Features : Type := gmap string Value.

Definition MAX_FEATURES : nat := 32.
Definition MAX_FEATURE_STR : nat := 64.

(** ** Results of a read *)

Inductive ObsSource : Type := Live | Cache | Stream.
Inductive ObsStatus : Type := ObsOk | ObsPartial | ObsAbsent | ObsError.
#[export] Instance ObsStatus_eq_dec : EqDecision ObsStatus.
Proof. solve_decision. Defined.

Definition usable (s : ObsStatus) : bool := match s with ObsError => false | _ => true end.

Inductive ErrorClass : Type :=
  QuotaExhausted | RateLimited | AuthRequired | Timeout | Transient | Decode | NotApplicable | Fatal.
#[export] Instance ErrorClass_eq_dec : EqDecision ErrorClass.
Proof. solve_decision. Defined.

Definition class_str (c : ErrorClass) : string :=
  match c with
  | QuotaExhausted => "quota_exhausted"
  | RateLimited => "rate_limited"
  | AuthRequired => "auth_required"
  | Timeout => "timeout"
  | Transient => "transient"
  | Decode => "decode"
  | NotApplicable => "not_applicable"
  | Fatal => "fatal"
  end.

Record ReadError : Type := mkReadError {
  e_field : string;
  e_class : ErrorClass;
  e_message : string;
  retry_after_ms : option Z;
}.
Definition read_error_new (field : string) (class : ErrorClass) (message : string) : ReadError :=
  mkReadError field class message None.

Inductive Field (T : Type) : Type :=
  | FOk (value : T)
  | FAbsent
  | FErr (error : ReadError).
Arguments FOk {T}.
Arguments FAbsent {T}.
Arguments FErr {T}.

Definition value {T} (f : Field T) : option T := match f with FOk v => Some v | _ => None end.
Definition is_error {T} (f : Field T) : bool := match f with FErr _ => true | _ => false end.
Definition error {T} (f : Field T) : option ReadError := match f with FErr e => Some e | _ => None end.

(** ** The envelope *)

Record Observation : Type := mkObs {
  o_key : string;
  o_schema : string;
  o_tool : string;
  observed_at_ms : Z;
  o_slot : option Z;
  ttl_ms : Z;
  o_source : ObsSource;
  o_status : ObsStatus;
  o_errors : list ReadError;
  o_headline : string;
  features : Features;
  o_data : Value;
}.

Definition key_for (schema subject : string) : string := schema +:+ ":" +:+ subject.

Definition age_ms (o : Observation) (now_ms : Z) : Z := elapsed_ms now_ms (observed_at_ms o).
Definition is_fresh (o : Observation) (now_ms max_age_ms : Z) : bool :=
  let limit := Z.min (ttl_ms o) max_age_ms in
  (0 <? limit) && usable (o_status o) && (age_ms o now_ms <=? limit).

Definition served_from_cache (o : Observation) : Observation :=
  match o_source o with
  | Live => mkObs (o_key o) (o_schema o) (o_tool o) (observed_at_ms o) (o_slot o) (ttl_ms o) Cache (o_status o)
              (o_errors o) (o_headline o) (features o) (o_data o)
  | _ => o
  end.

Record CachePolicy : Type := mkCachePolicy {
  cp_key : string;
  cp_ttl_ms : Z;
  cp_max_age_ms : Z;
}.
(** [max_age_secs] is the argument of that name, read as a u64. *)
Definition cache_policy (schema subject : string) (ttl_ms : Z) (max_age_secs : option Value) : CachePolicy :=
  mkCachePolicy (key_for schema subject) ttl_ms
    (match max_age_secs ≫= as_u64 with Some s => Z.min ttl_ms (Z.min (s * 1000) (2 ^ 64 - 1)) | None => ttl_ms end).

(** ** Features *)

Definition set_num (f : Features) (key : string) (v : option f64) : Features :=
  match v with Some x => if is_finite x then <[key := Float x]> f else f | None => f end.
Definition set_int (f : Features) (key : string) (v : option Z) : Features :=
  match v with Some n => <[key := Int n]> f | None => f end.
Definition set_bool (f : Features) (key : string) (v : option bool) : Features :=
  match v with Some b => <[key := Bool b]> f | None => f end.
Definition set_str (f : Features) (key : string) (v : option string) : Features :=
  match v with Some s => <[key := Str s]> f | None => f end.

Definition feature_problem (p : string * Value) : list string :=
  let (k, v) := p in
  match v with
  | Int _ | Float _ | Bool _ => []
  | Str s =>
      if (length (chars s) <=? MAX_FEATURE_STR)%nat then []
      else [k +:+ ": string of " +:+ show_Z (Z.of_nat (length (chars s))) +:+ " chars > "
              +:+ show_Z (Z.of_nat MAX_FEATURE_STR)]
  | Null => [k +:+ ": null (omit missing values)"]
  | _ => [k +:+ ": nested value"]
  end.
Definition feature_problems (f : Features) : list string :=
  (if (MAX_FEATURES <? size f)%nat then
     [show_Z (Z.of_nat (size f)) +:+ " keys > " +:+ show_Z (Z.of_nat MAX_FEATURES)]
   else [])
  ++ List.concat (map feature_problem (btree_iter str_cmp f)).
