(* ===== verification/Book.v ===== *)
(** * Order books ([src/src/domain/book.rs])

    The checked book, the depth walk and the depth within a distance of mid,
    in [f64]. Reading the wire format is left out. *)

From Stdlib Require Import Ascii String.
From S2P Require Import Prelude.
From S2P Require Import Text.
From S2P Require Import F64.
From S2P Require Import Observation.

#[local] Open Scope string_scope.
#[local] Open Scope list_scope.
#[local] Open Scope Z_scope.

(** 1e-12 *)
Definition FILL_EPS : f64 := of_decimal 1 (-12).

Inductive Side : Type := Buy | Sell.
#[export] Instance Side_eq_dec : EqDecision Side.
Proof. solve_decision. Defined.

Definition sign (s : Side) : f64 := match s with Buy => one | Sell => (- one)%f64 end.
Definition opposite (s : Side) : Side := match s with Buy => Sell | Sell => Buy end.
Definition side_str (s : Side) : string := match s with Buy => "buy" | Sell => "sell" end.
Definition side_parse (s : string) : option Side :=
  let s := trim s in
  if String.eqb s "buy" then Some Buy else if String.eqb s "sell" then Some Sell else None.

Record L2Level : Type := mkLevel {
  px : f64;
  sz : f64;
  l_n : Z;
}.
Definition notional (l : L2Level) : f64 := (px l * sz l)%f64.

Record L2Book : Type := mkBook {
  bids : list L2Level;
  asks : list L2Level;
  venue_ts_ms : Z;
}.

Inductive BookError : Type :=
  | LevelError (side : string) (index : nat) (what : string)
  | Crossed (bid ask : f64)
  | NoMid
  | ArgError (what : string).

Definition show_book_error (e : BookError) : string :=
  match e with
  | LevelError side index what => side +:+ " level " +:+ show_Z (Z.of_nat index) +:+ ": " +:+ what
  | Crossed bid ask => "crossed book: best bid " +:+ show bid +:+ " >= best ask " +:+ show ask
  | NoMid => "no mid: a side of the book is empty"
  | ArgError what => "invalid argument: " +:+ what
  end.

Definition best_bid (b : L2Book) : option f64 := px <$> head (bids b).
Definition best_ask (b : L2Book) : option f64 := px <$> head (asks b).
Definition mid (b : L2Book) : option f64 :=
  bid ← best_bid b; ask ← best_ask b; Some ((bid + ask) / of_Z 2)%f64.
Definition spread_bps (b : L2Book) : option f64 :=
  bid ← best_bid b; ask ← best_ask b; m ← mid b; Some ((ask - bid) / m * of_Z 10000)%f64.
Definition is_empty (b : L2Book) : bool := match bids b, asks b with [], [] => true | _, _ => false end.

(** The loop of [check_side], with the price before. *)
Fixpoint check_levels (name : string) (ordered : f64 → f64 → bool) (i : nat) (prev : option f64) (ls : list L2Level)
    : result BookError unit :=
  match ls with
  | [] => Ok tt
  | l :: ls =>
      if negb (is_pos (px l)) then Err (LevelError name i ("px " +:+ show (px l) +:+ " is not > 0"))
      else if negb (is_pos (sz l)) then Err (LevelError name i ("sz " +:+ show (sz l) +:+ " is not > 0"))
      else
        match prev with
        | Some p =>
            if ordered p (px l) then check_levels name ordered (S i) (Some (px l)) ls
            else Err (LevelError name i ("px " +:+ show (px l) +:+ " out of order after " +:+ show p))
        | None => check_levels name ordered (S i) (Some (px l)) ls
        end
  end.
Definition check_side (name : string) (levels : list L2Level) (ordered : f64 → f64 → bool) : result BookError unit :=
  check_levels name ordered 0 None levels.

Definition validate (b : L2Book) : result BookError unit :=
  match check_side "bid" (bids b) (λ prev p, (p <? prev)%f64) with
  | Err e => Err e
  | Ok _ =>
      match check_side "ask" (asks b) (λ prev p, (prev <? p)%f64) with
      | Err e => Err e
      | Ok _ =>
          match best_bid b, best_ask b with
          | Some bid, Some ask => if (bid >=? ask)%f64 then Err (Crossed bid ask) else Ok tt
          | _, _ => Ok tt
          end
      end
  end.

Definition book_new (bids asks : list L2Level) (venue_ts_ms : Z) : result BookError L2Book :=
  let book := mkBook bids asks venue_ts_ms in
  match validate book with Ok _ => Ok book | Err e => Err e end.

Definition liquidity (b : L2Book) (side : Side) : list L2Level := match side with Buy => asks b | Sell => bids b end.
Definition touch (b : L2Book) (side : Side) : option f64 := px <$> head (liquidity b side).
Definition book_age_ms (b : L2Book) (now_ms : Z) : Z := elapsed_ms now_ms (venue_ts_ms b).

(** ** The walk *)

Inductive WalkTarget : Type := Qty (q : f64) | Notional (n : f64).
Inductive WalkEnd : Type := Filled | Limit | Depth_.
#[export] Instance WalkEnd_eq_dec : EqDecision WalkEnd.
Proof. solve_decision. Defined.

Record LevelFill : Type := mkLevelFill {
  f_level : nat;
  f_px : f64;
  f_qty : f64;
}.

Record Walk : Type := mkWalk {
  w_side : Side;
  w_target : WalkTarget;
  filled_qty : f64;
  filled_notional : f64;
  vwap : option f64;
  worst_px : option f64;
  levels_used : nat;
  slippage_bps_vs_mid : option f64;
  slippage_bps_vs_touch : option f64;
  unfilled : f64;
  w_end : WalkEnd;
  fills : list LevelFill;
}.
Definition is_complete (w : Walk) : bool := bool_decide (w_end w = Filled).

(** What is taken of a level, and what remains of the target. *)
Definition take_level (by_notional : bool) (rem : f64) (l : L2Level) : f64 * f64 :=
  if by_notional then
    let n := notional l in
    if (n <=? rem)%f64 then (sz l, (rem - n)%f64) else ((rem / px l)%f64, zero)
  else
    let q := fmin (sz l) rem in (q, (rem - q)%f64).

Definition beyond (side : Side) (limit_px : option f64) (p : f64) : bool :=
  match limit_px with
  | Some limit => match side with Buy => (p >? limit)%f64 | Sell => (p <? limit)%f64 end
  | None => false
  end.

(** The loop over the levels: the fills, what remains, why it stopped. *)
Fixpoint walk_loop (side : Side) (by_notional : bool) (tol : f64) (limit_px : option f64) (i : nat) (rem : f64)
    (ls : list L2Level) : list LevelFill * f64 * WalkEnd :=
  match ls with
  | [] => ([], rem, Depth_)
  | l :: ls =>
      if (rem <=? tol)%f64 then ([], rem, Depth_)
      else if beyond side limit_px (px l) then ([], rem, Limit)
      else
        let (q, rem) := take_level by_notional rem l in
        let '(fs, rem, e) := walk_loop side by_notional tol limit_px (S i) rem ls in
        (mkLevelFill i (px l) q :: fs, rem, e)
  end.

Definition walk (levels : list L2Level) (side : Side) (target : WalkTarget) (limit_px mid : option f64)
    : result BookError Walk :=
  let '(want, by_notional) := match target with Qty q => (q, false) | Notional n => (n, true) end in
  if negb (is_finite want && (want >=? zero)%f64) then
    Err (ArgError ("walk target " +:+ show want +:+ " is not >= 0"))
  else
    match limit_px with
    | Some l => if is_pos l then Ok tt else Err (ArgError ("limit_px " +:+ show l +:+ " is not > 0"))
    | None => Ok tt
    end ≫= λ _,
    match mid with
    | Some m => if is_pos m then Ok tt else Err (ArgError ("mid " +:+ show m +:+ " is not > 0"))
    | None => Ok tt
    end ≫= λ _,
    let tol := (want * FILL_EPS)%f64 in
    let '(fills, rem, e) := walk_loop side by_notional tol limit_px 0 want levels in
    let '(rem, e) := if (rem <=? tol)%f64 then (zero, Filled) else (rem, e) in
    let filled_qty := sum (map f_qty fills) in
    let filled_notional := sum (map (λ f, (f_px f * f_qty f)%f64) fills) in
    let vwap := if (filled_qty >? zero)%f64 then Some (filled_notional / filled_qty)%f64 else None in
    let cost_bps (reference : f64) :=
      v ← vwap; Some (sign side * (v - reference) / reference * of_Z 10000)%f64 in
    Ok (mkWalk side target filled_qty filled_notional vwap (f_px <$> last fills) (length fills)
          (mid ≫= cost_bps) ((px <$> head levels) ≫= cost_bps) rem e fills).

Definition walk_book (b : L2Book) (side : Side) (target : WalkTarget) (limit_px : option f64) : result BookError Walk :=
  walk (liquidity b side) side target limit_px (mid b).

(** ** Depth *)

Record Depth : Type := mkDepth {
  d_bps : f64;
  bid_usd : f64;
  ask_usd : f64;
  bid_levels : nat;
  ask_levels : nat;
}.
Definition imbalance (d : Depth) : option f64 :=
  let total := (bid_usd d + ask_usd d)%f64 in
  if (total >? zero)%f64 then Some ((bid_usd d - ask_usd d) / total)%f64 else None.
Definition for_taker (d : Depth) (side : Side) : f64 := match side with Buy => ask_usd d | Sell => bid_usd d end.

Fixpoint depth_loop (inside : f64 → bool) (ls : list L2Level) (usd : f64) (n : nat) : f64 * nat :=
  match ls with
  | l :: ls => if inside (px l) then depth_loop inside ls (usd + notional l)%f64 (S n) else (usd, n)
  | [] => (usd, n)
  end.
Definition depth_within (b : L2Book) (bps : f64) : result BookError Depth :=
  if negb (is_finite bps && (bps >=? zero)%f64) then Err (ArgError ("bps " +:+ show bps +:+ " is not >= 0"))
  else
    match mid b with
    | None => Err NoMid
    | Some m =>
        let lo := (m * (one - bps / of_Z 10000))%f64 in
        let hi := (m * (one + bps / of_Z 10000))%f64 in
        let '(bid_usd, bid_levels) := depth_loop (λ p, (p >=? lo)%f64) (bids b) zero 0 in
        let '(ask_usd, ask_levels) := depth_loop (λ p, (p <=? hi)%f64) (asks b) zero 0 in
        Ok (mkDepth bps bid_usd ask_usd bid_levels ask_levels)
    end.
