(* ===== verification/Ledger.v ===== *)
(** * The paper ledger ([src/src/domain/xm/ledger.rs])

    Fills at average cost, funding by the hour, marks and exposure, in [f64].
    A [&mut self] method that can fail answers the new state beside its result.
    Instants are Z inside i64. *)

From Stdlib Require Import Ascii String.
From S2P Require Import Prelude.
From S2P Require Import Ordered.
From S2P Require Import Text.
From S2P Require Import F64.
From S2P Require Import Observation.
From S2P Require Import Book.

#[local] Open Scope string_scope.
#[local] Open Scope list_scope.
#[local] Open Scope Z_scope.

Definition HOUR_MS : Z := 3600000.
(** 1e-9 *)
Definition QTY_EPS : f64 := of_decimal 1 (-9).

Inductive LedgerError : Type :=
  | FillError (instrument what : string)
  | FundingError (instrument what : string)
  | AccountError (account what : string).

Record Fill : Type := mkFill {
  fl_instrument : string;
  fl_underlying : string;
  fl_venue : string;
  fl_side : Side;
  fl_qty : f64;
  fl_px : f64;
  fee_usd : f64;
  ts_ms : Z;
}.

Record FillEffect : Type := mkEffect {
  qty_before : f64;
  qty_after : f64;
  closed_qty : f64;
  opened_qty : f64;
  ef_realized_pnl : f64;
  ef_fee_usd : f64;
  flipped : bool;
}.

Record OwedHour : Type := mkOwed {
  ow_hour_ms : Z;
  ow_qty : f64;
}.

Record Position : Type := mkPosition {
  instrument : string;
  underlying : string;
  venue : string;
  qty : f64;
  avg_px : option f64;
  realized_pnl : f64;
  fees_paid : f64;
  funding_paid : f64;
  opened_ms : option Z;
  last_funding_hour_ms : option Z;
  funding_owed : list OwedHour;
}.

Record FundingRate : Type := mkRate {
  rate_1h : f64;
  oracle_px : f64;
}.
Definition rate_valid (r : FundingRate) : bool := is_finite (rate_1h r) && is_pos (oracle_px r).
Definition rate_new (rate_1h oracle_px : f64) : option FundingRate :=
  let r := mkRate rate_1h oracle_px in if rate_valid r then Some r else None.

Record BookedHour : Type := mkBooked {
  bk_hour_ms : Z;
  bk_qty : f64;
  rate : FundingRate;
  payment_usd : f64;
  was_owed : bool;
}.

Record FundingSettlement : Type := mkSettlement {
  booked : list BookedHour;
  owed : list OwedHour;
}.

Definition flat (instrument underlying venue : string) : Position :=
  mkPosition instrument underlying venue zero None zero zero zero None None [].
Definition is_flat (p : Position) : bool := (qty p =? zero)%f64.
Definition is_settled (p : Position) : bool := is_flat p && bool_decide (length (funding_owed p) = O).
Definition side (p : Position) : option Side :=
  if (qty p >? zero)%f64 then Some Buy else if (qty p <? zero)%f64 then Some Sell else None.

(** ** Fills *)

Definition with_size (p : Position) (q : f64) (avg : option f64) (opened : option Z) : Position :=
  mkPosition (instrument p) (underlying p) (venue p) q avg (realized_pnl p) (fees_paid p) (funding_paid p) opened
    (last_funding_hour_ms p) (funding_owed p).
Definition add_realized (p : Position) (x : f64) : Position :=
  mkPosition (instrument p) (underlying p) (venue p) (qty p) (avg_px p) (realized_pnl p + x)%f64 (fees_paid p)
    (funding_paid p) (opened_ms p) (last_funding_hour_ms p) (funding_owed p).
Definition add_fee (p : Position) (x : f64) : Position :=
  mkPosition (instrument p) (underlying p) (venue p) (qty p) (avg_px p) (realized_pnl p) (fees_paid p + x)%f64
    (funding_paid p) (opened_ms p) (last_funding_hour_ms p) (funding_owed p).

(** The guards of [Position::apply_fill]. *)
Definition fill_problem (p : Position) (f : Fill) : option string :=
  if negb (String.eqb (fl_instrument f) (instrument p)) then Some ("position is " +:+ instrument p)
  else if negb (String.eqb (fl_underlying f) (underlying p)) || negb (String.eqb (fl_venue f) (venue p)) then
    Some ("underlying " +:+ fl_underlying f +:+ " / venue " +:+ fl_venue f +:+ ", position has "
          +:+ underlying p +:+ " / " +:+ venue p)
  else if negb (is_pos (fl_qty f)) then Some ("qty " +:+ show (fl_qty f) +:+ " is not > 0")
  else if negb (is_pos (fl_px f)) then Some ("px " +:+ show (fl_px f) +:+ " is not > 0")
  else if negb (is_finite (fee_usd f)) then Some ("fee_usd " +:+ show (fee_usd f) +:+ " is not finite")
  else None.

(** How much of an opposite fill closes [open], and the rest that flips. *)
Definition closing (open fill_qty : f64) : f64 * f64 :=
  let eps := (QTY_EPS * fmax open fill_qty)%f64 in
  if (SFabs (fill_qty - open) <=? eps)%f64 then (open, zero)
  else if (fill_qty <? open)%f64 then (fill_qty, zero)
  else (open, (fill_qty - open)%f64).

Definition apply_fill (p : Position) (f : Fill) : result LedgerError (Position * FillEffect) :=
  match fill_problem p f with
  | Some what => Err (FillError (fl_instrument f) what)
  | None =>
      let before := qty p in
      let delta := (sign (fl_side f) * fl_qty f)%f64 in
      if (before =? zero)%f64 || (signum before =? signum delta)%f64 then
        let new_qty := (before + delta)%f64 in
        let avg :=
          match avg_px p with
          | Some a =>
              if negb (before =? zero)%f64 then
                ((SFabs before * a + fl_qty f * fl_px f) / SFabs new_qty)%f64
              else fl_px f
          | None => fl_px f
          end in
        let opened := if (before =? zero)%f64 then Some (ts_ms f) else opened_ms p in
        let p := add_fee (with_size p new_qty (Some avg) opened) (fee_usd f) in
        Ok (p, mkEffect before (qty p) zero (fl_qty f) zero (fee_usd f) false)
      else
        match avg_px p with
        | None => Err (FillError (fl_instrument f) "open position has no avg_px")
        | Some avg =>
            let open := SFabs before in
            let '(closed, rest) := closing open (fl_qty f) in
            let realized := (closed * (fl_px f - avg) * signum before)%f64 in
            let p := add_realized p realized in
            let '(p, opened, flipped) :=
              if (rest >? zero)%f64 then
                (with_size p (signum delta * rest)%f64 (Some (fl_px f)) (Some (ts_ms f)), rest, true)
              else if (closed =? open)%f64 then (with_size p zero None None, zero, false)
              else (with_size p (signum before * (open - closed))%f64 (avg_px p) (opened_ms p), zero, false) in
            let p := add_fee p (fee_usd f) in
            Ok (p, mkEffect before (qty p) closed opened realized (fee_usd f) flipped)
        end
  end.

Definition exit_deadline (e : FillEffect) (held order : option Z) : option Z :=
  if (qty_after e =? zero)%f64 then None
  else if (qty_before e =? zero)%f64 || flipped e then order
  else if (closed_qty e =? zero)%f64 then
    match held, order with
    | Some a, Some b => Some (Z.min a b)
    | Some a, None => Some a
    | None, b => b
    end
  else held.

(** ** Funding *)

Definition pay (p : Position) (payment : f64) (hour : option Z) (owed : list OwedHour) : Position :=
  mkPosition (instrument p) (underlying p) (venue p) (qty p) (avg_px p) (realized_pnl p) (fees_paid p)
    (funding_paid p + payment)%f64 (opened_ms p) hour owed.

Definition accrue_funding (p : Position) (rate_1h oracle_px : f64) (hour_ms : Z)
    : Position * result LedgerError (option f64) :=
  let bad what := (p, Err (FundingError (instrument p) what)) in
  if negb (hour_ms mod HOUR_MS =? 0) then bad ("hour_ms " +:+ show_Z hour_ms +:+ " is not on the hour")
  else if negb (is_finite rate_1h) then bad ("rate_1h " +:+ show rate_1h +:+ " is not finite")
  else if negb (is_pos oracle_px) then bad ("oracle_px " +:+ show oracle_px +:+ " is not > 0")
  else if match last_funding_hour_ms p with Some last => hour_ms <=? last | None => false end then (p, Ok None)
  else
    match opened_ms p with
    | Some opened =>
        if negb (is_flat p) && (opened <=? hour_ms) then
          let payment := (qty p * oracle_px * rate_1h)%f64 in
          (pay p payment (Some hour_ms) (funding_owed p), Ok (Some payment))
        else (p, Ok None)
    | None => (p, Ok None)
    end.

(** [while h <= now_ms]; an hour goes by per step. *)
Fixpoint hours_loop (fuel : nat) (h now_ms : Z) : list Z :=
  match fuel with
  | O => []
  | S fuel => if h <=? now_ms then h :: hours_loop fuel (h + HOUR_MS) now_ms else []
  end.
Definition hours_fuel (first now_ms : Z) : nat := Z.to_nat ((now_ms - first) / HOUR_MS + 1).
Definition due_funding_hours (p : Position) (now_ms : Z) : list Z :=
  match (if is_flat p then None else opened_ms p) with
  | None => []
  | Some opened =>
      let from_opened := opened / HOUR_MS * HOUR_MS + (if opened mod HOUR_MS =? 0 then 0 else HOUR_MS) in
      let first :=
        match last_funding_hour_ms p with
        | Some last => Z.max from_opened (last + HOUR_MS)
        | None => from_opened
        end in
      hours_loop (hours_fuel first now_ms) first now_ms
  end.

(** The owed hours, booked at [r]. *)
Definition book_owed (r : FundingRate) (st : Position * list BookedHour) (o : OwedHour) : Position * list BookedHour :=
  let (p, booked) := st in
  let payment := (ow_qty o * oracle_px r * rate_1h r)%f64 in
  (pay p payment (last_funding_hour_ms p) (funding_owed p),
   booked ++ [mkBooked (ow_hour_ms o) (ow_qty o) r payment true]).

(** The loop over the due hours; [q] is the size held, which it does not change. *)
Fixpoint settle_due (rate : option FundingRate) (hours : list Z) (p : Position) (s : FundingSettlement)
    : Position * result LedgerError FundingSettlement :=
  match hours with
  | [] => (p, Ok s)
  | hour_ms :: hours =>
      let q := qty p in
      match rate with
      | Some r =>
          match accrue_funding p (rate_1h r) (oracle_px r) hour_ms with
          | (p, Err e) => (p, Err e)
          | (p, Ok (Some payment)) =>
              settle_due rate hours p (mkSettlement (booked s ++ [mkBooked hour_ms q r payment false]) (owed s))
          | (p, Ok None) => settle_due rate hours p s
          end
      | None =>
          if negb (hour_ms mod HOUR_MS =? 0) then
            (p, Err (FundingError (instrument p) ("hour_ms " +:+ show_Z hour_ms +:+ " is not on the hour")))
          else
            let o := mkOwed hour_ms q in
            let p := mkPosition (instrument p) (underlying p) (venue p) (qty p) (avg_px p) (realized_pnl p)
                       (fees_paid p) (funding_paid p) (opened_ms p) (Some hour_ms) (funding_owed p ++ [o]) in
            settle_due rate hours p (mkSettlement (booked s) (owed s ++ [o]))
      end
  end.

Definition settle (p : Position) (rate : option FundingRate) (now_ms : Z)
    : Position * result LedgerError FundingSettlement :=
  match rate with
  | Some r =>
      if negb (rate_valid r) then
        (p, Err (FundingError (instrument p)
                   ("rate_1h " +:+ show (rate_1h r) +:+ " / oracle_px " +:+ show (oracle_px r) +:+ " is not a rate")))
      else
        let p0 := mkPosition (instrument p) (underlying p) (venue p) (qty p) (avg_px p) (realized_pnl p) (fees_paid p)
                    (funding_paid p) (opened_ms p) (last_funding_hour_ms p) [] in
        let '(p1, booked) := fold_left (book_owed r) (funding_owed p) (p0, []) in
        settle_due rate (due_funding_hours p1 now_ms) p1 (mkSettlement booked [])
  | None => settle_due rate (due_funding_hours p now_ms) p (mkSettlement [] [])
  end.

Definition settle_funding (p : Position) (rate : option FundingRate) (now_ms : Z)
    : Position * result LedgerError FundingSettlement :=
  match settle p rate now_ms with
  | (p', Ok s) => (p', Ok s)
  | (_, Err e) => (p, Err e)
  end.

(** ** Marks *)

Record Mark : Type := mkMark {
  m_px : f64;
  at_ms : Z;
}.
Definition mark_field (instrument : string) : string := "mark:" +:+ instrument.

Definition MAX_FUTURE_STAMP_MS : Z := 1000.
Definition stamp_age_ms (now_ms at_ms : Z) : option Z :=
  if sat_i64 (now_ms + MAX_FUTURE_STAMP_MS) <? at_ms then None else Some (elapsed_ms now_ms at_ms).
Definition future_stamp (what : string) (at_ms now_ms : Z) : string :=
  "stale: " +:+ what +:+ " stamped at " +:+ show_Z at_ms +:+ " ms, " +:+ show_Z (sat_i64 (at_ms - now_ms))
  +:+ " ms after now (" +:+ show_Z now_ms +:+ " ms) — a clock step?".

Definition fresh_mark (instrument : string) (mark : Field Mark) (now_ms max_age_ms : Z) : Field f64 :=
  let field := mark_field instrument in
  match mark with
  | FOk m =>
      if negb (is_pos (m_px m)) then
        FErr (read_error_new field Decode ("mark px " +:+ show (m_px m) +:+ " is not > 0"))
      else
        match stamp_age_ms now_ms (at_ms m) with
        | None => FErr (read_error_new field Transient (future_stamp "mark" (at_ms m) now_ms))
        | Some age_ms =>
            if max_age_ms <? age_ms then
              FErr (read_error_new field Transient
                      ("stale: mark age " +:+ show_Z age_ms +:+ " ms > " +:+ show_Z max_age_ms +:+ " ms"))
            else FOk (m_px m)
        end
  | FAbsent => FErr (read_error_new field Transient "no mark")
  | FErr e => FErr (mkReadError field (e_class e) (e_message e) (retry_after_ms e))
  end.

Definition mark (p : Position) (mark_px : Field f64) : Field f64 :=
  if is_flat p then FOk zero
  else
    let field := mark_field (instrument p) in
    match avg_px p with
    | None => FErr (read_error_new field Fatal "open position has no avg_px")
    | Some avg =>
        match mark_px with
        | FOk v =>
            if is_pos v then FOk (qty p * (v - avg))%f64
            else FErr (read_error_new field Decode ("mark px " +:+ show v +:+ " is not > 0"))
        | FAbsent => FErr (read_error_new field Transient "no mark")
        | FErr e => FErr e
        end
    end.

(** ** Accounts *)

Record PaperAccount : Type := mkAccount {
  pa_account : string;
  pa_initial_cash_usd : f64;
  cash_usd : f64;
  positions : gmap string Position;
}.

Definition account_new (account : string) (initial_cash_usd : f64) : result LedgerError PaperAccount :=
  if String.eqb (trim account) "" || negb (is_pos initial_cash_usd) then
    Err (AccountError account ("needs a name and initial cash > 0 (got " +:+ show initial_cash_usd +:+ ")"))
  else Ok (mkAccount account initial_cash_usd initial_cash_usd ∅).

Definition account_apply_fill (a : PaperAccount) (f : Fill) : result LedgerError (PaperAccount * FillEffect) :=
  let position := default (flat (fl_instrument f) (fl_underlying f) (fl_venue f)) (positions a !! fl_instrument f) in
  match apply_fill position f with
  | Err e => Err e
  | Ok (position, effect) =>
      Ok (mkAccount (pa_account a) (pa_initial_cash_usd a)
            (cash_usd a + (ef_realized_pnl effect - ef_fee_usd effect))%f64
            (<[fl_instrument f := position]> (positions a)), effect)
  end.

Definition account_settle_funding (a : PaperAccount) (instrument : string) (rate : option FundingRate) (now_ms : Z)
    : PaperAccount * result LedgerError FundingSettlement :=
  match positions a !! instrument with
  | None => (a, Ok (mkSettlement [] []))
  | Some p =>
      match settle_funding p rate now_ms with
      | (p, Ok s) =>
          (mkAccount (pa_account a) (pa_initial_cash_usd a)
             (fold_left (λ c h, c - payment_usd h)%f64 (booked s) (cash_usd a))
             (<[instrument := p]> (positions a)), Ok s)
      | (p, Err e) =>
          (mkAccount (pa_account a) (pa_initial_cash_usd a) (cash_usd a) (<[instrument := p]> (positions a)), Err e)
      end
  end.

(** The positions in the order of the map. *)
Definition position_list (a : PaperAccount) : list Position := map snd (btree_iter str_cmp (positions a)).
Definition open_positions (a : PaperAccount) : list Position := List.filter (λ p, negb (is_flat p)) (position_list a).
Definition funding_ids (a : PaperAccount) : list string :=
  btree_set str_cmp (map instrument (List.filter (λ p, negb (is_settled p)) (position_list a))).

Definition total (l : list f64) : f64 := (sum l + zero)%f64.
Definition account_realized_pnl (a : PaperAccount) : f64 := total (map realized_pnl (position_list a)).
Definition account_fees_paid (a : PaperAccount) : f64 := total (map fees_paid (position_list a)).
Definition account_funding_paid (a : PaperAccount) : f64 := total (map funding_paid (position_list a)).

(** ** The valued account *)

Record Exposure : Type := mkExposure {
  gross_usd : f64;
  net_usd : f64;
}.

Record PositionRow : Type := mkRow {
  r_instrument : string;
  r_underlying : string;
  r_venue : string;
  r_qty : f64;
  r_avg_px : option f64;
  r_opened_ms : option Z;
  mark_px : Field f64;
  notional_usd : Field f64;
  r_upnl_usd : Field f64;
  r_realized_pnl_usd : f64;
  r_fees_usd : f64;
  r_funding_usd : f64;
  exit_at_ms : option Z;
}.

Record GroupExposure : Type := mkGroup {
  g_key : string;
  g_exposure : Field Exposure;
}.

Record PaperPositions : Type := mkPositions {
  pp_account : string;
  initial_cash_usd : f64;
  pp_cash_usd : f64;
  realized_pnl_usd : f64;
  fees_usd : f64;
  funding_usd : f64;
  upnl_usd : Field f64;
  equity_usd : Field f64;
  exposure : Field Exposure;
  leverage : Field f64;
  daily_pnl_usd : Field f64;
  halted : option bool;
  marks_stale : nat;
  rows : list PositionRow;
  by_underlying : list GroupExposure;
  by_venue : list GroupExposure;
}.

Fixpoint sum_loop (total : f64) (fields : list (Field f64)) : Field f64 :=
  match fields with
  | [] => FOk total
  | FOk v :: fields => sum_loop (total + v)%f64 fields
  | FErr e :: _ => FErr e
  | FAbsent :: fields => sum_loop total fields
  end.
Definition sum_fields (fields : list (Field f64)) : Field f64 := sum_loop zero fields.

Fixpoint exposure_loop (e : Exposure) (rows : list PositionRow) : Field Exposure :=
  match rows with
  | [] => FOk e
  | row :: rows =>
      match notional_usd row with
      | FOk v => exposure_loop (mkExposure (gross_usd e + SFabs v) (net_usd e + v))%f64 rows
      | FErr err => FErr err
      | FAbsent => exposure_loop e rows
      end
  end.
Definition exposure_of (rows : list PositionRow) : Field Exposure := exposure_loop (mkExposure zero zero) rows.

Definition grouped (rows : list PositionRow) (key : PositionRow → string) : list GroupExposure :=
  map (λ k, mkGroup k (exposure_of (List.filter (λ r, String.eqb (key r) k) rows))) (btree_set str_cmp (map key rows)).

Definition position_row (marks : gmap string (Field Mark)) (now_ms max_mark_age_ms : Z) (p : Position) : PositionRow :=
  let raw := default FAbsent (marks !! instrument p) in
  let mark_px := fresh_mark (instrument p) raw now_ms max_mark_age_ms in
  let upnl := mark p mark_px in
  let notional := match mark_px with FOk v => FOk (qty p * v)%f64 | other => other end in
  mkRow (instrument p) (underlying p) (venue p) (qty p) (avg_px p) (opened_ms p) mark_px notional upnl
    (realized_pnl p) (fees_paid p) (funding_paid p) None.

Definition build (account : PaperAccount) (marks : gmap string (Field Mark)) (now_ms max_mark_age_ms : Z)
    (day_start_equity_usd : option f64) (halted : option bool) : PaperPositions :=
  let rows := map (position_row marks now_ms max_mark_age_ms) (open_positions account) in
  let upnl := sum_fields (map r_upnl_usd rows) in
  let equity := match upnl with FOk v => FOk (cash_usd account + v)%f64 | other => other end in
  let exposure := exposure_of rows in
  let leverage :=
    match exposure, equity with
    | FErr e, _ => FErr e
    | _, FErr e => FErr e
    | FOk e, FOk eq =>
        if (eq >? zero)%f64 then FOk (gross_usd e / eq)%f64
        else FErr (read_error_new "leverage" NotApplicable ("equity " +:+ show eq +:+ " <= 0"))
    | FAbsent, FOk eq => FErr (read_error_new "leverage" NotApplicable ("equity " +:+ show eq +:+ " <= 0"))
    | _, FAbsent => FAbsent
    end in
  let daily :=
    match day_start_equity_usd with
    | None => FAbsent
    | Some d =>
        if negb (is_finite d) then
          FErr (read_error_new "day_start_equity" Decode ("day-start equity " +:+ show d +:+ " is not finite"))
        else match equity with FOk v => FOk (v - d)%f64 | other => other end
    end in
  mkPositions (pa_account account) (pa_initial_cash_usd account) (cash_usd account) (account_realized_pnl account)
    (account_fees_paid account) (account_funding_paid account) upnl equity exposure leverage daily halted
    (length (List.filter (λ r, is_error (mark_px r)) rows)) rows (grouped rows r_underlying) (grouped rows r_venue).

Definition field_errors (pp : PaperPositions) : list ReadError :=
  let out := omap (λ r, error (mark_px r)) (rows pp) in
  fold_left
    (λ out e,
      if existsb (λ o, String.eqb (e_field o) (e_field e) && String.eqb (e_message o) (e_message e)) out then out
      else out ++ [e])
    (omap id [error (leverage pp); error (daily_pnl_usd pp)]) out.

Definition positions_status (pp : PaperPositions) : ObsStatus :=
  if (0 <? marks_stale pp)%nat || is_error (upnl_usd pp) || is_error (equity_usd pp) || is_error (exposure pp)
     || is_error (leverage pp) || is_error (daily_pnl_usd pp)
  then ObsPartial else ObsOk.

(** ** Cases of the tests in the source *)

Definition T0 : Z := 1790985600000.
Definition sample_fill (s : Side) (q p : f64) : Fill :=
  mkFill "hyperliquid:xyz:TSLA" "company:tesla" "hyperliquid" s q p zero T0.
Definition sample_account : PaperAccount := mkAccount "paper-test" (of_Z 10000) (of_Z 10000) ∅.
Definition fill_all (a : PaperAccount) (fs : list Fill) : PaperAccount :=
  fold_left (λ a f, match account_apply_fill a f with Ok (a, _) => a | Err _ => a end) fs a.
