(* ===== verification/LedgerProps.v ===== *)
(** * The paper ledger: well-formed positions, funding settled once, honest marks *)

From Stdlib Require Import Ascii String.
From S2P Require Import Prelude.
From S2P Require Import Ordered.
From S2P Require Import Text.
From S2P Require Import F64.
From S2P Require Import F64Facts.
From S2P Require Import Observation.
From S2P Require Import Book.
From S2P Require Import Ledger.

#[local] Open Scope list_scope.
#[local] Open Scope Z_scope.

(** ** Hours *)

Lemma HOUR_pos : 0 < HOUR_MS.
Proof. done. Qed.

Definition hour_list (h : Z) (n : nat) : list Z := map (λ i, h + Z.of_nat i * HOUR_MS) (seq 0 n).

Lemma hour_list_S h n : hour_list h (S n) = h :: hour_list (h + HOUR_MS) n.
Proof.
  unfold hour_list. cbn [seq map]. f_equal; [lia|]. rewrite <-seq_shift, map_map. apply map_ext. intros i. lia.
Qed.
Lemma hour_list_app h n m : hour_list h (n + m) = hour_list h n ++ hour_list (h + Z.of_nat n * HOUR_MS) m.
Proof.
  revert h. induction n as [|n IH]; intros h; [cbn [Nat.add]; by replace (h + Z.of_nat 0 * HOUR_MS) with h by lia|].
  cbn [Nat.add]. rewrite !hour_list_S, IH. cbn [app]. do 3 f_equal. lia.
Qed.

Lemma hours_fuel_S h now : h ≤ now → hours_fuel h now = S (hours_fuel (h + HOUR_MS) now).
Proof.
  intros Hh. unfold hours_fuel. replace (now - h) with (now - (h + HOUR_MS) + 1 * HOUR_MS) by lia.
  rewrite Z.div_add by done.
  assert (-1 ≤ (now - (h + HOUR_MS)) / HOUR_MS) by (apply Z.div_le_lower_bound; [done|lia]). lia.
Qed.
Lemma hours_fuel_O h now : now < h → hours_fuel h now = O.
Proof. intros Hh. unfold hours_fuel. assert ((now - h) / HOUR_MS < 0) by (apply Z.div_lt_upper_bound; [done|lia]). lia. Qed.

(** The fuel of the loop is enough: the hours from [h] to [now]. *)
Lemma hours_loop_spec h now : hours_loop (hours_fuel h now) h now = hour_list h (hours_fuel h now).
Proof.
  remember (hours_fuel h now) as n eqn:En. revert h En. induction n as [|n IH]; intros h En; [done|].
  cbn [hours_loop]. destruct (Z.leb_spec h now) as [Hle|Hgt].
  - rewrite hours_fuel_S in En by done. injection En as En. by rewrite hour_list_S, (IH _ En).
  - rewrite hours_fuel_O in En by done. done.
Qed.

Lemma elem_hour_list x h now : x ∈ hour_list h (hours_fuel h now) ↔ h ≤ x ≤ now ∧ (HOUR_MS | x - h).
Proof.
  unfold hour_list. rewrite list_elem_of_fmap. unfold hours_fuel. split.
  - intros (i & -> & Hi%elem_of_seq). pose proof (Z.div_mod (now - h) HOUR_MS ltac:(done)).
    pose proof (Z.mod_pos_bound (now - h) HOUR_MS HOUR_pos). pose proof HOUR_pos.
    split; [nia|]. exists (Z.of_nat i). lia.
  - intros [[H1 H2] [k Hk]]. pose proof HOUR_pos. assert (0 ≤ k) by nia.
    exists (Z.to_nat k). split; [lia|]. apply elem_of_seq.
    assert (k ≤ (now - h) / HOUR_MS) by (apply Z.div_le_lower_bound; lia). lia.
Qed.

(** ** Well-formed positions *)

Definition on_the_hour (h : Z) : Prop := h mod HOUR_MS = 0.

(** Hours in order, each after [last]. *)
Fixpoint after (last : option Z) (hs : list Z) : Prop :=
  match hs with
  | [] => True
  | h :: hs => on_the_hour h ∧ (∀ l, last = Some l → l < h) ∧ after (Some h) hs
  end.

Record position_ok (p : Position) : Prop := mkPositionOk {
  ok_qty : valid (qty p) = true;
  ok_avg : is_flat p = true ↔ avg_px p = None;
  ok_opened : is_flat p = true ↔ opened_ms p = None;
  ok_owed : after None (map ow_hour_ms (funding_owed p));
  ok_last : ∀ h, h ∈ map ow_hour_ms (funding_owed p) → ∃ l, last_funding_hour_ms p = Some l ∧ h ≤ l;
  ok_hour : ∀ l, last_funding_hour_ms p = Some l → on_the_hour l;
}.

#[local] Arguments is_flat : simpl never.
Lemma is_flat_zero p : is_flat p = is_zero (qty p).
Proof. apply sf_eqb_zero. Qed.

Lemma flat_ok i u v : position_ok (flat i u v).
Proof. constructor; cbn; try done. by intros h ?%elem_of_nil. Qed.

Lemma is_pos_nonzero x : is_pos x = true → is_zero x = false ∧ is_nan x = false.
Proof. unfold is_pos. by destruct x as [[]|[]| |[] m e]. Qed.
Lemma sign_mul_spec s x : valid x = true → valid (sign s * x)%f64 = true ∧ is_zero (sign s * x)%f64 = is_zero x.
Proof. intros Hx. destruct s; [apply (signum_mul_spec one)|apply (signum_mul_spec (- one)%f64)]; done. Qed.

Lemma gtb_zero x : SFltb zero x = true → is_zero x = false.
Proof. by destruct x as [[]|[]| |[] m e]. Qed.
Lemma signum_neq_nan x y : SFeqb (signum x) (signum y) = true → is_nan x = false.
Proof. by destruct x as [[]|[]| |[] m e]. Qed.

Lemma ltb_not_eqb x y : SFltb x y = true → SFeqb x y = false.
Proof. unfold SFltb, SFeqb. by destruct (SFcompare x y) as [[]|]. Qed.

Lemma signum_mul_any x y : valid y = true → valid (signum x * y)%f64 = true.
Proof.
  intros Hy. destruct (is_nan x) eqn:E; [|by apply signum_mul_spec]. by destruct x.
Qed.
Lemma signum_mul_nonzero x y : valid y = true → is_zero y = false → is_zero (signum x * y)%f64 = false.
Proof.
  intros Hy Hz. destruct (is_nan x) eqn:E; [by destruct x|]. by rewrite (proj2 (signum_mul_spec x y Hy E)).
Qed.

Lemma abs_idem x : SFabs (SFabs x) = SFabs x.
Proof. by destruct x as [[]|[]| |[] m e]. Qed.
Lemma is_pos_abs x : is_pos x = true → SFabs x = x.
Proof. unfold is_pos. by destruct x as [[]|[]| |[] m e]. Qed.

(** A fill keeps a position well-formed. *)
Lemma apply_fill_ok p f p' e : position_ok p → valid (fl_qty f) = true → apply_fill p f = Ok (p', e) →
  position_ok p' ∧ instrument p' = instrument p ∧ fl_instrument f = instrument p.
Proof.
  intros [Hq Ha Ho Hw Hl Hh] Hf. unfold apply_fill. destruct (fill_problem p f) as [w|] eqn:Ef; [done|].
  unfold fill_problem in Ef. destruct (String.eqb_spec (fl_instrument f) (instrument p)) as [Ei|]; [cbn in Ef|done].
  destruct (_ || _); [done|]. destruct (is_pos (fl_qty f)) eqn:Epos; [|done]. clear Ef.
  destruct (is_pos_nonzero _ Epos) as [Hz _]. destruct (sign_mul_spec (fl_side f) (fl_qty f) Hf) as [Hdv Hdz]. rewrite Hz in Hdz.
  set (delta := (sign (fl_side f) * fl_qty f)%f64) in *.
  destruct ((qty p =? zero)%f64 || (signum (qty p) =? signum delta)%f64) eqn:Ecase.
  - intros [= <- _]. split; [|done]. cbn [add_fee with_size].
    assert (is_zero (qty p + delta)%f64 = false) as Hnz.
    { apply orb_true_iff in Ecase as [E|E].
      - rewrite sf_eqb_zero in E. destruct (qty p) as [[]|[]| |s m ex]; try done; destruct delta as [[]|[]| |[] m' e']; done.
      - destruct (is_zero (qty p)) eqn:Ez.
        + destruct (qty p) as [[]|[]| |s m ex]; try done; destruct delta as [[]|[]| |[] m' e']; done.
        + by apply add_same_sign. }
    constructor; cbn; rewrite ?is_flat_zero; cbn; try done; try (by rewrite Hnz); [by apply add_valid|].
    rewrite Hnz. rewrite sf_eqb_zero. destruct (is_zero (qty p)) eqn:Ez; [by split|].
    by rewrite is_flat_zero, Ez in Ho.
  - apply orb_false_iff in Ecase as [Enz _]. rewrite sf_eqb_zero in Enz. rewrite is_flat_zero, Enz in Ha, Ho.
    destruct (avg_px p) as [avg|] eqn:Eavg; [|done].
    destruct (opened_ms p) as [opened|] eqn:Eop; [|by discriminate (proj2 Ho eq_refl)].
    unfold closing. destruct (SFabs _ <=? _)%f64; [|destruct (fl_qty f <? SFabs (qty p))%f64 eqn:Elt].
    + change (SFltb zero zero) with false. cbv beta iota.
      destruct (SFabs (qty p) =? SFabs (qty p))%f64 eqn:Eself; intros [= <- _]. all: split; [|done]. all: cbn [add_fee with_size add_realized].
      * constructor; cbn; done.
      * assert (qty p = S754_nan) as En.
        { rewrite eqb_self in Eself. by destruct (qty p). }
        constructor; cbn; rewrite ?is_flat_zero; cbn; rewrite ?En, ?Eavg, ?Eop; done.
    + change (SFltb zero zero) with false. cbv beta iota. rewrite (ltb_not_eqb _ _ Elt).
      intros [= <- _]. split; [|done]. cbn [add_fee with_size add_realized].
      assert (is_zero (signum (qty p) * (SFabs (qty p) - fl_qty f))%f64 = false) as Hnz.
      { apply signum_mul_nonzero; [apply sub_valid; [by rewrite abs_valid|done]|].
        rewrite <-(is_pos_abs _ Epos). apply sub_lt_nonzero; [done..|]. by rewrite (is_pos_abs _ Epos). }
      constructor; cbn; rewrite ?is_flat_zero; cbn; rewrite ?Hnz, ?Eavg, ?Eop; try done.
      apply signum_mul_any, sub_valid; [by rewrite abs_valid|done].
    + destruct (SFltb zero (fl_qty f - SFabs (qty p))%f64) eqn:Erest; cbv beta iota.
      * intros [= <- _]. split; [|done]. cbn [add_fee with_size add_realized].
        assert (valid (fl_qty f - SFabs (qty p))%f64 = true) as Hrv by (apply sub_valid; [done|by rewrite abs_valid]).
        assert (is_zero (signum delta * (fl_qty f - SFabs (qty p)))%f64 = false) as Hnz by (apply signum_mul_nonzero; [done|by apply gtb_zero]).
        constructor; cbn; rewrite ?is_flat_zero; cbn; rewrite ?Hnz; try done. by apply signum_mul_any.
      * destruct (SFabs (qty p) =? SFabs (qty p))%f64 eqn:Eself; intros [= <- _]. all: split; [|done]. all: cbn [add_fee with_size add_realized].
        -- constructor; cbn; done.
        -- assert (qty p = S754_nan) as En.
           { rewrite eqb_self in Eself. by destruct (qty p). }
           constructor; cbn; rewrite ?is_flat_zero; cbn; rewrite ?En, ?Eavg, ?Eop; done.
Qed.

(** ** Funding *)

Definition last_or (d : option Z) (hs : list Z) : option Z := match last hs with Some h => Some h | None => d end.
Lemma last_or_cons d h hs : last_or d (h :: hs) = last_or (Some h) hs.
Proof. unfold last_or. rewrite last_cons. by destruct (last hs). Qed.

Lemma after_hour_list h n d : on_the_hour h → (∀ l, d = Some l → l < h) → after d (hour_list h n).
Proof.
  revert h d. induction n as [|n IH]; intros h d Hh Hl; [done|]. rewrite hour_list_S. split; [done|]. split; [done|].
  apply IH; [|intros l [= <-]; unfold HOUR_MS; lia].
  unfold on_the_hour in *. replace (h + HOUR_MS) with (h + 1 * HOUR_MS) by lia. by rewrite Z.mod_add.
Qed.
Lemma after_app d hs hs' : after d (hs ++ hs') ↔ after d hs ∧ after (last_or d hs) hs'.
Proof.
  revert d. induction hs as [|h hs IH]; intros d; cbn [app after]; [cbn; tauto|]. rewrite IH, last_or_cons. tauto.
Qed.
Lemma after_bound d hs h : after d hs → h ∈ hs → ∀ l, d = Some l → l < h.
Proof.
  revert d. induction hs as [|x hs IH]; intros d; [by intros _ ?%elem_of_nil|]. intros (_ & Hx & Ha) [->|Hin]%elem_of_cons l Hl.
  - by apply Hx.
  - specialize (Hx l Hl). specialize (IH _ Ha Hin x eq_refl). lia.
Qed.
Lemma after_le_last d hs h : after d hs → h ∈ hs → ∃ l, last_or d hs = Some l ∧ h ≤ l.
Proof.
  revert d h. induction hs as [|x hs IH]; intros d h; [by intros _ ?%elem_of_nil|]. intros (_ & _ & Ha) Hin. rewrite last_or_cons.
  apply elem_of_cons in Hin as [->|Hin]; [|by apply IH].
  destruct hs as [|y hs]; [by exists x|]. destruct (IH _ y Ha ltac:(by left)) as (l & Hl & ?).
  exists l. split; [done|]. destruct Ha as (_ & Hy & _). specialize (Hy x eq_refl). lia.
Qed.
Lemma after_on_hour d hs h : after d hs → h ∈ hs → on_the_hour h.
Proof.
  revert d. induction hs as [|x hs IH]; intros d; [by intros _ ?%elem_of_nil|].
  intros (? & _ & Ha) [->|Hin]%elem_of_cons; [done|]. by apply (IH _ Ha).
Qed.

(** The first hour a position still owes. *)
Definition first_due (opened : Z) (last : option Z) : Z :=
  let from_opened := opened / HOUR_MS * HOUR_MS + (if opened mod HOUR_MS =? 0 then 0 else HOUR_MS) in
  match last with Some l => Z.max from_opened (l + HOUR_MS) | None => from_opened end.

Lemma first_due_spec opened last : (∀ l, last = Some l → on_the_hour l) →
  on_the_hour (first_due opened last) ∧ opened ≤ first_due opened last ∧ (∀ l, last = Some l → l < first_due opened last)
  ∧ ∀ h, on_the_hour h → opened ≤ h → (∀ l, last = Some l → l < h) → first_due opened last ≤ h.
Proof.
  intros Hl. unfold first_due, on_the_hour in *. set (o := opened / HOUR_MS * HOUR_MS + _). pose proof HOUR_pos as Hp.
  pose proof (Z.div_mod opened HOUR_MS ltac:(done)) as Hd. pose proof (Z.mod_pos_bound opened HOUR_MS Hp) as Hm.
  assert (∃ k, o = k * HOUR_MS ∧ opened ≤ o < opened + HOUR_MS) as (k & Hk & Ho).
  { unfold o. destruct (Z.eqb_spec (opened mod HOUR_MS) 0); [exists (opened / HOUR_MS)|exists (opened / HOUR_MS + 1)]; lia. }
  assert (∀ h, h mod HOUR_MS = 0 → opened ≤ h → o ≤ h) as Hmin.
  { intros h [j Hj]%Z.mod_divide Hh; [|done]. subst h. rewrite Hk in *. assert (k ≤ j) by nia. nia. }
  destruct last as [l|].
  - specialize (Hl l eq_refl) as Hll. apply Z.mod_divide in Hll as [j Hj]; [|done].
    assert (Z.max o (l + HOUR_MS) mod HOUR_MS = 0) as Hmax.
    { apply Z.mod_divide; [done|]. destruct (Z.max_spec o (l + HOUR_MS)) as [[_ ->]|[_ ->]]; [exists (j + 1)|exists k]; lia. }
    split; [done|]. split; [lia|]. split; [intros ? [= <-]; lia|].
    intros h Hh Hoh Hlh. specialize (Hlh l eq_refl). specialize (Hmin h Hh Hoh).
    apply Z.mod_divide in Hh as [i Hi]; [|done]. assert (j + 1 ≤ i) by nia. nia.
  - split; [by rewrite Hk, Z.mod_mul|]. split; [lia|]. split; [done|]. intros h Hh Hoh _. by apply Hmin.
Qed.

(** The due hours: the hour boundaries since the position was opened, after the
    last one settled, up to now. *)
Lemma due_hours_spec p now : position_ok p →
  after (last_funding_hour_ms p) (due_funding_hours p now) ∧
  ∀ h, h ∈ due_funding_hours p now ↔
    ∃ o, opened_ms p = Some o ∧ o ≤ h ≤ now ∧ on_the_hour h ∧ ∀ l, last_funding_hour_ms p = Some l → l < h.
Proof.
  intros [_ _ Ho _ _ Hh]. unfold due_funding_hours. destruct (is_flat p) eqn:Ef.
  - split; [done|]. intros h. split; [by intros ?%elem_of_nil|]. intros (o & E & _). by rewrite (proj1 Ho eq_refl) in E.
  - destruct (opened_ms p) as [o|] eqn:Eo; [|by discriminate (proj2 Ho eq_refl)].
    fold (first_due o (last_funding_hour_ms p)). destruct (first_due_spec o _ Hh) as (F1 & F2 & F3 & F4).
    rewrite hours_loop_spec. split; [by apply after_hour_list|]. intros h. rewrite elem_hour_list. split.
    + intros [[H1 H2] [k Hk]]. exists o. split; [done|]. split; [lia|]. split.
      * unfold on_the_hour in *. replace h with (first_due o (last_funding_hour_ms p) + k * HOUR_MS) by lia. by rewrite Z.mod_add.
      * intros l El. specialize (F3 l El). lia.
    + intros (o' & [= <-] & Hb & Hon & Hl). specialize (F4 h Hon ltac:(lia) Hl). split; [lia|].
      unfold on_the_hour in *. apply Z.mod_divide in Hon as [a ->]; [|done]. apply Z.mod_divide in F1 as [b ->]; [|done].
      exists (a - b). lia.
Qed.

Definition payment (q : f64) (r : FundingRate) : f64 := (q * oracle_px r * rate_1h r)%f64.
Definition set_funding (p : Position) (paid : f64) (last : option Z) (owed : list OwedHour) : Position :=
  mkPosition (instrument p) (underlying p) (venue p) (qty p) (avg_px p) (realized_pnl p) (fees_paid p) paid
    (opened_ms p) last owed.

Lemma accrue_due p r h o : rate_valid r = true → is_flat p = false → opened_ms p = Some o → o ≤ h → on_the_hour h →
  (∀ l, last_funding_hour_ms p = Some l → l < h) →
  accrue_funding p (rate_1h r) (oracle_px r) h =
    (set_funding p (funding_paid p + payment (qty p) r)%f64 (Some h) (funding_owed p), Ok (Some (payment (qty p) r))).
Proof.
  intros [Hr1 Hr2]%andb_true_iff Hf Ho Hoh Hon Hl. unfold accrue_funding. rewrite Hon, Hr1, Hr2, Ho, Hf. cbn [Z.eqb negb andb].
  destruct (Z.leb_spec o h); [|lia]. destruct (last_funding_hour_ms p) as [l|]; [|done]. specialize (Hl l eq_refl).
  by destruct (Z.leb_spec h l); [lia|].
Qed.

(** Settling the due hours with a rate: each is booked at the size held. *)
Lemma settle_due_rate r hs p s o : rate_valid r = true → is_flat p = false → opened_ms p = Some o →
  after (last_funding_hour_ms p) hs → (∀ h, h ∈ hs → o ≤ h) →
  settle_due (Some r) hs p s =
    (set_funding p (fold_left f64_add (map (λ _, payment (qty p) r) hs) (funding_paid p))
       (last_or (last_funding_hour_ms p) hs) (funding_owed p),
     Ok (mkSettlement (booked s ++ map (λ h, mkBooked h (qty p) r (payment (qty p) r) false) hs) (owed s))).
Proof.
  intros Hr. revert p s. induction hs as [|h hs IH]; intros p s Hf Ho Ha Hoh; cbn [settle_due map fold_left].
  - rewrite app_nil_r. unfold last_or. by destruct p, s.
  - destruct Ha as (Hon & Hl & Ha).
    rewrite (accrue_due p r h o) by (done || by apply Hoh; left). rewrite IH; [|done|done|exact Ha|intros x Hx; apply Hoh; by right].
    cbn [set_funding qty funding_paid last_funding_hour_ms funding_owed booked owed]. rewrite last_or_cons, <-app_assoc. done.
Qed.

(** Without one: each is recorded owed at the size held. *)
Lemma settle_due_none hs p s : after (last_funding_hour_ms p) hs →
  settle_due None hs p s =
    (set_funding p (funding_paid p) (last_or (last_funding_hour_ms p) hs)
       (funding_owed p ++ map (λ h, mkOwed h (qty p)) hs),
     Ok (mkSettlement (booked s) (owed s ++ map (λ h, mkOwed h (qty p)) hs))).
Proof.
  revert p s. induction hs as [|h hs IH]; intros p s Ha; cbn [settle_due map].
  - rewrite !app_nil_r. unfold last_or. by destruct p, s.
  - destruct Ha as (Hon & _ & Ha). rewrite Hon. cbn [Z.eqb negb]. rewrite IH by exact Ha.
    cbn [set_funding qty funding_paid last_funding_hour_ms funding_owed booked owed]. rewrite last_or_cons, <-!app_assoc. done.
Qed.

Lemma book_owed_spec r os p b :
  fold_left (book_owed r) os (p, b) =
    (set_funding p (fold_left f64_add (map (λ o, payment (ow_qty o) r) os) (funding_paid p)) (last_funding_hour_ms p) (funding_owed p),
     b ++ map (λ o, mkBooked (ow_hour_ms o) (ow_qty o) r (payment (ow_qty o) r) true) os).
Proof.
  revert p b. induction os as [|o os IH]; intros p b; cbn [fold_left map]; [rewrite app_nil_r; by destruct p|].
  cbn [book_owed]. rewrite IH. cbn. by rewrite <-app_assoc.
Qed.

Lemma due_hours_ext p p' now : qty p = qty p' → opened_ms p = opened_ms p' → last_funding_hour_ms p = last_funding_hour_ms p' →
  due_funding_hours p now = due_funding_hours p' now.
Proof. intros E1 E2 E3. unfold due_funding_hours, is_flat. by rewrite E1, E2, E3. Qed.

Lemma due_nil_or_open p now : position_ok p → due_funding_hours p now = [] ∨
  ∃ o, is_flat p = false ∧ opened_ms p = Some o ∧ ∀ h, h ∈ due_funding_hours p now → o ≤ h.
Proof.
  intros Hp. destruct (is_flat p) eqn:Ef; [left; unfold due_funding_hours; by rewrite Ef|].
  destruct (opened_ms p) as [o|] eqn:Eo; [|by rewrite (proj2 (ok_opened p Hp) Eo) in Ef].
  right. exists o. split; [done|]. split; [done|]. intros h Hh. apply (due_hours_spec p now Hp) in Hh as (o' & E & ? & _).
  rewrite Eo in E. injection E as <-. lia.
Qed.

(** A settlement with a rate. *)
Lemma settle_with_rate p r now : position_ok p → rate_valid r = true →
  let due := due_funding_hours p now in
  settle_funding p (Some r) now =
    (set_funding p (fold_left f64_add (map (λ o, payment (ow_qty o) r) (funding_owed p) ++ map (λ _, payment (qty p) r) due) (funding_paid p))
       (last_or (last_funding_hour_ms p) due) [],
     Ok (mkSettlement (map (λ o, mkBooked (ow_hour_ms o) (ow_qty o) r (payment (ow_qty o) r) true) (funding_owed p)
                       ++ map (λ h, mkBooked h (qty p) r (payment (qty p) r) false) due) [])).
Proof.
  intros Hp Hr due. unfold settle_funding, settle. rewrite Hr. cbn [negb]. rewrite book_owed_spec. cbn [app].
  set (p1 := set_funding _ _ _ _). rewrite (due_hours_ext p1 p) by done. fold due. rewrite fold_left_app.
  destruct (due_hours_spec p now Hp) as [Ha _]. destruct (due_nil_or_open p now Hp) as [E|(o & Hf & Ho & Hle)].
  - fold due in E. rewrite E. cbn [settle_due map]. rewrite app_nil_r. done.
  - rewrite (settle_due_rate r due p1 _ o) by done. done.
Qed.

(** And without. *)
Lemma settle_without_rate p now : position_ok p →
  let due := due_funding_hours p now in
  settle_funding p None now =
    (set_funding p (funding_paid p) (last_or (last_funding_hour_ms p) due) (funding_owed p ++ map (λ h, mkOwed h (qty p)) due),
     Ok (mkSettlement [] (map (λ h, mkOwed h (qty p)) due))).
Proof.
  intros Hp due. unfold settle_funding, settle. rewrite settle_due_none by apply (due_hours_spec p now Hp). done.
Qed.

Lemma after_weaken d d' hs : after d hs → (∀ l', d' = Some l' → ∃ l, d = Some l ∧ l' ≤ l) → after d' hs.
Proof.
  destruct hs as [|h hs]; [done|]. intros (H1 & H2 & H3) Hw. split; [done|]. split; [|done].
  intros l' Hl'. destruct (Hw l' Hl') as (l & Hl & ?). specialize (H2 l Hl). lia.
Qed.

Lemma after_unique d hs hs' : after d hs → after d hs' → (∀ h, h ∈ hs ↔ h ∈ hs') → hs = hs'.
Proof.
  revert d hs'. induction hs as [|x hs IH]; intros d [|y hs'] Ha Ha' Hin; [done|exfalso..|].
  - apply (not_elem_of_nil (A := Z) y), Hin. by left.
  - apply (not_elem_of_nil (A := Z) x), Hin. by left.
  - destruct Ha as (_ & _ & Ha), Ha' as (_ & _ & Ha').
    assert (x ≤ y) as Hxy.
    { pose proof (proj2 (Hin y) ltac:(by left)) as [->|Hy]%elem_of_cons; [done|]. pose proof (after_bound _ _ _ Ha Hy x eq_refl). lia. }
    assert (y ≤ x) as Hyx.
    { pose proof (proj1 (Hin x) ltac:(by left)) as [->|Hx]%elem_of_cons; [done|]. pose proof (after_bound _ _ _ Ha' Hx y eq_refl). lia. }
    assert (x = y) as <- by lia. f_equal. apply (IH (Some x)); [done..|]. intros h. split; intros Hh.
    + pose proof (proj1 (Hin h) ltac:(by right)) as [->|?]%elem_of_cons; [|done].
      pose proof (after_bound _ _ _ Ha Hh x eq_refl). lia.
    + pose proof (proj2 (Hin h) ltac:(by right)) as [->|?]%elem_of_cons; [|done].
      pose proof (after_bound _ _ _ Ha' Hh x eq_refl). lia.
Qed.

Lemma set_funding_ok p paid l os : position_ok p → after None (map ow_hour_ms os) →
  (∀ h, h ∈ map ow_hour_ms os → ∃ x, l = Some x ∧ h ≤ x) → (∀ x, l = Some x → on_the_hour x) →
  position_ok (set_funding p paid l os).
Proof. intros [H1 H2 H3 H4 H5 H6] Ha Hb Hc. by constructor. Qed.

Lemma last_or_hour d hs x : after d hs → (∀ l, d = Some l → on_the_hour l) → last_or d hs = Some x → on_the_hour x.
Proof.
  revert d. induction hs as [|h hs IH]; intros d; [intros _ H; apply H|]. intros (H1 & _ & H3) _. rewrite last_or_cons.
  apply (IH (Some h)); [done|]. by intros l [= <-].
Qed.
Lemma last_or_ge d hs l : after d hs → d = Some l → ∃ x, last_or d hs = Some x ∧ l ≤ x.
Proof.
  intros Ha ->. destruct hs as [|h hs]; [by exists l|]. destruct Ha as (_ & H2 & H3). rewrite last_or_cons.
  destruct (last_or (Some h) hs) as [x|] eqn:E.
  - exists x. split; [done|]. specialize (H2 l eq_refl). unfold last_or in E. destruct (last hs) as [y|] eqn:Ey.
    + injection E as ->. rewrite last_lookup in Ey. apply list_elem_of_lookup_2 in Ey.
      pose proof (after_bound _ _ _ H3 Ey h eq_refl). lia.
    + injection E as <-. lia.
  - unfold last_or in E. by destruct (last hs).
Qed.

Definition owed_hours (p : Position) : list Z := map ow_hour_ms (funding_owed p).

(** The hours owed, then those due, are in order and none is past the last. *)
Lemma owed_then_due p now : position_ok p →
  after None (owed_hours p ++ due_funding_hours p now) ∧
  ∀ h, h ∈ owed_hours p ++ due_funding_hours p now → ∃ l, last_or (last_funding_hour_ms p) (due_funding_hours p now) = Some l ∧ h ≤ l.
Proof.
  intros Hp. destruct (due_hours_spec p now Hp) as [Ha _]. split.
  - apply after_app. split; [apply Hp|]. apply (after_weaken (last_funding_hour_ms p)); [done|].
    intros l' Hl'. unfold last_or in Hl'. destruct (last (owed_hours p)) as [x|] eqn:E; [|done]. injection Hl' as ->.
    rewrite last_lookup in E. apply list_elem_of_lookup_2 in E. by apply (ok_last p Hp).
  - intros h [Hh|Hh]%elem_of_app; [|by apply after_le_last].
    destruct (ok_last p Hp h Hh) as (l & Hl & ?). destruct (last_or_ge _ _ l Ha Hl) as (x & Hx & ?). exists x. split; [done|lia].
Qed.

Definition rate_ok (rate : option FundingRate) : Prop := ∀ r, rate = Some r → rate_valid r = true.

(** A settlement keeps a position well-formed and fails on a bad rate only. *)
Lemma settle_funding_ok p rate now : position_ok p →
  let '(p', res) := settle_funding p rate now in
  position_ok p' ∧ instrument p' = instrument p ∧
  match res with
  | Ok s => rate_ok rate
  | Err _ => p' = p ∧ ¬ rate_ok rate
  end.
Proof.
  intros Hp. destruct (owed_then_due p now Hp) as [Ho Hb]. destruct (due_hours_spec p now Hp) as [Ha _].
  assert (∀ x, last_or (last_funding_hour_ms p) (due_funding_hours p now) = Some x → on_the_hour x) as Hon
    by (intros x; apply last_or_hour; [done|apply Hp]).
  destruct rate as [r|].
  - destruct (rate_valid r) eqn:Er.
    + rewrite settle_with_rate by done. split; [|split; [done|by intros ? [= <-]]].
      apply set_funding_ok; [done|done|by intros ? ?%elem_of_nil|done].
    + unfold settle_funding, settle. rewrite Er. cbn [negb]. split; [done|]. split; [done|]. split; [done|].
      intros H. specialize (H r eq_refl). congruence.
  - rewrite settle_without_rate by done. split; [|done].
    assert (map ow_hour_ms (funding_owed p ++ map (λ h, mkOwed h (qty p)) (due_funding_hours p now))
      = owed_hours p ++ due_funding_hours p now) as E by (rewrite map_app, map_map, map_id; done).
    apply set_funding_ok; rewrite ?E; done.
Qed.

(** ** Accounts *)

Inductive Event : Type :=
  | EFill (f : Fill)
  | ESettle (instrument : string) (rate : option FundingRate) (now_ms : Z).

Definition account_step (a : PaperAccount) (e : Event) : PaperAccount :=
  match e with
  | EFill f => match account_apply_fill a f with Ok (a', _) => a' | Err _ => a end
  | ESettle i rate now => fst (account_settle_funding a i rate now)
  end.
Definition account_run (a : PaperAccount) (es : list Event) : PaperAccount := fold_left account_step es a.

(** The quantity of a fill is a double. *)
Definition event_ok (e : Event) : Prop := match e with EFill f => valid (fl_qty f) = true | ESettle _ _ _ => True end.

Definition account_ok (a : PaperAccount) : Prop :=
  ∀ k p, positions a !! k = Some p → instrument p = k ∧ position_ok p.

Lemma account_step_ok a e : account_ok a → event_ok e → account_ok (account_step a e).
Proof.
  intros Ha He. destruct e as [f|i rate now]; cbn [account_step event_ok] in *.
  - unfold account_apply_fill. set (p0 := default _ _).
    assert (instrument p0 = fl_instrument f ∧ position_ok p0) as [Hi Hp0].
    { unfold p0. destruct (positions a !! fl_instrument f) as [p|] eqn:E; [by apply Ha|split; [done|apply flat_ok]]. }
    destruct (apply_fill p0 f) as [[p' ef]|err] eqn:Ef; [|done]. intros k p. cbn [positions].
    destruct (apply_fill_ok p0 f p' ef Hp0 He Ef) as (Hp' & Hi' & _).
    destruct (decide (k = fl_instrument f)) as [->|Hne]; [rewrite lookup_insert_eq; intros [= <-]; split; [congruence|done]|].
    rewrite lookup_insert_ne by done. apply Ha.
  - unfold account_settle_funding. destruct (positions a !! i) as [p|] eqn:E; [|done]. destruct (Ha _ _ E) as [Hi Hp].
    pose proof (settle_funding_ok p rate now Hp) as H. destruct (settle_funding p rate now) as [p' res]. destruct H as (Hp' & Hi' & _).
    assert (account_ok (mkAccount (pa_account a) (pa_initial_cash_usd a) (cash_usd a) (<[i := p']> (positions a)))) as Hok.
    { intros k q. cbn [positions]. destruct (decide (k = i)) as [->|Hne]; [rewrite lookup_insert_eq; intros [= <-]; split; [congruence|done]|].
      rewrite lookup_insert_ne by done. apply Ha. }
    destruct res as [s|err]; [|exact Hok]. intros k q. apply Hok.
Qed.

(** C18. Positions stay well-formed. Whatever fills and settlements an account
    takes, each of its positions is filed under its instrument, is flat exactly
    when it has no average price and exactly when it has no opening time (a fill
    never leaves a size of zero with a price, nor an open size without one), and
    owes funding for hours in order, on the hour, up to the last one settled. A
    fill or a settlement that fails changes nothing. *)
Theorem positions_stay_well_formed name cash a es :
  account_new name cash = Ok a → Forall event_ok es →
  let a' := account_run a es in
  account_ok a' ∧
  (∀ f e, account_apply_fill a' f = Err e → account_step a' (EFill f) = a') ∧
  (∀ i rate now, let (a'', res) := account_settle_funding a' i rate now in
     ∀ e, res = Err e → a'' = a' ∧ ¬ rate_ok rate).
Proof.
  intros Hnew Hes a'. assert (account_ok a') as Hok.
  { unfold account_new in Hnew. destruct (_ || _); [done|]. injection Hnew as <-. unfold a', account_run.
    assert (account_ok (mkAccount name cash cash ∅)) as H0 by (intros k p; cbn; by rewrite lookup_empty).
    revert H0. generalize (mkAccount name cash cash ∅). induction Hes as [|e es He Hes IH]; intros b Hb; cbn [fold_left]; [done|].
    by apply IH, account_step_ok. }
  split; [done|]. split; [intros f e E; cbn; by rewrite E|]. intros i rate now. unfold account_settle_funding.
  destruct (positions a' !! i) as [p|] eqn:E; [|done]. destruct (Hok _ _ E) as [Hi Hp].
  pose proof (settle_funding_ok p rate now Hp) as H. destruct (settle_funding p rate now) as [p' [s|err]]; [done|].
  destruct H as (_ & _ & -> & Hr). intros e _. split; [|done]. rewrite insert_id by done. by destruct a'.
Qed.

Lemma positions_stay_well_formed_witness :
  let es := [EFill (sample_fill Buy (of_decimal 1 (-1)) (of_Z 100)); EFill (sample_fill Buy (of_decimal 2 (-1)) (of_Z 100));
             ESettle "hyperliquid:xyz:TSLA" None (T0 + HOUR_MS); EFill (sample_fill Sell (of_decimal 3 (-1)) (of_Z 100))] in
  account_new "paper-test" (of_Z 10000) = Ok sample_account ∧ Forall event_ok es ∧ account_ok (account_run sample_account es)
  ∧ (λ p, (is_flat p, length (funding_owed p))) <$> (positions (account_run sample_account es) !! "hyperliquid:xyz:TSLA"%string) = Some (true, 2%nat).
Proof.
  intros es. assert (account_new "paper-test" (of_Z 10000) = Ok sample_account) as H1 by (vm_compute; reflexivity).
  assert (Forall event_ok es) as H2 by (repeat constructor; vm_compute; reflexivity).
  split; [exact H1|]. split; [exact H2|].
  split; [exact (proj1 (positions_stay_well_formed "paper-test" (of_Z 10000) sample_account es H1 H2))|vm_compute; reflexivity].
Defined.

(** ** Every hour once *)

(** One position under fills and settlements, with the hours booked so far. *)
Definition position_step (st : Position * list Z) (e : Event) : Position * list Z :=
  let (p, log) := st in
  match e with
  | EFill f => match apply_fill p f with Ok (p', _) => (p', log) | Err _ => (p, log) end
  | ESettle _ rate now =>
      match settle_funding p rate now with
      | (p', Ok s) => (p', log ++ map bk_hour_ms (booked s))
      | (p', Err _) => (p', log)
      end
  end.

Lemma apply_fill_funding p f p' e : apply_fill p f = Ok (p', e) →
  funding_owed p' = funding_owed p ∧ last_funding_hour_ms p' = last_funding_hour_ms p.
Proof.
  unfold apply_fill. destruct (fill_problem p f); [done|]. destruct (_ || _); [by intros [= <- _]|].
  destruct (avg_px p); [|done]. destruct (closing _ _) as [c r]. destruct (_ >? _)%f64; [by intros [= <- _]|].
  destruct (_ =? _)%f64; by intros [= <- _].
Qed.

(** The hours booked and those owed, in order, none past the last settled. *)
Definition hours_in_order (st : Position * list Z) : Prop :=
  let hs := snd st ++ owed_hours (fst st) in
  position_ok (fst st) ∧ after None hs ∧ ∀ h, h ∈ hs → ∃ l, last_funding_hour_ms (fst st) = Some l ∧ h ≤ l.

Lemma hours_due_next d hs p now : position_ok p → after None hs →
  (∀ h, h ∈ hs → ∃ l, last_funding_hour_ms p = Some l ∧ h ≤ l) → d = due_funding_hours p now →
  after None (hs ++ d) ∧ ∀ h, h ∈ hs ++ d → ∃ l, last_or (last_funding_hour_ms p) d = Some l ∧ h ≤ l.
Proof.
  intros Hp Hs Hb ->. destruct (due_hours_spec p now Hp) as [Ha _]. split.
  - apply after_app. split; [done|]. apply (after_weaken (last_funding_hour_ms p)); [done|].
    intros l' Hl'. unfold last_or in Hl'. destruct (last hs) as [x|] eqn:E; [|done]. injection Hl' as ->.
    rewrite last_lookup in E. apply list_elem_of_lookup_2 in E. by apply Hb.
  - intros h [Hh|Hh]%elem_of_app; [|by apply after_le_last].
    destruct (Hb h Hh) as (l & Hl & ?). destruct (last_or_ge _ _ l Ha Hl) as (x & Hx & ?). exists x. split; [done|lia].
Qed.

Lemma position_step_ok st e : hours_in_order st → event_ok e → hours_in_order (position_step st e).
Proof.
  destruct st as [p log]. intros (Hp & Ha & Hb) He. cbn [fst snd] in *. destruct e as [f|i rate now]; cbn [position_step].
  - destruct (apply_fill p f) as [[p' ef]|] eqn:Ef; [|done]. destruct (apply_fill_funding p f p' ef Ef) as [E1 E2].
    destruct (apply_fill_ok p f p' ef Hp He Ef) as (Hp' & _). unfold hours_in_order, owed_hours. cbn [fst snd]. by rewrite E1, E2.
  - pose proof (settle_funding_ok p rate now Hp) as Hok. destruct (settle_funding p rate now) as [p' [s|err]] eqn:Es.
    2: { destruct Hok as (_ & _ & -> & _). done. }
    destruct Hok as (Hp' & _ & Hr). split; [done|]. cbn [fst snd].
    destruct (hours_due_next _ _ p now Hp Ha Hb eq_refl) as [N1 N2].
    destruct rate as [r|].
    + rewrite settle_with_rate in Es by (done || by apply Hr). injection Es as <- <-.
      cbn [owed_hours set_funding funding_owed last_funding_hour_ms booked map]. rewrite app_nil_r, map_app, !map_map.
      change (map (λ x, bk_hour_ms (mkBooked (ow_hour_ms x) (ow_qty x) r (payment (ow_qty x) r) true)) (funding_owed p)) with (owed_hours p).
      cbn [bk_hour_ms]. rewrite map_id, app_assoc. done.
    + rewrite settle_without_rate in Es by done. injection Es as <- <-.
      cbn [owed_hours set_funding funding_owed last_funding_hour_ms booked map]. unfold owed_hours. cbn [funding_owed set_funding].
      rewrite app_nil_r, map_app, map_map. cbn [ow_hour_ms]. rewrite map_id. fold (owed_hours p). rewrite app_assoc. done.
Qed.

(** C19. Funding is settled once per hour. Over any fills and settlements of a
    position, with a rate or without, the hours booked and then those owed are
    hour boundaries in strictly increasing order: none is charged twice. *)
Theorem each_hour_is_settled_once i u v es :
  Forall event_ok es →
  let '(p, log) := fold_left position_step es (flat i u v, []) in
  after None (log ++ map ow_hour_ms (funding_owed p)).
Proof.
  intros Hes. assert (hours_in_order (fold_left position_step es (flat i u v, []))) as H.
  { assert (hours_in_order (flat i u v, [])) as H0 by (split; [apply flat_ok|]; split; [done|by intros h ?%elem_of_nil]).
    revert H0. generalize (flat i u v, @nil Z). induction Hes as [|e es He Hes IH]; intros st Hst; cbn [fold_left]; [done|].
    by apply IH, position_step_ok. }
  destruct (fold_left _ _ _) as [p log]. apply H.
Qed.

Definition sample_rate : FundingRate := mkRate (of_decimal 1 (-4)) (of_Z 97).
Definition sample_events : list Event :=
  [EFill (sample_fill Buy (of_Z 2) (of_Z 100)); ESettle "hyperliquid:xyz:TSLA" None (T0 + 2 * HOUR_MS);
   EFill (sample_fill Sell (of_Z 3) (of_Z 110)); ESettle "hyperliquid:xyz:TSLA" (Some sample_rate) (T0 + 4 * HOUR_MS)].
Lemma each_hour_is_settled_once_witness :
  Forall event_ok sample_events ∧
  let '(p, log) := fold_left position_step sample_events (flat "hyperliquid:xyz:TSLA" "company:tesla" "hyperliquid", []) in
  after None (log ++ map ow_hour_ms (funding_owed p)) ∧ log = map (λ i, T0 + i * HOUR_MS) [0; 1; 2; 3; 4] ∧ funding_owed p = [].
Proof.
  assert (Forall event_ok sample_events) as H by (repeat constructor; vm_compute; reflexivity). split; [exact H|].
  pose proof (each_hour_is_settled_once "hyperliquid:xyz:TSLA" "company:tesla" "hyperliquid" sample_events H) as Ho.
  destruct (fold_left _ _ _) as [p log] eqn:E. split; [exact Ho|].
  vm_compute in E. injection E as <- <-. split; vm_compute; reflexivity.
Defined.

(** The due hours of a position settled up to [t1] are the rest. *)
Lemma due_split p t1 t2 paid os : position_ok p → t1 ≤ t2 →
  let p1 := set_funding p paid (last_or (last_funding_hour_ms p) (due_funding_hours p t1)) os in
  position_ok p1 → due_funding_hours p t2 = due_funding_hours p t1 ++ due_funding_hours p1 t2.
Proof.
  intros Hp Ht p1 Hp1. destruct (due_hours_spec p t1 Hp) as [A1 D1]. destruct (due_hours_spec p t2 Hp) as [A2 D2].
  destruct (due_hours_spec p1 t2 Hp1) as [A3 D3]. cbn [p1 set_funding last_funding_hour_ms opened_ms] in A3, D3.
  apply (after_unique (last_funding_hour_ms p)); [done|by apply after_app|].
  intros h. rewrite elem_of_app, D2, D1, D3. split.
  - intros (o & Ho & Hb & Hon & Hl). destruct (decide (h ≤ t1)) as [Hle|Hgt]; [left; exists o; split_and!; done || lia|right].
    exists o. split_and!; [done|lia|lia|done|]. intros l El. unfold last_or in El.
    destruct (last (due_funding_hours p t1)) as [x|] eqn:Ex; [|by apply Hl].
    injection El as ->. rewrite last_lookup in Ex. apply list_elem_of_lookup_2, D1 in Ex as (? & _ & ? & _). lia.
  - intros [(o & Ho & Hb & Hon & Hl)|(o & Ho & Hb & Hon & Hl)]; exists o; (split_and!; [done|lia|lia|done|]); [done|].
    intros l El. destruct (last_or_ge _ (due_funding_hours p t1) l A1 El) as (x & Hx & ?). specialize (Hl x Hx). lia.
Qed.

(** A position settled up to now owes nothing more. *)
Lemma nothing_due_after p now paid os : position_ok p →
  let p1 := set_funding p paid (last_or (last_funding_hour_ms p) (due_funding_hours p now)) os in
  position_ok p1 → due_funding_hours p1 now = [].
Proof.
  intros Hp p1 Hp1. pose proof (due_split p now now paid os Hp ltac:(lia) Hp1) as E. fold p1 in E.
  rewrite <-(app_nil_r (due_funding_hours p now)) in E at 1. by apply app_inv_head in E.
Qed.

Definition booking (b : BookedHour) : Z * f64 * f64 := (bk_hour_ms b, bk_qty b, payment_usd b).

(** C20. Hours owed are booked as if the rate had been known. Recording hours owed
    at one time and settling with a rate later leaves the position as settling
    once with that rate does, to the last bit, and books the same hours for the
    same sizes and payments; what differs is the note that some were owed. A
    settlement fails only on a rate that is no rate, and nothing is due after
    it. *)
Theorem late_settlement_books_the_same p r t1 t2 :
  position_ok p → rate_valid r = true → t1 ≤ t2 →
  let '(p1, res1) := settle_funding p None t1 in
  let '(p2, res2) := settle_funding p1 (Some r) t2 in
  ∃ s1 s2 s, res1 = Ok s1 ∧ res2 = Ok s2 ∧ settle_funding p (Some r) t2 = (p2, Ok s)
    ∧ map booking (booked s2) = map booking (booked s)
    ∧ booked s1 = [] ∧ owed s2 = [] ∧ funding_owed p2 = [] ∧ due_funding_hours p2 t2 = []
    ∧ ∀ h, h ∈ map bk_hour_ms (booked s) ↔
        h ∈ map ow_hour_ms (funding_owed p) ∨
        ∃ o, opened_ms p = Some o ∧ o ≤ h ≤ t2 ∧ on_the_hour h ∧ ∀ l, last_funding_hour_ms p = Some l → l < h.
Proof.
  intros Hp Hr Ht. pose proof (settle_funding_ok p None t1 Hp) as Hp1. rewrite settle_without_rate in Hp1 by done.
  pose proof (settle_funding_ok p (Some r) t2 Hp) as Hp2. rewrite settle_with_rate in Hp2 by done.
  rewrite settle_without_rate by done. destruct Hp1 as [Hp1 _], Hp2 as [Hp2 _].
  pose proof (nothing_due_after p t2 _ _ Hp Hp2) as Hnil. pose proof (due_split p t1 t2 _ _ Hp Ht Hp1) as Hdue.
  destruct (due_hours_spec p t2 Hp) as [_ D2].
  set (p1 := set_funding p (funding_paid p) _ _) in *. rewrite (settle_with_rate p1), (settle_with_rate p) by done. cbv zeta.
  match type of Hnil with due_funding_hours ?q _ = [] => match goal with |- context [due_funding_hours ?q' t2 = []] =>
    assert (q' = q) as -> end end.
  { rewrite Hdue. unfold p1, set_funding. cbn. f_equal.
    - rewrite !map_app, map_map, <-!app_assoc. done.
    - unfold last_or. rewrite last_app. by destruct (last (due_funding_hours _ t2)). }
  eexists _, _, _. split; [done|]. split; [done|]. split; [done|]. cbn [booked owed]. split_and!; try done.
  - rewrite Hdue. unfold p1 at 1 2. cbn [set_funding funding_owed qty]. rewrite !map_app, !map_map, <-!app_assoc. done.
  - intros h. rewrite map_app, !map_map, elem_of_app. cbn [bk_hour_ms]. by rewrite map_id, D2.
Qed.

Lemma late_settlement_books_the_same_witness :
  let p := fst (fold_left position_step (take 1 sample_events) (flat "hyperliquid:xyz:TSLA" "company:tesla" "hyperliquid", [])) in
  position_ok p ∧ funding_owed (fst (settle_funding (fst (settle_funding p None (T0 + HOUR_MS))) (Some sample_rate) (T0 + 2 * HOUR_MS))) = [].
Proof.
  intros p. assert (position_ok p) as Hp.
  { eapply (apply_fill_ok (flat "hyperliquid:xyz:TSLA" "company:tesla" "hyperliquid") (sample_fill Buy (of_Z 2) (of_Z 100)));
      [apply flat_ok|vm_compute; reflexivity|vm_compute; reflexivity]. }
  split; [exact Hp|].
  pose proof (late_settlement_books_the_same p sample_rate (T0 + HOUR_MS) (T0 + 2 * HOUR_MS) Hp ltac:(vm_compute; reflexivity) ltac:(vm_compute; discriminate)) as H.
  destruct (settle_funding p None (T0 + HOUR_MS)) as [p1 r1]. cbn [fst]. destruct (settle_funding p1 _ _) as [p2 r2].
  destruct H as (_ & _ & _ & _ & _ & _ & _ & _ & _ & H & _). exact H.
Defined.

(** ** Valuation *)

(** A mark that counts: a positive finite price, stamped at most a second
    ahead, no older than the bound. *)
Definition mark_fresh (m : Mark) (now_ms max_age_ms : Z) : Prop :=
  is_pos (m_px m) = true ∧ ∃ age, stamp_age_ms now_ms (at_ms m) = Some age ∧ age ≤ max_age_ms.

Lemma fresh_mark_spec i f now max_age :
  match fresh_mark i f now max_age with
  | FOk v => ∃ m, f = FOk m ∧ mark_fresh m now max_age ∧ v = m_px m
  | FErr e => e_field e = mark_field i ∧ ∀ m, f = FOk m → ¬ mark_fresh m now max_age
  | FAbsent => False
  end.
Proof.
  unfold fresh_mark. destruct f as [m| |e]; [|split; [done|]; done..].
  destruct (is_pos (m_px m)) eqn:Ep; cbn [negb].
  2: { split; [done|]. intros ? [= <-] [H _]. congruence. }
  destruct (stamp_age_ms now (at_ms m)) as [age|] eqn:Ea.
  2: { split; [done|]. intros ? [= <-] (_ & a & H & _). congruence. }
  destruct (Z.ltb_spec max_age age).
  - split; [done|]. intros ? [= <-] (_ & a & H' & ?). rewrite Ea in H'. injection H' as <-. lia.
  - exists m. split; [done|]. split; [|done]. split; [done|]. by exists age.
Qed.

Definition marked (marks : gmap string (Field Mark)) (now_ms max_age_ms : Z) (p : Position) : Prop :=
  ∃ m, marks !! instrument p = Some (FOk m) ∧ mark_fresh m now_ms max_age_ms.

(** The row of an open position: a number exactly when its mark counts. *)
Lemma position_row_spec marks now max_age p : position_ok p → is_flat p = false →
  let row := position_row marks now max_age p in
  (marked marks now max_age p ∧ ∃ v, mark_px row = FOk v ∧ is_error (mark_px row) = false
     ∧ (∃ u, r_upnl_usd row = FOk u) ∧ ∃ x, notional_usd row = FOk x) ∨
  (¬ marked marks now max_age p ∧ ∃ e, e_field e = mark_field (instrument p) ∧ mark_px row = FErr e
     ∧ r_upnl_usd row = FErr e ∧ notional_usd row = FErr e).
Proof.
  intros Hp Hf row. unfold row, position_row. cbn [mark_px r_upnl_usd notional_usd].
  pose proof (fresh_mark_spec (instrument p) (default FAbsent (marks !! instrument p)) now max_age) as H.
  destruct (avg_px p) as [avg|] eqn:Ea; [|by rewrite (proj2 (ok_avg p Hp) Ea) in Hf].
  unfold mark. rewrite Hf, Ea. destruct (fresh_mark _ _ _ _) as [v| |e]; [left|done|right].
  - destruct H as (m & Hm & Hfr & ->). split.
    + exists m. split; [|done]. destruct (marks !! instrument p) as [f|]; cbn in Hm; congruence.
    + exists (m_px m). rewrite (proj1 Hfr). split; [done|]. split; [done|]. split; by eexists.
  - destruct H as (He & Hno). split; [|by exists e]. intros (m & Hm & Hfr). apply (Hno m); [|done]. by rewrite Hm.
Qed.

Lemma sum_loop_spec t l :
  match sum_loop t l with
  | FOk v => Forall (λ f, is_error f = false) l
  | FErr e => FErr e ∈ l
  | FAbsent => False
  end.
Proof.
  revert t. induction l as [|[v| |e] l IH]; intros t; cbn [sum_loop]; [done|specialize (IH (t + v)%f64)|specialize (IH t)|by left].
  - destruct (sum_loop _ l); [by apply Forall_cons|done|by right].
  - destruct (sum_loop _ l); [by apply Forall_cons|done|by right].
Qed.
Lemma exposure_loop_spec e l :
  match exposure_loop e l with
  | FOk _ => Forall (λ r, is_error (notional_usd r) = false) l
  | FErr err => ∃ r, r ∈ l ∧ notional_usd r = FErr err
  | FAbsent => False
  end.
Proof.
  revert e. induction l as [|r l IH]; intros e; cbn [exposure_loop]; [done|].
  destruct (notional_usd r) as [v| |err] eqn:En.
  - specialize (IH (mkExposure (gross_usd e + SFabs v) (net_usd e + v))%f64). destruct (exposure_loop _ l); [apply Forall_cons; split; [by rewrite En|done]|done|].
    destruct IH as (r' & ? & ?). exists r'. split; [by right|done].
  - specialize (IH e). destruct (exposure_loop _ l); [apply Forall_cons; split; [by rewrite En|done]|done|].
    destruct IH as (r' & ? & ?). exists r'. split; [by right|done].
  - exists r. split; [by left|done].
Qed.

Lemma open_positions_spec a p : p ∈ open_positions a ↔ is_flat p = false ∧ ∃ k, positions a !! k = Some p.
Proof.
  unfold open_positions, position_list. rewrite list_elem_of_In, filter_In, <-list_elem_of_In, list_elem_of_fmap, negb_true_iff.
  split.
  - intros [([k q] & -> & Hin) Hf]. split; [done|]. exists k. cbn. unfold btree_iter in Hin. by rewrite sort_by_perm, elem_of_map_to_list in Hin.
  - intros [Hf [k Hk]]. split; [|done]. exists (k, p). split; [done|]. unfold btree_iter. by rewrite sort_by_perm, elem_of_map_to_list.
Qed.

Section build.
Context (a : PaperAccount) (marks : gmap string (Field Mark)) (now max_age : Z) (day : option f64) (halted : option bool).
#[local] Abbreviation pp := (build a marks now max_age day halted).

Lemma build_equity :
equity_usd pp = match upnl_usd pp with FOk v => FOk (cash_usd a + v)%f64 | FAbsent => FAbsent | FErr e => FErr e end.
Proof. unfold build. cbn [equity_usd upnl_usd]. by destruct (sum_fields _). Qed.

Lemma build_daily v d : equity_usd pp = FOk v → day = Some d → is_finite d = true → daily_pnl_usd pp = FOk (v - d)%f64.
Proof. unfold build. cbn [equity_usd daily_pnl_usd]. by intros -> -> ->. Qed.
Lemma build_daily_err e v : equity_usd pp = FErr e → daily_pnl_usd pp ≠ FOk v.
Proof. unfold build. cbn [equity_usd daily_pnl_usd]. intros ->. destruct day as [d|]; [|done]. by destruct (is_finite d). Qed.
Lemma build_leverage_err e : exposure pp = FErr e → leverage pp = FErr e.
Proof. unfold build. cbn [exposure leverage]. by intros ->. Qed.
End build.

(** A failed read that names the mark of an open position without a fresh one. *)
Definition blames_mark (a : PaperAccount) (marks : gmap string (Field Mark)) (now_ms max_age_ms : Z) (e : ReadError) : Prop :=
  ∃ p, p ∈ open_positions a ∧ ¬ marked marks now_ms max_age_ms p ∧ e_field e = mark_field (instrument p).
Definition all_marked (a : PaperAccount) (marks : gmap string (Field Mark)) (now_ms max_age_ms : Z) : Prop :=
  ∀ p, p ∈ open_positions a → marked marks now_ms max_age_ms p.

Section valuation.
Context (a : PaperAccount) (Ha : account_ok a) (marks : gmap string (Field Mark)) (now max_age : Z).
#[local] Abbreviation rs := (map (position_row marks now max_age) (open_positions a)).

Lemma open_ok p : p ∈ open_positions a → position_ok p ∧ is_flat p = false.
Proof. intros (Hf & k & Hk)%open_positions_spec. split; [by apply (Ha k)|done]. Qed.

Lemma rows_marked r : all_marked a marks now max_age → r ∈ rs →
is_error (mark_px r) = false ∧ is_error (r_upnl_usd r) = false ∧ is_error (notional_usd r) = false.
Proof.
intros Hall (p & -> & Hp)%list_elem_of_fmap. destruct (open_ok p Hp) as [Hok Hf].
destruct (position_row_spec marks now max_age p Hok Hf) as [(_ & v & -> & _ & (u & ->) & x & ->)|[Hn _]]; [done|by destruct (Hn (Hall p Hp))].
Qed.

Lemma rows_unmarked : ¬ all_marked a marks now max_age → ∃ r e, r ∈ rs ∧ mark_px r = FErr e ∧ r_upnl_usd r = FErr e ∧ notional_usd r = FErr e.
Proof.
intros Hnot. destruct (decide (Exists (λ r, is_error (mark_px r) = true) rs)) as [(r & Hin & E)%Exists_exists|He].
- pose proof Hin as (p & -> & Hp)%list_elem_of_fmap. destruct (open_ok p Hp) as [Hok Hf].
  destruct (position_row_spec marks now max_age p Hok Hf) as [(_ & v & _ & E' & _)|(_ & e & _ & E1 & E2 & E3)]; [congruence|].
  by exists (position_row marks now max_age p), e.
- destruct Hnot. intros p Hp. destruct (open_ok p Hp) as [Hok Hf].
  destruct (position_row_spec marks now max_age p Hok Hf) as [[Hm _]|(_ & e & _ & E & _)]; [done|]. destruct He. apply Exists_exists.
  exists (position_row marks now max_age p). split; [apply list_elem_of_fmap; by exists p|by rewrite E].
Qed.

Lemma row_error_blames e r : r ∈ rs → r_upnl_usd r = FErr e ∨ notional_usd r = FErr e → blames_mark a marks now max_age e.
Proof.
intros (p & -> & Hp)%list_elem_of_fmap He. exists p. split; [done|]. destruct (open_ok p Hp) as [Hok Hf].
destruct (position_row_spec marks now max_age p Hok Hf) as [(_ & v & _ & _ & (u & Eu) & x & Ex)|(Hn & e' & He' & _ & Eu & Ex)];
  [rewrite Eu, Ex in He; by destruct He|].
split; [done|]. rewrite Eu, Ex in He. destruct He as [[= <-]|[= <-]]; done.
Qed.

Lemma upnl_spec : match sum_fields (map r_upnl_usd rs) with
| FOk _ => all_marked a marks now max_age | FErr e => blames_mark a marks now max_age e | FAbsent => False end.
Proof.
pose proof (sum_loop_spec zero (map r_upnl_usd rs)) as H. unfold sum_fields. destruct (sum_loop _ _) as [v| |e]; [|done|].
- destruct (decide (Exists (λ r, is_error (mark_px r) = true) rs)) as [(r & Hin & E)%Exists_exists|He].
  + pose proof Hin as (p & -> & Hp)%list_elem_of_fmap. destruct (open_ok p Hp) as [Hok Hf]. apply Forall_map in H. rewrite Forall_forall in H.
    pose proof (H _ Hin : is_error (r_upnl_usd (position_row marks now max_age p)) = false) as H'.
    destruct (position_row_spec marks now max_age p Hok Hf) as [(_ & w & _ & E' & _)|(_ & e & _ & _ & E2 & _)]; [congruence|by rewrite E2 in H'].
  + intros p Hp. destruct (open_ok p Hp) as [Hok Hf].
    destruct (position_row_spec marks now max_age p Hok Hf) as [[Hm _]|(_ & e & _ & E & _)]; [done|]. destruct He. apply Exists_exists.
    exists (position_row marks now max_age p). split; [apply list_elem_of_fmap; by exists p|by rewrite E].
- apply list_elem_of_fmap in H as (r & E & Hin). apply (row_error_blames e r Hin). by left.
Qed.

Lemma exposure_spec : match exposure_of rs with
| FOk _ => ∀ r, r ∈ rs → is_error (notional_usd r) = false | FErr e => blames_mark a marks now max_age e | FAbsent => False end.
Proof.
pose proof (exposure_loop_spec (mkExposure zero zero) rs) as H. unfold exposure_of. destruct (exposure_loop _ _) as [v| |e]; [|done|].
- by rewrite Forall_forall in H.
- destruct H as (r & Hin & E). apply (row_error_blames e r Hin). by right.
Qed.

Lemma stale_spec : length (List.filter (λ r, is_error (mark_px r)) rs) = O ↔ ∀ r, r ∈ rs → is_error (mark_px r) = false.
Proof.
rewrite length_zero_iff_nil. split.
- intros E r Hin. destruct (is_error (mark_px r)) eqn:Er; [|done].
  assert (r ∈ List.filter (λ r, is_error (mark_px r)) rs) as H by (apply list_elem_of_In, filter_In; split; [by apply list_elem_of_In|done]).
  rewrite E in H. by apply elem_of_nil in H.
- intros H. destruct (List.filter _ rs) as [|r l] eqn:E; [done|]. assert (r ∈ r :: l) as Hin by left.
  rewrite <-E, list_elem_of_In, filter_In, <-list_elem_of_In in Hin. destruct Hin as [Hin Hr]. rewrite (H r Hin) in Hr. done.
Qed.
End valuation.

(** C21. A mark that failed is never a number. The equity and the exposure of a
    valued account are numbers exactly when every open position has a fresh
    mark, and then the day's result is the equity less the day's start;
    otherwise both, and the leverage, name the mark of an open position that has
    none, the row is partial, and no day's result is shown. *)
Theorem equity_needs_every_mark a marks now max_age day halted :
  account_ok a →
  let pp := build a marks now max_age day halted in
  (all_marked a marks now max_age →
     (∃ v, equity_usd pp = FOk v ∧ ∀ d, day = Some d → is_finite d = true → daily_pnl_usd pp = FOk (v - d)%f64)
     ∧ (∃ x, exposure pp = FOk x) ∧ marks_stale pp = O) ∧
  (¬ all_marked a marks now max_age →
     (∃ e, equity_usd pp = FErr e ∧ blames_mark a marks now max_age e)
     ∧ (∃ e, exposure pp = FErr e ∧ leverage pp = FErr e ∧ blames_mark a marks now max_age e)
     ∧ (0 < marks_stale pp)%nat ∧ positions_status pp = ObsPartial ∧ ∀ v, daily_pnl_usd pp ≠ FOk v).
Proof.
  intros Ha pp. pose proof (build_equity a marks now max_age day halted) as Heq. fold pp in Heq.
  pose proof (upnl_spec a Ha marks now max_age) as Hu. pose proof (exposure_spec a Ha marks now max_age) as Hx.
  pose proof (stale_spec a marks now max_age) as Hst.
  change (sum_fields _) with (upnl_usd pp) in Hu. change (exposure_of _) with (exposure pp) in Hx.
  change (length _) with (marks_stale pp) in Hst. split.
  - intros Hall. pose proof (λ r, rows_marked a Ha marks now max_age r Hall) as Hr. split; [|split].
    + destruct (upnl_usd pp) as [v| |e]; [|done|by destruct Hu as (p & Hp & Hn & _); destruct (Hn (Hall p Hp))].
      exists (cash_usd a + v)%f64. split; [done|]. intros d Hd Hfd. by apply build_daily.
    + destruct (exposure pp) as [x| |e]; [by exists x|done|by destruct Hx as (p & Hp & Hn & _); destruct (Hn (Hall p Hp))].
    + apply Hst. intros r Hin. by apply Hr.
  - intros Hnot. destruct (rows_unmarked a Ha marks now max_age Hnot) as (r & e0 & Hin & E1 & E2 & E3).
    assert (∃ e, equity_usd pp = FErr e ∧ blames_mark a marks now max_age e) as (e & Ee & Hb).
    { destruct (upnl_usd pp) as [v| |e]; [done|done|by exists e]. }
    split; [by exists e|]. split.
    + destruct (exposure pp) as [x| |e1] eqn:Ex; [specialize (Hx r Hin); by rewrite E3 in Hx|done|]. exists e1.
      split; [done|]. split; [by apply build_leverage_err|done].
    + assert (0 < marks_stale pp)%nat as H0.
      { destruct (marks_stale pp); [|lia]. pose proof (proj1 Hst eq_refl r Hin) as H. by rewrite E1 in H. }
      split; [done|]. split; [unfold positions_status; by destruct (Nat.ltb_spec 0 (marks_stale pp)); [|lia]|].
      intros v. by apply (build_daily_err _ _ _ _ _ _ e).
Qed.

Lemma equity_needs_every_mark_witness :
  let a := account_run sample_account [EFill (sample_fill Buy (of_Z 2) (of_Z 100))] in
  account_ok a ∧ ∃ e, equity_usd (build a ∅ T0 5000 None None) = FErr e.
Proof.
  intros a. assert (account_ok a) as Ha.
  { apply (account_step_ok sample_account (EFill (sample_fill Buy (of_Z 2) (of_Z 100)))); [|vm_compute; reflexivity].
    intros k p. by rewrite (lookup_empty (M := gmap string) k : positions sample_account !! k = None). }
  split; [exact Ha|].
  destruct (equity_needs_every_mark a ∅ T0 5000 None None Ha) as [_ H].
  destruct H as [(e & E & _) _]; [|by exists e].
  intros Hall. destruct (open_positions a) as [|p l] eqn:E; [vm_compute in E; discriminate|].
  destruct (Hall p) as (m & Hm & _); [rewrite E; by left|]. by rewrite lookup_empty in Hm.
Defined.
