(* ===== verification/Market.v ===== *)
(** * Market rows ([src/src/domain/market.rs])

    Instrument ids, venue decimals, and the live context with the numbers
    derived from it, in [f64]. Headlines are left out. *)

From Stdlib Require Import Ascii String.
From S2P Require Import Prelude.
From S2P Require Import Text.
From S2P Require Import Bytes.
From S2P Require Import F64.
From S2P Require Import Observation.

#[local] Open Scope string_scope.
#[local] Open Scope list_scope.
#[local] Open Scope Z_scope.

(** ** Decimals *)

(** The ASCII digits a text starts with, and the rest. *)
Fixpoint take_digits (s : string) : string * string :=
  match s with
  | String a s' => if is_ascii_digit a then let (d, r) := take_digits s' in (String a d, r) else (EmptyString, s)
  | EmptyString => (EmptyString, EmptyString)
  end.
Definition take_sign (s : string) : bool * string :=
  match s with
  | String a s' => if Ascii.eqb a "-" then (true, s') else if Ascii.eqb a "+" then (false, s') else (false, s)
  | EmptyString => (false, EmptyString)
  end.

(** [s.parse::<f64>()] of [digits * 10^q]: the nearest double. *)
Definition decimal_of (negative : bool) (digits q : Z) : f64 :=
  let x := match digits with Z.pos n => of_decimal n q | _ => zero end in
  if negative then (- x)%f64 else x.

Definition parse_decimal (s : string) : option f64 :=
  let (negative, s) := take_sign s in
  let (int, s) := take_digits s in
  let (frac, s) :=
    match s with
    | String a s' => if Ascii.eqb a "." then take_digits s' else (EmptyString, s)
    | EmptyString => (EmptyString, s)
    end in
  if (str_len int + str_len frac =? 0)%nat then None
  else
    match
      (match s with
       | String a s' =>
           if Ascii.eqb a "e" || Ascii.eqb a "E" then
             let (eneg, s') := take_sign s' in
             let (e, s') := take_digits s' in
             if str_is_empty e then None else Some ((if eneg then - parse_dec 0 e else parse_dec 0 e), s')
           else Some (0, s)
       | EmptyString => Some (0, s)
       end)
    with
    | None => None
    | Some (e, rest) =>
        if negb (str_is_empty rest) then None
        else
          let x := decimal_of negative (parse_dec 0 (int +:+ frac)) (e - Z.of_nat (str_len frac)) in
          if is_finite x then Some x else None
    end.

Definition decimal_value (v : Value) : option f64 :=
  match v with
  | Str s => parse_decimal s
  | Int _ | Float _ => x ← as_f64 v; if is_finite x then Some x else None
  | _ => None
  end.

(** [v] is [obj.get(key)]; [number] prints a JSON number. *)
Definition decimal_field (number : Value → string) (v : option Value) (key field : string) : Field f64 :=
  match v with
  | None | Some Null => FAbsent
  | Some v =>
      match decimal_value v with
      | Some x => FOk x
      | None =>
          let what :=
            match v with
            | Str s => "the string " +:+ quote +:+ s +:+ quote
            | Int _ | Float _ => "the number " +:+ number v
            | Bool _ => "a bool"
            | Array _ => "an array"
            | Object _ => "an object"
            | Null => "null"
            end in
          FErr (read_error_new field Decode (key +:+ " is " +:+ what +:+ ", not a decimal"))
      end
  end.

(** ** Instrument ids *)

Definition VENUES : list string :=
  ["hyperliquid"; "robinhood"; "solana"; "binance-spot"; "binance-usdm"; "bybit-spot"; "bybit-linear"; "okx-spot";
   "okx-swap"; "coinbase"; "coinbase-intx"].
Definition HYPERLIQUID : string := "hyperliquid".

Record InstrumentId : Type := mkInstrumentId {
  i_venue : string;
  i_native : string;
}.
Definition show_id (i : InstrumentId) : string := i_venue i +:+ ":" +:+ i_native i.

Definition is_upper_or_digit (a : ascii) : bool := is_ascii_digit a || ((65 <=? code a) && (code a <=? 90)).
Definition check_venue (venue : string) : result string unit :=
  let bad := "unknown venue `" +:+ venue +:+ "` (known: " +:+ join ", " VENUES +:+ ", ref:<MIC>)" in
  if existsb (String.eqb venue) VENUES then Ok tt
  else
    match strip_prefix "ref:" venue with
    | Some mic => if (str_len mic =? 4)%nat && str_forall is_upper_or_digit mic then Ok tt else Err bad
    | None => Err bad
    end.

Definition id_new (venue native : string) : result string InstrumentId :=
  let bad p := Err ("instrument id `" +:+ venue +:+ ":" +:+ native +:+ "`: " +:+ p) in
  match check_venue venue with
  | Err p => bad p
  | Ok _ =>
      if str_is_empty native || any_space_or_control native then
        bad "the native id must be non-empty without whitespace"
      else Ok (mkInstrumentId venue native)
  end.
Definition id_parse (s : string) : result string InstrumentId :=
  let bad := Err ("instrument id `" +:+ s +:+ "` is not `<venue>:<native id>`") in
  match strip_prefix "ref:" s with
  | Some rest =>
      match split_once ":" rest with
      | Some (mic, native) => id_new ("ref:" +:+ mic) native
      | None => bad
      end
  | None =>
      match split_once ":" s with
      | Some (venue, native) => id_new venue native
      | None => bad
      end
  end.

(** ** Attributes *)

Inductive Listing : Type := Listed | Delisted | NotFound.
#[export] Instance Listing_eq_dec : EqDecision Listing.
Proof. solve_decision. Defined.

Inductive Category : Type := Stocks | Etf | Indices | Commodities | Fx | Rates | Preipo | Crypto.
Definition category_parse (label : string) : option Category :=
  let s := of_bytes (map to_ascii_lowercase (bytes (trim label))) in
  let one_of l := existsb (String.eqb s) l in
  if one_of ["stocks"; "stock"; "equity"; "equities"] then Some Stocks
  else if one_of ["etf"; "etfs"] then Some Etf
  else if one_of ["indices"; "index"] then Some Indices
  else if one_of ["commodities"; "commodity"] then Some Commodities
  else if one_of ["fx"; "forex"] then Some Fx
  else if one_of ["rates"; "rate"] then Some Rates
  else if one_of ["preipo"; "pre-ipo"; "pre_ipo"] then Some Preipo
  else if one_of ["crypto"] then Some Crypto
  else None.
Definition category_str (c : Category) : string :=
  match c with
  | Stocks => "stocks" | Etf => "etf" | Indices => "indices" | Commodities => "commodities" | Fx => "fx"
  | Rates => "rates" | Preipo => "preipo" | Crypto => "crypto"
  end.

(** ** The live context *)

Record MarketCtx : Type := mkMarketCtx {
  c_id : InstrumentId;
  as_of_ms : Z;
  listing : Listing;
  c_mark : Field f64;
  oracle : Field f64;
  c_index : Field f64;
  c_mid : Field f64;
  bid : Field f64;
  ask : Field f64;
  c_last : Field f64;
  impact_bid : Field f64;
  impact_ask : Field f64;
  prev_day : Field f64;
  premium : Field f64;
  funding_1h : Field f64;
  funding_interval_h : option f64;
  next_funding_ms : option Z;
  oi_base : Field f64;
  vol_24h_usd : Field f64;
  oi_cap_usd : option f64;
  at_oi_cap : option bool;
  max_leverage : option Z;
  only_isolated : option bool;
  category : option Category;
  growth_mode : option bool;
  taker_fee_bps : option f64;
  session : option string;
  no_book : bool;
}.

Definition ctx_new (id : InstrumentId) (as_of_ms : Z) : MarketCtx :=
  mkMarketCtx id as_of_ms Listed FAbsent FAbsent FAbsent FAbsent FAbsent FAbsent FAbsent FAbsent FAbsent FAbsent FAbsent
    FAbsent None None FAbsent FAbsent None None None None None None None None false.

Definition val (f : Field f64) : option f64 := x ← value f; if is_finite x then Some x else None.
Definition pos (f : Field f64) : option f64 := x ← val f; if (x >? zero)%f64 then Some x else None.

Definition prices (c : MarketCtx) : list (Field f64) := [c_mark c; oracle c; c_index c; c_mid c; bid c; ask c; c_last c].
Definition ctx_fields (c : MarketCtx) : list (Field f64) :=
  prices c ++ [impact_bid c; impact_ask c; prev_day c; premium c; funding_1h c; oi_base c; vol_24h_usd c].

Definition reference (c : MarketCtx) : option f64 :=
  match pos (oracle c) with Some x => Some x | None => pos (c_index c) end.
Definition basis_bps (c : MarketCtx) : option f64 :=
  m ← pos (c_mark c); r ← reference c; Some ((m - r) / r * of_Z 10000)%f64.
Definition quote_spread_bps (bid ask : f64) : option f64 :=
  let mid := ((bid + ask) / of_Z 2)%f64 in
  if (mid >? zero)%f64 then Some ((ask - bid) / mid * of_Z 10000)%f64 else None.
Definition ctx_spread_bps (c : MarketCtx) : option f64 := b ← pos (bid c); a ← pos (ask c); quote_spread_bps b a.
Definition impact_spread_bps (c : MarketCtx) : option f64 :=
  b ← pos (impact_bid c); a ← pos (impact_ask c); quote_spread_bps b a.
Definition premium_bps (c : MarketCtx) : option f64 := p ← val (premium c); Some (p * of_Z 10000)%f64.
Definition funding_apr_pct (c : MarketCtx) : option f64 := r ← val (funding_1h c); Some (r * of_Z 8760 * of_Z 100)%f64.
Definition next_funding_s (c : MarketCtx) : option f64 :=
  t ← next_funding_ms c; Some (of_Z (Z.max (sat_i64 (t - as_of_ms c)) 0) / of_Z 1000)%f64.
Definition oi_usd (c : MarketCtx) : option f64 :=
  oi ← val (oi_base c);
  if (oi >=? zero)%f64 then m ← pos (c_mark c); Some (oi * m)%f64 else None.
(** [oi_cap_usd.filter(|c| c.is_finite() && *c > 0.0)]. *)
Definition oi_cap (c : MarketCtx) : option f64 := cap ← oi_cap_usd c; if is_pos cap then Some cap else None.
Definition oi_cap_used_pct (c : MarketCtx) : option f64 :=
  cap ← oi_cap c; oi ← oi_usd c; Some (oi / cap * of_Z 100)%f64.
Definition change_24h_pct (c : MarketCtx) : option f64 :=
  m ← pos (c_mark c); p ← pos (prev_day c); Some ((m / p - one) * of_Z 100)%f64.
Definition oracle_eq_mark (c : MarketCtx) : option bool :=
  m ← pos (c_mark c); o ← pos (oracle c);
  Some (SFabs (m - o) <=? of_decimal 1 (-12) * fmax m o)%f64.

(** Short enum-like strings only. *)
Definition short (s : option string) : option string :=
  x ← s; if (length (chars x) <=? MAX_FEATURE_STR)%nat then Some x else None.

Definition ctx_features (c : MarketCtx) : Features :=
  let f :=
    fold_left (λ f p, set_num f (fst p) (val (snd p)))
      [("mark", c_mark c); ("oracle", oracle c); ("index", c_index c); ("mid", c_mid c); ("bid", bid c); ("ask", ask c);
       ("last", c_last c); ("impact_bid", impact_bid c); ("impact_ask", impact_ask c); ("funding_1h", funding_1h c);
       ("oi_base", oi_base c); ("vol_24h_usd", vol_24h_usd c)] ∅ in
  let f := set_num f "spread_bps" (ctx_spread_bps c) in
  let f := set_num f "impact_spread_bps" (impact_spread_bps c) in
  let f := set_num f "basis_bps" (basis_bps c) in
  let f := set_num f "premium_bps" (premium_bps c) in
  let f := set_num f "funding_apr_pct" (funding_apr_pct c) in
  let f := set_num f "funding_interval_h" (funding_interval_h c) in
  let f := set_num f "next_funding_s" (next_funding_s c) in
  let f := set_num f "oi_usd" (oi_usd c) in
  let f := set_num f "oi_cap_used_pct" (oi_cap_used_pct c) in
  let f := set_bool f "at_oi_cap" (at_oi_cap c) in
  let f := set_num f "change_24h_pct" (change_24h_pct c) in
  let f := set_int f "max_leverage" (max_leverage c) in
  let f := set_bool f "only_isolated" (only_isolated c) in
  let f := set_bool f "delisted" (Some (bool_decide (listing c = Delisted))) in
  let f := set_str f "session" (short (session c)) in
  let f := set_str f "category" (category_str <$> category c) in
  let f := set_bool f "growth_mode" (growth_mode c) in
  let f := set_num f "taker_fee_bps" (taker_fee_bps c) in
  set_bool f "oracle_eq_mark" (oracle_eq_mark c).

Definition ctx_status (c : MarketCtx) : ObsStatus :=
  if negb (bool_decide (listing c = Listed)) then ObsAbsent
  else
    let failed := existsb is_error (ctx_fields c) in
    if forallb (λ f, match val f with None => true | Some _ => false end) (prices c) then
      if failed then ObsError else ObsAbsent
    else if failed || no_book c then ObsPartial
    else ObsOk.
Definition ctx_errors (c : MarketCtx) : list ReadError := omap error (ctx_fields c).

(** ** Cases of the tests in the source *)

Example decimal_strings_parse_strictly :
  map parse_decimal ["347.19"; "-0.0000015073"; "0.0"; "+5"; ".5"; "5."; "1e-5"; "2.5E3"; "20249511.1999999993"]
  = map Some [of_decimal 34719 (-2); (- of_decimal 15073 (-10))%f64; zero; of_Z 5; of_decimal 5 (-1); of_Z 5;
              of_decimal 1 (-5); of_Z 2500; of_decimal 202495111999999993 (-10)]
  ∧ map parse_decimal [""; "-"; "."; " 1"; "1 "; "NaN"; "inf"; "1e"; "e5"; "1e999"; "0x10"; "1_000"] = replicate 12 None.
Proof. vm_compute. done. Qed.

Example instrument_ids :
  id_parse "hyperliquid:xyz:TSLA" = Ok (mkInstrumentId "hyperliquid" "xyz:TSLA")
  ∧ id_parse "ref:XNAS:TSLA" = Ok (mkInstrumentId "ref:XNAS" "TSLA")
  ∧ id_parse "nyse:TSLA" = Err ("instrument id `nyse:TSLA`: unknown venue `nyse` (known: " +:+ join ", " VENUES +:+ ", ref:<MIC>)")
  ∧ id_parse "hyperliquid" = Err "instrument id `hyperliquid` is not `<venue>:<native id>`".
Proof. vm_compute. done. Qed.
