(* ===== verification/Risk.v ===== *)
(** * The pre-trade risk gate ([src/src/domain/xm/risk.rs])

    Every rule is a check of one order against the account, the market inputs
    and the limits; a missing input fails its check. Numbers are [f64]. A method
    on [&mut self] answers the new gate. The audit digest (JSON) is left out. *)

From Stdlib Require Import Ascii String.
From S2P Require Import Prelude.
From S2P Require Import Text.
From S2P Require Import Bytes.
From S2P Require Import Substr.
From S2P Require Import F64.
From S2P Require Import Observation.
From S2P Require Import Book.
From S2P Require Import Ledger.
From S2P Require Import Market.

#[local] Open Scope string_scope.
#[local] Open Scope list_scope.
#[local] Open Scope Z_scope.

(** 1e-12 *)
Definition LIMIT_TOL : f64 := of_decimal 1 (-12).

Module rules.
Definition OK := "ok".
Definition ALLOW_REDUCE_DEGRADED := "allow_reduce_degraded".
Definition INTENT := "intent".
Definition ACCOUNT := "account".
Definition KILL_SWITCH := "kill_switch".
Definition HALTED := "halted".
Definition REDUCE_ONLY := "reduce_only".
Definition VENUE := "venue".
Definition INSTRUMENT := "instrument".
Definition LIFECYCLE := "lifecycle".
Definition DAILY_LOSS := "daily_loss".
Definition TOTAL_LOSS := "total_loss".
Definition ORDER_RATE := "order_rate".
Definition OPEN_ORDERS := "open_orders".
Definition BOOK_AGE := "book_age".
Definition CTX_AGE := "ctx_age".
Definition MARKET_STATUS := "market_status".
Definition MIN_EDGE := "min_edge".
Definition DEPTH := "depth".
Definition SLIPPAGE := "slippage".
Definition ORDER_NOTIONAL := "order_notional".
Definition POSITION_NOTIONAL := "position_notional".
Definition ASSET_EXPOSURE := "asset_exposure".
Definition VENUE_EXPOSURE := "venue_exposure".
Definition GROSS_EXPOSURE := "gross_exposure".
Definition NET_EXPOSURE := "net_exposure".
Definition LEVERAGE := "leverage".
Definition HEDGE := "hedge".
Definition SKEW := "skew".
Definition MISSING := "missing:".
End rules.

Definition EDGE_FEATURE := "edge_after_costs_bps".
Definition SIDE_FEATURE := "side".
Definition STRATEGY_FEATURE := "strategy".
Definition MAX_NOTIONAL_FEATURE := "max_notional_usd".
Definition OPPORTUNITY_SIDE := "opportunity_side".
Definition OPPORTUNITY_STRATEGY := "opportunity_strategy".
Definition OPPORTUNITY_MAX_NOTIONAL := "opportunity_max_notional_usd".

Inductive Lifecycle : Type := Discovered | Identified | Mapped | Observed | Validated | PaperTradable | LiveApproved.
Definition lifecycle_str (l : Lifecycle) : string :=
  match l with
  | Discovered => "discovered" | Identified => "identified" | Mapped => "mapped" | Observed => "observed"
  | Validated => "validated" | PaperTradable => "paper_tradable" | LiveApproved => "live_approved"
  end.
Definition lifecycle_rank (l : Lifecycle) : nat :=
  match l with
  | Discovered => 0 | Identified => 1 | Mapped => 2 | Observed => 3 | Validated => 4 | PaperTradable => 5 | LiveApproved => 6
  end.
(** [value >= min] of the derived order. *)
Definition lifecycle_geb (value min : Lifecycle) : bool := (lifecycle_rank min <=? lifecycle_rank value)%nat.

Record MaxAges : Type := mkMaxAges {
  ma_book : Z;
  ma_ctx : Z;
  ma_reference : Z;
  ma_quote : Z;
}.

Record RiskLimits : Type := mkRiskLimits {
  l_account : string;
  venues : list string;
  min_lifecycle : option Lifecycle;
  instruments_allow : list string;
  instruments_deny : list string;
  max_order_notional_usd : f64;
  max_position_notional_usd : f64;
  max_asset_exposure_usd : f64;
  max_venue_exposure_usd : f64;
  max_gross_exposure_usd : f64;
  max_net_exposure_usd : f64;
  l_max_leverage : f64;
  daily_loss_limit_usd : f64;
  total_loss_limit_usd : f64;
  min_edge_bps : f64;
  max_slippage_bps : f64;
  min_depth_usd : f64;
  require_hedge_for : list string;
  max_data_age_ms : MaxAges;
  max_skew_ms : Z;
  max_orders_per_min : Z;
  max_open_orders : Z;
  allow_reduce_degraded : bool;
}.

Inductive HaltReason : Type := DailyLoss | TotalLoss | Operator | File.
#[export] Instance HaltReason_eq_dec : EqDecision HaltReason.
Proof. solve_decision. Defined.
Definition halt_str (r : HaltReason) : string :=
  match r with DailyLoss => "daily_loss" | TotalLoss => "total_loss" | Operator => "operator" | File => "file" end.
Definition halt_parse (s : string) : option HaltReason :=
  if String.eqb s "daily_loss" then Some DailyLoss
  else if String.eqb s "total_loss" then Some TotalLoss
  else if String.eqb s "operator" then Some Operator
  else if String.eqb s "file" then Some File
  else None.
Definition is_sticky (r : HaltReason) : bool := negb (bool_decide (r = DailyLoss)).

Record Halt : Type := mkHalt {
  reason : HaltReason;
  since_ms : Z;
}.

Record OrderIntent : Type := mkIntent {
  in_account : string;
  in_instrument : string;
  in_underlying : string;
  in_side : Side;
  in_qty : f64;
  in_notional_usd : f64;
  reduce_only : bool;
  in_strategy : option string;
  hedge_instrument : option string;
  opportunity_key : option string;
}.

Definition venue_of (id : string) : option string :=
  match split_once ":" id with
  | Some (venue, native) => if negb (str_is_empty venue) && negb (str_is_empty native) then Some venue else None
  | None => None
  end.
Definition intent_venue (i : OrderIntent) : option string := venue_of (in_instrument i).

Inductive OrderClass : Type := Entry | Exit.
#[export] Instance OrderClass_eq_dec : EqDecision OrderClass.
Proof. solve_decision. Defined.

Inductive MarketStatus : Type := Open | AtOiCap | OiCapUnknown | NoBook | Halted | StDelisted.
#[export] Instance MarketStatus_eq_dec : EqDecision MarketStatus.
Proof. solve_decision. Defined.
Definition status_str (s : MarketStatus) : string :=
  match s with
  | Open => "open" | AtOiCap => "at_oi_cap" | OiCapUnknown => "oi_cap_unknown" | NoBook => "no_book"
  | Halted => "halted" | StDelisted => "delisted"
  end.
Definition status_of_ctx (c : MarketCtx) : MarketStatus :=
  if negb (bool_decide (listing c = Listed)) then StDelisted
  else if no_book c then NoBook
  else if bool_decide (at_oi_cap c = Some true) then AtOiCap
  else if bool_decide (at_oi_cap c = None) && String.eqb (i_venue (c_id c)) HYPERLIQUID then OiCapUnknown
  else Open.

Record BookInput : Type := mkBookInput {
  b_key : string;
  b_observed_at_ms : Z;
  book : L2Book;
}.
Definition stamp_ms (b : BookInput) : Z := Z.min (b_observed_at_ms b) (venue_ts_ms (book b)).
Definition book_age (b : BookInput) (now_ms : Z) : option Z := stamp_age_ms now_ms (stamp_ms b).

Record CtxInput : Type := mkCtxInput {
  x_key : string;
  x_observed_at_ms : Z;
  status : MarketStatus;
  oi_cap_headroom_usd : option f64;
}.
Definition ctx_age (c : CtxInput) (now_ms : Z) : option Z := stamp_age_ms now_ms (x_observed_at_ms c).

Definition first_error (row : Observation) (field : string) : ReadError :=
  default (read_error_new field Transient ("row " +:+ o_key row +:+ " has status error")) (head (o_errors row)).

(** [typed] is the row's payload as a [MarketCtx], or what its decoding says. *)
Definition ctx_from_row (typed : Observation → result string MarketCtx) (row : Observation) : Field CtxInput :=
  if bool_decide (o_status row = ObsError) then FErr (first_error row "ctx")
  else
    match typed row with
    | Ok ctx =>
        FOk (mkCtxInput (o_key row) (observed_at_ms row) (status_of_ctx ctx)
               (cap ← oi_cap ctx; oi ← oi_usd ctx; Some (cap - oi)%f64))
    | Err e => FErr (read_error_new "ctx" Decode e)
    end.

Record LegMarket : Type := mkLeg {
  leg_book : Field BookInput;
  leg_ctx : Field CtxInput;
}.

Record EdgeInput : Type := mkEdge {
  ed_key : string;
  ed_observed_at_ms : Z;
  ed_ttl_ms : Z;
  edge_after_costs_bps : Field f64;
  ed_side : Field Side;
  ed_strategy : Field string;
  ed_max_notional_usd : Field f64;
}.

(** [json] prints a value. *)
Definition row_feature {T} (json : Value → string) (row : Observation) (name what : string) (parse : Value → option T)
    : Field T :=
  match features row !! name with
  | None | Some Null => FAbsent
  | Some v =>
      match parse v with
      | Some x => FOk x
      | None => FErr (read_error_new name Decode (name +:+ " is " +:+ json v +:+ ", not " +:+ what))
      end
  end.
Definition edge_from_row (json : Value → string) (key : string) (row : option Observation) : Field EdgeInput :=
  match row with
  | None => FAbsent
  | Some row =>
      if negb (String.eqb (o_key row) key) then
        FErr (read_error_new EDGE_FEATURE Decode ("row " +:+ o_key row +:+ " is not " +:+ key))
      else if bool_decide (o_status row = ObsError) then FErr (first_error row EDGE_FEATURE)
      else
        FOk (mkEdge key (observed_at_ms row) (ttl_ms row)
          (row_feature json row EDGE_FEATURE "a number" (λ v, x ← as_f64 v; if is_finite x then Some x else None))
          (row_feature json row SIDE_FEATURE "buy or sell" (λ v, as_str v ≫= side_parse))
          (row_feature json row STRATEGY_FEATURE "a strategy name"
             (λ v, s ← as_str v; if negb (String.eqb (trim s) "") then Some s else None))
          (row_feature json row MAX_NOTIONAL_FEATURE "a number > 0" (λ v, x ← as_f64 v; if is_pos x then Some x else None)))
  end.

Record RiskContext : Type := mkContext {
  account : PaperPositions;
  halt : option Halt;
  kill_switch : Field bool;
  lifecycle : Field Lifecycle;
  orders_last_min : Z;
  open_orders : Z;
  legs : gmap string LegMarket;
  opportunity : Field EdgeInput;
}.

Inductive CheckStatus : Type := Pass | Fail | Waived | Skipped.
#[export] Instance CheckStatus_eq_dec : EqDecision CheckStatus.
Proof. solve_decision. Defined.

Record Check : Type := mkCheck {
  rule : string;
  ck_status : CheckStatus;
  detail : string;
}.

Record Headroom : Type := mkHeadroom {
  h_order_usd : option f64;
  h_position_usd : option f64;
  h_asset_usd : option f64;
  h_venue_usd : option f64;
  h_gross_usd : option f64;
  h_net_usd : option f64;
  h_leverage : option f64;
  h_daily_loss_usd : option f64;
  h_total_loss_usd : option f64;
  h_orders_per_min : option Z;
  h_open_orders : option Z;
}.
Definition no_headroom : Headroom := mkHeadroom None None None None None None None None None None None.

Record RiskVerdict : Type := mkVerdict {
  allow : bool;
  v_rule : string;
  v_class : OrderClass;
  degraded : bool;
  v_checks : list Check;
  v_headroom : Headroom;
  v_trips : list HaltReason;
}.
Definition failed (v : RiskVerdict) : option Check := List.find (λ c, bool_decide (ck_status c = Fail)) (v_checks v).

(** ** Limits *)

Definition within_max (value limit : f64) : bool :=
  is_finite value && (value <=? limit + LIMIT_TOL * fmax (SFabs limit) one)%f64.
Definition at_least (value min : f64) : bool :=
  is_finite value && (value >=? min - LIMIT_TOL * fmax (SFabs min) one)%f64.

Record LossState : Type := mkLoss {
  daily_loss_usd : Field f64;
  total_loss_usd : Field f64;
}.
Definition loss_of (a : PaperPositions) : LossState :=
  mkLoss (match daily_pnl_usd a with FOk v => FOk (- v)%f64 | other => other end)
    (match equity_usd a with FOk v => FOk (initial_cash_usd a - v)%f64 | other => other end).
Definition over (f : Field f64) (limit : f64) : bool :=
  match value f with Some l => negb (within_max l limit) | None => false end.
Definition breaches (s : LossState) (limits : RiskLimits) : list HaltReason :=
  (if over (total_loss_usd s) (total_loss_limit_usd limits) then [TotalLoss] else [])
  ++ (if over (daily_loss_usd s) (daily_loss_limit_usd limits) then [DailyLoss] else []).

Definition missing (field : string) : string := rules.MISSING +:+ field.
Definition grows (growth_usd : option f64) : bool := match growth_usd with None => true | Some g => (g >? zero)%f64 end.
Definition oi_cap_unknown (id : string) : string :=
  id +:+ " " +:+ status_str OiCapUnknown +:+ ": the row has no at_oi_cap (the perpsAtOpenInterestCap read failed) — an "
  +:+ "order that grows the position waits for a known state".
Definition missing_of (e : ReadError) : string :=
  missing (match split_once ":" (e_field e) with Some (f, _) => f | None => e_field e end).
Definition describe (e : ReadError) : string := e_field e +:+ " " +:+ class_str (e_class e) +:+ " " +:+ e_message e.
Definition read_error {T} (f : Field T) (name : string) : ReadError :=
  match f with FErr e => e | _ => read_error_new name Transient "absent" end.

Definition key_names (key id : string) : bool :=
  negb (str_is_empty id) && contains (":" +:+ id +:+ ":") (key +:+ ":").
Definition permission_error (l : RiskLimits) (id : string) : option string :=
  if existsb (String.eqb id) (instruments_deny l) then Some (id +:+ " is in instruments_deny")
  else if negb (existsb (String.eqb id) (instruments_allow l)) then Some (id +:+ " is not in instruments_allow")
  else None.
Definition group (groups : list GroupExposure) (key : string) : Field Exposure :=
  match List.find (λ g, String.eqb (g_key g) key) groups with
  | Some g => g_exposure g
  | None => FOk (mkExposure zero zero)
  end.

(** ** The gate *)

Record After : Type := mkAfter {
  a_qty_before : f64;
  a_qty_after : f64;
  pos_before : f64;
  pos_after : f64;
  delta : f64;
}.

Record Gate : Type := mkGate {
  intent : OrderIntent;
  ctx : RiskContext;
  limits : RiskLimits;
  now_ms : Z;
  class : OrderClass;
  order_usd : f64;
  checks : list Check;
  headroom : Headroom;
  trips : list HaltReason;
}.

Definition push (g : Gate) (rule : string) (status : CheckStatus) (detail : string) : Gate :=
  mkGate (intent g) (ctx g) (limits g) (now_ms g) (class g) (order_usd g) (checks g ++ [mkCheck rule status detail])
    (headroom g) (trips g).
Definition pass (g : Gate) (rule detail : string) : Gate := push g rule Pass detail.
Definition fail (g : Gate) (rule detail : string) : Gate := push g rule Fail detail.
Definition skip (g : Gate) (rule detail : string) : Gate := push g rule Skipped detail.
Definition set_headroom (g : Gate) (h : Headroom → Headroom) : Gate :=
  mkGate (intent g) (ctx g) (limits g) (now_ms g) (class g) (order_usd g) (checks g) (h (headroom g)) (trips g).
Definition set_trips (g : Gate) (t : list HaltReason) : Gate :=
  mkGate (intent g) (ctx g) (limits g) (now_ms g) (class g) (order_usd g) (checks g) (headroom g) t.
Definition set_order_usd (g : Gate) (x : f64) : Gate :=
  mkGate (intent g) (ctx g) (limits g) (now_ms g) (class g) x (checks g) (headroom g) (trips g).

Definition is_exit (g : Gate) : bool := bool_decide (class g = Exit).
Definition degradable (g : Gate) (rule detail : string) : Gate :=
  if is_exit g && allow_reduce_degraded (limits g) then
    push g rule Waived (detail +:+ " (exit: allow_reduce_degraded)")
  else fail g rule detail.
Definition row (g : Gate) : option PositionRow :=
  List.find (λ r, String.eqb (r_instrument r) (in_instrument (intent g))) (rows (account (ctx g))).
Definition leg (g : Gate) (id : string) : option LegMarket := legs (ctx g) !! id.
Definition leg_book_of (g : Gate) (id : string) : Field BookInput :=
  match leg g id with Some l => leg_book l | None => FAbsent end.
Definition leg_ctx_of (g : Gate) (id : string) : Field CtxInput :=
  match leg g id with Some l => leg_ctx l | None => FAbsent end.

Definition class_word (i : OrderIntent) : string := if reduce_only i then "reduce-only" else "order".

(** ** Checks *)

Definition intent_problems (g : Gate) : list string :=
  let i := intent g in
  (if String.eqb (trim (in_account i)) "" then ["no account"] else [])
  ++ (if bool_decide (intent_venue i = None) then
        ["instrument `" +:+ in_instrument i +:+ "` is not a full `<venue>:<native id>`"] else [])
  ++ (if String.eqb (trim (in_underlying i)) "" then ["no underlying"] else [])
  ++ (if negb (is_pos (in_qty i)) then ["qty " +:+ show (in_qty i) +:+ " is not > 0"] else [])
  ++ (if negb (is_pos (in_notional_usd i)) then
        ["notional_usd " +:+ show (in_notional_usd i) +:+ " is not > 0"] else [])
  ++ match hedge_instrument i with
     | Some h =>
         (if bool_decide (venue_of h = None) then
            ["hedge_instrument `" +:+ h +:+ "` is not a full `<venue>:<native id>`"] else [])
         ++ (if String.eqb h (in_instrument i) then ["hedge_instrument is the instrument " +:+ h] else [])
     | None => []
     end
  ++ match row g with
     | Some r =>
         if negb (String.eqb (r_underlying r) (in_underlying i)) then
           ["underlying " +:+ in_underlying i +:+ " differs from the open position's " +:+ r_underlying r +:+ " on "
            +:+ in_instrument i] else []
     | None => []
     end.
Definition check_intent (g : Gate) : Gate :=
  let i := intent g in
  match intent_problems g with
  | [] =>
      pass g rules.INTENT
        (class_word i +:+ " " +:+ side_str (in_side i) +:+ " qty " +:+ show (in_qty i) +:+ " notional "
         +:+ show (in_notional_usd i) +:+ " USD on " +:+ in_instrument i)
  | problems => fail g rules.INTENT (join "; " problems)
  end.

Definition check_account (g : Gate) : Gate :=
  let i := in_account (intent g) in
  let l := l_account (limits g) in
  if String.eqb i l then pass g rules.ACCOUNT ("account " +:+ i)
  else fail g rules.ACCOUNT ("order for account " +:+ i +:+ ", limits are for " +:+ l).

Definition check_kill_switch (g : Gate) : Gate :=
  match kill_switch (ctx g) with
  | FOk false => pass g rules.KILL_SWITCH "kill-switch file absent"
  | FOk true => degradable (set_trips g (trips g ++ [File])) rules.KILL_SWITCH "kill-switch file present"
  | other =>
      degradable g (missing "kill_switch")
        ("kill-switch file state unknown: " +:+ describe (read_error other "kill_switch"))
  end.

Definition check_halted (g : Gate) : Gate :=
  match halt (ctx g) with
  | None => pass g rules.HALTED "not halted"
  | Some h =>
      degradable g rules.HALTED ("halted: " +:+ halt_str (reason h) +:+ " since " +:+ show_Z (since_ms h) +:+ " ms")
  end.

Definition row_qty (g : Gate) : f64 := match row g with Some r => r_qty r | None => zero end.
Definition check_reduce_only (g : Gate) (reduces : bool) : Gate :=
  let i := intent g in
  if negb (reduce_only i) then skip g rules.REDUCE_ONLY "not reduce-only"
  else
    let what := side_str (in_side i) +:+ " " +:+ show (in_qty i) in
    if reduces then
      pass g rules.REDUCE_ONLY (what +:+ " of position " +:+ show (row_qty g) +:+ " on " +:+ in_instrument i)
    else
      fail g rules.REDUCE_ONLY
        (what +:+ " would open or flip position " +:+ show (row_qty g) +:+ " on " +:+ in_instrument i).

(** [{:?}] of a list of strings (venue names: no character to escape). *)
Definition show_strings (l : list string) : string := "[" +:+ join ", " (map (λ s, quote +:+ s +:+ quote) l) +:+ "]".

Definition check_venue (g : Gate) : Gate :=
  match intent_venue (intent g) with
  | Some v =>
      if existsb (String.eqb v) (venues (limits g)) then pass g rules.VENUE ("venue " +:+ v +:+ " permitted")
      else
        fail g rules.VENUE
          ("venue " +:+ v +:+ " is not in [risk] venues " +:+ show_strings (venues (limits g)))
  | None => fail g rules.VENUE ("no venue in `" +:+ in_instrument (intent g) +:+ "`")
  end.
Definition check_permission (g : Gate) : Gate :=
  if is_exit g then
    pass (pass g rules.VENUE "exit of an open position") rules.INSTRUMENT "exit of an open position"
  else
    let g := check_venue g in
    let i := in_instrument (intent g) in
    match permission_error (limits g) i with
    | Some why => fail g rules.INSTRUMENT why
    | None => pass g rules.INSTRUMENT (i +:+ " is allow-listed")
    end.

Definition check_lifecycle (g : Gate) : Gate :=
  match min_lifecycle (limits g) with
  | None => skip g rules.LIFECYCLE "no lifecycle rule (M0: permission = instruments_allow)"
  | Some min =>
      if is_exit g then skip g rules.LIFECYCLE "exit"
      else
        let i := in_instrument (intent g) in
        match lifecycle (ctx g) with
        | FOk v =>
            if lifecycle_geb v min then pass g rules.LIFECYCLE (lifecycle_str v +:+ " ≥ " +:+ lifecycle_str min)
            else fail g rules.LIFECYCLE (i +:+ " is " +:+ lifecycle_str v +:+ " < " +:+ lifecycle_str min)
        | other => fail g (missing "lifecycle") (i +:+ ": " +:+ describe (read_error other "lifecycle"))
        end
  end.

Definition set_daily (x : f64) (h : Headroom) : Headroom :=
  mkHeadroom (h_order_usd h) (h_position_usd h) (h_asset_usd h) (h_venue_usd h) (h_gross_usd h) (h_net_usd h)
    (h_leverage h) (Some x) (h_total_loss_usd h) (h_orders_per_min h) (h_open_orders h).
Definition set_total (x : f64) (h : Headroom) : Headroom :=
  mkHeadroom (h_order_usd h) (h_position_usd h) (h_asset_usd h) (h_venue_usd h) (h_gross_usd h) (h_net_usd h)
    (h_leverage h) (h_daily_loss_usd h) (Some x) (h_orders_per_min h) (h_open_orders h).

(** One turn of the loop of [check_losses]. *)
Definition check_loss (breaches : list HaltReason) (g : Gate) (r : HaltReason) : Gate :=
  let loss := loss_of (account (ctx g)) in
  let '(rule, field, limit, room) :=
    match r with
    | DailyLoss => (rules.DAILY_LOSS, daily_loss_usd loss, daily_loss_limit_usd (limits g), set_daily)
    | _ => (rules.TOTAL_LOSS, total_loss_usd loss, total_loss_limit_usd (limits g), set_total)
    end in
  match field with
  | FOk v =>
      let g := set_headroom g (room (limit - v)%f64) in
      let detail := "loss " +:+ show v +:+ " USD, limit " +:+ show limit +:+ " USD" in
      if negb (bool_decide (r ∈ breaches)) then pass g rule detail
      else if is_exit g then pass g rule (detail +:+ " — breached (exit: not gated)")
      else fail g rule (detail +:+ " — breached, halts entries")
  | other =>
      let '(code, detail) :=
        match other with
        | FAbsent =>
            if bool_decide (r = DailyLoss) then (missing "day_start_equity", "no day-start equity yet")
            else (missing "equity", "no equity")
        | _ => let e := read_error other "equity" in (missing_of e, describe e)
        end in
      if is_exit g then skip g rule ("exit: not gated (" +:+ code +:+ ": " +:+ detail +:+ ")")
      else fail g code detail
  end.
Definition check_losses (g : Gate) (suppress_trips : bool) : Gate :=
  let b := breaches (loss_of (account (ctx g))) (limits g) in
  let g := if suppress_trips then g else set_trips g (trips g ++ b) in
  fold_left (check_loss b) [DailyLoss; TotalLoss] g.

Definition set_rate (n : Z) (h : Headroom) : Headroom :=
  mkHeadroom (h_order_usd h) (h_position_usd h) (h_asset_usd h) (h_venue_usd h) (h_gross_usd h) (h_net_usd h)
    (h_leverage h) (h_daily_loss_usd h) (h_total_loss_usd h) (Some n) (h_open_orders h).
Definition set_open (n : Z) (h : Headroom) : Headroom :=
  mkHeadroom (h_order_usd h) (h_position_usd h) (h_asset_usd h) (h_venue_usd h) (h_gross_usd h) (h_net_usd h)
    (h_leverage h) (h_daily_loss_usd h) (h_total_loss_usd h) (h_orders_per_min h) (Some n).
Definition check_order_rate (g : Gate) : Gate :=
  let n := orders_last_min (ctx g) in
  let max := max_orders_per_min (limits g) in
  if is_exit g then
    skip g rules.ORDER_RATE
      ("exit: never rate-limited (" +:+ show_Z n +:+ " entries in the last 60 s, max " +:+ show_Z max +:+ ")")
  else
    let g := set_headroom g (set_rate (max - n - 1)) in
    if n <? max then
      pass g rules.ORDER_RATE (show_Z n +:+ " entries in the last 60 s, max " +:+ show_Z max)
    else fail g rules.ORDER_RATE (show_Z n +:+ " entries in the last 60 s: another exceeds " +:+ show_Z max).
Definition check_open_orders (g : Gate) : Gate :=
  let n := open_orders (ctx g) in
  let max := max_open_orders (limits g) in
  let g := set_headroom g (set_open (max - n - 1)) in
  if n <? max then pass g rules.OPEN_ORDERS (show_Z n +:+ " resting orders, max " +:+ show_Z max)
  else fail g rules.OPEN_ORDERS (show_Z n +:+ " resting orders: another exceeds " +:+ show_Z max).
Definition check_rates (g : Gate) : Gate := check_open_orders (check_order_rate g).

(** The verdict on an age: fresh, stale, or stamped ahead. *)
Definition check_age (g : Gate) (rule key : string) (age : option Z) (max stamp : Z) : Gate :=
  match age with
  | Some age =>
      if age <=? max then pass g rule (key +:+ " age " +:+ show_Z age +:+ " ms, max " +:+ show_Z max +:+ " ms")
      else degradable g rule ("stale: " +:+ key +:+ " age " +:+ show_Z age +:+ " ms, max " +:+ show_Z max +:+ " ms")
  | None => degradable g rule (future_stamp key stamp (now_ms g))
  end.
Definition check_book_age (g : Gate) : Gate :=
  let id := in_instrument (intent g) in
  match leg_book_of g id with
  | FOk b => check_age g rules.BOOK_AGE (b_key b) (book_age b (now_ms g)) (ma_book (max_data_age_ms (limits g))) (stamp_ms b)
  | other => degradable g (missing "book") (id +:+ ": " +:+ describe (read_error other "book"))
  end.
Definition check_ctx_age (g : Gate) : Gate :=
  let id := in_instrument (intent g) in
  match leg_ctx_of g id with
  | FOk c =>
      check_age g rules.CTX_AGE (x_key c) (ctx_age c (now_ms g)) (ma_ctx (max_data_age_ms (limits g))) (x_observed_at_ms c)
  | other => degradable g (missing "ctx") (id +:+ ": " +:+ describe (read_error other "ctx"))
  end.
Definition check_ages (g : Gate) : Gate := check_ctx_age (check_book_age g).

(** Whether a market in status [s] takes the order, and what the check says. *)
Definition status_verdict (id : string) (c : CtxInput) (growth_usd : option f64) : bool * string :=
  let s := status c in
  let grows := grows growth_usd in
  let detail := id +:+ " " +:+ status_str s in
  let at_cap := bool_decide (s = AtOiCap) || bool_decide (s = OiCapUnknown) in
  let ok := bool_decide (s = Open) || (at_cap && negb grows) in
  match ok, grows, oi_cap_headroom_usd c with
  | true, true, Some room =>
      match growth_usd with
      | Some g =>
          (within_max g room,
           detail +:+ "; grows OI by " +:+ show g +:+ " USD, cap headroom " +:+ show room +:+ " USD")
      | None => (false, detail +:+ "; OI growth unknown, cap headroom " +:+ show room +:+ " USD")
      end
  | _, _, _ => (ok, detail)
  end.
Definition check_market_status (g : Gate) (growth_usd : option f64) : Gate :=
  if is_exit g then skip g rules.MARKET_STATUS "exit: the fill engine decides"
  else
    let id := in_instrument (intent g) in
    match leg_ctx_of g id with
    | FOk c =>
        if bool_decide (status c = OiCapUnknown) && grows growth_usd then fail g (missing "at_oi_cap") (oi_cap_unknown id)
        else
          let '(ok, detail) := status_verdict id c growth_usd in
          if ok then pass g rules.MARKET_STATUS detail else fail g rules.MARKET_STATUS detail
    | other => fail g (missing "ctx") (id +:+ ": " +:+ describe (read_error other "ctx"))
    end.

Definition SHADOW_SKIPPED := "shadow: measurement only".
Definition check_shadow_market_status (g : Gate) (growth_usd : option f64) : Gate :=
  let id := in_instrument (intent g) in
  let unknown := match leg_ctx_of g id with FOk c => bool_decide (status c = OiCapUnknown) | _ => false end in
  if negb (is_exit g) && unknown && grows growth_usd then fail g (missing "at_oi_cap") (oi_cap_unknown id)
  else skip g rules.MARKET_STATUS SHADOW_SKIPPED.

(** ** The opportunity *)

(** [backs]: the detail, or the code and detail of the first thing that does not. *)
Definition backs_side (i : OrderIntent) (key : string) (o : EdgeInput) : result (string * string) unit :=
  match ed_side o with
  | FOk s =>
      if bool_decide (s = in_side i) then Ok tt
      else
        Err (rules.MIN_EDGE, key +:+ " backs a " +:+ side_str s +:+ "; the order is a " +:+ side_str (in_side i)
                             +:+ " of " +:+ in_instrument i)
  | other => Err (missing OPPORTUNITY_SIDE, key +:+ " names no side: " +:+ describe (read_error other SIDE_FEATURE))
  end.
Definition backs_strategy (i : OrderIntent) (key : string) (o : EdgeInput) : result (string * string) unit :=
  match in_strategy i with
  | None => Ok tt
  | Some want =>
      match ed_strategy o with
      | FOk v =>
          if String.eqb v want then Ok tt
          else Err (rules.MIN_EDGE, key +:+ " is a " +:+ v +:+ " opportunity; the order's strategy is " +:+ want)
      | other =>
          Err (missing OPPORTUNITY_STRATEGY,
               key +:+ " names no strategy to match the order's " +:+ want +:+ ": "
               +:+ describe (read_error other STRATEGY_FEATURE))
      end
  end.
Definition backs (g : Gate) (key : string) (o : EdgeInput) : result (string * string) string :=
  let i := intent g in
  match backs_side i key o with
  | Err e => Err e
  | Ok _ =>
      match backs_strategy i key o with
      | Err e => Err e
      | Ok _ =>
          match edge_after_costs_bps o with
          | FOk edge =>
              let detail :=
                key +:+ " " +:+ side_str (in_side i) +:+ " " +:+ default "-" (value (ed_strategy o)) +:+ " "
                +:+ EDGE_FEATURE +:+ " " +:+ show edge +:+ " bps, min " +:+ show (min_edge_bps (limits g)) +:+ " bps" in
              if negb (at_least edge (min_edge_bps (limits g))) then Err (rules.MIN_EDGE, detail)
              else
                match ed_max_notional_usd o with
                | FAbsent => Ok detail
                | FOk max =>
                    let detail :=
                      detail +:+ "; order " +:+ show (order_usd g) +:+ " USD, " +:+ MAX_NOTIONAL_FEATURE +:+ " "
                      +:+ show max +:+ " USD" in
                    if negb (within_max (order_usd g) max) then Err (rules.MIN_EDGE, detail) else Ok detail
                | FErr error => Err (missing OPPORTUNITY_MAX_NOTIONAL, key +:+ ": " +:+ describe error)
                end
          | other => Err (missing EDGE_FEATURE, key +:+ ": " +:+ describe (read_error other EDGE_FEATURE))
          end
      end
  end.
Definition check_min_edge (g : Gate) : Gate :=
  if is_exit g then skip g rules.MIN_EDGE "exit"
  else
    let no := fail g (missing EDGE_FEATURE) in
    match opportunity_key (intent g) with
    | None => no "the order names no opportunity row (opportunity_key)"
    | Some key =>
        if negb (key_names key (in_instrument (intent g))) then
          no ("opportunity row " +:+ key +:+ " is not about " +:+ in_instrument (intent g))
        else
          match opportunity (ctx g) with
          | FOk o =>
              if negb (String.eqb (ed_key o) key) then no ("context row " +:+ ed_key o +:+ " is not the order's " +:+ key)
              else
                match stamp_age_ms (now_ms g) (ed_observed_at_ms o) with
                | None => no (future_stamp key (ed_observed_at_ms o) (now_ms g))
                | Some age =>
                    if (ed_ttl_ms o =? 0) || (ed_ttl_ms o <? age) then
                      no ("stale: " +:+ key +:+ " age " +:+ show_Z age +:+ " ms > ttl " +:+ show_Z (ed_ttl_ms o) +:+ " ms")
                    else
                      match backs g key o with
                      | Ok detail => pass g rules.MIN_EDGE detail
                      | Err (code, detail) => fail g code detail
                      end
                end
          | other => no (key +:+ ": " +:+ describe (read_error other EDGE_FEATURE))
          end
    end.
Definition strategy (g : Gate) : option string :=
  match in_strategy (intent g) with
  | Some s => Some s
  | None =>
      match opportunity (ctx g) with
      | FOk o => if bool_decide (opportunity_key (intent g) = Some (ed_key o)) then value (ed_strategy o) else None
      | _ => None
      end
  end.

(** ** Liquidity *)

Definition depth_ok (l : RiskLimits) (id : string) (b : BookInput) (s : Side) : bool * string :=
  match depth_within (book b) (max_slippage_bps l) with
  | Ok d =>
      let usd := for_taker d s in
      (at_least usd (min_depth_usd l),
       id +:+ " " +:+ side_str s +:+ " depth " +:+ show usd +:+ " USD within " +:+ show (max_slippage_bps l)
       +:+ " bps, min " +:+ show (min_depth_usd l) +:+ " USD")
  | Err e => (false, id +:+ ": " +:+ show_book_error e)
  end.
Definition slippage_ok (l : RiskLimits) (id : string) (b : BookInput) (s : Side) (notional : f64) : bool * string :=
  match walk_book (book b) s (Notional notional) None with
  | Ok w =>
      if negb (is_complete w) then
        (false, id +:+ " " +:+ side_str s +:+ " walk of " +:+ show notional +:+ " USD leaves " +:+ show (unfilled w)
                +:+ " USD unfilled (visible depth)")
      else
        match slippage_bps_vs_mid w with
        | Some slip =>
            (within_max slip (max_slippage_bps l),
             id +:+ " " +:+ side_str s +:+ " " +:+ show notional +:+ " USD vwap " +:+ show (default S754_nan (vwap w))
             +:+ " slippage " +:+ show slip +:+ " bps vs mid, max " +:+ show (max_slippage_bps l) +:+ " bps")
        | None => (false, id +:+ ": no mid (a side of the book is empty)")
        end
  | Err e => (false, id +:+ ": " +:+ show_book_error e)
  end.
Definition verdict_on (g : Gate) (rule : string) (v : bool * string) : Gate :=
  if fst v then pass g rule (snd v) else fail g rule (snd v).
Definition check_liquidity (g : Gate) : Gate :=
  if is_exit g then skip (skip g rules.DEPTH "exit") rules.SLIPPAGE "exit"
  else
    let id := in_instrument (intent g) in
    match leg_book_of g id with
    | FOk b =>
        let s := in_side (intent g) in
        verdict_on (verdict_on g rules.DEPTH (depth_ok (limits g) id b s)) rules.SLIPPAGE
          (slippage_ok (limits g) id b s (order_usd g))
    | other =>
        let detail := id +:+ ": " +:+ describe (read_error other "book") in
        fail (fail g (missing "book") ("depth: " +:+ detail)) (missing "book") ("slippage: " +:+ detail)
    end.

(** ** Exposure *)

Definition reference_px (g : Gate) : f64 :=
  let i := intent g in
  default (in_notional_usd i / in_qty i)%f64 (b ← value (leg_book_of g (in_instrument i)); mid (book b)).
Definition after (g : Gate) : result (string * string) After :=
  let i := intent g in
  match
    match row g with
    | None => Ok (zero, reference_px g)
    | Some r =>
        match mark_px r with
        | FOk v => Ok (r_qty r, v)
        | other =>
            let e := read_error other ("mark:" +:+ in_instrument i) in
            Err (missing_of e, describe e)
        end
    end
  with
  | Err e => Err e
  | Ok (qty_before, px) =>
      let qty_after := (qty_before + sign (in_side i) * in_qty i)%f64 in
      let pos_before := (qty_before * px)%f64 in
      let pos_after := (qty_after * px)%f64 in
      Ok (mkAfter qty_before qty_after pos_before pos_after (pos_after - pos_before)%f64)
  end.
Definition growth (a : After) : f64 := (SFabs (pos_after a) - SFabs (pos_before a))%f64.

Definition cap (g : Gate) (rule : string) (value limit : f64) (what : string) : Gate :=
  let detail := what +:+ " " +:+ show value +:+ " USD, cap " +:+ show limit +:+ " USD" in
  if within_max value limit then pass g rule detail else fail g rule detail.

Definition CAPS : list string :=
  [rules.ORDER_NOTIONAL; rules.POSITION_NOTIONAL; rules.ASSET_EXPOSURE; rules.VENUE_EXPOSURE; rules.GROSS_EXPOSURE;
   rules.NET_EXPOSURE; rules.LEVERAGE].

Definition with_order (x : f64) (h : Headroom) : Headroom :=
  mkHeadroom (Some x) (h_position_usd h) (h_asset_usd h) (h_venue_usd h) (h_gross_usd h) (h_net_usd h) (h_leverage h)
    (h_daily_loss_usd h) (h_total_loss_usd h) (h_orders_per_min h) (h_open_orders h).
Definition with_position (x : f64) (h : Headroom) : Headroom :=
  mkHeadroom (h_order_usd h) (Some x) (h_asset_usd h) (h_venue_usd h) (h_gross_usd h) (h_net_usd h) (h_leverage h)
    (h_daily_loss_usd h) (h_total_loss_usd h) (h_orders_per_min h) (h_open_orders h).
Definition with_asset (x : f64) (h : Headroom) : Headroom :=
  mkHeadroom (h_order_usd h) (h_position_usd h) (Some x) (h_venue_usd h) (h_gross_usd h) (h_net_usd h) (h_leverage h)
    (h_daily_loss_usd h) (h_total_loss_usd h) (h_orders_per_min h) (h_open_orders h).
Definition with_venue (x : f64) (h : Headroom) : Headroom :=
  mkHeadroom (h_order_usd h) (h_position_usd h) (h_asset_usd h) (Some x) (h_gross_usd h) (h_net_usd h) (h_leverage h)
    (h_daily_loss_usd h) (h_total_loss_usd h) (h_orders_per_min h) (h_open_orders h).
Definition with_gross (x : f64) (h : Headroom) : Headroom :=
  mkHeadroom (h_order_usd h) (h_position_usd h) (h_asset_usd h) (h_venue_usd h) (Some x) (h_net_usd h) (h_leverage h)
    (h_daily_loss_usd h) (h_total_loss_usd h) (h_orders_per_min h) (h_open_orders h).
Definition with_net (x : f64) (h : Headroom) : Headroom :=
  mkHeadroom (h_order_usd h) (h_position_usd h) (h_asset_usd h) (h_venue_usd h) (h_gross_usd h) (Some x) (h_leverage h)
    (h_daily_loss_usd h) (h_total_loss_usd h) (h_orders_per_min h) (h_open_orders h).
Definition with_leverage (x : f64) (h : Headroom) : Headroom :=
  mkHeadroom (h_order_usd h) (h_position_usd h) (h_asset_usd h) (h_venue_usd h) (h_gross_usd h) (h_net_usd h) (Some x)
    (h_daily_loss_usd h) (h_total_loss_usd h) (h_orders_per_min h) (h_open_orders h).

(** [cap] with its room recorded. *)
Definition capped (g : Gate) (rule : string) (value limit : f64) (what : string) (room : f64 → Headroom → Headroom) : Gate :=
  set_headroom (cap g rule value limit what) (room (limit - value)%f64).

Definition check_asset (g : Gate) (a : After) : Gate :=
  let i := intent g in
  let key := in_underlying i in
  match group (by_underlying (account (ctx g))) key with
  | FOk e => capped g rules.ASSET_EXPOSURE (SFabs (net_usd e + delta a))%f64 (max_asset_exposure_usd (limits g)) ("net " +:+ key) with_asset
  | other =>
      let e := read_error other "exposure" in
      fail g (missing_of e) (rules.ASSET_EXPOSURE +:+ " " +:+ key +:+ ": " +:+ describe e)
  end.
Definition gross_after (e : Exposure) (a : After) : f64 := (gross_usd e - SFabs (pos_before a) + SFabs (pos_after a))%f64.
Definition check_venue_exposure (g : Gate) (a : After) : Gate :=
  let key := default "" (intent_venue (intent g)) in
  match group (by_venue (account (ctx g))) key with
  | FOk e => capped g rules.VENUE_EXPOSURE (gross_after e a) (max_venue_exposure_usd (limits g)) ("gross " +:+ key) with_venue
  | other =>
      let e := read_error other "exposure" in
      fail g (missing_of e) (rules.VENUE_EXPOSURE +:+ " " +:+ key +:+ ": " +:+ describe e)
  end.
Definition check_leverage (g : Gate) (gross : f64) : Gate :=
  match equity_usd (account (ctx g)) with
  | FOk eq =>
      if (eq >? zero)%f64 then
        let lev := (gross / eq)%f64 in
        let max := l_max_leverage (limits g) in
        let g := set_headroom g (with_leverage (max - lev)%f64) in
        let detail :=
          "gross " +:+ show gross +:+ " USD / equity " +:+ show eq +:+ " USD = " +:+ show lev +:+ "x, max " +:+ show max +:+ "x" in
        if within_max lev max then pass g rules.LEVERAGE detail else fail g rules.LEVERAGE detail
      else fail g rules.LEVERAGE ("equity " +:+ show eq +:+ " USD ≤ 0")
  | other =>
      let e := read_error other "equity" in
      fail g (missing_of e) ("leverage: " +:+ describe e)
  end.
Definition check_totals (g : Gate) (a : After) : Gate :=
  match exposure (account (ctx g)) with
  | FOk e =>
      let gross := gross_after e a in
      let g := capped g rules.GROSS_EXPOSURE gross (max_gross_exposure_usd (limits g)) "gross" with_gross in
      let g := capped g rules.NET_EXPOSURE (SFabs (net_usd e + delta a))%f64 (max_net_exposure_usd (limits g)) "net" with_net in
      check_leverage g gross
  | other =>
      let e := read_error other "exposure" in
      fold_left (λ g rule, fail g (missing_of e) (rule +:+ ": " +:+ describe e))
        [rules.GROSS_EXPOSURE; rules.NET_EXPOSURE; rules.LEVERAGE] g
  end.
Definition check_exposure (g : Gate) (after : result (string * string) After) : Gate :=
  if is_exit g then fold_left (λ g rule, skip g rule "exit: reduces the position") CAPS g
  else
    let i := intent g in
    let l := limits g in
    let g := capped g rules.ORDER_NOTIONAL (order_usd g) (max_order_notional_usd l) ("order on " +:+ in_instrument i) with_order in
    match after with
    | Err (code, detail) => fold_left (λ g rule, fail g code (rule +:+ ": " +:+ detail)) (tail CAPS) g
    | Ok a =>
        let g :=
          capped g rules.POSITION_NOTIONAL (SFabs (pos_after a)) (max_position_notional_usd l)
            ("position " +:+ show (a_qty_before a) +:+ " → " +:+ show (a_qty_after a) +:+ " on " +:+ in_instrument i) with_position in
        check_totals (check_venue_exposure (check_asset g a) a) a
    end.

(** ** Hedge *)

(** The problems of a row's age. *)
Definition age_problems (key : string) (age : option Z) (max stamp now_ms : Z) : list string :=
  match age with
  | Some age => if max <? age then [key +:+ " stale: " +:+ show_Z age +:+ " ms > " +:+ show_Z max +:+ " ms"] else []
  | None => [future_stamp key stamp now_ms]
  end.
Definition hedge_ctx_problems (g : Gate) (h : string) : list string :=
  match leg_ctx_of g h with
  | FOk c =>
      age_problems (x_key c) (ctx_age c (now_ms g)) (ma_ctx (max_data_age_ms (limits g))) (x_observed_at_ms c) (now_ms g)
      ++ (if negb (bool_decide (status c = Open)) then [h +:+ " " +:+ status_str (status c)] else [])
  | other => [h +:+ ": " +:+ describe (read_error other "ctx")]
  end.
Definition hedge_book_problems (g : Gate) (h : string) : list string :=
  match leg_book_of g h with
  | FOk b =>
      let side := opposite (in_side (intent g)) in
      let d := depth_ok (limits g) h b side in
      let s := slippage_ok (limits g) h b side (order_usd g) in
      age_problems (b_key b) (book_age b (now_ms g)) (ma_book (max_data_age_ms (limits g))) (stamp_ms b) (now_ms g)
      ++ (if fst d then [] else [snd d]) ++ (if fst s then [] else [snd s])
  | other => [h +:+ ": " +:+ describe (read_error other "book")]
  end.
Definition hedge_problems (g : Gate) (h : string) : list string :=
  (if match venue_of h with Some v => existsb (String.eqb v) (venues (limits g)) | None => false end then []
   else [h +:+ ": venue not in [risk] venues"])
  ++ option_list (permission_error (limits g) h)
  ++ hedge_ctx_problems g h ++ hedge_book_problems g h.
Definition hedge_code (g : Gate) (h : string) : string :=
  match leg_book_of g h with
  | FOk _ => match leg_ctx_of g h with FOk _ => rules.HEDGE | _ => missing "hedge_ctx" end
  | _ => missing "hedge_book"
  end.
Definition book_stamp (g : Gate) (id : string) : option Z :=
  match leg_book_of g id with FOk b => Some (stamp_ms b) | _ => None end.

Definition check_skew (g : Gate) (h : string) : Gate :=
  let id := in_instrument (intent g) in
  match book_stamp g id, book_stamp g h with
  | Some a, Some b =>
      let skew := Z.abs (a - b) in
      let detail :=
        "books of " +:+ id +:+ " and " +:+ h +:+ " " +:+ show_Z skew +:+ " ms apart, max " +:+ show_Z (max_skew_ms (limits g)) +:+ " ms" in
      if skew <=? max_skew_ms (limits g) then pass g rules.SKEW detail else fail g rules.SKEW detail
  | None, _ => fail g (missing "book") ("skew: no book for " +:+ id)
  | _, None => fail g (missing "hedge_book") ("skew: no book for " +:+ h)
  end.
(** The strategy that needs a hedge here, when one does. *)
Definition hedged_strategy (g : Gate) : option string :=
  s ← strategy g; if existsb (String.eqb s) (require_hedge_for (limits g)) then Some s else None.
Definition check_hedge (g : Gate) : Gate :=
  match (if is_exit g then None else hedged_strategy g) with
  | None =>
      let why := if is_exit g then "exit" else "strategy needs no hedge" in
      skip (skip g rules.HEDGE why) rules.SKEW why
  | Some s =>
      match hedge_instrument (intent g) with
      | None =>
          let detail := "strategy " +:+ s +:+ " requires a hedge_instrument" in
          fail (fail g rules.HEDGE detail) rules.SKEW detail
      | Some h =>
          let g' :=
            match hedge_problems g h with
            | [] => pass g rules.HEDGE (side_str (opposite (in_side (intent g))) +:+ " hedge on " +:+ h +:+ " available")
            | problems => fail g (hedge_code g h) (join "; " problems)
            end in
          check_skew g' h
      end
  end.

(** ** The verdict *)

Inductive GateKind : Type := Risk | Shadow.

(** Whether the order reduces the open position without flipping it. *)
Definition reduces_position (i : OrderIntent) (pos_qty : f64) : bool :=
  negb (pos_qty =? zero)%f64 && (signum pos_qty =? - sign (in_side i))%f64 && is_pos (in_qty i)
  && (in_qty i <=? SFabs pos_qty * (one + LIMIT_TOL))%f64.
Definition start (i : OrderIntent) (c : RiskContext) (l : RiskLimits) (now_ms : Z) : Gate * bool :=
  let pos_qty :=
    match List.find (λ r, String.eqb (r_instrument r) (in_instrument i)) (rows (account c)) with
    | Some r => r_qty r
    | None => zero
    end in
  let reduces := reduces_position i pos_qty in
  let class := if reduce_only i && reduces then Exit else Entry in
  (mkGate i c l now_ms class (in_notional_usd i) [] no_headroom [], reduces).

Definition once (l : list HaltReason) : list HaltReason :=
  fold_left (λ out t, if bool_decide (t ∈ out) then out else out ++ [t]) l [].
Definition verdict (g : Gate) : RiskVerdict :=
  let first_fail := rule <$> List.find (λ c, bool_decide (ck_status c = Fail)) (checks g) in
  let degraded := existsb (λ c, bool_decide (ck_status c = Waived)) (checks g) in
  let '(allow, rule) :=
    match first_fail with
    | Some rule => (false, rule)
    | None => (true, if degraded then rules.ALLOW_REDUCE_DEGRADED else rules.OK)
    end in
  mkVerdict allow rule (class g) (allow && degraded) (checks g) (headroom g) (once (trips g)).

Definition any_failed (g : Gate) : bool := existsb (λ c, bool_decide (ck_status c = Fail)) (checks g).

(** The checks of [evaluate] up to the order's size. *)
Definition evaluate_first (g : Gate) (reduces : bool) : Gate * bool :=
  let g := check_account (check_intent g) in
  let wrong_account := any_failed g in
  let g := check_reduce_only (check_halted (check_kill_switch g)) reduces in
  let g := check_losses (check_lifecycle (check_permission g)) wrong_account in
  (check_ages (check_rates g), wrong_account).
Definition evaluate_rest (g : Gate) : Gate :=
  let after := after g in
  let g :=
    match after with
    | Ok a => set_order_usd g (fmax (in_notional_usd (intent g)) (SFabs (delta a)))
    | Err _ => g
    end in
  let growth_usd := match after with Ok a => Some (growth a) | Err _ => None end in
  let g := check_liquidity (check_min_edge (check_market_status g growth_usd)) in
  check_hedge (check_exposure g after).
Definition evaluate (i : OrderIntent) (c : RiskContext) (l : RiskLimits) (now_ms : Z) : RiskVerdict :=
  let '(g, reduces) := start i c l now_ms in
  let '(g, wrong_account) := evaluate_first g reduces in
  let g := evaluate_rest g in
  verdict (if wrong_account then set_trips g [] else g).

Definition skip_all (g : Gate) (rules : list string) : Gate := fold_left (λ g r, skip g r SHADOW_SKIPPED) rules g.
Definition evaluate_shadow (i : OrderIntent) (c : RiskContext) (l : RiskLimits) (now_ms : Z) : RiskVerdict :=
  let '(g, reduces) := start i c l now_ms in
  let g := check_reduce_only (check_halted (check_kill_switch (check_account (check_intent g)))) reduces in
  let g := if is_exit g then check_permission g else skip (check_venue g) rules.INSTRUMENT SHADOW_SKIPPED in
  let g := skip_all g [rules.LIFECYCLE; rules.DAILY_LOSS; rules.TOTAL_LOSS; rules.ORDER_RATE; rules.OPEN_ORDERS] in
  let g := skip (check_book_age g) rules.CTX_AGE SHADOW_SKIPPED in
  let growth_usd := match after g with Ok a => Some (growth a) | Err _ => None end in
  let g := check_shadow_market_status g growth_usd in
  let g :=
    skip_all g
      [rules.MIN_EDGE; rules.DEPTH; rules.SLIPPAGE; rules.ORDER_NOTIONAL; rules.POSITION_NOTIONAL; rules.ASSET_EXPOSURE;
       rules.VENUE_EXPOSURE; rules.GROSS_EXPOSURE; rules.NET_EXPOSURE; rules.LEVERAGE; rules.HEDGE; rules.SKEW] in
  verdict (set_trips g []).

Definition evaluate_with (kind : GateKind) (i : OrderIntent) (c : RiskContext) (l : RiskLimits) (now_ms : Z) : RiskVerdict :=
  match kind with Risk => evaluate i c l now_ms | Shadow => evaluate_shadow i c l now_ms end.

(** ** Cases of the tests in the source *)

Module Cases.
Definition TSLA := "hyperliquid:xyz:TSLA".
Definition NVDA := "hyperliquid:xyz:NVDA".
Definition OPP := "xm_compare/1:hyperliquid:xyz:TSLA:hyperliquid:xyz:TSLA".
Definition NOW : Z := 1790985600000.
Definition limits : RiskLimits :=
mkRiskLimits "xmarket" ["hyperliquid"] None [TSLA; NVDA] [] (of_Z 25) (of_Z 50) (of_Z 50) (of_Z 100) (of_Z 100) (of_Z 100) one
  (of_Z 10) (of_Z 25) (of_Z 10) (of_Z 30) (of_Z 250) ["convergence"] (mkMaxAges 5000 20000 60000 20000) 5000 6 4 true.
Definition level (px : f64) (sz : Z) : L2Level := mkLevel px (of_Z sz) 1.
Definition tsla_book : L2Book :=
mkBook [level (dec 3999 (-1)) 2; level (dec 3995 (-1)) 2; level (of_Z 398) 5]
  [level (dec 4001 (-1)) 2; level (dec 4005 (-1)) 2; level (of_Z 402) 5] (NOW - 1000).
Definition nvda_book : L2Book := mkBook [level (dec 999 (-1)) 10] [level (dec 1001 (-1)) 10] (NOW - 1000).
Definition leg (id : string) (book : L2Book) (ctx_at : Z) : LegMarket :=
mkLeg (FOk (mkBookInput ("hl_book/1:" +:+ id) (NOW - 1000) book)) (FOk (mkCtxInput ("mkt_ctx/1:" +:+ id) ctx_at Open None)).
(** $100 cash; long NVDA 0.25 @ 100 marked 100. *)
Definition account : PaperPositions :=
let f := mkFill NVDA "company:nvidia" "hyperliquid" Buy (dec 25 (-2)) (of_Z 100) zero (NOW - HOUR_MS) in
build (fill_all (mkAccount "xmarket" (of_Z 100) (of_Z 100) ∅) [f]) {[NVDA := FOk (mkMark (of_Z 100) (NOW - 1000))]} NOW 20000
  (Some (of_Z 100)) None.
Definition ctx : RiskContext :=
mkContext account None (FOk false) FAbsent 0 0
  (<[TSLA := leg TSLA tsla_book (NOW - 2000)]> {[NVDA := leg NVDA nvda_book (NOW - 1000)]})
  (FOk (mkEdge OPP (NOW - 1000) 5000 (FOk (of_Z 12)) (FOk Buy) (FOk "overreaction") FAbsent)).
Definition entry : OrderIntent :=
mkIntent "xmarket" TSLA "company:tesla" Buy (dec 625 (-4)) (of_Z 25) false (Some "overreaction") None (Some OPP).
Definition exit : OrderIntent :=
mkIntent "xmarket" NVDA "company:nvidia" Sell (dec 25 (-2)) (of_Z 25) true None None None.
(** The account halted, the kill switch on, the clock past every age. *)
Definition halted_ctx : RiskContext :=
mkContext account (Some (mkHalt TotalLoss NOW)) (FOk true) FAbsent 9 0 (legs ctx) FAbsent.
End Cases.

Example gate_cases :
  (let v := evaluate Cases.entry Cases.ctx Cases.limits Cases.NOW in (allow v, v_rule v, v_class v, degraded v, length (v_checks v)))
    = (true, "ok", Entry, false, 27%nat)
  ∧ (let v := evaluate Cases.exit Cases.ctx Cases.limits Cases.NOW in (allow v, v_rule v, v_class v, degraded v)) = (true, "ok", Exit, false)
  ∧ (let v := evaluate Cases.entry Cases.halted_ctx Cases.limits Cases.NOW in (allow v, v_rule v, v_trips v)) = (false, "kill_switch", [File])
  ∧ (let v := evaluate Cases.exit Cases.halted_ctx Cases.limits (Cases.NOW + 100000) in (allow v, v_rule v, degraded v))
    = (true, "allow_reduce_degraded", true).
Proof. vm_compute. done. Qed.
