(* ===== verification/RiskProps.v ===== *)
(** * The risk gate: an order passes exactly when its table says so *)

From Stdlib Require Import Ascii String.
From S2P Require Import Prelude.
From S2P Require Import Text.
From S2P Require Import F64.
From S2P Require Import Observation.
From S2P Require Import Book.
From S2P Require Import Ledger.
From S2P Require Import Market.
From S2P Require Import Risk.

#[local] Open Scope list_scope.
#[local] Open Scope Z_scope.

(** ** Checks, one by one *)

(** No check failed so far. *)
Definition passes (g : Gate) : Prop := Forall (λ c, ck_status c ≠ Fail) (checks g).

(** What the checks read: they add to the checks, the headroom and the trips only. *)
Definition env (g : Gate) := (intent g, ctx g, limits g, now_ms g, class g, order_usd g).

Lemma passes_push g r s d : passes (push g r s d) ↔ passes g ∧ s ≠ Fail.
Proof. unfold passes, push. cbn [checks]. rewrite Forall_app, Forall_singleton. done. Qed.
Lemma passes_pass g r d : passes (pass g r d) ↔ passes g.
Proof. unfold pass. rewrite passes_push. split; [by intros []|done]. Qed.
Lemma passes_skip g r d : passes (skip g r d) ↔ passes g.
Proof. unfold skip. rewrite passes_push. split; [by intros []|done]. Qed.
Lemma passes_fail g r d : passes (fail g r d) ↔ False.
Proof. unfold fail. rewrite passes_push. split; [by intros []|done]. Qed.
Lemma passes_headroom g h : passes (set_headroom g h) ↔ passes g.
Proof. done. Qed.
Lemma passes_trips g t : passes (set_trips g t) ↔ passes g.
Proof. done. Qed.
Lemma passes_order g x : passes (set_order_usd g x) ↔ passes g.
Proof. done. Qed.
Lemma passes_degradable g r d : passes (degradable g r d) ↔ passes g ∧ is_exit g = true ∧ allow_reduce_degraded (limits g) = true.
Proof.
  unfold degradable. destruct (is_exit g), (allow_reduce_degraded (limits g)); cbn [andb];
    rewrite ?passes_push, ?passes_fail; split; intros H; (by destruct H as (? & ? & ?)) || (by destruct H) || done.
Qed.

#[local] Hint Rewrite passes_pass passes_skip passes_fail passes_headroom passes_trips passes_order passes_degradable : gate.

(** Each check adds its condition to [passes] and leaves the rest alone. *)
Definition adds (f : Gate → Gate) (P : OrderIntent → RiskContext → RiskLimits → Z → OrderClass → f64 → Prop) : Prop :=
  ∀ g, env (f g) = env g ∧
    (passes (f g) ↔ passes g ∧ P (intent g) (ctx g) (limits g) (now_ms g) (class g) (order_usd g)).

Lemma adds_comp f f' P P' : adds f P → adds f' P' → adds (λ g, f' (f g)) (λ i c l n k x, P i c l n k x ∧ P' i c l n k x).
Proof.
  intros Hf Hf' g. destruct (Hf g) as [E H], (Hf' (f g)) as [E' H']. split; [congruence|]. rewrite H', H.
  unfold env in E. injection E as -> -> -> -> -> ->. tauto.
Qed.
Lemma adds_iff f P P' : adds f P → (∀ i c l n k x, P i c l n k x ↔ P' i c l n k x) → adds f P'.
Proof. intros Hf HP g. destruct (Hf g) as [E H]. split; [done|]. by rewrite H, HP. Qed.

(** The conditions, on what the gate reads. *)
Definition row_of (i : OrderIntent) (c : RiskContext) : option PositionRow :=
  List.find (λ r, String.eqb (r_instrument r) (in_instrument i)) (rows (account c)).
Definition book_of (c : RiskContext) (id : string) : Field BookInput :=
  match legs c !! id with Some l => leg_book l | None => FAbsent end.
Definition ctx_of (c : RiskContext) (id : string) : Field CtxInput :=
  match legs c !! id with Some l => leg_ctx l | None => FAbsent end.

Definition intent_ok (i : OrderIntent) (c : RiskContext) : Prop :=
  trim (in_account i) ≠ EmptyString ∧ venue_of (in_instrument i) ≠ None ∧ trim (in_underlying i) ≠ EmptyString
  ∧ is_pos (in_qty i) = true ∧ is_pos (in_notional_usd i) = true
  ∧ (∀ h, hedge_instrument i = Some h → venue_of h ≠ None ∧ h ≠ in_instrument i)
  ∧ (∀ r, row_of i c = Some r → r_underlying r = in_underlying i).

Lemma problems_app_nil {A} (a b : list A) : a ++ b = [] ↔ a = [] ∧ b = [].
Proof. split; [apply app_eq_nil|by intros [-> ->]]. Qed.

Lemma check_intent_adds : adds check_intent (λ i c _ _ _ _, intent_ok i c).
Proof.
  intros g. unfold check_intent. destruct (intent_problems g) as [|p ps] eqn:E; (split; [done|]); autorewrite with gate.
  - assert (intent_problems g = [] → intent_ok (intent g) (ctx g)) as H; [|tauto].
    unfold intent_problems, intent_ok. rewrite !problems_app_nil. unfold intent_venue, row, row_of. intros (H1 & H2 & H3 & H4 & H5 & H6 & H7).
    repeat split.
    + by destruct (String.eqb_spec (trim (in_account (intent g))) EmptyString).
    + by case_bool_decide.
    + by destruct (String.eqb_spec (trim (in_underlying (intent g))) EmptyString).
    + by destruct (is_pos (in_qty (intent g))).
    + by destruct (is_pos (in_notional_usd (intent g))).
    + intros E'. by rewrite H, bool_decide_true in H6.
    + intros ->. rewrite H, String.eqb_refl in H6. by apply problems_app_nil in H6 as [].
    + intros r Hr. rewrite Hr in H7. by destruct (String.eqb_spec (r_underlying r) (in_underlying (intent g))).
  - split; [done|]. intros [_ (H1 & H2 & H3 & H4 & H5 & H6 & H7)].
    assert (intent_problems g = []) as E'; [|by rewrite E in E'].
    unfold intent_problems. rewrite !problems_app_nil. unfold intent_venue, row. fold (row_of (intent g) (ctx g)). repeat split.
    + by destruct (String.eqb_spec (trim (in_account (intent g))) EmptyString).
    + by rewrite bool_decide_false.
    + by destruct (String.eqb_spec (trim (in_underlying (intent g))) EmptyString).
    + by rewrite H4.
    + by rewrite H5.
    + destruct (hedge_instrument (intent g)) as [h|]; [|done]. destruct (H6 h eq_refl) as [Hv Hn].
      rewrite bool_decide_false by done. by destruct (String.eqb_spec h (in_instrument (intent g))).
    + destruct (row_of (intent g) (ctx g)) as [r|]; [|done]. by rewrite (H7 r eq_refl), String.eqb_refl.
Qed.

Lemma check_account_adds : adds check_account (λ i _ l _ _ _, in_account i = l_account l).
Proof.
  intros g. unfold check_account. destruct (String.eqb_spec (in_account (intent g)) (l_account (limits g)));
    (split; [done|]); autorewrite with gate; tauto.
Qed.

(** A check that an exit may pass degraded. *)
Definition or_degraded (P : Prop) (l : RiskLimits) (k : OrderClass) : Prop := P ∨ k = Exit ∧ allow_reduce_degraded l = true.
Lemma is_exit_iff g : is_exit g = true ↔ class g = Exit.
Proof. unfold is_exit. apply bool_decide_eq_true. Qed.
Lemma env_degradable g r d : env (degradable g r d) = env g.
Proof. unfold degradable. by destruct (_ && _). Qed.

Lemma check_kill_switch_adds : adds check_kill_switch (λ _ c l _ k _, or_degraded (kill_switch c = FOk false) l k).
Proof.
  intros g. unfold check_kill_switch, or_degraded. destruct (kill_switch (ctx g)) as [[]| |e]; (split; [by rewrite ?env_degradable|]);
    autorewrite with gate; rewrite ?is_exit_iff; cbn; intuition congruence.
Qed.
Lemma check_halted_adds : adds check_halted (λ _ c l _ k _, or_degraded (halt c = None) l k).
Proof.
  intros g. unfold check_halted, or_degraded. destruct (halt (ctx g)) as [h|]; (split; [by rewrite ?env_degradable|]);
    autorewrite with gate; rewrite ?is_exit_iff; intuition congruence.
Qed.
Lemma check_reduce_only_adds b : adds (λ g, check_reduce_only g b) (λ i _ _ _ _ _, reduce_only i = true → b = true).
Proof.
  intros g. unfold check_reduce_only. destruct (reduce_only (intent g)) eqn:E, b; cbn [negb]; (split; [done|]);
    autorewrite with gate; intuition congruence.
Qed.

Definition permitted (l : RiskLimits) (id : string) : Prop := id ∈ instruments_allow l ∧ id ∉ instruments_deny l.
Definition venue_permitted (l : RiskLimits) (id : string) : Prop := ∃ v, venue_of id = Some v ∧ v ∈ venues l.

Lemma existsb_eqb s l : existsb (String.eqb s) l = true ↔ s ∈ l.
Proof.
  rewrite existsb_exists, list_elem_of_In. split; [by intros (x & Hx & ->%String.eqb_eq)|]. intros H. exists s. by rewrite String.eqb_refl.
Qed.
Lemma permission_error_none l id : permission_error l id = None ↔ permitted l id.
Proof.
  unfold permission_error, permitted. rewrite <-!existsb_eqb.
  destruct (existsb (String.eqb id) (instruments_deny l)), (existsb (String.eqb id) (instruments_allow l)); cbn; intuition congruence.
Qed.
Lemma check_venue_adds : adds check_venue (λ i _ l _ _ _, venue_permitted l (in_instrument i)).
Proof.
  intros g. unfold check_venue, venue_permitted, intent_venue. destruct (venue_of (in_instrument (intent g))) as [v|].
  - destruct (existsb (String.eqb v) (venues (limits g))) eqn:E; (split; [done|]); autorewrite with gate.
    + apply existsb_eqb in E. split; [intros H; split; [done|by exists v]|tauto].
    + split; [done|]. intros [_ (v' & [= <-] & Hin)]. apply existsb_eqb in Hin. congruence.
  - split; [done|]. autorewrite with gate. split; [done|]. by intros [_ (v & ? & _)].
Qed.
Lemma check_permission_adds : adds check_permission
  (λ i _ l _ k _, k = Exit ∨ venue_permitted l (in_instrument i) ∧ permitted l (in_instrument i)).
Proof.
  intros g. unfold check_permission. destruct (is_exit g) eqn:Ex.
  - apply is_exit_iff in Ex. split; [done|]. autorewrite with gate. tauto.
  - assert (class g ≠ Exit) as Hk by (rewrite <-is_exit_iff; congruence).
    destruct (check_venue_adds g) as [E H]. unfold env in E. injection E as Ei Ec El En Ek Ex'. rewrite Ei, El.
    pose proof (permission_error_none (limits g) (in_instrument (intent g))) as Hp.
    destruct (permission_error _ _) as [w|]; (split; [unfold env, pass, fail, push; cbn; congruence|]); autorewrite with gate; rewrite ?H.
    + split; [done|]. intros [_ [?|[_ Hq]]]; [done|]. by apply Hp in Hq.
    + intuition congruence.
Qed.

Definition lifecycle_ok (c : RiskContext) (l : RiskLimits) : Prop :=
  ∀ min, min_lifecycle l = Some min → ∃ v, lifecycle c = FOk v ∧ (lifecycle_rank min ≤ lifecycle_rank v)%nat.
Lemma check_lifecycle_adds : adds check_lifecycle (λ _ c l _ k _, k = Exit ∨ lifecycle_ok c l).
Proof.
  intros g. unfold check_lifecycle, lifecycle_ok. destruct (min_lifecycle (limits g)) as [m|].
  2: { split; [done|]. autorewrite with gate. split; [intros; split; [done|right]; done|tauto]. }
  destruct (is_exit g) eqn:Ex.
  { apply is_exit_iff in Ex. split; [done|]. autorewrite with gate. tauto. }
  assert (class g ≠ Exit) as Hk by (rewrite <-is_exit_iff; congruence).
  destruct (lifecycle (ctx g)) as [v| |e].
  - unfold lifecycle_geb. destruct (Nat.leb_spec (lifecycle_rank m) (lifecycle_rank v)); (split; [done|]); autorewrite with gate.
    + split; [intros Hg; split; [done|right; intros ? [= <-]; by exists v]|tauto].
    + split; [done|]. intros [_ [?|Hm]]; [done|]. destruct (Hm m eq_refl) as (v' & [= <-] & ?). lia.
  - split; [done|]. autorewrite with gate. split; [done|]. intros [_ [?|Hm]]; [done|]. by destruct (Hm m eq_refl) as (v' & ? & ?).
  - split; [done|]. autorewrite with gate. split; [done|]. intros [_ [?|Hm]]; [done|]. by destruct (Hm m eq_refl) as (v' & ? & ?).
Qed.

(** The losses of the valued account. *)
Definition daily_ok (c : RiskContext) (l : RiskLimits) : Prop :=
  ∃ v, daily_pnl_usd (account c) = FOk v ∧ within_max (- v)%f64 (daily_loss_limit_usd l) = true.
Definition total_ok (c : RiskContext) (l : RiskLimits) : Prop :=
  ∃ v, equity_usd (account c) = FOk v ∧ within_max (initial_cash_usd (account c) - v)%f64 (total_loss_limit_usd l) = true.

Lemma breach_daily s l : DailyLoss ∈ breaches s l ↔ over (daily_loss_usd s) (daily_loss_limit_usd l) = true.
Proof.
  unfold breaches. rewrite elem_of_app. destruct (over (total_loss_usd s) _), (over (daily_loss_usd s) _);
    rewrite ?list_elem_of_singleton, ?elem_of_nil; split; intros H; try done; try (by destruct H); by right || by destruct H.
Qed.
Lemma breach_total s l : TotalLoss ∈ breaches s l ↔ over (total_loss_usd s) (total_loss_limit_usd l) = true.
Proof.
  unfold breaches. rewrite elem_of_app. destruct (over (total_loss_usd s) _), (over (daily_loss_usd s) _);
    rewrite ?list_elem_of_singleton, ?elem_of_nil; split; intros H; try done; try (by destruct H); by left || by destruct H.
Qed.
Lemma breaches_of s l r : r ∈ breaches s l → r = DailyLoss ∨ r = TotalLoss.
Proof.
  unfold breaches. rewrite elem_of_app. intros [H|H].
  - destruct (over _ _); [apply list_elem_of_singleton in H; by right|by apply elem_of_nil in H].
  - destruct (over _ _); [apply list_elem_of_singleton in H; by left|by apply elem_of_nil in H].
Qed.

Lemma check_loss_adds r : r = DailyLoss ∨ r = TotalLoss →
  ∀ g, let b := breaches (loss_of (account (ctx g))) (limits g) in
  env (check_loss b g r) = env g ∧
  (passes (check_loss b g r) ↔ passes g ∧ (class g = Exit ∨ match r with DailyLoss => daily_ok (ctx g) (limits g) | _ => total_ok (ctx g) (limits g) end)).
Proof.
  intros Hr g b. unfold check_loss, daily_ok, total_ok.
  assert (∀ (f : Field f64) lim room (rl : string) (P : Prop), (r ∈ b ↔ over f lim = true) →
    (P ↔ ∃ v, f = FOk v ∧ within_max v lim = true) →
    let g' := match f with
      | FOk v => let g := set_headroom g (room (lim - v)%f64) in
          let detail := ("loss " +:+ show v +:+ " USD, limit " +:+ show lim +:+ " USD")%string in
          if negb (bool_decide (r ∈ b)) then pass g rl detail
          else if is_exit g then pass g rl (detail +:+ " — breached (exit: not gated)")%string
          else fail g rl (detail +:+ " — breached, halts entries")%string
      | other =>
          let '(code, detail) := match other with
            | FAbsent => if bool_decide (r = DailyLoss) then (missing "day_start_equity", "no day-start equity yet"%string)
                         else (missing "equity", "no equity"%string)
            | _ => let e := read_error other "equity" in (missing_of e, describe e) end in
          if is_exit g then skip g rl ("exit: not gated (" +:+ code +:+ ": " +:+ detail +:+ ")")%string else fail g code detail
      end in
    env g' = env g ∧ (passes g' ↔ passes g ∧ (class g = Exit ∨ P))) as H.
  { intros f lim room rl P Hb HP g'. rewrite HP. unfold g'. clear g' HP. rewrite <-is_exit_iff. destruct f as [v| |e].
    - cbn zeta. change (is_exit (set_headroom g (room (lim - v)%f64))) with (is_exit g). unfold over in Hb. cbn [value] in Hb.
      destruct (within_max v lim) eqn:Ew; cbn [negb] in Hb.
      + rewrite bool_decide_false by (intros Hin; by apply Hb in Hin). cbn [negb]. split; [done|]. autorewrite with gate.
        split; [intros Hg; split; [done|right; by exists v]|tauto].
      + rewrite bool_decide_true by (by apply Hb). cbn [negb]. destruct (is_exit g) eqn:Ex; (split; [done|]); autorewrite with gate; [tauto|].
        split; [done|]. intros [_ [?|(v' & [= <-] & ?)]]; congruence.
    - destruct (bool_decide (r = DailyLoss)), (is_exit g) eqn:Ex; (split; [done|]); autorewrite with gate; try tauto;
        (split; [done|]); intros [_ [?|(v' & ? & ?)]]; congruence.
    - destruct (is_exit g) eqn:Ex; (split; [done|]); autorewrite with gate; try tauto.
      split; [done|]. intros [_ [?|(v' & ? & ?)]]; congruence. }
  destruct Hr as [-> | ->].
  - apply (H (daily_loss_usd (loss_of (account (ctx g)))) (daily_loss_limit_usd (limits g)) set_daily rules.DAILY_LOSS); [apply breach_daily|].
    unfold loss_of. cbn [daily_loss_usd]. destruct (daily_pnl_usd (account (ctx g))) as [v| |e]; split.
    + intros (x & [= <-] & ?). by eexists.
    + intros (x & [= <-] & ?). by exists v.
    + by intros (? & ? & _).
    + by intros (? & ? & _).
    + by intros (? & ? & _).
    + by intros (? & ? & _).
  - apply (H (total_loss_usd (loss_of (account (ctx g)))) (total_loss_limit_usd (limits g)) set_total rules.TOTAL_LOSS); [apply breach_total|].
    unfold loss_of. cbn [total_loss_usd]. destruct (equity_usd (account (ctx g))) as [v| |e]; split.
    + intros (x & [= <-] & ?). by eexists.
    + intros (x & [= <-] & ?). by exists v.
    + by intros (? & ? & _).
    + by intros (? & ? & _).
    + by intros (? & ? & _).
    + by intros (? & ? & _).
Qed.
Lemma check_losses_adds b : adds (λ g, check_losses g b) (λ _ c l _ k _, k = Exit ∨ daily_ok c l ∧ total_ok c l).
Proof.
  intros g. unfold check_losses. cbn [fold_left].
  set (g1 := if b then g else _). assert (env g1 = env g ∧ (passes g1 ↔ passes g)) as [E1 H1] by (unfold g1; by destruct b).
  unfold env in E1. injection E1 as Ei Ec El En Ek Eo. rewrite <-Ec, <-El.
  destruct (check_loss_adds DailyLoss ltac:(by left) g1) as [E2 H2].
  set (g2 := check_loss _ g1 DailyLoss) in *. unfold env in E2. injection E2 as Fi Fc Fl Fn Fk Fo.
  destruct (check_loss_adds TotalLoss ltac:(by right) g2) as [E3 H3]. rewrite Fc, Fl in E3, H3. split.
  - rewrite E3. unfold env. congruence.
  - rewrite H3, H2, H1, Fk, Ek. cbn iota. tauto.
Qed.

Lemma check_order_rate_adds : adds check_order_rate (λ _ c l _ k _, k = Exit ∨ orders_last_min c < max_orders_per_min l).
Proof.
  intros g. unfold check_order_rate. destruct (is_exit g) eqn:Ex.
  - apply is_exit_iff in Ex. split; [done|]. autorewrite with gate. tauto.
  - assert (class g ≠ Exit) as Hk by (rewrite <-is_exit_iff; congruence).
    destruct (Z.ltb_spec (orders_last_min (ctx g)) (max_orders_per_min (limits g))); (split; [done|]); autorewrite with gate;
      [tauto|]. split; [done|]. intros [_ [?|?]]; [done|lia].
Qed.
Lemma check_open_orders_adds : adds check_open_orders (λ _ c l _ _ _, open_orders c < max_open_orders l).
Proof.
  intros g. unfold check_open_orders. destruct (Z.ltb_spec (open_orders (ctx g)) (max_open_orders (limits g)));
    (split; [done|]); autorewrite with gate; [tauto|]. split; [done|]. intros [_ ?]. lia.
Qed.

(** A row with an age no older than [max]. *)
Definition aged (age : option Z) (max : Z) : Prop := ∃ a, age = Some a ∧ a ≤ max.
Definition book_fresh (c : RiskContext) (l : RiskLimits) (now : Z) (id : string) : Prop :=
  ∃ b, book_of c id = FOk b ∧ aged (book_age b now) (ma_book (max_data_age_ms l)).
Definition ctx_fresh (c : RiskContext) (l : RiskLimits) (now : Z) (id : string) : Prop :=
  ∃ x, ctx_of c id = FOk x ∧ aged (ctx_age x now) (ma_ctx (max_data_age_ms l)).

Lemma check_age_adds g rule key age max stamp :
  env (check_age g rule key age max stamp) = env g ∧
  (passes (check_age g rule key age max stamp) ↔ passes g ∧ or_degraded (aged age max) (limits g) (class g)).
Proof.
  unfold check_age, or_degraded, aged. destruct age as [a|].
  - destruct (Z.leb_spec a max); (split; [by rewrite ?env_degradable|]); autorewrite with gate; rewrite ?is_exit_iff.
    + split; [intros; split; [done|left; by exists a]|tauto].
    + split; [tauto|]. intros [? [(a' & [= <-] & ?)|?]]; [lia|tauto].
  - split; [by rewrite ?env_degradable|]. autorewrite with gate. rewrite is_exit_iff. split; [tauto|].
    intros [? [(a' & ? & ?)|?]]; [done|tauto].
Qed.
Lemma leg_book_eq g id : leg_book_of g id = book_of (ctx g) id.
Proof. done. Qed.
Lemma leg_ctx_eq g id : leg_ctx_of g id = ctx_of (ctx g) id.
Proof. done. Qed.

Lemma degraded_no (P : Prop) l k : ¬ P → or_degraded P l k ↔ k = Exit ∧ allow_reduce_degraded l = true.
Proof. unfold or_degraded. tauto. Qed.

Lemma check_book_age_adds : adds check_book_age (λ i c l n k _, or_degraded (book_fresh c l n (in_instrument i)) l k).
Proof.
  intros g. unfold check_book_age. rewrite leg_book_eq. unfold book_fresh. destruct (book_of _ _) as [b| |e].
  - destruct (check_age_adds g rules.BOOK_AGE (b_key b) (book_age b (now_ms g)) (ma_book (max_data_age_ms (limits g))) (stamp_ms b)) as [E H].
    split; [done|]. rewrite H. unfold or_degraded. split; [intros [? [?|?]]; split; [done|left; by exists b|done|by right]|].
    intros [? [(b' & [= <-] & ?)|?]]; split; [done|by left|done|by right].
  - split; [by rewrite ?env_degradable|]. autorewrite with gate. rewrite is_exit_iff, degraded_no by (by intros (? & ? & ?)). tauto.
  - split; [by rewrite ?env_degradable|]. autorewrite with gate. rewrite is_exit_iff, degraded_no by (by intros (? & ? & ?)). tauto.
Qed.
Lemma check_ctx_age_adds : adds check_ctx_age (λ i c l n k _, or_degraded (ctx_fresh c l n (in_instrument i)) l k).
Proof.
  intros g. unfold check_ctx_age. rewrite leg_ctx_eq. unfold ctx_fresh. destruct (ctx_of _ _) as [b| |e].
  - destruct (check_age_adds g rules.CTX_AGE (x_key b) (ctx_age b (now_ms g)) (ma_ctx (max_data_age_ms (limits g))) (x_observed_at_ms b)) as [E H].
    split; [done|]. rewrite H. unfold or_degraded. split; [intros [? [?|?]]; split; [done|left; by exists b|done|by right]|].
    intros [? [(b' & [= <-] & ?)|?]]; split; [done|by left|done|by right].
  - split; [by rewrite ?env_degradable|]. autorewrite with gate. rewrite is_exit_iff, degraded_no by (by intros (? & ? & ?)). tauto.
  - split; [by rewrite ?env_degradable|]. autorewrite with gate. rewrite is_exit_iff, degraded_no by (by intros (? & ? & ?)). tauto.
Qed.

(** ** Market status, edge and liquidity *)

(** The market takes an order that grows the position by [growth]. *)
Definition market_takes (x : CtxInput) (growth : option f64) : Prop :=
  (status x = Open ∨ (status x = AtOiCap ∨ status x = OiCapUnknown) ∧ grows growth = false)
  ∧ (grows growth = true → ∀ room, oi_cap_headroom_usd x = Some room → ∃ g, growth = Some g ∧ within_max g room = true).

Lemma status_verdict_spec id x growth : fst (status_verdict id x growth) = true ↔ market_takes x growth.
Proof.
  unfold status_verdict, market_takes.
  set (ok := bool_decide (status x = Open) || _).
  assert (ok = true ↔ status x = Open ∨ (status x = AtOiCap ∨ status x = OiCapUnknown) ∧ grows growth = false) as Hok.
  { unfold ok. rewrite orb_true_iff, andb_true_iff, orb_true_iff, !bool_decide_eq_true, negb_true_iff. done. }
  rewrite <-Hok. destruct ok.
  - destruct (grows growth); [|cbn; intuition congruence].
    destruct (oi_cap_headroom_usd x) as [room|]; [|cbn; intuition congruence].
    destruct growth as [gr|]; cbn [fst].
    + split; [intros Hw; split; [done|intros _ ? [= <-]; by exists gr]|].
      intros [_ H]. by destruct (H eq_refl room eq_refl) as (g' & [= <-] & ?).
    + split; [done|]. intros [_ H]. by destruct (H eq_refl room eq_refl) as (g' & ? & ?).
  - split; [done|by intros []].
Qed.
Lemma verdict_on_adds g r v : env (verdict_on g r v) = env g ∧ (passes (verdict_on g r v) ↔ passes g ∧ fst v = true).
Proof. unfold verdict_on. destruct (fst v); (split; [done|]); autorewrite with gate; intuition congruence. Qed.

(** What [check_market_status] asks of the market. *)
Definition market_open (c : RiskContext) (id : string) (growth : option f64) : Prop :=
  ∃ x, ctx_of c id = FOk x ∧ market_takes x growth.
Lemma check_market_status_adds growth : adds (λ g, check_market_status g growth)
  (λ i c _ _ k _, k = Exit ∨ market_open c (in_instrument i) growth).
Proof.
  intros g. unfold check_market_status, market_open. destruct (is_exit g) eqn:Ex.
  { apply is_exit_iff in Ex. split; [done|]. autorewrite with gate. tauto. }
  assert (class g ≠ Exit) as Hk by (rewrite <-is_exit_iff; congruence). rewrite leg_ctx_eq.
  assert (∀ r d (Q : Prop), ¬ Q → passes (fail g r d) ↔ passes g ∧ (class g = Exit ∨ Q)) as Hno.
  { intros r d Q HQ. autorewrite with gate. tauto. }
  destruct (ctx_of _ _) as [x| |e]; [|split; [done|apply Hno; by intros (? & ? & _)]..].
  assert ((∃ x', FOk x = FOk x' ∧ market_takes x' growth) ↔ market_takes x growth) as ->.
  { split; [by intros (x' & [= <-] & ?)|by exists x]. }
  destruct (bool_decide (status x = OiCapUnknown) && grows growth) eqn:Eu.
  { apply andb_true_iff in Eu as [Es%bool_decide_eq_true Eg]. split; [done|]. apply Hno. unfold market_takes. rewrite Es, Eg.
    intros [[?|[_ ?]] _]; done. }
  rewrite <-(status_verdict_spec (in_instrument (intent g))).
  destruct (verdict_on_adds g rules.MARKET_STATUS (status_verdict (in_instrument (intent g)) x growth)) as [E H].
  unfold verdict_on in E, H. destruct (status_verdict _ _ _) as [b d]. cbn [fst snd] in *. split; [done|]. rewrite H. tauto.
Qed.

(** ** The opportunity *)

(** The order's opportunity row is about it, fresh, and backs it. *)
Definition backed (i : OrderIntent) (c : RiskContext) (l : RiskLimits) (now : Z) (usd : f64) : Prop :=
  ∃ key o age,
    opportunity_key i = Some key ∧ key_names key (in_instrument i) = true ∧ opportunity c = FOk o ∧ ed_key o = key
    ∧ stamp_age_ms now (ed_observed_at_ms o) = Some age ∧ ed_ttl_ms o ≠ 0 ∧ age ≤ ed_ttl_ms o
    ∧ ed_side o = FOk (in_side i) ∧ (∀ want, in_strategy i = Some want → ed_strategy o = FOk want)
    ∧ (∃ e, edge_after_costs_bps o = FOk e ∧ at_least e (min_edge_bps l) = true)
    ∧ (ed_max_notional_usd o = FAbsent ∨ ∃ max, ed_max_notional_usd o = FOk max ∧ within_max usd max = true).

Definition backs_spec (g : Gate) (o : EdgeInput) : Prop :=
  ed_side o = FOk (in_side (intent g)) ∧ (∀ want, in_strategy (intent g) = Some want → ed_strategy o = FOk want)
  ∧ (∃ e, edge_after_costs_bps o = FOk e ∧ at_least e (min_edge_bps (limits g)) = true)
  ∧ (ed_max_notional_usd o = FAbsent ∨ ∃ max, ed_max_notional_usd o = FOk max ∧ within_max (order_usd g) max = true).

Lemma backs_side_iff i key o : backs_side i key o = Ok tt ↔ ed_side o = FOk (in_side i).
Proof. unfold backs_side. destruct (ed_side o) as [s| |e]; [case_bool_decide|..]; (split; intros ?; congruence). Qed.
Lemma backs_strategy_iff i key o :
  backs_strategy i key o = Ok tt ↔ ∀ want, in_strategy i = Some want → ed_strategy o = FOk want.
Proof.
  unfold backs_strategy. destruct (in_strategy i) as [w|]; [|done]. destruct (ed_strategy o) as [v| |e].
  - destruct (String.eqb_spec v w) as [->|Hn]; split; [by intros _ ? [= ->]|done|done|]. intros H. specialize (H w eq_refl). congruence.
  - split; [done|]. intros H. by specialize (H w eq_refl).
  - split; [done|]. intros H. by specialize (H w eq_refl).
Qed.
Lemma backs_iff g key o : (∃ d, backs g key o = Ok d) ↔ backs_spec g o.
Proof.
  unfold backs, backs_spec. rewrite <-(backs_side_iff (intent g) key o), <-(backs_strategy_iff (intent g) key o).
  destruct (backs_side _ _ _) as [[]|e]; [|split; [by intros []|by intros []]].
  destruct (backs_strategy _ _ _) as [[]|e]; [|split; [by intros []|by intros (_ & ? & _)]].
  destruct (edge_after_costs_bps o) as [e| |e];
    [|split; [by intros []|by intros (_ & _ & (? & ? & _) & _)]..].
  destruct (at_least e _) eqn:Ea; cbn [negb].
  2: { split; [by intros []|]. intros (_ & _ & (? & [= <-] & ?) & _). congruence. }
  destruct (ed_max_notional_usd o) as [m| |er].
  - destruct (within_max _ m) eqn:Ew; cbn [negb].
    + split; [intros _|eauto]. split_and!; eauto.
    + split; [by intros []|]. intros (_ & _ & _ & [?|(? & [= <-] & ?)]); congruence.
  - split; [intros _|eauto]. split_and!; eauto.
  - split; [by intros []|]. intros (_ & _ & _ & [?|(? & ? & ?)]); congruence.
Qed.

Lemma check_min_edge_adds : adds check_min_edge (λ i c l n k x, k = Exit ∨ backed i c l n x).
Proof.
  intros g. unfold check_min_edge. destruct (is_exit g) eqn:Ex.
  { apply is_exit_iff in Ex. split; [done|]. autorewrite with gate. tauto. }
  assert (class g ≠ Exit) as Hk by (rewrite <-is_exit_iff; congruence).
  assert (∀ r d, ¬ backed (intent g) (ctx g) (limits g) (now_ms g) (order_usd g) →
    env (fail g r d) = env g ∧ (passes (fail g r d) ↔ passes g ∧ (class g = Exit ∨ backed (intent g) (ctx g) (limits g) (now_ms g) (order_usd g)))) as Hno.
  { intros r d Hn. split; [done|]. autorewrite with gate. tauto. }
  unfold backed in *. destruct (opportunity_key (intent g)) as [key|]; [|apply Hno; by intros (? & ? & ? & ? & _)].
  destruct (key_names key _) eqn:Ekn; cbn [negb]; [|apply Hno; intros (? & ? & ? & [= <-] & ? & _); congruence].
  destruct (opportunity (ctx g)) as [o| |e]; [|apply Hno; by intros (? & ? & ? & _ & _ & ? & _)..].
  destruct (String.eqb_spec (ed_key o) key) as [Eo|]; cbn [negb];
    [|apply Hno; intros (? & ? & ? & [= <-] & _ & [= <-] & ? & _); congruence].
  destruct (stamp_age_ms _ _) as [age|] eqn:Eage;
    [|apply Hno; intros (? & ? & ? & [= <-] & _ & [= <-] & _ & ? & _); congruence].
  destruct ((ed_ttl_ms o =? 0) || (ed_ttl_ms o <? age)) eqn:Et.
  { apply Hno. intros (? & ? & ? & [= <-] & _ & [= <-] & _ & Ha & ? & ? & _). rewrite Eage in Ha. injection Ha as <-. lia. }
  pose proof (backs_iff g key o) as Hb. unfold backs_spec in Hb.
  destruct (backs g key o) as [d|[code d]].
  - split; [done|]. autorewrite with gate. split; [|tauto]. intros Hg. split; [done|right].
    exists key, o, age. destruct (proj1 Hb) as (? & ? & ? & ?); [eauto|]. split_and!; try done; lia.
  - apply Hno. intros (? & ? & ? & [= <-] & _ & [= <-] & _ & _ & _ & _ & ? & ? & ? & ?).
    destruct (proj2 Hb) as [? ?]; [split_and!; done|done].
Qed.

(** ** Liquidity *)

Definition deep (l : RiskLimits) (b : BookInput) (s : Side) : Prop :=
  ∃ d, depth_within (book b) (max_slippage_bps l) = Ok d ∧ at_least (for_taker d s) (min_depth_usd l) = true.
Definition fills (l : RiskLimits) (b : BookInput) (s : Side) (usd : f64) : Prop :=
  ∃ w slip, walk_book (book b) s (Notional usd) None = Ok w ∧ is_complete w = true
    ∧ slippage_bps_vs_mid w = Some slip ∧ within_max slip (max_slippage_bps l) = true.

Lemma depth_ok_iff l id b s : fst (depth_ok l id b s) = true ↔ deep l b s.
Proof.
  unfold depth_ok, deep. destruct (depth_within _ _) as [d|e]; cbn [fst].
  - split; [eauto|]. by intros (? & [= <-] & ?).
  - split; [done|]. by intros (? & ? & _).
Qed.
Lemma slippage_ok_iff l id b s x : fst (slippage_ok l id b s x) = true ↔ fills l b s x.
Proof.
  unfold slippage_ok, fills. destruct (walk_book _ _ _ _) as [w|e]; [|split; [done|by intros (? & ? & ? & _)]].
  destruct (is_complete w) eqn:Ec; cbn [negb].
  2: { split; [done|]. intros (? & ? & [= <-] & ? & _). congruence. }
  destruct (slippage_bps_vs_mid w) as [p|] eqn:Ep; cbn [fst].
  - split; [intros ?; by exists w, p|]. intros (? & ? & [= <-] & _ & E & ?). congruence.
  - split; [done|]. intros (? & ? & [= <-] & _ & E & ?). congruence.
Qed.
Definition liquid (c : RiskContext) (l : RiskLimits) (id : string) (s : Side) (usd : f64) : Prop :=
  ∃ b, book_of c id = FOk b ∧ deep l b s ∧ fills l b s usd.

Lemma check_liquidity_adds : adds check_liquidity
  (λ i c l _ k x, k = Exit ∨ liquid c l (in_instrument i) (in_side i) x).
Proof.
  intros g. unfold check_liquidity. destruct (is_exit g) eqn:Ex.
  { apply is_exit_iff in Ex. split; [done|]. autorewrite with gate. tauto. }
  assert (class g ≠ Exit) as Hk by (rewrite <-is_exit_iff; congruence). rewrite leg_book_eq. unfold liquid.
  destruct (book_of _ _) as [b| |e];
    [|split; [done|]; autorewrite with gate; split; [done|]; intros [_ [?|(? & ? & _)]]; done..].
  cbv zeta. set (g1 := verdict_on g _ _).
  destruct (verdict_on_adds g rules.DEPTH (depth_ok (limits g) (in_instrument (intent g)) b (in_side (intent g)))) as [E1 H1].
  fold g1 in E1, H1.
  destruct (verdict_on_adds g1 rules.SLIPPAGE (slippage_ok (limits g) (in_instrument (intent g)) b (in_side (intent g)) (order_usd g)))
    as [E2 H2].
  split; [congruence|]. rewrite H2, H1, depth_ok_iff, slippage_ok_iff. split.
  - intros [[? ?] ?]. split; [done|right; by exists b].
  - intros [? [?|(? & [= <-] & ? & ?)]]; done.
Qed.

(** ** Exposure *)

Lemma capped_adds g r v lim what room :
  env (capped g r v lim what room) = env g ∧ (passes (capped g r v lim what room) ↔ passes g ∧ within_max v lim = true).
Proof. unfold capped, cap. destruct (within_max v lim); (split; [done|]); autorewrite with gate; intuition congruence. Qed.

(** The caps on what the account holds after the order, [a]. *)
Definition asset_capped (i : OrderIntent) (c : RiskContext) (l : RiskLimits) (a : After) : Prop :=
  ∃ e, group (by_underlying (account c)) (in_underlying i) = FOk e
    ∧ within_max (SFabs (net_usd e + delta a))%f64 (max_asset_exposure_usd l) = true.
Definition venue_capped (i : OrderIntent) (c : RiskContext) (l : RiskLimits) (a : After) : Prop :=
  ∃ e, group (by_venue (account c)) (default EmptyString (intent_venue i)) = FOk e
    ∧ within_max (gross_after e a) (max_venue_exposure_usd l) = true.
Definition totals_capped (c : RiskContext) (l : RiskLimits) (a : After) : Prop :=
  ∃ e eq, exposure (account c) = FOk e ∧ within_max (gross_after e a) (max_gross_exposure_usd l) = true
    ∧ within_max (SFabs (net_usd e + delta a))%f64 (max_net_exposure_usd l) = true
    ∧ equity_usd (account c) = FOk eq ∧ (eq >? zero)%f64 = true ∧ within_max (gross_after e a / eq)%f64 (l_max_leverage l) = true.

Lemma check_asset_adds g a :
  env (check_asset g a) = env g ∧ (passes (check_asset g a) ↔ passes g ∧ asset_capped (intent g) (ctx g) (limits g) a).
Proof.
  unfold check_asset, asset_capped. destruct (group _ _) as [e| |e].
  - destruct (capped_adds g rules.ASSET_EXPOSURE (SFabs (net_usd e + delta a))%f64 (max_asset_exposure_usd (limits g))
      ("net " +:+ in_underlying (intent g))%string with_asset) as [E H].
    split; [done|]. rewrite H. split; [intros []; split; [done|by exists e]|]. by intros [? (? & [= <-] & ?)].
  - split; [done|]. autorewrite with gate. split; [done|]. by intros [_ (? & ? & _)].
  - split; [done|]. autorewrite with gate. split; [done|]. by intros [_ (? & ? & _)].
Qed.
Lemma check_venue_exposure_adds g a :
  env (check_venue_exposure g a) = env g
  ∧ (passes (check_venue_exposure g a) ↔ passes g ∧ venue_capped (intent g) (ctx g) (limits g) a).
Proof.
  unfold check_venue_exposure, venue_capped. destruct (group _ _) as [e| |e].
  - destruct (capped_adds g rules.VENUE_EXPOSURE (gross_after e a) (max_venue_exposure_usd (limits g))
      ("gross " +:+ default EmptyString (intent_venue (intent g)))%string with_venue) as [E H].
    split; [done|]. rewrite H. split; [intros []; split; [done|by exists e]|]. by intros [? (? & [= <-] & ?)].
  - split; [done|]. autorewrite with gate. split; [done|]. by intros [_ (? & ? & _)].
  - split; [done|]. autorewrite with gate. split; [done|]. by intros [_ (? & ? & _)].
Qed.
Lemma check_leverage_adds g gross :
  env (check_leverage g gross) = env g ∧ (passes (check_leverage g gross) ↔ passes g ∧
    ∃ eq, equity_usd (account (ctx g)) = FOk eq ∧ (eq >? zero)%f64 = true ∧ within_max (gross / eq)%f64 (l_max_leverage (limits g)) = true).
Proof.
  unfold check_leverage. destruct (equity_usd _) as [eq| |e].
  - destruct (eq >? zero)%f64 eqn:E0.
    + cbv zeta. change (limits (set_headroom g ?h)) with (limits g).
      destruct (within_max _ _) eqn:Ew; (split; [done|]); autorewrite with gate.
      * split; [intros; split; [done|by exists eq]|tauto].
      * split; [done|]. intros [_ (? & [= <-] & _ & ?)]. congruence.
    + split; [done|]. autorewrite with gate. split; [done|]. intros [_ (? & [= <-] & ? & ?)]. congruence.
  - split; [done|]. autorewrite with gate. split; [done|]. by intros [_ (? & ? & _)].
  - split; [done|]. autorewrite with gate. split; [done|]. by intros [_ (? & ? & _)].
Qed.
Lemma check_totals_adds g a :
  env (check_totals g a) = env g ∧ (passes (check_totals g a) ↔ passes g ∧ totals_capped (ctx g) (limits g) a).
Proof.
  unfold check_totals, totals_capped. destruct (exposure _) as [e| |e].
  2-3: cbn [fold_left]; split; [done|]; autorewrite with gate; split; [done|]; by intros [_ (? & ? & ? & _)].
  cbv zeta. set (g1 := capped g _ _ _ _ _).
  destruct (capped_adds g rules.GROSS_EXPOSURE (gross_after e a) (max_gross_exposure_usd (limits g)) "gross"%string with_gross) as [E1 H1].
  fold g1 in E1, H1. set (g2 := capped g1 _ _ _ _ _).
  destruct (capped_adds g1 rules.NET_EXPOSURE (SFabs (net_usd e + delta a))%f64 (max_net_exposure_usd (limits g1)) "net"%string with_net)
    as [E2 H2].
  fold g2 in E2, H2. destruct (check_leverage_adds g2 (gross_after e a)) as [E3 H3].
  assert (ctx g2 = ctx g ∧ limits g2 = limits g ∧ limits g1 = limits g) as (Ec & El & El1).
  { rewrite E1 in E2. unfold env in E1, E2. split_and!; congruence. }
  split; [congruence|]. rewrite H3, H2, H1, Ec, El, El1. split.
  - intros [[[? ?] ?] (eq & ? & ? & ?)]. split; [done|]. by exists e, eq.
  - intros [? (? & eq & [= <-] & ? & ? & ? & ? & ?)]. split; [done|]. by exists eq.
Qed.

(** Every cap on an order worth [usd] that leads to [a]. *)
Definition capped_after (i : OrderIntent) (c : RiskContext) (l : RiskLimits) (usd : f64) (a : After) : Prop :=
  within_max usd (max_order_notional_usd l) = true ∧ within_max (SFabs (pos_after a)) (max_position_notional_usd l) = true
  ∧ asset_capped i c l a ∧ venue_capped i c l a ∧ totals_capped c l a.

Lemma env_reads g g' : env g' = env g → intent g' = intent g ∧ ctx g' = ctx g ∧ limits g' = limits g.
Proof. unfold env. intros E. split_and!; congruence. Qed.
Lemma fold_skip rs : ∀ g d, env (fold_left (λ g r, skip g r d) rs g) = env g ∧ (passes (fold_left (λ g r, skip g r d) rs g) ↔ passes g).
Proof.
  induction rs as [|r rs IH]; intros g d; cbn [fold_left]; [done|]. destruct (IH (skip g r d) d) as [E H]. split; [done|].
  by rewrite H, passes_skip.
Qed.
Lemma check_exposure_adds r : adds (λ g, check_exposure g r)
  (λ i c l _ k x, k = Exit ∨ ∃ a, r = Ok a ∧ capped_after i c l x a).
Proof.
  intros g. unfold check_exposure. destruct (is_exit g) eqn:Ex.
  { apply is_exit_iff in Ex. destruct (fold_skip CAPS g "exit: reduces the position"%string) as [E H]. split; [done|]. rewrite H. tauto. }
  assert (class g ≠ Exit) as Hk by (rewrite <-is_exit_iff; congruence).
  cbv zeta. set (g1 := capped g _ _ _ _ _).
  destruct (capped_adds g rules.ORDER_NOTIONAL (order_usd g) (max_order_notional_usd (limits g))
    ("order on " +:+ in_instrument (intent g))%string with_order) as [E1 H1].
  fold g1 in E1, H1. destruct r as [a|[code d]].
  2: { unfold CAPS. cbn [tail fold_left]. split; [done|]. autorewrite with gate. split; [done|]. by intros [_ [?|(? & ? & _)]]. }
  set (g2 := capped g1 _ _ _ _ _).
  destruct (capped_adds g1 rules.POSITION_NOTIONAL (SFabs (pos_after a)) (max_position_notional_usd (limits g))
    ("position " +:+ show (a_qty_before a) +:+ " → " +:+ show (a_qty_after a) +:+ " on " +:+ in_instrument (intent g))%string
    with_position) as [E2 H2].
  fold g2 in E2, H2. destruct (check_asset_adds g2 a) as [E3 H3]. set (g3 := check_asset g2 a) in *.
  destruct (check_venue_exposure_adds g3 a) as [E4 H4]. set (g4 := check_venue_exposure g3 a) in *.
  destruct (check_totals_adds g4 a) as [E5 H5]. rewrite E4, E3, E2, E1 in E5. split; [done|].
  rewrite H5, H4, H3, H2, H1. clearbody g1 g2 g3 g4. rewrite E1 in E2. rewrite E2 in E3. rewrite E3 in E4.
  destruct (env_reads _ _ E2) as (-> & -> & ->). destruct (env_reads _ _ E3) as (-> & -> & ->).
  destruct (env_reads _ _ E4) as (_ & -> & ->). unfold capped_after. split.
  - intros (((([? ?] & ?) & ?) & ?) & ?). split; [done|right]. by exists a.
  - intros [? [?|(? & [= <-] & ? & ? & ? & ? & ?)]]; [done|]. tauto.
Qed.

(** ** The hedge *)

(** The strategy the order runs needs a hedge. *)
Definition needs_hedge (i : OrderIntent) (c : RiskContext) (l : RiskLimits) : Prop :=
  ∃ s, s ∈ require_hedge_for l ∧
    (in_strategy i = Some s
     ∨ in_strategy i = None ∧ ∃ o, opportunity c = FOk o ∧ opportunity_key i = Some (ed_key o) ∧ ed_strategy o = FOk s).
(** The opposite order on [h] could be placed now. *)
Definition hedgeable (i : OrderIntent) (c : RiskContext) (l : RiskLimits) (now : Z) (usd : f64) (h : string) : Prop :=
  venue_permitted l h ∧ permitted l h
  ∧ (∃ x, ctx_of c h = FOk x ∧ aged (ctx_age x now) (ma_ctx (max_data_age_ms l)) ∧ status x = Open)
  ∧ (∃ b, book_of c h = FOk b ∧ aged (book_age b now) (ma_book (max_data_age_ms l))
      ∧ deep l b (opposite (in_side i)) ∧ fills l b (opposite (in_side i)) usd).
Definition near (c : RiskContext) (l : RiskLimits) (id h : string) : Prop :=
  ∃ a b, book_of c id = FOk a ∧ book_of c h = FOk b ∧ Z.abs (stamp_ms a - stamp_ms b) ≤ max_skew_ms l.
Definition hedged (i : OrderIntent) (c : RiskContext) (l : RiskLimits) (now : Z) (usd : f64) : Prop :=
  ∃ h, hedge_instrument i = Some h ∧ hedgeable i c l now usd h ∧ near c l (in_instrument i) h.

Lemma hedged_strategy_iff g : (∃ s, hedged_strategy g = Some s) ↔ needs_hedge (intent g) (ctx g) (limits g).
Proof.
  unfold hedged_strategy, needs_hedge, strategy. setoid_rewrite <-existsb_eqb.
  destruct (in_strategy (intent g)) as [w|].
  - cbn. destruct (existsb (String.eqb w) _) eqn:E; split.
    + intros _. exists w. split; [done|by left].
    + eauto.
    + by intros [].
    + intros (s & Hs & [[= ->]|[? _]]); congruence.
  - destruct (opportunity (ctx g)) as [o| |e].
    2-3: cbn; split; [by intros []|]; by intros (s & _ & [?|[_ (? & ? & _)]]).
    case_bool_decide as Hk.
    2: { cbn. split; [by intros []|]. intros (s & _ & [?|[_ (? & [= <-] & ? & _)]]); done. }
    destruct (ed_strategy o) as [w| |e] eqn:Es; cbn.
    2-3: split; [by intros []|]; intros (s & _ & [?|[_ (? & [= <-] & _ & ?)]]); congruence.
    destruct (existsb (String.eqb w) _) eqn:E; split.
    + intros _. exists w. split; [done|right]. split; [done|]. by exists o.
    + eauto.
    + by intros [].
    + intros (s & Hs & [?|[_ (? & [= <-] & _ & ?)]]); congruence.
Qed.

Lemma age_problems_nil key age max stamp now : age_problems key age max stamp now = [] ↔ aged age max.
Proof.
  unfold age_problems, aged. destruct age as [a|].
  - destruct (Z.ltb_spec max a); split; try done; [intros (? & [= <-] & ?); lia|intros _; eauto].
  - split; [done|by intros (? & ? & _)].
Qed.
Lemma one_nil {A} (b : bool) (x : A) : (if b then [] else [x]) = [] ↔ b = true.
Proof. by destruct b. Qed.

Lemma hedge_ctx_problems_nil g h : hedge_ctx_problems g h = [] ↔
  ∃ x, ctx_of (ctx g) h = FOk x ∧ aged (ctx_age x (now_ms g)) (ma_ctx (max_data_age_ms (limits g))) ∧ status x = Open.
Proof.
  unfold hedge_ctx_problems. rewrite leg_ctx_eq. destruct (ctx_of _ _) as [x| |e].
  - rewrite problems_app_nil, age_problems_nil. case_bool_decide as Hs; cbn [negb]; split.
    + intros [? _]. eauto.
    + by intros (? & [= <-] & ? & _).
    + by intros [].
    + by intros (? & [= <-] & _ & ?).
  - split; [done|by intros (? & ? & _)].
  - split; [done|by intros (? & ? & _)].
Qed.
Lemma hedge_book_problems_nil g h : hedge_book_problems g h = [] ↔
  ∃ b, book_of (ctx g) h = FOk b ∧ aged (book_age b (now_ms g)) (ma_book (max_data_age_ms (limits g)))
    ∧ deep (limits g) b (opposite (in_side (intent g))) ∧ fills (limits g) b (opposite (in_side (intent g))) (order_usd g).
Proof.
  unfold hedge_book_problems. rewrite leg_book_eq. destruct (book_of _ _) as [b| |e].
  - cbv zeta. rewrite !problems_app_nil, age_problems_nil, !one_nil, depth_ok_iff, slippage_ok_iff. split; [eauto|].
    by intros (? & [= <-] & ?).
  - split; [done|by intros (? & ? & _)].
  - split; [done|by intros (? & ? & _)].
Qed.
Lemma hedge_problems_nil g h :
  hedge_problems g h = [] ↔ hedgeable (intent g) (ctx g) (limits g) (now_ms g) (order_usd g) h.
Proof.
  unfold hedge_problems, hedgeable. rewrite !problems_app_nil, one_nil, hedge_ctx_problems_nil, hedge_book_problems_nil.
  rewrite <-(permission_error_none (limits g) h).
  assert ((match venue_of h with Some v => existsb (String.eqb v) (venues (limits g)) | None => false end) = true
    ↔ venue_permitted (limits g) h) as ->.
  { unfold venue_permitted. destruct (venue_of h) as [v|]; [rewrite existsb_eqb|]; split; try done.
    - eauto.
    - by intros (? & [= <-] & ?).
    - by intros (? & ? & _). }
  destruct (permission_error _ _); cbn; intuition congruence.
Qed.
Lemma check_skew_adds g h : env (check_skew g h) = env g
  ∧ (passes (check_skew g h) ↔ passes g ∧ near (ctx g) (limits g) (in_instrument (intent g)) h).
Proof.
  unfold check_skew, book_stamp, near. rewrite !leg_book_eq.
  destruct (book_of (ctx g) (in_instrument _)) as [a| |e], (book_of (ctx g) h) as [b| |e']; cbv zeta.
  2-9: split; [done|]; autorewrite with gate; split; [done|]; by intros [_ (? & ? & ? & ? & _)].
  destruct (Z.leb_spec (Z.abs (stamp_ms a - stamp_ms b)) (max_skew_ms (limits g))); (split; [done|]); autorewrite with gate.
  - split; [intros; split; [done|by exists a, b]|tauto].
  - split; [done|]. intros [_ (? & ? & [= <-] & [= <-] & ?)]. lia.
Qed.
Lemma check_hedge_adds : adds check_hedge
  (λ i c l n k x, k = Exit ∨ (needs_hedge i c l → hedged i c l n x)).
Proof.
  intros g. unfold check_hedge. destruct (is_exit g) eqn:Ex.
  { apply is_exit_iff in Ex. split; [done|]. autorewrite with gate. tauto. }
  assert (class g ≠ Exit) as Hk by (rewrite <-is_exit_iff; congruence).
  pose proof (hedged_strategy_iff g) as Hs. destruct (hedged_strategy g) as [s|].
  2: { split; [done|]. autorewrite with gate. split; [intros; split; [done|right]|tauto].
       intros Hn. by apply Hs in Hn as []. }
  assert (needs_hedge (intent g) (ctx g) (limits g)) as Hn by (apply Hs; eauto). unfold hedged.
  destruct (hedge_instrument (intent g)) as [h|].
  2: { split; [done|]. autorewrite with gate. split; [done|]. intros [_ [?|H]]; [done|]. by destruct (H Hn) as (? & ? & _). }
  cbv zeta. set (g1 := match hedge_problems g h with [] => _ | _ => _ end).
  assert (env g1 = env g ∧ (passes g1 ↔ passes g ∧ hedgeable (intent g) (ctx g) (limits g) (now_ms g) (order_usd g) h)) as [E1 H1].
  { rewrite <-hedge_problems_nil. unfold g1. destruct (hedge_problems g h); (split; [done|]); autorewrite with gate; intuition congruence. }
  destruct (check_skew_adds g1 h) as [E2 H2]. split; [congruence|]. rewrite H2, H1.
  destruct (env_reads _ _ E1) as (-> & -> & ->). split.
  - intros [[? ?] ?]. split; [done|right]. intros _. by exists h.
  - intros [? [?|H]]; [done|]. destruct (H Hn) as (? & [= <-] & ? & ?). done.
Qed.
Lemma check_shadow_market_status_adds growth : adds (λ g, check_shadow_market_status g growth)
  (λ i c _ _ k _, k = Exit ∨ ∀ x, ctx_of c (in_instrument i) = FOk x → status x = OiCapUnknown → grows growth = false).
Proof.
  intros g. unfold check_shadow_market_status. rewrite leg_ctx_eq. cbv zeta.
  destruct (is_exit g) eqn:Ex; cbn [negb andb].
  { apply is_exit_iff in Ex. split; [done|]. autorewrite with gate. tauto. }
  assert (class g ≠ Exit) as Hk by (rewrite <-is_exit_iff; congruence).
  destruct (ctx_of _ _) as [x| |e]; cbn [andb].
  2-3: split; [done|]; autorewrite with gate; split; [intros; split; [done|by right]|tauto].
  case_bool_decide as Hs; cbn [andb].
  - destruct (grows growth) eqn:Eg; (split; [done|]); autorewrite with gate; split; try done.
    + intros [_ [?|H]]; [done|]. by specialize (H x eq_refl Hs).
    + intros. split; [done|by right].
    + tauto.
  - split; [done|]. autorewrite with gate. split; [|tauto]. intros. split; [done|right]. by intros ? [= <-].
Qed.

(** ** The verdict *)

Lemma verdict_allow g : allow (verdict g) = true ↔ passes g.
Proof.
  unfold verdict, passes. set (p := λ c : Check, bool_decide (ck_status c = Fail)).
  assert (List.find p (checks g) = None ↔ Forall (λ c, ck_status c ≠ Fail) (checks g)) as H.
  { rewrite Forall_forall. split.
    - intros E c Hc%list_elem_of_In Hf. pose proof (List.find_none _ _ E c Hc) as Hn. unfold p in Hn. by rewrite bool_decide_true in Hn.
    - intros Hall. destruct (List.find p (checks g)) as [c|] eqn:E; [|done]. apply List.find_some in E as [Hc Hp].
      apply bool_decide_eq_true in Hp. by destruct (Hall c (proj2 (list_elem_of_In _ _) Hc)). }
  rewrite <-H. by destruct (List.find p (checks g)).
Qed.
Lemma verdict_class g : v_class (verdict g) = class g.
Proof. unfold verdict. by destruct (rule <$> _). Qed.
Lemma verdict_trips g : v_trips (verdict g) = once (trips g).
Proof. unfold verdict. by destruct (rule <$> _). Qed.

(** What the order leads to: a function of the order and the account. *)
Definition reached (i : OrderIntent) (c : RiskContext) (l : RiskLimits) (now : Z) : result (string * string) After :=
  after (fst (start i c l now)).
Lemma after_env g : after g = reached (intent g) (ctx g) (limits g) (now_ms g).
Proof. done. Qed.
Definition order_worth (i : OrderIntent) (a : After) : f64 := fmax (in_notional_usd i) (SFabs (delta a)).

(** The order reduces the open position and never flips it. *)
Definition reduces (i : OrderIntent) (c : RiskContext) : bool :=
  reduces_position i (match row_of i c with Some r => r_qty r | None => zero end).
Definition class_of (i : OrderIntent) (c : RiskContext) : OrderClass := if reduce_only i && reduces i c then Exit else Entry.

(** The conditions of the checks before the size of the order matters. *)
Definition first_ok (i : OrderIntent) (c : RiskContext) (l : RiskLimits) (n : Z) (k : OrderClass) : Prop :=
  intent_ok i c ∧ in_account i = l_account l
  ∧ or_degraded (kill_switch c = FOk false) l k ∧ or_degraded (halt c = None) l k
  ∧ (reduce_only i = true → reduces i c = true)
  ∧ (k = Exit ∨ venue_permitted l (in_instrument i) ∧ permitted l (in_instrument i))
  ∧ (k = Exit ∨ lifecycle_ok c l) ∧ (k = Exit ∨ daily_ok c l ∧ total_ok c l)
  ∧ (k = Exit ∨ orders_last_min c < max_orders_per_min l) ∧ open_orders c < max_open_orders l
  ∧ or_degraded (book_fresh c l n (in_instrument i)) l k ∧ or_degraded (ctx_fresh c l n (in_instrument i)) l k.
(** Those of the rest, for an order worth [x] with the outcome [r]. *)
Definition rest_ok (i : OrderIntent) (c : RiskContext) (l : RiskLimits) (n : Z) (k : OrderClass) (x : f64)
    (r : result (string * string) After) : Prop :=
  (k = Exit ∨ market_open c (in_instrument i) (match r with Ok a => Some (growth a) | Err _ => None end))
  ∧ (k = Exit ∨ backed i c l n x) ∧ (k = Exit ∨ liquid c l (in_instrument i) (in_side i) x)
  ∧ (k = Exit ∨ ∃ a, r = Ok a ∧ capped_after i c l x a) ∧ (k = Exit ∨ (needs_hedge i c l → hedged i c l n x)).

(** Regroup a conjunction of named conditions. *)
Ltac ands := split; intros; repeat match goal with H : _ ∧ _ |- _ => destruct H end; split_and!; assumption.

Lemma first_adds i c : adds (λ g, fst (evaluate_first g (reduces i c))) (λ i' c' l n k _,
  intent_ok i' c' ∧ in_account i' = l_account l
  ∧ or_degraded (kill_switch c' = FOk false) l k ∧ or_degraded (halt c' = None) l k
  ∧ (reduce_only i' = true → reduces i c = true)
  ∧ (k = Exit ∨ venue_permitted l (in_instrument i') ∧ permitted l (in_instrument i'))
  ∧ (k = Exit ∨ lifecycle_ok c' l) ∧ (k = Exit ∨ daily_ok c' l ∧ total_ok c' l)
  ∧ (k = Exit ∨ orders_last_min c' < max_orders_per_min l) ∧ open_orders c' < max_open_orders l
  ∧ or_degraded (book_fresh c' l n (in_instrument i')) l k ∧ or_degraded (ctx_fresh c' l n (in_instrument i')) l k).
Proof.
  intros g. unfold evaluate_first. cbn [fst]. set (b := any_failed _).
  pose proof (adds_comp _ _ _ _ check_intent_adds check_account_adds) as H.
  pose proof (adds_comp _ _ _ _ H check_kill_switch_adds) as H1. pose proof (adds_comp _ _ _ _ H1 check_halted_adds) as H2.
  pose proof (adds_comp _ _ _ _ H2 (check_reduce_only_adds (reduces i c))) as H3.
  pose proof (adds_comp _ _ _ _ H3 check_permission_adds) as H4. pose proof (adds_comp _ _ _ _ H4 check_lifecycle_adds) as H5.
  pose proof (adds_comp _ _ _ _ H5 (check_losses_adds b)) as H6. pose proof (adds_comp _ _ _ _ H6 check_order_rate_adds) as H7.
  pose proof (adds_comp _ _ _ _ H7 check_open_orders_adds) as H8. pose proof (adds_comp _ _ _ _ H8 check_book_age_adds) as H9.
  destruct (adds_comp _ _ _ _ H9 check_ctx_age_adds g) as [E Hp]. split; [exact E|]. etransitivity; [exact Hp|]. cbv beta. ands.
Qed.

Lemma env_class g g' : env g' = env g → class g' = class g.
Proof. unfold env. congruence. Qed.
Lemma env_sizes g g' : env g' = env g → now_ms g' = now_ms g ∧ order_usd g' = order_usd g.
Proof. unfold env. intros. split; congruence. Qed.
Lemma rest_adds g : let r := reached (intent g) (ctx g) (limits g) (now_ms g) in
  let x := match r with Ok a => order_worth (intent g) a | Err _ => order_usd g end in
  class (evaluate_rest g) = class g
  ∧ (passes (evaluate_rest g) ↔ passes g ∧ rest_ok (intent g) (ctx g) (limits g) (now_ms g) (class g) x r).
Proof.
  cbv zeta. unfold evaluate_rest. rewrite after_env. set (r := reached _ _ _ _).
  set (g1 := match r with Ok a => set_order_usd g _ | Err _ => g end).
  set (x := match r with Ok a => order_worth _ a | Err _ => _ end).
  assert (intent g1 = intent g ∧ ctx g1 = ctx g ∧ limits g1 = limits g ∧ now_ms g1 = now_ms g ∧ class g1 = class g ∧ order_usd g1 = x
    ∧ (passes g1 ↔ passes g)) as (Hi & Hc & Hl & Hn & Hk & Hx & Hp).
  { unfold g1, x. by destruct r. }
  clearbody g1.
  pose proof (adds_comp _ _ _ _ (check_market_status_adds (match r with Ok a => Some (growth a) | Err _ => None end)) check_min_edge_adds) as H.
  pose proof (adds_comp _ _ _ _ H check_liquidity_adds) as H1.
  pose proof (adds_comp _ _ _ _ H1 (check_exposure_adds r)) as H2.
  destruct (adds_comp _ _ _ _ H2 check_hedge_adds g1) as [E Hf]. rewrite Hi, Hc, Hl, Hn, Hk, Hx in Hf. split.
  - rewrite (env_class _ _ E). exact Hk.
  - etransitivity; [exact Hf|]. rewrite Hp. unfold rest_ok. ands.
Qed.

Lemma start_eq i c l now : start i c l now = (mkGate i c l now (class_of i c) (in_notional_usd i) [] no_headroom [], reduces i c).
Proof. done. Qed.

(** The whole gate, once for both classes. *)
Lemma evaluate_spec i c l now :
  let v := evaluate i c l now in let r := reached i c l now in
  let x := match r with Ok a => order_worth i a | Err _ => in_notional_usd i end in
  v_class v = class_of i c
  ∧ (allow v = true ↔ first_ok i c l now (class_of i c) ∧ rest_ok i c l now (class_of i c) x r).
Proof.
  cbv zeta. unfold evaluate. rewrite start_eq. cbv beta iota.
  destruct (evaluate_first _ _) as [g1 b] eqn:E1.
  destruct (first_adds i c (mkGate i c l now (class_of i c) (in_notional_usd i) [] no_headroom [])) as [Ee Hf].
  rewrite E1 in Ee, Hf. cbn [fst] in Ee, Hf. unfold env in Ee. cbn [intent ctx limits now_ms class order_usd] in Ee, Hf.
  injection Ee as Hi Hc Hl Hn Hk Hx. pose proof (rest_adds g1) as [Er Hr]. rewrite Hi, Hc, Hl, Hn, Hk, Hx in Hr.
  set (g2 := evaluate_rest g1) in *. set (g3 := if b then _ else g2).
  assert (class g3 = class g2 ∧ (passes g3 ↔ passes g2)) as [Hc3 Hp3] by (unfold g3; by destruct b).
  rewrite verdict_class, verdict_allow, Hc3, Hp3. split; [exact (eq_trans Er Hk)|].
  etransitivity; [exact Hr|]. rewrite Hf. unfold first_ok. split; [intros [[_ ?] ?]; done|].
  intros [? ?]. split; [|done]. split; [by apply Forall_nil|done].
Qed.

(** ** What the gate lets through *)

(** Every condition on an entry. *)
Definition entry_ok (i : OrderIntent) (c : RiskContext) (l : RiskLimits) (now : Z) : Prop :=
  (* the order, the account and its state *)
  (intent_ok i c ∧ in_account i = l_account l ∧ kill_switch c = FOk false ∧ halt c = None ∧ reduce_only i = false)
  (* permissions, losses and rates *)
  ∧ (venue_permitted l (in_instrument i) ∧ permitted l (in_instrument i) ∧ lifecycle_ok c l ∧ daily_ok c l ∧ total_ok c l
     ∧ orders_last_min c < max_orders_per_min l ∧ open_orders c < max_open_orders l)
  (* fresh market rows *)
  ∧ (book_fresh c l now (in_instrument i) ∧ ctx_fresh c l now (in_instrument i))
  (* the size of the order and what the account holds after it *)
  ∧ ∃ a, reached i c l now = Ok a
      ∧ let usd := order_worth i a in
        market_open c (in_instrument i) (Some (growth a)) ∧ backed i c l now usd ∧ liquid c l (in_instrument i) (in_side i) usd
        ∧ capped_after i c l usd a ∧ (needs_hedge i c l → hedged i c l now usd).

(** The conditions on an exit. *)
Definition exit_ok (i : OrderIntent) (c : RiskContext) (l : RiskLimits) (now : Z) : Prop :=
  intent_ok i c ∧ in_account i = l_account l ∧ open_orders c < max_open_orders l
  ∧ (allow_reduce_degraded l = true
     ∨ kill_switch c = FOk false ∧ halt c = None ∧ book_fresh c l now (in_instrument i) ∧ ctx_fresh c l now (in_instrument i)).

Lemma class_of_exit i c : class_of i c = Exit ↔ reduce_only i = true ∧ reduces i c = true.
Proof. unfold class_of. rewrite <-andb_true_iff. destruct (reduce_only i && reduces i c); split; congruence. Qed.
Lemma or_exit (k : OrderClass) (P : Prop) : k = Entry → (k = Exit ∨ P) ↔ P.
Proof. intros ->. split; [by intros [|]|by right]. Qed.
Lemma degraded_entry P l k : k = Entry → or_degraded P l k ↔ P.
Proof. unfold or_degraded. intros ->. split; [intros [?|[? _]]; done|by left]. Qed.

Lemma entry_spec i c l now : class_of i c = Entry → allow (evaluate i c l now) = true ↔ entry_ok i c l now.
Proof.
  intros Hk. etransitivity; [exact (proj2 (evaluate_spec i c l now))|].
  unfold first_ok, rest_ok, entry_ok. rewrite !(or_exit _ _ Hk), !(degraded_entry _ _ _ Hk). split.
  - intros [(H1 & H2 & H3 & H4 & H5 & [H6 H7] & H8 & [H9 H10] & H11 & H12 & H13 & H14) (R1 & R2 & R3 & (a & E & R4) & R5)].
    rewrite E in R1, R2, R3, R4, R5. split_and!; try assumption.
    + destruct (reduce_only i) eqn:Er; [|done]. assert (class_of i c = Exit) by (apply class_of_exit; auto). congruence.
    + exists a. split_and!; assumption.
  - intros ((H1 & H2 & H3 & H4 & H5) & (H6 & H7 & H8 & H9 & H10 & H11 & H12) & (H13 & H14) & (a & E & R1 & R2 & R3 & R4 & R5)).
    rewrite E. split_and!; try assumption; [congruence|]. exists a. split; [done|assumption].
Qed.

(** C3. An entry passes the risk gate exactly when every limit holds: the order
    is well formed and for this account, no kill switch, halt or reduce-only
    flag, the venue and the instrument are permitted, the lifecycle, the losses
    and the rates are within their limits, the book and the market row are
    fresh, the market takes the growth, the opportunity backs the order, the
    book fills it within the slippage, every exposure after it is within its
    cap, and a strategy that needs a hedge has one that could be placed now. *)
Theorem entries_pass_iff_every_limit_holds i c l now :
  class_of i c = Entry → v_class (evaluate i c l now) = Entry ∧ (allow (evaluate i c l now) = true ↔ entry_ok i c l now).
Proof. intros Hk. split; [|by apply entry_spec]. rewrite <-Hk. exact (proj1 (evaluate_spec i c l now)). Qed.

(** C14. An exit, a reduce-only order that shrinks the open position without
    flipping it, passes whatever the losses, rates, permissions, depth and caps
    are: it asks for a well-formed order of this account and a free slot among
    the resting orders, and either the degraded mode or no kill switch, no halt
    and fresh rows. *)
Theorem exits_are_let_out i c l now :
  reduce_only i = true → reduces i c = true →
  v_class (evaluate i c l now) = Exit ∧ (allow (evaluate i c l now) = true ↔ exit_ok i c l now).
Proof.
  intros Hr Hp. assert (class_of i c = Exit) as Hk by (apply class_of_exit; auto).
  destruct (evaluate_spec i c l now) as [Hc Ha]. split; [congruence|]. etransitivity; [exact Ha|].
  unfold first_ok, rest_ok, exit_ok, or_degraded. rewrite Hk. split.
  - intros [(H1 & H2 & H3 & H4 & _ & _ & _ & _ & _ & H5 & H6 & H7) _]. split_and!; try assumption.
    destruct (allow_reduce_degraded l); [by left|right].
    destruct H3 as [?|[_ ?]], H4 as [?|[_ ?]], H6 as [?|[_ ?]], H7 as [?|[_ ?]]; done.
  - intros (H1 & H2 & H3 & H4). split; [|split_and!; by left].
    split_and!; try assumption; try (by left); destruct H4 as [?|(? & ? & ? & ?)]; auto.
Qed.

(** ** The shadow gate *)

Definition shadow_ok (i : OrderIntent) (c : RiskContext) (l : RiskLimits) (n : Z) (k : OrderClass)
    (growth : option f64) : Prop :=
  intent_ok i c ∧ in_account i = l_account l
  ∧ or_degraded (kill_switch c = FOk false) l k ∧ or_degraded (halt c = None) l k
  ∧ (reduce_only i = true → reduces i c = true)
  ∧ (k = Exit ∨ venue_permitted l (in_instrument i))
  ∧ or_degraded (book_fresh c l n (in_instrument i)) l k
  ∧ (k = Exit ∨ ∀ x, ctx_of c (in_instrument i) = FOk x → status x = OiCapUnknown → grows growth = false).

Lemma shadow_venue_adds : adds (λ g, if is_exit g then check_permission g else skip (check_venue g) rules.INSTRUMENT SHADOW_SKIPPED)
  (λ i _ l _ k _, k = Exit ∨ venue_permitted l (in_instrument i)).
Proof.
  intros g. destruct (is_exit g) eqn:Ex.
  - apply is_exit_iff in Ex. destruct (check_permission_adds g) as [E H]. split; [done|]. rewrite H, Ex. tauto.
  - assert (class g ≠ Exit) as Hk by (rewrite <-is_exit_iff; congruence). destruct (check_venue_adds g) as [E H].
    split; [exact E|]. rewrite passes_skip, H. tauto.
Qed.
Lemma skip_all_adds rs : adds (λ g, skip_all g rs) (λ _ _ _ _ _ _, True).
Proof. intros g. destruct (fold_skip rs g SHADOW_SKIPPED) as [E H]. split; [exact E|]. unfold skip_all. rewrite H. tauto. Qed.
Lemma skip_adds r d : adds (λ g, skip g r d) (λ _ _ _ _ _ _, True).
Proof. intros g. split; [done|]. rewrite passes_skip. tauto. Qed.

Lemma class_trips g t : class (set_trips g t) = class g.
Proof. done. Qed.
Lemma trips_trips g t : trips (set_trips g t) = t.
Proof. done. Qed.
Lemma shadow_spec i c l now :
  let v := evaluate_shadow i c l now in
  v_class v = class_of i c ∧ v_trips v = []
  ∧ (allow v = true ↔ shadow_ok i c l now (class_of i c) (match reached i c l now with Ok a => Some (growth a) | Err _ => None end)).
Proof.
  cbv zeta. unfold evaluate_shadow. rewrite start_eq. cbv beta iota.
  set (g0 := mkGate _ _ _ _ _ _ _ _ _). set (ga := skip (check_book_age _) _ _).
  pose proof (adds_comp _ _ _ _ check_intent_adds check_account_adds) as H1.
  pose proof (adds_comp _ _ _ _ H1 check_kill_switch_adds) as H2. pose proof (adds_comp _ _ _ _ H2 check_halted_adds) as H3.
  pose proof (adds_comp _ _ _ _ H3 (check_reduce_only_adds (reduces i c))) as H4.
  pose proof (adds_comp _ _ _ _ H4 shadow_venue_adds) as H5.
  pose proof (adds_comp _ _ _ _ H5 (skip_all_adds [rules.LIFECYCLE; rules.DAILY_LOSS; rules.TOTAL_LOSS; rules.ORDER_RATE; rules.OPEN_ORDERS])) as H6.
  pose proof (adds_comp _ _ _ _ H6 check_book_age_adds) as H7.
  destruct (adds_comp _ _ _ _ H7 (skip_adds rules.CTX_AGE SHADOW_SKIPPED) g0) as [Ea Ha].
  change (env ga = env g0) in Ea. match type of Ha with _ ↔ ?P => change (passes ga ↔ P) in Ha end. rewrite after_env. clearbody ga.
  destruct (env_reads _ _ Ea) as (Ei & Ec & El). pose proof (env_class _ _ Ea) as Ek. destruct (env_sizes _ _ Ea) as [En _].
  rewrite Ei, Ec, El, En. change (intent g0) with i in *. change (ctx g0) with c in *. change (limits g0) with l in *.
  change (now_ms g0) with now in *. change (class g0) with (class_of i c) in *.
  set (gr := match reached i c l now with Ok a => _ | Err _ => _ end).
  destruct (check_shadow_market_status_adds gr ga) as [Eb Hb]. rewrite Ei, Ec, Ek in Hb. set (gb := check_shadow_market_status ga gr) in *.
  set (rs := [rules.MIN_EDGE; _; _; _; _; _; _; _; _; _; _; _]). destruct (skip_all_adds rs gb) as [Ed Hd].
  rewrite verdict_class, verdict_trips, verdict_allow, passes_trips, trips_trips. split_and!; [|reflexivity|].
  - rewrite class_trips, (env_class _ _ Ed), (env_class _ _ Eb). exact Ek.
  - rewrite Hd, Hb, Ha. clear. unfold shadow_ok. split.
    + intros [[[_ [[[[[[[[? ?] ?] ?] ?] ?] _] ?] _]] ?] _]. split_and!; assumption.
    + intros (? & ? & ? & ? & ? & ? & ? & ?). split_and!; try assumption; try exact I. by apply Forall_nil.
Qed.

(** C16. The shadow gate is never stricter than the risk gate: whatever the risk
    gate lets through, the shadow gate lets through in the same class; and it
    never halts anything. *)
Theorem shadow_is_never_stricter i c l now :
  v_trips (evaluate_shadow i c l now) = [] ∧ v_class (evaluate_shadow i c l now) = v_class (evaluate i c l now)
  ∧ (allow (evaluate i c l now) = true → allow (evaluate_shadow i c l now) = true).
Proof.
  destruct (evaluate_spec i c l now) as [Hc Ha], (shadow_spec i c l now) as (Hs & Ht & Hb).
  split_and!; [done|congruence|]. rewrite Ha, Hb. unfold first_ok, rest_ok, shadow_ok.
  intros [(H1 & H2 & H3 & H4 & H5 & H6 & _ & _ & _ & _ & H7 & _) (R1 & _)]. split_and!; try assumption.
  - destruct H6 as [?|[? _]]; [by left|by right].
  - destruct R1 as [?|(x & Hx & Hm)]; [by left|right]. intros x' Hx' Hst. rewrite Hx in Hx'. injection Hx' as <-.
    unfold market_takes in Hm. rewrite Hst in Hm. by destruct Hm as [[?|[_ ?]] _].
Qed.

(** ** Trips *)

(** Checks that leave the trips alone. *)
Definition quiet (f : Gate → Gate) : Prop := ∀ g, trips (f g) = trips g.
Lemma quiet_comp f f' : quiet f → quiet f' → quiet (λ g, f' (f g)).
Proof. intros H H' g. by rewrite H', H. Qed.
Ltac quiet_step := first [ done | match goal with |- context [match ?x with _ => _ end] => destruct x end ].
Lemma quiet_cap r v lim w : quiet (λ g, cap g r v lim w).
Proof. intros g. unfold cap. by destruct (within_max _ _). Qed.
Lemma quiet_degradable r d : quiet (λ g, degradable g r d).
Proof. intros g. unfold degradable. by destruct (_ && _). Qed.
Lemma quiet_fails (w : string → string) code rs : quiet (λ g, fold_left (λ g r, fail g code (w r)) rs g).
Proof. induction rs as [|r rs IH]; intros g; cbn [fold_left]; [done|]. by rewrite IH. Qed.
Lemma quiet_skips d rs : quiet (λ g, fold_left (λ g r, skip g r d) rs g).
Proof. induction rs as [|r rs IH]; intros g; cbn [fold_left]; [done|]. by rewrite IH. Qed.
Lemma quiet_asset a : quiet (λ g, check_asset g a).
Proof. intros g. unfold check_asset, capped, cap. destruct (group _ _); [|done..]. by destruct (within_max _ _). Qed.
Lemma quiet_venue_exposure a : quiet (λ g, check_venue_exposure g a).
Proof. intros g. unfold check_venue_exposure, capped, cap. destruct (group _ _); [|done..]. by destruct (within_max _ _). Qed.
Lemma quiet_leverage x : quiet (λ g, check_leverage g x).
Proof.
  intros g. unfold check_leverage. destruct (equity_usd _) as [eq| |e]; [|done..]. destruct (eq >? zero)%f64; [|done].
  by destruct (within_max _ _).
Qed.
Lemma quiet_capped r v lim w room : quiet (λ g, capped g r v lim w room).
Proof. intros g. unfold capped. exact (quiet_cap r v lim w g). Qed.
Lemma quiet_totals a : quiet (λ g, check_totals g a).
Proof.
  intros g. unfold check_totals. destruct (exposure _); [|done..]. rewrite (quiet_leverage _), (quiet_capped _ _ _ _ _), (quiet_capped _ _ _ _ _).
  done.
Qed.
Lemma quiet_exposure r : quiet (λ g, check_exposure g r).
Proof.
  intros g. unfold check_exposure. destruct (is_exit g); [exact (quiet_skips _ _ g)|]. destruct r as [a|[code d]].
  - rewrite (quiet_totals _), (quiet_venue_exposure _), (quiet_asset _), (quiet_capped _ _ _ _ _), (quiet_capped _ _ _ _ _). done.
  - etransitivity; [exact (quiet_fails (λ r, r +:+ ": " +:+ d)%string code _ _)|]. exact (quiet_capped _ _ _ _ _ g).
Qed.
Lemma quiet_verdict_on r v : quiet (λ g, verdict_on g r v).
Proof. intros g. unfold verdict_on. by destruct (fst v). Qed.
Lemma quiet_market growth : quiet (λ g, check_market_status g growth).
Proof.
  intros g. unfold check_market_status. destruct (is_exit g); [done|]. destruct (leg_ctx_of _ _) as [x| |e]; [|done..].
  destruct (_ && _); [done|]. destruct (status_verdict _ _ _) as [b d]. by destruct b.
Qed.
Lemma quiet_min_edge : quiet check_min_edge.
Proof.
  intros g. unfold check_min_edge. destruct (is_exit g); [done|]. destruct (opportunity_key _) as [key|]; [|done].
  destruct (negb (key_names _ _)); [done|]. destruct (opportunity _) as [o| |e]; [|done..]. destruct (negb _); [done|].
  destruct (stamp_age_ms _ _) as [age|]; [|done]. destruct (_ || _); [done|]. by destruct (backs _ _ _) as [d|[code d]].
Qed.
Lemma quiet_liquidity : quiet check_liquidity.
Proof.
  intros g. unfold check_liquidity. destruct (is_exit g); [done|]. destruct (leg_book_of _ _) as [b| |e]; [|done..].
  cbv zeta. by rewrite (quiet_verdict_on _ _), (quiet_verdict_on _ _).
Qed.
Lemma quiet_skew h : quiet (λ g, check_skew g h).
Proof.
  intros g. unfold check_skew. destruct (book_stamp g _) as [a|], (book_stamp g h) as [b|]; [|done..]. cbv zeta. by destruct (_ <=? _).
Qed.
Lemma quiet_hedge : quiet check_hedge.
Proof.
  intros g. unfold check_hedge. destruct (if is_exit g then None else hedged_strategy g) as [s|]; [|done].
  destruct (hedge_instrument _) as [h|]; [|done]. cbv zeta. rewrite (quiet_skew _). by destruct (hedge_problems g h).
Qed.
Lemma quiet_rest : quiet evaluate_rest.
Proof.
  intros g. unfold evaluate_rest. cbv zeta. rewrite quiet_hedge, (quiet_exposure _), quiet_liquidity, quiet_min_edge, (quiet_market _).
  by destruct (after g).
Qed.
Lemma quiet_age r key age max stamp : quiet (λ g, check_age g r key age max stamp).
Proof. intros g. unfold check_age. destruct age as [a|]; [destruct (_ <=? _); [done|]|]; exact (quiet_degradable _ _ g). Qed.
Lemma quiet_book_age : quiet check_book_age.
Proof. intros g. unfold check_book_age. destruct (leg_book_of _ _); [exact (quiet_age _ _ _ _ _ g)|exact (quiet_degradable _ _ g)..]. Qed.
Lemma quiet_ctx_age : quiet check_ctx_age.
Proof. intros g. unfold check_ctx_age. destruct (leg_ctx_of _ _); [exact (quiet_age _ _ _ _ _ g)|exact (quiet_degradable _ _ g)..]. Qed.
Lemma quiet_ages : quiet check_ages.
Proof. exact (quiet_comp _ _ quiet_book_age quiet_ctx_age). Qed.
Lemma quiet_rates : quiet check_rates.
Proof.
  intros g. unfold check_rates, check_open_orders, check_order_rate. cbv zeta. destruct (is_exit g); destruct (_ <? _); try done;
    by destruct (_ <? _).
Qed.
Lemma quiet_lifecycle : quiet check_lifecycle.
Proof.
  intros g. unfold check_lifecycle. destruct (min_lifecycle _) as [m|]; [|done]. destruct (is_exit g); [done|].
  destruct (Risk.lifecycle _) as [v| |e]; [|done..]. by destruct (lifecycle_geb _ _).
Qed.
Lemma quiet_permission : quiet check_permission.
Proof.
  intros g. unfold check_permission. destruct (is_exit g); [done|]. cbv zeta. assert (trips (check_venue g) = trips g) as E.
  { unfold check_venue. destruct (intent_venue _) as [v|]; [|done]. by destruct (existsb _ _). }
  by destruct (permission_error _ _).
Qed.
Lemma quiet_reduce_only b : quiet (λ g, check_reduce_only g b).
Proof. intros g. unfold check_reduce_only. destruct (negb _); [done|]. by destruct b. Qed.
Lemma quiet_halted : quiet check_halted.
Proof. intros g. unfold check_halted. destruct (halt _); [exact (quiet_degradable _ _ g)|done]. Qed.
Lemma quiet_intent : quiet check_intent.
Proof. intros g. unfold check_intent. by destruct (intent_problems g). Qed.
Lemma quiet_account : quiet check_account.
Proof. intros g. unfold check_account. by destruct (String.eqb _ _). Qed.
Lemma quiet_loss b r : quiet (λ g, check_loss b g r).
Proof.
  intros g. unfold check_loss. destruct (match r with DailyLoss => _ | _ => _ end) as [[[rl f] lim] room].
  destruct f as [v| |e].
  - cbv zeta. destruct (negb _); [done|]. by destruct (is_exit _).
  - destruct (bool_decide _), (is_exit g); done.
  - by destruct (is_exit g).
Qed.

Definition file_trip (c : RiskContext) : list HaltReason := match kill_switch c with FOk true => [File] | _ => [] end.
Lemma kill_switch_trips g : trips (check_kill_switch g) = trips g ++ file_trip (ctx g).
Proof.
  unfold check_kill_switch, file_trip. destruct (kill_switch (ctx g)) as [[]| |e]; rewrite ?app_nil_r; [|done|exact (quiet_degradable _ _ g)..].
  exact (quiet_degradable _ _ (set_trips g _)).
Qed.
Lemma losses_trips g b :
  trips (check_losses g b) = trips g ++ (if b then [] else breaches (loss_of (account (ctx g))) (limits g)).
Proof.
  unfold check_losses. cbn [fold_left]. rewrite (quiet_loss _ _), (quiet_loss _ _). destruct b; [by rewrite app_nil_r|done].
Qed.

Lemma any_failed_iff g : any_failed g = false ↔ passes g.
Proof.
  unfold any_failed, passes. rewrite Forall_forall. split.
  - intros E c Hc%list_elem_of_In Hf. assert (existsb (λ c, bool_decide (ck_status c = Fail)) (checks g) = true) as E'; [|congruence].
    apply existsb_exists. exists c. split; [done|]. by apply bool_decide_eq_true.
  - intros H. destruct (existsb _ _) eqn:E; [|done]. apply existsb_exists in E as (c & Hc & Hf%bool_decide_eq_true).
    by destruct (H c (proj2 (list_elem_of_In _ _) Hc)).
Qed.
Lemma once_NoDup (l : list HaltReason) : ∀ out, NoDup (out ++ l) →
  fold_left (λ out t, if bool_decide (t ∈ out) then out else out ++ [t]) l out = out ++ l.
Proof.
  induction l as [|t l IH]; intros out Hn; cbn [fold_left]; [by rewrite app_nil_r|].
  rewrite bool_decide_false.
  - rewrite (cons_middle t out l), app_assoc in Hn. rewrite (cons_middle t out l), app_assoc. exact (IH (out ++ [t]) Hn).
  - apply NoDup_app in Hn as (_ & Hd & _). intros Hin. apply (Hd t Hin). by left.
Qed.
Lemma trips_NoDup c l : NoDup (file_trip c ++ breaches (loss_of (account c)) l).
Proof. unfold file_trip, breaches. destruct (kill_switch c) as [[]| |e], (over _ _), (over _ _); apply (bool_decide_unpack _); exact I. Qed.

(** The intent and account checks failed neither. *)
Definition order_ok (i : OrderIntent) (c : RiskContext) (l : RiskLimits) : Prop := intent_ok i c ∧ in_account i = l_account l.

Lemma order_ok_iff i c l now : any_failed (check_account (check_intent (fst (start i c l now)))) = false ↔ order_ok i c l.
Proof.
  rewrite start_eq. cbn [fst]. set (g0 := mkGate _ _ _ _ _ _ _ _ _).
  destruct (adds_comp _ _ _ _ check_intent_adds check_account_adds g0) as [_ H]. rewrite any_failed_iff. etransitivity; [exact H|].
  split; [by intros [_ ?]|]. intros Ho. split; [apply Forall_nil, I|exact Ho].
Qed.
Lemma evaluate_trips i c l now :
  v_trips (evaluate i c l now) =
    if any_failed (check_account (check_intent (fst (start i c l now)))) then [] else file_trip c ++ breaches (loss_of (account c)) l.
Proof.
  unfold evaluate. rewrite start_eq. cbv beta iota. set (g0 := mkGate _ _ _ _ _ _ _ _ _). unfold evaluate_first. cbv zeta beta iota.
  cbn [fst]. set (b := any_failed (check_account (check_intent g0))).
  rewrite verdict_trips. destruct b.
  { rewrite trips_trips. done. }
  rewrite quiet_rest, quiet_ages, quiet_rates, losses_trips, quiet_lifecycle, quiet_permission, (quiet_reduce_only _), quiet_halted,
    kill_switch_trips, quiet_account, quiet_intent.
  pose proof (adds_comp _ _ _ _ check_intent_adds check_account_adds) as H1.
  destruct (adds_comp _ _ _ _ H1 check_kill_switch_adds g0) as [E1 _]. destruct (H1 g0) as [E0 _].
  pose proof (adds_comp _ _ _ _ H1 check_kill_switch_adds) as H2. pose proof (adds_comp _ _ _ _ H2 check_halted_adds) as H3.
  pose proof (adds_comp _ _ _ _ H3 (check_reduce_only_adds (reduces i c))) as H4.
  pose proof (adds_comp _ _ _ _ H4 check_permission_adds) as H5. destruct (adds_comp _ _ _ _ H5 check_lifecycle_adds g0) as [E2 _].
  destruct (env_reads _ _ E0) as (_ & -> & _). destruct (env_reads _ _ E2) as (_ & -> & ->).
  change (trips g0) with (@nil HaltReason). cbn [app]. unfold once. rewrite once_NoDup; [done|]. exact (trips_NoDup c l).
Qed.

(** What the module table gives as the cause of a trip: the kill-switch file is
    there; the loss since the start, or of the day, is known and past its
    limit. *)
Definition trip_cause (c : RiskContext) (l : RiskLimits) (r : HaltReason) : Prop :=
  match r with
  | File => kill_switch c = FOk true
  | TotalLoss => ∃ e, equity_usd (account c) = FOk e
      ∧ within_max (initial_cash_usd (account c) - e)%f64 (total_loss_limit_usd l) = false
  | DailyLoss => ∃ pnl, daily_pnl_usd (account c) = FOk pnl
      ∧ within_max (- pnl)%f64 (daily_loss_limit_usd l) = false
  | _ => False
  end.

Lemma trips_causes c l r : r ∈ file_trip c ++ breaches (loss_of (account c)) l ↔ trip_cause c l r.
Proof.
  assert (∀ {A} (b : bool) (x y : A), y ∈ (if b then [x] else []) ↔ b = true ∧ y = x) as Hone.
  { intros A [] x y; rewrite ?list_elem_of_singleton, ?elem_of_nil; naive_solver. }
  unfold breaches. rewrite !elem_of_app, !Hone. unfold over, loss_of. cbn [total_loss_usd daily_loss_usd].
  assert (r ∈ file_trip c ↔ kill_switch c = FOk true ∧ r = File) as ->.
  { unfold file_trip. destruct (kill_switch c) as [[]| |e]; rewrite ?list_elem_of_singleton, ?elem_of_nil; naive_solver. }
  unfold trip_cause. destruct (equity_usd (account c)) as [e| |?], (daily_pnl_usd (account c)) as [d| |?]; cbn [value];
    rewrite ?negb_true_iff; destruct r; naive_solver.
Qed.

(** C15. What the risk gate trips on an order: nothing but [file],
    [total_loss] and [daily_loss], each only for its cause - the kill-switch
    file is there, the loss since the start or of the day is known and past its
    limit - and once, whatever the order; and an order that passes the intent
    and the account checks trips every one that has a cause, in that order,
    whether it is an entry or an exit and whether it is allowed or denied. (The
    tables of the module have every gate call trip them; an order one of those
    two checks refuses trips nothing, which is reported as a finding and left
    out of the second part.) *)
Theorem trips_are_exact i c l now :
  (∀ r, r ∈ v_trips (evaluate i c l now) → trip_cause c l r)
  ∧ NoDup (v_trips (evaluate i c l now))
  ∧ (order_ok i c l →
     v_trips (evaluate i c l now) = file_trip c ++ breaches (loss_of (account c)) l
     ∧ ∀ r, trip_cause c l r → r ∈ v_trips (evaluate i c l now)).
Proof.
  rewrite evaluate_trips. pose proof (order_ok_iff i c l now) as H. split; [|split].
  - intros r Hr. apply trips_causes. destruct (any_failed _); [by apply elem_of_nil in Hr|done].
  - destruct (any_failed _); [apply NoDup_nil_2|exact (trips_NoDup c l)].
  - intros Ho%H. rewrite Ho. split; [done|]. intros r. apply trips_causes.
Qed.

(** An order the intent or the account check refuses trips nothing, also when
    the kill-switch file is there or a loss is past its limit. *)
Lemma malformed_orders_trip_nothing i c l now : ¬ order_ok i c l → v_trips (evaluate i c l now) = [].
Proof.
  intros Ho. rewrite evaluate_trips. destruct (any_failed _) eqn:E; [done|]. by apply (order_ok_iff i c l now) in E.
Qed.

(** ** Witnesses, on the cases of the tests *)

Lemma entries_pass_witness :
  class_of Cases.entry Cases.ctx = Entry ∧ entry_ok Cases.entry Cases.ctx Cases.limits Cases.NOW.
Proof.
  assert (class_of Cases.entry Cases.ctx = Entry) as H by reflexivity. split; [exact H|].
  assert (allow (evaluate Cases.entry Cases.ctx Cases.limits Cases.NOW) = true) as Ha by (vm_compute; reflexivity).
  exact (proj1 (proj2 (entries_pass_iff_every_limit_holds Cases.entry Cases.ctx Cases.limits Cases.NOW H)) Ha).
Defined.
Lemma exits_are_let_out_witness :
  reduces Cases.exit Cases.halted_ctx = true
  ∧ exit_ok Cases.exit Cases.halted_ctx Cases.limits (Cases.NOW + 100000).
Proof.
  assert (reduces Cases.exit Cases.halted_ctx = true) as H by (vm_compute; reflexivity). split; [exact H|].
  assert (allow (evaluate Cases.exit Cases.halted_ctx Cases.limits (Cases.NOW + 100000)) = true) as Ha by (vm_compute; reflexivity).
  exact (proj1 (proj2 (exits_are_let_out Cases.exit Cases.halted_ctx Cases.limits (Cases.NOW + 100000) eq_refl H)) Ha).
Defined.
Lemma shadow_is_never_stricter_witness : allow (evaluate_shadow Cases.entry Cases.ctx Cases.limits Cases.NOW) = true.
Proof.
  assert (allow (evaluate Cases.entry Cases.ctx Cases.limits Cases.NOW) = true) as Ha by (vm_compute; reflexivity).
  exact (proj2 (proj2 (shadow_is_never_stricter Cases.entry Cases.ctx Cases.limits Cases.NOW)) Ha).
Defined.
Lemma trips_are_exact_witness :
  order_ok Cases.exit Cases.halted_ctx Cases.limits
  ∧ v_trips (evaluate Cases.exit Cases.halted_ctx Cases.limits Cases.NOW) = [File].
Proof.
  assert (allow (evaluate Cases.exit Cases.halted_ctx Cases.limits Cases.NOW) = true) as Ha by (vm_compute; reflexivity).
  apply evaluate_spec in Ha as [(H1 & H2 & _) _].
  split; [exact (conj H1 H2)|]. etransitivity; [exact (proj1 (proj2 (proj2 (trips_are_exact _ _ _ _)) (conj H1 H2)))|]. vm_compute. reflexivity.
Defined.
