(* ===== verification/RiskState.v ===== *)
(** * The risk state of an account ([src/src/domain/xm/risk_state.rs])

    The stored halt and the UTC day's starting equity. A transition answers a
    new state; [updated_ms] moves when something changed. The headline (two
    decimals of an [f64]) is left out. *)

From Stdlib Require Import Ascii String.
From S2P Require Import Prelude.
From S2P Require Import Text.
From S2P Require Import F64.
From S2P Require Import Observation.
From S2P Require Import Ledger.
From S2P Require Import Risk.
From S2P Require Import RiskProps.

#[local] Open Scope string_scope.
#[local] Open Scope list_scope.
#[local] Open Scope Z_scope.

Definition DAY_MS : Z := 86400000.
(** [rem_euclid] by a positive modulus is [Z.modulo]. *)
Definition utc_day_start (now_ms : Z) : Z := now_ms - now_ms mod DAY_MS.

#[export] Instance Halt_eq_dec : EqDecision Halt.
Proof. solve_decision. Defined.

Record RiskState : Type := mkState {
  st_halt : option Halt;
  day_utc_ms : option Z;
  day_start_equity_usd : option f64;
  updated_ms : Z;
}.
Definition default_state : RiskState := mkState None None None 0.

Definition TRIP_ORDER : list HaltReason := [File; TotalLoss; Operator; DailyLoss].

Definition f64_opt_eqb (a b : option f64) : bool :=
  match a, b with Some x, Some y => (x =? y)%f64 | None, None => true | _, _ => false end.
(** The derived [==]. *)
Definition state_eqb (a b : RiskState) : bool :=
  bool_decide (st_halt a = st_halt b) && bool_decide (day_utc_ms a = day_utc_ms b)
  && f64_opt_eqb (day_start_equity_usd a) (day_start_equity_usd b) && (updated_ms a =? updated_ms b).

Definition effective_halt (s : RiskState) (now_ms : Z) : option Halt :=
  h ← st_halt s;
  if negb (bool_decide (reason h = DailyLoss)) || (utc_day_start now_ms <=? since_ms h) then Some h else None.

Definition changed (self next : RiskState) (now_ms : Z) : RiskState :=
  if negb (state_eqb next self) then mkState (st_halt next) (day_utc_ms next) (day_start_equity_usd next) now_ms else next.

Definition finite_only (x : option f64) : option f64 := e ← x; if is_finite e then Some e else None.
Definition roll (s : RiskState) (now_ms : Z) (equity_usd : option f64) : RiskState :=
  let today := utc_day_start now_ms in
  let equity := finite_only equity_usd in
  let halt := effective_halt s now_ms in
  let next :=
    if negb (bool_decide (day_utc_ms s = Some today)) then mkState halt (Some today) equity (updated_ms s)
    else
      match day_start_equity_usd s with
      | None => mkState halt (day_utc_ms s) equity (updated_ms s)
      | Some e => mkState halt (day_utc_ms s) (Some e) (updated_ms s)
      end in
  changed s next now_ms.

Definition trip_halt (current : option Halt) (new : option HaltReason) (now_ms : Z) : option Halt :=
  match current, new with
  | current, None => current
  | Some h, Some r => if is_sticky (reason h) || negb (is_sticky r) then Some h else Some (mkHalt r now_ms)
  | None, Some r => Some (mkHalt r now_ms)
  end.
Definition trip (s : RiskState) (trips : list HaltReason) (now_ms : Z) : RiskState :=
  let new := List.find (λ r, bool_decide (r ∈ trips)) TRIP_ORDER in
  let next := mkState (trip_halt (effective_halt s now_ms) new now_ms) (day_utc_ms s) (day_start_equity_usd s) (updated_ms s) in
  changed s next now_ms.
Definition halt_operator (s : RiskState) (now_ms : Z) : RiskState := trip s [Operator] now_ms.

Definition resume (s : RiskState) (now_ms : Z) (kill_switch_present : bool) : result string RiskState :=
  if kill_switch_present then Err "the kill-switch file is present: remove it first, then resume"
  else Ok (changed s (mkState None (day_utc_ms s) (day_start_equity_usd s) (updated_ms s)) now_ms).

Definition state_value (s : RiskState) (a : PaperAccount) (marks : gmap string (Field Mark)) (now_ms max_mark_age_ms : Z)
    : PaperPositions * RiskState :=
  let probe := build a marks now_ms max_mark_age_ms None None in
  let rolled := roll s now_ms (value (equity_usd probe)) in
  let halted := Some (bool_decide (effective_halt rolled now_ms ≠ None)) in
  (build a marks now_ms max_mark_age_ms (day_start_equity_usd rolled) halted, rolled).

Definition valuation_trips (p : PaperPositions) (kill_switch : Field bool) (l : RiskLimits) : list HaltReason :=
  (if bool_decide (value kill_switch = Some true) then [File] else []) ++ breaches (loss_of p) l.

(** ** The status row *)

Record RiskStatus : Type := mkStatus {
  rs_account : string;
  rs_state : RiskState;
  rs_kill_switch : Field bool;
  rs_positions : PaperPositions;
  total_pnl_usd : Field f64;
  loss_headroom_usd : Field f64;
  rs_daily_loss_limit_usd : f64;
  rs_total_loss_limit_usd : f64;
  rs_orders_last_min : Z;
  rs_open_orders : Z;
  as_of_ms : Z;
}.

Definition status_new (p : PaperPositions) (s : RiskState) (kill_switch : Field bool) (l : RiskLimits)
    (orders_last_min open_orders now_ms : Z) : RiskStatus :=
  let total_pnl_usd := match equity_usd p with FOk v => FOk (v - initial_cash_usd p)%f64 | other => other end in
  let loss := loss_of p in
  let loss_headroom_usd :=
    match daily_loss_usd loss, total_loss_usd loss with
    | FOk d, FOk t => FOk (fmin (daily_loss_limit_usd l - d) (total_loss_limit_usd l - t))%f64
    | FErr e, _ => FErr e
    | _, FErr e => FErr e
    | _, _ => FAbsent
    end in
  mkStatus (pp_account p) s kill_switch p total_pnl_usd loss_headroom_usd (daily_loss_limit_usd l) (total_loss_limit_usd l)
    orders_last_min open_orders now_ms.

Definition status_halted (r : RiskStatus) : bool :=
  bool_decide (effective_halt (rs_state r) (as_of_ms r) ≠ None) || negb (bool_decide (value (rs_kill_switch r) = Some false)).
Definition status_reason (r : RiskStatus) : option string :=
  match effective_halt (rs_state r) (as_of_ms r) with
  | Some h => Some (halt_str (reason h))
  | None => if bool_decide (value (rs_kill_switch r) = Some true) then Some (halt_str File) else None
  end.

Definition status_features (r : RiskStatus) : Features :=
  let p := rs_positions r in
  let f := set_bool ∅ "halted" (Some (status_halted r)) in
  let f := set_str f "reason" (status_reason r) in
  let f := set_bool f "kill_switch" (value (rs_kill_switch r)) in
  let f := set_num f "equity_usd" (value (equity_usd p)) in
  let f := set_num f "cash_usd" (Some (pp_cash_usd p)) in
  let f := set_num f "daily_pnl_usd" (value (daily_pnl_usd p)) in
  let f := set_num f "total_pnl_usd" (value (total_pnl_usd r)) in
  let f := set_num f "loss_headroom_usd" (value (loss_headroom_usd r)) in
  let f := set_num f "day_start_equity_usd" (day_start_equity_usd (rs_state r)) in
  let f := set_num f "gross_exposure_usd" (gross_usd <$> value (exposure p)) in
  let f := set_num f "net_exposure_usd" (net_usd <$> value (exposure p)) in
  let f := set_num f "leverage" (value (leverage p)) in
  let f := set_int f "n_positions" (Some (Z.of_nat (length (rows p)))) in
  let f := set_bool f "marks_stale" (Some (0 <? marks_stale p)%nat) in
  let f := set_int f "orders_last_min" (Some (rs_orders_last_min r)) in
  set_int f "open_orders" (Some (rs_open_orders r)).

Definition risk_status (r : RiskStatus) : ObsStatus :=
  let unknown :=
    negb (bool_decide (positions_status (rs_positions r) = ObsOk))
    || bool_decide (value (daily_pnl_usd (rs_positions r)) = None) || bool_decide (value (rs_kill_switch r) = None) in
  if unknown then ObsPartial else ObsOk.
Definition status_errors (r : RiskStatus) : list ReadError :=
  field_errors (rs_positions r) ++ option_list (error (rs_kill_switch r))
  ++ match daily_pnl_usd (rs_positions r) with
     | FAbsent => [read_error_new "day_start_equity" Transient "no equity known yet today (a mark is missing or stale)"]
     | _ => []
     end.

(** ** Cases of the tests in the source *)

Module StateCases.
Definition T : Z := 1790985600000.
Definition state (h : option Halt) : RiskState := mkState h (Some T) (Some (of_Z 100)) T.
Definition after (s : RiskState) (r : list HaltReason) := st_halt (trip s r (T + 12 * HOUR_MS)).
End StateCases.

Example trip_cases :
  let t := StateCases.T in let now := t + 12 * HOUR_MS in let old := t + 2 * HOUR_MS in
  let h r at_ms := Some (mkHalt r at_ms) in let go h trips := StateCases.after (StateCases.state h) trips in
  [go None []; go None [DailyLoss]; go None [DailyLoss; TotalLoss]; go None [TotalLoss; File]; go None [Operator; DailyLoss];
   go (h DailyLoss old) [TotalLoss]; go (h DailyLoss old) [DailyLoss]; go (h TotalLoss old) [File]; go (h Operator old) [DailyLoss];
   go (h File old) []; go (h DailyLoss (t - HOUR_MS)) [DailyLoss]]
  = [None; h DailyLoss now; h TotalLoss now; h File now; h Operator now; h TotalLoss now; h DailyLoss old; h TotalLoss old;
     h Operator old; h File old; h DailyLoss now].
Proof. vm_compute. reflexivity. Qed.

(** ** Risk states over time: sticky halts, the UTC day, the gate behind them *)

#[local] Open Scope list_scope.
#[local] Open Scope Z_scope.

(** ** Operations over time *)

Inductive StateOp : Type :=
  | ORoll (now : Z) (equity : option f64)
  | OTrip (now : Z) (trips : list HaltReason)
  | OOperator (now : Z)
  | OResume (now : Z) (kill_switch_present : bool).

(** A refused resume stores nothing. *)
Definition op_step (s : RiskState) (op : StateOp) : RiskState :=
  match op with
  | ORoll now equity => roll s now equity
  | OTrip now trips => trip s trips now
  | OOperator now => halt_operator s now
  | OResume now present => match resume s now present with Ok s => s | Err _ => s end
  end.
Definition op_run (s : RiskState) (ops : list StateOp) : RiskState := fold_left op_step ops s.
Definition resumes (op : StateOp) : bool := match op with OResume _ present => negb present | _ => false end.

Lemma changed_halt s n now : st_halt (changed s n now) = st_halt n.
Proof. unfold changed. by destruct (negb _). Qed.
Lemma changed_utc s n now : day_utc_ms (changed s n now) = day_utc_ms n.
Proof. unfold changed. by destruct (negb _). Qed.
Lemma changed_equity s n now : day_start_equity_usd (changed s n now) = day_start_equity_usd n.
Proof. unfold changed. by destruct (negb _). Qed.

Lemma sticky_effective s h now : st_halt s = Some h → is_sticky (reason h) = true → effective_halt s now = Some h.
Proof.
  intros E Hs. unfold effective_halt. rewrite E. cbn. unfold is_sticky in Hs.
  destruct (bool_decide (reason h = DailyLoss)); [done|reflexivity].
Qed.
Lemma roll_halt s now eq : st_halt (roll s now eq) = effective_halt s now.
Proof. unfold roll. rewrite changed_halt. destruct (negb _); [done|]. by destruct (day_start_equity_usd s). Qed.
Lemma trip_halt_eq s trips now :
  st_halt (trip s trips now) = trip_halt (effective_halt s now) (List.find (λ r, bool_decide (r ∈ trips)) TRIP_ORDER) now.
Proof. unfold trip. by rewrite changed_halt. Qed.
Lemma trip_halt_sticky h r now : is_sticky (reason h) = true → trip_halt (Some h) r now = Some h.
Proof. intros H. unfold trip_halt. rewrite H. by destruct r. Qed.

Lemma op_step_sticky s h op :
  st_halt s = Some h → is_sticky (reason h) = true → resumes op = false → st_halt (op_step s op) = Some h.
Proof.
  intros E Hs Hr. destruct op as [now eq|now trips|now|now present]; cbn [op_step].
  - rewrite roll_halt. by apply sticky_effective.
  - rewrite trip_halt_eq, (sticky_effective _ h) by done. by apply trip_halt_sticky.
  - unfold halt_operator. rewrite trip_halt_eq, (sticky_effective _ h) by done. by apply trip_halt_sticky.
  - destruct present; [done|discriminate].
Qed.
Lemma op_run_sticky ops : ∀ s h,
  st_halt s = Some h → is_sticky (reason h) = true → Forall (λ op, resumes op = false) ops → st_halt (op_run s ops) = Some h.
Proof.
  induction ops as [|op ops IH]; intros s h E Hs Ho; [done|]. inversion Ho; subst. cbn. apply IH; [|done..]. by apply op_step_sticky.
Qed.

(** ** Trips *)

(** The first of the table's order among [trips]. *)
Definition worst (trips : list HaltReason) : option HaltReason := List.find (λ r, bool_decide (r ∈ trips)) TRIP_ORDER.
Lemma worst_sticky trips r : r ∈ trips → is_sticky r = true → ∃ r', worst trips = Some r' ∧ is_sticky r' = true.
Proof.
  intros Hin Hs. unfold worst, TRIP_ORDER. cbn [List.find].
  destruct (bool_decide_reflect (File ∈ trips)); [by eexists|]. destruct (bool_decide_reflect (TotalLoss ∈ trips)); [by eexists|].
  destruct (bool_decide_reflect (Operator ∈ trips)); [by eexists|]. by destruct r.
Qed.
Lemma trip_sticky s trips r now :
  r ∈ trips → is_sticky r = true → ∃ h, st_halt (trip s trips now) = Some h ∧ is_sticky (reason h) = true.
Proof.
  intros Hin Hs. destruct (worst_sticky trips r Hin Hs) as (r' & E & Hr'). rewrite trip_halt_eq. fold (worst trips). rewrite E.
  destruct (effective_halt s now) as [h|]; cbn [trip_halt]; [|by eexists].
  destruct (is_sticky (reason h)) eqn:Eh; cbn [orb]; [by exists h|]. rewrite Hr'. cbn [negb]. by eexists.
Qed.

(** C17. A sticky halt (total loss, operator, kill-switch file) outlives every
    sequence of operations without a resume that the absent kill-switch file
    permits: rolls over any number of midnights, further trips, operator halts
    and refused resumes leave it as it was recorded; such a resume ends it at
    once. *)
Theorem sticky_halts_end_by_resume_only s h ops now :
  st_halt s = Some h → is_sticky (reason h) = true → Forall (λ op, resumes op = false) ops →
  st_halt (op_run s ops) = Some h ∧ effective_halt (op_run s ops) now = Some h
  ∧ effective_halt (op_run s (ops ++ [OResume now false])) now = None.
Proof.
  intros E Hs Ho. pose proof (op_run_sticky ops s h E Hs Ho) as Hr. split_and!; [done|by apply sticky_effective|].
  unfold op_run. rewrite fold_left_app. cbn. unfold effective_halt. by rewrite changed_halt.
Qed.
Lemma sticky_halts_witness :
  let s := StateCases.state (Some (mkHalt TotalLoss StateCases.T)) in
  let ops := [ORoll (StateCases.T + 3 * DAY_MS) None; OResume (StateCases.T + 3 * DAY_MS) true; OTrip (StateCases.T + 3 * DAY_MS) [File]] in
  st_halt (op_run s ops) = Some (mkHalt TotalLoss StateCases.T).
Proof.
  intros s ops. assert (Forall (λ op, resumes op = false) ops) as Ho by (repeat constructor).
  exact (proj1 (sticky_halts_end_by_resume_only s (mkHalt TotalLoss StateCases.T) ops 0 eq_refl eq_refl Ho)).
Defined.

(** ** The UTC day *)

Lemma day_start_bounds now : utc_day_start now ≤ now < utc_day_start now + DAY_MS.
Proof. unfold utc_day_start, DAY_MS. pose proof (Z.mod_pos_bound now 86400000). lia. Qed.
Lemma day_start_le t now : t ≤ now → (utc_day_start now ≤ t ↔ now < utc_day_start t + DAY_MS).
Proof.
  unfold utc_day_start, DAY_MS. intros Hle. pose proof (Z.div_mod now 86400000). pose proof (Z.div_mod t 86400000).
  pose proof (Z.mod_pos_bound now 86400000). pose proof (Z.mod_pos_bound t 86400000).
  pose proof (Z.div_le_mono t now 86400000). split; intros; nia.
Qed.

(** A daily-loss halt is in force from its trip to the next 00:00 UTC and
    not after; the first roll of a later day drops it from the stored state. *)
Theorem daily_halts_last_the_utc_day s t now equity :
  st_halt s = Some (mkHalt DailyLoss t) → t ≤ now →
  (effective_halt s now = Some (mkHalt DailyLoss t) ↔ now < utc_day_start t + DAY_MS)
  ∧ (utc_day_start t + DAY_MS ≤ now → effective_halt s now = None ∧ st_halt (roll s now equity) = None).
Proof.
  intros E Hle. rewrite roll_halt. unfold effective_halt. rewrite E. cbn. pose proof (day_start_le t now Hle) as Hd.
  destruct (Z.leb_spec (utc_day_start now) t) as [H|H]; split.
  - by rewrite <-Hd.
  - intros. apply Hd in H. lia.
  - rewrite <-Hd. split; [done|lia].
  - done.
Qed.
Lemma daily_halts_witness :
  let t := StateCases.T + 20 * HOUR_MS in
  st_halt (roll (StateCases.state (Some (mkHalt DailyLoss t))) (StateCases.T + DAY_MS) None) = None.
Proof.
  intros t. refine (proj2 (proj2 (daily_halts_last_the_utc_day (StateCases.state (Some (mkHalt DailyLoss t))) t
    (StateCases.T + DAY_MS) None eq_refl ltac:(unfold t, DAY_MS, HOUR_MS; lia)) _)). vm_compute. discriminate.
Defined.

(** The equities the rolls of [ops] saw. *)
Definition roll_equity (op : StateOp) : option (option f64) := match op with ORoll _ e => Some e | _ => None end.
Definition rolls_on (day : Z) (op : StateOp) : Prop := match op with ORoll now _ => utc_day_start now = day | _ => True end.
(** The first finite equity of a list of rolls, when one rolled: the reference. *)
Definition first_known (ops : list StateOp) : option f64 := head (omap finite_only (omap roll_equity ops)).

Lemma other_day s op : (∀ now e, op ≠ ORoll now e) →
  day_utc_ms (op_step s op) = day_utc_ms s ∧ day_start_equity_usd (op_step s op) = day_start_equity_usd s.
Proof.
  intros H. destruct op as [now eq|now trips|now|now present]; cbn [op_step].
  - by destruct (H now eq).
  - unfold trip. by rewrite changed_utc, changed_equity.
  - unfold halt_operator, trip. by rewrite changed_utc, changed_equity.
  - destruct present; [done|]. cbn. by rewrite changed_utc, changed_equity.
Qed.
Lemma roll_same_day s now e : day_utc_ms s = Some (utc_day_start now) →
  day_utc_ms (roll s now e) = Some (utc_day_start now)
  ∧ day_start_equity_usd (roll s now e) = match day_start_equity_usd s with Some x => Some x | None => finite_only e end.
Proof.
  intros E. unfold roll. rewrite changed_utc, changed_equity, bool_decide_true by done. cbn [negb].
  by destruct (day_start_equity_usd s).
Qed.
Lemma roll_new_day s now e : day_utc_ms s ≠ Some (utc_day_start now) →
  day_utc_ms (roll s now e) = Some (utc_day_start now) ∧ day_start_equity_usd (roll s now e) = finite_only e.
Proof.
  intros E. unfold roll. by rewrite changed_utc, changed_equity, bool_decide_false.
Qed.
Lemma day_run day ops : Forall (rolls_on day) ops → ∀ s, day_utc_ms s = Some day →
  day_utc_ms (op_run s ops) = Some day
  ∧ day_start_equity_usd (op_run s ops) = match day_start_equity_usd s with Some x => Some x | None => first_known ops end.
Proof.
  induction 1 as [|op ops Hop Hops IH]; intros s E; [split; [done|]; cbn; by destruct (day_start_equity_usd s)|].
  cbn [op_run fold_left]. fold (op_run (op_step s op) ops).
  destruct op as [now e|now trips|now|now present].
  - cbn [rolls_on] in Hop. subst day. destruct (roll_same_day s now e E) as [E1 E2]. destruct (IH (op_step s (ORoll now e)) E1) as [-> ->].
    split; [done|]. cbn [op_step]. rewrite E2. destruct (day_start_equity_usd s); [done|]. unfold first_known. cbn.
    by destruct (finite_only e).
  - destruct (other_day s (OTrip now trips)) as [E1 E2]; [done|]. rewrite <-E2. apply IH. congruence.
  - destruct (other_day s (OOperator now)) as [E1 E2]; [done|]. rewrite <-E2. apply IH. congruence.
  - destruct (other_day s (OResume now present)) as [E1 E2]; [done|]. rewrite <-E2. apply IH. congruence.
Qed.

(** The base of a day's loss is the first equity known that day: whatever
    trips, halts and resumes come between, after the rolls of one UTC day the
    day's starting equity is the first finite equity one of them saw, and none
    until then; the equities of earlier days and later ones do not count. *)
Theorem day_starts_at_its_first_known_equity s now equity ops :
  day_utc_ms s ≠ Some (utc_day_start now) → Forall (rolls_on (utc_day_start now)) ops →
  day_utc_ms (op_run s (ORoll now equity :: ops)) = Some (utc_day_start now)
  ∧ day_start_equity_usd (op_run s (ORoll now equity :: ops)) = first_known (ORoll now equity :: ops).
Proof.
  intros Hd Ho. cbn [op_run fold_left op_step]. destruct (roll_new_day s now equity Hd) as [E1 E2].
  destruct (day_run _ ops Ho (roll s now equity) E1) as [H1 H2]. fold (op_run (roll s now equity) ops). split; [done|].
  rewrite H2, E2. unfold first_known. cbn. by destruct (finite_only equity).
Qed.
Lemma day_starts_witness :
  let t := StateCases.T + DAY_MS in
  day_start_equity_usd (op_run (StateCases.state None)
    [ORoll t None; OOperator t; ORoll (t + HOUR_MS) (Some S754_nan); ORoll (t + 2 * HOUR_MS) (Some (of_Z 97)); ORoll (t + 3 * HOUR_MS) (Some (of_Z 90))])
  = Some (of_Z 97).
Proof.
  intros t. etransitivity.
  - refine (proj2 (day_starts_at_its_first_known_equity (StateCases.state None) t None
      [OOperator t; ORoll (t + HOUR_MS) (Some S754_nan); ORoll (t + 2 * HOUR_MS) (Some (of_Z 97)); ORoll (t + 3 * HOUR_MS) (Some (of_Z 90))] _ _)).
    + vm_compute. discriminate.
    + repeat constructor.
  - vm_compute. reflexivity.
Defined.
