(* ===== verification/Cost.v ===== *)
(** * Execution costs ([src/src/domain/xm/cost.rs])

    Hyperliquid's tick and lot rounding, fee schedules, funding carry, gas and
    the edge after costs, in [f64]. A cost error is its message. *)

From Stdlib Require Import Ascii String.
From S2P Require Import Prelude.
From S2P Require Import Text.
From S2P Require Import F64.
From S2P Require Import Observation.
From S2P Require Import Book.

#[local] Open Scope string_scope.
#[local] Open Scope list_scope.
#[local] Open Scope Z_scope.

Abbreviation CostResult := (result string).

Definition finite (name : string) (v : f64) : CostResult f64 :=
  if is_finite v then Ok v else Err (name +:+ " " +:+ show v +:+ " is not finite").

(** ** Tick and lot *)

Inductive HlKind : Type := Perp | Spot.
Definition max_decimals (k : HlKind) : Z := match k with Perp => 6 | Spot => 8 end.
Definition HL_PRICE_SIG_FIGS : Z := 5.
Inductive Round : Type := Nearest | Down | Up.

(** [10f64.powi(n)]: exact at the number of decimals used here. *)
Definition pow10 (n : Z) : f64 := of_Z (10 ^ n).
Definition decimal_exponent (x : f64) : Z := sci_exponent (SFabs x).

(** 1e-9 *)
Definition GRID_EPS : f64 := of_decimal 1 (-9).
Definition round_to (x : f64) (decimals : Z) (r : Round) : f64 :=
  let scale := pow10 decimals in
  let scaled := (x * scale)%f64 in
  let nearest := round scaled in
  let units :=
    if (SFabs (scaled - nearest) <=? GRID_EPS * fmax (SFabs nearest) one)%f64 then nearest
    else
      match r with
      | Nearest => nearest
      | Down => trunc scaled
      | Up => (trunc scaled + signum scaled)%f64
      end in
  reparse_fixed (units / scale)%f64 (Z.to_nat decimals).

Definition hl_price_decimals (px : f64) (sz_decimals : Z) (kind : HlKind) : option Z :=
  if max_decimals kind <? sz_decimals then None
  else if negb (is_pos px) then None
  else Some (Z.max 0 (Z.min (max_decimals kind - sz_decimals) (HL_PRICE_SIG_FIGS - 1 - decimal_exponent px))).
Definition hl_round_px (px : f64) (sz_decimals : Z) (kind : HlKind) (r : Round) : option f64 :=
  decimals ← hl_price_decimals px sz_decimals kind;
  let out := round_to px decimals r in
  if (out >? zero)%f64 then Some out else None.
Definition hl_round_sz (sz : f64) (sz_decimals : Z) (r : Round) : option f64 :=
  if is_finite sz && (sz >=? zero)%f64 then Some (round_to sz sz_decimals r) else None.

Definition all_zero (s : string) : bool := str_forall (λ c, Ascii.eqb c "0") s.
Definition split_decimal (s : string) : option (string * string) :=
  let s := trim s in
  let '(int, frac) := default (s, EmptyString) (split_once "." s) in
  if (str_is_empty int && str_is_empty frac) || negb (str_forall is_ascii_digit int) || negb (str_forall is_ascii_digit frac) then None
  else if all_zero int && all_zero frac then None
  else Some (int, frac).

(** [trim_start_matches('0')]. *)
Fixpoint drop_zeros (s : string) : string :=
  match s with String c rest => if Ascii.eqb c "0" then drop_zeros rest else s | EmptyString => s end.
Definition hl_px_ok (px : string) (sz_decimals : Z) (kind : HlKind) : bool :=
  if max_decimals kind <? sz_decimals then false
  else
    let max := max_decimals kind - sz_decimals in
    match split_decimal px with
    | None => false
    | Some (int, frac) =>
        let frac := trim_zeros frac in
        if str_is_empty frac then true
        else
          let sig_figs := Z.of_nat (str_len (drop_zeros (drop_zeros int +:+ frac))) in
          (sig_figs <=? HL_PRICE_SIG_FIGS) && (Z.of_nat (str_len frac) <=? max)
    end.
Definition hl_sz_ok (sz : string) (sz_decimals : Z) : bool :=
  match split_decimal sz with
  | Some (_, frac) => Z.of_nat (str_len (trim_zeros frac)) <=? sz_decimals
  | None => false
  end.

(** [trim_end_matches('.')]: at most one is left here. *)
Fixpoint drop_last_dot (s : string) : string :=
  match s with
  | EmptyString => EmptyString
  | String c EmptyString => if Ascii.eqb c "." then EmptyString else s
  | String c rest => String c (drop_last_dot rest)
  end.
Definition hl_wire (x : f64) (decimals : Z) : string :=
  let s := show_fixed x (Z.to_nat decimals) in
  let s := match split_once "." s with Some _ => drop_last_dot (trim_zeros s) | None => s end in
  if String.eqb s "-0" then "0" else s.

(** ** Fees *)

Definition tenths (n : Z) : f64 := match n with Z.pos p => of_decimal p (-1) | _ => zero end.
Definition HL_PERP_TIERS_BPS : list (f64 * f64) :=
  map (λ '(t, m), (tenths t, tenths m)) [(45, 15); (40, 12); (35, 8); (30, 4); (28, 0); (26, 0); (24, 0)].
Definition HL_SPOT_TIERS_BPS : list (f64 * f64) :=
  map (λ '(t, m), (tenths t, tenths m)) [(70, 40); (60, 30); (50, 20); (40, 10); (35, 0); (30, 0); (25, 0)].
Definition HL_STAKING_DISCOUNT_PCT : list f64 := map of_Z [0; 5; 10; 15; 20; 30; 40].
Definition HL_GROWTH_MODE_SCALE : f64 := of_decimal 1 (-1).
Definition HL_MAX_DEPLOYER_FEE_SCALE : f64 := of_Z 3.
Definition HL_STABLE_PAIR_SCALE : f64 := of_decimal 2 (-1).
Definition BPS : f64 := of_Z 10000.

Inductive Liquidity : Type := Taker | Maker.
Record FeeSchedule : Type := mkFees {
  taker_bps : f64;
  maker_bps : f64;
}.
Definition fees_validate (s : FeeSchedule) : CostResult unit :=
  finite "maker_bps" (maker_bps s) ≫= λ _,
  finite "taker_bps" (taker_bps s) ≫= λ t,
  if negb (t >=? zero)%f64 then Err ("taker_bps " +:+ show (taker_bps s) +:+ " is negative") else Ok tt.
Definition fees_new (taker maker : f64) : CostResult FeeSchedule :=
  let s := mkFees taker maker in fees_validate s ≫= λ _, Ok s.
Definition fees_bps (s : FeeSchedule) (l : Liquidity) : f64 := match l with Taker => taker_bps s | Maker => maker_bps s end.
Definition fee_of (s : FeeSchedule) (l : Liquidity) (notional_usd : f64) : f64 := (SFabs notional_usd * fees_bps s l / BPS)%f64.

Record HlUserRates : Type := mkRates {
  u_taker : f64;
  u_maker : f64;
}.
(** [HL_STAKING_DISCOUNT_PCT] as its debug form prints it. *)
Definition DISCOUNTS : string := "[0.0, 5.0, 10.0, 15.0, 20.0, 30.0, 40.0]".
Definition from_tier (kind : HlKind) (tier : Z) (staking_discount_pct : f64) : CostResult HlUserRates :=
  let table := match kind with Perp => HL_PERP_TIERS_BPS | Spot => HL_SPOT_TIERS_BPS end in
  match table !! Z.to_nat tier with
  | None => Err ("fee tier " +:+ show_Z tier +:+ " is not 0-6")
  | Some (taker_bps, maker_bps) =>
      if negb (existsb (λ d, d =? staking_discount_pct)%f64 HL_STAKING_DISCOUNT_PCT) then
        Err ("staking_discount_pct " +:+ show staking_discount_pct +:+ " is not one of " +:+ DISCOUNTS)
      else
        let keep := (one - staking_discount_pct / of_Z 100)%f64 in
        Ok (mkRates (taker_bps / BPS * keep)%f64 (maker_bps / BPS * keep)%f64)
  end.

Inductive HlFeeMarket : Type :=
  | PerpMarket (deployer_fee_scale : f64) (growth_mode : bool)
  | SpotMarket (stable_pair : bool).

(** The scales of a market: stable pair, HIP-3, deployer share, growth. *)
Definition market_scales (m : HlFeeMarket) : CostResult (f64 * f64 * f64 * f64) :=
  match m with
  | SpotMarket stable_pair => Ok (if stable_pair then HL_STABLE_PAIR_SCALE else one, one, zero, one)
  | PerpMarket s growth_mode =>
      finite "deployer_fee_scale" s ≫= λ s,
      if negb ((zero <=? s) && (s <=? HL_MAX_DEPLOYER_FEE_SCALE))%f64 then
        Err ("deployer_fee_scale " +:+ show s +:+ " is not in [0, " +:+ show HL_MAX_DEPLOYER_FEE_SCALE +:+ "]")
      else
        Ok (one, (if (s <? one)%f64 then (s + one)%f64 else (s * of_Z 2)%f64),
            (if (s <? one)%f64 then (s / (one + s))%f64 else of_decimal 5 (-1)),
            if growth_mode then HL_GROWTH_MODE_SCALE else one)
  end.
Definition hl_fee_schedule (user : HlUserRates) (referral_discount : f64) (aligned_quote : bool) (market : HlFeeMarket)
    : CostResult FeeSchedule :=
  finite "taker rate" (u_taker user) ≫= λ t,
  if negb (t >=? zero)%f64 then Err ("taker rate " +:+ show (u_taker user) +:+ " is negative")
  else
    finite "maker rate" (u_maker user) ≫= λ _,
    finite "referral_discount" referral_discount ≫= λ r,
    if negb ((zero <=? r) && (r <? one))%f64 then
      Err ("referral_discount " +:+ show referral_discount +:+ " is not in [0, 1)")
    else
      market_scales market ≫= λ '(stable, hip3, deployer_share, growth),
      let maker_bps := (u_maker user * BPS * stable * growth)%f64 in
      let maker_bps :=
        if (maker_bps >? zero)%f64 then (maker_bps * (hip3 * (one - referral_discount)))%f64
        else if aligned_quote then (maker_bps * ((one - deployer_share) * of_decimal 15 (-1) + deployer_share))%f64
        else maker_bps in
      let taker_bps := (u_taker user * BPS * stable * hip3 * growth * (one - referral_discount))%f64 in
      let taker_bps :=
        if aligned_quote then (taker_bps * ((one - deployer_share) * of_decimal 8 (-1) + deployer_share))%f64 else taker_bps in
      fees_new taker_bps maker_bps.

(** ** Funding, gas, edge *)

Definition funding_carry_bps (rate_1h hours : f64) (side : Side) : CostResult f64 :=
  finite "rate_1h" rate_1h ≫= λ _,
  finite "hours" hours ≫= λ h,
  if negb (h >=? zero)%f64 then Err ("hours " +:+ show hours +:+ " is negative")
  else Ok (sign side * rate_1h * hours * BPS)%f64.
Definition gas_cost_usd (gas_units gas_price_wei : Z) (eth_usd : f64) : CostResult f64 :=
  finite "eth_usd" eth_usd ≫= λ e,
  if negb (e >? zero)%f64 then Err ("eth_usd " +:+ show eth_usd +:+ " is not > 0")
  else Ok (of_Z gas_units * of_Z gas_price_wei / of_Z (10 ^ 18) * eth_usd)%f64.

Record TakerCost : Type := mkTakerCost {
  tc_walk : Walk;
  fee_bps : f64;
  tc_fee_usd : f64;
  total_cost_bps : option f64;
}.
Definition taker_cost (book : L2Book) (side : Side) (target : WalkTarget) (fees : FeeSchedule) : CostResult TakerCost :=
  fees_validate fees ≫= λ _,
  match walk_book book side target None with
  | Err e => Err (show_book_error e)
  | Ok w =>
      let fee_bps := fees_bps fees Taker in
      Ok (mkTakerCost w fee_bps (fee_of fees Taker (filled_notional w))
            (s ← slippage_bps_vs_mid w; Some (s + fee_bps)%f64))
  end.

Record RoundTripCost : Type := mkRoundTrip {
  rt_notional_usd : f64;
  entry_fee_bps : f64;
  exit_fee_bps : f64;
  entry_slippage_bps : f64;
  exit_slippage_bps : f64;
  carry_bps : f64;
  gas_usd : f64;
}.
Fixpoint add_all (total : f64) (parts : list (string * f64)) : CostResult f64 :=
  match parts with
  | [] => Ok total
  | (name, v) :: parts => finite name v ≫= λ v, add_all (total + v)%f64 parts
  end.
Definition total_bps (c : RoundTripCost) : CostResult f64 :=
  finite "notional_usd" (rt_notional_usd c) ≫= λ n,
  if negb (n >? zero)%f64 then Err ("notional_usd " +:+ show (rt_notional_usd c) +:+ " is not > 0")
  else
    finite "gas_usd" (gas_usd c) ≫= λ g,
    if negb (g >=? zero)%f64 then Err ("gas_usd " +:+ show (gas_usd c) +:+ " is negative")
    else
      add_all (gas_usd c / rt_notional_usd c * BPS)%f64
        [("entry_fee_bps", entry_fee_bps c); ("exit_fee_bps", exit_fee_bps c); ("entry_slippage_bps", entry_slippage_bps c);
         ("exit_slippage_bps", exit_slippage_bps c); ("carry_bps", carry_bps c)].
Definition edge_after (gross_edge_bps : f64) (cost : RoundTripCost) : CostResult f64 :=
  finite "gross_edge_bps" gross_edge_bps ≫= λ g, total_bps cost ≫= λ t, Ok (g - t)%f64.

(** ** Cases of the tests in the source *)

Example price_cases :
  map (λ '(s, d, k), hl_px_ok s d k)
    [("1234.5", 0, Perp); ("1234.56", 0, Perp); ("0.001234", 0, Perp); ("0.0012345", 0, Perp); ("0.01234", 1, Perp); ("0.012345", 1, Perp);
     ("123456", 0, Perp); ("12345.6", 0, Perp); ("0.0001234", 1, Spot); ("0.0001234", 2, Spot); ("347.16", 3, Perp); ("34.7165", 3, Perp);
     ("", 0, Perp); (".", 0, Perp); ("0.000", 0, Perp); ("-1", 0, Perp); ("1e3", 0, Perp); ("1.2.3", 0, Perp); ("1", 7, Perp)]
  = [true; false; true; false; true; false; true; false; true; false; true; false; false; false; false; false; false; false; false].
Proof. vm_compute. reflexivity. Qed.

Example rounding_cases :
  hl_round_px (of_decimal 34716789 (-5)) 3 Perp Down = Some (of_decimal 34716 (-2))
  ∧ hl_round_px (of_decimal 34716789 (-5)) 3 Perp Up = Some (of_decimal 34717 (-2))
  ∧ hl_round_sz (of_decimal 1 (-1) + of_decimal 2 (-1))%f64 1 Down = Some (of_decimal 3 (-1))
  ∧ hl_round_px (of_decimal 1 (-9)) 0 Perp Down = None ∧ hl_wire (of_decimal 34710 (-2)) 6 = "347.1" ∧ hl_wire (- of_decimal 1 (-9))%f64 2 = "0"
  ∧ hl_wire (of_Z 20) 0 = "20".
Proof. vm_compute. done. Qed.

(** The worked fees of the module's doc: [xyz:TSLA] 0.9, [xyz:MSTR] 9, a validator perp 4.5 bps taker (to 9 decimals). *)
Example fee_cases :
  map (λ m, match from_tier Perp 0 zero ≫= λ u, hl_fee_schedule u zero false m with Ok s => hl_wire (taker_bps s) 9 | Err e => e end)
    [PerpMarket one true; PerpMarket one false; PerpMarket zero false; PerpMarket (of_Z 4) false]
  = ["0.9"; "9"; "4.5"; "deployer_fee_scale 4 is not in [0, 3]"].
Proof. vm_compute. reflexivity. Qed.
