(* ===== verification/Paper.v ===== *)
(** * The paper fill engine ([src/src/domain/xm/paper.rs])

    A market or IOC order against a book: the ten checks of the module's table
    in order, the depth walk, the taker fee. A check that rejects answers the
    rejected result in [Err]; the rest of [simulate_fill] continues in [Ok]. *)

From Stdlib Require Import Ascii String.
From S2P Require Import Prelude.
From S2P Require Import Text.
From S2P Require Import F64.
From S2P Require Import Observation.
From S2P Require Import Book.
From S2P Require Import Ledger.
From S2P Require Import Market.
From S2P Require Import Cost.

#[local] Open Scope string_scope.
#[local] Open Scope list_scope.
#[local] Open Scope Z_scope.

Definition HL_MIN_TRADE_NTL_USD : f64 := of_Z 10.
(** 1e-9 *)
Definition EPS : f64 := of_decimal 1 (-9).

(** ** Orders *)

Inductive OrderKind : Type := OMarket | OLimit.
#[export] Instance OrderKind_eq_dec : EqDecision OrderKind.
Proof. solve_decision. Defined.
Definition kind_str (k : OrderKind) : string := match k with OMarket => "market" | OLimit => "limit" end.
Inductive Tif : Type := Ioc.
Inductive OrderSize : Type := SizeQty (q : f64) | NotionalUsd (n : f64).

Record PaperOrder : Type := mkOrder {
  o_client_order_id : string;
  o_instrument : InstrumentId;
  o_side : Side;
  o_size : OrderSize;
  o_kind : OrderKind;
  o_tif : Tif;
  o_limit_px : option f64;
  o_reduce_only : bool;
  o_max_slippage_bps : f64;
  o_ref_mid : option f64;
}.

(** ** The venue *)

Record OracleBand : Type := mkBand {
  band_oracle_px : option f64;
  band_max_bps : f64;
}.
Record VenueRules : Type := mkRules {
  r_kind : HlKind;
  r_sz_decimals : Z;
  min_notional_usd : f64;
  oracle_band : option OracleBand;
  r_at_oi_cap : option bool;
}.
Definition rules_hyperliquid (kind : HlKind) (sz_decimals : Z) (at_oi_cap : option bool) : VenueRules :=
  mkRules kind sz_decimals HL_MIN_TRADE_NTL_USD None at_oi_cap.

(** [paper::MarketStatus]. *)
Inductive PaperStatus : Type := PsOpen | PsHalted | PsClosed | PsDelisted.
Definition paper_status_str (s : PaperStatus) : string :=
  match s with PsOpen => "open" | PsHalted => "halted" | PsClosed => "closed" | PsDelisted => "delisted" end.

Record FillEnv : Type := mkEnv {
  env_rules : VenueRules;
  env_status : PaperStatus;
  env_position : Position;
  env_fees : FeeSchedule;
  max_book_age_ms : Z;
  stale_book_ok : bool;
}.

(** ** Results *)

Inductive FillStatus : Type := FsFilled | FsPartial | FsRejected.
#[export] Instance FillStatus_eq_dec : EqDecision FillStatus.
Proof. solve_decision. Defined.

Inductive FillReason : Type :=
  | Tick | MinTradeNtl | RejReduceOnly | IocCancel | MarketOrderNoLiquidity | Oracle
  | PositionIncreaseAtOpenInterestCap | PositionFlipAtOpenInterestCap
  | InvalidOrder | OrderType | MarketHalted | MarketClosed | RejDelisted | StaleBook | BadBook
  | MissingMid | MissingOracle | MissingOiCap | Bound | NoDepth.
#[export] Instance FillReason_eq_dec : EqDecision FillReason.
Proof. solve_decision. Defined.
Definition reason_str (r : FillReason) : string :=
  match r with
  | Tick => "Tick" | MinTradeNtl => "MinTradeNtl" | RejReduceOnly => "ReduceOnly" | IocCancel => "IocCancel"
  | MarketOrderNoLiquidity => "MarketOrderNoLiquidity" | Oracle => "Oracle"
  | PositionIncreaseAtOpenInterestCap => "PositionIncreaseAtOpenInterestCap"
  | PositionFlipAtOpenInterestCap => "PositionFlipAtOpenInterestCap"
  | InvalidOrder => "invalid_order" | OrderType => "order_type" | MarketHalted => "market_halted"
  | MarketClosed => "market_closed" | RejDelisted => "delisted" | StaleBook => "stale_book" | BadBook => "bad_book"
  | MissingMid => "missing:mid" | MissingOracle => "missing:oracle" | MissingOiCap => "missing:at_oi_cap"
  | Bound => "bound" | NoDepth => "depth"
  end.
Definition is_transient (r : FillReason) : bool :=
  match r with
  | MissingMid | MissingOracle | MissingOiCap | BadBook | StaleBook | MarketOrderNoLiquidity | IocCancel | Bound | NoDepth
  | Oracle | PositionIncreaseAtOpenInterestCap | PositionFlipAtOpenInterestCap | MarketHalted | MarketClosed => true
  | MinTradeNtl | Tick | RejReduceOnly | InvalidOrder | OrderType | RejDelisted => false
  end.
Definition hl_error (r : FillReason) : option string :=
  match r with
  | Tick => Some "Price must be divisible by tick size."
  | MinTradeNtl => Some "Order must have minimum value of $10."
  | RejReduceOnly => Some "Reduce only order would increase position."
  | IocCancel => Some "Order could not immediately match against any resting orders."
  | MarketOrderNoLiquidity => Some "No liquidity available for market order."
  | Oracle => Some "Order price too far from oracle"
  | PositionIncreaseAtOpenInterestCap | PositionFlipAtOpenInterestCap =>
      Some "Order would increase open interest while open interest is capped"
  | _ => None
  end.

Record FillResult : Type := mkResult {
  fr_client_order_id : string;
  fr_instrument : InstrumentId;
  fr_side : Side;
  fr_kind : OrderKind;
  fr_reduce_only : bool;
  fr_status : FillStatus;
  fr_reason : option FillReason;
  fr_message : option string;
  order_qty : option f64;
  ref_px : option f64;
  bound_px : option f64;
  fr_fills : list LevelFill;
  fr_filled_qty : f64;
  filled_notional_usd : f64;
  fr_avg_px : option f64;
  fr_mid : option f64;
  slippage_bps : option f64;
  fr_fee_usd : f64;
  fr_book_age_ms : option Z;
  stale_book : bool;
}.

Definition pending (o : PaperOrder) (age : option Z) : FillResult :=
  mkResult (o_client_order_id o) (o_instrument o) (o_side o) (o_kind o) (o_reduce_only o) FsRejected None None None None None []
    zero zero None None None zero age false.
Definition message (reason : FillReason) (detail : string) : string :=
  match hl_error reason with Some hl => hl +:+ " (" +:+ detail +:+ ")" | None => detail end.
Definition reject (r : FillResult) (reason : FillReason) (detail : string) : FillResult :=
  mkResult (fr_client_order_id r) (fr_instrument r) (fr_side r) (fr_kind r) (fr_reduce_only r) FsRejected (Some reason)
    (Some (message reason detail)) (order_qty r) (ref_px r) (bound_px r) (fr_fills r) (fr_filled_qty r) (filled_notional_usd r)
    (fr_avg_px r) (fr_mid r) (slippage_bps r) (fr_fee_usd r) (fr_book_age_ms r) (stale_book r).
Definition refused (o : PaperOrder) (reason : FillReason) (detail : string) : FillResult := reject (pending o None) reason detail.

(** The fields [simulate_fill] sets on the way. *)
Definition with_progress (r : FillResult) (mid : option f64) (stale : bool) (ref bound qty : option f64) : FillResult :=
  mkResult (fr_client_order_id r) (fr_instrument r) (fr_side r) (fr_kind r) (fr_reduce_only r) (fr_status r) (fr_reason r)
    (fr_message r) qty ref bound (fr_fills r) (fr_filled_qty r) (filled_notional_usd r) (fr_avg_px r) mid (slippage_bps r)
    (fr_fee_usd r) (fr_book_age_ms r) stale.
Definition set_mid (r : FillResult) (m : option f64) := with_progress r m (stale_book r) (ref_px r) (bound_px r) (order_qty r).
Definition set_stale (r : FillResult) := with_progress r (fr_mid r) true (ref_px r) (bound_px r) (order_qty r).
Definition set_ref (r : FillResult) (x : f64) := with_progress r (fr_mid r) (stale_book r) (Some x) (bound_px r) (order_qty r).
Definition set_bound (r : FillResult) (x : f64) := with_progress r (fr_mid r) (stale_book r) (ref_px r) (Some x) (order_qty r).
Definition set_qty (r : FillResult) (x : f64) := with_progress r (fr_mid r) (stale_book r) (ref_px r) (bound_px r) (Some x).

Definition ledger_fill (r : FillResult) (underlying : string) (ts_ms : Z) : option Fill :=
  px ← fr_avg_px r;
  if (fr_filled_qty r >? zero)%f64 then
    Some (mkFill (show_id (fr_instrument r)) underlying (i_venue (fr_instrument r)) (fr_side r) (fr_filled_qty r) px (fr_fee_usd r) ts_ms)
  else None.

(** ** The checks *)

Definition check_order (o : PaperOrder) (env : FillEnv) : result string unit :=
  let p := env_position env in
  let s := o_max_slippage_bps o in
  let r := env_rules env in
  if str_is_empty (trim (o_client_order_id o)) then Err "client_order_id is empty"
  else if negb (String.eqb (instrument p) (show_id (o_instrument o))) then
    Err ("position is for " +:+ instrument p +:+ ", the order for " +:+ show_id (o_instrument o))
  else if negb (is_finite (qty p)) then Err ("position qty " +:+ show (qty p) +:+ " is not finite")
  else
    match o_size o with
    | SizeQty q => if negb (is_pos q) then Err ("qty " +:+ show q +:+ " is not > 0") else Ok tt
    | NotionalUsd n => if negb (is_pos n) then Err ("notional_usd " +:+ show n +:+ " is not > 0") else Ok tt
    end ≫= λ _,
    if negb (is_pos s && (s <? of_Z 10000)%f64) then Err ("max_slippage_bps " +:+ show s +:+ " is not in (0, 10000)")
    else
      match o_ref_mid o with
      | Some m => if negb (is_pos m) then Err ("ref_mid " +:+ show m +:+ " is not > 0") else Ok tt
      | None => Ok tt
      end ≫= λ _,
      match o_kind o, o_limit_px o with
      | OLimit, None => Err "a limit order needs limit_px"
      | OLimit, Some px => if negb (is_pos px) then Err ("limit_px " +:+ show px +:+ " is not > 0") else Ok tt
      | OMarket, Some _ => Err "a market order takes no limit_px (max_slippage_bps bounds it)"
      | OMarket, None => Ok tt
      end ≫= λ _,
      if max_decimals (r_kind r) <? r_sz_decimals r then
        Err ("sz_decimals " +:+ show_Z (r_sz_decimals r) +:+ " exceeds " +:+ show_Z (max_decimals (r_kind r)))
      else if negb (is_finite (min_notional_usd r) && (min_notional_usd r >=? zero)%f64) then
        Err ("min_notional_usd " +:+ show (min_notional_usd r) +:+ " is not >= 0")
      else
        match oracle_band r with
        | Some b => if negb (is_pos (band_max_bps b)) then Err ("oracle band max_bps " +:+ show (band_max_bps b) +:+ " is not > 0") else Ok tt
        | None => Ok tt
        end ≫= λ _,
        match fees_validate (env_fees env) with Ok _ => Ok tt | Err e => Err ("fees: " +:+ e) end.

Definition no_fill (k : OrderKind) : FillReason := match k with OMarket => MarketOrderNoLiquidity | OLimit => IocCancel end.

(** A check rejects, or goes on with the result so far and a value. *)
Abbreviation Step := (result FillResult).

(** 1-3: inputs, market, book age. *)
Definition check_inputs (o : PaperOrder) (book : L2Book) (age : Z) (env : FillEnv) : Step FillResult :=
  let r := set_mid (pending o (Some age)) (mid book) in
  match check_order o env with
  | Err what => Err (reject r InvalidOrder what)
  | Ok _ =>
      let closed :=
        match env_status env with
        | PsOpen => None | PsHalted => Some MarketHalted | PsClosed => Some MarketClosed | PsDelisted => Some RejDelisted
        end in
      match closed with
      | Some reason => Err (reject r reason (show_id (o_instrument o) +:+ " is " +:+ paper_status_str (env_status env)))
      | None =>
          if max_book_age_ms env <? age then
            if negb (stale_book_ok env && o_reduce_only o) then
              Err (reject r StaleBook ("book age " +:+ show_Z age +:+ " ms > " +:+ show_Z (max_book_age_ms env) +:+ " ms"))
            else Ok (set_stale r)
          else Ok r
      end ≫= λ r,
      match validate book with
      | Err e => Err (reject r BadBook (show_book_error e))
      | Ok _ => Ok r
      end
  end.

(** 4: the reference price. *)
Definition reference (o : PaperOrder) (book : L2Book) (r : FillResult) : Step (FillResult * f64) :=
  match (match o_ref_mid o with Some m => Some m | None => fr_mid r end) with
  | Some px => Ok (set_ref r px, px)
  | None =>
      if bool_decide (length (liquidity book (o_side o)) = O) then
        Err (reject r (no_fill (o_kind o)) "the book side it would take is empty")
      else Err (reject r MissingMid "one-sided book and no ref_mid: no mid to bound slippage")
  end.

(** 5: the bound on the tick grid. *)
Definition slip_bound (o : PaperOrder) (rules : VenueRules) (ref_px : f64) : option f64 :=
  let slip := (o_max_slippage_bps o / of_Z 10000)%f64 in
  match o_side o with
  | Buy => hl_round_px (ref_px * (one + slip))%f64 (r_sz_decimals rules) (r_kind rules) Down
  | Sell => hl_round_px (ref_px * (one - slip))%f64 (r_sz_decimals rules) (r_kind rules) Up
  end.
Definition bound_of (o : PaperOrder) (rules : VenueRules) (r : FillResult) (ref_px : f64) : Step (FillResult * f64) :=
  match slip_bound o rules ref_px with
  | None => Err (reject r Tick ("no valid price for the slippage bound of ref " +:+ show ref_px))
  | Some slip_bound =>
      match o_limit_px o with
      | Some limit =>
          let wire := hl_wire limit (max_decimals (r_kind rules)) in
          if negb (hl_px_ok wire (r_sz_decimals rules) (r_kind rules)) then
            Err (reject r Tick ("limit_px " +:+ show limit +:+ ": at most 5 significant figures and "
                                +:+ show_Z (max_decimals (r_kind rules) - r_sz_decimals rules) +:+ " decimals"))
          else Ok (match o_side o with Buy => fmin limit slip_bound | Sell => fmax limit slip_bound end)
      | None => Ok slip_bound
      end ≫= λ bound, Ok (set_bound r bound, bound)
  end.

(** 6: the oracle band. *)
Definition check_oracle (rules : VenueRules) (r : FillResult) (bound : f64) : Step unit :=
  match oracle_band rules with
  | None => Ok tt
  | Some band =>
      match (o ← band_oracle_px band; if is_pos o then Some o else None) with
      | None => Err (reject r MissingOracle ("oracle unknown, band " +:+ show (band_max_bps band) +:+ " bps"))
      | Some oracle =>
          let dev_bps := (SFabs ((bound - oracle) / oracle) * of_Z 10000)%f64 in
          if (dev_bps >? band_max_bps band)%f64 then
            Err (reject r Oracle ("px " +:+ show bound +:+ " is " +:+ show_fixed dev_bps 1 +:+ " bps from oracle " +:+ show oracle
                                  +:+ " > " +:+ show (band_max_bps band) +:+ " bps"))
          else Ok tt
      end
  end.

(** 7: the size, and whether it closes the whole position. *)
Definition wanted (o : PaperOrder) (ref_px : f64) : f64 :=
  match o_size o with SizeQty q => q | NotionalUsd n => (n / ref_px)%f64 end.
Definition size_of (o : PaperOrder) (env : FillEnv) (r : FillResult) (ref_px : f64) : Step (FillResult * f64 * bool) :=
  let held := qty (env_position env) in
  let open := SFabs held in
  let want := wanted o ref_px in
  (if o_reduce_only o then
     if (held =? zero)%f64 || (signum held =? sign (o_side o))%f64 then
       let pos_side := match side (env_position env) with Some s => side_str s | None => "flat" end in
       Err (reject r RejReduceOnly (side_str (o_side o) +:+ " against position " +:+ pos_side +:+ " " +:+ show held))
     else if (want >=? open * (one - EPS))%f64 then Ok (open, true)
     else Ok (want, false)
   else Ok (want, false)) ≫= λ '(want, whole_position),
  match hl_round_sz want (r_sz_decimals (env_rules env)) Down with
  | None => Err (reject r InvalidOrder ("size " +:+ show want +:+ " is not >= 0"))
  | Some q => Ok (set_qty r q, q, whole_position)
  end.

(** 8: the minimum value. *)
Definition check_min (rules : VenueRules) (r : FillResult) (q bound : f64) (whole_position : bool) : Step unit :=
  let value := (q * bound)%f64 in
  let min := min_notional_usd rules in
  if (q <=? zero)%f64 || (negb whole_position && (value + EPS * fmax min one <? min)%f64) then
    Err (reject r MinTradeNtl ("size " +:+ show q +:+ " × px " +:+ show bound +:+ " = $" +:+ show_fixed value 5 +:+ " < $" +:+ show min
                               +:+ " (sizes round down to " +:+ show_Z (r_sz_decimals rules) +:+ " decimals)"))
  else Ok tt.

(** 9: the open-interest cap. *)
Definition flips (held q : f64) (s : Side) : bool :=
  negb (held =? zero)%f64 && negb (signum held =? sign s)%f64 && (q >? SFabs held * (one + EPS))%f64.
Definition adds (held : f64) (s : Side) : bool := (held =? zero)%f64 || (signum held =? sign s)%f64.
Definition check_cap (o : PaperOrder) (env : FillEnv) (r : FillResult) (q : f64) : Step unit :=
  let held := qty (env_position env) in
  if negb (o_reduce_only o) && (adds held (o_side o) || flips held q (o_side o)) then
    match r_at_oi_cap (env_rules env) with
    | Some false => Ok tt
    | Some true =>
        let reason := if flips held q (o_side o) then PositionFlipAtOpenInterestCap else PositionIncreaseAtOpenInterestCap in
        Err (reject r reason (show_id (o_instrument o) +:+ " is at its OI cap"))
    | None =>
        Err (reject r MissingOiCap ("OI cap state of " +:+ show_id (o_instrument o) +:+ " unknown; only reducing orders pass"))
    end
  else Ok tt.

(** 10: the walk. *)
Definition filled_by (r : FillResult) (rules : VenueRules) (fees : FeeSchedule) (q bound : f64) (w : Walk) : FillResult :=
  let '(status, reason) :=
    match w_end w with Filled => (FsFilled, None) | Limit => (FsPartial, Some Bound) | Depth_ => (FsPartial, Some NoDepth) end in
  let message :=
    reason ← reason;
    let why :=
      if bool_decide (reason = Bound) then "the next level is beyond the bound " +:+ show bound
      else "visible depth ran out after " +:+ show_Z (Z.of_nat (levels_used w)) +:+ " levels" in
    let filled := hl_wire (filled_qty w) (r_sz_decimals rules) in
    Some (filled +:+ " of " +:+ show q +:+ " filled, rest canceled: " +:+ why) in
  mkResult (fr_client_order_id r) (fr_instrument r) (fr_side r) (fr_kind r) (fr_reduce_only r) status reason message
    (order_qty r) (ref_px r) (bound_px r) (fills w) (filled_qty w) (filled_notional w) (vwap w) (fr_mid r) (slippage_bps_vs_mid w)
    (fee_of fees Taker (filled_notional w)) (fr_book_age_ms r) (stale_book r).
Definition walk_to (o : PaperOrder) (book : L2Book) (env : FillEnv) (r : FillResult) (q bound : f64) : Step FillResult :=
  match walk_book book (o_side o) (Qty q) (Some bound) with
  | Err e => Err (reject r InvalidOrder (show_book_error e))
  | Ok w =>
      if (filled_qty w <=? zero)%f64 then
        let why :=
          match touch book (o_side o) with
          | Some touch => "best " +:+ show touch +:+ " is beyond the bound " +:+ show bound
          | None => "the book side it would take is empty"
          end in
        Err (reject r (no_fill (o_kind o)) why)
      else Ok (filled_by r (env_rules env) (env_fees env) q bound w)
  end.

(** The checks in the order of the code. *)
Definition simulate_steps (o : PaperOrder) (book : L2Book) (age : Z) (env : FillEnv) : Step FillResult :=
  check_inputs o book age env ≫= λ r,
  reference o book r ≫= λ '(r, ref),
  bound_of o (env_rules env) r ref ≫= λ '(r, bound),
  check_oracle (env_rules env) r bound ≫= λ _,
  size_of o env r ref ≫= λ '(r, q, whole_position),
  check_min (env_rules env) r q bound whole_position ≫= λ _,
  check_cap o env r q ≫= λ _,
  walk_to o book env r q bound.
Definition simulate_fill (o : PaperOrder) (book : L2Book) (age : Z) (env : FillEnv) : FillResult :=
  match simulate_steps o book age env with Ok r => r | Err r => r end.

Definition jittered_latency_ms (base_ms jitter_ms : Z) (rand01 : f64) : Z :=
  let r := if (zero <=? rand01)%f64 && (rand01 <=? one)%f64 then rand01 else of_decimal 5 (-1) in
  let ms := (of_Z base_ms + (of_Z 2 * r - one) * of_Z jitter_ms)%f64 in
  as_u64_sat (fmax (round ms) zero).
