(* ===== verification/Backoff.v ===== *)
(** * Retry policy and circuit breaker ([src/src/domain/backoff.rs])

    [next_delay] decides what follows a failed attempt; [CircuitBreaker] is
    the fail-fast automaton. Time and randomness are inputs. Integers are [Z]
    in their Rust range; the jitter's [f64] arithmetic is IEEE-754 binary64
    ([SpecFloat]). The token bucket of the file (continuous refill in [f64])
    is not modelled. *)

From Stdlib Require Import Ascii String.
From Stdlib Require Import SpecFloat.
From S2P Require Import Prelude.

#[local] Open Scope list_scope.
#[local] Open Scope Z_scope.

(** [domain::observation::ErrorClass]. *)
Inductive ErrorClass : Type :=
  | QuotaExhausted | RateLimited | AuthRequired | Timeout | Transient | Decode | NotApplicable | Fatal.

#[export] Instance ErrorClass_eq_dec : EqDecision ErrorClass.
Proof. solve_decision. Defined.

Record BackoffPolicy : Type := mkPolicy {
  base_ms : Z;
  cap_ms : Z;
  min_ms : Z;
  max_attempts : Z;
  quota_park_ms : Z;
}.

Definition FEED : BackoffPolicy := mkPolicy 1000 60000 1000 u32_max 3600000.

Inductive Delay : Type := Retry (ms : Z) | Park (ms : Z) | Stop.

#[export] Instance Delay_eq_dec : EqDecision Delay.
Proof. solve_decision. Defined.

(** ** [f64] *)
Definition f64_of_u64 (v : Z) : spec_float := binary_normalize 53 1024 v 0 false.
Definition f64_mul : spec_float → spec_float → spec_float := SFmul 53 1024.
Definition f64_zero : spec_float := S754_zero false.
Definition f64_one : spec_float := f64_of_u64 1.
Definition f64_half : spec_float := S754_finite false 4503599627370496 (-53).

(** [x.round() as u64]: half away from zero; the cast saturates, NaN is 0. *)
Definition round_u64 (x : spec_float) : Z :=
  match x with
  | S754_zero _ | S754_nan => 0
  | S754_infinity s => if s then 0 else u64_max
  | S754_finite true _ _ => 0
  | S754_finite false m e =>
      Z.min u64_max
        (if 0 <=? e then Z.pos m * 2 ^ e else (2 * Z.pos m + 2 ^ (- e)) / (2 * 2 ^ (- e)))
  end.

(** ** [next_delay] *)

Definition saturating_mul_u64 (a b : Z) : Z := Z.min (a * b) u64_max.

Definition jittered_exp (attempt : Z) (policy : BackoffPolicy) (rand01 : spec_float) : Z :=
  let factor := Z.shiftl 1 (Z.min (attempt - 1) 40) in
  let exp := Z.max (Z.min (saturating_mul_u64 (base_ms policy) factor) (cap_ms policy)) (min_ms policy) in
  let r := if SFleb f64_zero rand01 && SFleb rand01 f64_one then rand01 else f64_half in
  let lo := Z.min (min_ms policy) exp in
  lo + round_u64 (f64_mul (f64_of_u64 (exp - lo)) r).

Definition next_delay (class : ErrorClass) (attempt : Z) (retry_after_ms : option Z)
    (policy : BackoffPolicy) (rand01 : spec_float) : Delay :=
  match class with
  | AuthRequired | Fatal | Decode | NotApplicable => Stop
  | QuotaExhausted => Park (default (quota_park_ms policy) retry_after_ms)
  | RateLimited | Transient | Timeout =>
      let attempt := Z.max attempt 1 in
      if max_attempts policy <? attempt then Stop
      else
        let wait := jittered_exp attempt policy rand01 in
        if negb (bool_decide (class = RateLimited)) then Retry wait
        else
          let wait := Z.max wait (default 0 retry_after_ms) in
          if cap_ms policy <? wait then Park wait else Retry wait
  end.

(** ** The circuit breaker *)

Record CircuitBreaker : Type := mkBreaker {
  threshold : Z;
  cooldown_ms : Z;
  failures : Z;
  open_until_ms : option Z;
}.

Definition breaker_new (threshold cooldown_ms : Z) : CircuitBreaker :=
  mkBreaker (Z.max threshold 1) cooldown_ms 0 None.

(** [v as i64] of a [u64], [v as u64] of an [i64]. *)
Definition as_i64 (v : Z) : Z := if v <=? i64_max then v else v - 2 ^ 64.
Definition as_u64 (v : Z) : Z := v mod 2 ^ 64.
Definition saturating_add_i64 (a b : Z) : Z := Z.max i64_min (Z.min i64_max (a + b)).

(** [Err ms]: open, fail fast. *)
Definition allow (b : CircuitBreaker) (now_ms : Z) : result Z unit :=
  match open_until_ms b with
  | Some until => if now_ms <? until then Err (as_u64 (until - now_ms)) else Ok tt
  | None => Ok tt
  end.

Definition record_success (b : CircuitBreaker) : CircuitBreaker :=
  mkBreaker (threshold b) (cooldown_ms b) 0 None.

Definition record_failure (b : CircuitBreaker) (now_ms : Z) : CircuitBreaker :=
  let f := Z.min (failures b + 1) u32_max in
  mkBreaker (threshold b) (cooldown_ms b) f
    (if threshold b <=? f then Some (saturating_add_i64 now_ms (as_i64 (cooldown_ms b)))
     else open_until_ms b).

(** What the breaker is told. *)
Inductive Told : Type := Success | Failure (now_ms : Z).

Definition tell (b : CircuitBreaker) (t : Told) : CircuitBreaker :=
  match t with Success => record_success b | Failure now => record_failure b now end.

(** * Properties *)

Lemma round_u64_nonneg x : 0 ≤ round_u64 x.
Proof.
  destruct x as [|[]| |[] m e]; simpl; try (unfold_ints; lia).
  apply Z.min_glb; [ilia|]. destruct (Z.leb_spec 0 e).
  - apply Z.mul_nonneg_nonneg; [lia|]. by apply Z.pow_nonneg.
  - pose proof (Z.pow_pos_nonneg 2 (- e)). apply Z.div_pos; lia.
Qed.

(** A wait is never below the policy's floor. *)
Lemma jittered_exp_floor attempt policy r : min_ms policy ≤ jittered_exp attempt policy r.
Proof. unfold jittered_exp. pose proof (round_u64_nonneg (f64_mul (f64_of_u64
    (Z.max (Z.min (saturating_mul_u64 (base_ms policy) (Z.shiftl 1 (Z.min (attempt - 1) 40))) (cap_ms policy))
       (min_ms policy) - Z.min (min_ms policy)
      (Z.max (Z.min (saturating_mul_u64 (base_ms policy) (Z.shiftl 1 (Z.min (attempt - 1) 40))) (cap_ms policy))
         (min_ms policy)))) (if SFleb f64_zero r && SFleb r f64_one then r else f64_half))). lia.
Qed.

(** The classes no retry helps. *)
Definition terminal (c : ErrorClass) : bool :=
  match c with AuthRequired | Fatal | Decode | NotApplicable => true | _ => false end.

(** The retry table. A failure is reported exactly for a terminal class or
    once the attempts of a retry class are used up; a retry waits at least the
    policy's floor and at least what the server asked, and a rate-limited one
    at most the cap; only a spent quota or a rate-limit wait above the cap
    parks the source, for at least what the server asked. *)
Theorem next_delay_follows_the_table class attempt retry_after policy r :
  match next_delay class attempt retry_after policy r with
  | Stop => terminal class = true
            ∨ class ≠ QuotaExhausted ∧ max_attempts policy < Z.max attempt 1
  | Retry ms => (class = RateLimited ∨ class = Transient ∨ class = Timeout)
      ∧ Z.max attempt 1 ≤ max_attempts policy ∧ min_ms policy ≤ ms
      ∧ (class = RateLimited → default 0 retry_after ≤ ms ≤ cap_ms policy)
  | Park ms =>
      class = QuotaExhausted ∧ ms = default (quota_park_ms policy) retry_after
      ∨ class = RateLimited ∧ Z.max attempt 1 ≤ max_attempts policy
        ∧ cap_ms policy < ms ∧ default 0 retry_after ≤ ms
  end.
Proof.
  pose proof (jittered_exp_floor (Z.max attempt 1) policy r) as Hj. unfold next_delay, terminal.
  destruct class; simpl; auto;
    (destruct (Z.ltb_spec (max_attempts policy) (Z.max attempt 1)); [auto|]).
  - destruct (Z.ltb_spec (cap_ms policy) (Z.max (jittered_exp (Z.max attempt 1) policy r) (default 0 retry_after))).
    + right. split_and!; auto. lia.
    + split_and!; auto; lia.
  - split_and!; auto. done.
  - split_and!; auto. done.
Qed.

(** The failures since the last success, and the time of the last one. *)
Fixpoint streak (h : list Told) : Z :=
  match h with [] => 0 | Failure _ :: h => 1 + streak h | Success :: _ => 0 end.
Definition last_failure (h : list Told) : option Z :=
  match h with Failure t :: _ => Some t | _ => None end.

(** What a breaker that was told [h] (latest first) must answer. *)
Definition allow_spec (threshold cooldown : Z) (h : list Told) (now : Z) : result Z unit :=
  match last_failure h with
  | Some t =>
      if (Z.max threshold 1 <=? streak h) && (now <? saturating_add_i64 t cooldown)
      then Err (saturating_add_i64 t cooldown - now) else Ok tt
  | None => Ok tt
  end.

Lemma streak_nonneg h : 0 ≤ streak h.
Proof. induction h as [|[] h IH]; simpl; lia. Qed.

Lemma breaker_state threshold_ cooldown h : 0 ≤ threshold_ ≤ u32_max → 0 ≤ cooldown ≤ i64_max →
  foldr (λ t b, tell b t) (breaker_new threshold_ cooldown) h
  = mkBreaker (Z.max threshold_ 1) cooldown (Z.min (streak h) u32_max)
      (match last_failure h with
       | Some t => if Z.max threshold_ 1 <=? streak h then Some (saturating_add_i64 t cooldown) else None
       | None => None
       end).
Proof.
  intros Ht Hc. induction h as [|[|t] h IH]; simpl; [done|by rewrite IH|].
  rewrite IH. unfold tell, record_failure. cbn [threshold cooldown_ms failures open_until_ms].
  pose proof (streak_nonneg h).
  replace (Z.min (Z.min (streak h) u32_max + 1) u32_max) with (Z.min (1 + streak h) u32_max) by lia.
  f_equal. replace (as_i64 cooldown) with cooldown.
  2:{ unfold as_i64. destruct (Z.leb_spec cooldown i64_max); lia. }
  replace (Z.max threshold_ 1 <=? Z.min (1 + streak h) u32_max) with (Z.max threshold_ 1 <=? 1 + streak h).
  2:{ destruct (Z.leb_spec (Z.max threshold_ 1) (1 + streak h)), 
        (Z.leb_spec (Z.max threshold_ 1) (Z.min (1 + streak h) u32_max)); try done; ilia. }
  destruct (Z.leb_spec (Z.max threshold_ 1) (1 + streak h)); [done|].
  destruct (last_failure h); [|done]. destruct (Z.leb_spec (Z.max threshold_ 1) (streak h)); [lia|done].
Qed.

(** The breaker refines its contract: whatever it was told, it fails fast
    exactly while the last [threshold] calls or more all failed and the
    cooldown since the last failure is not over, and it names the time left; a
    success closes it, and once the cooldown is over the next failure re-opens
    it at once. *)
Theorem breaker_refines_its_contract threshold_ cooldown h now
    (Ht : 0 ≤ threshold_ ≤ u32_max) (Hc : 0 ≤ cooldown ≤ i64_max) (Hn : i64_min ≤ now) :
  allow (foldr (λ t b, tell b t) (breaker_new threshold_ cooldown) h) now
  = allow_spec threshold_ cooldown h now.
Proof.
  rewrite breaker_state by done. unfold allow, allow_spec. cbn [open_until_ms].
  destruct (last_failure h) as [t|]; [|done].
  destruct (Z.max threshold_ 1 <=? streak h); simpl; [|done].
  destruct (Z.ltb_spec now (saturating_add_i64 t cooldown)); [|done]. f_equal.
  unfold as_u64. apply Z.mod_small. unfold saturating_add_i64 in *. ilia.
Qed.

Lemma breaker_refines_its_contract_witness :
  allow (foldr (λ t b, tell b t) (breaker_new 2 1000) [Failure 50; Failure 20; Success; Failure 0]) 100
  = Err 950
  ∧ allow_spec 2 1000 [Failure 50; Failure 20; Success; Failure 0] 100 = Err 950.
Proof.
  split; [|reflexivity].
  etransitivity; [apply (breaker_refines_its_contract 2 1000); vm_compute; intuition congruence|reflexivity].
Defined.
