(* ===== verification/Plan.v ===== *)
(** * Plans ([src/src/domain/plan.rs])

    A plan is the planner's list of steps with dependencies. [validate] is the
    check every plan passes before a step runs; [ready_steps] and [leaves] are
    the executor's topology helpers. A Rust panic is [None]. The iteration
    order of [in_deg], a [HashMap], is the parameter [hash_order]: some
    permutation of the keys. *)

From Stdlib Require Import Ascii String.
From S2P Require Import Prelude.

#[local] Open Scope list_scope.

Notation StepId := string.

Record AgentCompose : Type := mkCompose {
  base_agent : string;
  c_skills : list string;
  c_tools : list string;
}.

Record Step : Type := mkStep {
  id : StepId;
  agent : string;
  goal : string;
  depends_on : list StepId;
  compose : option AgentCompose;
}.

#[export] Instance AgentCompose_eq_dec : EqDecision AgentCompose.
Proof. solve_decision. Defined.
#[export] Instance Step_eq_dec : EqDecision Step.
Proof. solve_decision. Defined.

(** [Plan { steps }]. *)
Notation Plan := (list Step).

Inductive PlanError : Type :=
  | Empty
  | DuplicateId (s : StepId)
  | UnknownAgent (s : StepId) (name : string) (known : list string)
  | UnknownDependency (s d : StepId)
  | Cycle (s : StepId).

Definition error_step (e : PlanError) : option StepId :=
  match e with
  | Empty => None
  | DuplicateId s | UnknownAgent s _ _ | UnknownDependency s _ | Cycle s => Some s
  end.

Definition ready (completed : gset StepId) (s : Step) : bool :=
  bool_decide (id s ∉ completed) && forallb (λ d, bool_decide (d ∈ completed)) (depends_on s).

Definition ready_steps (plan : Plan) (completed : gset StepId) : list Step :=
  List.filter (ready completed) plan.

Definition has_dep_on (plan : Plan) : gset StepId := list_to_set (List.concat (map depends_on plan)).

Definition leaves (plan : Plan) : list Step :=
  List.filter (λ s, negb (bool_decide (id s ∈ has_dep_on plan))) plan.

(** ** [validate] *)

(** The agent a step runs: its composed base, else its own. *)
Definition step_agent (s : Step) : string :=
  match compose s with Some c => base_agent c | None => agent s end.

Fixpoint find_duplicate (seen : gset StepId) (plan : Plan) : option StepId :=
  match plan with
  | [] => None
  | s :: plan => if decide (id s ∈ seen) then Some (id s) else find_duplicate ({[id s]} ∪ seen) plan
  end.

Definition find_unknown_agent (known : list string) (plan : Plan) : option Step :=
  List.find (λ s, negb (existsb (λ a, String.eqb a (step_agent s)) known)) plan.

Fixpoint find_unknown_dep (ids : gset StepId) (plan : Plan) : option (StepId * StepId) :=
  match plan with
  | [] => None
  | s :: plan =>
      match List.find (λ d, negb (bool_decide (d ∈ ids))) (depends_on s) with
      | Some d => Some (id s, d)
      | None => find_unknown_dep ids plan
      end
  end.

Definition in_degrees (plan : Plan) : gmap StepId nat :=
  fold_left (λ m s, <[id s := length (depends_on s)]> m) plan ∅.

(** One step of the inner [for], step [x] popped; [None]: [*d -= 1] below 0. *)
Definition relax (x : StepId) (st : gmap StepId nat * list StepId) (s : Step)
    : option (gmap StepId nat * list StepId) :=
  let (in_deg, queue) := st in
  if bool_decide (x ∈ depends_on s) then
    match in_deg !! id s with
    | Some (S d) =>
        Some (<[id s := d]> in_deg, if (d =? 0)%nat then id s :: queue else queue)
    | Some O => None
    | None => Some (in_deg, queue)
    end
  else Some (in_deg, queue).

Fixpoint relax_all (x : StepId) (st : gmap StepId nat * list StepId) (steps : list Step)
    : option (gmap StepId nat * list StepId) :=
  match steps with
  | [] => Some st
  | s :: steps => st' ← relax x st s; relax_all x st' steps
  end.

(** [while let Some(id) = queue.pop()]: the head of [queue] is its end. Each
    step is pushed once, so [length plan] iterations are enough. *)
Fixpoint kahn (plan : Plan) (fuel : nat) (in_deg : gmap StepId nat) (queue : list StepId)
    (removed : nat) : option (gmap StepId nat * nat) :=
  match queue with
  | [] => Some (in_deg, removed)
  | x :: queue =>
      match fuel with
      | O => None
      | S fuel =>
          '(in_deg, queue) ← relax_all x (in_deg, queue) plan;
          kahn plan fuel in_deg queue (S removed)
      end
  end.

(** [find(|s| in_deg[&s.id] > 0)]; the index panics on a missing key, the
    [unwrap] on no step. *)
Fixpoint find_stuck (in_deg : gmap StepId nat) (plan : Plan) : option Step :=
  match plan with
  | [] => None
  | s :: plan => d ← in_deg !! id s; if (0 <? d)%nat then Some s else find_stuck in_deg plan
  end.

Section validate.
Variable hash_order : list (StepId * nat) → list (StepId * nat).

Definition find_cycle (plan : Plan) : option (result PlanError unit) :=
let in_deg := in_degrees plan in
let queue := map fst (List.filter (λ x, (x.2 =? 0)%nat) (hash_order (map_to_list in_deg))) in
'(in_deg, removed) ← kahn plan (length plan) in_deg queue 0;
if (removed =? length plan)%nat then Some (Ok tt)
else
  s ← find_stuck in_deg plan;
  Some (Err (Cycle (id s))).

Definition validate (plan : Plan) (known_agents : option (list string))
  : option (result PlanError unit) :=
match plan with
| [] => Some (Err Empty)
| _ =>
    match find_duplicate ∅ plan with
    | Some d => Some (Err (DuplicateId d))
    | None =>
        match (known ← known_agents; s ← find_unknown_agent known plan;
               Some (UnknownAgent (id s) (step_agent s) known)) with
        | Some e => Some (Err e)
        | None =>
            match find_unknown_dep (list_to_set (map id plan)) plan with
            | Some (s, d) => Some (Err (UnknownDependency s d))
            | None => find_cycle plan
            end
        end
    end
end.
End validate.
