(* ===== verification/PaperProps.v ===== *)
(** * The paper fill engine: what a simulated order may fill *)

From Stdlib Require Import Ascii String.
From S2P Require Import Prelude.
From S2P Require Import Text.
From S2P Require Import F64.
From S2P Require Import F64Facts.
From S2P Require Import Observation.
From S2P Require Import Book.
From S2P Require Import Ledger.
From S2P Require Import Market.
From S2P Require Import Cost.
From S2P Require Import Paper.
From S2P Require Import LedgerProps.

#[local] Open Scope string_scope.
#[local] Open Scope list_scope.
#[local] Open Scope Z_scope.

(** ** The walk *)

(** For a taker on [s], a price [x] is no worse than [y]. *)
Definition no_worse (s : Side) (x y : f64) : Prop := match s with Buy => (x <=? y)%f64 = true | Sell => (y <=? x)%f64 = true end.
Lemma no_worse_trans s x y z : no_worse s x y → no_worse s y z → no_worse s x z.
Proof. destruct s; cbn; intros; eauto using leb_trans. Qed.

(** What the [j]-th fill takes of the levels, at most [limit] when there is one. *)
Definition takes (s : Side) (limit : option f64) (ls : list L2Level) (j : nat) (f : LevelFill) : Prop :=
  ∃ l, ls !! j = Some l ∧ f_level f = j ∧ f_px f = px l ∧ beyond s limit (px l) = false ∧ (f_qty f <=? sz l)%f64 = true.

Definition level_ok (l : L2Level) : Prop := is_pos (px l) = true ∧ is_pos (sz l) = true.

Lemma is_pos_nan x : is_pos x = true → is_nan x = false.
Proof. intros (m & e & ->)%is_pos_spec. done. Qed.

Lemma walk_loop_spec s tol lim ls : Forall level_ok ls → ∀ i rem fs rem' e,
  walk_loop s false tol lim i rem ls = (fs, rem', e) →
  (∀ j f, fs !! j = Some f → ∃ l, ls !! j = Some l ∧ f_level f = (i + j)%nat ∧ f_px f = px l ∧ beyond s lim (px l) = false
     ∧ (f_qty f <=? sz l)%f64 = true)
  ∧ match e with
    | Limit => ∃ l, ls !! length fs = Some l ∧ beyond s lim (px l) = true ∧ (rem' <=? tol)%f64 = false
    | Depth_ => (rem' <=? tol)%f64 = true ∨ length fs = length ls
    | Filled => False
    end.
Proof.
  induction 1 as [|l ls [_ Hl] _ IH]; intros i rem fs rem' e; cbn [walk_loop].
  { intros [= <- <- <-]. split; [done|by right]. }
  destruct (rem <=? tol)%f64 eqn:Et; [intros [= <- <- <-]; split; [done|by left]|].
  destruct (beyond s lim (px l)) eqn:Eb; [intros [= <- <- <-]; split; [done|]; by exists l|].
  cbn [take_level]. destruct (walk_loop _ _ _ _ _ _ _) as [[fs' r'] e'] eqn:E. intros [= <- <- <-].
  apply IH in E as [Hf He]. split.
  - intros [|j] f; cbn [lookup list_lookup].
    + intros [= <-]. exists l. cbn. rewrite Nat.add_0_r. split_and!; try done. apply fmin_spec, is_pos_nan, Hl.
    + intros (l' & H1 & H2 & H)%Hf. exists l'. split_and!; try apply H; [done|]. rewrite H2. lia.
  - cbn [length lookup list_lookup]. destruct e'; try done. destruct He; [by left|right; by f_equal].
Qed.

(** Everything taken is above zero. *)
Definition level_valid (l : L2Level) : Prop := valid (sz l) = true.
Lemma walk_loop_above s tol lim ls : Forall level_ok ls → Forall level_valid ls →
  (tol <? zero)%f64 = false → is_nan tol = false →
  ∀ i rem fs rem' e, valid rem = true → is_nan rem = false → walk_loop s false tol lim i rem ls = (fs, rem', e) →
  Forall (λ f, valid (f_qty f) = true ∧ above_zero (f_qty f) = true) fs.
Proof.
  intros Hls Hv Ht Hn. revert Hv. induction Hls as [|l ls [_ Hl] _ IH]; intros Hv i rem fs rem' e Hr Hrn; cbn [walk_loop].
  { by intros [= <- <- <-]. }
  destruct (rem <=? tol)%f64 eqn:Et; [by intros [= <- <- <-]|].
  destruct (beyond s lim (px l)); [by intros [= <- <- <-]|]. apply Forall_cons in Hv as [Hvl Hv].
  cbn [take_level]. destruct (walk_loop _ _ _ _ _ _ _) as [[fs' r'] e'] eqn:E. intros [= <- <- <-].
  assert (above_zero rem = true) as Hra.
  { rewrite <-gtb_above. apply not_leb_ltb; [done|done|].
    destruct (rem <=? zero)%f64 eqn:Ez; [|done]. rewrite (leb_trans rem zero tol) in Et; [done|done|].
    by apply not_ltb_leb. }
  destruct (fmin_spec (sz l) rem (is_pos_nan _ Hl)) as (Hle & _ & Hqn & Hq).
  assert (valid (fmin (sz l) rem) = true ∧ above_zero (fmin (sz l) rem) = true) as [Hqv Hqa].
  { destruct Hq as [-> | ->]; [|done]. split; [done|]. by apply is_pos_spec in Hl as (m & ex & ->). }
  constructor; [done|]. refine (IH Hv _ _ _ _ _ _ _ E); [by apply sub_valid|].
  apply sub_finite_nan; [done|done|done|]. apply is_pos_spec in Hl as (m & ex & El). rewrite El in *. by destruct (fmin _ _) as [[]|[]| |[] ? ?].
Qed.

Lemma sum_above l : Forall (λ x, valid x = true ∧ above_zero x = true) l → l ≠ [] → above_zero (sum l) = true.
Proof.
  assert (∀ l acc, Forall (λ x, valid x = true ∧ above_zero x = true) l → valid acc = true → above_zero acc = true →
            above_zero (fold_left f64_add l acc) = true) as Hgo.
  { intros l0 acc H. revert acc. induction H as [|x l0 [Hv Ha] _ IH]; intros acc H1 H2; cbn [fold_left]; [done|].
    destruct (add_above acc x H1 Hv H2 Ha) as [? ?]. by apply IH. }
  intros H Hne. destruct H as [|x l [Hv Ha] H]; [done|]. unfold sum. cbn [fold_left].
  assert ((neg_zero + x)%f64 = x) as -> by (by destruct x as [[]|[]| |[] m e]). by apply Hgo.
Qed.

Lemma check_levels_ok name ordered ls : ∀ i prev, check_levels name ordered i prev ls = Ok tt → Forall level_ok ls.
Proof.
  induction ls as [|l ls IH]; intros i prev; cbn [check_levels]; [constructor|].
  destruct (is_pos (px l)) eqn:Ep; cbn [negb]; [|done]. destruct (is_pos (sz l)) eqn:Es; cbn [negb]; [|done].
  destruct prev as [p|]; [destruct (ordered _ _); [|done]|]; intros H; (constructor; [done|by eapply IH]).
Qed.
Lemma validate_levels b s : validate b = Ok tt → Forall level_ok (liquidity b s).
Proof.
  unfold validate, check_side. destruct (check_levels "bid" _ _ _ _) as [[]|] eqn:Eb; [|done].
  destruct (check_levels "ask" _ _ _ _) as [[]|] eqn:Ea; [|done]. intros _. destruct s; cbn; eauto using check_levels_ok.
Qed.

(** What a walk for a quantity answers. *)
Record walked (b : L2Book) (s : Side) (q bound : f64) (w : Walk) : Prop := {
  wk_arg : is_finite q = true ∧ (zero <=? q)%f64 = true ∧ is_pos bound = true;
  wk_fills : ∀ j f, fills w !! j = Some f → takes s (Some bound) (liquidity b s) j f;
  wk_end : match w_end w with
           | Filled => unfilled w = zero
           | Limit => ∃ l, liquidity b s !! length (fills w) = Some l ∧ beyond s (Some bound) (px l) = true
           | Depth_ => length (fills w) = length (liquidity b s)
           end;
  wk_qty : filled_qty w = sum (map f_qty (fills w));
  wk_notional : filled_notional w = sum (map (λ f, f_px f * f_qty f)%f64 (fills w));
  wk_vwap : vwap w = if (filled_qty w >? zero)%f64 then Some (filled_notional w / filled_qty w)%f64 else None;
  wk_above : Forall level_valid (liquidity b s) → valid q = true → Forall (λ f, valid (f_qty f) = true ∧ above_zero (f_qty f) = true) (fills w);
}.

Lemma walk_book_spec b s q bound w : validate b = Ok tt → walk_book b s (Qty q) (Some bound) = Ok w → walked b s q bound w.
Proof.
  intros Hb. pose proof (validate_levels b s Hb) as Hls. unfold walk_book, walk.
  destruct (is_finite q && (q >=? zero)%f64) eqn:Eq; [|done]. apply andb_true_iff in Eq as [Hf Hz]. cbn [negb].
  destruct (is_pos bound) eqn:Hbp; [|done]. intros H. apply bind_ok in H as ([] & _ & H). apply bind_ok in H as ([] & _ & H).
  destruct (walk_loop _ _ _ _ _ _ _) as [[fs rem] e] eqn:E.
  pose proof (walk_loop_spec _ _ _ _ Hls _ _ _ _ _ E) as [Hfs He].
  destruct (mul_positive q FILL_EPS Hf eq_refl Hz eq_refl) as [Htn Ht].
  assert (Forall level_valid (liquidity b s) → valid q = true → Forall (λ f, valid (f_qty f) = true ∧ above_zero (f_qty f) = true) fs) as Ha.
  { intros Hv Hq. refine (walk_loop_above _ _ _ _ Hls Hv Ht Htn _ _ _ _ _ Hq _ E). by destruct q as [[]|[]| |[] ? ?]. }
  destruct (rem <=? q * FILL_EPS)%f64 eqn:Er; injection H as <-; constructor; cbn [fills w_end unfilled filled_qty vwap filled_notional];
    try done.
  destruct e; [done| |].
  - destruct He as (l & ? & ? & ?). by exists l.
  - by destruct He.
Qed.

(** ** The checks *)

(** The order has not been rejected: what held at each of the ten checks. *)
Record accepted (o : PaperOrder) (book : L2Book) (age : Z) (env : FillEnv) (r : FillResult) (ref bound q : f64) (w : Walk) : Prop := {
  ac_order : check_order o env = Ok tt;
  ac_open : env_status env = PsOpen;
  ac_age : age ≤ max_book_age_ms env ∨ stale_book_ok env = true ∧ o_reduce_only o = true ∧ stale_book r = true;
  ac_book : validate book = Ok tt;
  ac_ref : o_ref_mid o = Some ref ∨ o_ref_mid o = None ∧ mid book = Some ref;
  ac_bound : ∃ s, slip_bound o (env_rules env) ref = Some s
     ∧ bound = match o_limit_px o with
               | Some limit => match o_side o with Buy => fmin limit s | Sell => fmax limit s end
               | None => s
               end;
  ac_size : o_reduce_only o = true →
     (qty (env_position env) =? zero)%f64 = false ∧ (signum (qty (env_position env)) =? sign (o_side o))%f64 = false;
  ac_qty : ∃ want, hl_round_sz want (r_sz_decimals (env_rules env)) Down = Some q
     ∧ (want = wanted o ref ∨ o_reduce_only o = true ∧ want = SFabs (qty (env_position env)));
  ac_walk : walk_book book (o_side o) (Qty q) (Some bound) = Ok w;
  ac_some : (filled_qty w <=? zero)%f64 = false;
  ac_names : fr_instrument r = o_instrument o ∧ fr_side r = o_side o;
  ac_fields : ref_px r = Some ref ∧ bound_px r = Some bound ∧ order_qty r = Some q ∧ fr_fills r = fills w
     ∧ fr_filled_qty r = filled_qty w ∧ fr_avg_px r = vwap w ∧ fr_fee_usd r = fee_of (env_fees env) Taker (Book.filled_notional w)
     ∧ (fr_status r, fr_reason r) = match w_end w with
                                    | Filled => (FsFilled, None)
                                    | Limit => (FsPartial, Some Bound)
                                    | Depth_ => (FsPartial, Some NoDepth)
                                    end;
}.

Lemma check_inputs_ok o book age env r : check_inputs o book age env = Ok r →
  check_order o env = Ok tt ∧ env_status env = PsOpen
  ∧ (age ≤ max_book_age_ms env ∨ stale_book_ok env = true ∧ o_reduce_only o = true ∧ stale_book r = true)
  ∧ validate book = Ok tt ∧ fr_mid r = mid book ∧ fr_instrument r = o_instrument o ∧ fr_side r = o_side o.
Proof.
  unfold check_inputs. destruct (check_order o env) as [[]|]; [|done]. destruct (env_status env); try done.
  destruct (Z.ltb_spec (max_book_age_ms env) age) as [Hlt|Hle].
  - destruct (stale_book_ok env); [|done]. destruct (o_reduce_only o); [|done]. cbn [andb negb mbind result_bind].
    destruct (validate book) as [[]|] eqn:Ev; [|done]. intros [= <-]. split_and!; try done. by right.
  - cbn [mbind result_bind]. destruct (validate book) as [[]|] eqn:Ev; [|done]. intros [= <-]. split_and!; try done. by left.
Qed.

Lemma bound_of_ok o rules r ref r' bound : bound_of o rules r ref = Ok (r', bound) →
  r' = set_bound r bound
  ∧ ∃ s, slip_bound o rules ref = Some s
     ∧ bound = match o_limit_px o with
               | Some limit => match o_side o with Buy => fmin limit s | Sell => fmax limit s end
               | None => s
               end.
Proof.
  unfold bound_of. destruct (slip_bound o rules ref) as [s|]; [|done].
  destruct (o_limit_px o) as [limit|].
  - destruct (negb _); [done|]. cbn. intros [= <- <-]. split; [done|]. by exists s.
  - cbn. intros [= <- <-]. split; [done|]. by exists s.
Qed.

Lemma size_of_ok o env r ref r' q whole : size_of o env r ref = Ok (r', q, whole) →
  r' = set_qty r q
  ∧ (o_reduce_only o = true →
       (qty (env_position env) =? zero)%f64 = false ∧ (signum (qty (env_position env)) =? sign (o_side o))%f64 = false)
  ∧ ∃ want, hl_round_sz want (r_sz_decimals (env_rules env)) Down = Some q
     ∧ (want = wanted o ref ∨ o_reduce_only o = true ∧ want = SFabs (qty (env_position env))).
Proof.
  unfold size_of. intros H. apply bind_ok in H as ([want wh] & H1 & H2).
  destruct (hl_round_sz want _ _) as [q'|] eqn:Eq; [|done]. injection H2 as <- <- <-. split; [done|].
  destruct (o_reduce_only o).
  - destruct (_ =? zero)%f64; [done|]. destruct (_ =? _)%f64; [done|]. cbn [orb] in H1.
    destruct (_ <=? _)%f64; injection H1 as <- <-; (split; [done|]); eexists; (split; [exact Eq|]); auto.
  - injection H1 as <- <-. split; [done|]. eexists. split; [exact Eq|]. by left.
Qed.

Lemma simulate_steps_ok o book age env r : simulate_steps o book age env = Ok r →
  ∃ ref bound q w, accepted o book age env r ref bound q w.
Proof.
  unfold simulate_steps. intros H. apply bind_ok in H as (r1 & H1 & H). apply check_inputs_ok in H1 as (Ho & Hst & Hage & Hb & Hm & Hi & Hs).
  apply bind_ok in H as ([r2 ref] & H2 & H). unfold reference in H2. rewrite Hm in H2.
  assert (r2 = set_ref r1 ref ∧ (o_ref_mid o = Some ref ∨ o_ref_mid o = None ∧ mid book = Some ref)) as [-> Href].
  { destruct (o_ref_mid o); [injection H2 as <- <-; auto|]. destruct (mid book); [injection H2 as <- <-; auto|].
    by destruct (bool_decide _). }
  clear H2. apply bind_ok in H as ([r3 bound] & [-> Hbd]%bound_of_ok & H). apply bind_ok in H as ([] & _ & H).
  apply bind_ok in H as ([[r4 q] whole] & (-> & Hred & Hq)%size_of_ok & H).
  apply bind_ok in H as ([] & _ & H). apply bind_ok in H as ([] & _ & H).
  unfold walk_to in H. destruct (walk_book _ _ _ _) as [w|] eqn:Ew; [|done]. destruct (filled_qty w <=? zero)%f64 eqn:Ef; [done|].
  injection H as <-. exists ref, bound, q, w. constructor; try done.
  - destruct Hage as [?|(?&?&?)]; [by left|right]. unfold filled_by. by destruct (w_end w).
  - unfold filled_by. by destruct (w_end w).
  - unfold filled_by. by destruct (w_end w).
Qed.

(** A result with nothing in it but the reason. *)
Definition nothing_filled (r : FillResult) : Prop :=
  fr_fills r = [] ∧ fr_filled_qty r = zero ∧ filled_notional_usd r = zero ∧ fr_avg_px r = None ∧ fr_fee_usd r = zero
  ∧ slippage_bps r = None.
Lemma reject_nothing r reason detail : nothing_filled r → nothing_filled (reject r reason detail)
  ∧ fr_status (reject r reason detail) = FsRejected ∧ is_Some (fr_reason (reject r reason detail))
  ∧ is_Some (fr_message (reject r reason detail)).
Proof. intros H. split_and!; [exact H|done|by eexists..]. Qed.

Definition rejected (r : FillResult) : Prop :=
  nothing_filled r ∧ fr_status r = FsRejected ∧ is_Some (fr_reason r) ∧ is_Some (fr_message r).
Ltac rejects := intros; repeat (case_match || (progress simplify_eq/=)); try done; try by apply reject_nothing.

Lemma check_min_err rules r q bound wh e : check_min rules r q bound wh = Err e → ∃ d, e = reject r MinTradeNtl d.
Proof. unfold check_min. destruct (_ || _); [intros [= <-]; by eexists|done]. Qed.
Lemma size_of_err o env r ref e : size_of o env r ref = Err e → ∃ reason d, e = reject r reason d.
Proof.
  unfold size_of. intros [H|([want wh] & _ & H)]%bind_err.
  - destruct (o_reduce_only o); [|done]. destruct (_ || _); [injection H as <-; by eexists _, _|]. by destruct (_ >=? _)%f64.
  - destruct (hl_round_sz _ _ _); [done|]. injection H as <-. by eexists _, _.
Qed.

Lemma simulate_steps_err o book age env r : simulate_steps o book age env = Err r → rejected r.
Proof.
  assert (nothing_filled (set_mid (pending o (Some age)) (mid book))) as H0 by done. unfold simulate_steps, check_inputs.
  set (r0 := set_mid _ _) in *. clearbody r0. intros H. apply bind_err in H as [H|(r1 & H1 & H)].
  { revert H. destruct (check_order o env) as [[]|]; [|intros [= <-]; by apply reject_nothing].
    intros [H|(r1 & H1 & H)]%bind_err.
    - revert H. rejects.
    - assert (nothing_filled r1) as Hn by (revert H1; rejects). revert H. rejects. }
  assert (nothing_filled r1) as Hn1.
  { destruct (check_order o env) as [[]|]; [|done]. apply bind_ok in H1 as (r1' & H1 & H2).
    assert (nothing_filled r1') as Hn by (revert H1; rejects). destruct (validate book); [|done]. by injection H2 as <-. }
  clear H1 H0 r0. apply bind_err in H as [H|([r2 ref] & H2 & H)]; [revert H; unfold reference; rejects|].
  assert (nothing_filled r2) as Hn2 by (revert H2; unfold reference; rejects). clear H2 Hn1 r1.
  apply bind_err in H as [H|([r3 bound] & [-> _]%bound_of_ok & H)].
  { revert H. unfold bound_of. destruct (slip_bound _ _ _); [|rejects]. intros [H|(? & _ & H)]%bind_err; [revert H; rejects|done]. }
  assert (nothing_filled (set_bound r2 bound)) as Hn3 by done.
  apply bind_err in H as [H|([] & _ & H)]; [revert H; unfold check_oracle; rejects|].
  apply bind_err in H as [H|([[r4 q] whole] & (-> & _)%size_of_ok & H)].
  { destruct (size_of_err _ _ _ _ _ H) as (reason & d & ->). by apply reject_nothing. }
  assert (nothing_filled (set_qty (set_bound r2 bound) q)) as Hn4 by done. set (r4 := set_qty _ _) in *. clearbody r4. clear Hn3 Hn2 r2.
  apply bind_err in H as [H|([] & _ & H)]; [destruct (check_min_err _ _ _ _ _ _ H) as [d ->]; by apply reject_nothing|].
  apply bind_err in H as [H|([] & _ & H)]; [revert H; unfold check_cap; rejects|].
  revert H. unfold walk_to. rejects.
Qed.

Lemma simulate_cases o book age env :
  let r := simulate_fill o book age env in
  rejected r ∨ ∃ ref bound q w, accepted o book age env r ref bound q w.
Proof.
  intros r. unfold r, simulate_fill. destruct (simulate_steps o book age env) as [r'|r'] eqn:E.
  - right. by apply simulate_steps_ok.
  - left. by eapply simulate_steps_err.
Qed.
Lemma accepted_not_rejected o book age env r ref bound q w : accepted o book age env r ref bound q w → fr_status r ≠ FsRejected.
Proof. intros H. destruct (ac_fields _ _ _ _ _ _ _ _ _ H) as (_ & _ & _ & _ & _ & _ & _ & E). by destruct (w_end w); injection E as -> _. Qed.

(** ** The names on a result: the order's *)

Definition names (r : FillResult) : string * InstrumentId * Side * bool :=
  (fr_client_order_id r, fr_instrument r, fr_side r, fr_reduce_only r).
Ltac named := intros; repeat (case_match || (progress simplify_eq/=)); done.
Lemma check_inputs_names o book age env : match check_inputs o book age env with Ok r | Err r => names r = names (pending o None) end.
Proof. unfold check_inputs. named. Qed.
Lemma reference_names o book r : match reference o book r with Ok (r', _) | Err r' => names r' = names r end.
Proof. unfold reference. named. Qed.
Lemma bound_names o rules r ref : match bound_of o rules r ref with Ok (r', _) | Err r' => names r' = names r end.
Proof. unfold bound_of. destruct (slip_bound o rules ref); [|done]. destruct (o_limit_px o); [destruct (negb _)|]; done. Qed.
Lemma oracle_names rules r bound e : check_oracle rules r bound = Err e → names e = names r.
Proof. unfold check_oracle. named. Qed.
Lemma size_names o env r ref : match size_of o env r ref with Ok (r', _, _) | Err r' => names r' = names r end.
Proof.
  destruct (size_of o env r ref) as [[[r' q] wh]|e] eqn:E; [by destruct (size_of_ok _ _ _ _ _ _ _ E) as [-> _]|].
  by destruct (size_of_err _ _ _ _ _ E) as (reason & d & ->).
Qed.
Lemma min_names rules r q bound wh e : check_min rules r q bound wh = Err e → names e = names r.
Proof. by intros [d ->]%check_min_err. Qed.
Lemma cap_names o env r q e : check_cap o env r q = Err e → names e = names r.
Proof. unfold check_cap. named. Qed.
Lemma walk_keeps_names o book env r q bound : match walk_to o book env r q bound with Ok r' | Err r' => names r' = names r end.
Proof.
  unfold walk_to. destruct (walk_book _ _ _ _) as [w|]; [|done]. destruct (_ <=? _)%f64; [done|]. unfold filled_by. by destruct (w_end w).
Qed.
Lemma simulate_names o book age env : names (simulate_fill o book age env) = names (pending o None).
Proof.
  unfold simulate_fill, simulate_steps. pose proof (check_inputs_names o book age env) as H. destruct (check_inputs _ _ _ _) as [r1|]; [|exact H].
  cbn [mbind result_bind]. rewrite <-H. clear H. pose proof (reference_names o book r1) as H. destruct (reference _ _ _) as [[r2 ref]|]; [|exact H].
  cbn [mbind result_bind]. rewrite <-H. clear H. pose proof (bound_names o (env_rules env) r2 ref) as H. destruct (bound_of _ _ _ _) as [[r3 bd]|]; [|exact H].
  cbn [mbind result_bind]. rewrite <-H. clear H. destruct (check_oracle _ _ _) as [[]|] eqn:E; [|exact (oracle_names _ _ _ _ E)].
  cbn [mbind result_bind]. pose proof (size_names o env r3 ref) as H. destruct (size_of _ _ _ _) as [[[r4 q] wh]|]; [|exact H].
  cbn [mbind result_bind]. rewrite <-H. clear H E. destruct (check_min _ _ _ _ _) as [[]|] eqn:E; [|exact (min_names _ _ _ _ _ _ E)].
  cbn [mbind result_bind]. destruct (check_cap _ _ _ _) as [[]|] eqn:E'; [|exact (cap_names _ _ _ _ _ E')].
  cbn [mbind result_bind]. pose proof (walk_keeps_names o book env r4 q bd) as H. by destruct (walk_to _ _ _ _ _ _).
Qed.

(** ** The bound *)

Lemma slip_bound_pos o rules ref s : slip_bound o rules ref = Some s → above_zero s = true.
Proof.
  unfold slip_bound, hl_round_px. destruct (o_side o); destruct (hl_price_decimals _ _ _); cbn; try done;
    destruct (_ <? _)%f64 eqn:E; try done; intros [= <-]; by rewrite <-gtb_above.
Qed.
Lemma above_nan x : above_zero x = true → is_nan x = false.
Proof. by destruct x as [[]|[]| |[] ? ?]. Qed.
Lemma check_order_limit o env l : check_order o env = Ok tt → o_limit_px o = Some l → is_pos l = true.
Proof.
  unfold check_order. intros H Hl. rewrite Hl in H. destruct (str_is_empty _); [done|]. destruct (negb _); [done|]. destruct (negb _); [done|].
  apply bind_ok in H as ([] & _ & H). destruct (negb _); [done|]. apply bind_ok in H as ([] & _ & H). apply bind_ok in H as ([] & H & _).
  destruct (o_kind o); [done|]. by destruct (is_pos l).
Qed.

Lemma accepted_fills o book age env r ref bound q w : accepted o book age env r ref bound q w →
  ∀ j f, fr_fills r !! j = Some f → ∃ l, liquidity book (o_side o) !! j = Some l ∧ f_level f = j ∧ f_px f = px l
    ∧ no_worse (o_side o) (px l) bound ∧ (f_qty f <=? sz l)%f64 = true.
Proof.
  intros [_ _ _ Hb _ _ _ _ Hw _ _ (_ & _ & _ & -> & _)].
  destruct (walk_book_spec _ _ _ _ _ Hb Hw) as [(_ & _ & Hbp) Hf _ _ _ _ _]. intros j f (l & H1 & H2 & H3 & H4 & H5)%Hf.
  exists l. split_and!; try done. pose proof (validate_levels book (o_side o) Hb) as Hls. rewrite Forall_lookup in Hls.
  destruct (Hls _ _ H1) as [Hp _]. destruct (o_side o); cbn in *; apply not_ltb_leb; eauto using is_pos_nan.
Qed.
(** What is not rejected filled on a fresh book, or an old one that may be
    used, within its bound. *)
Lemma sent_fill o book age env : let r := simulate_fill o book age env in fr_status r ≠ FsRejected →
  env_status env = PsOpen ∧ (age ≤ max_book_age_ms env ∨ stale_book_ok env = true ∧ o_reduce_only o = true ∧ stale_book r = true)
  ∧ ∃ bound, bound_px r = Some bound ∧ ∀ j f, fr_fills r !! j = Some f → no_worse (o_side o) (f_px f) bound.
Proof.
  intros r Hr. destruct (simulate_cases o book age env) as [(_ & Hrej & _)|(ref & bound & q & w & H)]; [by destruct Hr|]. fold r in H.
  split; [exact (ac_open _ _ _ _ _ _ _ _ _ H)|]. split; [exact (ac_age _ _ _ _ _ _ _ _ _ H)|].
  exists bound. split; [exact (proj1 (proj2 (ac_fields _ _ _ _ _ _ _ _ _ H)))|].
  intros j f (l & _ & _ & -> & Hno & _)%(accepted_fills _ _ _ _ _ _ _ _ _ H). exact Hno.
Qed.

(** C10. An order that is not rejected fills only on an open market, from a book
    that is well formed and fresh (or stale, for a reduce-only order that may):
    its fills are the first levels of the side it takes, one after the other,
    none larger than its level and none priced beyond the bound; the bound is
    no worse than the slippage bound of the reference price and than the
    order's limit; and when it fills only in part, the next level is beyond the
    bound (reason [bound]) or there is no next level (reason [depth]). *)
Theorem fills_walk_the_book_within_the_bound o book age env :
  let r := simulate_fill o book age env in
  fr_status r ≠ FsRejected →
  env_status env = PsOpen ∧ validate book = Ok tt
  ∧ (age ≤ max_book_age_ms env ∨ stale_book_ok env = true ∧ o_reduce_only o = true ∧ stale_book r = true)
  ∧ ∃ ref bound s, ref_px r = Some ref ∧ bound_px r = Some bound ∧ slip_bound o (env_rules env) ref = Some s
    ∧ (o_ref_mid o = Some ref ∨ o_ref_mid o = None ∧ mid book = Some ref)
    ∧ no_worse (o_side o) bound s ∧ (∀ l, o_limit_px o = Some l → no_worse (o_side o) bound l)
    ∧ fr_fills r ≠ []
    ∧ (∀ j f, fr_fills r !! j = Some f → ∃ l, liquidity book (o_side o) !! j = Some l ∧ f_level f = j ∧ f_px f = px l
         ∧ no_worse (o_side o) (px l) bound ∧ (f_qty f <=? sz l)%f64 = true)
    ∧ match fr_status r, fr_reason r with
      | FsFilled, None => True
      | FsPartial, Some Bound => ∃ l, liquidity book (o_side o) !! length (fr_fills r) = Some l ∧ ¬ no_worse (o_side o) (px l) bound
      | FsPartial, Some NoDepth => length (fr_fills r) = length (liquidity book (o_side o))
      | _, _ => False
      end.
Proof.
  intros r Hr. destruct (simulate_cases o book age env) as [(_ & Hrej & _)|(ref & bound & q & w & H)]; [by destruct Hr|]. fold r in H.
  pose proof H as [Hord Hopen Hage Hb Href (s & Hs & Hbd) _ _ Hw Hsome _ (F1 & F2 & _ & F4 & _ & _ & _ & F8)].
  destruct (walk_book_spec _ _ _ _ _ Hb Hw) as [_ _ He Hq _ _ _].
  assert (is_nan s = false) as Hsn by eauto using above_nan, slip_bound_pos.
  split_and!; try done. exists ref, bound, s. rewrite F4. split_and!; try done.
  - rewrite Hbd. destruct (o_limit_px o) as [l|] eqn:El; [|destruct (o_side o); by apply leb_refl].
    assert (is_nan l = false) as Hln by eauto using is_pos_nan, check_order_limit.
    destruct (o_side o); cbn; [by apply fmin_spec|by apply fmax_spec].
  - intros l El. rewrite El in Hbd. assert (is_nan l = false) as Hln by eauto using is_pos_nan, check_order_limit.
    rewrite Hbd. destruct (o_side o); cbn; [by apply fmin_spec|by apply fmax_spec].
  - intros Hnil. rewrite Hq, Hnil in Hsome. by vm_compute in Hsome.
  - rewrite <-F4. exact (accepted_fills _ _ _ _ _ _ _ _ _ H).
  - destruct (w_end w); injection F8 as -> ->; [done| |done]. destruct He as (l & Hl & Hbey). exists l. split; [done|].
    destruct (o_side o); cbn in *; intros Hno; (rewrite ltb_key in Hbey by (by apply (ltb_nan_l _ _ Hbey)));
      rewrite leb_key in Hno by (by apply (leb_nan_l _ _ Hno)); done.
Qed.

(** ** What reaches the ledger *)

Lemma check_order_decimals o env : check_order o env = Ok tt → r_sz_decimals (env_rules env) ≤ max_decimals (r_kind (env_rules env)).
Proof.
  unfold check_order. destruct (str_is_empty _); [done|]. destruct (negb _); [done|]. destruct (negb _); [done|].
  intros H. apply bind_ok in H as ([] & _ & H). destruct (negb _); [done|]. apply bind_ok in H as ([] & _ & H).
  apply bind_ok in H as ([] & _ & H). destruct (Z.ltb_spec (max_decimals (r_kind (env_rules env))) (r_sz_decimals (env_rules env))); [done|lia].
Qed.
Lemma hl_round_sz_valid want k d r q : hl_round_sz want d r = Some q → d ≤ max_decimals k → valid q = true.
Proof.
  unfold hl_round_sz. destruct (_ && _); [|done]. intros [= <-] Hd. apply reparse_fixed_valid. destruct k; cbn in Hd; lia.
Qed.

Lemma accepted_above o book age env r ref bound q w : accepted o book age env r ref bound q w →
  Forall level_valid (liquidity book (o_side o)) → above_zero (filled_qty w) = true.
Proof.
  intros [Hord _ _ Hb _ _ _ (want & Hq & _) Hw Hsome _ _] Hv. destruct (walk_book_spec _ _ _ _ _ Hb Hw) as [_ _ _ Eq _ _ Ha].
  assert (valid q = true) as Hqv by eauto using hl_round_sz_valid, check_order_decimals.
  rewrite Eq in *. apply sum_above; [by apply Forall_map, Ha|]. intros Hnil. rewrite Hnil in Hsome. by vm_compute in Hsome.
Qed.

Lemma apply_fill_total p f : position_ok p → fill_problem p f = None → ∃ p' e, apply_fill p f = Ok (p', e).
Proof.
  intros Hp Hf. unfold apply_fill. rewrite Hf. destruct ((qty p =? zero)%f64 || _) eqn:E; [by eexists _, _|].
  destruct (avg_px p) as [a|] eqn:Ea.
  - destruct (closing _ _) as [c rest]. destruct (if (rest >? zero)%f64 then _ else _) as [[p' ?] ?]. by eexists _, _.
  - exfalso. apply (ok_avg p Hp) in Ea. unfold is_flat in Ea. by rewrite Ea in E.
Qed.

(** A simulated order either changes nothing (rejected: no fills, no
    quantity, no fee, a reason and a message, no fill for the ledger) or gives
    the ledger one fill: of the order's instrument and side, of the sum of the
    quantities taken (each above zero), at their average price, with the taker
    fee on their notional; the ledger books it on the position the order was
    judged against unless a total is beyond the largest double. A reduce-only
    order is rejected on a flat position and on one it would grow. *)
Theorem the_ledger_gets_what_was_filled o book age env ts :
  Forall level_valid (liquidity book (o_side o)) →
  let r := simulate_fill o book age env in
  let p := env_position env in
  let notional := sum (map (λ f, f_px f * f_qty f)%f64 (fr_fills r)) in
  (fr_status r = FsRejected → rejected r ∧ ledger_fill r (underlying p) ts = None)
  ∧ (fr_status r ≠ FsRejected →
     Forall (λ f, above_zero (f_qty f) = true) (fr_fills r)
     ∧ (o_reduce_only o = true → (qty p =? zero)%f64 = false ∧ (signum (qty p) =? sign (o_side o))%f64 = false)
     ∧ ∃ f, ledger_fill r (underlying p) ts = Some f
         ∧ f = mkFill (show_id (o_instrument o)) (underlying p) (i_venue (o_instrument o)) (o_side o)
                 (sum (map f_qty (fr_fills r))) (notional / fl_qty f)%f64 (fee_of (env_fees env) Taker notional) ts
         ∧ above_zero (fl_qty f) = true
         ∧ (position_ok p → venue p = i_venue (o_instrument o) →
            is_finite (fl_qty f) = true → is_pos (fl_px f) = true → is_finite (fee_usd f) = true →
            ∃ p' e, apply_fill p f = Ok (p', e))).
Proof.
  intros Hv r p notional. destruct (simulate_cases o book age env) as [Hrej|(ref & bound & q & w & H)]; fold r in Hrej || fold r in H.
  { destruct Hrej as (Hn & Hs & Hrest). split; [|by intros []].
    intros _. split; [done|]. unfold ledger_fill. destruct Hn as (_ & _ & _ & -> & _). done. }
  split; [intros Hs; by destruct (accepted_not_rejected _ _ _ _ _ _ _ _ _ H)|]. intros _.
  pose proof (accepted_above _ _ _ _ _ _ _ _ _ H Hv) as Habove.
  destruct H as [Hord _ _ Hb _ _ Hred (want & Hwq & _) Hw _ [Hi Hside] (_ & _ & _ & Ffills & Fqty & Fpx & Ffee & _)].
  destruct (walk_book_spec _ _ _ _ _ Hb Hw) as [_ _ _ Eq Enot Evw Ha].
  assert (valid q = true) as Hqv by eauto using hl_round_sz_valid, check_order_decimals.
  unfold notional. rewrite Ffills. split; [by eapply Forall_impl; [by apply Ha|intros ? []]|]. split; [done|].
  rewrite gtb_above, Habove in Evw. eexists. split.
  { unfold ledger_fill. rewrite Fpx, Evw, Fqty, gtb_above, Habove. cbn. reflexivity. }
  cbn [fl_qty fl_px fee_usd]. rewrite Hi, Hside, Ffee, Enot, Eq in *. split; [done|]. split; [done|].
  intros Hp Hve Hf Hpx Hfee. apply apply_fill_total; [done|]. unfold fill_problem. cbn.
  assert (instrument p = show_id (o_instrument o)) as Hins.
  { revert Hord. unfold check_order. destruct (str_is_empty _); [done|]. fold p. by destruct (String.eqb_spec (instrument p) (show_id (o_instrument o))). }
  rewrite <-Hins, <-Hve, !String.eqb_refl, Hpx, Hfee. cbn. unfold is_pos. by rewrite Hf, gtb_above, Habove.
Qed.

(** ** Cases *)

Definition sample_level (p : f64) (s : Z) : L2Level := mkLevel p (of_Z s) 1.
Definition sample_book : L2Book :=
  mkBook [sample_level (dec 3999 (-1)) 2; sample_level (dec 3995 (-1)) 2]
    [sample_level (dec 4001 (-1)) 2; sample_level (dec 4005 (-1)) 2; sample_level (of_Z 402) 5] T0.
Definition sample_order (s : Side) (q slip : f64) (reduce_only : bool) : PaperOrder :=
  mkOrder "c-1" (mkInstrumentId "hyperliquid" "xyz:TSLA") s (SizeQty q) OMarket Ioc None reduce_only slip None.
Definition sample_env : FillEnv :=
  mkEnv (rules_hyperliquid Perp 3 (Some false)) PsOpen (flat "hyperliquid:xyz:TSLA" "company:tesla" "hyperliquid")
    (mkFees (dec 9 (-1)) (dec 3 (-1))) 5000 false.

Lemma fills_walk_the_book_witness :
  let r := simulate_fill (sample_order Buy (of_Z 6) (of_Z 15) false) sample_book 1000 sample_env in
  fr_status r ≠ FsRejected ∧ env_status sample_env = PsOpen
  ∧ map (λ f, (f_level f, show (f_px f), show (f_qty f))) (fr_fills r) = [(0%nat, "400.1", "2"); (1%nat, "400.5", "2")]
  ∧ (fr_reason r, show <$> bound_px r) = (Some Bound, Some "400.6").
Proof.
  intros r. assert (fr_status r ≠ FsRejected) as H by (vm_compute; discriminate). split; [exact H|].
  split; [exact (proj1 (fills_walk_the_book_within_the_bound (sample_order Buy (of_Z 6) (of_Z 15) false) sample_book 1000 sample_env H))|].
  vm_compute. split; reflexivity.
Defined.

Lemma the_ledger_gets_what_was_filled_witness :
  let r := simulate_fill (sample_order Sell (of_Z 1) (of_Z 15) true) sample_book 1000 sample_env in
  fr_reason r = Some RejReduceOnly ∧ ledger_fill r "company:tesla" T0 = None.
Proof.
  intros r. split; [vm_compute; reflexivity|].
  refine (proj2 (proj1 (the_ledger_gets_what_was_filled (sample_order Sell (of_Z 1) (of_Z 15) true) sample_book 1000 sample_env T0 _) _)).
  - repeat constructor.
  - vm_compute. reflexivity.
Defined.
