(* ===== verification/Exits.v ===== *)
(** * Exit rules ([src/src/domain/xm/exits.rs])

    When an open paper position is due to close, how a refused exit is tried
    again, and the row one run of the rules gives. *)

From Stdlib Require Import Ascii String.
From S2P Require Import Prelude.
From S2P Require Import Text.
From S2P Require Import Bytes.
From S2P Require Import Substr.
From S2P Require Import SourceRecord.
From S2P Require Import F64.
From S2P Require Import Observation.
From S2P Require Import Book.
From S2P Require Import Ledger.
From S2P Require Import Market.
From S2P Require Import Cost.
From S2P Require Import Paper.

#[local] Open Scope string_scope.
#[local] Open Scope list_scope.
#[local] Open Scope Z_scope.

(** 1e-9 bps *)
Definition PNL_TOL_BPS : f64 := of_decimal 1 (-9).

(** ** Retries *)

Definition EXIT_RETRY_BASE_MS : Z := 15000.
Definition EXIT_RETRY_CAP_MS : Z := 900000.
Definition EXIT_RETRY_STEPS : Z := 7.

Definition exit_retry_wait_ms (rejections : Z) : Z :=
  let doublings := Z.min (Z.max 0 (Z.max rejections 1 - 1)) EXIT_RETRY_STEPS in
  Z.min (sat_i64 (EXIT_RETRY_BASE_MS * Z.shiftl 1 doublings)) EXIT_RETRY_CAP_MS.

Record ExitAttempt : Type := mkAttempt {
  at_status : FillStatus;
  at_reason : option FillReason;
  at_ts_ms : Z;
}.
Inductive ExitRetry : Type :=
  | RetryNow
  | Wait (at_ms rejections : Z)
  | Final (reason : FillReason).

Fixpoint take_while {A} (f : A → bool) (l : list A) : list A :=
  match l with x :: l => if f x then x :: take_while f l else [] | [] => [] end.
Definition is_rejected (a : ExitAttempt) : bool := bool_decide (at_status a = FsRejected).

Definition exit_retry (latest_first : list ExitAttempt) (now_ms : Z) : ExitRetry :=
  match latest_first with
  | [] => RetryNow
  | latest :: _ =>
      if negb (is_rejected latest) then RetryNow
      else
        match (r ← at_reason latest; if negb (is_transient r) then Some r else None) with
        | Some reason => Final reason
        | None =>
            let rejections := Z.of_nat (length (take_while is_rejected (take (Z.to_nat EXIT_RETRY_STEPS) latest_first))) in
            let at_ms := sat_i64 (at_ts_ms latest + exit_retry_wait_ms rejections) in
            if at_ms <=? now_ms then RetryNow else Wait at_ms rejections
        end
  end.

(** ** What is due *)

Record ExitRules : Type := mkExitRules {
  take_profit_bps : f64;
  stop_loss_bps : f64;
  max_hold_ms : Z;
}.

Inductive ExitReason : Type := Deadline | MaxHold | StopLoss | TakeProfit.
#[export] Instance ExitReason_eq_dec : EqDecision ExitReason.
Proof. solve_decision. Defined.
Definition ExitReason_ALL : list ExitReason := [Deadline; MaxHold; StopLoss; TakeProfit].
Definition exit_reason_str (r : ExitReason) : string :=
  match r with Deadline => "deadline" | MaxHold => "max_hold" | StopLoss => "stop_loss" | TakeProfit => "take_profit" end.
Definition exit_reason_parse (s : string) : option ExitReason :=
  List.find (λ r, String.eqb (exit_reason_str r) s) ExitReason_ALL.
Definition on_price (r : ExitReason) : bool := match r with StopLoss | TakeProfit => true | _ => false end.

Record ExitTrigger : Type := mkTrigger {
  tr_reason : ExitReason;
  tr_at_ms : Z;
}.

Definition pnl_bps (p : Position) (mark_px : f64) : option f64 :=
  avg ← avg_px p;
  if negb (is_pos avg) then None
  else if is_flat p || negb (is_pos mark_px) then None
  else Some (signum (qty p) * (mark_px - avg) / avg * of_Z 10000)%f64.

Definition tp_sl_due (p : Position) (px : f64) (rules : ExitRules) : option ExitReason :=
  pnl ← pnl_bps p px;
  if (pnl <=? - stop_loss_bps rules + PNL_TOL_BPS)%f64 then Some StopLoss
  else if (pnl >=? take_profit_bps rules - PNL_TOL_BPS)%f64 then Some TakeProfit
  else None.

Definition exit_due (p : Position) (mark : Field f64) (exit_at_ms : option Z) (fired : option ExitReason) (now_ms : Z)
    (rules : ExitRules) : option ExitReason :=
  if is_flat p then None
  else if match exit_at_ms with Some t => t <=? now_ms | None => false end then Some Deadline
  else if match opened_ms p with Some o => sat_i64 (o + max_hold_ms rules) <=? now_ms | None => false end then Some MaxHold
  else
    match (r ← fired; if on_price r then Some r else None) with
    | Some r => Some r
    | None => px ← value mark; tp_sl_due p px rules
    end.

Definition exit_client_order_id (account instrument : string) (reason : ExitReason) (opened_ms attempt : Z) : string :=
  let base :=
    "exit:" +:+ account +:+ ":" +:+ instrument +:+ ":" +:+ exit_reason_str reason +:+ ":" +:+ show_Z opened_ms in
  if attempt <=? 1 then base else base +:+ ":" +:+ show_Z attempt.

(** ** The row of a run *)

Inductive ExitStatus : Type := Held | ExFilled | ExPartial | ExRejected | ExDenied | ExFlat | ExError | Backoff | Stuck.
#[export] Instance ExitStatus_eq_dec : EqDecision ExitStatus.
Proof. solve_decision. Defined.
Definition exit_status_str (s : ExitStatus) : string :=
  match s with
  | Held => "held" | ExFilled => "filled" | ExPartial => "partial" | ExRejected => "rejected" | ExDenied => "denied"
  | ExFlat => "flat" | ExError => "error" | Backoff => "backoff" | Stuck => "stuck"
  end.
Definition exit_failed (s : ExitStatus) : bool :=
  match s with ExPartial | ExRejected | ExDenied | ExError | Backoff | Stuck => true | _ => false end.

Record ExitCheck : Type := mkExitCheck {
  ec_instrument : string;
  ec_qty : f64;
  ec_avg_px : option f64;
  ec_opened_ms : option Z;
  ec_exit_at_ms : option Z;
  ec_mark_px : Field f64;
  ec_pnl_bps : option f64;
  book_mid : option f64;
  triggered_ms : option Z;
  ec_reason : option ExitReason;
  ec_status : ExitStatus;
  ec_client_order_id : option string;
  ec_attempt : option Z;
  ec_rule : option string;
  ec_filled_qty : option f64;
  fill_px : option f64;
  ec_error : option string;
  next_attempt_ms : option Z;
}.
Record XmExits : Type := mkXmExits {
  xe_account : string;
  xe_positions : list ExitCheck;
  xe_ts_ms : Z;
}.

Definition count (x : XmExits) (f : ExitCheck → bool) : Z := Z.of_nat (length (List.filter f (xe_positions x))).
Definition n_due (x : XmExits) : Z := count x (λ c, match ec_reason c with Some _ => true | None => false end).
Definition n_closed (x : XmExits) : Z := count x (λ c, bool_decide (ec_status c = ExFilled)).
Definition n_failed (x : XmExits) : Z := count x (λ c, exit_failed (ec_status c)).
Definition n_stale_marks (x : XmExits) : Z := count x (λ c, match value (ec_mark_px c) with None => true | Some _ => false end).
Definition n_book_marks (x : XmExits) : Z := count x (λ c, match book_mid c with Some _ => true | None => false end).
Definition n_stuck (x : XmExits) : Z := count x (λ c, bool_decide (ec_status c = Stuck)).

Definition exits_features (x : XmExits) : Features :=
  set_int (set_int (set_int (set_int (set_int (set_int (set_int ∅
    "n_open" (Some (Z.of_nat (length (xe_positions x))))) "n_due" (Some (n_due x))) "n_closed" (Some (n_closed x)))
    "n_failed" (Some (n_failed x))) "n_stale_marks" (Some (n_stale_marks x))) "n_book_marks" (Some (n_book_marks x)))
    "n_stuck" (Some (n_stuck x)).

Definition exits_status (x : XmExits) : ObsStatus :=
  let failed := n_failed x in
  if (0 <? failed) && (n_closed x =? 0) then ObsError
  else if (0 <? failed) || (0 <? n_stale_marks x) then ObsPartial
  else ObsOk.

Definition check_error (c : ExitCheck) : ReadError :=
  let why := match ec_error c with Some e => e | None => default "" (ec_rule c) end in
  read_error_new ("exit:" +:+ ec_instrument c) NotApplicable
    (exit_status_str (ec_status c) +:+ " " +:+ match ec_reason c with Some r => exit_reason_str r | None => "-" end +:+ " "
     +:+ default "-" (ec_client_order_id c) +:+ ": " +:+ why).
Definition exits_errors (x : XmExits) : list ReadError :=
  map check_error (List.filter (λ c, exit_failed (ec_status c)) (xe_positions x))
  ++ omap (λ c, error (ec_mark_px c)) (xe_positions x).

(** ** Cases of the tests in the source *)

Module ExitCases.
Definition rules : ExitRules := mkExitRules (of_Z 200) (of_Z 100) (24 * HOUR_MS).
Definition position (q : Z) : Position :=
mkPosition "hyperliquid:xyz:TSLA" "hyperliquid:xyz:TSLA" "hyperliquid" (of_Z q) (Some (of_Z 100)) zero zero zero (Some T0) None [].
Definition stale : Field f64 := FErr (read_error_new "mark:hyperliquid:xyz:TSLA" Transient "stale: mark age 60000 ms > 20000 ms").
Definition due (q : Z) (mark : Field f64) (exit_at : option Z) (now : Z) : option ExitReason :=
exit_due (position q) mark exit_at None now rules.
End ExitCases.

Example exit_due_vectors :
  map (λ '(q, m, d, n), ExitCases.due q m d n)
    [(1, FOk (of_Z 100), None, T0 + 1); (1, FOk (of_Z 102), None, T0 + 1); (1, FOk (dec 101999 (-3)), None, T0 + 1);
     (1, FOk (of_Z 99), None, T0 + 1); (1, FOk (dec 99001 (-3)), None, T0 + 1); (-1, FOk (of_Z 98), None, T0 + 1);
     (-1, FOk (of_Z 101), None, T0 + 1); (-1, FOk (dec 100999 (-3)), None, T0 + 1); (1, ExitCases.stale, None, T0 + 1);
     (1, FAbsent, None, T0 + 1); (1, ExitCases.stale, None, T0 + 24 * HOUR_MS); (1, FOk (of_Z 100), None, T0 + 24 * HOUR_MS - 1);
     (1, ExitCases.stale, Some (T0 + HOUR_MS), T0 + HOUR_MS); (1, FOk (of_Z 100), Some (T0 + HOUR_MS), T0 + HOUR_MS - 1)]
  = [None; Some TakeProfit; None; Some StopLoss; None; Some TakeProfit; Some StopLoss; None; None; None; Some MaxHold; None;
     Some Deadline; None].
Proof. vm_compute. reflexivity. Qed.

Example retry_waits :
  map exit_retry_wait_ms [0; 1; 2; 3; 4; 5; 6; 7; 8; 100] = [15000; 15000; 30000; 60000; 120000; 240000; 480000; 900000; 900000; 900000].
Proof. vm_compute. reflexivity. Qed.

(** ** Exit rules: what is due stays due, refused exits come again, ids are unique *)

(** ** What is due *)

Lemma sat_i64_bounds x : x ≤ i64_max → sat_i64 x ≤ i64_max ∧ (x ≤ sat_i64 x).
Proof. unfold sat_i64, i64_min, i64_max. lia. Qed.

(** The trigger on record after a run: a stop-loss or take-profit found due is
    recorded first, the first one of the opening is kept ([trigger_exit]). *)
Definition recorded (fired : option ExitReason) (due : ExitReason) : option ExitReason :=
  match fired with Some r => Some r | None => if on_price due then Some due else None end.

(** C13. Once a position is due to close it stays due while it is open, with the
    mark gone stale or the price back inside the band: a time reason stays, or
    the deadline takes over from the longest hold; a stop-loss or take-profit
    that fired stays until a time reason takes over. *)
Theorem once_due_stays_due p mark exit_at fired now rules r mark' now' :
  exit_due p mark exit_at fired now rules = Some r → now ≤ now' →
  (∀ f, fired = Some f → on_price f = true) →
  ∃ r', exit_due p mark' exit_at (recorded fired r) now' rules = Some r'
    ∧ (r' = r ∨ r' = Deadline ∨ r' = MaxHold ∧ on_price r = true).
Proof.
  intros H Hle Hf. revert H. unfold exit_due. destruct (is_flat p); [done|].
  set (dl n := match exit_at with Some t => t <=? n | None => false end).
  set (mh n := match opened_ms p with Some o => sat_i64 (o + max_hold_ms rules) <=? n | None => false end).
  assert (∀ f : Z → bool, (f = dl ∨ f = mh) → f now = true → f now' = true) as Hmono.
  { intros f [-> | ->]; unfold dl, mh; [destruct exit_at|destruct (opened_ms p)]; rewrite ?Z.leb_le; intros; lia || done. }
  fold (dl now) (mh now) (dl now') (mh now').
  destruct (dl now) eqn:E1; [intros [= <-]; rewrite (Hmono dl); [by eauto|by left|done]|].
  destruct (dl now') eqn:E1'; [intros _; eexists; split; [done|by auto]|].
  destruct (mh now) eqn:E2; [intros [= <-]; rewrite (Hmono mh); [by eauto|by right|done]|].
  assert (∀ r0, on_price r0 = true → r = r0 → recorded fired r = Some r0 →
     ∃ r', (if mh now' then Some MaxHold else
              match (x ← recorded fired r; if on_price x then Some x else None) with Some r => Some r | None => px ← value mark'; tp_sl_due p px rules end) = Some r'
           ∧ (r' = r ∨ r' = Deadline ∨ r' = MaxHold ∧ on_price r = true)) as Hgo.
  { intros r0 Hr0 -> ->. cbn. rewrite Hr0. destruct (mh now'); eexists; (split; [done|]); auto. }
  intros H. destruct fired as [f|]; cbn in H.
  - rewrite (Hf f eq_refl) in H. injection H as <-. apply (Hgo f); [by apply Hf|done|done].
  - assert (on_price r = true) as Hr.
    { destruct (value mark) as [px|]; [|done]. cbn in H. unfold tp_sl_due in H. destruct (pnl_bps p px); [|done]. cbn in H.
      destruct (_ <=? _)%f64; [by injection H as <-|]. destruct (_ <=? _)%f64; [by injection H as <-|done]. }
    eapply (Hgo r); [done|done|]. cbn. by rewrite Hr.
Qed.
Lemma once_due_stays_due_witness :
  ∃ r', exit_due (ExitCases.position 1) ExitCases.stale None (Some StopLoss) (T0 + HOUR_MS) ExitCases.rules = Some r'.
Proof.
  destruct (once_due_stays_due (ExitCases.position 1) (FOk (of_Z 99)) None None (T0 + 1) ExitCases.rules StopLoss
    ExitCases.stale (T0 + HOUR_MS) ltac:(vm_compute; reflexivity) ltac:(vm_compute; discriminate) ltac:(done)) as (r' & H & _).
  exists r'. exact H.
Defined.

(** ** Retries *)

Lemma retry_wait_bounds n : EXIT_RETRY_BASE_MS ≤ exit_retry_wait_ms n ≤ EXIT_RETRY_CAP_MS.
Proof.
  unfold exit_retry_wait_ms. set (d := Z.min (Z.max 0 _) _). assert (0 ≤ d ≤ 7) as Hd by (unfold d, EXIT_RETRY_STEPS; clear; lia). clearbody d.
  rewrite Z.shiftl_1_l. assert (1 ≤ 2 ^ d ≤ 128) as Hp.
  { split; [pose proof (Z.pow_pos_nonneg 2 d); lia|]. change 128 with (2 ^ 7). by apply Z.pow_le_mono_r; lia. }
  unfold sat_i64, i64_min, i64_max, EXIT_RETRY_BASE_MS, EXIT_RETRY_CAP_MS. lia.
Qed.
Lemma retry_wait_mono n m : n ≤ m → exit_retry_wait_ms n ≤ exit_retry_wait_ms m.
Proof.
  intros Hnm. unfold exit_retry_wait_ms. set (d := Z.min (Z.max 0 (Z.max n 1 - 1)) _). set (d' := Z.min (Z.max 0 (Z.max m 1 - 1)) _).
  assert (0 ≤ d ≤ d') as Hd by (unfold d, d', EXIT_RETRY_STEPS; clear -Hnm; lia). clearbody d d'. rewrite !Z.shiftl_1_l.
  assert (2 ^ d ≤ 2 ^ d') by (apply Z.pow_le_mono_r; lia).
  unfold sat_i64, i64_min, i64_max, EXIT_RETRY_BASE_MS. lia.
Qed.

(** The next attempt of an exit: never again exactly when the latest one was
    rejected for a final reason; otherwise at once after no attempt, a fill or
    a partial fill, and after a rejection that may pass from 15 seconds to 15
    minutes later, the longer the more rejections came in a row, and then for
    good: no exit waits forever. *)
Theorem retries_wait_their_turn latest rest now :
  let l := latest :: rest in
  (∀ reason, exit_retry l now = Final reason ↔
     at_status latest = FsRejected ∧ at_reason latest = Some reason ∧ is_transient reason = false)
  ∧ (∀ at_ms n, exit_retry l now = Wait at_ms n → now < at_ms ∧ 1 ≤ n
       ∧ at_ms = sat_i64 (at_ts_ms latest + exit_retry_wait_ms n)
       ∧ EXIT_RETRY_BASE_MS ≤ exit_retry_wait_ms n ≤ EXIT_RETRY_CAP_MS)
  ∧ (at_ts_ms latest + EXIT_RETRY_CAP_MS ≤ now → i64_min ≤ now →
     exit_retry l now = RetryNow ∨ ∃ reason, exit_retry l now = Final reason).
Proof.
  intros l. unfold l, exit_retry.
  assert (is_rejected latest = true ↔ at_status latest = FsRejected) as Hr by apply bool_decide_eq_true.
  destruct (is_rejected latest) eqn:Er; cbn [negb].
  2: { split_and!; [|done|by left]. intros reason. split; [done|]. intros (H & _). by apply Hr in H. }
  apply proj1 in Hr. specialize (Hr eq_refl).
  destruct (r ← at_reason latest; _) as [reason|] eqn:E.
  { assert (at_reason latest = Some reason ∧ is_transient reason = false) as [H1 H2].
    { destruct (at_reason latest) as [r|]; [|done]. cbn in E. destruct (is_transient r) eqn:Et; cbn in E; [done|]. by injection E as <-. }
    split_and!; [|done|by intros; right; eexists]. intros r. rewrite H1. split; [by intros [= <-]|]. by intros (_ & [= <-] & _). }
  set (n := Z.of_nat _). assert (1 ≤ n) as Hn.
  { unfold n. change (Z.to_nat EXIT_RETRY_STEPS) with 7%nat. cbn [firstn take_while]. rewrite Er. cbn [length]. lia. }
  clearbody n. pose proof (retry_wait_bounds n) as Hb. split_and!.
  - intros reason. destruct (_ <=? _); (split; [done|]); intros (_ & Ha & Ht); rewrite Ha in E; cbn in E; by rewrite Ht in E.
  - intros at_ms k. destruct (Z.leb_spec (sat_i64 (at_ts_ms latest + exit_retry_wait_ms n)) now); [done|]. by intros [= <- <-].
  - intros Hle Hmin. left. replace (_ <=? now) with true; [done|]. symmetry. apply Z.leb_le.
    unfold sat_i64, i64_min, i64_max, EXIT_RETRY_CAP_MS in *. lia.
Qed.
Lemma retries_wait_their_turn_witness :
  let a := mkAttempt FsRejected (Some StaleBook) T0 in
  exit_retry [a; a] (T0 + 900000) = RetryNow ∨ ∃ reason, exit_retry [a; a] (T0 + 900000) = Final reason.
Proof.
  intros a. refine (proj2 (proj2 (retries_wait_their_turn a [a] (T0 + 900000))) _ _); vm_compute; discriminate.
Defined.

(** ** Idempotency keys *)

Definition no_colon (s : string) : bool := str_forall (λ a, negb (Ascii.eqb a ":")) s.

Lemma last_colon a b a' b' : no_colon b = true → no_colon b' = true → (a +:+ ":" +:+ b)%string = (a' +:+ ":" +:+ b')%string → a = a' ∧ b = b'.
Proof.
  intros Hb Hb' E. assert (rsplit_once ":" (a +:+ String ":" b) = rsplit_once ":" (a' +:+ String ":" b')) as H by exact (f_equal _ E).
  rewrite !rsplit_once_app in H by done. by injection H.
Qed.
Lemma digits_no_colon s : str_forall is_ascii_digit s = true → no_colon s = true.
Proof.
  apply str_forall_impl. intros a. unfold is_ascii_digit. destruct (Ascii.eqb_spec a ":") as [->|]; [by vm_compute|done].
Qed.
Lemma show_Z_no_colon n : no_colon (show_Z n) = true.
Proof.
  unfold show_Z. destruct (Z.ltb_spec n 0).
  - change (no_colon (show_N (- n)) = true). apply digits_no_colon, show_N_digits. lia.
  - apply digits_no_colon, show_N_digits. lia.
Qed.
Lemma show_Z_inj n m : show_Z n = show_Z m → n = m.
Proof.
  assert (∀ k, 0 ≤ k → ∀ s, show_N k ≠ String "-" s) as Hm.
  { intros k Hk s E. pose proof (show_N_digits k Hk) as H. rewrite E in H. by vm_compute in H. }
  unfold show_Z. destruct (Z.ltb_spec n 0), (Z.ltb_spec m 0); intros E.
  - injection E as E. apply (f_equal (parse_dec 0)) in E. rewrite !parse_show_N in E by lia. lia.
  - symmetry in E. by apply Hm in E.
  - by apply Hm in E.
  - apply (f_equal (parse_dec 0)) in E. by rewrite !parse_show_N in E by lia.
Qed.
Lemma reason_no_colon r : no_colon (exit_reason_str r) = true.
Proof. by destruct r. Qed.
Lemma reason_not_number r n : exit_reason_str r ≠ show_Z n.
Proof.
  unfold show_Z. destruct (Z.ltb_spec n 0); [by destruct r|]. intros E.
  pose proof (show_N_digits n ltac:(lia)) as H1. rewrite <-E in H1. by destruct r.
Qed.
Lemma str_app_inj_l (a b c : string) : (a +:+ b)%string = (a +:+ c)%string → b = c.
Proof. induction a as [|x a IH]; [done|]. rewrite !str_app_cons. intros [= H]. by apply IH. Qed.

(** Two exits of an account share an idempotency key only when they are the
    same attempt at closing the same opening of the same position for the same
    reason: a later attempt is never answered with the stored order of another. *)
Theorem exit_ids_name_one_attempt account i r o n i' r' o' n' :
  1 ≤ n → 1 ≤ n' → exit_client_order_id account i r o n = exit_client_order_id account i' r' o' n' →
  i = i' ∧ r = r' ∧ o = o' ∧ n = n'.
Proof.
  intros Hn Hn'. unfold exit_client_order_id.
  assert (∀ i r o, ("exit:" +:+ account +:+ ":" +:+ i +:+ ":" +:+ exit_reason_str r +:+ ":" +:+ show_Z o)%string
    = ((("exit:" +:+ account +:+ ":" +:+ i) +:+ ":" +:+ exit_reason_str r) +:+ ":" +:+ show_Z o)%string) as Hassoc.
  { intros. by rewrite !str_app_assoc. }
  assert (∀ i i' r r', (("exit:" +:+ account +:+ ":" +:+ i) +:+ ":" +:+ exit_reason_str r)%string
     = (("exit:" +:+ account +:+ ":" +:+ i') +:+ ":" +:+ exit_reason_str r')%string → i = i' ∧ r = r') as Hbase.
  { intros j j' s s' E. apply last_colon in E as [E Es]; [|apply reason_no_colon..]. split.
    - by apply str_app_inj_l, str_app_inj_l, str_app_inj_l in E.
    - by destruct s, s'. }
  rewrite !Hassoc. set (b := (_ +:+ ":" +:+ exit_reason_str r)%string). set (b' := (_ +:+ ":" +:+ exit_reason_str r')%string).
  destruct (Z.leb_spec n 1), (Z.leb_spec n' 1); intros E.
  - apply last_colon in E as [E1 E2]; [|apply show_Z_no_colon..]. apply Hbase in E1 as [-> ->]. apply show_Z_inj in E2. split_and!; [done..|lia].
  - exfalso. apply last_colon in E as [E1 _]; [|apply show_Z_no_colon..]. unfold b in E1.
    apply last_colon in E1 as [_ E1]; [|apply reason_no_colon|apply show_Z_no_colon]. by apply reason_not_number in E1.
  - exfalso. apply last_colon in E as [E1 _]; [|apply show_Z_no_colon..]. unfold b' in E1. symmetry in E1.
    apply last_colon in E1 as [_ E1]; [|apply reason_no_colon|apply show_Z_no_colon]. by apply reason_not_number in E1.
  - apply last_colon in E as [E1 E2]; [|apply show_Z_no_colon..]. apply last_colon in E1 as [E1 E3]; [|apply show_Z_no_colon..].
    apply Hbase in E1 as [-> ->]. apply show_Z_inj in E2 as ->, E3 as ->. done.
Qed.
Lemma exit_ids_witness : exit_client_order_id "paper" "hyperliquid:xyz:TSLA" StopLoss T0 2 = "exit:paper:hyperliquid:xyz:TSLA:stop_loss:1790985600000:2"
  ∧ ∀ i r o n, 1 ≤ n → exit_client_order_id "paper" i r o n = exit_client_order_id "paper" "hyperliquid:xyz:TSLA" StopLoss T0 2 → n = 2.
Proof.
  split; [vm_compute; reflexivity|]. intros i r o n Hn E.
  destruct (exit_ids_name_one_attempt "paper" i r o n "hyperliquid:xyz:TSLA" StopLoss T0 2 Hn ltac:(lia) E) as (_ & _ & _ & H). exact H.
Defined.
