(* ===== verification/Instrument.v ===== *)
(** * Instruments and Hyperliquid facts ([src/src/domain/market.rs],
    [src/src/domain/hl/mod.rs])

    What a venue lists, the names and ids of Hyperliquid markets, and the fee
    schedule of a paper account on one. *)

From Stdlib Require Import Ascii String.
From S2P Require Import Prelude.
From S2P Require Import Text.
From S2P Require Import Bytes.
From S2P Require Import Substr.
From S2P Require Import F64.
From S2P Require Import Observation.
From S2P Require Import Ledger.
From S2P Require Import Market.
From S2P Require Import Cost.

#[local] Open Scope string_scope.
#[local] Open Scope list_scope.
#[local] Open Scope Z_scope.

(** ** Attributes *)

Inductive InstrumentKind : Type := KPerp | KSpot | KOutcome.
#[export] Instance InstrumentKind_eq_dec : EqDecision InstrumentKind.
Proof. solve_decision. Defined.
Definition instrument_kind_str (k : InstrumentKind) : string :=
  match k with KPerp => "perp" | KSpot => "spot" | KOutcome => "outcome" end.

Definition listing_str (l : Listing) : string :=
  match l with Listed => "listed" | Delisted => "delisted" | NotFound => "not_found" end.

Inductive QuoteCcy : Type := Usdc | Usdt | Usdh | Usde | Usd.
#[export] Instance QuoteCcy_eq_dec : EqDecision QuoteCcy.
Proof. solve_decision. Defined.
Definition quote_str (q : QuoteCcy) : string :=
  match q with Usdc => "USDC" | Usdt => "USDT" | Usdh => "USDH" | Usde => "USDE" | Usd => "USD" end.

Inductive MarginMode : Type := Normal | NoCross | StrictIsolated.
Definition margin_parse (s : string) : option MarginMode :=
  if String.eqb s "normal" then Some Normal
  else if String.eqb s "noCross" || String.eqb s "no_cross" then Some NoCross
  else if String.eqb s "strictIsolated" || String.eqb s "strict_isolated" then Some StrictIsolated
  else None.
Definition margin_str (m : MarginMode) : string :=
  match m with Normal => "normal" | NoCross => "no_cross" | StrictIsolated => "strict_isolated" end.

Record Underlying : Type := mkUnderlying {
  u_listing : option string;
  ticker : option string;
  ratio : option string;
  fx_converted : option bool;
}.

Record MarketInstrument : Type := mkInstrument {
  mi_id : InstrumentId;
  mi_kind : InstrumentKind;
  mi_listing : Listing;
  dex : option string;
  asset_id : option Z;
  mi_category : option Category;
  display_name : option string;
  keywords : list string;
  mi_underlying : option Underlying;
  quote_ccy : option QuoteCcy;
  mi_sz_decimals : option Z;
  mi_max_leverage : option Z;
  margin_mode : option MarginMode;
  mi_only_isolated : option bool;
  mi_oi_cap_usd : option f64;
  mi_at_oi_cap : option bool;
  mi_deployer_fee_scale : option f64;
  mi_growth_mode : option bool;
  mi_errors : list ReadError;
}.
Definition instrument_new (id : InstrumentId) (kind : InstrumentKind) (listing : Listing) : MarketInstrument :=
  mkInstrument id kind listing None None None None [] None None None None None None None None None None [].

(** [str::parse::<f64>] filtered to finite numbers reads the same decimals as
    [parse_decimal]: its other texts are infinities and NaN. *)
Definition underlying_ratio (i : MarketInstrument) : option f64 :=
  u ← mi_underlying i; r ← ratio u; parse_decimal (trim r).

Definition instrument_features (i : MarketInstrument) : Features :=
  let f := set_str ∅ "kind" (Some (instrument_kind_str (mi_kind i))) in
  let f := set_str f "listing" (Some (listing_str (mi_listing i))) in
  let f := set_bool f "delisted" (Some (bool_decide (mi_listing i = Delisted))) in
  let f := set_str f "dex" (short (dex i)) in
  let f := set_str f "category" (category_str <$> mi_category i) in
  let f := set_str f "quote_ccy" (quote_str <$> quote_ccy i) in
  let f := set_int f "sz_decimals" (mi_sz_decimals i) in
  let f := set_int f "max_leverage" (mi_max_leverage i) in
  let f := set_str f "margin_mode" (margin_str <$> margin_mode i) in
  let f := set_bool f "only_isolated" (mi_only_isolated i) in
  let f := set_num f "oi_cap_usd" (mi_oi_cap_usd i) in
  let f := set_bool f "at_oi_cap" (mi_at_oi_cap i) in
  let f := set_num f "deployer_fee_scale" (mi_deployer_fee_scale i) in
  let f := set_bool f "growth_mode" (mi_growth_mode i) in
  let f := set_num f "underlying_ratio" (underlying_ratio i) in
  set_bool f "fx_converted" (mi_underlying i ≫= fx_converted).
Definition instrument_status (i : MarketInstrument) : ObsStatus :=
  match mi_listing i with
  | NotFound => ObsAbsent
  | _ => match mi_errors i with [] => ObsOk | _ => ObsPartial end
  end.

(** ** Hyperliquid *)

Definition DEFAULT_DEX_LABEL : string := "default".

Inductive CoinKind : Type := Perp_ (dex : string) | Spot_ | Outcome_.
Definition classify (coin : string) : CoinKind :=
  if starts_with "#" coin then Outcome_
  else if starts_with "@" coin || contains "/" coin then Spot_
  else match split_once ":" coin with Some (dex, _) => Perp_ dex | None => Perp_ "" end.
Definition dex_label (dex : string) : string := if str_is_empty dex then DEFAULT_DEX_LABEL else dex.
Definition parse_dex (arg : string) : result string string :=
  let d := trim arg in
  if str_is_empty d || String.eqb d DEFAULT_DEX_LABEL then Ok ""
  else if str_forall is_ascii_alphanumeric d then Ok d
  else
    Err ("dex `" +:+ d +:+ "` is not a Hyperliquid perp dex name (ASCII letters / digits; "
         +:+ quote +:+ quote +:+ " = the default dex)").

Definition perp_asset_id (dex_position index : Z) : Z :=
  if dex_position =? 0 then index else 100000 + 10000 * dex_position + index.
Definition spot_asset_id (index : Z) : Z := 10000 + index.
Definition hl_next_funding_ms (now_ms : Z) : Z := (now_ms / HOUR_MS + 1) * HOUR_MS.

Definition collateral_quote (token : Z) : option QuoteCcy :=
  if token =? 0 then Some Usdc else if token =? 235 then Some Usde else if token =? 268 then Some Usdt
  else if token =? 360 then Some Usdh else None.
Definition token_quote (name : string) : option QuoteCcy :=
  if String.eqb name "USDC" then Some Usdc
  else if String.eqb name "USDT0" || String.eqb name "USDT" then Some Usdt
  else if String.eqb name "USDH" then Some Usdh
  else if String.eqb name "USDE" then Some Usde
  else None.

Record FeeBasis : Type := mkBasis {
  fee_tier : Z;
  staking_discount_pct : f64;
}.
Definition user_rates (b : FeeBasis) (kind : HlKind) : CostResult HlUserRates := from_tier kind (fee_tier b) (staking_discount_pct b).
Definition usdc_fee_schedule (rates : HlUserRates) (quote : option QuoteCcy) (market : HlFeeMarket) : option FeeSchedule :=
  if negb (bool_decide (quote = Some Usdc)) then None
  else match hl_fee_schedule rates zero false market with Ok s => Some s | Err _ => None end.
Definition paper_fees (i : MarketInstrument) (basis : FeeBasis) : option FeeSchedule :=
  if negb (bool_decide (mi_kind i = KPerp)) then None
  else
    scale ← mi_deployer_fee_scale i;
    growth ← mi_growth_mode i;
    match user_rates basis Perp with
    | Ok rates => usdc_fee_schedule rates (quote_ccy i) (PerpMarket scale growth)
    | Err _ => None
    end.

(** ** Cases of the tests in the source *)

Example coin_cases :
  map classify ["ETH"; "kPEPE"; "xyz:TSLA"; "io:ANTH"; "@151"; "PURR/USDC"; "#67890"]
  = [Perp_ ""; Perp_ ""; Perp_ "xyz"; Perp_ "io"; Spot_; Spot_; Outcome_]
  ∧ map parse_dex [""; " default "; "xyz"] = [Ok ""; Ok ""; Ok "xyz"] ∧ is_ok (parse_dex "x y") = false
  ∧ [perp_asset_id 1 1; perp_asset_id 1 9; perp_asset_id 8 10; perp_asset_id 10 1; perp_asset_id 0 15; spot_asset_id 151]
    = [110001; 110009; 180010; 200001; 15; 10151]
  ∧ map hl_next_funding_ms [1790775567699; 1790776800000] = [1790776800000; 1790780400000].
Proof. vm_compute. done. Qed.
