(* ===== verification/Exec.v ===== *)
(** * Exec-tool orders ([src/src/domain/xm/exec.rs])

    The idempotency key of an order, the venue facts its fill needs with those
    kept beside a position, and the rows of a fill and of a close-all. *)

From Stdlib Require Import Ascii String.
From S2P Require Import Prelude.
From S2P Require Import Text.
From S2P Require Import Bytes.
From S2P Require Import Substr.
From S2P Require Import F64.
From S2P Require Import Observation.
From S2P Require Import Book.
From S2P Require Import Ledger.
From S2P Require Import Market.
From S2P Require Import Cost.
From S2P Require Import Instrument.
From S2P Require Import Paper.
From S2P Require Risk.

#[local] Open Scope string_scope.
#[local] Open Scope list_scope.
#[local] Open Scope Z_scope.

(** ** Idempotency keys *)

Definition MAX_CLIENT_ORDER_ID : nat := 256.
Definition RESERVED_CLIENT_ORDER_ID_PREFIXES : list string :=
  ["exit:"; "fade:"; "fade-shadow:"; "feed:"; "mcp:"; "chat:"; "step:"].
Definition MAX_EXIT_SLIPPAGE_BPS : f64 := of_Z 500.

Definition client_order_id_error (id : string) : option string :=
  let n := length (chars id) in
  if (n =? 0)%nat then Some "client_order_id is empty"
  else if (MAX_CLIENT_ORDER_ID <? n)%nat then
    Some ("client_order_id is " +:+ show_Z (Z.of_nat n) +:+ " chars (at most " +:+ show_Z (Z.of_nat MAX_CLIENT_ORDER_ID) +:+ ")")
  else if any_space_or_control id then
    Some "client_order_id holds whitespace or a control character"
  else None.
Definition client_order_id_arg_error (id : string) : option string :=
  match client_order_id_error id with
  | Some e => Some e
  | None =>
      p ← List.find (λ p, starts_with p id) RESERVED_CLIENT_ORDER_ID_PREFIXES;
      Some ("client_order_id `" +:+ id +:+ "` starts with the reserved prefix `" +:+ p
            +:+ "` (ids the exit rules, the weekend fade and the feed / bridge / chat / step call paths make)")
  end.

Definition order_fingerprint (tool account instrument : string) (size : option (Side * f64)) : string :=
  match size with
  | None => tool +:+ " " +:+ account +:+ " " +:+ instrument +:+ " close"
  | Some (side, usd) => tool +:+ " " +:+ account +:+ " " +:+ instrument +:+ " " +:+ side_str side +:+ " " +:+ show usd +:+ " USD"
  end.

(** ** Venue facts *)

Record VenueFacts : Type := mkFacts {
  vf_rules : VenueRules;
  vf_fees : FeeSchedule;
  vf_status : PaperStatus;
}.

Definition status_of_listing (l : Listing) : PaperStatus := if bool_decide (l = Listed) then PsOpen else PsDelisted.

Definition venue_facts (instrument : option MarketInstrument) (ctx : option MarketCtx) (basis : FeeBasis) : result string VenueFacts :=
  match instrument with
  | None => Err "no mkt_instrument/1 row (read hl_ctx first)"
  | Some inst =>
      let id := show_id (mi_id inst) in
      if negb (String.eqb (i_venue (mi_id inst)) HYPERLIQUID) || negb (bool_decide (mi_kind inst = KPerp)) then
        Err (id +:+ " is a " +:+ i_venue (mi_id inst) +:+ " " +:+ instrument_kind_str (mi_kind inst)
             +:+ " market — paper orders take Hyperliquid perps only")
      else
        match mi_sz_decimals inst with
        | None => Err (id +:+ ": sz_decimals unknown")
        | Some sz_decimals =>
            match paper_fees inst basis with
            | None =>
                Err (id +:+ ": taker fee unknown (a USDC-quoted perp with a known deployer fee scale and growth mode is needed)")
            | Some fees =>
                let at_oi_cap :=
                  match (c ← ctx; at_oi_cap c) with Some b => Some b | None => mi_at_oi_cap inst end in
                let listing := match ctx with Some c => listing c | None => mi_listing inst end in
                Ok (mkFacts (rules_hyperliquid Perp sz_decimals at_oi_cap) fees (status_of_listing listing))
            end
        end
  end.

Record HeldFacts : Type := mkHeld {
  hf_sz_decimals : Z;
  hf_fees : FeeSchedule;
  hf_at_ms : Z;
}.
Definition held_of (f : VenueFacts) (at_ms : Z) : HeldFacts := mkHeld (r_sz_decimals (vf_rules f)) (vf_fees f) at_ms.
Definition held_venue_facts (h : HeldFacts) (ctx : option MarketCtx) : VenueFacts :=
  let listed := match ctx with Some c => bool_decide (listing c = Listed) | None => true end in
  mkFacts (rules_hyperliquid Perp (hf_sz_decimals h) (c ← ctx; at_oi_cap c)) (hf_fees h) (if listed then PsOpen else PsDelisted).

(** The facts an order fills with, and what to keep with the position. *)
Definition order_venue_facts (row : option (MarketInstrument * Z)) (ctx : option MarketCtx) (basis : FeeBasis)
    (held : option HeldFacts) (reduce_only : bool) : result string (VenueFacts * option HeldFacts) :=
  let held := if reduce_only then held else None in
  let fallback :=
    match held with
    | Some h => Ok (held_venue_facts h ctx, None)
    | None => venue_facts None ctx basis ≫= λ f, Ok (f, None)
    end in
  match row with
  | Some (inst, at_ms) =>
      if match held with Some h => hf_at_ms h <=? at_ms | None => true end then
        match venue_facts (Some inst) ctx basis with
        | Ok f => Ok (f, Some (held_of f at_ms))
        | Err why => match held with None => Err why | Some _ => fallback end
        end
      else fallback
  | None => fallback
  end.

(** ** The row of a fill *)

Record GateSummary : Type := mkSummary {
  gs_allow : bool;
  gs_rule : string;
  gs_class : Risk.OrderClass;
  gs_degraded : bool;
  gs_failed : option Risk.Check;
  gs_trips : list Risk.HaltReason;
  gs_decision_id : Z;
}.
Definition summary_of (v : Risk.RiskVerdict) (decision_id : Z) : GateSummary :=
  mkSummary (Risk.allow v) (Risk.v_rule v) (Risk.v_class v) (Risk.degraded v) (Risk.failed v) (Risk.v_trips v) decision_id.

Record PaperFillRow : Type := mkFillRow {
  pf_account : string;
  pf_client_order_id : string;
  pf_call_id : option string;
  pf_instrument : string;
  pf_side : Side;
  pf_reduce_only : bool;
  replayed : bool;
  gate : GateSummary;
  pf_intent : Value;
  pf_fill : option FillResult;
  latency_ms : option Z;
  pf_book_age_ms : option Z;
  position_qty_after : f64;
  equity_usd_after : Field f64;
  pf_exit_at_ms : option Z;
  pf_ts_ms : Z;
}.

Definition fill_status_str (s : FillStatus) : string :=
  match s with FsFilled => "filled" | FsPartial => "partial" | FsRejected => "rejected" end.
Definition status_word (r : PaperFillRow) : string :=
  match pf_fill r with None => "denied" | Some f => fill_status_str (fr_status f) end.
Definition fill_row_status (r : PaperFillRow) : ObsStatus :=
  match fr_status <$> pf_fill r with
  | None | Some FsRejected => ObsError
  | Some FsPartial => ObsPartial
  | Some FsFilled => ObsOk
  end.
Definition rejected_message (f : FillResult) : string :=
  "rejected " +:+ match fr_reason f with Some r => reason_str r | None => "-" end +:+ ": " +:+ default "" (fr_message f).
Definition fill_row_errors (r : PaperFillRow) : list ReadError :=
  match pf_fill r with
  | None =>
      let detail := match gs_failed (gate r) with Some c => ": " +:+ Risk.detail c | None => "" end in
      [read_error_new "risk" NotApplicable ("denied " +:+ gs_rule (gate r) +:+ detail)]
  | Some f =>
      if bool_decide (fr_status f = FsRejected) then [read_error_new "fill" NotApplicable (rejected_message f)] else []
  end.

(** ** The row of a close-all *)

Record CloseLeg : Type := mkCloseLeg {
  cl_instrument : string;
  cl_client_order_id : string;
  cl_status : string;
  cl_rule : option string;
  cl_filled_qty : option f64;
  cl_avg_px : option f64;
  cl_error : option string;
}.
Record PaperCloseAll : Type := mkCloseAll {
  ca_account : string;
  ca_client_order_id : string;
  ca_legs : list CloseLeg;
  ca_ts_ms : Z;
}.
Definition legs_with (c : PaperCloseAll) (status : string) : nat :=
  length (List.filter (λ l, String.eqb (cl_status l) status) (ca_legs c)).
Definition close_features (c : PaperCloseAll) : Features :=
  fold_left (λ f s, set_int f s (Some (Z.of_nat (legs_with c s)))) ["filled"; "partial"; "rejected"; "denied"; "error"]
    (set_int ∅ "positions" (Some (Z.of_nat (length (ca_legs c))))).
Definition close_status (c : PaperCloseAll) : ObsStatus :=
  let closed := legs_with c "filled" in
  if (closed =? length (ca_legs c))%nat then ObsOk
  else if (0 <? closed + legs_with c "partial")%nat then ObsPartial
  else ObsError.
Definition leg_error (l : CloseLeg) : ReadError :=
  let why := match cl_error l with Some e => e | None => default "" (cl_rule l) end in
  read_error_new ("close:" +:+ cl_instrument l) NotApplicable (cl_status l +:+ " " +:+ why).
Definition close_errors (c : PaperCloseAll) : list ReadError :=
  map leg_error (List.filter (λ l, negb (String.eqb (cl_status l) "filled")) (ca_legs c)).

(** [Value::get] by key. *)
Definition value_get (v : Value) (key : string) : option Value :=
  match v with Object o => snd <$> List.find (λ p, String.eqb (fst p) key) o | _ => None end.
Definition intent_num (r : PaperFillRow) (key : string) : option f64 := v ← value_get (pf_intent r) key; as_f64 v.
(** [i64::try_from]. *)
Definition try_i64 (x : option Z) : option Z := n ← x; if n <=? i64_max then Some n else None.

Definition fill_features (f : Features) (fill : FillResult) : Features :=
  let f := set_num f "filled_qty" (Some (fr_filled_qty fill)) in
  let f := set_num f "filled_notional_usd" (Some (filled_notional_usd fill)) in
  let f := set_num f "avg_px" (fr_avg_px fill) in
  let f := set_num f "mid" (fr_mid fill) in
  let f := set_num f "slippage_bps" (slippage_bps fill) in
  let f := set_num f "fee_usd" (Some (fr_fee_usd fill)) in
  let f := set_int f "levels_used" (Some (Z.of_nat (length (fr_fills fill)))) in
  let f := set_str f "reason" (reason_str <$> fr_reason fill) in
  set_bool f "stale_book" (Some (stale_book fill)).
Definition class_name (c : Risk.OrderClass) : string := match c with Risk.Entry => "entry" | Risk.Exit => "exit" end.
Definition fill_row_features (r : PaperFillRow) : Features :=
  let f := set_str ∅ "status" (Some (status_word r)) in
  let f := set_str f "risk" (Some (if gs_allow (gate r) then "allow" else "deny")) in
  let f := set_str f "risk_rule" (Some (gs_rule (gate r))) in
  let f := set_str f "class" (Some (class_name (gs_class (gate r)))) in
  let f := set_bool f "degraded" (Some (gs_degraded (gate r))) in
  let f := set_bool f "replayed" (Some (replayed r)) in
  let f := set_str f "side" (Some (side_str (pf_side r))) in
  let f := set_bool f "reduce_only" (Some (pf_reduce_only r)) in
  let f := set_num f "intent_qty" (intent_num r "qty") in
  let f := set_num f "intent_notional_usd" (intent_num r "notional_usd") in
  let f := match pf_fill r with Some fill => fill_features f fill | None => f end in
  let f := set_int f "latency_ms" (try_i64 (latency_ms r)) in
  let f := set_int f "book_age_ms" (try_i64 (pf_book_age_ms r)) in
  let f := set_num f "position_qty_after" (Some (position_qty_after r)) in
  let f := set_num f "equity_usd_after" (value (equity_usd_after r)) in
  set_int f "exit_at_ms" (pf_exit_at_ms r).
