(* ===== verification/PaperExec.v ===== *)
(** * Orders of the exec tools ([src/src/application/paper.rs],
    [src/src/ports/paper.rs], [src/src/ports/book.rs])

    The types the paper ledger and its callers share, a fill after its latency,
    and [decide]: what the ledger runs on a snapshot inside its transaction. *)

From Stdlib Require Import Ascii String.
From S2P Require Import Prelude.
From S2P Require Import Text.
From S2P Require Import F64.
From S2P Require Import Observation.
From S2P Require Import Book.
From S2P Require Import Ledger.
From S2P Require Import Market.
From S2P Require Import Cost.
From S2P Require Import Paper.
From S2P Require Import Risk.
From S2P Require Import RiskState.
From S2P Require Import Exits.
From S2P Require Import Exec.

#[local] Open Scope string_scope.
#[local] Open Scope list_scope.
#[local] Open Scope Z_scope.

(** ** Reads *)

Record BookRead : Type := mkBookRead {
  br_book : L2Book;
  br_observed_at_ms : Z;
}.
Definition read_age_ms (r : BookRead) (now_ms : Z) : Z :=
  elapsed_ms now_ms (Z.min (venue_ts_ms (br_book r)) (br_observed_at_ms r)).

(** ** The ledger port *)

Record LedgerSnapshot : Type := mkSnapshot {
  sn_account : PaperAccount;
  sn_owner : option string;
  sn_exit_at_ms : gmap string Z;
  sn_exit_triggers : gmap string ExitTrigger;
  sn_facts : gmap string HeldFacts;
  sn_orders_last_min : Z;
  sn_open_orders : Z;
  sn_risk : RiskState;
  sn_now_ms : Z;
}.

Inductive Outcome : Type :=
  | Denied
  | Sent (result : FillResult) (exit_at_ms : option Z).

Record Decision : Type := mkDecision {
  d_intent : OrderIntent;
  d_verdict : RiskVerdict;
  d_context : Value;
  d_outcome : Outcome;
  d_risk : option RiskState;
}.

Record PlaceRequest : Type := mkRequest {
  q_account : string;
  q_client_order_id : string;
  q_call_id : option string;
  q_tool : string;
  q_session_id : option string;
  q_fingerprint : option string;
  q_instrument : string;
  q_funding : option FundingRate;
  q_facts : option HeldFacts;
  q_now_ms : Z;
}.

Record StoredDecision : Type := mkStoredDecision {
  sd_id : Z;
  sd_ts_ms : Z;
  sd_account : string;
  sd_client_order_id : string;
  sd_call_id : option string;
  sd_tool : option string;
  sd_session_id : option string;
  sd_instrument : string;
  sd_verdict : RiskVerdict;
  sd_intent : Value;
  sd_context : Value;
}.

Record StoredOrder : Type := mkStoredOrder {
  so_id : Z;
  so_account : string;
  so_client_order_id : string;
  so_call_id : option string;
  so_decision_id : Z;
  so_ts_ms : Z;
  so_underlying : string;
  so_result : FillResult;
  so_exit_at_ms : option Z;
  so_fingerprint : option string;
}.
Definition conflict (o : StoredOrder) (fingerprint : option string) : option string :=
  match so_fingerprint o, fingerprint with
  | Some stored, Some asked =>
      if negb (String.eqb stored asked) then
        Some ("client_order_id_conflict: order " +:+ so_client_order_id o +:+ " of account " +:+ so_account o +:+ " was placed as `"
              +:+ stored +:+ "`; this request is `" +:+ asked +:+ "` — use a new client_order_id")
      else None
  | _, _ => None
  end.
Definition stored_fill (o : StoredOrder) : option Fill := ledger_fill (so_result o) (so_underlying o) (so_ts_ms o).

Record Placement : Type := mkPlacement {
  p_replayed : bool;
  p_decision : StoredDecision;
  p_order : option StoredOrder;
  p_account : PaperAccount;
}.

(** ** A fill after its latency *)

Inductive OrderType_ : Type := TMarket | TIoc.
#[export] Instance OrderType_eq_dec : EqDecision OrderType_.
Proof. solve_decision. Defined.
Definition order_type (o : PaperOrder) : OrderType_ := match o_kind o with OMarket => TMarket | OLimit => TIoc end.
Definition type_name (t : OrderType_) : string := match t with TMarket => "market" | TIoc => "ioc" end.

Record PaperConfig : Type := mkPaperConfig {
  pc_initial_cash_usd : f64;
  pc_latency_ms : Z;
  pc_latency_jitter_ms : Z;
  pc_fee_tier : Z;
  pc_staking_discount_pct : f64;
  pc_order_types : list OrderType_;
}.
Record PaperFill : Type := mkPaperFill {
  sent_ms : Z;
  pl_latency_ms : Z;
  pl_book : option BookRead;
  pl_result : FillResult;
}.

(** The clock and the book source: when a sleep until [t] ends, and what a read
    begun at a time answers and when. *)
Record Venue : Type := mkVenue {
  wakes : Z → Z;
  fresh_book : Z → result ReadError BookRead * Z;
}.

Definition fill_with_latency (v : Venue) (now_ms : Z) (paper : PaperConfig) (o : PaperOrder) (env : FillEnv) (rand01 : f64)
    : result ReadError PaperFill :=
  let refused_ reason detail := mkPaperFill now_ms 0 None (refused o reason detail) in
  let needs := order_type o in
  if negb (bool_decide (needs ∈ pc_order_types paper)) then
    Ok (refused_ OrderType (type_name needs +:+ " orders are off ([paper] order_types = "
                            +:+ show_strings (map type_name (pc_order_types paper)) +:+ ")"))
  else
    match check_order o env with
    | Err what => Ok (refused_ InvalidOrder what)
    | Ok _ =>
        let latency_ms := jittered_latency_ms (pc_latency_ms paper) (pc_latency_jitter_ms paper) rand01 in
        let arrive_ms := sat_i64 (now_ms + Z.min latency_ms i64_max) in
        match fresh_book v (wakes v arrive_ms) with
        | (Err e, _) => Err e
        | (Ok read, done_ms) =>
            Ok (mkPaperFill now_ms latency_ms (Some read) (simulate_fill o (br_book read) (read_age_ms read done_ms) env))
        end
    end.

(** ** [decide] *)

(** The more halting of two probes of the kill-switch file. *)
Definition present (f : Field bool) : bool := match value f with Some true => true | _ => false end.
Definition either_probe (before inside : Field bool) : Field bool :=
  if present inside then inside
  else if present before || match value inside with Some _ => true | None => false end then before
  else inside.

Record ExecPlan : Type := mkPlan {
  pn_gate : GateKind;
  pn_limits : RiskLimits;
  pn_order : PaperOrder;
  pn_close : bool;
  pn_strategy : option string;
  pn_hedge_instrument : option string;
  pn_opportunity_key : option string;
  pn_exit_at_ms : option Z;
  pn_marks : gmap string (Field Mark);
  pn_legs : gmap string LegMarket;
  pn_opportunity : Field EdgeInput;
  pn_kill_switch : Field bool;
  (* What the second probe answers, when there is one. *)
  pn_kill_recheck : option (Field bool);
  pn_rules : VenueRules;
  pn_fees : FeeSchedule;
  pn_status : PaperStatus;
  pn_book : result ReadError BookRead;
}.

Definition with_size_side (o : PaperOrder) (s : Side) (size : OrderSize) : PaperOrder :=
  mkOrder (o_client_order_id o) (o_instrument o) s size (o_kind o) (o_tif o) (o_limit_px o) (o_reduce_only o) (o_max_slippage_bps o)
    (o_ref_mid o).

Definition plan_id (plan : ExecPlan) : string := show_id (o_instrument (pn_order plan)).
(** The position the order meets: the snapshot's, else a flat one. *)
Definition plan_position (plan : ExecPlan) (snap : LedgerSnapshot) : Position :=
  let id := plan_id plan in
  match positions (sn_account snap) !! id with
  | Some p => p
  | None => flat id id (default "" (venue_of id))
  end.
(** The order as placed: a close takes the whole position, from the other side. *)
Definition plan_order (plan : ExecPlan) (snap : LedgerSnapshot) : PaperOrder :=
  let o := pn_order plan in
  if pn_close plan then
    let q := qty (plan_position plan snap) in
    with_size_side o (if negb (q =? zero)%f64 then (if (q >? zero)%f64 then Sell else Buy) else o_side o) (SizeQty (SFabs q))
  else o.

Definition plan_ref_px (plan : ExecPlan) (snap : LedgerSnapshot) : option f64 :=
  let book_mid := match pn_book plan with Ok b => mid (br_book b) | Err _ => None end in
  let mark_px := m ← pn_marks plan !! plan_id plan; m ← value m; Some (m_px m) in
  let px :=
    match book_mid with
    | Some p => Some p
    | None => match mark_px with Some p => Some p | None => avg_px (plan_position plan snap) end
    end in
  p ← px; if is_pos p then Some p else None.
Definition plan_intent (plan : ExecPlan) (snap : LedgerSnapshot) : OrderIntent :=
  let o := plan_order plan snap in
  let '(qty, notional_usd) :=
    match o_size o, plan_ref_px plan snap with
    | SizeQty q, Some px => (q, (q * px)%f64)
    | SizeQty q, None => (q, S754_nan)
    | NotionalUsd n, Some px => ((n / px)%f64, n)
    | NotionalUsd n, None => (S754_nan, n)
    end in
  mkIntent (l_account (pn_limits plan)) (plan_id plan) (underlying (plan_position plan snap)) (o_side o) qty notional_usd
    (o_reduce_only o) (pn_strategy plan) (pn_hedge_instrument plan) (pn_opportunity_key plan).

Definition plan_kill_switch (plan : ExecPlan) (o : PaperOrder) : Field bool :=
  match pn_kill_recheck plan with
  | Some inside => if negb (o_reduce_only o) then either_probe (pn_kill_switch plan) inside else pn_kill_switch plan
  | None => pn_kill_switch plan
  end.
Definition plan_context (plan : ExecPlan) (snap : LedgerSnapshot) : RiskContext * RiskState :=
  let now := sn_now_ms snap in
  let '(valued, rolled) :=
    state_value (sn_risk snap) (sn_account snap) (pn_marks plan) now (ma_ctx (max_data_age_ms (pn_limits plan))) in
  (mkContext valued (effective_halt rolled now) (plan_kill_switch plan (plan_order plan snap)) FAbsent (sn_orders_last_min snap)
     (sn_open_orders snap) (pn_legs plan) (pn_opportunity plan), rolled).

Definition book_age_waived (v : RiskVerdict) : bool :=
  match List.find (λ c, String.eqb (rule c) rules.BOOK_AGE) (v_checks v) with
  | Some c => bool_decide (ck_status c = Waived)
  | None => false
  end.
Definition plan_env (plan : ExecPlan) (snap : LedgerSnapshot) (v : RiskVerdict) : FillEnv :=
  mkEnv (pn_rules plan) (pn_status plan) (plan_position plan snap) (pn_fees plan) (ma_book (max_data_age_ms (pn_limits plan)))
    (o_reduce_only (plan_order plan snap) && book_age_waived v).
Definition plan_result (plan : ExecPlan) (snap : LedgerSnapshot) (v : RiskVerdict) : FillResult :=
  let o := plan_order plan snap in
  match pn_book plan with
  | Ok read => simulate_fill o (br_book read) (read_age_ms read (sn_now_ms snap)) (plan_env plan snap v)
  | Err e =>
      refused o StaleBook
        ("no book after the latency: " +:+ e_field e +:+ " " +:+ class_str (e_class e) +:+ " " +:+ e_message e)
  end.

Section Decide.
(** [RiskContext::digest]: the JSON kept for audits. *)
Variable digest : RiskContext → Z → Value.

Definition decide_plan (plan : ExecPlan) (snap : LedgerSnapshot) : Decision :=
let now := sn_now_ms snap in
let intent := plan_intent plan snap in
let '(ctx, rolled) := plan_context plan snap in
let verdict := evaluate_with (pn_gate plan) intent ctx (pn_limits plan) now in
let outcome := if allow verdict then Sent (plan_result plan snap verdict) (pn_exit_at_ms plan) else Denied in
let next := trip rolled (v_trips verdict) now in
mkDecision intent verdict (digest ctx now) outcome (if negb (state_eqb next (sn_risk snap)) then Some next else None).
End Decide.
