(* ===== verification/PaperExecProps.v ===== *)
(** * The orders of the exec tools: the halt between decisions, and what a sent
    order has passed *)

From Stdlib Require Import Ascii String.
From S2P Require Import Prelude.
From S2P Require Import Text.
From S2P Require Import F64.
From S2P Require Import F64Facts.
From S2P Require Import Observation.
From S2P Require Import Book.
From S2P Require Import Ledger.
From S2P Require Import Market.
From S2P Require Import Cost.
From S2P Require Import Paper.
From S2P Require Import PaperProps.
From S2P Require Import Risk.
From S2P Require Import RiskProps.
From S2P Require Import RiskState.
From S2P Require Import Exits.
From S2P Require Import Exec.
From S2P Require Import PaperExec.

#[local] Open Scope string_scope.
#[local] Open Scope list_scope.
#[local] Open Scope Z_scope.

(** ** One decision *)

Definition ctx_of_plan (plan : ExecPlan) (snap : LedgerSnapshot) : RiskContext := fst (plan_context plan snap).
Definition verdict_of_plan (plan : ExecPlan) (snap : LedgerSnapshot) : RiskVerdict :=
  evaluate_with (pn_gate plan) (plan_intent plan snap) (ctx_of_plan plan snap) (pn_limits plan) (sn_now_ms snap).
Definition class_of_plan (plan : ExecPlan) (snap : LedgerSnapshot) : OrderClass :=
  class_of (plan_intent plan snap) (ctx_of_plan plan snap).

(** The risk state a ledger keeps after a decision on [snap]. *)
Definition state_after (snap : LedgerSnapshot) (d : Decision) : RiskState := default (sn_risk snap) (d_risk d).

Lemma context_spec plan snap : ∃ equity,
  let rolled := roll (sn_risk snap) (sn_now_ms snap) equity in
  snd (plan_context plan snap) = rolled
  ∧ halt (ctx_of_plan plan snap) = effective_halt rolled (sn_now_ms snap)
  ∧ kill_switch (ctx_of_plan plan snap) = plan_kill_switch plan (plan_order plan snap).
Proof.
  unfold ctx_of_plan, plan_context, state_value. cbv zeta.
  exists (value (equity_usd (build (sn_account snap) (pn_marks plan) (sn_now_ms snap) (ma_ctx (max_data_age_ms (pn_limits plan))) None None))).
  done.
Qed.

Section Decisions.
Context (digest : RiskContext → Z → Value).

Lemma decide_spec plan snap : let d := decide_plan digest plan snap in
  d_verdict d = verdict_of_plan plan snap
  ∧ d_intent d = plan_intent plan snap
  ∧ d_outcome d = (if allow (verdict_of_plan plan snap) then Sent (plan_result plan snap (verdict_of_plan plan snap)) (pn_exit_at_ms plan)
                   else Denied)
  ∧ d_risk d = (let next := trip (snd (plan_context plan snap)) (v_trips (verdict_of_plan plan snap)) (sn_now_ms snap) in
                if negb (state_eqb next (sn_risk snap)) then Some next else None).
Proof.
  unfold decide_plan, verdict_of_plan, ctx_of_plan. destruct (plan_context plan snap) as [c rolled]. done.
Qed.

Lemma state_after_halt plan snap :
  st_halt (state_after snap (decide_plan digest plan snap))
  = st_halt (trip (snd (plan_context plan snap)) (v_trips (verdict_of_plan plan snap)) (sn_now_ms snap)).
Proof.
  destruct (decide_spec plan snap) as (_ & _ & _ & H). unfold state_after. rewrite H. cbv zeta.
  destruct (state_eqb _ _) eqn:E; [|done]. cbn [negb default]. unfold state_eqb in E.
  apply andb_true_iff in E as [E _]. apply andb_true_iff in E as [E _]. apply andb_true_iff in E as [E _].
  by apply bool_decide_eq_true in E.
Qed.

Lemma decide_keeps_sticky plan snap h :
  st_halt (sn_risk snap) = Some h → is_sticky (reason h) = true →
  halt (ctx_of_plan plan snap) = Some h ∧ st_halt (state_after snap (decide_plan digest plan snap)) = Some h.
Proof.
  intros E Hs. destruct (context_spec plan snap) as (eq & Hr & Hh & _).
  assert (st_halt (roll (sn_risk snap) (sn_now_ms snap) eq) = Some h) as Hst by (rewrite roll_halt; by apply sticky_effective).
  split; [rewrite Hh; by apply sticky_effective|].
  rewrite state_after_halt, trip_halt_eq, Hr, (sticky_effective _ h) by done. by apply trip_halt_sticky.
Qed.
End Decisions.

(** What is in force stays in force over the roll of the same instant. *)
Lemma effective_rolled s now eq : effective_halt (roll s now eq) now = effective_halt s now.
Proof.
  unfold effective_halt at 1. rewrite roll_halt. unfold effective_halt.
  destruct (st_halt s) as [h|]; [|done]. cbn [mbind option_bind].
  destruct (bool_decide (reason h = DailyLoss)) eqn:E1, (utc_day_start now <=? since_ms h) eqn:E2; cbn; by rewrite ?E1, ?E2.
Qed.

(** An entry the gate lets through met no halt and no kill switch. *)
Lemma allowed_entry_risk i c l now :
  allow (evaluate i c l now) = true → class_of i c = Entry → halt c = None ∧ kill_switch c = FOk false.
Proof.
  intros Ha Hk. pose proof (proj1 (proj2 (evaluate_spec i c l now)) Ha) as [H _]. rewrite Hk in H.
  destruct H as (_ & _ & H3 & H4 & _).
  split; [exact (proj1 (degraded_entry _ l _ eq_refl) H4)|exact (proj1 (degraded_entry _ l _ eq_refl) H3)].
Qed.
Lemma allowed_entry_shadow i c l now :
  allow (evaluate_shadow i c l now) = true → class_of i c = Entry → halt c = None ∧ kill_switch c = FOk false.
Proof.
  intros Ha Hk. pose proof (proj1 (proj2 (proj2 (shadow_spec i c l now))) Ha) as H. rewrite Hk in H.
  destruct H as (_ & _ & H3 & H4 & _).
  split; [exact (proj1 (degraded_entry _ l _ eq_refl) H4)|exact (proj1 (degraded_entry _ l _ eq_refl) H3)].
Qed.
Lemma allowed_entry kind i c l now :
  allow (evaluate_with kind i c l now) = true → class_of i c = Entry → halt c = None ∧ kill_switch c = FOk false.
Proof. destruct kind; [exact (allowed_entry_risk i c l now)|exact (allowed_entry_shadow i c l now)]. Qed.

(** ** A ledger's risk state over decisions and state operations *)

Inductive LedgerStep : Type :=
  | LState (op : StateOp)
  | LDecide (plan : ExecPlan) (snap : LedgerSnapshot).
(** A snapshot with the risk state the ledger holds. *)
Definition at_state (snap : LedgerSnapshot) (s : RiskState) : LedgerSnapshot :=
  mkSnapshot (sn_account snap) (sn_owner snap) (sn_exit_at_ms snap) (sn_exit_triggers snap) (sn_facts snap) (sn_orders_last_min snap)
    (sn_open_orders snap) s (sn_now_ms snap).
Definition ledger_step digest (s : RiskState) (st : LedgerStep) : RiskState :=
  match st with
  | LState op => op_step s op
  | LDecide plan snap => state_after (at_state snap s) (decide_plan digest plan (at_state snap s))
  end.
Definition ledger_run digest (s : RiskState) (sts : list LedgerStep) : RiskState := fold_left (ledger_step digest) sts s.
Definition lifts (st : LedgerStep) : bool := match st with LState op => resumes op | LDecide _ _ => false end.

Lemma ledger_run_sticky digest sts : ∀ s h,
  st_halt s = Some h → is_sticky (reason h) = true → Forall (λ st, lifts st = false) sts → st_halt (ledger_run digest s sts) = Some h.
Proof.
  induction sts as [|[op|plan snap] sts IH]; intros s h E Hs Hl; [done|..]; apply Forall_cons in Hl as [Hl1 Hl];
    (apply IH; [|done..]); cbn [ledger_step].
  - by apply op_step_sticky.
  - exact (proj2 (decide_keeps_sticky digest plan (at_state snap s) h E Hs)).
Qed.

(** C6. A decision under the risk gate, on an order that passes the intent and
    the account checks, that finds the account's loss past the total limit or
    the kill-switch file present, stops the account's entries for good: whatever
    decisions, midnights, trips and refused resumes follow, every entry of
    either gate is denied until an operator's resume. (An order one of those two
    checks refuses trips nothing, which is reported as a finding.) A decision
    under the shadow gate leaves no halt behind, whatever it finds, as its table
    says: the account keeps the halt that was in force, if one was. *)
Theorem a_total_loss_stops_entries_until_resume digest plan snap :
  let context := ctx_of_plan plan snap in let after := state_after snap (decide_plan digest plan snap) in
  (pn_gate plan = Risk → order_ok (plan_intent plan snap) context (pn_limits plan) →
   trip_cause context (pn_limits plan) TotalLoss ∨ plan_kill_switch plan (plan_order plan snap) = FOk true →
   ∀ sts plan' snap', Forall (λ st, lifts st = false) sts → let s := ledger_run digest after sts in
   class_of_plan plan' (at_state snap' s) = Entry → d_outcome (decide_plan digest plan' (at_state snap' s)) = Denied)
  ∧ (pn_gate plan = Shadow → st_halt after = effective_halt (sn_risk snap) (sn_now_ms snap)).
Proof.
  intros context after. destruct (context_spec plan snap) as (eq & Hr & _ & Hks). split.
  - intros Hg Hok Hcause sts plan' snap' Hl s Hk.
    assert (∃ h, st_halt after = Some h ∧ is_sticky (reason h) = true) as (h & E & Hs).
    { unfold after. rewrite state_after_halt.
      assert (v_trips (verdict_of_plan plan snap) = file_trip context ++ breaches (loss_of (account context)) (pn_limits plan)) as ->.
      { unfold verdict_of_plan. rewrite Hg. cbn [evaluate_with]. rewrite evaluate_trips.
        by rewrite (proj2 (order_ok_iff _ _ _ _) Hok). }
      destruct Hcause as [Hb|Hf]; [apply (trip_sticky _ _ TotalLoss)|apply (trip_sticky _ _ File)]; try done; apply trips_causes.
      - exact Hb.
      - exact (eq_trans Hks Hf). }
    pose proof (ledger_run_sticky digest sts _ h E Hs Hl) as Hrun. fold s in Hrun.
    destruct (decide_keeps_sticky digest plan' (at_state snap' s) h Hrun Hs) as [Hh _].
    destruct (decide_spec digest plan' (at_state snap' s)) as (_ & _ & -> & _).
    destruct (allow _) eqn:Ha; [|done]. apply allowed_entry in Ha as [Hn _]; [|exact Hk]. congruence.
  - intros Hg. unfold after. rewrite state_after_halt, Hr, trip_halt_eq, effective_rolled.
    assert (v_trips (verdict_of_plan plan snap) = []) as ->; [|by destruct (effective_halt _ _)].
    unfold verdict_of_plan. rewrite Hg. cbn [evaluate_with]. apply shadow_spec.
Qed.

(** ** What an opening order has passed *)

Lemma either_probe_absent before inside : either_probe before inside = FOk false → before = FOk false ∧ inside = FOk false.
Proof. unfold either_probe, present. destruct before as [[]| |], inside as [[]| |]; cbn; intros H; try done. Qed.

Lemma plan_kill_switch_absent plan o : o_reduce_only o = false → plan_kill_switch plan o = FOk false →
  pn_kill_switch plan = FOk false ∧ ∀ inside, pn_kill_recheck plan = Some inside → inside = FOk false.
Proof.
  intros Hr. unfold plan_kill_switch. rewrite Hr. destruct (pn_kill_recheck plan) as [inside|]; cbn [negb].
  - intros [H1 H2]%either_probe_absent. split; [done|]. by intros ? [= <-].
  - intros H. split; [done|]. discriminate.
Qed.

Lemma class_of_opening i c : reduce_only i = false → class_of i c = Entry.
Proof.
  intros H. destruct (class_of i c) eqn:E; [done|]. apply class_of_exit in E as [E _]. congruence.
Qed.

(** C5. An order that is not reduce-only is sent only past every guard: the
    verdict the order was judged by allowed it, the stored halt was over, the
    kill-switch file was known to be absent at both probes, under the risk gate
    every limit held; and unless the venue rejected it, it filled on the book
    read after the latency, fresh by the older of its two stamps, on an open
    market and at no price beyond its bound. *)
Theorem opening_orders_meet_every_guard digest plan snap r exit_at :
  let o := plan_order plan snap in let now := sn_now_ms snap in
  o_reduce_only o = false → d_outcome (decide_plan digest plan snap) = Sent r exit_at →
  (pn_gate plan = Risk → entry_ok (plan_intent plan snap) (ctx_of_plan plan snap) (pn_limits plan) now)
  ∧ effective_halt (sn_risk snap) now = None
  ∧ pn_kill_switch plan = FOk false ∧ (∀ inside, pn_kill_recheck plan = Some inside → inside = FOk false)
  ∧ (fr_status r ≠ FsRejected →
     pn_status plan = PsOpen
     ∧ ∃ read bound, pn_book plan = Ok read ∧ read_age_ms read now ≤ ma_book (max_data_age_ms (pn_limits plan))
         ∧ bound_px r = Some bound
         ∧ ∀ j f, fr_fills r !! j = Some f → no_worse (o_side o) (f_px f) bound).
Proof.
  intros o now Hr Hd. destruct (decide_spec digest plan snap) as (_ & _ & Ho & _). rewrite Ho in Hd.
  destruct (allow _) eqn:Ha; [|done]. injection Hd as <- _. unfold verdict_of_plan in Ha. fold now in Ha.
  assert (reduce_only (plan_intent plan snap) = false) as Hri.
  { unfold plan_intent. fold o. by destruct (o_size o), (plan_ref_px plan snap). }
  pose proof (class_of_opening _ (ctx_of_plan plan snap) Hri) as Hk. fold now in Ha.
  pose proof (allowed_entry _ _ _ _ _ Ha Hk) as [Hh Hks]. destruct (context_spec plan snap) as (eq & _ & Hh' & Hks').
  fold o in Hks'. rewrite Hks' in Hks. destruct (plan_kill_switch_absent plan o Hr Hks) as [Hp1 Hp2].
  split_and!; try done.
  - intros Hg. rewrite Hg in Ha. exact (proj1 (entry_spec _ _ _ _ Hk) Ha).
  - rewrite Hh' in Hh. revert Hh. fold now. generalize (roll_halt (sn_risk snap) now eq). unfold effective_halt at 2.
    intros -> Hn. destruct (effective_halt (sn_risk snap) now) as [h|] eqn:E; [|done]. exfalso.
    unfold effective_halt in E. destruct (st_halt (sn_risk snap)) as [h'|]; [|done]. cbn in E, Hn.
    destruct (_ || _) eqn:Eo in E; [|done]. injection E as ->. by rewrite Eo in Hn.
  - intros Hs. unfold plan_result in Hs |- *. fold o in Hs |- *. destruct (pn_book plan) as [read|e]; [|done].
    destruct (sent_fill o (br_book read) (read_age_ms read now) (plan_env plan snap (verdict_of_plan plan snap)) Hs)
      as (Hopen & Hage & bound & Hb & Hfills).
    split; [exact Hopen|]. exists read, bound. split; [done|]. split; [|done].
    destruct Hage as [Hage|(_ & Hage & _)]; [exact Hage|congruence].
Qed.

(** ** Cases *)

Module ExecCases.
Import Cases.
Definition digest (_ : RiskContext) (_ : Z) : Value := Object [].
Definition book_account (cash : Z) : PaperAccount :=
fill_all (mkAccount "xmarket" (of_Z 100) (of_Z cash) ∅)
  [mkFill NVDA "company:nvidia" "hyperliquid" Buy (dec 25 (-2)) (of_Z 100) zero (NOW - HOUR_MS)].
Definition snap (cash now : Z) : LedgerSnapshot :=
mkSnapshot (book_account cash) None ∅ ∅ ∅ 0 0 (mkState None (Some (utc_day_start now)) (Some (of_Z 100)) now) now.
Definition order : PaperOrder :=
mkOrder "c-1" (mkInstrumentId "hyperliquid" "xyz:TSLA") Buy (NotionalUsd (of_Z 25)) OMarket Ioc None false (of_Z 30) None.
Definition plan (kill : Field bool) : ExecPlan :=
mkPlan Risk.Risk limits order false (Some "overreaction") None (Some OPP) None {[NVDA := FOk (mkMark (of_Z 100) (NOW - 1000))]}
  (legs ctx) (opportunity ctx) kill (Some kill) (rules_hyperliquid Perp 3 (Some false)) (mkFees (dec 9 (-1)) (dec 3 (-1))) PsOpen
  (Ok (mkBookRead tsla_book (NOW - 500))).
End ExecCases.

Lemma a_total_loss_stops_entries_witness :
  let plan := ExecCases.plan (FOk false) in
  let first := ExecCases.snap 50 Cases.NOW in let later := ExecCases.snap 100 (Cases.NOW + 2 * DAY_MS) in
  let sts := [LState (ORoll (Cases.NOW + DAY_MS) None); LDecide plan (ExecCases.snap 100 (Cases.NOW + DAY_MS));
              LState (OResume (Cases.NOW + DAY_MS) true)] in
  let s := ledger_run ExecCases.digest (state_after first (decide_plan ExecCases.digest plan first)) sts in
  reason <$> st_halt s = Some TotalLoss ∧ d_outcome (decide_plan ExecCases.digest plan (at_state later s)) = Denied.
Proof.
  intros plan first later sts s. split; [vm_compute; reflexivity|].
  refine (proj1 (a_total_loss_stops_entries_until_resume ExecCases.digest plan first) eq_refl _ _ sts plan later _ _).
  - apply (order_ok_iff _ _ _ (sn_now_ms first)). vm_compute. reflexivity.
  - left. apply trips_causes. vm_compute. by left.
  - repeat constructor.
  - vm_compute. reflexivity.
Defined.

Lemma opening_orders_meet_every_guard_witness :
  let snap := ExecCases.snap 100 Cases.NOW in let plan := ExecCases.plan (FOk false) in
  let d := decide_plan ExecCases.digest plan snap in
  entry_ok (plan_intent plan snap) (ctx_of_plan plan snap) (pn_limits plan) Cases.NOW
  ∧ match d_outcome d with Sent r _ => (fr_status r, show (fr_filled_qty r)) = (FsFilled, "0.062") | Denied => False end.
Proof.
  intros snap plan d. split; [|vm_compute; reflexivity].
  refine (proj1 (opening_orders_meet_every_guard ExecCases.digest plan snap
    (plan_result plan snap (verdict_of_plan plan snap)) None _ _) eq_refl).
  - vm_compute. reflexivity.
  - destruct (decide_spec ExecCases.digest plan snap) as (_ & _ & -> & _).
    assert (allow (verdict_of_plan plan snap) = true) as -> by (vm_compute; reflexivity). reflexivity.
Defined.
