(* ===== verification/PaperStore.v ===== *)
(** * The paper ledger's database ([src/src/adapters/outbound/paper_store.rs])

    The tables of [ledger.db], what a transaction reads and writes, and the
    operations of the port. A table is its rows in the order they were
    inserted, or a map by its primary key; a transaction that ends in an error
    leaves the tables as they were. What SQLite keeps of a double and the JSON
    text of a verdict, an intent, a context and a fill result are parameters. *)

From Stdlib Require Import Ascii String.
From S2P Require Import Prelude.
From S2P Require Import Text.
From S2P Require Import Bytes.
From S2P Require Import Ordered.
From S2P Require Import F64.
From S2P Require Import Observation.
From S2P Require Import Book.
From S2P Require Import Ledger.
From S2P Require Import Market.
From S2P Require Import Cost.
From S2P Require Import Paper.
From S2P Require Import Risk.
From S2P Require Import RiskState.
From S2P Require Import Exits.
From S2P Require Import Exec.
From S2P Require Import PaperExec.

#[local] Open Scope string_scope.
#[local] Open Scope list_scope.
#[local] Open Scope Z_scope.

(** What the database does to a value on its way in and out. *)
Class Codec : Type := {
  (* What a REAL column answers for a double stored in it; [None] = NULL. *)
  real : f64 → option f64;
  verdict_json : RiskVerdict → string;
  verdict_of_json : string → option RiskVerdict;
  intent_json : OrderIntent → string;
  value_json : Value → string;
  value_of_json : string → option Value;
  result_json : FillResult → string;
  result_of_json : string → option FillResult;
}.

(** ** Errors *)

(** [Sql]: a statement SQLite refuses; [Context]: [with_context]. *)
Inductive StoreError : Type :=
  | Said (text : string)
  | Sql (text : string)
  | OfLedger (e : LedgerError)
  | Context_ (text : string) (e : StoreError).
Abbreviation Store := (result StoreError).

Definition bail {A} (text : string) : Store A := Err (Said text).
Definition with_context {A} (text : string) (r : Store A) : Store A :=
  match r with Ok a => Ok a | Err e => Err (Context_ text e) end.
Definition of_ledger {A} (r : result LedgerError A) : Store A := match r with Ok a => Ok a | Err e => Err (OfLedger e) end.
(** The value of a NOT NULL column. *)
Definition not_null {A} (column : string) (x : option A) : Store A :=
  ok_or x (Sql ("NOT NULL constraint failed: " +:+ column)).

(** ** Rows *)

Record AccountRow : Type := mkAccountRow {
  ar_initial_cash_usd : f64;
  ar_created_ms : Z;
  ar_sandbox : option string;
}.
Record CashRow : Type := mkCashRow {
  ca_account_ : string;
  ca_ts_ms_ : Z;
  ca_kind : string;
  ca_ref : string;
  ca_amount_usd : f64;
  ca_balance_usd : f64;
}.
Record HeldRow : Type := mkHeldRow {
  hr_underlying : string;
  hr_venue : string;
  hr_qty : f64;
  hr_avg_px : option f64;
  hr_realized_pnl_usd : f64;
  hr_fees_usd : f64;
  hr_funding_usd : f64;
  hr_opened_ms : option Z;
  hr_last_funding_hour_ms : option Z;
  hr_exit_at_ms : option Z;
  hr_updated_ms : Z;
  hr_sz_decimals : option Z;
  hr_taker_fee_bps : option f64;
  hr_maker_fee_bps : option f64;
  hr_facts_at_ms : option Z;
  hr_exit_trigger : option string;
  hr_exit_trigger_opened_ms : option Z;
  hr_exit_trigger_ms : option Z;
}.
Record OrderRow : Type := mkOrderRow {
  or_account : string;
  or_client_order_id : string;
  or_call_id : option string;
  or_decision_id : Z;
  or_ts_ms : Z;
  or_instrument : string;
  or_underlying : string;
  or_side : string;
  or_kind : string;
  or_reduce_only : bool;
  or_status : string;
  or_reason : option string;
  or_filled_qty : f64;
  or_avg_px : option f64;
  or_fee_usd : f64;
  or_exit_at_ms : option Z;
  or_result : string;
  or_fingerprint : option string;
}.
Record FillRow : Type := mkFillRow_ {
  fw_account : string;
  fw_order_id : Z;
  fw_client_order_id : string;
  fw_ts_ms : Z;
  fw_instrument : string;
  fw_underlying : string;
  fw_venue : string;
  fw_side : string;
  fw_qty : f64;
  fw_px : f64;
  fw_fee_usd : f64;
  fw_realized_pnl_usd : f64;
  fw_qty_before : f64;
  fw_qty_after : f64;
}.
Record FundingRow : Type := mkFundingRow {
  fu_account : string;
  fu_instrument : string;
  fu_hour_ms : Z;
  fu_rate_1h : f64;
  fu_oracle_px : f64;
  fu_qty : f64;
  fu_payment_usd : f64;
  fu_ts_ms : Z;
}.
Record OwedRow : Type := mkOwedRow {
  od_account : string;
  od_instrument : string;
  od_hour_ms : Z;
  od_qty : f64;
  od_ts_ms : Z;
}.
Record DecisionRow : Type := mkDecisionRow {
  dr_ts_ms : Z;
  dr_account : string;
  dr_client_order_id : string;
  dr_call_id : option string;
  dr_instrument : string;
  dr_class : string;
  dr_allow : bool;
  dr_rule : string;
  dr_verdict : string;
  dr_intent : string;
  dr_context : string;
  dr_tool : option string;
  dr_session_id : option string;
}.
Record RiskRow : Type := mkRiskRow {
  rr_halt_reason : option string;
  rr_halt_since_ms : option Z;
  rr_day_utc_ms : option Z;
  rr_day_start_equity_usd : option f64;
  rr_updated_ms : Z;
}.

Record Tables : Type := mkTables {
  t_accounts : gmap string AccountRow;
  t_cash : list CashRow;
  t_positions : gmap string (gmap string HeldRow);
  t_orders : list OrderRow;
  t_fills : list FillRow;
  t_funding : list FundingRow;
  t_owed : list OwedRow;
  t_decisions : list DecisionRow;
  t_risk : gmap string RiskRow;
}.
Definition empty_tables : Tables := mkTables ∅ [] ∅ [] [] [] [] [] ∅.

Definition set_accounts (t : Tables) x :=
  mkTables x (t_cash t) (t_positions t) (t_orders t) (t_fills t) (t_funding t) (t_owed t) (t_decisions t) (t_risk t).
Definition set_cash (t : Tables) x :=
  mkTables (t_accounts t) x (t_positions t) (t_orders t) (t_fills t) (t_funding t) (t_owed t) (t_decisions t) (t_risk t).
Definition set_positions (t : Tables) x :=
  mkTables (t_accounts t) (t_cash t) x (t_orders t) (t_fills t) (t_funding t) (t_owed t) (t_decisions t) (t_risk t).
Definition set_orders (t : Tables) x :=
  mkTables (t_accounts t) (t_cash t) (t_positions t) x (t_fills t) (t_funding t) (t_owed t) (t_decisions t) (t_risk t).
Definition set_fills (t : Tables) x :=
  mkTables (t_accounts t) (t_cash t) (t_positions t) (t_orders t) x (t_funding t) (t_owed t) (t_decisions t) (t_risk t).
Definition set_funding (t : Tables) x :=
  mkTables (t_accounts t) (t_cash t) (t_positions t) (t_orders t) (t_fills t) x (t_owed t) (t_decisions t) (t_risk t).
Definition set_owed (t : Tables) x :=
  mkTables (t_accounts t) (t_cash t) (t_positions t) (t_orders t) (t_fills t) (t_funding t) x (t_decisions t) (t_risk t).
Definition set_decisions (t : Tables) x :=
  mkTables (t_accounts t) (t_cash t) (t_positions t) (t_orders t) (t_fills t) (t_funding t) (t_owed t) x (t_risk t).
Definition set_risk (t : Tables) x :=
  mkTables (t_accounts t) (t_cash t) (t_positions t) (t_orders t) (t_fills t) (t_funding t) (t_owed t) (t_decisions t) x.

(** The id of the next row: the rows are numbered from 1 and never deleted. *)
Definition next_id {A} (rows : list A) : Z := Z.of_nat (length rows) + 1.
Definition row_at {A} (rows : list A) (id : Z) : option A := if 1 <=? id then rows !! Z.to_nat (id - 1) else None.
Definition held_rows (t : Tables) (account : string) : gmap string HeldRow := default ∅ (t_positions t !! account).

Section Store.
Context `{C : Codec}.

(** A nullable REAL column. *)
Definition real_opt (x : option f64) : option f64 := x ← x; real x.

(** ** Owners *)

Definition ACCOUNT_OWNER_MISMATCH : string := "account_owner_mismatch".
Record OwnerCheck : Type := mkOwnerCheck {
oc_owner : option string;
oc_ledger : string;
}.

Definition check_owner (t : Tables) (account : string) (check : OwnerCheck) : Store Tables :=
match oc_owner check with
| None => Ok t
| Some owner =>
    match t_accounts t !! account with
    | None => Ok t
    | Some row =>
        match ar_sandbox row with
        | None => Ok (set_accounts t (<[account := mkAccountRow (ar_initial_cash_usd row) (ar_created_ms row) (Some owner)]> (t_accounts t)))
        | Some s =>
            if String.eqb s owner then Ok t
            else
              bail (ACCOUNT_OWNER_MISMATCH +:+ ": paper account `" +:+ account +:+ "` in " +:+ oc_ledger check
                +:+ " belongs to sandbox `" +:+ s +:+ "`; this process writes as sandbox `" +:+ owner
                +:+ "` — two sandboxes name the same [xmarket] state. Give each sandbox its own [xmarket] state; nothing was written")
        end
    end
end.

(** ** Reads *)

Record Loaded : Type := mkLoaded {
ld_account : PaperAccount;
ld_exit_at_ms : gmap string Z;
ld_exit_triggers : gmap string ExitTrigger;
ld_facts : gmap string HeldFacts;
}.

(** [u32::try_from]. *)
Definition as_u32 (n : Z) : option Z := if (0 <=? n) && (n <? 2 ^ 32) then Some n else None.
Definition facts_of (sz_decimals : option Z) (taker_bps maker_bps : option f64) (at_ms : option Z) : option HeldFacts :=
sz ← sz_decimals; sz ← as_u32 sz;
taker ← taker_bps; maker ← maker_bps;
fees ← ok (fees_new taker maker);
at_ms ← at_ms;
Some (mkHeld sz fees at_ms).
Definition trigger_of (reason : option string) (opened at_ms : option Z) (p : Position) : option ExitTrigger :=
text ← reason;
reason ← exit_reason_parse text;
if on_price reason then
  if negb (is_flat p) && is_some opened && bool_decide (opened = opened_ms p) then
    at_ms ← at_ms; Some (mkTrigger reason at_ms)
  else None
else None.

Definition position_of (id : string) (r : HeldRow) (owed : list OwedHour) : Position :=
mkPosition id (hr_underlying r) (hr_venue r) (hr_qty r) (hr_avg_px r) (hr_realized_pnl_usd r) (hr_fees_usd r) (hr_funding_usd r)
  (hr_opened_ms r) (hr_last_funding_hour_ms r) owed.
Definition exit_of (id : string) (r : HeldRow) : option Z :=
if is_flat (position_of id r []) then None else hr_exit_at_ms r.
Definition row_trigger (id : string) (r : HeldRow) : option ExitTrigger :=
trigger_of (hr_exit_trigger r) (hr_exit_trigger_opened_ms r) (hr_exit_trigger_ms r) (position_of id r []).
Definition row_facts (id : string) (r : HeldRow) : option HeldFacts :=
facts_of (hr_sz_decimals r) (hr_taker_fee_bps r) (hr_maker_fee_bps r) (hr_facts_at_ms r).

(** [ORDER BY instrument, hour_ms]. *)
Definition owed_cmp (a b : OwedRow) : comparison :=
cmp_then (str_cmp (od_instrument a) (od_instrument b)) (Z.compare (od_hour_ms a) (od_hour_ms b)).
Definition owed_rows (t : Tables) (account : string) : list OwedRow :=
sort_by owed_cmp (List.filter (λ o, String.eqb (od_account o) account) (t_owed t)).
Definition owed_hour (o : OwedRow) : OwedHour := mkOwed (od_hour_ms o) (od_qty o).
Definition owed_of (rows : list OwedRow) (instrument : string) : list OwedHour :=
map owed_hour (List.filter (λ o, String.eqb (od_instrument o) instrument) rows).

Definition last_balance (t : Tables) (account : string) : option f64 :=
ca_balance_usd <$> last (List.filter (λ c, String.eqb (ca_account_ c) account) (t_cash t)).

Definition load_account (t : Tables) (account : string) : Store Loaded :=
row ← ok_or (t_accounts t !! account) (Said ("unknown paper account `" +:+ account +:+ "` — open_account first"));
cash ← ok_or (last_balance t account) (Said ("paper account `" +:+ account +:+ "` has no cash row"));
let held := held_rows t account in
let owed := owed_rows t account in
match List.find (λ o, negb (is_some (held !! od_instrument o))) owed with
| Some o => bail (account +:+ ": funding owed on " +:+ od_instrument o +:+ " without a position")
| None =>
    Ok (mkLoaded
          (mkAccount account (ar_initial_cash_usd row) cash (map_imap (λ id r, Some (position_of id r (owed_of owed id))) held))
          (map_imap exit_of held) (map_imap row_trigger held) (map_imap row_facts held))
end.

Definition ORDER_RATE_WINDOW_MS : Z := 60000.
Definition count_u32 {A} (f : A → bool) (rows : list A) : Z := Z.min (Z.of_nat (length (List.filter f rows))) (2 ^ 32 - 1).

Definition load_halt (account : string) (r : RiskRow) : Store (option Halt) :=
match rr_halt_reason r, rr_halt_since_ms r with
| None, _ => Ok None
| Some text, Some since_ms =>
    reason ← ok_or (halt_parse text) (Said ("risk state of `" +:+ account +:+ "`: unknown halt reason `" +:+ text +:+ "`"));
    Ok (Some (mkHalt reason since_ms))
| Some text, None => bail ("risk state of `" +:+ account +:+ "`: halt `" +:+ text +:+ "` without a since time")
end.
Definition load_risk_state (t : Tables) (account : string) : Store RiskState :=
match t_risk t !! account with
| None => Ok default_state
| Some r =>
    halt ← load_halt account r;
    Ok (mkState halt (rr_day_utc_ms r) (rr_day_start_equity_usd r) (rr_updated_ms r))
end.

Definition load_snapshot (t : Tables) (account : string) (now_ms : Z) : Store LedgerSnapshot :=
loaded ← load_account t account;
let since := sat_i64 (now_ms - ORDER_RATE_WINDOW_MS) in
let orders_last_min :=
  count_u32 (λ o, String.eqb (or_account o) account && (since <? or_ts_ms o) && negb (or_reduce_only o)) (t_orders t) in
let open_orders := count_u32 (λ o, String.eqb (or_account o) account && String.eqb (or_status o) "resting") (t_orders t) in
let owner := row ← t_accounts t !! account; ar_sandbox row in
risk ← load_risk_state t account;
Ok (mkSnapshot (ld_account loaded) owner (ld_exit_at_ms loaded) (ld_exit_triggers loaded) (ld_facts loaded) orders_last_min
      open_orders risk now_ms).

Definition parse_order (id : Z) (r : OrderRow) : Store StoredOrder :=
result ← with_context ("order " +:+ or_client_order_id r +:+ " of " +:+ or_account r +:+ ": stored result does not parse")
  (ok_or (result_of_json (or_result r)) (Said "json"));
Ok (mkStoredOrder id (or_account r) (or_client_order_id r) (or_call_id r) (or_decision_id r) (or_ts_ms r) (or_underlying r) result
      (or_exit_at_ms r) (or_fingerprint r)).
Definition has_key (account client_order_id : string) (o : OrderRow) : bool :=
String.eqb (or_account o) account && String.eqb (or_client_order_id o) client_order_id.
Definition read_order (t : Tables) (account client_order_id : string) : Store (option StoredOrder) :=
match list_find (λ o, has_key account client_order_id o = true) (t_orders t) with
| None => Ok None
| Some (i, r) => Some <$> parse_order (Z.of_nat i + 1) r
end.
Definition read_order_by_id (t : Tables) (id : Z) : Store StoredOrder :=
r ← ok_or (row_at (t_orders t) id) (Sql "Query returned no rows"); parse_order id r.

Definition parse_decision (id : Z) (r : DecisionRow) : Store StoredDecision :=
let what part := "risk decision " +:+ show_Z id +:+ ": stored " +:+ part +:+ " does not parse" in
verdict ← with_context (what "verdict") (ok_or (verdict_of_json (dr_verdict r)) (Said "json"));
intent ← with_context (what "intent") (ok_or (value_of_json (dr_intent r)) (Said "json"));
context ← with_context (what "context") (ok_or (value_of_json (dr_context r)) (Said "json"));
Ok (mkStoredDecision id (dr_ts_ms r) (dr_account r) (dr_client_order_id r) (dr_call_id r) (dr_tool r) (dr_session_id r)
      (dr_instrument r) verdict intent context).
Definition read_decision (t : Tables) (id : Z) : Store StoredDecision :=
r ← ok_or (row_at (t_decisions t) id) (Sql "Query returned no rows"); parse_decision id r.

(** ** Writes *)

Definition write_risk_state (t : Tables) (account : string) (s : RiskState) : Tables :=
set_risk t (<[account := mkRiskRow (halt_str ∘ reason <$> st_halt s) (since_ms <$> st_halt s) (day_utc_ms s)
                           (real_opt (day_start_equity_usd s)) (updated_ms s)]> (t_risk t)).

Definition append_cash (t : Tables) (account : string) (ts_ms : Z) (kind reference : string) (amount_usd balance_usd : f64)
  : Store Tables :=
amount ← not_null "cash.amount_usd" (real amount_usd);
balance ← not_null "cash.balance_usd" (real balance_usd);
Ok (set_cash t (t_cash t ++ [mkCashRow account ts_ms kind reference amount balance])).

Definition upsert_held (t : Tables) (account instrument : string) (r : HeldRow) : Tables :=
set_positions t (<[account := <[instrument := r]> (held_rows t account)]> (t_positions t)).
Definition write_position (t : Tables) (account : string) (p : Position) (exit_at_ms : option Z) (now_ms : Z) : Store Tables :=
q ← not_null "positions.qty" (real (qty p));
realized ← not_null "positions.realized_pnl_usd" (real (realized_pnl p));
fees ← not_null "positions.fees_usd" (real (fees_paid p));
funding ← not_null "positions.funding_usd" (real (funding_paid p));
let old := held_rows t account !! instrument p in
let keep {A} (f : HeldRow → option A) : option A := r ← old; f r in
Ok (upsert_held t account (instrument p)
      (mkHeldRow (underlying p) (venue p) q (real_opt (avg_px p)) realized fees funding (opened_ms p) (last_funding_hour_ms p)
         exit_at_ms now_ms (keep hr_sz_decimals) (keep hr_taker_fee_bps) (keep hr_maker_fee_bps) (keep hr_facts_at_ms)
         (keep hr_exit_trigger) (keep hr_exit_trigger_opened_ms) (keep hr_exit_trigger_ms))).

Definition insert_decision (t : Tables) (req : PlaceRequest) (d : Decision) : Tables * Z :=
let v := d_verdict d in
(set_decisions t (t_decisions t ++
   [mkDecisionRow (q_now_ms req) (q_account req) (q_client_order_id req) (q_call_id req) (in_instrument (d_intent d))
      (class_name (v_class v)) (allow v) (v_rule v) (verdict_json v) (intent_json (d_intent d)) (value_json (d_context d))
      (Some (q_tool req)) (q_session_id req)]),
 next_id (t_decisions t)).

Definition insert_order (t : Tables) (req : PlaceRequest) (decision_id : Z) (d : Decision) (result : FillResult) (exit_at_ms : option Z)
  : Store (Tables * Z) :=
filled ← not_null "orders.filled_qty" (real (fr_filled_qty result));
fee ← not_null "orders.fee_usd" (real (fr_fee_usd result));
if existsb (has_key (q_account req) (q_client_order_id req)) (t_orders t) then
  Err (Sql "UNIQUE constraint failed: orders.account, orders.client_order_id")
else
  Ok (set_orders t (t_orders t ++
        [mkOrderRow (q_account req) (q_client_order_id req) (q_call_id req) decision_id (q_now_ms req) (in_instrument (d_intent d))
           (in_underlying (d_intent d)) (side_str (fr_side result)) (kind_str (fr_kind result)) (fr_reduce_only result)
           (fill_status_str (fr_status result)) (reason_str <$> fr_reason result) filled (real_opt (fr_avg_px result)) fee exit_at_ms
           (result_json result) (q_fingerprint req)]),
      next_id (t_orders t)).

Definition insert_fill (t : Tables) (req : PlaceRequest) (order_id : Z) (fill : Fill) (effect : FillEffect) : Store Tables :=
q ← not_null "fills.qty" (real (fl_qty fill));
px ← not_null "fills.px" (real (fl_px fill));
fee ← not_null "fills.fee_usd" (real (fee_usd fill));
realized ← not_null "fills.realized_pnl_usd" (real (ef_realized_pnl effect));
before ← not_null "fills.qty_before" (real (qty_before effect));
after ← not_null "fills.qty_after" (real (qty_after effect));
Ok (set_fills t (t_fills t ++
      [mkFillRow_ (q_account req) order_id (q_client_order_id req) (ts_ms fill) (fl_instrument fill) (fl_underlying fill) (fl_venue fill)
         (side_str (fl_side fill)) q px fee realized before after])).

(** One hour of the settlement booked, [balance] the running cash. *)
Definition write_booked (name instrument : string) (now_ms : Z) (st : Tables * f64) (h : BookedHour) : Store (Tables * f64) :=
let '(t, balance) := st in
let balance := (balance - payment_usd h)%f64 in
t ← append_cash t name now_ms "funding" (instrument +:+ "@" +:+ show_Z (bk_hour_ms h)) (- payment_usd h)%f64 balance;
r1h ← not_null "funding.rate_1h" (real (rate_1h (rate h)));
oracle ← not_null "funding.oracle_px" (real (oracle_px (rate h)));
q ← not_null "funding.qty" (real (bk_qty h));
payment ← not_null "funding.payment_usd" (real (payment_usd h));
if existsb (λ f, String.eqb (fu_account f) name && String.eqb (fu_instrument f) instrument && (fu_hour_ms f =? bk_hour_ms h))
     (t_funding t) then
  Err (Sql "UNIQUE constraint failed: funding.account, funding.instrument, funding.hour_ms")
else
  let t := set_funding t (t_funding t ++ [mkFundingRow name instrument (bk_hour_ms h) r1h oracle q payment now_ms]) in
  Ok (if was_owed h then
        set_owed t (List.filter (λ o, negb (String.eqb (od_account o) name && String.eqb (od_instrument o) instrument
                                            && (od_hour_ms o =? bk_hour_ms h))) (t_owed t))
      else t, balance).
Definition write_owed (name instrument : string) (now_ms : Z) (t : Tables) (o : OwedHour) : Store Tables :=
q ← not_null "funding_owed.qty" (real (ow_qty o));
if existsb (λ r, String.eqb (od_account r) name && String.eqb (od_instrument r) instrument && (od_hour_ms r =? ow_hour_ms o))
     (t_owed t) then
  Err (Sql "UNIQUE constraint failed: funding_owed.account, funding_owed.instrument, funding_owed.hour_ms")
else Ok (set_owed t (t_owed t ++ [mkOwedRow name instrument (ow_hour_ms o) q now_ms])).

Definition settlement_empty (s : FundingSettlement) : bool := match booked s, owed s with [], [] => true | _, _ => false end.
Definition write_settlement (t : Tables) (account : PaperAccount) (instrument : string) (exit_at_ms : option Z) (cash_before : f64)
  (s : FundingSettlement) (now_ms : Z) : Store Tables :=
if settlement_empty s then Ok t
else
  let name := pa_account account in
  p ← ok_or (positions account !! instrument) (Said (name +:+ ": funding settled on " +:+ instrument +:+ " without a position"));
  t ← write_position t name p exit_at_ms now_ms;
  st ← try_fold (write_booked name instrument now_ms) (t, cash_before) (booked s);
  try_fold (write_owed name instrument now_ms) (fst st) (owed s).

Definition with_facts (r : HeldRow) (f : HeldFacts) : HeldRow :=
mkHeldRow (hr_underlying r) (hr_venue r) (hr_qty r) (hr_avg_px r) (hr_realized_pnl_usd r) (hr_fees_usd r) (hr_funding_usd r)
  (hr_opened_ms r) (hr_last_funding_hour_ms r) (hr_exit_at_ms r) (hr_updated_ms r) (Some (hf_sz_decimals f))
  (real (taker_bps (hf_fees f))) (real (maker_bps (hf_fees f))) (Some (hf_at_ms f)) (hr_exit_trigger r) (hr_exit_trigger_opened_ms r)
  (hr_exit_trigger_ms r).
Definition write_facts (t : Tables) (account instrument : string) (f : HeldFacts) : Tables :=
match held_rows t account !! instrument with
| Some r =>
    if match hr_facts_at_ms r with None => true | Some at_ms => at_ms <=? hf_at_ms f end then
      upsert_held t account instrument (with_facts r f)
    else t
| None => t
end.

(** ** [place] *)

Definition result_problems (req : PlaceRequest) (i : OrderIntent) (r : FillResult) : list string :=
(if negb (String.eqb (fr_client_order_id r) (q_client_order_id req)) then ["client_order_id " +:+ fr_client_order_id r] else [])
++ (if negb (String.eqb (show_id (fr_instrument r)) (in_instrument i)) then ["instrument " +:+ show_id (fr_instrument r)] else [])
++ (if negb (bool_decide (fr_side r = in_side i)) then ["side " +:+ side_str (fr_side r)] else [])
++ (if negb (Bool.eqb (fr_reduce_only r) (reduce_only i)) then
      ["reduce_only " +:+ (if fr_reduce_only r then "true" else "false")] else [])
++ (if negb (forallb is_finite [fr_filled_qty r; filled_notional_usd r; fr_fee_usd r]) then ["non-finite fill numbers"] else []).
Definition check_decision (req : PlaceRequest) (d : Decision) : Store unit :=
let i := d_intent d in
if negb (String.eqb (in_account i) (q_account req)) then
  bail ("decision is for account `" +:+ in_account i +:+ "`, the order for `" +:+ q_account req +:+ "`")
else if negb (String.eqb (in_instrument i) (q_instrument req)) then
  bail ("decision is for " +:+ in_instrument i +:+ ", the order for " +:+ q_instrument req)
else
  match d_outcome d, allow (d_verdict d) with
  | Denied, false => Ok tt
  | Denied, true => bail ("the gate allowed " +:+ q_client_order_id req +:+ " but nothing was sent")
  | Sent _ _, false =>
      bail ("the gate denied " +:+ q_client_order_id req +:+ " (" +:+ v_rule (d_verdict d) +:+ ") but an order was sent")
  | Sent r _, true =>
      match result_problems req i r with
      | [] => Ok tt
      | problems =>
          bail ("fill result of " +:+ q_client_order_id req +:+ " disagrees with the judged order: " +:+ String.concat ", " problems)
      end
  end.

(** How a transaction's body ends without an error: [Commit], or a return
  that drops the transaction, which rolls it back. *)
Inductive TxEnd (A : Type) : Type :=
| Commit (t : Tables) (a : A)
| Drop_ (a : A).
#[global] Arguments Commit {A}.
#[global] Arguments Drop_ {A}.
Definition run_tx {A} (t : Tables) (body : Store (TxEnd A)) : Tables * Store A :=
match body with
| Ok (Commit t' a) => (t', Ok a)
| Ok (Drop_ a) => (t, Ok a)
| Err e => (t, Err e)
end.

(** The fill of an order that was sent: position, cash and fill rows. *)
Definition write_fill (t : Tables) (req : PlaceRequest) (order_id : Z) (a : PaperAccount) (exits : gmap string Z) (exit_at_ms : option Z)
  (fill : Fill) : Store (Tables * PaperAccount) :=
r ← with_context ("order " +:+ q_client_order_id req) (of_ledger (account_apply_fill a fill));
let '(a, effect) := r in
let exit := exit_deadline effect (exits !! fl_instrument fill) exit_at_ms in
p ← ok_or (positions a !! fl_instrument fill) (Said "no entry found for key");
t ← write_position t (q_account req) p exit (q_now_ms req);
t ← append_cash t (q_account req) (q_now_ms req) "fill" (q_client_order_id req) (ef_realized_pnl effect - ef_fee_usd effect)%f64
      (cash_usd a);
t ← insert_fill t req order_id fill effect;
Ok (t, a).

Definition write_sent (t : Tables) (req : PlaceRequest) (decision_id : Z) (d : Decision) (a : PaperAccount) (exits : gmap string Z)
  (result : FillResult) (exit_at_ms : option Z) : Store (Tables * PaperAccount * Z) :=
r ← insert_order t req decision_id d result exit_at_ms;
let '(t, order_id) := r in
r ← match ledger_fill result (in_underlying (d_intent d)) (q_now_ms req) with
    | Some fill => write_fill t req order_id a exits exit_at_ms fill
    | None => Ok (t, a)
    end;
let '(t, a) := r in
Ok (match q_facts req with Some f => write_facts t (q_account req) (q_instrument req) f | None => t end, a, order_id).

(** What a decision on [snapshot] writes. *)
Definition write_decision (t : Tables) (req : PlaceRequest) (snapshot : LedgerSnapshot) (d : Decision) : Store (TxEnd Placement) :=
_ ← check_decision req d;
let '(t, decision_id) := insert_decision t req d in
let t := match d_risk d with
         | Some next => if negb (state_eqb next (sn_risk snapshot)) then write_risk_state t (q_account req) next else t
         | None => t
         end in
r ← match d_outcome d with
    | Denied => Ok (t, sn_account snapshot, None)
    | Sent result exit_at_ms =>
        r ← write_sent t req decision_id d (sn_account snapshot) (sn_exit_at_ms snapshot) result exit_at_ms;
        let '(t, a, order_id) := r in Ok (t, a, Some order_id)
    end;
let '(t, a, order_id) := r in
decision ← read_decision t decision_id;
order ← match order_id with Some id => Some <$> read_order_by_id t id | None => Ok None end;
Ok (Commit t (mkPlacement false decision order a)).

Definition with_account (s : LedgerSnapshot) (a : PaperAccount) : LedgerSnapshot :=
mkSnapshot a (sn_owner s) (sn_exit_at_ms s) (sn_exit_triggers s) (sn_facts s) (sn_orders_last_min s) (sn_open_orders s) (sn_risk s)
  (sn_now_ms s).

Definition place_tx (t0 : Tables) (req : PlaceRequest) (decide : LedgerSnapshot → Decision) (check : OwnerCheck)
  : Store (TxEnd Placement) :=
if str_is_empty (trim (q_client_order_id req)) then bail "client_order_id is empty: an order needs an idempotency key"
else
  t ← check_owner t0 (q_account req) check;
  stored ← read_order t (q_account req) (q_client_order_id req);
  match stored with
  | Some order =>
      match conflict order (q_fingerprint req) with
      | Some why => bail why
      | None =>
          decision ← read_decision t (so_decision_id order);
          loaded ← load_account t (q_account req);
          Ok (Commit t (mkPlacement true decision (Some order) (ld_account loaded)))
      end
  | None =>
      snapshot ← load_snapshot t (q_account req) (q_now_ms req);
      let '(a, settled) := account_settle_funding (sn_account snapshot) (q_instrument req) (q_funding req) (q_now_ms req) in
      settled ← with_context ("order " +:+ q_client_order_id req +:+ ": funding") (of_ledger settled);
      t ← write_settlement t a (q_instrument req) (sn_exit_at_ms snapshot !! q_instrument req) (cash_usd (sn_account snapshot)) settled
            (q_now_ms req);
      let snapshot := with_account snapshot a in
      write_decision t req snapshot (decide snapshot)
  end.

(** ** The port *)

Definition place (check : OwnerCheck) (req : PlaceRequest) (decide : LedgerSnapshot → Decision) (t : Tables) : Tables * Store Placement :=
run_tx t (place_tx t req decide check).

Definition open_account (check : OwnerCheck) (account : string) (initial_cash_usd : f64) (now_ms : Z) (t : Tables)
  : Tables * Store PaperAccount :=
run_tx t
  (_ ← of_ledger (account_new account initial_cash_usd);
   initial ← not_null "accounts.initial_cash_usd" (real initial_cash_usd);
   t ← match t_accounts t !! account with
       | Some _ => Ok t
       | None =>
           append_cash (set_accounts t (<[account := mkAccountRow initial now_ms (oc_owner check)]> (t_accounts t))) account now_ms
             "deposit" "initial" initial_cash_usd initial_cash_usd
       end;
   t ← check_owner t account check;
   loaded ← load_account t account;
   Ok (Commit t (ld_account loaded))).

Definition accounts (t : Tables) : list string := map fst (btree_iter str_cmp (t_accounts t)).
Definition snapshot (account : string) (now_ms : Z) (t : Tables) : Store LedgerSnapshot := load_snapshot t account now_ms.
Definition order (account client_order_id : string) (t : Tables) : Store (option StoredOrder) := read_order t account client_order_id.

Definition update_risk_state (check : OwnerCheck) (account : string) (now_ms : Z) (update : LedgerSnapshot → result string RiskState)
  (t : Tables) : Tables * Store LedgerSnapshot :=
run_tx t
  (t ← check_owner t account check;
   snapshot ← load_snapshot t account now_ms;
   next ← match update snapshot with Ok next => Ok next | Err e => bail e end;
   Ok (if negb (state_eqb next (sn_risk snapshot)) then
         Commit (write_risk_state t account next)
           (mkSnapshot (sn_account snapshot) (sn_owner snapshot) (sn_exit_at_ms snapshot) (sn_exit_triggers snapshot)
              (sn_facts snapshot) (sn_orders_last_min snapshot) (sn_open_orders snapshot) next (sn_now_ms snapshot))
       else Commit t snapshot)).

Definition stored (account client_order_id : string) (t : Tables) : Store (option Placement) :=
found ← read_order t account client_order_id;
match found with
| None => Ok None
| Some order =>
    decision ← read_decision t (so_decision_id order);
    loaded ← load_account t account;
    Ok (Some (mkPlacement true decision (Some order) (ld_account loaded)))
end.

(** The rows with their ids. *)
Definition numbered {A} (rows : list A) : list (Z * A) := imap (λ i r, (Z.of_nat i + 1, r)) rows.
Definition decisions (account : string) (limit : nat) (t : Tables) : Store (list StoredDecision) :=
collect (λ '(id, r), parse_decision id r)
  (take limit (List.filter (λ '(_, r), String.eqb (dr_account r) account) (rev (numbered (t_decisions t))))).

(** The store's [settle_funding]: with nothing to settle the transaction is
  dropped. *)
Definition store_settle_funding (check : OwnerCheck) (account instrument : string) (rate : option FundingRate) (now_ms : Z) (t : Tables)
  : Tables * Store FundingSettlement :=
run_tx t
  (t ← check_owner t account check;
   loaded ← load_account t account;
   let '(a, settled) := account_settle_funding (ld_account loaded) instrument rate now_ms in
   s ← of_ledger settled;
   if settlement_empty s then Ok (Drop_ s)
   else
     t ← write_settlement t a instrument (ld_exit_at_ms loaded !! instrument) (cash_usd (ld_account loaded)) s now_ms;
     Ok (Commit t s)).

Definition with_trigger (r : HeldRow) (reason : ExitReason) (opened_ms now_ms : Z) : HeldRow :=
mkHeldRow (hr_underlying r) (hr_venue r) (hr_qty r) (hr_avg_px r) (hr_realized_pnl_usd r) (hr_fees_usd r) (hr_funding_usd r)
  (hr_opened_ms r) (hr_last_funding_hour_ms r) (hr_exit_at_ms r) (hr_updated_ms r) (hr_sz_decimals r) (hr_taker_fee_bps r)
  (hr_maker_fee_bps r) (hr_facts_at_ms r) (Some (exit_reason_str reason)) (Some opened_ms) (Some now_ms).
Definition trigger_exit (check : OwnerCheck) (account instrument : string) (opened : Z) (reason : ExitReason) (now_ms : Z) (t : Tables)
  : Tables * Store (option ExitTrigger) :=
run_tx t
  (if negb (on_price reason) then bail ("trigger_exit: `" +:+ exit_reason_str reason +:+ "` is no stop-loss / take-profit")
   else
     t ← check_owner t account check;
     loaded ← load_account t account;
     match positions (ld_account loaded) !! instrument with
     | None => Ok (Drop_ None)
     | Some p =>
         if negb (is_flat p) && bool_decide (opened_ms p = Some opened) then
           match ld_exit_triggers loaded !! Ledger.instrument p with
           | Some kept => Ok (Drop_ (Some kept))
           | None =>
               let t := match held_rows t account !! instrument with
                        | Some r => upsert_held t account instrument (with_trigger r reason opened now_ms)
                        | None => t
                        end in
               Ok (Commit t (Some (mkTrigger reason now_ms)))
           end
         else Ok (Drop_ None)
     end).
End Store.
