(* ===== verification/PaperStoreProps.v ===== *)
(** * The paper ledger's database: retries, owners and the cash journal *)

From Stdlib Require Import Ascii String.
From S2P Require Import Prelude.
From S2P Require Import Text.
From S2P Require Import Bytes.
From S2P Require Import Ordered.
From S2P Require Import F64.
From S2P Require Import F64Facts.
From S2P Require Import Observation.
From S2P Require Import Book.
From S2P Require Import Ledger.
From S2P Require Import Market.
From S2P Require Import Cost.
From S2P Require Import Paper.
From S2P Require Import PaperProps.
From S2P Require Import Risk.
From S2P Require Import RiskState.
From S2P Require Import Exits.
From S2P Require Import Exec.
From S2P Require Import PaperExec.
From S2P Require Import PaperExecProps.
From S2P Require Import PaperStore.

#[local] Open Scope string_scope.
#[local] Open Scope list_scope.
#[local] Open Scope Z_scope.

(** ** What a write leaves alone *)

Definition of_account {A} (f : A → string) (account : string) (rows : list A) : list A :=
  List.filter (λ r, String.eqb (f r) account) rows.

(** All that is read of one account. *)
Definition same_account (a : string) (t t' : Tables) : Prop :=
  t_accounts t' !! a = t_accounts t !! a ∧ held_rows t' a = held_rows t a ∧ t_risk t' !! a = t_risk t !! a
  ∧ of_account ca_account_ a (t_cash t') = of_account ca_account_ a (t_cash t)
  ∧ of_account or_account a (t_orders t') = of_account or_account a (t_orders t)
  ∧ of_account od_account a (t_owed t') = of_account od_account a (t_owed t).

(** The tables only gain: rows are appended, never changed or deleted, an
    account keeps its cash and its owner, a position keeps its row, and an hour
    is owed on a position only. *)
Record grows (t t' : Tables) : Prop := {
  gr_orders : t_orders t `prefix_of` t_orders t';
  gr_decisions : t_decisions t `prefix_of` t_decisions t';
  gr_fills : t_fills t `prefix_of` t_fills t';
  gr_funding : t_funding t `prefix_of` t_funding t';
  gr_cash : t_cash t `prefix_of` t_cash t';
  gr_accounts : ∀ a r, t_accounts t !! a = Some r → ∃ r', t_accounts t' !! a = Some r'
    ∧ ar_initial_cash_usd r' = ar_initial_cash_usd r ∧ ∀ s, ar_sandbox r = Some s → ar_sandbox r' = Some s;
  gr_held : ∀ a i, is_Some (held_rows t a !! i) → is_Some (held_rows t' a !! i);
  gr_owed : ∀ o, o ∈ t_owed t' → o ∈ t_owed t ∨ is_Some (held_rows t' (od_account o) !! od_instrument o);
}.

(** A write for account [b]. *)
Definition touches (b : string) (t t' : Tables) : Prop := grows t t' ∧ ∀ a, a ≠ b → same_account a t t'.

#[export] Instance grows_pre : PreOrder grows.
Proof.
  split.
  - intros t. constructor; [done..| |done|]; [intros a r ?; by exists r|intros o ?; by left].
  - intros t1 t2 t3 [A1 A2 A3 A4 A5 A6 A7 A8] [B1 B2 B3 B4 B5 B6 B7 B8]. constructor; [by etransitivity..| | |].
    + intros a r (r' & H1 & E1 & F1)%A6. destruct (B6 a r' H1) as (r'' & H2 & E2 & F2). exists r''. split_and!; [done|congruence|].
      intros s Hs. by apply F2, F1.
    + intros a i H. by apply B7, A7.
    + intros o [H|H]%B8; [|by right]. apply A8 in H as [H|H]; [by left|right; by apply B7].
Qed.
#[export] Instance touches_pre b : PreOrder (touches b).
Proof.
  split.
  - intros t. split; [done|]. intros a _. unfold same_account. split_and!; done.
  - intros t1 t2 t3 [G1 F1] [G2 F2]. split; [by etransitivity|]. intros a Ha.
    destruct (F1 a Ha) as (A1 & A2 & A3 & A4 & A5 & A6), (F2 a Ha) as (B1 & B2 & B3 & B4 & B5 & B6).
    unfold same_account. split_and!; congruence.
Qed.

Lemma of_account_app {A} (f : A → string) a l k : of_account f a (l ++ k) = of_account f a l ++ of_account f a k.
Proof. apply List.filter_app. Qed.
Lemma of_account_other {A} (f : A → string) a b x l : a ≠ b → f x = b → of_account f a (l ++ [x]) = of_account f a l.
Proof.
  intros Hn E. rewrite of_account_app. cbn. rewrite E. destruct (String.eqb_spec b a); [congruence|]. by rewrite app_nil_r.
Qed.
Lemma of_account_filter {A} (f : A → string) (P : A → bool) a l :
  (∀ x, f x = a → P x = true) → of_account f a (List.filter P l) = of_account f a l.
Proof.
  intros H. unfold of_account. induction l as [|x l IH]; [done|]. cbn. destruct (P x) eqn:E; cbn; rewrite IH; [done|].
  destruct (String.eqb_spec (f x) a) as [Ea|]; [|done]. by rewrite (H _ Ea) in E.
Qed.

Ltac same_rest :=
  split_and!; try done; try (match goal with H : _ ≠ _ |- of_account _ _ _ = _ => exact (of_account_other _ _ _ _ _ H eq_refl) end).

(** Appending to a log of the tables. *)
Lemma touches_cash t r : touches (ca_account_ r) t (set_cash t (t_cash t ++ [r])).
Proof.
  split; [|intros a Ha; unfold same_account; same_rest].
  constructor; cbn; try done; [by apply prefix_app_r|intros a x ?; by exists x|intros o ?; by left].
Qed.
Lemma touches_orders t r : touches (or_account r) t (set_orders t (t_orders t ++ [r])).
Proof.
  split; [|intros a Ha; unfold same_account; same_rest].
  constructor; cbn; try done; [by apply prefix_app_r|intros a x ?; by exists x|intros o ?; by left].
Qed.
Lemma touches_fills b t r : touches b t (set_fills t (t_fills t ++ [r])).
Proof.
  split; [|intros a Ha; unfold same_account; same_rest].
  constructor; cbn; try done; [by apply prefix_app_r|intros a x ?; by exists x|intros o ?; by left].
Qed.
Lemma touches_funding b t r : touches b t (set_funding t (t_funding t ++ [r])).
Proof.
  split; [|intros a Ha; unfold same_account; same_rest].
  constructor; cbn; try done; [by apply prefix_app_r|intros a x ?; by exists x|intros o ?; by left].
Qed.
Lemma touches_decisions b t r : touches b t (set_decisions t (t_decisions t ++ [r])).
Proof.
  split; [|intros a Ha; unfold same_account; same_rest].
  constructor; cbn; try done; [by apply prefix_app_r|intros a x ?; by exists x|intros o ?; by left].
Qed.
Lemma touches_risk b t r : touches b t (set_risk t (<[b := r]> (t_risk t))).
Proof.
  split; [|intros a Ha; unfold same_account; same_rest; by apply lookup_insert_ne].
  constructor; cbn; try done; [intros a x ?; by exists x|intros o ?; by left].
Qed.
Lemma touches_delete_owed b t P : (∀ o, od_account o ≠ b → P o = true) → touches b t (set_owed t (List.filter P (t_owed t))).
Proof.
  intros HP. split.
  - constructor; cbn; try done; [intros a x ?; by exists x|]. intros o. rewrite !list_elem_of_In, filter_In. intros [? _]. by left.
  - intros a Ha. unfold same_account. same_rest. cbn. apply of_account_filter. intros o E. apply HP. congruence.
Qed.
Lemma touches_owed t r : is_Some (held_rows t (od_account r) !! od_instrument r) →
  touches (od_account r) t (set_owed t (t_owed t ++ [r])).
Proof.
  intros Hh. split; [|intros a Ha; unfold same_account; same_rest].
  constructor; cbn; try done; [intros a x ?; by exists x|].
  intros o [H|H%list_elem_of_singleton]%elem_of_app; [by left|subst; by right].
Qed.
Lemma held_upsert t b i r a : held_rows (upsert_held t b i r) a = if decide (a = b) then <[i := r]> (held_rows t b) else held_rows t a.
Proof.
  unfold held_rows at 1, upsert_held. cbn. destruct (decide (a = b)) as [->|Hn]; [by rewrite lookup_insert_eq|].
  by rewrite lookup_insert_ne by done.
Qed.
Lemma touches_upsert t b i r : touches b t (upsert_held t b i r).
Proof.
  split; [|intros a Ha; unfold same_account; same_rest; by rewrite held_upsert, decide_False].
  constructor; try done; [intros a x ?; by exists x| |intros o ?; by left].
  intros a i' H. rewrite held_upsert. destruct (decide (a = b)) as [->|]; [|done].
  destruct (decide (i = i')) as [->|]; [rewrite lookup_insert_eq; by eexists|by rewrite lookup_insert_ne].
Qed.

(** A fold of writes. *)
Lemma try_fold_pre {A B E} (R : B → B → Prop) `{!PreOrder R} (f : B → A → result E B) l : (∀ b a b', f b a = Ok b' → R b b') →
  ∀ b b', try_fold f b l = Ok b' → R b b'.
Proof.
  intros H. induction l as [|a l IH]; intros b b'; cbn [try_fold]; [by intros [= ->]|].
  intros (b1 & H1 & H2)%bind_ok. etransitivity; [by eapply H|by apply IH].
Qed.

(** ** Every write of an account touches that account only *)

Section Writes.
Context `{C : Codec}.

Lemma not_null_ok {A} col (x : option A) y : not_null col x = Ok y → x = Some y.
Proof. unfold not_null. destruct x; cbn; congruence. Qed.
Lemma with_context_ok {A} text (r : Store A) x : with_context text r = Ok x → r = Ok x.
Proof. by destruct r. Qed.
Lemma of_ledger_ok {A} (r : result LedgerError A) x : of_ledger r = Ok x → r = Ok x.
Proof. destruct r; cbn; congruence. Qed.

Lemma check_owner_touches t b chk t' : check_owner t b chk = Ok t' → touches b t t'.
Proof.
  unfold check_owner. destruct (oc_owner chk) as [o|]; [|by intros [= ->]].
  destruct (t_accounts t !! b) as [r|] eqn:E; [|by intros [= ->]].
  destruct (ar_sandbox r) as [s|] eqn:Es; [destruct (String.eqb s o); [by intros [= ->]|done]|]. intros [= <-].
  split; [|intros a Ha; unfold same_account; same_rest; by apply lookup_insert_ne].
  constructor; cbn; try done; [|intros x ?; by left].
  intros a x Hx. destruct (decide (a = b)) as [->|]; [|rewrite lookup_insert_ne by done; by exists x].
  rewrite lookup_insert_eq. eexists. split; [done|]. rewrite E in Hx. injection Hx as <-. split; [done|]. congruence.
Qed.
Lemma append_cash_ok t b ts kind ref x y t' : append_cash t b ts kind ref x y = Ok t' →
  ∃ x' y', real x = Some x' ∧ real y = Some y' ∧ t' = set_cash t (t_cash t ++ [mkCashRow b ts kind ref x' y']).
Proof.
  unfold append_cash. intros (x' & H1%not_null_ok & (y' & H2%not_null_ok & [= <-])%bind_ok)%bind_ok. by exists x', y'.
Qed.
Lemma append_cash_touches t b ts kind ref x y t' : append_cash t b ts kind ref x y = Ok t' → touches b t t'.
Proof. intros (x' & y' & _ & _ & ->)%append_cash_ok. exact (touches_cash t (mkCashRow b _ _ _ _ _)). Qed.
Lemma write_position_ok t b p exit now t' : write_position t b p exit now = Ok t' → ∃ r, t' = upsert_held t b (instrument p) r.
Proof.
  unfold write_position.
  intros (q & _ & (x1 & _ & (x2 & _ & (x3 & _ & [= <-])%bind_ok)%bind_ok)%bind_ok)%bind_ok. by eexists.
Qed.
Lemma write_position_touches t b p exit now t' : write_position t b p exit now = Ok t' → touches b t t'.
Proof. intros (r & ->)%write_position_ok. apply touches_upsert. Qed.
Lemma write_risk_touches t b s : touches b t (write_risk_state t b s).
Proof. apply touches_risk. Qed.
Lemma insert_decision_touches b t req d : touches b t (fst (insert_decision t req d)).
Proof. apply touches_decisions. Qed.
Lemma insert_order_ok t req did d r exit t' id : insert_order t req did d r exit = Ok (t', id) →
  ∃ row, t' = set_orders t (t_orders t ++ [row]) ∧ id = next_id (t_orders t) ∧ or_account row = q_account req
    ∧ has_key (q_account req) (q_client_order_id req) row = true ∧ or_decision_id row = did
    ∧ existsb (has_key (q_account req) (q_client_order_id req)) (t_orders t) = false.
Proof.
  unfold insert_order. intros (x & _ & (y & _ & H)%bind_ok)%bind_ok. destruct (existsb _ _) eqn:E; [done|].
  injection H as <- <-. eexists. split_and!; [done..|unfold has_key; cbn; by rewrite !String.eqb_refl|done|done].
Qed.
Lemma insert_fill_touches b t req id f e t' : insert_fill t req id f e = Ok t' → touches b t t'.
Proof.
  unfold insert_fill.
  intros (x1 & _ & (x2 & _ & (x3 & _ & (x4 & _ & (x5 & _ & (x6 & _ & [= <-])%bind_ok)%bind_ok)%bind_ok)%bind_ok)%bind_ok)%bind_ok.
  apply touches_fills.
Qed.

Lemma write_booked_touches b i now st h st' : write_booked b i now st h = Ok st' → touches b (fst st) (fst st').
Proof.
  destruct st as [t bal]. unfold write_booked.
  intros (t1 & H1%append_cash_touches & (x1 & _ & (x2 & _ & (x3 & _ & (x4 & _ & H)%bind_ok)%bind_ok)%bind_ok)%bind_ok)%bind_ok.
  destruct (existsb _ _); [done|]. injection H as <-. cbn [fst]. etransitivity; [exact H1|].
  set (t2 := set_funding t1 _). assert (touches b t1 t2) as H2 by apply touches_funding.
  destruct (was_owed h); [|exact H2]. etransitivity; [exact H2|]. apply (touches_delete_owed b t2).
  intros o Hn. destruct (String.eqb_spec (od_account o) b); [congruence|done].
Qed.
Definition held_touches (b i : string) (t t' : Tables) : Prop := is_Some (held_rows t b !! i) → touches b t t'.
#[local] Instance held_touches_pre b i : PreOrder (held_touches b i).
Proof.
  split; [by intros t _|]. intros t1 t2 t3 H1 H2 Hh. specialize (H1 Hh). etransitivity; [exact H1|]. apply H2. by apply H1.
Qed.
Lemma write_owed_touches b i now t o t' : write_owed b i now t o = Ok t' → held_touches b i t t'.
Proof.
  unfold write_owed. intros (q & _ & H)%bind_ok Hh. destruct (existsb _ _); [done|]. injection H as <-.
  exact (touches_owed t (mkOwedRow b i _ _ _) Hh).
Qed.
#[local] Instance fst_touches_pre b : PreOrder (λ st st' : Tables * f64, touches b (fst st) (fst st')).
Proof. split; [by intros []|]. intros st1 st2 st3 H1 H2. by etransitivity. Qed.

Lemma write_settlement_touches t a i exit cash s now t' :
  (is_Some (positions a !! i) → is_Some (held_rows t (pa_account a) !! i)) →
  write_settlement t a i exit cash s now = Ok t' → touches (pa_account a) t t'.
Proof.
  intros Hh. unfold write_settlement. destruct (settlement_empty s); [by intros [= ->]|].
  intros (p & Hp & (t1 & H1%write_position_touches & ([t2 bal] & H2 & H3)%bind_ok)%bind_ok)%bind_ok. cbn [fst] in H3.
  assert (touches (pa_account a) t1 t2) as H12.
  { exact (try_fold_pre (λ st st' : Tables * f64, touches (pa_account a) (fst st) (fst st')) _ _
      (λ st h st', write_booked_touches (pa_account a) i now st h st') (t1, cash) (t2, bal) H2). }
  etransitivity; [exact H1|]. etransitivity; [exact H12|].
  apply (try_fold_pre (held_touches (pa_account a) i) _ _ (write_owed_touches _ _ _) _ _ H3).
  apply H12, H1, Hh. destruct (positions a !! i); [by eexists|done].
Qed.
Lemma write_facts_touches t b i f : touches b t (write_facts t b i f).
Proof.
  unfold write_facts. destruct (held_rows t b !! i) as [r|]; [|done]. destruct (match hr_facts_at_ms r with None => _ | Some _ => _ end); [|done].
  apply touches_upsert.
Qed.
Lemma write_fill_touches t req id a exits exit f t' a' : write_fill t req id a exits exit f = Ok (t', a') → touches (q_account req) t t'.
Proof.
  unfold write_fill. intros ([a1 e] & _ & (p & _ & (t1 & H1%write_position_touches & (t2 & H2%append_cash_touches & (t3 & H3 & [= <- <-])%bind_ok)%bind_ok)%bind_ok)%bind_ok)%bind_ok.
  apply (insert_fill_touches (q_account req)) in H3. etransitivity; [exact H1|]. by etransitivity.
Qed.
(** The order row is written first; the rest follows it. *)
Lemma write_sent_touches t req did d a exits r exit t' a' id : write_sent t req did d a exits r exit = Ok (t', a', id) →
  ∃ row, id = next_id (t_orders t) ∧ has_key (q_account req) (q_client_order_id req) row = true ∧ or_decision_id row = did
    ∧ existsb (has_key (q_account req) (q_client_order_id req)) (t_orders t) = false
    ∧ touches (q_account req) t (set_orders t (t_orders t ++ [row]))
    ∧ touches (q_account req) (set_orders t (t_orders t ++ [row])) t'.
Proof.
  unfold write_sent. intros ([t1 oid] & H1 & ([t2 a2] & H2 & [= <- <- <-])%bind_ok)%bind_ok.
  apply insert_order_ok in H1 as (row & -> & -> & Ha & Hk & Hd & He). exists row. split_and!; try done.
  - rewrite <-Ha. apply touches_orders.
  - set (t1 := set_orders t _) in *. assert (touches (q_account req) t1 t2) as H12.
    { destruct (ledger_fill _ _ _) as [f|]; [by eapply write_fill_touches|by injection H2 as <- <-]. }
    destruct (q_facts req); [|exact H12]. etransitivity; [exact H12|]. apply write_facts_touches.
Qed.
End Writes.

(** ** Loading *)

Section Loads.
Context `{C : Codec}.

(** The account has its cash, and every hour owed its position. *)
Definition loadable (t : Tables) (a : string) : Prop :=
  is_Some (t_accounts t !! a) ∧ of_account ca_account_ a (t_cash t) ≠ []
  ∧ ∀ o, o ∈ t_owed t → od_account o = a → is_Some (held_rows t a !! od_instrument o).

Lemma elem_owed_rows o t a : o ∈ owed_rows t a ↔ o ∈ t_owed t ∧ od_account o = a.
Proof.
  unfold owed_rows. rewrite sort_by_perm, list_elem_of_In, filter_In, <-list_elem_of_In.
  destruct (String.eqb_spec (od_account o) a); intuition congruence.
Qed.

Lemma load_account_ok t a l : load_account t a = Ok l →
  loadable t a ∧ pa_account (ld_account l) = a ∧ last_balance t a = Some (cash_usd (ld_account l))
  ∧ ∀ i, is_Some (positions (ld_account l) !! i) → is_Some (held_rows t a !! i).
Proof.
  unfold load_account. intros (r & Hr & (c & Hc & H)%bind_ok)%bind_ok. destruct (t_accounts t !! a) eqn:Ea; [|done].
  destruct (last_balance t a) eqn:Eb; [|done]. cbn in Hr, Hc. injection Hr as ->. injection Hc as ->.
  destruct (List.find _ _) eqn:Ef; [done|]. injection H as <-. cbn. split_and!; try done.
  - split; [by rewrite Ea|]. split.
    + unfold last_balance in Eb. intros E. unfold of_account in E. by rewrite E in Eb.
    + intros o Ho Hoa. assert (In o (owed_rows t a)) as Hin by (rewrite <-list_elem_of_In, elem_owed_rows; done).
      pose proof (List.find_none _ _ Ef o Hin) as Hn. cbn in Hn. by destruct (held_rows t a !! od_instrument o).
  - intros i [p Hp]. rewrite map_lookup_imap in Hp. by destruct (held_rows t a !! i).
Qed.
Lemma loadable_loads t a : loadable t a → ∃ l, load_account t a = Ok l.
Proof.
  intros ([r Hr] & Hc & Ho). unfold load_account, last_balance. rewrite Hr. cbn [ok_or mbind result_bind].
  assert (∃ b, ca_balance_usd <$> last (of_account ca_account_ a (t_cash t)) = Some b) as [b Hb].
  { destruct (last _) eqn:E; [by eexists|]. by apply last_None in E. }
  unfold of_account in Hb. rewrite Hb. cbn [ok_or mbind result_bind]. destruct (List.find _ _) as [o|] eqn:Ef; [|by eexists].
  apply List.find_some in Ef as [Hin Hn]. rewrite <-list_elem_of_In, elem_owed_rows in Hin. destruct Hin as [H1 H2].
  destruct (Ho o H1 H2) as [x Hx]. by rewrite Hx in Hn.
Qed.
Lemma loadable_grows t t' a : grows t t' → loadable t a → loadable t' a.
Proof.
  intros [_ _ _ _ Gc Ga Gh Go] ([r Hr] & Hc & Ho). split_and!.
  - destruct (Ga _ _ Hr) as (r' & -> & _). by eexists.
  - destruct Gc as [k ->]. rewrite of_account_app. by destruct (of_account ca_account_ a (t_cash t)).
  - intros o [H|H]%Go Hoa; [by apply Gh, Ho|by rewrite <-Hoa].
Qed.

Lemma load_snapshot_ok t a now s : load_snapshot t a now = Ok s →
  ∃ l, load_account t a = Ok l ∧ sn_account s = ld_account l ∧ sn_exit_at_ms s = ld_exit_at_ms l
    ∧ load_risk_state t a = Ok (sn_risk s) ∧ sn_now_ms s = now.
Proof. unfold load_snapshot. intros (l & Hl & (r & Hr & [= <-])%bind_ok)%bind_ok. by exists l. Qed.

Lemma length_filter_of {A} (f : A → string) (P : A → bool) a rows :
  List.filter (λ r, String.eqb (f r) a && P r) rows = List.filter P (of_account f a rows).
Proof.
  unfold of_account. induction rows as [|x l IH]; [done|]. cbn. destruct (String.eqb (f x) a); cbn; [|done].
  destruct (P x); cbn; by rewrite IH.
Qed.
Lemma load_account_same t t' a : same_account a t t' → load_account t' a = load_account t a.
Proof.
  intros (H1 & H2 & _ & H3 & _ & H4). unfold load_account, last_balance, owed_rows. fold (of_account ca_account_ a (t_cash t')).
  fold (of_account ca_account_ a (t_cash t)) (of_account od_account a (t_owed t)) (of_account od_account a (t_owed t')).
  by rewrite H1, H2, H3, H4.
Qed.
Lemma load_snapshot_same t t' a now : same_account a t t' → load_snapshot t' a now = load_snapshot t a now.
Proof.
  intros Hs. pose proof Hs as (H1 & _ & H2 & _ & H3 & _). unfold load_snapshot, load_risk_state, count_u32.
  rewrite (load_account_same _ _ _ Hs), H1, H2.
  assert (∀ t, List.filter (λ o, String.eqb (or_account o) a && (sat_i64 (now - ORDER_RATE_WINDOW_MS) <? or_ts_ms o) && negb (or_reduce_only o)) (t_orders t)
     = List.filter (λ o, (sat_i64 (now - ORDER_RATE_WINDOW_MS) <? or_ts_ms o) && negb (or_reduce_only o)) (of_account or_account a (t_orders t))) as E.
  { intros u. rewrite <-length_filter_of. apply List.filter_ext. intros o. by rewrite andb_assoc. }
  rewrite !E, !length_filter_of, H3. done.
Qed.
End Loads.

(** ** The operations of the port *)

Inductive StoreOp : Type :=
  | OpenAccount (check : OwnerCheck) (account : string) (initial_cash_usd : f64) (now_ms : Z)
  | Place (check : OwnerCheck) (req : PlaceRequest) (decide : LedgerSnapshot → Decision)
  | UpdateRisk (check : OwnerCheck) (account : string) (now_ms : Z) (update : LedgerSnapshot → result string RiskState)
  | SettleFunding (check : OwnerCheck) (account instrument : string) (rate : option FundingRate) (now_ms : Z)
  | TriggerExit (check : OwnerCheck) (account instrument : string) (opened_ms : Z) (reason : ExitReason) (now_ms : Z).
Definition op_check (op : StoreOp) : OwnerCheck :=
  match op with
  | OpenAccount c _ _ _ | Place c _ _ | UpdateRisk c _ _ _ | SettleFunding c _ _ _ _ | TriggerExit c _ _ _ _ _ => c
  end.
Definition op_account (op : StoreOp) : string :=
  match op with
  | OpenAccount _ a _ _ | UpdateRisk _ a _ _ | SettleFunding _ a _ _ _ | TriggerExit _ a _ _ _ _ => a
  | Place _ req _ => q_account req
  end.
(** The tables after an operation, and whether it was refused. *)
Definition op_run `{C : Codec} (t : Tables) (op : StoreOp) : Tables * bool :=
  match op with
  | OpenAccount c a x n => let '(t, r) := open_account c a x n t in (t, is_ok r)
  | Place c req d => let '(t, r) := place c req d t in (t, is_ok r)
  | UpdateRisk c a n u => let '(t, r) := update_risk_state c a n u t in (t, is_ok r)
  | SettleFunding c a i r n => let '(t, r) := store_settle_funding c a i r n t in (t, is_ok r)
  | TriggerExit c a i o r n => let '(t, r) := trigger_exit c a i o r n t in (t, is_ok r)
  end.
Definition ops_run `{C : Codec} (ops : list StoreOp) (t : Tables) : Tables := fold_left (λ t op, fst (op_run t op)) ops t.

Section Ops.
Context `{C : Codec}.

Lemma run_tx_touches {A} b t (body : Store (TxEnd A)) : (∀ t' x, body = Ok (Commit t' x) → touches b t t') →
  touches b t (fst (run_tx t body)).
Proof. intros H. destruct body as [[t' x|x]|e]; cbn; [by eapply H|done..]. Qed.

(** What the rest of [place] found and wrote, once its checks are past. *)
Lemma write_decision_ok t req snap d t' p : write_decision t req snap d = Ok (Commit t' p) →
  check_decision req d = Ok tt ∧ touches (q_account req) t t' ∧ p_replayed p = false
  ∧ read_decision t' (next_id (t_decisions t)) = Ok (p_decision p)
  ∧ match d_outcome d with
    | Denied => p_order p = None ∧ p_account p = sn_account snap
    | Sent _ _ => ∃ o row, p_order p = Some o ∧ read_order_by_id t' (next_id (t_orders t)) = Ok o
        ∧ (t_orders t ++ [row]) `prefix_of` t_orders t' ∧ has_key (q_account req) (q_client_order_id req) row = true
        ∧ or_decision_id row = next_id (t_decisions t)
        ∧ existsb (has_key (q_account req) (q_client_order_id req)) (t_orders t) = false
    end.
Proof.
  unfold write_decision. intros ([] & Hc & H)%bind_ok. split; [exact Hc|].
  pose proof (insert_decision_touches (q_account req) t req d) as H1.
  destruct (insert_decision t req d) as [t1 did] eqn:Ei. assert (did = next_id (t_decisions t)) as -> by (by injection Ei).
  assert (t_orders t1 = t_orders t) as Eo by (by injection Ei as <-). cbn [fst] in H1. clear Ei.
  set (t2 := match d_risk d with Some _ => _ | None => _ end) in H. assert (t_orders t2 = t_orders t) as Eo2.
  { unfold t2. destruct (d_risk d); [|done]. by destruct (negb _). }
  assert (touches (q_account req) t t2) as H2.
  { etransitivity; [exact H1|]. unfold t2. destruct (d_risk d); [|done]. destruct (negb _); [apply write_risk_touches|done]. }
  clearbody t2. clear H1 t1 Eo. destruct (d_outcome d) as [|r ex].
  - cbn [mbind result_bind] in H. apply bind_ok in H as (sd & Hsd & H). injection H as <- <-. by split_and!.
  - apply bind_ok in H as ([[t3 a] oid] & H3 & H).
    apply bind_ok in H3 as ([[t4 a4] oid4] & H3 & [= <- <- <-]). apply write_sent_touches in H3 as (row & -> & Hk & Hd & He & Ht & Ht').
    apply bind_ok in H as (sd & Hsd & H). apply bind_ok in H as (o & Ho & [= <- <-]). rewrite Eo2 in *.
    destruct (read_order_by_id t4 (next_id (t_orders t))) as [o'|] eqn:Er; [|done]. injection Ho as <-.
    split_and!; [by etransitivity; [|etransitivity]|done|done|]. exists o', row. split_and!; try done. exact (gr_orders _ _ (proj1 Ht')).
Qed.

Lemma settled_positions a i r n a' s : account_settle_funding a i r n = (a', s) →
  pa_account a' = pa_account a ∧ ∀ k, is_Some (positions a' !! k) → is_Some (positions a !! k).
Proof.
  unfold account_settle_funding. destruct (positions a !! i) as [p|] eqn:E; [|by intros [= <- <-]].
  destruct (settle_funding p r n) as [p' [x|e]]; intros [= <- <-]; (split; [done|]); intros k; cbn;
    (destruct (decide (i = k)) as [->|]; [intros _; by eexists|by rewrite lookup_insert_ne]).
Qed.

(** A placement: the replay of a stored order, or a decision on the snapshot
    with its funding settled. *)
Inductive placed (t : Tables) (req : PlaceRequest) (decide : LedgerSnapshot → Decision) (t' : Tables) (p : Placement) : Prop :=
  | placed_again o l :
      read_order t (q_account req) (q_client_order_id req) = Ok (Some o) → conflict o (q_fingerprint req) = None →
      read_decision t (so_decision_id o) = Ok (p_decision p) → load_account t (q_account req) = Ok l →
      t' = t → p = mkPlacement true (p_decision p) (Some o) (ld_account l) → placed t req decide t' p
  | placed_now snap a s t1 :
      read_order t (q_account req) (q_client_order_id req) = Ok None →
      load_snapshot t (q_account req) (q_now_ms req) = Ok snap →
      account_settle_funding (sn_account snap) (q_instrument req) (q_funding req) (q_now_ms req) = (a, Ok s) →
      write_settlement t a (q_instrument req) (sn_exit_at_ms snap !! q_instrument req) (cash_usd (sn_account snap)) s (q_now_ms req)
        = Ok t1 →
      touches (q_account req) t t1 →
      write_decision t1 req (with_account snap a) (decide (with_account snap a)) = Ok (Commit t' p) → placed t req decide t' p.

Lemma settlement_touches t b now l i r a s exit cash t1 :
  load_account t b = Ok l → account_settle_funding (ld_account l) i r now = (a, s) →
  ∀ s', write_settlement t a i exit cash s' now = Ok t1 → touches b t t1.
Proof.
  intros Hl Hs s' Hw. destruct (load_account_ok _ _ _ Hl) as (_ & Hn & _ & Hp).
  destruct (settled_positions _ _ _ _ _ _ Hs) as [Hn' Hp']. rewrite Hn in Hn'. rewrite <-Hn'. eapply write_settlement_touches; [|exact Hw].
  rewrite Hn'. intros H. by apply Hp, Hp'.
Qed.

Lemma place_tx_ok t0 req decide chk e : place_tx t0 req decide chk = Ok e →
  str_is_empty (trim (q_client_order_id req)) = false
  ∧ ∃ t t' p, check_owner t0 (q_account req) chk = Ok t ∧ e = Commit t' p ∧ placed t req decide t' p.
Proof.
  unfold place_tx. destruct (str_is_empty _); [done|]. intros (t & Ho & (so & Hr & H)%bind_ok)%bind_ok. split; [done|]. exists t.
  destruct so as [o|].
  - destruct (conflict o (q_fingerprint req)) eqn:Ec; [done|].
    apply bind_ok in H as (sd & Hd & (l & Hl & [= <-])%bind_ok). eexists _, _. split; [done|]. split; [done|].
    eapply placed_again; try done.
  - apply bind_ok in H as (snap & Hs & H). destruct (account_settle_funding _ _ _ _) as [a r] eqn:Ea.
    apply bind_ok in H as (s & Hset & (t1 & Hw & H)%bind_ok). apply with_context_ok, of_ledger_ok in Hset as ->.
    assert (∃ t' p, e = Commit t' p) as (t' & p & ->).
    { destruct e as [t' p|p]; [by eexists _, _|]. exfalso. unfold write_decision in H.
      destruct (insert_decision _ _ _). apply bind_ok in H as ([] & _ & H). apply bind_ok in H as ([[? ?] ?] & _ & H).
      apply bind_ok in H as (? & _ & H). by apply bind_ok in H as (? & _ & H). }
    exists t', p. split; [done|]. split; [done|].
    eapply placed_now; [exact Hr|exact Hs|exact Ea|exact Hw| |exact H].
    destruct (load_snapshot_ok _ _ _ _ Hs) as (l & Hl & El & _). rewrite El in Ea. by eapply settlement_touches.
Qed.
Lemma placed_touches t req decide t' p : placed t req decide t' p → touches (q_account req) t t'.
Proof.
  intros [o l _ _ _ _ -> _|snap a s t1 _ _ _ _ Ht (_ & Hw & _)%write_decision_ok]; [done|]. by etransitivity.
Qed.

Lemma op_run_touches {A} (r : Tables * Store A) b t : touches b t (fst r) →
  touches b t (fst (let '(t, x) := r in (t, is_ok x))).
Proof. by destruct r. Qed.

(** An operation touches its own account only. *)
Lemma op_touches op t : touches (op_account op) t (fst (op_run t op)).
Proof.
  destruct op as [c a x n|c req d|c a n u|c a i r n|c a i o r n]; cbn [op_run op_account];
    apply op_run_touches, run_tx_touches; intros t' y H.
  - apply bind_ok in H as (_ & _ & (x' & _ & (t1 & H1 & (t2 & H2%check_owner_touches & (l & _ & [= <- _])%bind_ok)%bind_ok)%bind_ok)%bind_ok).
    etransitivity; [|exact H2]. destruct (t_accounts t !! a) eqn:E; [by injection H1 as <-|].
    apply append_cash_touches in H1. etransitivity; [|exact H1].
    split; [|intros b Hb; unfold same_account; same_rest; by apply lookup_insert_ne].
    constructor; cbn; try done; [|intros o ?; by left]. intros b r Hb. exists r. rewrite lookup_insert_ne by congruence. done.
  - apply place_tx_ok in H as (_ & t1 & t2 & p & H1%check_owner_touches & [= -> ->] & H2%placed_touches). by etransitivity.
  - apply bind_ok in H as (t1 & H1%check_owner_touches & (s & _ & (next & _ & H)%bind_ok)%bind_ok). etransitivity; [exact H1|].
    destruct (negb _); injection H as <- _; [apply write_risk_touches|done].
  - apply bind_ok in H as (t1 & H1%check_owner_touches & (l & Hl & H)%bind_ok). etransitivity; [exact H1|].
    destruct (account_settle_funding _ _ _ _) as [a' s] eqn:E. apply bind_ok in H as (s' & _ & H).
    destruct (settlement_empty s'); [done|]. apply bind_ok in H as (t2 & Hw & [= <- _]). by eapply settlement_touches.
  - destruct (negb (on_price r)); [done|]. apply bind_ok in H as (t1 & H1%check_owner_touches & (l & Hl & H)%bind_ok).
    etransitivity; [exact H1|]. destruct (positions _ !! i) as [p|]; [|done]. destruct (_ && _); [|done].
    destruct (ld_exit_triggers l !! _); [done|]. injection H as <- _. destruct (held_rows t1 a !! i); [apply touches_upsert|done].
Qed.
Lemma ops_grow ops : ∀ t, grows t (ops_run ops t).
Proof.
  induction ops as [|op ops IH]; intros t; [done|]. cbn. etransitivity; [exact (proj1 (op_touches op t))|]. apply IH.
Qed.
End Ops.

(** ** Retries *)

Section Retries.
Context `{C : Codec}.

Lemma row_at_prefix {A} (l k : list A) id x : l `prefix_of` k → row_at l id = Some x → row_at k id = Some x.
Proof. intros [z ->]. unfold row_at. destruct (1 <=? id); [|done]. intros H. by apply lookup_app_l_Some. Qed.
Lemma row_at_next {A} (l k : list A) x : (l ++ [x]) `prefix_of` k → row_at k (next_id l) = Some x.
Proof.
  intros H. apply (row_at_prefix _ _ _ _ H). unfold row_at, next_id. destruct (Z.leb_spec 1 (Z.of_nat (length l) + 1)); [|lia].
  replace (Z.to_nat (Z.of_nat (length l) + 1 - 1)) with (length l) by lia. by apply list_lookup_middle.
Qed.
Lemma read_decision_grows t t' id d : grows t t' → read_decision t id = Ok d → read_decision t' id = Ok d.
Proof.
  intros G. unfold read_decision. intros (r & Hr & Hp)%bind_ok. destruct (row_at (t_decisions t) id) eqn:E; [|done].
  injection Hr as ->. by rewrite (row_at_prefix _ _ _ _ (gr_decisions _ _ G) E).
Qed.
Lemma read_order_grows t t' a c o : grows t t' → read_order t a c = Ok (Some o) → read_order t' a c = Ok (Some o).
Proof.
  intros G. destruct (gr_orders _ _ G) as [k E]. unfold read_order. rewrite E.
  destruct (list_find _ (t_orders t)) as [[i r]|] eqn:Ef; [|done]. by rewrite (list_find_app_l _ _ _ _ _ Ef).
Qed.
Lemma read_order_new t t' a c row : (t_orders t ++ [row]) `prefix_of` t_orders t' → has_key a c row = true →
  existsb (has_key a c) (t_orders t) = false → read_order t' a c = Some <$> read_order_by_id t' (next_id (t_orders t)).
Proof.
  intros Hp Hk Hn. unfold read_order, read_order_by_id. rewrite (row_at_next _ _ _ Hp). destruct Hp as [z ->].
  assert (list_find (λ o, has_key a c o = true) (t_orders t ++ [row]) = Some (length (t_orders t), row)) as Hf.
  { apply list_find_app_Some. right. split_and!; [lia| |].
    - apply list_find_None, Forall_forall. intros o Ho%list_elem_of_In Hko.
      assert (existsb (has_key a c) (t_orders t) = true) by (apply existsb_exists; eauto). congruence.
    - rewrite Nat.sub_diag. cbn. by rewrite decide_True by done. }
  by rewrite (list_find_app_l _ _ _ _ _ Hf).
Qed.
Lemma stored_decision_id t id o r : row_at (t_orders t) id = Some r → read_order_by_id t id = Ok o → so_decision_id o = or_decision_id r.
Proof.
  intros Hr. unfold read_order_by_id. rewrite Hr. cbn [ok_or mbind result_bind]. unfold parse_order.
  intros (x & _ & [= <-])%bind_ok. done.
Qed.

(** What a placement with an order leaves behind. *)
Lemma placed_order t req decide t' p o : placed t req decide t' p → p_order p = Some o →
  read_order t' (q_account req) (q_client_order_id req) = Ok (Some o)
  ∧ read_decision t' (so_decision_id o) = Ok (p_decision p) ∧ loadable t' (q_account req).
Proof.
  intros [o' l Hr _ Hd Hl -> Ep|snap a s t1 _ Hsn _ _ Ht Hw] Ho.
  - rewrite Ep in Ho. injection Ho as ->. split_and!; [done..|]. by eapply load_account_ok.
  - apply write_decision_ok in Hw as (_ & Ht' & _ & Hd & Hout). destruct (d_outcome _); [destruct Hout as [E _]; congruence|].
    destruct Hout as (o' & row & E & Hid & Hp & Hk & Hdid & He). rewrite E in Ho. injection Ho as ->. split_and!.
    + rewrite (read_order_new t1 t' _ _ _ Hp Hk He), Hid. done.
    + rewrite (stored_decision_id _ _ _ _ (row_at_next _ _ _ Hp) Hid), Hdid. exact Hd.
    + eapply loadable_grows; [exact (proj1 Ht')|]. eapply loadable_grows; [exact (proj1 Ht)|].
      destruct (load_snapshot_ok _ _ _ _ Hsn) as (l & Hl & _). by eapply load_account_ok.
Qed.

(** C4. A retry is answered from the ledger. Once an order is stored,
    whatever operations follow, on any account and by any sandbox, a request
    of the account's own handle under the same client order id is answered
    with the same order and the verdict that allowed it: the gate and the
    fill are not run, and nothing is written. A request under that id that
    asks for something else is refused, and nothing is written either. *)
Theorem retries_replay_the_stored_order check req decide t t1 p o ops check' req' decide' :
  place check req decide t = (t1, Ok p) → p_order p = Some o →
  q_account req' = q_account req → q_client_order_id req' = q_client_order_id req →
  let t2 := ops_run ops t1 in
  check_owner t2 (q_account req) check' = Ok t2 →
  match conflict o (q_fingerprint req') with
  | None => ∃ l, load_account t2 (q_account req) = Ok l
      ∧ place check' req' decide' t2 = (t2, Ok (mkPlacement true (p_decision p) (Some o) (ld_account l)))
  | Some why => place check' req' decide' t2 = (t2, Err (Said why))
  end.
Proof.
  intros Hp Ho Ea Ec t2 Hown. unfold place in Hp. destruct (place_tx t req decide check) as [e|e] eqn:E; [|done].
  apply place_tx_ok in E as (Hid & t0 & t' & p' & _ & -> & Hpl). cbn in Hp. injection Hp as -> ->.
  destruct (placed_order _ _ _ _ _ _ Hpl Ho) as (Hr & Hd & Hl). pose proof (ops_grow ops t1) as G. fold t2 in G.
  apply (read_order_grows _ _ _ _ _ G) in Hr. apply (read_decision_grows _ _ _ _ G) in Hd. apply (loadable_grows _ _ _ G) in Hl.
  unfold place, place_tx. rewrite Ec, Ea, Hid, Hown. cbn [mbind result_bind]. rewrite Hr. cbn [mbind result_bind].
  destruct (conflict o (q_fingerprint req')) as [why|]; [done|].
  rewrite Hd. cbn [mbind result_bind]. destruct (loadable_loads _ _ Hl) as [l Hl']. exists l. split; [done|]. by rewrite Hl'.
Qed.
End Retries.

(** ** Owners *)

Section Owners.
Context `{C : Codec}.

(** A handle of another sandbox than [s]. *)
Definition foreign (s : string) (chk : OwnerCheck) : Prop := ∃ o, oc_owner chk = Some o ∧ o ≠ s.

Lemma foreign_refused t a r s chk : t_accounts t !! a = Some r → ar_sandbox r = Some s → foreign s chk →
  ∃ e, check_owner t a chk = Err e.
Proof.
  intros Hr Hs (o & Ho & Hn). unfold check_owner. rewrite Ho, Hr, Hs. destruct (String.eqb_spec s o); [congruence|]. by eexists.
Qed.
Lemma foreign_op t op r s : t_accounts t !! op_account op = Some r → ar_sandbox r = Some s → foreign s (op_check op) →
  op_run t op = (t, false).
Proof.
  intros Hr Hs Hf. destruct (foreign_refused _ _ _ _ _ Hr Hs Hf) as [e He].
  destruct op as [c a x n|c req d|c a n u|c a i rt n|c a i o rs n]; cbn [op_check op_account op_run] in *;
    unfold open_account, place, place_tx, update_risk_state, store_settle_funding, trigger_exit; rewrite ?He; try done.
  - destruct (account_new a x); [|done]. destruct (real x); [|done]. cbn. rewrite Hr. cbn. by rewrite He.
  - by destruct (str_is_empty _).
  - by destruct (negb _).
Qed.

(** C7. An account answers its own sandbox. Once a sandbox owns an account,
    no sequence of operations in which every operation on it is a handle's of
    another sandbox changes anything that is read of it: its owner, cash,
    positions, exits, order rate and risk state are what they were, and each
    of those operations is refused. The operations on other accounts, by
    anyone, are free. *)
Theorem accounts_answer_their_owner_only a r s ops : ∀ t, t_accounts t !! a = Some r → ar_sandbox r = Some s →
  Forall (λ op, op_account op = a → foreign s (op_check op)) ops →
  (∀ now, snapshot a now (ops_run ops t) = snapshot a now t) ∧ t_accounts (ops_run ops t) !! a = Some r
  ∧ ∀ op, op_account op = a → foreign s (op_check op) → op_run (ops_run ops t) op = (ops_run ops t, false).
Proof.
  induction ops as [|op ops IH]; intros t Hr Hs Hops.
  - split_and!; [done..|]. intros op <- Hf. by eapply foreign_op.
  - apply Forall_cons in Hops as [Hop Hops]. cbn [ops_run fold_left]. fold (ops_run ops (fst (op_run t op))).
    assert (same_account a t (fst (op_run t op))) as Hsame.
    { destruct (decide (op_account op = a)) as [E|Hn]; [|by apply (op_touches op t)].
      subst a. rewrite (foreign_op _ _ _ _ Hr Hs (Hop eq_refl)). unfold same_account. by split_and!. }
    destruct (IH (fst (op_run t op))) as (H1 & H2 & H3); [by rewrite (proj1 Hsame)|done|done|].
    split_and!; [|exact H2|exact H3]. intros now. rewrite H1. exact (load_snapshot_same _ _ _ _ Hsame).
Qed.
End Owners.


(** ** The cash journal *)

(** What is relied on of the database: a REAL column answers the number it was
    given, and keeps no NaN. *)
Class CodecLaws (C : Codec) : Prop := {
  real_number x y : real x = Some y → (x =? y)%f64 = true;
}.

Section Journal.
Context `{C : Codec} `{!CodecLaws C}.

(** The rows of an account: each leaves the balance before it plus its amount. *)
Fixpoint adds_up (b : f64) (rows : list CashRow) : Prop :=
  match rows with
  | [] => True
  | r :: rows => (b + ca_amount_usd r =? ca_balance_usd r)%f64 = true ∧ adds_up (ca_balance_usd r) rows
  end.
Definition journal (t : Tables) (a : string) : list CashRow := of_account ca_account_ a (t_cash t).
Definition cash_ok (t : Tables) (a : string) : Prop :=
  ∃ r d rest, t_accounts t !! a = Some r ∧ journal t a = d :: rest ∧ ca_kind d = "deposit"
    ∧ (ca_amount_usd d =? ar_initial_cash_usd r)%f64 = true ∧ adds_up zero (d :: rest).
Definition journal_ok (t : Tables) (a : string) : Prop := cash_ok t a ∨ t_accounts t !! a = None ∧ journal t a = [].

Lemma adds_up_app b l k : adds_up b (l ++ k) ↔ adds_up b l ∧ adds_up (default b (ca_balance_usd <$> last l)) k.
Proof.
  revert b. induction l as [|r l IH]; intros b; cbn [adds_up app]; [cbn; tauto|]. rewrite IH.
  assert (default b (ca_balance_usd <$> last (r :: l)) = default (ca_balance_usd r) (ca_balance_usd <$> last l)) as ->; [|tauto].
  destruct l as [|r' l]; [done|]. cbn [last]. destruct (last (r' :: l)) eqn:E; [done|]. by apply last_None in E.
Qed.
Lemma adds_up_last b l x : adds_up b l → ca_balance_usd <$> last l = Some x → is_nan x = false.
Proof.
  revert b. induction l as [|r l IH]; intros b; [done|]. cbn [adds_up last]. intros [H Hl]. destruct l as [|r' l].
  - cbn. intros [= <-]. by apply eqb_nan in H as [_ H].
  - exact (IH _ Hl).
Qed.

(** The running cash of an account equals its last balance. *)
Definition follows (b : string) (t : Tables) (c : f64) : Prop :=
  cash_ok t b ∧ ∃ x, last_balance t b = Some x ∧ (x =? c)%f64 = true.

Lemma last_balance_follows t b c : cash_ok t b → last_balance t b = Some c → follows b t c.
Proof.
  intros Hc Hl. split; [done|]. exists c. split; [done|]. destruct Hc as (r & d & rest & _ & Hj & _ & _ & Ha).
  unfold last_balance in Hl. fold (of_account ca_account_ b (t_cash t)) in Hl. fold (journal t b) in Hl. rewrite Hj in Hl.
  by rewrite eqb_self, (adds_up_last _ _ _ Ha Hl).
Qed.
(** Writes that leave the cash table alone. *)
Lemma cash_same t t' b c : touches b t t' → t_cash t' = t_cash t → follows b t c → follows b t' c.
Proof.
  intros [G _] E [(r & d & rest & Hr & Hj & Hk & Hd & Ha) Hx]. destruct (gr_accounts _ _ G _ _ Hr) as (r' & Hr' & Hi & _).
  split; [|unfold last_balance in *; by rewrite E]. exists r', d, rest. unfold journal in *. rewrite E, Hi. split_and!; done || apply Ha.
Qed.
Lemma cash_same_ok t t' b : touches b t t' → t_cash t' = t_cash t → cash_ok t b → cash_ok t' b.
Proof.
  intros [G _] E (r & d & rest & Hr & Hj & Hk & Hd & Ha). destruct (gr_accounts _ _ G _ _ Hr) as (r' & Hr' & Hi & _).
  exists r', d, rest. unfold journal in *. rewrite E, Hi. split_and!; done || apply Ha.
Qed.
Lemma append_cash_follows t b ts kind ref x c t' : append_cash t b ts kind ref x (c + x)%f64 = Ok t' →
  follows b t c → follows b t' (c + x)%f64.
Proof.
  intros (x' & y' & Hx%real_number & Hy%real_number & ->)%append_cash_ok [(r & d & rest & Hr & Hj & Hk & Hd & Ha) (z & Hz & Hc)].
  set (row := mkCashRow b ts kind ref x' y').
  assert (journal (set_cash t (t_cash t ++ [row])) b = d :: (rest ++ [row])) as Hj'.
  { unfold journal in *. cbn [t_cash set_cash]. rewrite of_account_app, Hj. cbn. by rewrite String.eqb_refl. }
  unfold last_balance in Hz. fold (of_account ca_account_ b (t_cash t)) in Hz. fold (journal t b) in Hz. rewrite Hj in Hz.
  split.
  - exists r, d, (rest ++ [row]). split_and!; try done. rewrite app_comm_cons, adds_up_app, Hz. split; [done|]. cbn. split; [|done].
    destruct (eqb_nan _ _ Hy) as [Hn _]. apply (eqb_trans _ (c + x)%f64); [|done]. apply eqb_sym.
    apply add_eqb; [by apply eqb_sym|done..].
  - exists y'. split; [|by apply eqb_sym]. unfold last_balance. fold (of_account ca_account_ b (t_cash (set_cash t (t_cash t ++ [row])))).
    fold (journal (set_cash t (t_cash t ++ [row])) b). by rewrite Hj', app_comm_cons, last_snoc.
Qed.

Definition paid (b : string) (st st' : Tables * f64) : Prop := follows b (fst st) (snd st) → follows b (fst st') (snd st').
#[local] Instance paid_pre b : PreOrder (paid b).
Proof. split; [intros st H; exact H|intros st1 st2 st3 H1 H2 H; exact (H2 (H1 H))]. Qed.

Lemma write_booked_paid b i now st h st' : write_booked b i now st h = Ok st' →
  paid b st st' ∧ snd st' = (snd st - payment_usd h)%f64.
Proof.
  destruct st as [t c]. unfold write_booked.
  intros (t1 & H1 & (x1 & _ & (x2 & _ & (x3 & _ & (x4 & _ & H)%bind_ok)%bind_ok)%bind_ok)%bind_ok)%bind_ok.
  destruct (existsb _ _); [done|]. injection H as <-. cbn [fst snd]. split; [|done]. intros Hf. cbn [fst snd] in *.
  rewrite sub_add_opp in *. apply (append_cash_follows _ _ _ _ _ _ _ _ H1) in Hf.
  set (t2 := set_funding t1 _). assert (follows b t2 (c + - payment_usd h)%f64) as H2.
  { apply (cash_same t1); [apply touches_funding|done|exact Hf]. }
  destruct (was_owed h); [|exact H2]. apply (cash_same t2); [|done|exact H2]. apply (touches_delete_owed b t2).
  intros o Hn. destruct (String.eqb_spec (od_account o) b); [congruence|done].
Qed.
Lemma write_booked_all b i now l : ∀ st st', try_fold (write_booked b i now) st l = Ok st' →
  paid b st st' ∧ snd st' = fold_left (λ c h, c - payment_usd h)%f64 l (snd st).
Proof.
  induction l as [|h l IH]; intros st st'; cbn [try_fold fold_left]; [by intros [= ->]|].
  intros (st1 & [H1 E1]%write_booked_paid & [H2 E2]%IH)%bind_ok. rewrite E2, E1. split; [by etransitivity|done].
Qed.
Lemma write_owed_cash b i now l : ∀ t t', try_fold (write_owed b i now) t l = Ok t' → t_cash t' = t_cash t.
Proof.
  induction l as [|o l IH]; intros t t'; cbn [try_fold]; [by intros [= ->]|]. intros (t1 & H1 & H2)%bind_ok.
  rewrite (IH _ _ H2). unfold write_owed in H1. apply bind_ok in H1 as (q & _ & H1). destruct (existsb _ _); [done|]. by injection H1 as <-.
Qed.
Lemma write_position_cash t b p exit now t' : write_position t b p exit now = Ok t' → t_cash t' = t_cash t.
Proof. by intros (r & ->)%write_position_ok. Qed.

Lemma settled_cash a i r n a' s : account_settle_funding a i r n = (a', Ok s) →
  cash_usd a' = fold_left (λ c h, c - payment_usd h)%f64 (booked s) (cash_usd a).
Proof.
  unfold account_settle_funding. destruct (positions a !! i) as [p|]; [|by intros [= <- <-]].
  by destruct (settle_funding p r n) as [p' [x|e]]; intros [= <- <-].
Qed.

(** A settlement's payments run the journal on to the account's new cash. *)
Lemma settlement_paid t b l i r now a s exit t1 :
  load_account t b = Ok l → account_settle_funding (ld_account l) i r now = (a, Ok s) →
  write_settlement t a i exit (cash_usd (ld_account l)) s now = Ok t1 →
  cash_ok t b → touches b t t1 ∧ follows b t1 (cash_usd a).
Proof.
  intros Hl Ha Hw Hc. pose proof (settlement_touches _ _ _ _ _ _ _ _ _ _ _ Hl Ha _ Hw) as Ht. split; [exact Ht|].
  destruct (load_account_ok _ _ _ Hl) as (_ & Hn & Hb & _). pose proof (last_balance_follows _ _ _ Hc Hb) as Hf.
  destruct (settled_positions _ _ _ _ _ _ Ha) as [Hn' _]. rewrite Hn in Hn'. rewrite (settled_cash _ _ _ _ _ _ Ha).
  unfold write_settlement in Hw. destruct (settlement_empty s) eqn:Es.
  { injection Hw as <-. unfold settlement_empty in Es. by destruct (booked s). }
  apply bind_ok in Hw as (p & _ & (t2 & Hp & ([t3 c3] & H3 & H4)%bind_ok)%bind_ok). rewrite Hn' in *. cbn [fst] in H4.
  pose proof (write_position_touches _ _ _ _ _ _ Hp) as Htp.
  destruct (write_booked_all _ _ _ _ _ _ H3) as [H5 E5]. cbn [snd] in E5. rewrite <-E5.
  assert (follows b t3 c3) as [(r3 & d & rest & Hr & Hj) Hlast].
  { apply H5. cbn. apply (cash_same t); [exact Htp|by eapply write_position_cash|exact Hf]. }
  pose proof (write_owed_cash _ _ _ _ _ _ H4) as Ec. split; [|unfold last_balance in *; by rewrite Ec].
  unfold cash_ok, journal in *. rewrite Ec. assert (t_accounts t1 = t_accounts t3) as ->; [|by exists r3, d, rest].
  clear -H4. revert t3 H4. induction (owed s) as [|o l IH]; intros t; cbn [try_fold]; [by intros [= ->]|].
  intros (t2 & H1 & H2)%bind_ok. rewrite (IH _ H2). unfold write_owed in H1. apply bind_ok in H1 as (q & _ & H1).
  destruct (existsb _ _); [done|]. by injection H1 as <-.
Qed.

Lemma write_fill_cash t req id a exits exit f t' a' : write_fill t req id a exits exit f = Ok (t', a') →
  follows (q_account req) t (cash_usd a) → follows (q_account req) t' (cash_usd a').
Proof.
  unfold write_fill. intros ([a1 e] & Ha & (p & _ & (t1 & H1 & (t2 & H2 & (t3 & H3 & [= <- <-])%bind_ok)%bind_ok)%bind_ok)%bind_ok)%bind_ok Hf.
  apply with_context_ok, of_ledger_ok in Ha. unfold account_apply_fill in Ha. destruct (apply_fill _ _) as [[p' e']|]; [|done].
  injection Ha as <- <-. cbn [cash_usd] in *.
  apply (cash_same t2); [by eapply insert_fill_touches| |].
  { unfold insert_fill in H3.
    by apply bind_ok in H3 as (x1 & _ & (x2 & _ & (x3 & _ & (x4 & _ & (x5 & _ & (x6 & _ & [= <-])%bind_ok)%bind_ok)%bind_ok)%bind_ok)%bind_ok). }
  apply (append_cash_follows _ _ _ _ _ _ _ _ H2).
  apply (cash_same t); [by eapply write_position_touches|by eapply write_position_cash|exact Hf].
Qed.

Lemma write_decision_cash t req snap d t' p : write_decision t req snap d = Ok (Commit t' p) →
  follows (q_account req) t (cash_usd (sn_account snap)) → follows (q_account req) t' (cash_usd (p_account p)).
Proof.
  unfold write_decision. intros ([] & _ & H)%bind_ok Hf.
  pose proof (insert_decision_touches (q_account req) t req d) as H1.
  destruct (insert_decision t req d) as [t1 did] eqn:Ei. assert (t_cash t1 = t_cash t) as Ec by (by injection Ei as <-).
  cbn [fst] in H1. clear Ei. apply (cash_same t t1) in Hf; [|done..].
  set (t2 := match d_risk d with Some _ => _ | None => _ end) in H.
  assert (follows (q_account req) t2 (cash_usd (sn_account snap))) as H2.
  { unfold t2. destruct (d_risk d); [|done]. destruct (negb _); [|done]. apply (cash_same t1); [apply write_risk_touches|done..]. }
  clearbody t2. destruct (d_outcome d) as [|r ex].
  - cbn [mbind result_bind] in H. by apply bind_ok in H as (sd & _ & [= <- <-]).
  - apply bind_ok in H as ([[t3 a] oid] & H3 & H).
    apply bind_ok in H3 as ([[t4 a4] oid4] & H3 & [= <- <- <-]).
    apply bind_ok in H as (sd & _ & H). apply bind_ok in H as (o & _ & [= <- <-]). cbn [p_account].
    unfold write_sent in H3. apply bind_ok in H3 as ([t5 id5] & H5 & ([t6 a6] & H6 & [= <- <- _])%bind_ok).
    apply insert_order_ok in H5 as (row & -> & _ & Ea & _). set (t5 := set_orders t2 _) in *.
    assert (follows (q_account req) t5 (cash_usd (sn_account snap))) as Hf5.
    { apply (cash_same t2); [rewrite <-Ea; apply touches_orders|done|exact H2]. }
    assert (follows (q_account req) t6 (cash_usd a6)) as Hf6.
    { destruct (ledger_fill _ _ _); [by eapply write_fill_cash|by injection H6 as <- <-]. }
    destruct (q_facts req) as [fc|]; [|exact Hf6]. apply (cash_same t6); [apply write_facts_touches| |exact Hf6].
    unfold write_facts. destruct (held_rows t6 _ !! _) as [hr|]; [|done]. by destruct (match hr_facts_at_ms hr with None => _ | Some _ => _ end).
Qed.

Lemma placed_cash t req decide t' p : placed t req decide t' p → cash_ok t (q_account req) →
  follows (q_account req) t' (cash_usd (p_account p)).
Proof.
  intros [o l _ _ _ Hl -> ->|snap a s t1 _ Hsn Ha Hw _ Hd] Hc.
  - cbn. apply last_balance_follows; [done|]. by eapply load_account_ok.
  - destruct (load_snapshot_ok _ _ _ _ Hsn) as (l & Hl & El & _). rewrite El in *.
    destruct (settlement_paid _ _ _ _ _ _ _ _ _ _ Hl Ha Hw Hc) as [_ Hf]. exact (write_decision_cash _ _ _ _ _ _ Hd Hf).
Qed.

Lemma check_owner_cash t b chk t' : check_owner t b chk = Ok t' → t_cash t' = t_cash t.
Proof.
  unfold check_owner. destruct (oc_owner chk); [|by intros [= ->]]. destruct (t_accounts t !! b) as [r|]; [|by intros [= ->]].
  destruct (ar_sandbox r); [destruct (String.eqb _ _); [by intros [= ->]|done]|by intros [= <-]].
Qed.
Lemma claimed_ok t b chk t' : check_owner t b chk = Ok t' → journal_ok t b → is_Some (t_accounts t' !! b) → cash_ok t' b.
Proof.
  intros H Hj [r Hr]. pose proof (check_owner_cash _ _ _ _ H) as Ec. pose proof (check_owner_touches _ _ _ _ H) as Ht.
  destruct Hj as [Hj|[Hn _]]; [exact (cash_same_ok _ _ _ Ht Ec Hj)|]. exfalso.
  unfold check_owner in H. destruct (oc_owner chk); [|injection H as ->; congruence]. rewrite Hn in H. injection H as ->. congruence.
Qed.
Lemma run_tx_journal {A} b t (body : Store (TxEnd A)) : journal_ok t b →
  (∀ t' x, body = Ok (Commit t' x) → journal_ok t' b) → journal_ok (fst (run_tx t body)) b.
Proof. intros Ht H. destruct body as [[t' x|x]|e]; cbn; [by eapply H|done..]. Qed.
Lemma is_ok_fst {A} (r : Tables * Store A) : fst (let '(t, x) := r in (t, is_ok x)) = fst r.
Proof. by destruct r. Qed.

Lemma op_journal op t : journal_ok t (op_account op) → journal_ok (fst (op_run t op)) (op_account op).
Proof.
  intros Hj. destruct op as [c a x n|c req d|c a n u|c a i r n|c a i o r n]; cbn [op_run op_account] in *; rewrite is_ok_fst;
    apply run_tx_journal; try done; intros t' y H; left.
  - apply bind_ok in H as (_ & _ & (x' & Hx & (t1 & H1 & (t2 & H2 & (l & Hl & [= <- _])%bind_ok)%bind_ok)%bind_ok)%bind_ok).
    apply not_null_ok, real_number in Hx.
    assert (journal_ok t1 a) as Hj1.
    { destruct (t_accounts t !! a) eqn:E; [by injection H1 as <-|]. destruct Hj as [(r & ? & ? & Hr & _)|[_ Hj]]; [congruence|].
      apply append_cash_ok in H1 as (x1 & y1 & Hx1%real_number & Hy1%real_number & ->). left.
      eexists _, (mkCashRow a n "deposit" "initial" x1 y1), []. cbn [t_accounts set_cash set_accounts]. rewrite lookup_insert_eq.
      split; [done|]. split; [|split; [done|]].
      { unfold journal in *. cbn [t_cash set_cash set_accounts]. rewrite of_account_app, Hj. cbn. by rewrite String.eqb_refl. }
      cbn. destruct (eqb_nan _ _ Hx1) as [_ N1], (eqb_nan _ _ Hy1) as [N2 _].
      split; [|split; [|done]]; (eapply eqb_trans; [|eassumption]).
      - by apply eqb_sym.
      - apply (eqb_trans _ x1); [|by apply eqb_sym]. by apply zero_plus. }
    apply (claimed_ok _ _ _ _ H2 Hj1). apply load_account_ok in Hl as ((? & _) & _). done.
  - apply place_tx_ok in H as (_ & t1 & t2 & p & H1 & [= -> ->] & H2). assert (cash_ok t1 (q_account req)) as Hc.
    { apply (claimed_ok _ _ _ _ H1 Hj). destruct H2 as [? l _ _ _ Hl _ _|snap ? ? ? _ Hs _ _ _ _].
      - by apply load_account_ok in Hl as ((? & _) & _).
      - apply load_snapshot_ok in Hs as (l & Hl & _). by apply load_account_ok in Hl as ((? & _) & _). }
    exact (proj1 (placed_cash _ _ _ _ _ H2 Hc)).
  - apply bind_ok in H as (t1 & H1 & (s & Hs & (next & _ & H)%bind_ok)%bind_ok).
    assert (cash_ok t1 a) as Hc.
    { apply (claimed_ok _ _ _ _ H1 Hj). apply load_snapshot_ok in Hs as (l & Hl & _). by apply load_account_ok in Hl as ((? & _) & _). }
    destruct (negb _); injection H as <- _; [|exact Hc]. apply (cash_same_ok t1); [apply write_risk_touches|done|exact Hc].
  - apply bind_ok in H as (t1 & H1 & (l & Hl & H)%bind_ok). destruct (account_settle_funding _ _ _ _) as [a' s] eqn:E.
    apply bind_ok in H as (s' & Hs & H). apply of_ledger_ok in Hs as ->. destruct (settlement_empty s'); [done|].
    apply bind_ok in H as (t2 & Hw & [= <- _]).
    assert (cash_ok t1 a) as Hc by (apply (claimed_ok _ _ _ _ H1 Hj); by apply load_account_ok in Hl as ((? & _) & _)).
    exact (proj1 (proj2 (settlement_paid _ _ _ _ _ _ _ _ _ _ Hl E Hw Hc))).
  - destruct (negb (on_price r)); [done|]. apply bind_ok in H as (t1 & H1 & (l & Hl & H)%bind_ok).
    assert (cash_ok t1 a) as Hc by (apply (claimed_ok _ _ _ _ H1 Hj); by apply load_account_ok in Hl as ((? & _) & _)).
    destruct (positions _ !! i) as [p|]; [|done]. destruct (_ && _); [|done].
    destruct (ld_exit_triggers l !! _); [done|]. injection H as <- _. destruct (held_rows t1 a !! i); [|exact Hc].
    apply (cash_same_ok t1); [apply touches_upsert|done|exact Hc].
Qed.

(** C8. The cash journal adds up. After any sequence of operations of any
    handles on a new ledger, each account's journal starts with the deposit
    of its initial cash, every row's balance is the balance before it plus
    the row's amount, and the cash a load reads is the last balance; an
    account that was never opened has no row. *)
Theorem the_cash_journal_adds_up ops a :
  let t := ops_run ops empty_tables in
  journal_ok t a
  ∧ ∀ l, load_account t a = Ok l → ca_balance_usd <$> last (journal t a) = Some (cash_usd (ld_account l)).
Proof.
  intros t. split; [|intros l Hl; by destruct (load_account_ok _ _ _ Hl) as (_ & _ & Hb & _)]. unfold t. clear t.
  assert (journal_ok empty_tables a) as H by (by right). revert H. generalize empty_tables.
  induction ops as [|op ops IH]; intros t Hj; [done|]. apply IH. destruct (decide (op_account op = a)) as [<-|Hn]; [by apply op_journal|].
  destruct (proj2 (op_touches op t) a ltac:(congruence)) as (Ea & _ & _ & Ec & _).
  unfold journal_ok, cash_ok, journal in *. by rewrite Ea, Ec.
Qed.
End Journal.

(** ** The gate closure keeps the port's contract *)

Lemma plan_result_names plan snap v : names (plan_result plan snap v) = names (pending (plan_order plan snap) None).
Proof. unfold plan_result. destruct (pn_book plan); [apply simulate_names|done]. Qed.
Lemma plan_order_names plan snap : let o := plan_order plan snap in
  o_client_order_id o = o_client_order_id (pn_order plan) ∧ o_instrument o = o_instrument (pn_order plan)
  ∧ o_reduce_only o = o_reduce_only (pn_order plan).
Proof. unfold plan_order. by destruct (pn_close plan). Qed.
Lemma plan_intent_names plan snap : let i := plan_intent plan snap in let o := plan_order plan snap in
  in_account i = l_account (pn_limits plan) ∧ in_instrument i = plan_id plan ∧ in_side i = o_side o ∧ reduce_only i = o_reduce_only o.
Proof. unfold plan_intent. by destruct (o_size (plan_order plan snap)), (plan_ref_px plan snap). Qed.

(** C9. The ledger takes every answer of the gate closure. For a plan made for
    the request (its account, instrument and client order id), what [decide]
    answers on any snapshot passes the store's checks, an order sent exactly
    when the verdict allows it and of the judged instrument, side and flag,
    unless the fill's totals are not finite: that answer is the only one
    refused. *)
Theorem the_ledger_takes_what_decide_answers digest plan req snap :
  l_account (pn_limits plan) = q_account req → plan_id plan = q_instrument req →
  o_client_order_id (pn_order plan) = q_client_order_id req →
  let d := decide_plan digest plan snap in
  match d_outcome d with
  | Denied => check_decision req d = Ok tt ∧ allow (d_verdict d) = false
  | Sent r _ =>
      allow (d_verdict d) = true
      ∧ check_decision req d = (if forallb is_finite [fr_filled_qty r; filled_notional_usd r; fr_fee_usd r] then Ok tt
                                else bail ("fill result of " +:+ q_client_order_id req
                                           +:+ " disagrees with the judged order: non-finite fill numbers"))
  end.
Proof.
  intros Ha Hi Hc d. destruct (decide_spec digest plan snap) as (Hv & Hin & Ho & _). fold d in Hv, Hin, Ho.
  destruct (plan_intent_names plan snap) as (I1 & I2 & I3 & I4). destruct (plan_order_names plan snap) as (O1 & O2 & O3).
  unfold check_decision. rewrite Ho, Hv, Hin, I1, I2, Ha, Hi, !String.eqb_refl. cbn [negb].
  destruct (allow (verdict_of_plan plan snap)); [|done]. split; [done|].
  pose proof (plan_result_names plan snap (verdict_of_plan plan snap)) as Hn. set (r := plan_result _ _ _) in *. clearbody r.
  unfold names in Hn. cbn [pending] in Hn. injection Hn as N1 N2 N3 N4. unfold result_problems.
  rewrite N1, N2, N3, N4, I2, I3, I4, O1, O2, Hc. fold (plan_id plan). rewrite Hi, !String.eqb_refl, bool_decide_true, eqb_reflx by done.
  cbn [negb app]. by destruct (forallb _ _).
Qed.

(** ** Cases *)

Module StoreCases.
(** Doubles as SQLite keeps them: NaN is NULL and a zero has no sign. *)
Definition sample_verdict : RiskVerdict := mkVerdict true "ok" Entry false [] no_headroom [].
#[export] Instance codec : Codec := {|
real x := if is_nan x then None else if is_zero x then Some zero else Some x;
verdict_json v := v_rule v;
verdict_of_json s := Some (mkVerdict (String.eqb s "ok") s Entry false [] no_headroom []);
intent_json i := in_instrument i;
value_json _ := "{}";
value_of_json _ := Some (Object []);
result_json r := fr_client_order_id r;
result_of_json s := Some (pending (mkOrder s (o_instrument ExecCases.order) Buy (SizeQty one) OMarket Ioc None false one None) None);
|}.
#[export] Instance codec_laws : CodecLaws codec.
Proof.
constructor. intros x y. cbn. destruct (is_nan x) eqn:En; [done|]. destruct (is_zero x) eqn:Ez; intros [= <-].
- by rewrite sf_eqb_zero.
- by rewrite eqb_self, En.
Qed.
Definition mine : OwnerCheck := mkOwnerCheck (Some "desk") "ledger.db".
Definition theirs : OwnerCheck := mkOwnerCheck (Some "lab") "ledger.db".
Definition request (fingerprint : string) : PlaceRequest :=
mkRequest "xmarket" "c-1" None "paper_order" None (Some fingerprint) Cases.TSLA None None Cases.NOW.
Definition gate : LedgerSnapshot → Decision := decide_plan ExecCases.digest (ExecCases.plan (FOk false)).
Definition opened : Tables := fst (open_account mine "xmarket" (of_Z 100) (Cases.NOW - HOUR_MS) empty_tables).
Definition later : list StoreOp :=
[OpenAccount theirs "lab" (of_Z 50) Cases.NOW; Place theirs (request "x") gate;
 SettleFunding mine "xmarket" Cases.TSLA None (Cases.NOW + HOUR_MS); TriggerExit mine "xmarket" Cases.TSLA Cases.NOW StopLoss Cases.NOW].
End StoreCases.
Import StoreCases.

Lemma retries_replay_witness :
  match place StoreCases.mine (StoreCases.request "x") StoreCases.gate StoreCases.opened with
  | (t1, Ok p) =>
      let t2 := ops_run StoreCases.later t1 in
      p_replayed p = false ∧ length (t_cash t2) = 3%nat
      ∧ match p_order p with
        | Some o =>
            so_client_order_id o = "c-1"
            ∧ (∃ l, place StoreCases.mine (StoreCases.request "x") StoreCases.gate t2
                 = (t2, Ok (mkPlacement true (p_decision p) (Some o) (ld_account l))))
            ∧ (∃ why, place StoreCases.mine (StoreCases.request "y") StoreCases.gate t2 = (t2, Err (Said why)))
        | None => False
        end
  | _ => False
  end.
Proof.
  assert (match place StoreCases.mine (StoreCases.request "x") StoreCases.gate StoreCases.opened with
          | (t1, Ok p) =>
              let t2 := ops_run StoreCases.later t1 in
              p_replayed p = false ∧ length (t_cash t2) = 3%nat ∧ check_owner t2 "xmarket" StoreCases.mine = Ok t2
              ∧ match p_order p with
                | Some o => so_client_order_id o = "c-1" ∧ conflict o (Some "x") = None ∧ is_some (conflict o (Some "y")) = true
                | None => False
                end
          | _ => False
          end) as H by (vm_compute; repeat split; reflexivity).
  destruct (place StoreCases.mine (StoreCases.request "x") StoreCases.gate StoreCases.opened) as [t1 [p|e]] eqn:E; [|exact H].
  cbv zeta in H |- *. destruct H as (H1 & H2 & H3 & H4). destruct (p_order p) as [o|] eqn:Eo; [|destruct H4].
  destruct H4 as (H5 & Hx & Hy).
  pose proof (λ f, retries_replay_the_stored_order StoreCases.mine (StoreCases.request "x") StoreCases.gate StoreCases.opened t1 p o
    StoreCases.later StoreCases.mine (StoreCases.request f) StoreCases.gate E Eo eq_refl eq_refl H3) as H.
  split; [exact H1|]. split; [exact H2|]. split; [exact H5|]. split.
  - specialize (H "x"). cbn [StoreCases.request q_fingerprint] in H. rewrite Hx in H. destruct H as (l & _ & H). exists l. exact H.
  - specialize (H "y"). cbn [StoreCases.request q_fingerprint] in H. destruct (conflict o (Some "y")) as [why|]; [|discriminate].
    exists why. exact H.
Defined.

Lemma accounts_answer_their_owner_only_witness :
  let ops := [OpenAccount StoreCases.theirs "lab" (of_Z 50) Cases.NOW; Place StoreCases.theirs (StoreCases.request "x") StoreCases.gate;
              UpdateRisk StoreCases.theirs "xmarket" Cases.NOW (λ s, Ok (halt_operator (sn_risk s) Cases.NOW))] in
  snapshot "xmarket" Cases.NOW (ops_run ops StoreCases.opened) = snapshot "xmarket" Cases.NOW StoreCases.opened
  ∧ length (t_cash (ops_run ops StoreCases.opened)) = 2%nat.
Proof.
  intros ops. split; [|vm_compute; reflexivity].
  refine (proj1 (accounts_answer_their_owner_only "xmarket" (mkAccountRow (of_Z 100) (Cases.NOW - HOUR_MS) (Some "desk")) "desk" ops
    StoreCases.opened _ eq_refl _) Cases.NOW).
  - vm_compute. reflexivity.
  - repeat constructor; intros _; exists "lab"; by split.
Defined.

Lemma the_cash_journal_adds_up_witness :
  let t := ops_run (OpenAccount StoreCases.mine "xmarket" (of_Z 100) (Cases.NOW - HOUR_MS)
                    :: Place StoreCases.mine (StoreCases.request "x") StoreCases.gate :: StoreCases.later) empty_tables in
  journal_ok t "xmarket"
  ∧ map (λ c, (ca_kind c, show (ca_amount_usd c), show (ca_balance_usd c))) (journal t "xmarket")
    = [("deposit", "100", "100"); ("fill", "-0.0022325580000000004", "99.997767442")].
Proof.
  intros t. split; [|vm_compute; reflexivity].
  exact (proj1 (the_cash_journal_adds_up (OpenAccount StoreCases.mine "xmarket" (of_Z 100) (Cases.NOW - HOUR_MS)
    :: Place StoreCases.mine (StoreCases.request "x") StoreCases.gate :: StoreCases.later) "xmarket")).
Defined.

Lemma the_ledger_takes_what_decide_answers_witness :
  let d := decide_plan ExecCases.digest (ExecCases.plan (FOk false)) (ExecCases.snap 100 Cases.NOW) in
  let low := decide_plan ExecCases.digest (ExecCases.plan (FOk false)) (ExecCases.snap 50 Cases.NOW) in
  check_decision (StoreCases.request "x") d = Ok tt ∧ check_decision (StoreCases.request "x") low = Ok tt.
Proof.
  intros d low.
  pose proof (the_ledger_takes_what_decide_answers ExecCases.digest (ExecCases.plan (FOk false)) (StoreCases.request "x")
    (ExecCases.snap 100 Cases.NOW) eq_refl eq_refl eq_refl) as H1.
  pose proof (the_ledger_takes_what_decide_answers ExecCases.digest (ExecCases.plan (FOk false)) (StoreCases.request "x")
    (ExecCases.snap 50 Cases.NOW) eq_refl eq_refl eq_refl) as H2.
  cbv zeta in H1, H2. fold d in H1. fold low in H2. split.
  - destruct (d_outcome d) as [|r ex] eqn:E; [exact (proj1 H1)|]. rewrite (proj2 H1).
    assert (match d_outcome d with Sent r _ => forallb is_finite [fr_filled_qty r; filled_notional_usd r; fr_fee_usd r] | Denied => true end = true)
      as Hf by (vm_compute; reflexivity). rewrite E in Hf. rewrite Hf. reflexivity.
  - destruct (d_outcome low) as [|r ex] eqn:E; [exact (proj1 H2)|]. exfalso.
    assert (match d_outcome low with Sent _ _ => false | Denied => true end = true) as Hf by (vm_compute; reflexivity).
    rewrite E in Hf. discriminate.
Defined.
