(* ===== verification/WeekendFade.v ===== *)
(** * The weekend fade ([src/src/domain/xm/weekend_fade.rs])

    The window a fade trades, the prices and signals at its entry, the names of
    the capped ledger, the replay over candles, and the row that follows a
    window until its positions are closed. The platform's logarithm and
    chrono's text of a date are parameters. *)

From Stdlib Require Import Ascii String.
From S2P Require Import Prelude.
From S2P Require Import Text.
From S2P Require Import Tz.
From S2P Require Import Schedule.
From S2P Require Import Sessions.
From S2P Require Import F64.
From S2P Require Import Observation.
From S2P Require Import Book.
From S2P Require Import Ledger.
From S2P Require Import Risk.

#[local] Open Scope string_scope.
#[local] Open Scope list_scope.
#[local] Open Scope Z_scope.

Definition CANDLE_MS : Z := 300000.
Definition FADE_STRATEGY : string := "overreaction".
Definition ENTRY_WAIT_MS : Z := 120000.
Definition MAX_SKIPPED_BREAKS : nat := 8.
Definition LOOKBACK_MS : Z := 31 * DAY_MS.
Definition u64_max : Z := 2 ^ 64 - 1.

Record FadeRule : Type := mkRule {
  capped_top_n : nat;
  min_abs_signal_bps : f64;
}.

(** ** The window *)

Section window.
Context {C : Calendar}.

(** The walk of [is_weekend_break] from [d]; [fuel] days reach the end. *)
Fixpoint weekend_days (fuel : nat) (d end_ : Z) (sat sun : bool) : bool :=
  match fuel with
  | O => sat && sun
  | S fuel =>
      match (next ← succ_opt d; if next <? end_ then Some next else None) with
      | Some next => weekend_days fuel next end_ (sat || (weekday next =? SAT)) (sun || (weekday next =? SUN))
      | None => sat && sun
      end
  end.
Definition is_weekend_break (w : WeekendWindow) : bool :=
  weekend_days (Z.to_nat (wk_next_trading_day w - last_trading_day w)) (last_trading_day w) (wk_next_trading_day w) false false.

Fixpoint fade_loop (n : nat) (cal : ExchangeCalendar) (t : Z) : option WeekendWindow :=
  match n with
  | O => None
  | S n =>
      w ← weekend_window cal t;
      if is_weekend_break w then Some w else fade_loop n cal (exit_ms w)
  end.
Definition fade_window (cal : ExchangeCalendar) (now_ms : Z) : option WeekendWindow := fade_loop (S MAX_SKIPPED_BREAKS) cal now_ms.

(** Windows exit on days of their own, so the days looked back are enough. *)
Definition LOOKBACK_TURNS : nat := 40.
Fixpoint previous_loop (fuel : nat) (cal : ExchangeCalendar) (now_ms t : Z) (last : option WeekendWindow) : option WeekendWindow :=
  match fuel with
  | O => last
  | S fuel =>
      match fade_window cal t with
      | Some w => if now_ms <? exit_ms w then last else previous_loop fuel cal now_ms (exit_ms w) (Some w)
      | None => last
      end
  end.
Definition previous_fade_window (cal : ExchangeCalendar) (now_ms : Z) : option WeekendWindow :=
  previous_loop LOOKBACK_TURNS cal now_ms (sat_i64 (now_ms - LOOKBACK_MS)) None.
End window.

Definition capped_order_id (account instrument anchor_date : string) : string :=
  "fade:" +:+ account +:+ ":" +:+ instrument +:+ ":" +:+ anchor_date.
Definition shadow_order_id (shadow_account instrument anchor_date : string) : string :=
  "fade-shadow:" +:+ shadow_account +:+ ":" +:+ instrument +:+ ":" +:+ anchor_date.
Definition fade_attempt_id (id : string) (attempt : Z) : string :=
  if attempt <=? 1 then id else id +:+ ":" +:+ show_Z attempt.

Definition snapshot_deadline_ms (w : WeekendWindow) (lateness_ms : Z) : Z :=
  let half := if lateness_ms / 2 <=? i64_max then lateness_ms / 2 else i64_max in
  sat_i64 (entry_ms w + Z.min ENTRY_WAIT_MS half).

(** ** Prices *)

Inductive PriceSource : Type := SrcMid | SrcMark | SrcClose.
Record PricePoint : Type := mkPoint {
  pp_px : f64;
  pp_at_ms : Z;
  pp_source : PriceSource;
}.
Record CtxRow : Type := mkCtxRow {
  cr_status : ObsStatus;
  cr_observed_at_ms : Z;
  cr_features : Features;
  cr_error : option ReadError;
}.

Definition valid_px (px : f64) : bool := is_finite px && (px >? zero)%f64.

Definition ctx_price_of (features : Features) (key : string) (source : PriceSource) : option (f64 * PriceSource) :=
  v ← features !! key; px ← as_f64 v; if valid_px px then Some (px, source) else None.
Definition ctx_price (features : Features) : option (f64 * PriceSource) :=
  match ctx_price_of features "mid" SrcMid with
  | Some p => Some p
  | None => ctx_price_of features "mark" SrcMark
  end.

Definition price_point (what instrument : string) (row : option CtxRow) (t_ms max_age_ms : Z) (missing : ErrorClass) : Field PricePoint :=
  let field := what +:+ ":" +:+ instrument in
  match row with
  | None => FErr (read_error_new field missing ("no mkt_ctx/1 row within " +:+ show_Z max_age_ms +:+ " ms of the " +:+ what))
  | Some r =>
      if bool_decide (cr_status r = ObsError) then
        FErr (read_error_new field missing
          match cr_error r with None => "row status error" | Some e => class_str (e_class e) +:+ " " +:+ e_message e end)
      else
        match stamp_age_ms t_ms (cr_observed_at_ms r) with
        | None => FErr (read_error_new field missing (future_stamp "mkt_ctx/1 row" (cr_observed_at_ms r) t_ms))
        | Some age =>
            if max_age_ms <? age then
              FErr (read_error_new field missing
                ("stale: mkt_ctx/1 row " +:+ show_Z age +:+ " ms old > " +:+ show_Z max_age_ms +:+ " ms"))
            else
              match ctx_price (cr_features r) with
              | Some (px, source) => FOk (mkPoint px (cr_observed_at_ms r) source)
              | None => FErr (read_error_new field Decode "the mkt_ctx/1 row has no mid or mark > 0")
              end
        end
  end.

(** ** Signals *)

Inductive Skip : Type := Excluded | MissingAnchor | MissingEntry | Stale | MissingExit | Flat.
#[export] Instance Skip_eq_dec : EqDecision Skip.
Proof. solve_decision. Defined.

Record Signal : Type := mkSignal {
  sg_instrument : string;
  sg_anchor_px : f64;
  sg_entry_px : f64;
  s_bps : f64;
  sg_side : Side;
}.

Definition fade_side (s : f64) : option Side :=
  if (s >? zero)%f64 then Some Sell else if (s <? zero)%f64 then Some Buy else None.

(** [f64::total_cmp]: the bits as an integer, the magnitude of a negative
    number turned round. A NaN has no sign here and counts as positive. *)
Definition magnitude (x : f64) : Z :=
  match x with
  | S754_zero _ => 0
  | S754_finite _ m e => (e + 1074) * 2 ^ 52 + Z.pos m
  | S754_infinity _ => 2047 * 2 ^ 52
  | S754_nan => 2047 * 2 ^ 52 + 2 ^ 51
  end.
Definition total_key (x : f64) : Z :=
  match x with
  | S754_zero true | S754_finite true _ _ | S754_infinity true => - magnitude x - 1
  | _ => magnitude x
  end.
Definition total_cmp (x y : f64) : comparison := Z.compare (total_key x) (total_key y).

Definition by_size (a b : Signal) : comparison :=
  cmp_then (total_cmp (SFabs (s_bps b)) (SFabs (s_bps a))) (str_cmp (sg_instrument a) (sg_instrument b)).
Definition select_capped (signals : list Signal) (rule : FadeRule) : list string :=
  let picks := List.filter (λ s, (min_abs_signal_bps rule <=? SFabs (s_bps s))%f64) signals in
  map sg_instrument (take (capped_top_n rule) (sort_by by_size picks)).

(** ** Replay *)

Record Candle : Type := mkCandle {
  cd_t_ms : Z;
  cd_close : f64;
  cd_trades : Z;
}.
Definition close_at (candles : list Candle) (instant_ms : Z) : option f64 :=
  c ← List.find (λ c, cd_t_ms c =? instant_ms - CANDLE_MS) candles;
  if valid_px (cd_close c) then Some (cd_close c) else None.

Record ReplayRow : Type := mkReplayRow {
  rr_instrument : string;
  rr_anchor_px : f64;
  rr_entry_px : f64;
  rr_exit_px : f64;
  rr_s_bps : f64;
  rr_dir : Z;
  gross_bps : f64;
  net_bps : f64;
}.
Record Replay : Type := mkReplay {
  rp_rows : list ReplayRow;
  rp_skipped : gmap string Skip;
  rp_capped : list string;
  mean_net_bps : option f64;
  positive : nat;
}.

(** [x as i8]. *)
Definition as_i8 (x : f64) : Z :=
  if (x <? zero)%f64 then - Z.min 128 (as_u64_sat (- x)%f64) else Z.min 127 (as_u64_sat x).

Section signals.
Context (ln : f64 → f64).

Definition signal_bps (anchor_px entry_px : f64) : option f64 :=
  if valid_px anchor_px && valid_px entry_px then Some (ln (entry_px / anchor_px) * of_Z 10000)%f64 else None.

Definition only_valid (px : option f64) : option f64 := p ← px; if valid_px p then Some p else None.
Definition signal_of (instrument : string) (excluded : bool) (anchor_px entry_px : option f64) : result Skip Signal :=
  if excluded then Err Excluded else
  anchor_px ← from_option Ok (Err MissingAnchor) (only_valid anchor_px);
  entry_px ← from_option Ok (Err MissingEntry) (only_valid entry_px);
  s ← from_option Ok (Err MissingEntry) (signal_bps anchor_px entry_px);
  side ← from_option Ok (Err Flat) (fade_side s);
  Ok (mkSignal instrument anchor_px entry_px s side).

(** One turn of the loop of [replay]. *)
Definition replay_step (window : WeekendWindow) (exclude : gset string) (cost_rt_bps : f64)
    (acc : list ReplayRow * gmap string Skip * list Signal) (entry : string * list Candle) : list ReplayRow * gmap string Skip * list Signal :=
  let '(rows, skipped, signals) := acc in
  let '(id, cs) := entry in
  match signal_of id (bool_decide (id ∈ exclude)) (close_at cs (anchor_ms window)) (close_at cs (entry_ms window)) with
  | Err skip => (rows, <[id := skip]> skipped, signals)
  | Ok s =>
      let signals := signals ++ [s] in
      match close_at cs (exit_ms window) with
      | None => (rows, <[id := MissingExit]> skipped, signals)
      | Some exit_px =>
          let dir := (- signum (s_bps s))%f64 in
          let gross := (dir * ln (exit_px / sg_entry_px s) * of_Z 10000)%f64 in
          (rows ++ [mkReplayRow (sg_instrument s) (sg_anchor_px s) (sg_entry_px s) exit_px (s_bps s) (as_i8 dir) gross (gross - cost_rt_bps)%f64],
           skipped, signals)
      end
  end.
(** [candles]: a [BTreeMap], by its keys in order. *)
Definition replay (candles : list (string * list Candle)) (window : WeekendWindow) (exclude : gset string) (cost_rt_bps : f64)
    (rule : FadeRule) : Replay :=
  let '(rows, skipped, signals) := fold_left (replay_step window exclude cost_rt_bps) candles ([], ∅, []) in
  mkReplay rows skipped (select_capped signals rule)
    match rows with [] => None | _ => Some (sum (map net_bps rows) / of_Z (Z.of_nat (length rows)))%f64 end
    (length (List.filter (λ r, (net_bps r >? zero)%f64) rows)).
End signals.

(** ** The signal row *)

Record FadeSignal : Type := mkFadeSignal {
  fs_anchor_date : string;
  fs_instrument : string;
  fs_anchor_px : f64;
  fs_entry_px : f64;
  fs_s_bps : f64;
  fs_side : Side;
  fs_capped : bool;
  edge_after_costs_bps : f64;
  fs_max_notional_usd : option f64;
}.
Definition SIGNAL_SCHEMA : string := "xm_weekend_signal/1".
Definition signal_subject (s : FadeSignal) : string := fs_anchor_date s +:+ ":" +:+ fs_instrument s.
Definition signal_features (s : FadeSignal) : Features :=
  let f := set_num ∅ "s_bps" (Some (fs_s_bps s)) in
  let f := set_num f "abs_s_bps" (Some (SFabs (fs_s_bps s))) in
  let f := set_str f SIDE_FEATURE (Some (side_str (fs_side s))) in
  let f := set_str f STRATEGY_FEATURE (Some FADE_STRATEGY) in
  let f := set_num f "anchor_px" (Some (fs_anchor_px s)) in
  let f := set_num f "entry_px" (Some (fs_entry_px s)) in
  let f := set_bool f "capped" (Some (fs_capped s)) in
  let f := set_num f EDGE_FEATURE (Some (edge_after_costs_bps s)) in
  set_num f MAX_NOTIONAL_FEATURE (fs_max_notional_usd s).

(** ** The row of a window *)

Inductive FadePhase : Type := Waiting | Entered | MissedEntry | Closing | Closed.
#[export] Instance FadePhase_eq_dec : EqDecision FadePhase.
Proof. solve_decision. Defined.
Definition phase_str (p : FadePhase) : string :=
  match p with
  | Waiting => "waiting" | Entered => "entered" | MissedEntry => "missed_entry" | Closing => "closing" | Closed => "closed"
  end.
Definition has_snapshot (p : FadePhase) : bool := match p with Entered | Closing | Closed => true | _ => false end.

Record FadeOrder : Type := mkFadeOrder {
  fo_instrument : string;
  fo_client_order_id : string;
  fo_status : string;
  fo_rule : option string;
  fo_filled_qty : option f64;
  fo_avg_px : option f64;
  fo_notional_usd : option f64;
  fo_fee_usd : option f64;
  fo_error : option string;
}.
Definition order_filled (o : FadeOrder) : bool := match fo_filled_qty o with Some q => (q >? zero)%f64 | None => false end.
Definition order_failed (o : FadeOrder) : bool := negb (String.eqb (fo_status o) "filled" || String.eqb (fo_status o) "flat").
Definition order_why (o : FadeOrder) : string :=
  let why := match fo_error o with Some e => e | None => default "" (fo_rule o) end in
  fo_instrument o +:+ " " +:+ fo_status o +:+ " " +:+ why.

(** What a ledger holds of a name; the code keeps the two as fields side by side. *)
Record LedgerSide : Type := mkLedgerSide {
  base_usd : f64;
  ls_order : option FadeOrder;
  ls_qty : option f64;
  pnl_usd : option f64;
  ls_pnl_bps : option f64;
}.
Record FadeName : Type := mkFadeName {
  fn_instrument : string;
  fn_anchor : Field PricePoint;
  fn_entry : Field PricePoint;
  fn_s_bps : option f64;
  fn_side : option Side;
  fn_skip : option Skip;
  fn_capped : bool;
  shadow_side : LedgerSide;
  capped_side : LedgerSide;
}.
Definition no_side : LedgerSide := mkLedgerSide zero None None None None.

Definition at_entry (ln : f64 → f64) (instrument : string) (excluded : bool) (anchor entry : Field PricePoint) : FadeName :=
  let signal := signal_of ln instrument excluded (pp_px <$> value anchor) (pp_px <$> value entry) in
  let '(s, side, skip) :=
    match signal with
    | Ok s => (Some (s_bps s), Some (sg_side s), None)
    | Err Flat => (Some zero, None, Some Flat)
    | Err skip => (None, None, Some skip)
    end in
  mkFadeName instrument anchor entry s side skip false no_side no_side.
Definition name_signal (n : FadeName) : option Signal :=
  a ← value (fn_anchor n); e ← value (fn_entry n); s ← fn_s_bps n; side ← fn_side n;
  Some (mkSignal (fn_instrument n) (pp_px a) (pp_px e) s side).

Definition position_net_usd (position : option Position) : f64 :=
  match position with Some p => (realized_pnl p - fees_paid p - funding_paid p)%f64 | None => zero end.

Record WeekendFade : Type := mkFade {
  wf_anchor_date : string;
  wf_phase : FadePhase;
  wf_window : WeekendWindow;
  wf_account : string;
  wf_shadow_account : string;
  n_universe : Z;
  n_excluded : Z;
  entered_at_ms : option Z;
  wf_names : list FadeName;
  shadow_exits : list FadeOrder;
  late_s : option Z;
  lateness_max_s : Z;
  wf_ts_ms : Z;
}.
Definition WEEKEND_SCHEMA : string := "xm_weekend/1".

(** [anchor_date]: chrono's [%Y-%m-%d] of the last trading day. *)
Definition fade_new (date_text : Z → string) (phase : FadePhase) (window : WeekendWindow) (account shadow_account : string)
    (n_universe n_excluded lateness_max_s now_ms : Z) : WeekendFade :=
  mkFade (date_text (last_trading_day window)) phase window account shadow_account n_universe n_excluded None [] [] None
    lateness_max_s now_ms.

Definition names_count (w : WeekendFade) (f : FadeName → bool) : nat := length (List.filter f (wf_names w)).
Definition skipped_count (w : WeekendFade) (skip : Skip) : nat := names_count w (λ n, bool_decide (fn_skip n = Some skip)).
Definition n_eligible (w : WeekendFade) : nat := names_count w (λ n, negb (is_some (fn_skip n))).
Definition complete (w : WeekendFade) : bool :=
  let deadline := snapshot_deadline_ms (wf_window w) (Z.min (lateness_max_s w * 1000) u64_max) in
  (skipped_count w Stale =? 0)%nat || match entered_at_ms w with Some t => deadline <=? t | None => false end.
Definition n_capped (w : WeekendFade) : nat := names_count w fn_capped.

Definition side_of (capped : bool) (n : FadeName) : LedgerSide := if capped then capped_side n else shadow_side n.
Definition fade_orders (w : WeekendFade) (capped : bool) : list FadeOrder := omap (λ n, ls_order (side_of capped n)) (wf_names w).
Definition n_filled (w : WeekendFade) (capped : bool) : nat := length (List.filter order_filled (fade_orders w capped)).
Definition n_failed (w : WeekendFade) (capped : bool) : nat := length (List.filter order_failed (fade_orders w capped)).
Definition n_open (w : WeekendFade) (capped : bool) : nat :=
  names_count w (λ n, match ls_qty (side_of capped n) with Some q => negb (q =? zero)%f64 | None => false end).

Definition fade_pnl (w : WeekendFade) (capped : bool) : option (f64 * f64 * nat) :=
  let rows := omap (λ n, usd ← pnl_usd (side_of capped n); bps ← ls_pnl_bps (side_of capped n); Some (usd, bps)) (wf_names w) in
  match rows with
  | [] => None
  | _ => Some (sum (map fst rows), (sum (map snd rows) / of_Z (Z.of_nat (length rows)))%f64, length rows)
  end.
Definition next_entry_s (w : WeekendFade) : Z := Z.max (entry_ms (wf_window w) - wf_ts_ms w) 0 / 1000.

(** ** Refreshing a window *)

(** The position a fade of a name holds in a ledger: what the row keeps of it,
    and whether it is settled. An order that filled nothing keeps its row. *)
Definition refresh_side (after_exit : bool) (instrument : string) (ledger : PaperAccount) (s : LedgerSide) : LedgerSide * bool :=
  match (o ← ls_order s; if order_filled o then Some o else None) with
  | None => (s, true)
  | Some order =>
      let position := positions ledger !! instrument in
      let qty := match position with Some p => qty p | None => zero end in
      let flat := match position with Some p => is_flat p | None => true end in
      let settled := match position with Some p => is_settled p | None => true end in
      let pnl :=
        if after_exit && settled then
          let usd := (position_net_usd position - base_usd s)%f64 in
          Some (usd, (notional ← (x ← fo_notional_usd order; if (x >? zero)%f64 then Some x else None);
                      Some (usd / notional * of_Z 10000)%f64))
        else None in
      (mkLedgerSide (base_usd s) (ls_order s) (Some (if flat then zero else qty)) (fst <$> pnl) (p ← pnl; snd p), settled)
  end.
Definition refresh_name (after_exit : bool) (shadow capped : PaperAccount) (n : FadeName) : FadeName * bool :=
  let '(s, s_done) := refresh_side after_exit (fn_instrument n) shadow (shadow_side n) in
  let '(c, c_done) := refresh_side after_exit (fn_instrument n) capped (capped_side n) in
  (mkFadeName (fn_instrument n) (fn_anchor n) (fn_entry n) (fn_s_bps n) (fn_side n) (fn_skip n) (fn_capped n) s c, s_done && c_done).
Definition with_refreshed (w : WeekendFade) (phase : FadePhase) (names : list FadeName) (now_ms : Z) : WeekendFade :=
  mkFade (wf_anchor_date w) phase (wf_window w) (wf_account w) (wf_shadow_account w) (n_universe w) (n_excluded w)
    (entered_at_ms w) names (shadow_exits w) (late_s w) (lateness_max_s w) now_ms.
Definition refresh (w : WeekendFade) (shadow capped : PaperAccount) (now_ms : Z) : WeekendFade :=
  if negb (has_snapshot (wf_phase w)) then with_refreshed w (wf_phase w) (wf_names w) now_ms
  else
    let after_exit := exit_ms (wf_window w) <=? now_ms in
    let read := map (refresh_name after_exit shadow capped) (wf_names w) in
    let open := negb (forallb snd read) in
    let phase := if after_exit then (if open then Closing else Closed) else wf_phase w in
    with_refreshed w phase (map fst read) now_ms.

(** ** What the row says *)

Definition fade_features (w : WeekendFade) : Features :=
  let win := wf_window w in
  let int f k n := set_int f k (Some (Z.of_nat n)) in
  let f := set_str ∅ "phase" (Some (phase_str (wf_phase w))) in
  let f := set_int f "closed_days" (Some (closed_days win)) in
  let f := set_int f "anchor_ms" (Some (anchor_ms win)) in
  let f := set_int f "entry_ms" (Some (entry_ms win)) in
  let f := set_int f "exit_ms" (Some (exit_ms win)) in
  let f := if bool_decide (wf_phase w = Waiting) then set_int f "next_entry_s" (Some (next_entry_s w)) else f in
  let f := set_int f "n_universe" (Some (n_universe w)) in
  let f := set_int f "n_excluded" (Some (n_excluded w)) in
  let f := set_int f "late_s" (late_s w) in
  let f :=
    if has_snapshot (wf_phase w) then
      fold_left (λ f '(key, n), int f key n)
        [("n_eligible", n_eligible w); ("n_missing_anchor", skipped_count w MissingAnchor);
         ("n_missing_entry", skipped_count w MissingEntry); ("n_stale", skipped_count w Stale); ("n_flat", skipped_count w Flat);
         ("n_capped", n_capped w); ("n_capped_filled", n_filled w true); ("n_capped_failed", n_failed w true);
         ("n_shadow_filled", n_filled w false); ("n_shadow_failed", n_failed w false); ("n_capped_open", n_open w true);
         ("n_shadow_open", n_open w false)] f
    else f in
  let f :=
    match shadow_exits w with
    | [] => f
    | exits => int (int f "n_shadow_exits" (length exits)) "n_shadow_exits_failed" (length (List.filter order_failed exits))
    end in
  if bool_decide (wf_phase w = Closed) then
    fold_left (λ f '(label, pnl),
      match pnl with
      | Some (usd, bps, _) => set_num (set_num f (label +:+ "_pnl_usd") (Some usd)) (label +:+ "_mean_net_bps") (Some bps)
      | None => f
      end) [("shadow", fade_pnl w false); ("capped", fade_pnl w true)] f
  else f.

Definition skip_error (w : WeekendFade) (skip : Skip) (field : string) (class : ErrorClass) (what : string) : list ReadError :=
  match map fn_instrument (List.filter (λ n, bool_decide (fn_skip n = Some skip)) (wf_names w)) with
  | [] => []
  | ids => [read_error_new field class (show_Z (Z.of_nat (length ids)) +:+ " names " +:+ what +:+ ": " +:+ String.concat ", " ids)]
  end.
Definition orders_error (field label : string) (orders : list FadeOrder) : list ReadError :=
  match map order_why (List.filter order_failed orders) with
  | [] => []
  | failed =>
      [read_error_new field NotApplicable
         (show_Z (Z.of_nat (length failed)) +:+ " " +:+ label +:+ " not filled in full: " +:+ String.concat "; " failed)]
  end.
Definition missed_error (w : WeekendFade) : list ReadError :=
  if bool_decide (wf_phase w = MissedEntry) then
    [read_error_new "entry" NotApplicable
       ("missed_entry: no entry snapshot within entry_lateness_max_secs " +:+ show_Z (lateness_max_s w)
        +:+ " of the entry instant (now " +:+ show_Z (default 0 (late_s w))
        +:+ " s after it) — no call came in time, or no name had both prices; no late entry")]
  else [].
Definition fade_errors (w : WeekendFade) : list ReadError :=
  let '(stale_class, stale_what) :=
    if complete w then (NotApplicable, "left out stale (no fresh entry row by the snapshot's deadline)")
    else (Transient, "without a fresh entry row yet (no snapshot kept until they have one, or the deadline)") in
  missed_error w
  ++ skip_error w MissingAnchor "anchor" NotApplicable "without a recorded anchor price"
  ++ skip_error w MissingEntry "entry" Transient "without a fresh entry price"
  ++ skip_error w Stale "entry" stale_class stale_what
  ++ orders_error "capped" "capped fades" (fade_orders w true)
  ++ orders_error "shadow" "shadow fades" (fade_orders w false)
  ++ orders_error "shadow_exit" "shadow exits" (shadow_exits w).

Definition fade_status (w : WeekendFade) : ObsStatus :=
  if bool_decide (wf_phase w = Entered) && ((n_eligible w =? 0)%nat || negb (complete w)) then ObsError
  else match fade_errors w with [] => ObsOk | _ => ObsPartial end.
