(* ===== verification/WeekendFadeProps.v ===== *)
(** * The weekend fade: its window, its picks, its end

    The window is the next break with a weekend in it, and the previous one the
    last that has ended; the capped names are the largest signals; a refreshed
    row closes when every position a fade opened is settled. *)

From Stdlib Require Import Ascii String.
From S2P Require Import Prelude.
From S2P Require Import Text.
From S2P Require Import Tz.
From S2P Require Import TzProps.
From S2P Require Import Schedule.
From S2P Require Import Sessions.
From S2P Require Import F64.
From S2P Require Import F64Facts.
From S2P Require Import Observation.
From S2P Require Import Book.
From S2P Require Import Ledger.
From S2P Require Import Risk.
From S2P Require Import WeekendFade.

#[local] Open Scope string_scope.
#[local] Open Scope list_scope.
#[local] Open Scope Z_scope.

(** ** Weekend breaks *)

(** A Saturday and a Sunday lie between two days. *)
Definition weekend_between (l e : Z) : Prop :=
  (∃ x, l < x < e ∧ weekday x = SAT) ∧ (∃ x, l < x < e ∧ weekday x = SUN).
Definition weekend_break (c : ExchangeCalendar) (l e : Z) : Prop := is_break c l e ∧ weekend_between l e.

Section windows.
Context {C : Calendar} {L : CalendarLaws C}.

Lemma weekend_days_spec fuel d end_ sat sun : end_ - d ≤ Z.of_nat fuel → (∀ x, d < x < end_ → date_ok x = true) →
  weekend_days fuel d end_ sat sun = true ↔
  (sat = true ∨ ∃ x, d < x < end_ ∧ weekday x = SAT) ∧ (sun = true ∨ ∃ x, d < x < end_ ∧ weekday x = SUN).
Proof.
  assert (∀ b (P : Z → Prop) d e, e ≤ d + 1 → b = true ↔ b = true ∨ ∃ x, d < x < e ∧ P x) as Hnone.
  { intros b P d0 e Hle. split; [by left|]. intros [|(x & Hx & _)]; [done|lia]. }
  revert d sat sun. induction fuel as [|fuel IH]; intros d sat sun Hf Hok; cbn [weekend_days].
  { rewrite andb_true_iff, <- !Hnone by lia. done. }
  destruct (decide (d + 1 < end_)) as [Hlt|Hge].
  - unfold succ_opt. rewrite Hok by lia. cbn [mbind option_bind]. rewrite (proj2 (Z.ltb_lt _ _) Hlt).
    rewrite IH by (try lia; intros; apply Hok; lia). rewrite !orb_true_iff, !Z.eqb_eq.
    assert (∀ b w, (b = true ∨ weekday (d + 1) = w) ∨ (∃ x, d + 1 < x < end_ ∧ weekday x = w) ↔
      b = true ∨ ∃ x, d < x < end_ ∧ weekday x = w) as Hw.
    { intros b w. split.
      - intros [[|H]|(x & Hx & H)]; [by left|right; exists (d + 1); split; [lia|done]|right; exists x; split; [lia|done]].
      - intros [|(x & Hx & H)]; [by left; left|]. destruct (decide (x = d + 1)) as [->|]; [by left; right|].
        right. exists x. split; [lia|done]. }
    by rewrite !Hw.
  - assert ((next ← succ_opt d; if next <? end_ then Some next else None) = None) as ->.
    { unfold succ_opt. destruct (date_ok (d + 1)); [|done]. cbn [mbind option_bind]. by rewrite (proj2 (Z.ltb_ge _ _)) by lia. }
    rewrite andb_true_iff, <- !Hnone by lia. done.
Qed.

Lemma is_weekend_break_spec c times l e : l < e → (∀ x, l < x < e → settled x) →
  is_weekend_break (the_window c times l e) = true ↔ weekend_between l e.
Proof.
  intros Hle Hset. unfold is_weekend_break, the_window, window_of. cbn [wk_next_trading_day last_trading_day].
  rewrite weekend_days_spec; [|lia|intros; by apply settled_date, Hset]. unfold weekend_between. split.
  - intros [[|Ha] [|Hb]]; done.
  - intros [Ha Hb]. split; by right.
Qed.

Lemma break_short c lo hi l e : trades_within c lo hi → lo ≤ e - 31 ≤ hi → is_break c l e → e - 31 ≤ l.
Proof.
  intros Hr He (_ & _ & Hlong & Hnone). destruct (Hr (e - 31) He) as (k & Hk & Ht). apply Z.nlt_ge. intros Hlt.
  rewrite Hnone in Ht by lia. done.
Qed.

(** The break around the next Saturday. *)
Lemma weekend_ahead c today : trades_within c (today - 31) (today + 72) →
  (∀ d, -199 ≤ d - today ≤ 199 → settled d) →
  ∃ s l e, today ≤ s ≤ today + 6 ∧ l < s ∧ s + 1 < e ≤ today + 36 ∧ weekend_break c l e.
Proof.
  intros Hr Hset. destruct (saturday_ahead c today) as (s & Hs & Hsat & Hsun & Hs1 & Hs2).
  assert (today - 31 ≤ s ≤ today + 72) as Hin by lia.
  destruct (trades_first c _ _ s Hr Hin) as (e & He & Hte & Hnone).
  assert (s ≠ e) by congruence. assert (s + 1 ≠ e) by congruence.
  assert (today - 31 ≤ e - 31 ≤ today + 72) as Hin' by lia.
  destruct (Hr (e - 31) Hin') as (k & Hk & Htk).
  destruct (prev_trading_some c e (31 - k)) as [l Hl].
  - lia.
  - by replace (e - (31 - k)) with (e - 31 + k) by lia.
  - intros j Hj. apply settled_date, Hset. lia.
  - assert (is_break c l e) as Hb by (apply break_before; [done|done|apply Hnone; lia]).
    pose proof Hb as (Htl & _). assert (l < s).
    { apply Z.nle_gt. intros Hsl. apply prev_trading_spec in Hl as (Hlt & _). rewrite Hnone in Htl by lia. done. }
    exists s, l, e. split; [lia|]. split; [done|]. split; [lia|]. split; [done|].
    split; [exists s|exists (s + 1)]; (split; [lia|done]).
Qed.

(** What [fade_window] answers: the first break with a weekend whose exit is
    still to come. *)
Definition clock (c : ExchangeCalendar) (l e : Z) : WeekendWindow := the_window c DEFAULT_TIMES l e.
Definition next_weekend (c : ExchangeCalendar) (t : Z) (w : WeekendWindow) : Prop :=
  ∃ l e, weekend_break c l e ∧ w = clock c l e ∧ t < exit_ms w
    ∧ local_date (x_zone c) t ≤ e ≤ local_date (x_zone c) t + 36
    ∧ ∀ l' e', weekend_break c l' e' → settled e' → t < exit_ms (clock c l' e') → e ≤ e'.

Lemma exit_increasing c l e l' e' : settled e → settled e' → e < e' → exit_ms (clock c l e) < exit_ms (clock c l' e').
Proof. intros He He' Hlt. cbn. by apply clock_increasing. Qed.
Lemma exit_date c l e : settled e → local_date (x_zone c) (exit_ms (clock c l e)) = e ∧ civil (exit_ms (clock c l e)).
Proof. intros He. cbn. by apply clock_date. Qed.

(** Instants with a century of the calendar around them. *)
Definition mid_era (t : Z) : Prop := 110 ≤ year_of (t / DAY_MS) ≤ 9890.
Lemma mid_era_era t : mid_era t → era (t / DAY_MS).
Proof. unfold mid_era, era. lia. Qed.
Lemma era_near z t t' a : civil t → civil t' → a + 8 ≤ year_of (t / DAY_MS) ≤ 9991 - a → 1 ≤ a →
  -150 ≤ local_date z t' - local_date z t ≤ 150 → a ≤ year_of (t' / DAY_MS) ≤ 9999 - a.
Proof.
  intros Ht Ht' Hy Ha He. destruct (date_of_local z t Ht) as (j & Hj & Et). destruct (date_of_local z t' Ht') as (k & Hk & Ee).
  replace (t' / DAY_MS) with (t / DAY_MS + (t' / DAY_MS - t / DAY_MS)) by lia.
  assert (Z.abs (t' / DAY_MS - t / DAY_MS) ≤ 20 * Z.of_nat 8) as Hsmall by lia.
  assert (1 + Z.of_nat 8 ≤ year_of (t / DAY_MS) ≤ 9999 - Z.of_nat 8) as Hy8 by lia.
  pose proof (year_far 8 _ _ Hy8 Hsmall). lia.
Qed.
Lemma exit_era c t l e : mid_era t → -150 ≤ e - local_date (x_zone c) t ≤ 150 →
  era (exit_ms (clock c l e) / DAY_MS) ∧ local_date (x_zone c) (exit_ms (clock c l e)) = e.
Proof.
  intros Ht He. pose proof (mid_era_era t Ht) as Hera.
  assert (settled e) as Hs by (replace e with (local_date (x_zone c) t + (e - local_date (x_zone c) t)) by lia;
    apply near_settled; [done|lia]).
  destruct (exit_date c l e Hs) as [Hd Hc]. split; [|done].
  unfold mid_era in Ht. pose proof (era_near (x_zone c) t (exit_ms (clock c l e)) 100) as H. rewrite Hd in H.
  unfold era. destruct H; try done; [by apply era_civil|lia|lia].
Qed.
End windows.

Section next_window.
Context {C : Calendar} {L : CalendarLaws C}.
Context (c : ExchangeCalendar) (t0 : Z).
#[local] Abbreviation today := (local_date (x_zone c) t0).
Context (Ht0 : mid_era t0) (Hreach : trades_within c (today - 31) (today + 72)).

Lemma close_settled d : -199 ≤ d - today ≤ 199 → settled d.
Proof using L Ht0. intros Hd. replace d with (today + (d - today)) by lia. apply near_settled; [by apply mid_era_era|done]. Qed.

Lemma later_exit l e l' e' : settled e → settled e' → exit_ms (clock c l e) < exit_ms (clock c l' e') → e < e'.
Proof using L.
  intros He He' Hx. apply Z.nle_gt. intros Hle. destruct (decide (e = e')) as [->|]; [cbn in Hx; lia|].
  pose proof (exit_increasing c l' e' l e He' He ltac:(lia)). lia.
Qed.

Lemma weekend_window_first t : era (t / DAY_MS) → today ≤ local_date (x_zone c) t ≤ today + 6 →
  ∃ w, weekend_window c t = Some w ∧ first_left c DEFAULT_TIMES t w.
Proof using All.
  intros Ht Hd. apply weekend_window_is_the_first_break_left; [done|done|].
  intros d Hin. apply Hreach. lia.
Qed.

Lemma fade_loop_finds n t b s lT eT :
  era (t / DAY_MS) → today ≤ local_date (x_zone c) t ≤ today + 6 →
  weekend_break c lT eT → lT < s → today ≤ s ≤ today + 6 → s < eT ≤ today + 36 → t < exit_ms (clock c lT eT) →
  (∀ l e, is_break c l e → settled e → t < exit_ms (clock c l e) → b < e) → b < s → s - b < Z.of_nat n →
  ∃ l e, fade_loop n c t = Some (clock c l e) ∧ weekend_break c l e ∧ t < exit_ms (clock c l e)
    ∧ local_date (x_zone c) t ≤ e ≤ eT
    ∧ ∀ l' e', weekend_break c l' e' → settled e' → t < exit_ms (clock c l' e') → e ≤ e'.
Proof using All.
  revert t b. induction n as [|n IH]; intros t b Hera Hd HT HlT Hs HeT Hx Hb Hbs Hn; [lia|].
  destruct (weekend_window_first t Hera Hd) as (w & Hw & l & e & Hbr & -> & Hxe & Hde & Hleast).
  assert (settled eT) as HsT by (apply close_settled; lia). pose proof (Hleast lT eT (proj1 HT) HsT Hx) as HeeT.
  assert (∀ d, e - 31 ≤ d ≤ e → settled d) as Hset by (intros d Hin; apply close_settled; lia).
  assert (today - 31 ≤ e - 31 ≤ today + 72) as Hin by lia. pose proof (break_short c _ _ l e Hreach Hin Hbr) as Hshort. clear Hin. pose proof Hbr as (_ & Hte & Hlong & _).
  cbn [fade_loop]. rewrite Hw. cbn [mbind option_bind].
  assert (l < e) as Hlt by lia. assert (∀ x, l < x < e → settled x) as Hin by (intros; apply Hset; lia).
  pose proof (is_weekend_break_spec c DEFAULT_TIMES l e Hlt Hin) as Hspec. clear Hin.
  destruct (is_weekend_break (the_window c DEFAULT_TIMES l e)) eqn:Hwk.
  { exists l, e. split; [done|]. split; [split; [done|by apply Hspec]|]. split; [done|]. split; [lia|].
    intros l' e' [Hbr' _]. by apply Hleast. }
  assert (∀ l', ¬ weekend_break c l' e) as Hno.
  { intros l' [Hbr' Hw']. rewrite (break_unique c l' l e Hbr' Hbr) in Hw'. apply Hspec in Hw'. congruence. }
  assert (e < s) as Hes.
  { assert (e ≠ eT) by (intros ->; by apply (Hno lT)). apply Z.nle_gt. intros Hse.
    destruct HT as [(_ & _ & _ & Hnone) _]. rewrite Hnone in Hte by lia. done. }
  assert (-150 ≤ e - today ≤ 150) as Hin by lia. destruct (exit_era c t0 l e Ht0 Hin) as [Hera' Hdate']. clear Hin.
  assert (settled e) as Hse by (apply Hset; lia).
  destruct (IH (exit_ms (clock c l e)) e) as (l2 & e2 & Hres & Hbr2 & Hx2 & Hd2 & Hmin2); try done.
  - rewrite Hdate'. lia.
  - apply exit_increasing; [done|apply close_settled; lia|lia].
  - intros l' e' _ Hs' Hx'. by apply (later_exit l e l' e').
  - pose proof (Hb l e Hbr Hse Hxe). lia.
  - exists l2, e2. split; [exact Hres|]. split; [done|]. change (t < exit_ms (clock c l e)) in Hxe. split; [lia|]. split; [lia|].
    intros l' e' Hwk' Hs' Hx'. apply (Hmin2 l'); [done|done|].
    pose proof (Hleast l' e' (proj1 Hwk') Hs' Hx'). assert (e ≠ e') by (intros ->; by apply (Hno l')).
    apply exit_increasing; [done|done|lia].
Qed.

Lemma fade_window_finds : ∃ w, fade_window c t0 = Some w ∧ next_weekend c t0 w.
Proof using All.
  pose proof (mid_era_era t0 Ht0) as Hera.
  destruct (weekend_ahead c today Hreach close_settled) as (s & lT & eT & Hs & HlT & HeT & HT).
  assert (∀ l e, settled e → today < e → t0 < exit_ms (clock c l e)) as Hafter.
  { intros l e He Hlt. cbn. by apply clock_after; [apply era_civil| | |]. }
  destruct (fade_loop_finds (S MAX_SKIPPED_BREAKS) t0 (today - 1) s lT eT) as (l & e & Hres & Hbr & Hx & Hd & Hmin); try done; try lia.
  - apply Hafter; [apply close_settled; lia|lia].
  - intros l e _ He Hx. enough (today ≤ e) by lia.
    apply (clock_not_before c t0 e (tm_exit DEFAULT_TIMES)); [by apply era_civil|done|done|exact Hx].
  - unfold MAX_SKIPPED_BREAKS. lia.
  - exists (clock c l e). split; [exact Hres|]. exists l, e. split; [done|]. split; [done|]. split; [done|]. split; [lia|done].
Qed.
End next_window.

(** ** The previous window *)

Section previous.
Context {C : Calendar} {L : CalendarLaws C}.
Context (c : ExchangeCalendar) (now : Z).
#[local] Abbreviation back := (now - LOOKBACK_MS).
#[local] Abbreviation day0 := (local_date (x_zone c) back).
Context (Hback : 120 ≤ year_of (back / DAY_MS) ≤ 9879) (Hreach : trades_within c (day0 - 31) (day0 + 110)).

(** The windows between two instants. *)
Definition ended_between (from to l e : Z) : Prop :=
  weekend_break c l e ∧ settled e ∧ from < exit_ms (clock c l e) ≤ to.

Lemma previous_loop_spec fuel t b last :
  civil t → day0 ≤ local_date (x_zone c) t ≤ day0 + 34 →
  (∀ l e, weekend_break c l e → settled e → t < exit_ms (clock c l e) → b < e) → local_date (x_zone c) now ≤ day0 + 34 → civil now →
  local_date (x_zone c) now - b < Z.of_nat fuel → b ≤ local_date (x_zone c) now →
  (previous_loop fuel c now t last = last ∧ ∀ l e, ¬ ended_between t now l e)
  ∨ ∃ l e, previous_loop fuel c now t last = Some (clock c l e) ∧ ended_between t now l e
      ∧ ∀ l' e', ended_between t now l' e' → e' ≤ e.
Proof using All.
  revert t b last. induction fuel as [|fuel IH]; intros t b last Hct Hd Hb Hnow Hciv Hf Hbn; [lia|].
  cbn [previous_loop].
  assert (mid_era t) as Ht.
  { pose proof (era_near (x_zone c) back t 110) as H. unfold mid_era. destruct H; try done; [unfold civil; lia|lia|lia|lia]. }
  destruct (fade_window_finds c t Ht) as (w & Hw & l & e & Hbr & -> & Hx & Hde & Hmin); [intros d Hin; apply Hreach; lia|].
  rewrite Hw. assert (settled e) as Hse by (apply (close_settled c t Ht); lia).
  destruct (Z.ltb_spec now (exit_ms (clock c l e))) as [Hlt|Hge].
  { left. split; [done|]. intros l' e' (Hbr' & Hs' & Hx'). specialize (Hmin l' e' Hbr' Hs' ltac:(lia)).
    destruct (decide (e = e')) as [<-|]; [cbn in *; lia|].
    assert (e < e') as Hlt' by lia. pose proof (exit_increasing c l e l' e' Hse Hs' Hlt'). lia. }
  destruct (exit_date c l e Hse) as [Hxd Hxc]. pose proof (Hb l e Hbr Hse Hx) as Hbe.
  assert (e ≤ local_date (x_zone c) now) as Hen by (rewrite <- Hxd; by apply local_date_mono).
  destruct (IH (exit_ms (clock c l e)) e (Some (clock c l e))) as [[Hres Hnone]|(l2 & e2 & Hres & (Hbr2 & Hs2 & Hx2) & Hmax)]; try done.
  - rewrite Hxd. lia.
  - intros l' e' _ Hs' Hx'. by apply (later_exit c l e l' e').
  - lia.
  - right. exists l, e. split; [done|]. split; [by split_and!|]. intros l' e' Hend. pose proof Hend as (Hbr' & Hs' & Hx').
    apply Z.nlt_ge. intros Hlt. apply (Hnone l' e'). split; [done|]. split; [done|].
    split; [by apply exit_increasing|lia].
  - right. exists l2, e2. split; [done|]. split; [split; [done|split; [done|lia]]|]. intros l' e' Hend. pose proof Hend as (Hbr' & Hs' & Hx').
    destruct (decide (e < e')) as [Hlt|].
    + apply (Hmax l'). split; [done|]. split; [done|]. split; [by apply exit_increasing|lia].
    + assert (e < e2) by (apply (later_exit c l e l2 e2); [done|done|lia]). lia.
Qed.

Lemma now_near : civil now ∧ day0 ≤ local_date (x_zone c) now ≤ day0 + 33 ∧ mid_era now.
Proof using Hback L.
  assert (civil back) as Hcb by (unfold civil; lia).
  assert (now / DAY_MS = back / DAY_MS + 31) as Hday.
  { replace now with (back + 31 * DAY_MS) at 1 by (unfold LOOKBACK_MS; lia). apply Z.div_add. unfold DAY_MS. lia. }
  assert (1 + Z.of_nat 2 ≤ year_of (back / DAY_MS) ≤ 9999 - Z.of_nat 2) as Hy by lia.
  assert (Z.abs 31 ≤ 20 * Z.of_nat 2) as H31 by lia. pose proof (year_far 2 _ 31 Hy H31) as Hyn. rewrite <- Hday in Hyn.
  assert (civil now) as Hcn by (unfold civil; lia).
  destruct (date_of_local (x_zone c) back Hcb) as (j & Hj & Ej). destruct (date_of_local (x_zone c) now Hcn) as (k & Hk & Ek).
  split; [done|]. split; [lia|]. unfold mid_era. lia.
Qed.

Lemma previous_finds : in_i64 back = true →
  match previous_fade_window c now with
  | None => ∀ l e, ¬ ended_between back now l e
  | Some w => ∃ l e, w = clock c l e ∧ ended_between back now l e ∧ ∀ l' e', ended_between back now l' e' → e' ≤ e
  end.
Proof using All.
  intros Hin. apply andb_true_iff in Hin as [Hlo%Z.leb_le Hhi%Z.leb_le].
  assert (civil back) as Hcb by (unfold civil; lia). destruct now_near as (Hcn & Hday & _).
  assert (back < now) as Hlt by (unfold LOOKBACK_MS, DAY_MS; lia).
  unfold previous_fade_window, sat_i64. rewrite (Z.min_r i64_max back Hhi), (Z.max_r i64_min back Hlo).
  destruct (previous_loop_spec LOOKBACK_TURNS back (day0 - 1) None) as [[-> Hnone]|(l & e & -> & Hend & Hmax)]; try done; try lia.
  - intros l e _ He Hx. enough (day0 ≤ e) by lia.
    apply (clock_not_before c back e (tm_exit DEFAULT_TIMES)); [done|done|done|exact Hx].
  - unfold LOOKBACK_TURNS. lia.
  - exists l, e. done.
Qed.

(** C11. The window a fade trades is the first break with a Saturday and a
    Sunday in it whose exit is still to come, whatever single holidays come
    before it; the previous window is the last such break that has ended in the
    31 days before, if one has. Both walks end within the source's bounds
    wherever the calendar trades once in any 31 days. *)
Theorem fade_windows_are_the_weekends : in_i64 back = true →
  (∃ w, fade_window c now = Some w ∧ next_weekend c now w)
  ∧ match previous_fade_window c now with
    | None => ∀ l e, ¬ ended_between back now l e
    | Some w => ∃ l e, w = clock c l e ∧ ended_between back now l e ∧ ∀ l' e', ended_between back now l' e' → e' ≤ e
    end.
Proof using All.
  intros Hin. split; [|by apply previous_finds]. destruct now_near as (Hcn & Hday & Hmid).
  apply fade_window_finds; [done|]. intros d Hd. apply Hreach. lia.
Qed.
End previous.

Lemma trades_within_check c lo hi :
  forallb (λ d, existsb (λ k, is_trading_day c (d + k)) (seqZ 0 31)) (seqZ lo (hi - lo + 1)) = true → trades_within c lo hi.
Proof.
  intros H d Hd. rewrite forallb_forall in H. assert (In d (seqZ lo (hi - lo + 1))) as Hin.
  { apply list_elem_of_In, elem_of_seqZ. lia. }
  apply H, existsb_exists in Hin as (k & Hk & Ht). exists k. split; [|done].
  apply list_elem_of_In, elem_of_seqZ in Hk. lia.
Qed.

(** ** The capped names *)

Lemma flip_pre {A} (c : A → A → comparison) : PreCmp c → PreCmp (λ x y, c y x).
Proof. intros P. split; [intros; apply cmp_flip|]. intros x y z Hxy Hyz. by apply (cmp_trans (c := c) z y x). Qed.
#[export] Instance by_size_pre : PreCmp by_size.
Proof.
  apply (cmp_then_pre (λ a b, total_cmp (SFabs (s_bps b)) (SFabs (s_bps a))) (cmp_on sg_instrument str_cmp)); [|apply _].
  apply (flip_pre (cmp_on (λ s, total_key (SFabs (s_bps s))) Z.compare)), _.
Qed.

Lemma valid_mantissa s m e : valid (S754_finite s m e) = true → Z.pos m < 2 ^ 53 ∧ -1074 ≤ e ≤ 971 ∧ (e = -1074 ∨ 2 ^ 52 ≤ Z.pos m).
Proof.
  intros (H & He & Hmax)%valid_finite. rewrite fexp_eq in H. rewrite emin_eq in He. unfold prec in H.
  destruct (Z.log2_spec (Z.pos m) ltac:(lia)) as [Hlo Hhi].
  assert (Z.log2 (Z.pos m) < 53) by lia. split; [|split; [lia|]].
  - eapply Z.lt_le_trans; [exact Hhi|]. apply Z.pow_le_mono_r; lia.
  - destruct (decide (e = -1074)) as [|Hne]; [by left|right]. assert (Z.log2 (Z.pos m) = 52) as E by lia. by rewrite E in Hlo.
Qed.

Lemma total_key_abs x : total_key (SFabs x) = magnitude (SFabs x).
Proof. by destruct x. Qed.

(** On absolute values [total_cmp] is the order of the numbers. *)
Lemma total_cmp_abs x y : valid x = true → valid y = true → is_nan x = false → is_nan y = false →
  total_cmp (SFabs x) (SFabs y) = match SFcompare (SFabs x) (SFabs y) with Some c => c | None => Eq end.
Proof.
  unfold total_cmp. rewrite !total_key_abs.
  destruct x as [sx|sx| |sx m e], y as [sy|sy| |sy m' e']; try done; cbn [SFabs magnitude is_nan]; intros Hx Hy _ _;
    try (apply valid_mantissa in Hx as (Hm & He & Hn)); try (apply valid_mantissa in Hy as (Hm' & He' & Hn')); cbn [SFcompare];
    first [apply Z.compare_lt_iff; lia|apply Z.compare_gt_iff; lia|idtac].
  destruct (Z.compare_spec e e') as [->|Hlt|Hlt].
  - change (Pos.compare_cont Eq m m') with (Z.pos m ?= Z.pos m'). apply Z.add_compare_mono_l.
  - apply Z.compare_lt_iff. lia.
  - apply Z.compare_gt_iff. lia.
Qed.

(** The signals the rule lets in. *)
Definition qualifies (rule : FadeRule) (s : Signal) : bool := (min_abs_signal_bps rule <=? SFabs (s_bps s))%f64.
(** [a] goes before [b]: a larger move, or the same and the smaller id. *)
Definition larger (a b : Signal) : Prop :=
  (SFabs (s_bps b) <? SFabs (s_bps a))%f64 = true
  ∨ (SFabs (s_bps a) =? SFabs (s_bps b))%f64 = true ∧ str_cmp (sg_instrument a) (sg_instrument b) = Lt.

Lemma compare_abs_some x y : is_nan x = false → is_nan y = false → SFcompare (SFabs x) (SFabs y) ≠ None.
Proof.
  destruct x as [?|?| |? m e], y as [?|?| |? m' e']; done.
Qed.

Lemma by_size_larger a b : valid (s_bps a) = true → valid (s_bps b) = true → is_nan (s_bps a) = false → is_nan (s_bps b) = false →
  sg_instrument a ≠ sg_instrument b → by_size a b ≠ Gt → larger a b.
Proof.
  intros Ha Hb Hna Hnb Hne. unfold by_size, larger. rewrite total_cmp_abs by done.
  assert (str_cmp (sg_instrument a) (sg_instrument b) ≠ Eq) as Hstr by (intros E; apply Hne; by apply (cmp_eq (c := str_cmp))).
  unfold SFltb, SFeqb.
  destruct (SFcompare (SFabs (s_bps b)) (SFabs (s_bps a))) as [[]|] eqn:E; cbn.
  - intros H. right. split; [apply eqb_sym; unfold SFeqb; by rewrite E|]. by destruct (str_cmp _ _).
  - by left.
  - done.
  - by destruct (compare_abs_some (s_bps b) (s_bps a)).
Qed.

Lemma qualifies_numbers rule s : qualifies rule s = true → is_nan (s_bps s) = false.
Proof. unfold qualifies. intros [_ H]%leb_nan_l. by destruct (s_bps s). Qed.

(** A name stands for one signal. *)
Lemma names_same signals a b : NoDup (map sg_instrument signals) → a ∈ signals → b ∈ signals → sg_instrument a = sg_instrument b → a = b.
Proof.
  intros Hnd Ha Hb E. apply list_elem_of_lookup in Ha as [i Hi], Hb as [j Hj].
  assert (i = j) as ->; [|congruence]. eapply NoDup_lookup; [exact Hnd| |]; rewrite list_lookup_fmap.
  - by rewrite Hi.
  - rewrite Hj. cbn. by rewrite E.
Qed.

Section picks.
Context (rule : FadeRule) (signals : list Signal).
Context (Hnames : NoDup (map sg_instrument signals)) (Hvalid : Forall (λ s, valid (s_bps s) = true) signals).
#[local] Abbreviation allowed := (List.filter (qualifies rule) signals).
#[local] Abbreviation ranked := (sort_by by_size allowed).

Lemma ranked_elem s : s ∈ ranked ↔ s ∈ signals ∧ qualifies rule s = true.
Proof using. rewrite sort_by_perm. rewrite list_elem_of_In, filter_In, <- list_elem_of_In. done. Qed.

Lemma signals_nodup : NoDup signals.
Proof using Hnames. by eapply NoDup_fmap_1. Qed.
Lemma ranked_nodup : NoDup ranked.
Proof using Hnames.
  rewrite sort_by_perm. apply NoDup_ListNoDup, List.NoDup_filter, NoDup_ListNoDup, signals_nodup.
Qed.

Lemma ranked_sorted : StronglySorted larger ranked.
Proof using All.
  pose proof (sort_by_sorted by_size allowed) as Hs. pose proof ranked_nodup as Hnd.
  assert (∀ s, s ∈ ranked → s ∈ signals ∧ qualifies rule s = true) as Hin by (intros s; apply ranked_elem).
  revert Hs Hnd Hin. generalize ranked. induction 1 as [|s l Hl IH Hs]; intros Hnd Hin; [constructor|].
  apply NoDup_cons in Hnd as [Hni Hnd]. constructor; [apply IH; [done|]; intros x Hx; apply Hin; by right|].
  apply Forall_forall. intros x Hx. rewrite Forall_forall in Hs, Hvalid.
  destruct (Hin s) as [Hss Hqs]; [by left|]. destruct (Hin x) as [Hxs Hqx]; [by right|].
  apply by_size_larger; [by apply Hvalid|by apply Hvalid|by eapply qualifies_numbers..| |by apply Hs].
  intros E. assert (s = x) as -> by by apply (names_same signals). done.
Qed.

(** C12. The capped ledger takes as many names as its rule allows, each a
    signal of at least the rule's size, the largest moves first and ties by id;
    every signal left out is smaller than every one taken; and the choice does
    not depend on the order the signals came in. *)
Theorem capped_names_are_the_largest : ∃ chosen,
  select_capped signals rule = map sg_instrument chosen
  ∧ NoDup chosen ∧ length chosen = Nat.min (capped_top_n rule) (length allowed)
  ∧ (∀ s, s ∈ chosen → s ∈ signals ∧ qualifies rule s = true)
  ∧ StronglySorted larger chosen
  ∧ (∀ p s, p ∈ chosen → s ∈ signals → qualifies rule s = true → s ∉ chosen → larger p s)
  ∧ ∀ signals', signals' ≡ₚ signals → select_capped signals' rule = select_capped signals rule.
Proof using All.
  exists (take (capped_top_n rule) ranked). pose proof ranked_sorted as Hsorted. pose proof ranked_nodup as Hnd.
  split; [done|]. split.
  { rewrite <- (take_drop (capped_top_n rule) ranked) in Hnd. by apply NoDup_app in Hnd as (H & _). }
  split.
  { rewrite length_take. by rewrite (Permutation_length (sort_by_perm by_size allowed)). }
  split.
  { intros s Hs. apply ranked_elem. rewrite <- (take_drop (capped_top_n rule) ranked). apply elem_of_app. by left. }
  rewrite <- (take_drop (capped_top_n rule) ranked) in Hsorted. apply (StronglySorted_app larger) in Hsorted as (Hlarger & Htake & _).
  split; [done|]. split.
  - intros p s Hp Hs Hq Hout. apply Hlarger; [done|]. assert (s ∈ ranked) as Hin by by apply ranked_elem.
    rewrite <- (take_drop (capped_top_n rule) ranked) in Hin. by apply elem_of_app in Hin as [|].
  - intros signals' Hp. unfold select_capped. do 2 f_equal. symmetry. apply sort_by_canonical; [apply _| |].
    + intros x y [Hx _]%list_elem_of_In%filter_In [Hy _]%list_elem_of_In%filter_In E. apply list_elem_of_In in Hx, Hy. apply (names_same signals); [done..|].
      unfold by_size in E. destruct (total_cmp _ _); try done. by apply (cmp_eq (c := str_cmp)).
    + symmetry. by apply filter_perm.
Qed.
End picks.

(** ** Refreshing *)

Definition filled_order (s : LedgerSide) : option FadeOrder := o ← ls_order s; if order_filled o then Some o else None.
Definition settled_in (ledger : PaperAccount) (instrument : string) : bool :=
  match positions ledger !! instrument with Some p => is_settled p | None => true end.

Lemma refresh_side_spec after i ledger s :
  let '(s', done_) := refresh_side after i ledger s in
  filled_order s' = filled_order s ∧ done_ = (negb (is_some (filled_order s)) || settled_in ledger i)
  ∧ (filled_order s ≠ None → pnl_usd s' =
      if after && settled_in ledger i then Some (position_net_usd (positions ledger !! i) - base_usd s)%f64 else None)
  ∧ base_usd s' = base_usd s ∧ refresh_side after i ledger s' = (s', done_).
Proof.
  unfold refresh_side. fold (filled_order s). destruct (filled_order s) as [o|] eqn:Ho.
  - unfold filled_order in *. cbn [ls_order]. rewrite Ho. split; [done|]. split; [done|]. split; [|done].
    intros _. cbn [pnl_usd]. fold (settled_in ledger i). by destruct (after && settled_in ledger i).
  - split; [done|]. split; [done|]. split; [done|]. split; [done|]. fold (filled_order s). by rewrite Ho.
Qed.

Definition ledger_of (shadow capped : PaperAccount) (b : bool) : PaperAccount := if b then capped else shadow.

Lemma refresh_name_spec after shadow capped n :
  let '(n', done_) := refresh_name after shadow capped n in
  fn_instrument n' = fn_instrument n ∧ refresh_name after shadow capped n' = (n', done_)
  ∧ (done_ = true ↔ ∀ b, filled_order (side_of b n) ≠ None → settled_in (ledger_of shadow capped b) (fn_instrument n) = true)
  ∧ ∀ b, filled_order (side_of b n') ≠ None → pnl_usd (side_of b n') =
      if after && settled_in (ledger_of shadow capped b) (fn_instrument n)
      then Some (position_net_usd (positions (ledger_of shadow capped b) !! fn_instrument n) - base_usd (side_of b n'))%f64 else None.
Proof.
  unfold refresh_name.
  pose proof (refresh_side_spec after (fn_instrument n) shadow (shadow_side n)) as H1.
  pose proof (refresh_side_spec after (fn_instrument n) capped (capped_side n)) as H2.
  destruct (refresh_side after _ shadow _) as [s d1]. destruct (refresh_side after _ capped _) as [k d2].
  destruct H1 as (F1 & D1 & P1 & B1 & R1), H2 as (F2 & D2 & P2 & B2 & R2).
  cbn [fn_instrument shadow_side capped_side]. split; [done|]. split; [by rewrite R1, R2|]. split.
  - rewrite andb_true_iff, D1, D2, !orb_true_iff. split.
    + intros [Hs Hc] [] Hf; cbn [side_of ledger_of] in *; [destruct Hc as [E|]|destruct Hs as [E|]]; try done;
        match type of E with context [is_some ?o] => destruct o; done end.
    + intros H. pose proof (H false) as Hs. pose proof (H true) as Hc. cbn [side_of ledger_of] in *.
      split; [destruct (filled_order (shadow_side n)); [right; by apply Hs|by left]|destruct (filled_order (capped_side n)); [right; by apply Hc|by left]].
  - intros [] Hf; cbn [side_of ledger_of capped_side shadow_side] in *; [rewrite B2; apply P2; by rewrite <- F2|rewrite B1; apply P1; by rewrite <- F1].
Qed.

(** After its exit a refreshed window is closed exactly when every position its
    fades opened is settled, and only then does a name show its result; before
    it the phase stays. Reading the same ledgers again changes nothing. *)
Theorem windows_close_when_their_fades_are_settled w shadow capped now :
  has_snapshot (wf_phase w) = true →
  let w' := refresh w shadow capped now in
  (if exit_ms (wf_window w) <=? now then
     (wf_phase w' = Closed ∨ wf_phase w' = Closing)
     ∧ (wf_phase w' = Closed ↔ ∀ n b, n ∈ wf_names w → filled_order (side_of b n) ≠ None →
          settled_in (ledger_of shadow capped b) (fn_instrument n) = true)
   else wf_phase w' = wf_phase w)
  ∧ (∀ n b, n ∈ wf_names w' → filled_order (side_of b n) ≠ None → pnl_usd (side_of b n) =
       if (exit_ms (wf_window w) <=? now) && settled_in (ledger_of shadow capped b) (fn_instrument n)
       then Some (position_net_usd (positions (ledger_of shadow capped b) !! fn_instrument n) - base_usd (side_of b n))%f64 else None)
  ∧ refresh w' shadow capped now = w'.
Proof.
  intros Hp w'. unfold w', refresh. rewrite Hp. cbn [negb with_refreshed wf_phase wf_names wf_window].
  set (after := exit_ms (wf_window w) <=? now). set (f := refresh_name after shadow capped).
  assert (∀ n, f (fst (f n)) = f n ∧ fn_instrument (fst (f n)) = fn_instrument n) as Hf.
  { intros n. pose proof (refresh_name_spec after shadow capped n) as H. unfold f. destruct (refresh_name _ _ _ n) as [n' d]. cbn. tauto. }
  assert (map f (map fst (map f (wf_names w))) = map f (wf_names w)) as Hagain.
  { rewrite !map_map. apply map_ext. intros n. apply Hf. }
  split; [|split].
  - destruct after; [|done]. split; [destruct (forallb _ _); [by left|by right]|].
    assert (forallb snd (map f (wf_names w)) = true ↔ ∀ n b, n ∈ wf_names w → filled_order (side_of b n) ≠ None →
      settled_in (ledger_of shadow capped b) (fn_instrument n) = true) as <-.
    { rewrite forallb_forall. split.
      - intros H n b Hn. pose proof (refresh_name_spec true shadow capped n) as Hs.
        specialize (H (f n) ltac:(apply in_map; by apply list_elem_of_In)). unfold f in H.
        destruct (refresh_name _ _ _ n) as [n' d]. cbn in H. apply Hs. done.
      - intros H x Hx. apply List.in_map_iff in Hx as (n & <- & Hn%list_elem_of_In). pose proof (refresh_name_spec true shadow capped n) as Hs. unfold f.
        destruct (refresh_name _ _ _ n) as [n' d]. cbn. apply Hs. intros b. by apply H. }
    by destruct (forallb _ _).
  - intros n b (x & -> & Hx)%list_elem_of_fmap. apply list_elem_of_fmap in Hx as (n0 & -> & Hn0).
    pose proof (refresh_name_spec after shadow capped n0) as Hs. unfold f. destruct (refresh_name _ _ _ n0) as [n' d]. cbn.
    destruct Hs as (Hi & _ & _ & Hpnl). rewrite Hi. apply Hpnl.
  - fold after. fold f. rewrite Hagain.
    destruct after; [|by rewrite Hp]. by destruct (forallb snd (map f (wf_names w))).
Qed.

(** ** Concrete windows, signals and ledgers *)

Module FadeSamples.
#[local] Existing Instance gregorian.
(** The New York calendar with the holidays of the tests in the source. *)
Definition nyse : ExchangeCalendar :=
mkExchange NewYork (9 * 60 + 30) (16 * 60) (Some (4 * 60)) (Some (20 * 60)) true (Some (13 * 60)) (Some (17 * 60))
  {[ 20783; 20812; 20819; 20836 ]} {[ 20784; 20811 ]}.
(** 2026-09-25 12:00, 2026-11-25 12:00, 2026-09-28 08:59 and 09:00, 2027-01-17 12:00 in New York. *)
Definition friday : Z := 1790352000000.
Definition thanksgiving_eve : Z := 1795626000000.
Definition monday : Z := 1790600400000.
Definition mlk_sunday : Z := 1800205200000.
Definition spans (w : option WeekendWindow) : option (Z * Z * Z * Z) :=
(λ w, (closed_days w, anchor_ms w, entry_ms w, exit_ms w)) <$> w.

Definition signal (name : string) (bps : Z) : Signal := mkSignal name one one (of_Z bps) (if bps <? 0 then Buy else Sell).
Definition signals : list Signal := [signal "b" 80; signal "a" (-80); signal "c" 20; signal "d" 300].
Definition rule : FadeRule := mkRule 2 (of_Z 50).

Definition filled (name : string) : FadeOrder :=
mkFadeOrder name ("fade:main:" +:+ name +:+ ":2026-09-25") "filled" None (Some (of_Z 1)) (Some (of_Z 100)) (Some (of_Z 100)) None None.
Definition name_row (name : string) : FadeName :=
mkFadeName name FAbsent FAbsent (Some (of_Z 80)) (Some Sell) None true no_side (mkLedgerSide zero (Some (filled name)) None None None).
Definition position (q realized : Z) : Position :=
mkPosition "b" "b" "hyperliquid" (of_Z q) (if q =? 0 then None else Some (of_Z 100)) (of_Z realized) (of_Z 1) zero None None [].
Definition ledger (q : Z) : PaperAccount := mkAccount "main" (of_Z 1000) (of_Z 1000) {[ "b" := position q 9 ]}.
Definition row : WeekendFade :=
mkFade "2026-09-25" Entered (clock nyse 20721 20724) "main" "shadow" 1 0 (Some friday) [name_row "b"] [] None 600 friday.
End FadeSamples.

Example fade_windows :
  FadeSamples.spans (fade_window (C := gregorian) FadeSamples.nyse FadeSamples.friday) = Some (2, 1790380800000, 1790546400000, 1790600400000)
  ∧ (closed_days <$> weekend_window (C := gregorian) FadeSamples.nyse FadeSamples.thanksgiving_eve) = Some 1
  ∧ FadeSamples.spans (fade_window (C := gregorian) FadeSamples.nyse FadeSamples.thanksgiving_eve)
    = Some (2, 1795827600000, 1795993200000, 1796047200000)
  ∧ (closed_days <$> fade_window (C := gregorian) FadeSamples.nyse FadeSamples.mlk_sunday) = Some 3
  ∧ (exit_ms <$> previous_fade_window (C := gregorian) FadeSamples.nyse FadeSamples.monday) = Some FadeSamples.monday
  ∧ (exit_ms <$> previous_fade_window (C := gregorian) FadeSamples.nyse (FadeSamples.monday - 60000)) = Some (FadeSamples.monday - 7 * DAY_MS).
Proof. vm_compute. repeat split; reflexivity. Qed.

Example sessions : map (session (C := gregorian) (Exchange FadeSamples.nyse))
    [FadeSamples.friday; FadeSamples.friday - 151 * 60000; FadeSamples.friday + 240 * 60000; FadeSamples.friday + 480 * 60000;
     FadeSamples.thanksgiving_eve + 48 * HOUR_MS + 60 * 60000; FadeSamples.thanksgiving_eve + 24 * HOUR_MS + 8 * HOUR_MS]
  = [Sessions.Open; Pre; Post; Sessions.Closed; Post; Overnight].
Proof. vm_compute. reflexivity. Qed.

Example refreshed :
  wf_phase (refresh FadeSamples.row (FadeSamples.ledger 0) (FadeSamples.ledger (-1)) FadeSamples.monday) = Closing
  ∧ wf_phase (refresh FadeSamples.row (FadeSamples.ledger 0) (FadeSamples.ledger 0) FadeSamples.monday) = Closed
  ∧ map (λ n, pnl_usd (capped_side n)) (wf_names (refresh FadeSamples.row (FadeSamples.ledger 0) (FadeSamples.ledger 0) FadeSamples.monday))
    = [Some (of_Z 8)].
Proof. vm_compute. repeat split; reflexivity. Qed.

Lemma fade_windows_are_the_weekends_witness :
  local_date (C := gregorian) NewYork (FadeSamples.monday - LOOKBACK_MS) = 20693
  ∧ ∃ w, fade_window (C := gregorian) FadeSamples.nyse FadeSamples.monday = Some w
      ∧ next_weekend (C := gregorian) FadeSamples.nyse FadeSamples.monday w.
Proof.
  split; [vm_compute; reflexivity|].
  destruct (fade_windows_are_the_weekends (C := gregorian) (L := gregorian_laws) FadeSamples.nyse FadeSamples.monday) as [H _].
  - vm_compute. split; discriminate.
  - apply trades_within_check. vm_compute. reflexivity.
  - vm_compute. reflexivity.
  - exact H.
Defined.

Lemma capped_names_are_the_largest_witness :
  select_capped FadeSamples.signals FadeSamples.rule = ["d"; "a"]
  ∧ ∃ chosen, select_capped FadeSamples.signals FadeSamples.rule = map sg_instrument chosen ∧ StronglySorted larger chosen.
Proof.
  split; [vm_compute; reflexivity|].
  destruct (capped_names_are_the_largest FadeSamples.rule FadeSamples.signals) as (chosen & E & _ & _ & _ & Hs & _).
  - apply (bool_decide_unpack _). vm_compute. exact I.
  - repeat constructor.
  - exists chosen. split; [exact E|exact Hs].
Defined.

Lemma windows_close_witness :
  has_snapshot (wf_phase FadeSamples.row) = true
  ∧ (let w' := refresh FadeSamples.row (FadeSamples.ledger 0) (FadeSamples.ledger 0) FadeSamples.monday in
     refresh w' (FadeSamples.ledger 0) (FadeSamples.ledger 0) FadeSamples.monday = w').
Proof.
  split; [reflexivity|].
  apply (windows_close_when_their_fades_are_settled FadeSamples.row (FadeSamples.ledger 0) (FadeSamples.ledger 0) FadeSamples.monday).
  reflexivity.
Defined.
