(* ===== verification/PlanProps.v ===== *)
(** * Properties of plans *)

From Stdlib Require Import Ascii String.
From S2P Require Import Prelude.
From S2P Require Import Plan.

#[local] Open Scope list_scope.

(** ** Generic set facts *)

Lemma size_list_to_set_le (l : list string) : size (list_to_set l : gset string) ≤ length l.
Proof.
  induction l as [|x l IH]; cbn [list_to_set length]; [done|].
  rewrite size_union_alt, size_singleton.
  pose proof (subseteq_size (list_to_set l ∖ {[x]} : gset string) (list_to_set l) ltac:(set_solver)). lia.
Qed.

Lemma size_list_to_set_nodup (l : list string) :
  size (list_to_set l : gset string) = length l → NoDup l.
Proof.
  induction l as [|x l IH]; cbn [list_to_set length]; [constructor|].
  pose proof (size_list_to_set_le l). destruct (decide (x ∈ l)) as [Hx|Hx].
  - replace ({[x]} ∪ list_to_set l : gset string) with (list_to_set l : gset string) by set_solver. lia.
  - rewrite size_union, size_singleton by set_solver. intros E. constructor; [done|]. apply IH. lia.
Qed.

(** ** What a runnable plan is *)

Definition ids (plan : Plan) : list StepId := map id plan.

(** Every step after its dependencies, for some ranking of the ids. *)
Definition acyclic (plan : Plan) : Prop :=
  ∃ rank : StepId → nat, ∀ s d, s ∈ plan → d ∈ depends_on s → rank d < rank (id s).

Definition agents_known (known : option (list string)) (plan : Plan) : Prop :=
  ∀ k, known = Some k → ∀ s, s ∈ plan → step_agent s ∈ k.

Definition deps_known (plan : Plan) : Prop := ∀ s d, s ∈ plan → d ∈ depends_on s → d ∈ ids plan.

(** No step names a dependency twice. *)
Definition deps_once (plan : Plan) : Prop := ∀ s, s ∈ plan → NoDup (depends_on s).

Lemma plan_ids_inj (plan : Plan) s s' : NoDup (ids plan) → s ∈ plan → s' ∈ plan → id s = id s' → s = s'.
Proof.
  intros Hn Hs Hs' E. apply list_elem_of_lookup in Hs as [i Hi], Hs' as [j Hj].
  assert (i = j) as ->; [|congruence]. apply (NoDup_lookup _ i j (id s) Hn); unfold ids.
  - change (map id plan) with (id <$> plan). by rewrite list_lookup_fmap, Hi.
  - change (map id plan) with (id <$> plan). by rewrite list_lookup_fmap, Hj, E.
Qed.

Lemma id_in (plan : Plan) s : s ∈ plan → id s ∈ ids plan.
Proof. apply (list_elem_of_fmap_2 id). Qed.

(** ** The checks before the cycle check *)

Lemma find_duplicate_none plan : ∀ seen,
  find_duplicate seen plan = None ↔ NoDup (ids plan) ∧ ∀ x, x ∈ ids plan → x ∉ seen.
Proof.
  induction plan as [|s plan IH]; intros seen; simpl.
  { split; [intros _; split; [constructor|]; intros x Hx; by apply elem_of_nil in Hx|done]. }
  destruct (decide (id s ∈ seen)) as [Hs|Hs].
  - split; [done|]. intros [_ H]. exfalso. apply (H (id s)); [by left|done].
  - rewrite IH, NoDup_cons. split.
    + intros [Hn H]. split; [split; [|done]|].
      * intros Hin. apply (H _ Hin). set_solver.
      * intros x [->|Hx]%elem_of_cons; [done|]. specialize (H x Hx). set_solver.
    + intros [[Hi Hn] H]. split; [done|]. intros x Hx.
      assert (x ∉ seen) by (apply H; by right). assert (x ≠ id s) by (intros ->; done). set_solver.
Qed.

Lemma find_duplicate_some plan : ∀ seen x, find_duplicate seen plan = Some x →
  ∃ l1 s l2, plan = l1 ++ s :: l2 ∧ id s = x ∧ (x ∈ seen ∨ x ∈ ids l1).
Proof.
  induction plan as [|s plan IH]; intros seen x; simpl; [done|].
  destruct (decide (id s ∈ seen)) as [Hs|Hs].
  - intros [= <-]. exists [], s, plan. auto.
  - intros (l1 & s' & l2 & -> & E & H)%IH. exists (s :: l1), s', l2. split; [done|]. split; [done|].
    unfold ids. simpl. rewrite elem_of_cons. set_solver.
Qed.

Lemma find_unknown_agent_spec known plan : 
  match find_unknown_agent known plan with
  | None => ∀ s, s ∈ plan → step_agent s ∈ known
  | Some s => s ∈ plan ∧ step_agent s ∉ known
  end.
Proof.
  unfold find_unknown_agent. assert (H : ∀ s, existsb (λ a, String.eqb a (step_agent s)) known = true
    ↔ step_agent s ∈ known).
  { intros s. rewrite existsb_exists. setoid_rewrite String.eqb_eq. setoid_rewrite list_elem_of_In.
    split; [by intros (? & ? & <-)|eauto]. }
  destruct (List.find _ plan) as [s|] eqn:E.
  - apply List.find_some in E as [Hs E]. apply list_elem_of_In in Hs. split; [done|].
    apply negb_true_iff in E. rewrite <-H, E. done.
  - intros s Hs. apply list_elem_of_In in Hs. pose proof (List.find_none _ _ E _ Hs) as Hn.
    apply negb_false_iff in Hn. by apply H.
Qed.

Lemma find_unknown_dep_spec (known : gset StepId) plan :
  match find_unknown_dep known plan with
  | None => ∀ s d, s ∈ plan → d ∈ depends_on s → d ∈ known
  | Some (x, d) => ∃ s, s ∈ plan ∧ id s = x ∧ d ∈ depends_on s ∧ d ∉ known
  end.
Proof.
  induction plan as [|s plan IH]; simpl.
  { intros s d Hs. by apply elem_of_nil in Hs. }
  destruct (List.find _ (depends_on s)) as [d|] eqn:E.
  - apply List.find_some in E as [Hd E]. apply list_elem_of_In in Hd.
    apply negb_true_iff, bool_decide_eq_false in E. exists s. split_and!; try done. by left.
  - destruct (find_unknown_dep known plan) as [[x d]|].
    + destruct IH as (s' & ? & ?). exists s'. split; [by right|done].
    + intros s' d [->|Hs']%elem_of_cons Hd; [|by eapply IH].
      apply list_elem_of_In in Hd. pose proof (List.find_none _ _ E _ Hd) as Hn. simpl in Hn.
      by apply negb_false_iff, bool_decide_eq_true in Hn.
Qed.

(** ** Kahn's algorithm *)

(** The in-degree of [s] once the steps [R] are removed. *)
Definition left_of (R : gset StepId) (s : Step) : nat :=
  length (depends_on s) - size (list_to_set (depends_on s) ∩ R).

Lemma deps_size R s : size (list_to_set (depends_on s) ∩ R : gset StepId) ≤ length (depends_on s).
Proof.
  etransitivity; [|apply size_list_to_set_le]. apply subseteq_size. set_solver.
Qed.

Lemma left_of_zero R s :
  left_of R s = 0 ↔ NoDup (depends_on s) ∧ ∀ d, d ∈ depends_on s → d ∈ R.
Proof.
  unfold left_of. pose proof (deps_size R s). pose proof (size_list_to_set_le (depends_on s)). split.
  - intros E. assert (Hs : size (list_to_set (depends_on s) ∩ R : gset StepId)
      = size (list_to_set (depends_on s) : gset StepId)).
    { pose proof (subseteq_size (list_to_set (depends_on s) ∩ R : gset StepId) (list_to_set (depends_on s))
        ltac:(set_solver)). lia. }
    split; [apply size_list_to_set_nodup; lia|]. intros d Hd.
    assert (Heq : list_to_set (depends_on s) ∩ R = (list_to_set (depends_on s) : gset StepId)).
    { apply set_subseteq_size_eq; [set_solver|]. lia. }
    assert (d ∈ (list_to_set (depends_on s) : gset StepId)) by (by apply elem_of_list_to_set). set_solver.
  - intros [Hn Hd]. replace (list_to_set (depends_on s) ∩ R : gset StepId)
      with (list_to_set (depends_on s) : gset StepId) by set_solver.
    rewrite size_list_to_set by done. lia.
Qed.

Lemma left_of_remove R s x : x ∉ R →
  if bool_decide (x ∈ depends_on s) then left_of R s = S (left_of ({[x]} ∪ R) s)
  else left_of ({[x]} ∪ R) s = left_of R s.
Proof.
  intros Hx. unfold left_of. pose proof (deps_size ({[x]} ∪ R) s) as Hb.
  case_bool_decide as Hd.
  - assert (E : size (list_to_set (depends_on s) ∩ ({[x]} ∪ R) : gset StepId)
      = S (size (list_to_set (depends_on s) ∩ R : gset StepId))).
    { replace (list_to_set (depends_on s) ∩ ({[x]} ∪ R) : gset StepId)
        with ({[x]} ∪ (list_to_set (depends_on s) ∩ R) : gset StepId) by set_solver.
      by rewrite size_union, size_singleton by set_solver. }
    lia.
  - by replace (list_to_set (depends_on s) ∩ ({[x]} ∪ R) : gset StepId)
      with (list_to_set (depends_on s) ∩ R : gset StepId) by set_solver.
Qed.

Lemma relax_all_spec x (R : gset StepId) l : ∀ m q, x ∉ R → NoDup (ids l) →
  (∀ s, s ∈ l → m !! id s = Some (left_of R s)) →
  ∃ m' new, relax_all x (m, q) l = Some (m', new ++ q)
    ∧ (∀ s, s ∈ l → m' !! id s = Some (left_of ({[x]} ∪ R) s))
    ∧ (∀ y, y ∉ ids l → m' !! y = m !! y)
    ∧ NoDup new
    ∧ ∀ y, y ∈ new ↔ ∃ s, s ∈ l ∧ id s = y ∧ x ∈ depends_on s ∧ left_of ({[x]} ∪ R) s = 0.
Proof.
  induction l as [|s l IH]; intros m q Hx Hn Hm; cbn [relax_all].
  { exists m, []. split; [done|]. split; [intros s Hs; by apply elem_of_nil in Hs|].
    split; [done|]. split; [constructor|].
    intros y. rewrite elem_of_nil. split; [done|]. intros (s & Hs & _). by apply elem_of_nil in Hs. }
  cbn [ids map] in Hn. apply NoDup_cons in Hn as [Hs Hn].
  pose proof (left_of_remove R s x Hx) as Hl.
  assert (Hlater : ∀ m1 : gmap StepId nat, (∀ y, y ≠ id s → m1 !! y = m !! y) → ∀ s', s' ∈ l → m1 !! id s' = Some (left_of R s')).
  { intros m1 H1 s' Hs'. rewrite H1; [apply Hm; by right|]. intros E. apply Hs. rewrite <-E.
    by apply (id_in l). }
  assert (Hms : m !! id s = Some (left_of R s)) by (apply Hm; by left).
  unfold relax. case_bool_decide as Hd.
  - rewrite Hms, Hl. cbn [mbind option_bind].
    set (z := left_of ({[x]} ∪ R) s) in *.
    destruct (IH (<[id s := z]> m) (if (z =? 0)%nat then id s :: q else q) Hx Hn)
      as (m' & new & -> & H1 & H2 & H3 & H4).
    { apply Hlater. intros y Hy. by rewrite lookup_insert_ne. }
    exists m', (if (z =? 0)%nat then new ++ [id s] else new).
    assert (Hnew : id s ∉ new).
    { intros (s' & Hs' & E & _)%H4. apply Hs. rewrite <-E. by apply (id_in l). }
    split_and!.
    + destruct (z =? 0)%nat; [by rewrite <-app_assoc|done].
    + intros s' [->|Hs']%elem_of_cons; [|by apply H1].
      rewrite H2 by done. by rewrite lookup_insert_eq.
    + cbn [ids map]. intros y [Hy Hyl]%not_elem_of_cons. rewrite H2 by done. by rewrite lookup_insert_ne.
    + destruct (z =? 0)%nat; [|done]. apply NoDup_app. split_and!; [done| |apply NoDup_singleton].
      intros y Hy ->%list_elem_of_singleton. done.
    + intros y. transitivity (y ∈ new ∨ (y = id s ∧ z = 0)).
      { destruct (Nat.eqb_spec z 0); [rewrite elem_of_app, list_elem_of_singleton; tauto|tauto]. }
      rewrite H4. split.
      * intros [(s' & Hs' & ?)|[-> Hz]]; [exists s'; split; [by right|done]|].
        exists s. split_and!; try done. by left.
      * intros (s' & [->|Hs']%elem_of_cons & E & Hd' & Hz); [by right|]. left. by exists s'.
  - cbn [mbind option_bind]. destruct (IH m q Hx Hn) as (m' & new & -> & H1 & H2 & H3 & H4).
    { by apply Hlater. }
    exists m', new. split_and!; try done.
    + intros s' [->|Hs']%elem_of_cons; [|by apply H1]. rewrite H2 by done. by rewrite Hms, Hl.
    + cbn [ids map]. intros y [Hy Hyl]%not_elem_of_cons. by rewrite H2.
    + intros y. rewrite H4. split.
      * intros (s' & Hs' & ?). exists s'. split; [by right|done].
      * intros (s' & [->|Hs']%elem_of_cons & E & Hd' & Hz); [done|]. by exists s'.
Qed.

(** The removed steps [R], latest first, come after what they depend on. *)
Fixpoint in_order (plan : Plan) (R : list StepId) : Prop :=
  match R with
  | [] => True
  | x :: R => in_order plan R ∧ ∀ s d, s ∈ plan → id s = x → d ∈ depends_on s → d ∈ R
  end.

Record kahn_inv (plan : Plan) (R : list StepId) (m : gmap StepId nat) (q : list StepId) : Prop := mkKahn {
  k_nodup : NoDup (R ++ q);
  k_ids : ∀ x, x ∈ R ++ q → x ∈ ids plan;
  k_deg : ∀ s, s ∈ plan → m !! id s = Some (left_of (list_to_set R) s);
  k_zero : ∀ s, s ∈ plan → id s ∈ R ++ q ↔ left_of (list_to_set R) s = 0;
  k_order : in_order plan R;
}.

Lemma kahn_step plan R m x q : NoDup (ids plan) → kahn_inv plan R m (x :: q) →
  ∃ m' q', relax_all x (m, q) plan = Some (m', q') ∧ kahn_inv plan (x :: R) m' q'.
Proof.
  intros Hn [Hnd Hid Hdeg Hz Ho].
  assert (Hx : x ∉ (list_to_set R : gset StepId)).
  { rewrite elem_of_list_to_set. apply NoDup_app in Hnd as (_ & H & _). intros Hx. apply (H x Hx). by left. }
  destruct (relax_all_spec x (list_to_set R) plan m q Hx Hn Hdeg) as (m' & new & -> & H1 & _ & H3 & H4).
  exists m', (new ++ q). split; [done|].
  assert (Hnew : ∀ y, y ∈ new → y ∉ R ++ x :: q).
  { intros y (s & Hs & <- & Hd & _)%H4 Hy. apply (Hz s Hs) in Hy.
    pose proof (left_of_remove (list_to_set R) s x Hx) as Hl. rewrite bool_decide_true in Hl by done. lia. }
  assert (Hp : (x :: R) ++ new ++ q ≡ₚ new ++ (R ++ x :: q)).
  { simpl. rewrite <-(Permutation_middle R q x), <-(Permutation_middle new (R ++ q) x).
    constructor. by rewrite !app_assoc, (Permutation_app_comm R new). }
  split.
  - rewrite Hp. apply NoDup_app. split_and!; [done|by apply Hnew|done].
  - intros y. rewrite Hp, elem_of_app. intros [(s & Hs & <- & _)%H4|Hy]; [by apply id_in|by apply Hid].
  - intros s Hs. by rewrite H1.
  - intros s Hs. rewrite Hp, elem_of_app, (Hz s Hs), H4. cbn [list_to_set].
    pose proof (left_of_remove (list_to_set R) s x Hx) as Hl. case_bool_decide as Hd.
    + split; [intros [(s' & Hs' & E & _ & ?)|?]; [|lia]|intros ?; left; by exists s].
      by rewrite <-(plan_ids_inj plan s' s Hn Hs' Hs E).
    + rewrite Hl. split; [intros [(s' & Hs' & E & Hd' & ?)|?]; [|done]|by right].
      rewrite (plan_ids_inj plan s' s Hn Hs' Hs E) in Hd'. done.
  - split; [done|]. intros s d Hs E Hd.
    assert (Hl : left_of (list_to_set R) s = 0).
    { apply Hz; [done|]. rewrite E. apply elem_of_app. right. by left. }
    apply left_of_zero in Hl as [_ Hl]. apply (elem_of_list_to_set (C := gset StepId)), Hl, Hd.
Qed.

Lemma kahn_run plan fuel : ∀ R m q, NoDup (ids plan) → kahn_inv plan R m q →
  length plan ≤ length R + fuel →
  ∃ R' m', kahn plan fuel m q (length R) = Some (m', length R') ∧ kahn_inv plan R' m' [].
Proof.
  assert (Hle : ∀ R m q, kahn_inv plan R m q → length R + length q ≤ length plan).
  { intros R m q [Hnd Hid _ _ _]. rewrite <-length_app, <-(length_map id plan).
    apply submseteq_length, NoDup_submseteq; [done|apply Hid]. }
  induction fuel as [|fuel IH]; intros R m q Hn K Hf; destruct q as [|x q]; cbn [kahn].
  - by exists R, m.
  - specialize (Hle _ _ _ K). simpl in Hle. lia.
  - by exists R, m.
  - destruct (kahn_step _ _ _ _ _ Hn K) as (m' & q' & -> & K'). cbn [mbind option_bind].
    destruct (IH _ _ _ Hn K') as (R' & m'' & E & K''); [simpl; lia|]. exists R', m''. done.
Qed.

Lemma in_degrees_lookup plan s : NoDup (ids plan) → s ∈ plan →
  in_degrees plan !! id s = Some (length (depends_on s)).
Proof.
  unfold in_degrees. generalize (∅ : gmap StepId nat). 
  assert (H : ∀ (l : Plan) (m : gmap StepId nat) x, x ∉ ids l →
    fold_left (λ m s, <[id s:=length (depends_on s)]> m) l m !! x = m !! x).
  { induction l as [|a l IH]; intros m x; simpl; [done|]. intros [? ?]%not_elem_of_cons.
    by rewrite IH, lookup_insert_ne. }
  induction plan as [|a plan IH]; intros m; simpl; [intros _ Hs; by apply elem_of_nil in Hs|].
  intros [Ha Hn]%NoDup_cons [->|Hs]%elem_of_cons; [by rewrite H, lookup_insert_eq|by apply IH].
Qed.

Lemma in_degrees_dom plan x d : in_degrees plan !! x = Some d → x ∈ ids plan.
Proof.
  unfold in_degrees. assert (H : ∀ (l : Plan) (m : gmap StepId nat),
    fold_left (λ m s, <[id s:=length (depends_on s)]> m) l m !! x = Some d →
    m !! x = Some d ∨ x ∈ ids l).
  { induction l as [|a l IH]; intros m; simpl; [by left|]. intros [Hm|?]%IH.
    - destruct (decide (id a = x)) as [->|]; [right; by left|]. rewrite lookup_insert_ne in Hm; auto.
    - right. by right. }
  intros [Hm|?]%H; [by rewrite lookup_empty in Hm|done].
Qed.

Lemma left_of_nil s : left_of (list_to_set []) s = length (depends_on s).
Proof.
  unfold left_of. assert (size (list_to_set (depends_on s) ∩ list_to_set [] : gset StepId) = 0) as ->; [|lia].
  apply size_empty_iff. set_solver.
Qed.

Lemma find_stuck_spec m (f : Step → nat) plan :
  (∀ s, s ∈ plan → m !! id s = Some (f s)) → (∃ s, s ∈ plan ∧ f s ≠ 0) →
  ∃ s, find_stuck m plan = Some s ∧ s ∈ plan ∧ f s ≠ 0.
Proof.
  intros Hm (x & Hx & Hf). induction plan as [|s plan IH]; [by apply elem_of_nil in Hx|].
  simpl. rewrite Hm by by left. cbn [mbind option_bind]. destruct (Nat.ltb_spec 0 (f s)) as [Hl|Hl].
  - exists s. split_and!; [done|by left|lia].
  - apply elem_of_cons in Hx as [->|Hx]; [lia|].
    destruct IH as (s' & ? & ? & ?); [intros y Hy; apply Hm; by right|done|].
    exists s'. split_and!; [done|by right|done].
Qed.

(** The order of [HashMap] iteration: some permutation. *)
Definition any_order (h : list (StepId * nat) → list (StepId * nat)) : Prop := ∀ l, h l ≡ₚ l.

Section kahn.
Context (hash_order : list (StepId * nat) → list (StepId * nat)) (Hh : any_order hash_order).

Lemma kahn_start plan : NoDup (ids plan) →
kahn_inv plan [] (in_degrees plan)
  (map fst (List.filter (λ x, (x.2 =? 0)%nat) (hash_order (map_to_list (in_degrees plan))))).
Proof.
intros Hn. set (m := in_degrees plan).
assert (Hq : ∀ x, x ∈ map fst (List.filter (λ x, (x.2 =? 0)%nat) (hash_order (map_to_list m)))
  ↔ m !! x = Some 0).
{ intros x. rewrite list_elem_of_fmap. setoid_rewrite list_elem_of_In.
  setoid_rewrite List.filter_In. setoid_rewrite <-list_elem_of_In. setoid_rewrite Nat.eqb_eq. split.
  - intros ([k d] & -> & [Hk E]). simpl in *. subst d. rewrite (Hh _) in Hk. by apply elem_of_map_to_list in Hk.
  - intros Hx. exists (x, 0). split; [done|]. rewrite (Hh _). by rewrite elem_of_map_to_list. }
split.
- simpl. assert (Hnd : NoDup (map fst (hash_order (map_to_list m)))).
  { rewrite (Hh _). apply NoDup_fst_map_to_list. }
  clear -Hnd. induction (hash_order (map_to_list m)) as [|[k d] l IH]; simpl in *; [constructor|].
  apply NoDup_cons in Hnd as [Hk Hnd]. destruct (d =? 0)%nat; simpl; [|by apply IH].
  constructor; [|by apply IH]. intros ([k' d'] & -> & Hin)%list_elem_of_fmap. apply Hk.
  apply list_elem_of_In, List.filter_In in Hin as [Hin _]. apply list_elem_of_In in Hin.
  by apply (list_elem_of_fmap_2 fst _ (k', d')).
- intros x Hx%Hq. by apply in_degrees_dom in Hx.
- intros s Hs. unfold m. rewrite in_degrees_lookup by done. by rewrite left_of_nil.
- intros s Hs. simpl. rewrite Hq. unfold m. rewrite in_degrees_lookup by done. rewrite left_of_nil. split; [by intros [= ->]|by intros ->].
- done.
Qed.

(** What the cycle check finds: every step removed, in an order that respects
  the dependencies, or a first step that never becomes free. *)
Lemma find_cycle_spec plan : NoDup (ids plan) →
(∃ R, R ≡ₚ ids plan ∧ in_order plan R ∧ deps_once plan ∧ find_cycle hash_order plan = Some (Ok tt))
∨ (∃ R s, in_order plan R ∧ NoDup R ∧ s ∈ plan ∧ id s ∉ R
    ∧ (∀ s', s' ∈ plan → id s' ∈ R ↔ NoDup (depends_on s') ∧ ∀ d, d ∈ depends_on s' → d ∈ R)
    ∧ find_cycle hash_order plan = Some (Err (Cycle (id s)))).
Proof.
intros Hn. unfold find_cycle.
destruct (kahn_run plan (length plan) [] _ _ Hn (kahn_start plan Hn)) as (R & m & E & [Hnd Hid Hdeg Hz Ho]).
{ simpl. lia. }
simpl length in E. rewrite E. cbn [mbind option_bind]. rewrite app_nil_r in Hnd, Hid.
assert (Hz' : ∀ s, s ∈ plan → id s ∈ R ↔ NoDup (depends_on s) ∧ ∀ d, d ∈ depends_on s → d ∈ R).
{ intros s Hs. rewrite <-(app_nil_r R) at 1. rewrite (Hz s Hs), left_of_zero.
  by setoid_rewrite elem_of_list_to_set. }
destruct (Nat.eqb_spec (length R) (length plan)) as [El|El].
- left. exists R. assert (Hp : R ≡ₚ ids plan).
  { apply submseteq_length_Permutation; [by apply NoDup_submseteq|]. unfold ids. rewrite length_map. lia. }
  split_and!; try done. intros s Hs. apply Hz'; [done|]. rewrite Hp. by apply id_in.
- right. assert (Hex : ∃ s, s ∈ plan ∧ left_of (list_to_set R) s ≠ 0).
  { destruct (decide (Forall (λ s, left_of (list_to_set R) s = 0) plan)) as [Hall|Hall].
    - exfalso. apply El. rewrite Forall_forall in Hall.
      assert (Hp : R ≡ₚ ids plan).
      { apply NoDup_Permutation; [done|done|]. intros x. split; [apply Hid|].
        intros (s & -> & Hs)%list_elem_of_fmap. rewrite <-(app_nil_r R). by apply Hz, Hall. }
      rewrite Hp. unfold ids. by rewrite length_map.
    - apply not_Forall_Exists, Exists_exists in Hall as (s & ? & ?); [eauto|]. intros s. apply _. }
  destruct (find_stuck_spec _ _ _ Hdeg Hex) as (s & -> & Hs & Hr). exists R, s.
  split_and!; try done. intros Hin. apply Hr, Hz; [done|]. by rewrite app_nil_r.
Qed.
End kahn.

Lemma in_order_rank plan R : in_order plan R → NoDup R →
  ∃ rank : StepId → nat, (∀ y, y ∈ R → rank y < length R)
    ∧ ∀ s d, s ∈ plan → id s ∈ R → d ∈ depends_on s → rank d < rank (id s).
Proof.
  induction R as [|x R IH]; simpl.
  { intros _ _. exists (λ _, 0). split; intros; [by apply not_elem_of_nil in H|by apply not_elem_of_nil in H0]. }
  intros [Ho Hx] [Hxr Hn]%NoDup_cons. destruct (IH Ho Hn) as (rank & Hlt & Hr).
  exists (λ y, if decide (y = x) then length R else rank y). split.
  - intros y [->|Hy]%elem_of_cons; [by rewrite decide_True by done; lia|].
    destruct (decide (y = x)); [lia|]. specialize (Hlt y Hy). lia.
  - intros s d Hs Hid Hd. cbv beta. destruct (decide (id s = x)) as [E|E].
    + subst x. assert (HdR : d ∈ R) by (by eapply Hx). destruct (decide (d = id s)) as [->|]; [done|]. by apply Hlt.
    + apply elem_of_cons in Hid as [Hid|Hid]; [done|].
      assert (HdR : d ∈ R).
      { clear -Ho Hid Hs Hd. induction R as [|y R IH]; [by apply not_elem_of_nil in Hid|]. simpl in Ho.
        destruct Ho as [Ho Hy]. destruct (decide (id s = y)) as [E|E]; [right; by apply (Hy s)|].
        apply elem_of_cons in Hid as [Hid|Hid]; [done|]. right. by apply IH. }
      destruct (decide (d = x)) as [->|]; [done|]. by apply Hr.
Qed.

(** On a plan with known, single dependencies, a set of steps closed under
    "all dependencies in it" holds every step of an acyclic plan. *)
Lemma acyclic_reaches_all plan (R : list StepId) :
  acyclic plan → deps_known plan → deps_once plan →
  (∀ s, s ∈ plan → NoDup (depends_on s) → (∀ d, d ∈ depends_on s → d ∈ R) → id s ∈ R) →
  ∀ s, s ∈ plan → id s ∈ R.
Proof.
  intros [rank Hrank] Hk Ho Hr. assert (H : ∀ n s, s ∈ plan → rank (id s) < n → id s ∈ R).
  { induction n as [|n IH]; intros s Hs Hlt; [lia|]. apply Hr; [done|by apply Ho|]. intros d Hd.
    pose proof (Hk s d Hs Hd) as Hd'. apply list_elem_of_fmap in Hd' as (s' & -> & Hs').
    apply IH; [done|]. specialize (Hrank s (id s') Hs Hd). lia. }
  intros s Hs. apply (H (S (rank (id s))) s Hs). lia.
Qed.

Definition runnable (plan : Plan) (known : option (list string)) : Prop :=
  plan ≠ [] ∧ NoDup (ids plan) ∧ agents_known known plan ∧ deps_known plan ∧ deps_once plan ∧ acyclic plan.

(** What each refusal says of the plan. *)
Definition refusal (plan : Plan) (known : option (list string)) (e : PlanError) : Prop :=
  match e with
  | Empty => plan = []
  | DuplicateId x => ∃ l1 s l2, plan = l1 ++ s :: l2 ∧ id s = x ∧ x ∈ ids l1
  | UnknownAgent x name k => NoDup (ids plan) ∧ known = Some k ∧ name ∉ k
      ∧ ∃ s, s ∈ plan ∧ id s = x ∧ step_agent s = name
  | UnknownDependency x d => NoDup (ids plan) ∧ agents_known known plan
      ∧ d ∉ ids plan ∧ ∃ s, s ∈ plan ∧ id s = x ∧ d ∈ depends_on s
  | Cycle x => NoDup (ids plan) ∧ agents_known known plan ∧ deps_known plan
      ∧ ¬ (deps_once plan ∧ acyclic plan) ∧ x ∈ ids plan
  end.

Lemma validate_spec hash_order plan known : any_order hash_order →
  ∃ r, validate hash_order plan known = Some r
    ∧ match r with Ok _ => runnable plan known | Err e => refusal plan known e end.
Proof.
  intros Hh. unfold validate. destruct plan as [|s0 plan0]; [by exists (Err Empty)|].
  set (plan := s0 :: plan0).
  destruct (find_duplicate ∅ plan) as [x|] eqn:Ed.
  { eexists. split; [done|]. apply find_duplicate_some in Ed as (l1 & s & l2 & E & Ex & H).
    exists l1, s, l2. split_and!; try done. set_solver. }
  apply find_duplicate_none in Ed as [Hn _].
  destruct (known ≫= _) as [e|] eqn:Ea.
  { eexists. split; [done|]. destruct known as [k|]; [|done]. cbn [mbind option_bind] in Ea.
    pose proof (find_unknown_agent_spec k plan) as H. destruct (find_unknown_agent k plan) as [s|]; [|done].
    injection Ea as <-. destruct H as [Hs Hk]. cbn [refusal]. split_and!; try done. by exists s. }
  assert (Hag : agents_known known plan).
  { intros k -> s Hs. cbn [mbind option_bind] in Ea. pose proof (find_unknown_agent_spec k plan) as H.
    destruct (find_unknown_agent k plan); [done|]. by apply H. }
  pose proof (find_unknown_dep_spec (list_to_set (map id plan)) plan) as Hu.
  destruct (find_unknown_dep _ plan) as [[x d]|].
  { eexists. split; [done|]. destruct Hu as (s & Hs & E & Hd & Hnot). cbn [refusal]. split_and!; try done; [|by exists s].
    intros Hin. apply Hnot. by apply elem_of_list_to_set. }
  assert (Hk : deps_known plan).
  { intros s d Hs Hd. specialize (Hu s d Hs Hd). by apply elem_of_list_to_set in Hu. }
  destruct (find_cycle_spec hash_order Hh plan Hn) as [(R & Hp & Ho & Honce & ->)|(R & s & Ho & HR & Hs & Hnot & Hz & ->)];
    (eexists; split; [done|]).
  - destruct (in_order_rank plan R Ho) as (rank & _ & Hr); [by rewrite Hp|]. split_and!; try done.
    exists rank. intros s d Hs Hd. apply Hr; [done| |done]. rewrite Hp. by apply id_in.
  - cbn [refusal]. split_and!; try done; [|by apply id_in]. intros [Honce Hac]. apply Hnot.
    apply (acyclic_reaches_all plan); try done. intros s' Hs' H1 H2. by apply Hz.
Qed.

Lemma refusal_not_runnable plan known e : refusal plan known e → ¬ runnable plan known.
Proof.
  intros H (Hne & Hn & Hag & Hk & Honce & Hac). destruct e; simpl in H.
  - done.
  - destruct H as (l1 & s' & l2 & -> & E & Hin). unfold ids in Hn. rewrite map_app in Hn.
    apply NoDup_app in Hn as (_ & Hn & _). apply (Hn _ Hin). rewrite <-E. by left.
  - destruct H as (_ & -> & Hnot & s' & Hs & _ & E). apply Hnot. rewrite <-E. by eapply Hag.
  - destruct H as (_ & _ & Hnot & s' & Hs & _ & Hd). apply Hnot. by eapply Hk.
  - destruct H as (_ & _ & _ & Hnot & _). by apply Hnot.
Qed.


(** [validate] always answers - no counter goes below zero, no lookup or
    [unwrap] panics, the queue empties - and each refusal names a true defect,
    the checks in order: empty, duplicate id, unroutable agent, unknown
    dependency, cycle or repeated dependency. *)
Theorem validate_refuses_for_a_reason hash_order plan known (Hh : any_order hash_order) :
  ∃ r, validate hash_order plan known = Some r
    ∧ ∀ e, r = Err e → refusal plan known e.
Proof.
  destruct (validate_spec hash_order plan known Hh) as (r & E & H). exists r. split; [done|].
  by intros e ->.
Qed.

(** A dependency named twice is taken for a cycle: the in-degree counts
    both, the removal takes off one. A plan that runs [a], then [b] after [a]
    and [a], is refused as cyclic. *)
Theorem repeated_dependency_is_called_a_cycle hash_order (Hh : any_order hash_order) :
  let plan := [mkStep "a" "x" "g" [] None; mkStep "b" "x" "g" ["a"; "a"] None]%string in
  acyclic plan ∧ validate hash_order plan None = Some (Err (Cycle "b"%string)).
Proof.
  split.
  - exists (λ x, if String.eqb x "b" then 1 else 0). intros s d Hs Hd.
    repeat (apply elem_of_cons in Hs as [->|Hs]); [by apply not_elem_of_nil in Hd| |by apply not_elem_of_nil in Hs].
    simpl in Hd. repeat (apply elem_of_cons in Hd as [->|Hd]); [simpl; lia..|by apply not_elem_of_nil in Hd].
  - set (plan := [_; _]).
    destruct (find_cycle_spec hash_order Hh plan) as [(R & _ & _ & Ho & _)|(R & s & _ & _ & Hs & Hnot & Hz & E)].
    + repeat constructor; set_solver.
    + exfalso. specialize (Ho (mkStep "b" "x" "g" ["a"; "a"]%string None) ltac:(set_solver)).
      simpl in Ho. apply NoDup_cons in Ho as [Ho _]. set_solver.
    + change (validate hash_order plan None) with (find_cycle hash_order plan). rewrite E.
      repeat (apply elem_of_cons in Hs as [->|Hs]); [exfalso; apply Hnot|done|by apply not_elem_of_nil in Hs].
      apply Hz; [by left|]. simpl. split; [constructor|]. intros d Hd. by apply not_elem_of_nil in Hd.
Qed.

Definition sample_plan : Plan :=
  [mkStep "read" "fs" "read the notes" [] None; mkStep "search" "web" "find sources" [] None;
   mkStep "write" "author" "write it up" ["read"; "search"] None]%string.


Lemma validate_refuses_witness :
  refusal sample_plan (Some ["fs"; "web"]%string) (UnknownAgent "write" "author" ["fs"; "web"]%string).
Proof.
  destruct (validate_refuses_for_a_reason (λ l, l) sample_plan (Some ["fs"; "web"]%string) (λ l, reflexivity l))
    as (r & E & H).
  apply H. vm_compute in E. injection E as <-. reflexivity.
Defined.

Lemma repeated_dependency_witness :
  validate (λ l, l) [mkStep "a" "x" "g" [] None; mkStep "b" "x" "g" ["a"; "a"] None]%string None
  = Some (Err (Cycle "b"%string)).
Proof. exact (proj2 (repeated_dependency_is_called_a_cycle (λ l, l) (λ l, reflexivity l))). Defined.
