(* ===== verification/Retry.v ===== *)
(** * One step's attempts ([src/src/application/orchestrator/retry.rs],
    [events.rs])

    [run_step_with_retry] calls the worker until an attempt succeeds or no
    next attempt is due. What the worker returns for attempt [n] is the
    parameter [worker n]; what the function does, in order, is the list of
    [Act]s beside its outcome. *)

From Stdlib Require Import Ascii String.
From S2P Require Import Prelude.
From S2P Require Import Backoff.
From S2P Require Import Plan.

#[local] Open Scope list_scope.
#[local] Open Scope Z_scope.

(** [MetricsRecorded] carries a metrics record and is sent by the metrics
    forwarder only; no operation modelled here sends it. *)
Inductive OrchestratorEvent : Type :=
  | PlanCreated (plan : Plan)
  | StepStarted (step_id : StepId) (agent : string)
  | StepFailed (step_id : StepId) (attempt : Z) (error : string) (retry_in_ms : option Z)
  | StepExhausted (step_id : StepId) (final_error : string)
  | StepSucceeded (step_id : StepId) (output : string)
  | ReplanTriggered (reason : string)
  | PlanCompleted (final_response : string) (cancelled failed : bool).

(** An [anyhow::Error]: its text and, if it is a [StepFailure], its class. *)
Record AttemptError : Type := mkAttemptError {
  text : string;
  failure : option ErrorClass;
}.

Definition STEP_BACKOFF : BackoffPolicy := mkPolicy 1000 9000 1000 u32_max 0.

Record RetryPolicy : Type := mkRetryPolicy {
  attempts_per_step : Z;
  backoff : BackoffPolicy;
}.

Definition retry_policy_new (max_attempts : Z) : RetryPolicy :=
  mkRetryPolicy max_attempts STEP_BACKOFF.

Definition class_of (err : AttemptError) : ErrorClass := default Transient (failure err).

(** In ms; [Duration::from_millis] and [as_millis] are the identity. *)
Definition retry_in (class : ErrorClass) (attempt : Z) (policy : RetryPolicy) : option Z :=
  if attempts_per_step policy <=? attempt then None
  else
    match next_delay class attempt None (backoff policy) f64_one with
    | Retry ms => Some ms
    | Park _ | Stop => None
    end.

Inductive StepOutcome : Type := StepOk (output : string) | Exhausted (error : string).

Inductive Act : Type :=
  | Called (attempt : Z)
  | Sent (ev : OrchestratorEvent)
  | Slept (ms : Z).

Section run.
Context (step : Step) (worker : Z → result AttemptError string) (policy : RetryPolicy).

(** After the loop. *)
Definition exhaust (last_err : string) : StepOutcome * list Act :=
(Exhausted last_err, [Sent (StepExhausted (id step) last_err)]).

(** [for attempt in 1..=max_attempts], [budget] attempts to go. *)
Fixpoint attempt_loop (budget : nat) (attempt : Z) (last_err : string) : StepOutcome * list Act :=
match budget with
| O => exhaust last_err
| S budget =>
    match worker attempt with
    | Ok output => (StepOk output, [Called attempt])
    | Err err =>
        let last_err := text err in
        let wait := retry_in (class_of err) attempt policy in
        let failed := Sent (StepFailed (id step) attempt last_err wait) in
        match wait with
        | Some delay =>
            let '(outcome, acts) := attempt_loop budget (attempt + 1) last_err in
            (outcome, Called attempt :: failed :: Slept delay :: acts)
        | None =>
            let '(outcome, acts) := exhaust last_err in
            (outcome, Called attempt :: failed :: acts)
        end
    end
end.

Definition run_step_with_retry : StepOutcome * list Act :=
attempt_loop (Z.to_nat (attempts_per_step policy)) 1 EmptyString.
End run.

(** * Properties *)

Definition retryable (c : ErrorClass) : bool :=
  match c with RateLimited | Timeout | Transient => true | _ => false end.

Lemma step_wait attempt : 1 ≤ attempt →
  jittered_exp attempt STEP_BACKOFF f64_one = Z.min 9000 (1000 * 2 ^ (attempt - 1)).
Proof.
  intros H. destruct (decide (5 ≤ attempt)) as [L|L].
  - assert (E : Z.max (Z.min (saturating_mul_u64 1000 (Z.shiftl 1 (Z.min (attempt - 1) 40))) 9000) 1000 = 9000).
    { rewrite Z.shiftl_1_l. pose proof (Z.pow_le_mono_r 2 4 (Z.min (attempt - 1) 40)).
      unfold saturating_mul_u64. ilia. }
    unfold jittered_exp, STEP_BACKOFF. cbn [base_ms cap_ms min_ms]. rewrite E.
    pose proof (Z.pow_le_mono_r 2 4 (attempt - 1)).
    transitivity 9000; [reflexivity|lia].
  - assert (attempt = 1 ∨ attempt = 2 ∨ attempt = 3 ∨ attempt = 4) as [->|[->|[->| ->]]] by lia;
      reflexivity.
Qed.

(** The doc's table of waits. *)
Definition wait_after (max attempt : Z) (err : AttemptError) : option Z :=
  if retryable (class_of err) && (attempt <? max)
  then Some (Z.min 9000 (1000 * 2 ^ (attempt - 1))) else None.

Lemma retry_in_table max attempt err : 1 ≤ attempt → max ≤ u32_max →
  retry_in (class_of err) attempt (retry_policy_new max) = wait_after max attempt err.
Proof.
  intros H M. unfold retry_in, wait_after, retry_policy_new. cbn [attempts_per_step backoff].
  destruct (Z.leb_spec max attempt) as [L|L].
  { destruct (Z.ltb_spec attempt max); [lia|]. by rewrite andb_false_r. }
  destruct (Z.ltb_spec attempt max) as [_|]; [|lia]. rewrite andb_true_r.
  unfold next_delay. rewrite Z.max_l by lia. change (Backoff.max_attempts STEP_BACKOFF) with u32_max.
  destruct (Z.ltb_spec u32_max attempt); [lia|]. rewrite step_wait by done.
  destruct (class_of err); try done. cbn [retryable negb default].
  rewrite bool_decide_true by done. cbn [negb]. change (cap_ms STEP_BACKOFF) with 9000.
  pose proof (Z.pow_pos_nonneg 2 (attempt - 1) ltac:(lia) ltac:(lia)).
  rewrite Z.max_l by lia. destruct (Z.ltb_spec 9000 (Z.min 9000 (1000 * 2 ^ (attempt - 1)))); [lia|done].
Qed.

(** Attempts [from] up to [n] (excluded) failed, each one followed by its wait;
    [acts] is what was done. *)
Inductive retried (step : Step) (worker : Z → result AttemptError string) (max : Z) :
    Z → Z → list Act → Prop :=
  | retried_none n : retried step worker max n n []
  | retried_one from n err ms acts :
      worker from = Err err →
      wait_after max from err = Some ms →
      retried step worker max (from + 1) n acts →
      retried step worker max from n
        (Called from :: Sent (StepFailed (id step) from (text err) (Some ms)) :: Slept ms :: acts).

(** What a run of the attempts from [from] on comes to. *)
Definition attempts_spec (step : Step) (worker : Z → result AttemptError string) (max from : Z)
    (r : StepOutcome * list Act) : Prop :=
  ∃ n done, retried step worker max from n done ∧ n ≤ max ∧
    match r.1 with
    | StepOk output => worker n = Ok output ∧ r.2 = done ++ [Called n]
    | Exhausted e =>
        ∃ err, worker n = Err err ∧ wait_after max n err = None ∧ e = text err ∧
          r.2 = done ++ [Called n; Sent (StepFailed (id step) n e None);
                         Sent (StepExhausted (id step) e)]
    end.

Lemma attempt_loop_spec step worker max budget from last :
  1 ≤ from → from + Z.of_nat budget = max → max ≤ u32_max →
  attempts_spec step worker max from
    (attempt_loop step worker (retry_policy_new max) (S budget) from last).
Proof.
  revert from last. induction budget as [|budget IH]; intros from last Hf E M; cbn [attempt_loop];
    (destruct (worker from) as [output|err] eqn:W;
      [exists from, []; split_and!; [apply retried_none|lia|done]|]);
    rewrite retry_in_table by done; destruct (wait_after max from err) as [ms|] eqn:Wt.
  - exfalso. unfold wait_after in Wt. destruct (Z.ltb_spec from max); [lia|].
    by rewrite andb_false_r in Wt.
  - exists from, []. split_and!; [apply retried_none|lia|]. by exists err.
  - specialize (IH (from + 1) (text err) ltac:(lia) ltac:(lia) M).
    cbn [attempt_loop] in IH.
    match goal with |- context [let '(_, _) := ?t in _] => destruct t as [o acts] end.
    destruct IH as (n & dn & R & L & Ho). exists n. eexists. split; [by econstructor|].
    split; [done|]. cbn [fst snd] in *. destruct o as [output|e].
    + destruct Ho as [? ->]. done.
    + destruct Ho as (err' & ? & ? & ? & ->). by exists err'.
  - exists from, []. split_and!; [apply retried_none|lia|]. by exists err.
Qed.

(** A step's attempts. With [1 ≤ max] attempts allowed, [run_step_with_retry]
    calls the worker for attempts 1, 2, … and stops at the first one that
    succeeds, whose output is the outcome, or the first one that gets no wait;
    a failed attempt gets the wait [min(9 s, 1 s · 2^(n-1))] if and only if it
    is not the last allowed and its error is transient, a timeout or a rate
    limit (an error of no class counts as transient). Each failure is announced
    with its wait before it is slept, and [StepExhausted] with the last error
    ends a failed run and no other. *)
Theorem attempts_follow_the_table step worker max :
  1 ≤ max ≤ u32_max →
  attempts_spec step worker max 1 (run_step_with_retry step worker (retry_policy_new max)).
Proof.
  intros [H M]. unfold run_step_with_retry. cbn [attempts_per_step retry_policy_new].
  replace (Z.to_nat max) with (S (Z.to_nat (max - 1))) by lia.
  apply attempt_loop_spec; lia.
Qed.

Definition flaky (attempt : Z) : result AttemptError string :=
  if attempt <=? 1 then Err (mkAttemptError "flaky" None)
  else Err (mkAttemptError "no agent" (Some Fatal)).

Lemma attempts_follow_the_table_witness :
  let step := mkStep "s1" "x" "g" [] None in
  let acts := [Called 1; Sent (StepFailed "s1" 1 "flaky" (Some 1000)); Slept 1000; Called 2;
               Sent (StepFailed "s1" 2 "no agent" None); Sent (StepExhausted "s1" "no agent")] in
  attempts_spec step flaky 3 1 (Exhausted "no agent", acts).
Proof.
  intros step acts.
  assert (E : run_step_with_retry step flaky (retry_policy_new 3) = (Exhausted "no agent", acts))
    by (vm_compute; reflexivity).
  rewrite <-E. apply attempts_follow_the_table. ilia.
Defined.
