(* ===== verification/Executor.v ===== *)
(** * The DAG executor ([src/src/application/orchestrator/executor.rs])

    [run_reusing] runs a plan's steps as their dependencies complete. The
    worker is a parameter: [worker plan step inputs n] is what attempt [n] of
    [run_step] returns. Tasks run concurrently; the order in which the executor
    sees them end is the schedule, a list of [Joined]s, each one naming the
    place of a task in [futures]. [bus] holds the executor's own events, the
    latest first; the tasks' [StepFailed] and [StepExhausted] events are those
    of [Retry.run_step_with_retry]. *)

From Stdlib Require Import Ascii String.
From S2P Require Import Prelude.
From S2P Require Import Text.
From S2P Require Import Bytes.
From S2P Require Import Untrusted.
From S2P Require Import Plan.
From S2P Require Import Retry.

#[local] Open Scope string_scope.
#[local] Open Scope list_scope.

(** Steps that finished: the step as it was planned, and its output. *)
Notation Finished := (gmap StepId (Step * string)).

Inductive ExecResult : Type :=
  | Done (final_output : string)
  | NeedsReplan (failed : StepId) (error : string) (finished : Finished).

(** Equal JSON values of two steps are equal fields: an absent [compose] is
    left out, a present one is an object. *)
Definition same_step (a b : Step) : bool := bool_decide (a = b).

(** [HashMap::contains_key]. *)
Definition contains_key (m : gmap StepId string) (x : StepId) : bool :=
  match m !! x with Some _ => true | None => false end.

(** ** What a step gets of its dependencies *)

Definition cap_input (dep : StepId) (body : string) (cap : option nat) : string :=
  match (c ← cap; truncate_at_boundary body c) with
  | None => body
  | Some (head, shown) =>
      (head +:+ nl +:+ nl +:+ "[step " +:+ dep +:+ " output cut — showing "
       +:+ show_N (Z.of_nat shown) +:+ " of " +:+ show_N (Z.of_nat (str_len body)) +:+ " chars]")%string
  end.

Definition render_dep (completed : gmap StepId string) (cap : option nat) (dep : StepId) : string :=
  match completed !! dep with
  | Some body =>
      (fence ("step:" +:+ dep) (cap_input dep body cap) +:+ nl +:+ nl)%string
  | None => EmptyString
  end.

Definition str_concat (parts : list string) : string := String.concat EmptyString parts.

Definition render_step_inputs (step : Step) (completed : gmap StepId string) (cap : option nat)
    : string :=
  str_concat (map (render_dep completed cap) (depends_on step)).

(** ** The reuse of an earlier attempt's outputs *)

Record Reused : Type := mkReused {
  r_outputs : gmap StepId string;
  r_events : list OrchestratorEvent;
  added : bool;
}.

Definition reuse_step (reuse : Finished) (st : Reused) (step : Step) : Reused :=
  if contains_key (r_outputs st) (id step) then st
  else
    match reuse !! id step with
    | None => st
    | Some (prev, output) =>
        if same_step prev step
           && forallb (contains_key (r_outputs st)) (depends_on step)
        then mkReused (<[id step := output]> (r_outputs st))
               (StepSucceeded (id step) output :: r_events st) true
        else st
    end.

Definition reuse_pass (reuse : Finished) (plan : Plan) (st : Reused) : Reused :=
  fold_left (reuse_step reuse) plan (mkReused (r_outputs st) (r_events st) false).

(** Every pass but the last adds a step of the plan: [S (length plan)] passes
    are enough. *)
Fixpoint reuse_loop (reuse : Finished) (plan : Plan) (fuel : nat) (st : Reused) : Reused :=
  match fuel with
  | O => st
  | S fuel =>
      let st := reuse_pass reuse plan st in
      if added st then reuse_loop reuse plan fuel st else st
  end.

Definition reuse_start (reuse : Finished) (plan : Plan) : Reused :=
  reuse_loop reuse plan (S (length plan)) (mkReused ∅ [] false).

(** The [finished] closure: of two steps of one id the later wins. *)
Definition finished (plan : Plan) (done : gmap StepId string) : Finished :=
  fold_left (λ m s, match done !! id s with Some o => <[id s := (s, o)]> m | None => m end) plan ∅.

(** ** The run *)

(** A spawned task: [run_step_with_retry] of this step and inputs. *)
Record Task : Type := mkTask {
  t_step : Step;
  t_inputs : string;
}.

Record Exec : Type := mkExec {
  completed_outputs : gmap StepId string;
  in_flight : gset StepId;
  futures : list Task;
  bus : list OrchestratorEvent;
}.

(** [futures.next()]: task [i] of [futures] ended, or panicked with this
    [JoinError] text. *)
Inductive Joined : Type := Ended (i : nat) | Panicked (i : nat) (err : string).

Definition joined_index (c : Joined) : nat := match c with Ended i | Panicked i _ => i end.

Definition stuck_error (s : StepId) : string :=
  ("step " +:+ s +:+ " never became ready: its depends_on names an unknown step or forms a cycle")%string.

Definition leaf_section (completed : gmap StepId string) (s : Step) : string :=
  ("### " +:+ id s +:+ " (" +:+ agent s +:+ ")" +:+ nl +:+ nl
   +:+ trim (default EmptyString (completed !! id s)))%string.

(** Nothing in flight and nothing ready. *)
Definition finish (plan : Plan) (completed : gmap StepId string) : ExecResult :=
  match List.find (λ s, negb (contains_key completed (id s))) plan with
  | Some stuck => NeedsReplan (id stuck) (stuck_error (id stuck)) (finished plan completed)
  | None =>
      match leaves plan with
      | [] => NeedsReplan "<no-leaf>" "plan has no steps" ∅
      | [leaf] => Done (default EmptyString (completed !! id leaf))
      | ls => Done (join (nl +:+ nl)%string (map (leaf_section completed) ls))
      end
  end.

Section run.
Context (worker : Plan → Step → string → Z → result AttemptError string).
Context (input_cap : Step → option nat).
Context (policy : RetryPolicy).

Definition dispatch_step (st : Exec) (step : Step) : Exec :=
if decide (id step ∈ in_flight st) then st
else
  mkExec (completed_outputs st) ({[id step]} ∪ in_flight st)
    (futures st
     ++ [mkTask step (render_step_inputs step (completed_outputs st) (input_cap step))])
    (StepStarted (id step) (agent step) :: bus st).

Definition dispatch (plan : Plan) (st : Exec) : Exec :=
fold_left dispatch_step (ready_steps plan (dom (completed_outputs st))) st.

Definition task_outcome (plan : Plan) (t : Task) : StepOutcome :=
(run_step_with_retry (t_step t) (worker plan (t_step t) (t_inputs t)) policy).1.

(** One turn of the [match futures.next().await], task [t] at place [i]: the
  next state, or the early return. *)
Definition on_join (plan : Plan) (st : Exec) (t : Task) (c : Joined) : Exec + ExecResult :=
match c with
| Ended i =>
    match task_outcome plan t with
    | StepOk output =>
        inl (mkExec (<[id (t_step t) := output]> (completed_outputs st))
               (in_flight st ∖ {[id (t_step t)]}) (delete i (futures st))
               (StepSucceeded (id (t_step t)) output :: bus st))
    | Exhausted err =>
        inr (NeedsReplan (id (t_step t)) err (finished plan (completed_outputs st)))
    end
| Panicked i err =>
    inr (NeedsReplan "<panicked>" ("task panic: " +:+ err)%string
           (finished plan (completed_outputs st)))
end.

(** The main [loop], with its events. No result: the schedule ends (or names
  no task) while a task is still running. *)
Fixpoint exec_loop (plan : Plan) (schedule : list Joined) (st : Exec)
  : option ExecResult * list OrchestratorEvent :=
let st := dispatch plan st in
match futures st with
| [] => (Some (finish plan (completed_outputs st)), bus st)
| _ =>
    match schedule with
    | [] => (None, bus st)
    | c :: schedule =>
        match futures st !! joined_index c with
        | None => (None, bus st)
        | Some t =>
            match on_join plan st t c with
            | inl st => exec_loop plan schedule st
            | inr r => (Some r, bus st)
            end
        end
    end
end.

Definition start (plan : Plan) (reuse : Finished) : Exec :=
let r := reuse_start reuse plan in mkExec (r_outputs r) ∅ [] (r_events r).

Definition run_reusing (plan : Plan) (reuse : Finished) (schedule : list Joined)
  : option ExecResult * list OrchestratorEvent :=
exec_loop plan schedule (start plan reuse).
End run.
