(* ===== verification/ExecutorProps.v ===== *)
(** * The executor runs every plan as planned

    [legal] says which logs of events a plan allows; [exec_inv] ties the
    executor's state to its log. From them: a step starts after its
    dependencies and once, every validated plan ends, and the reply does not
    depend on the order in which the tasks end. *)

From Stdlib Require Import Ascii String.
From S2P Require Import Prelude.
From S2P Require Import Text.
From S2P Require Import Bytes.
From S2P Require Import Untrusted.
From S2P Require Import Plan.
From S2P Require Import PlanProps.
From S2P Require Import Retry.
From S2P Require Import Executor.

#[local] Open Scope list_scope.
#[local] Open Scope nat_scope.

(** ** Reuse *)

(** A step whose outcome is kept: it is as it was, and so are its
    dependencies, all the way up. *)
Inductive reusable (plan : Plan) (reuse : Finished) : StepId → string → Prop :=
  | reusable_step s o :
      s ∈ plan → reuse !! id s = Some (s, o) →
      (∀ d, d ∈ depends_on s → ∃ o', reusable plan reuse d o') →
      reusable plan reuse (id s) o.

Lemma contains_key_spec m x : contains_key m x = true ↔ is_Some (m !! x).
Proof. unfold contains_key. destruct (m !! x); split; intros H; try done; by destruct H. Qed.

Lemma contains_key_none m x : contains_key m x = false ↔ m !! x = None.
Proof. unfold contains_key. by destruct (m !! x). Qed.

Lemma forallb_dom (m : gmap StepId string) (l : list StepId) :
  forallb (contains_key m) l = true ↔ ∀ d, d ∈ l → is_Some (m !! d).
Proof.
  rewrite forallb_forall. setoid_rewrite contains_key_spec. by setoid_rewrite <-list_elem_of_In.
Qed.

Section reuse.
Context (plan : Plan) (reuse : Finished).

Definition sound (m : gmap StepId string) : Prop :=
∀ x o, m !! x = Some o → reusable plan reuse x o.

(** The steps [reuse_step] would still add. *)
Definition pending (m : gmap StepId string) (s : Step) : Prop :=
m !! id s = None ∧ (∃ o, reuse !! id s = Some (s, o)) ∧ ∀ d, d ∈ depends_on s → is_Some (m !! d).

Lemma reuse_step_cases st s :
(reuse_step reuse st s = st ∧ ¬ pending (r_outputs st) s)
∨ (pending (r_outputs st) s ∧ ∃ o, reuse !! id s = Some (s, o) ∧
   reuse_step reuse st s
   = mkReused (<[id s := o]> (r_outputs st)) (StepSucceeded (id s) o :: r_events st) true).
Proof.
unfold reuse_step, pending. destruct (contains_key _ _) eqn:D.
{ left. split; [done|]. intros (N & _). apply contains_key_spec in D as [? ?]. congruence. }
apply contains_key_none in D. destruct (reuse !! id s) as [[prev o]|] eqn:R.
2:{ left. split; [done|]. by intros (_ & (? & ?) & _). }
unfold same_step. case_bool_decide as E; cbn [andb].
- subst prev. destruct (forallb _ _) eqn:F.
  + right. rewrite forallb_dom in F. split; [by eauto|]. by exists o.
  + left. split; [done|]. intros (_ & _ & H). rewrite <-forallb_dom in H. congruence.
- left. split; [done|]. intros (_ & (? & [= -> _]) & _). done.
Qed.

Lemma reuse_pass_spec l st :
sound (r_outputs st) → (∀ s, s ∈ l → s ∈ plan) →
let st' := fold_left (reuse_step reuse) l st in
sound (r_outputs st') ∧ r_outputs st ⊆ r_outputs st' ∧
(added st = true → added st' = true) ∧
(added st' = false → st' = st ∧ ∀ s, s ∈ l → ¬ pending (r_outputs st) s) ∧
(added st = false → added st' = true → size (r_outputs st) < size (r_outputs st')).
Proof.
revert st. induction l as [|s l IH]; intros st Hs Hl; cbn [fold_left].
{ cbn zeta. split_and!; [done..| |by intros ->]. intros _. split; [done|].
  intros s Hs'. by apply elem_of_nil in Hs'. }
assert (Hin : s ∈ plan) by (apply Hl; constructor).
destruct (reuse_step_cases st s) as [[-> N]|((Hn & _ & Hd) & o & Ho & ->)].
- destruct (IH st Hs) as (S1 & S2 & S3 & S4 & S5). { intros x Hx. apply Hl. by constructor. }
  cbn zeta. split_and!; [done..| |done]. intros F. apply S4 in F as [E F]. split; [done|].
  intros x [->|Hx]%elem_of_cons; auto.
- destruct (IH (mkReused (<[id s := o]> (r_outputs st)) (StepSucceeded (id s) o :: r_events st) true))
    as (S1 & S2 & S3 & S4 & S5); cbn [r_outputs] in *.
  { intros x o' [[<- <-]|[_ H]]%lookup_insert_Some; [|by apply Hs]. constructor; [done..|].
    intros d Hd'. apply Hd in Hd' as [o' Hd']. exists o'. by apply Hs. }
  { intros x Hx. apply Hl. by constructor. }
  specialize (S3 eq_refl). cbn zeta. split_and!; [done| |done| |].
  + etrans; [|done]. by apply insert_subseteq.
  + intros F. congruence.
  + intros _ _. apply map_subseteq_size in S2.
    rewrite map_size_insert_None in S2 by done. lia.
Qed.

Lemma sound_size m : NoDup (ids plan) → sound m → size m ≤ length plan.
Proof.
intros Hn Hs. rewrite <-size_dom. rewrite <-(length_map id plan).
etrans; [|apply (size_list_to_set_le (ids plan))]. apply subseteq_size.
intros x [o Hx]%elem_of_dom. apply Hs in Hx. apply (elem_of_list_to_set (C := gset StepId)).
destruct Hx. by apply id_in.
Qed.

Lemma reuse_loop_spec fuel st :
NoDup (ids plan) → sound (r_outputs st) → length plan < fuel + size (r_outputs st) →
let st' := reuse_loop reuse plan fuel st in
sound (r_outputs st') ∧ ∀ s, s ∈ plan → ¬ pending (r_outputs st') s.
Proof.
intros Hn. revert st. induction fuel as [|fuel IH]; intros st Hs L.
{ apply sound_size in Hs; [|done]. lia. }
cbn [reuse_loop]. unfold reuse_pass.
set (st0 := mkReused (r_outputs st) (r_events st) false).
destruct (reuse_pass_spec plan st0 Hs ltac:(done)) as (S1 & S2 & _ & S4 & S5). cbn zeta in *.
destruct (added (fold_left _ plan st0)) eqn:A.
- apply IH; [done|]. specialize (S5 eq_refl eq_refl). change (r_outputs st0) with (r_outputs st) in S5. lia.
- split; [done|]. destruct (S4 eq_refl) as [E F]. rewrite E. exact F.
Qed.

Lemma reuse_start_spec x o :
NoDup (ids plan) → r_outputs (reuse_start reuse plan) !! x = Some o ↔ reusable plan reuse x o.
Proof.
intros Hn. unfold reuse_start.
destruct (reuse_loop_spec (S (length plan)) (mkReused ∅ [] false) Hn) as [Hs Hp].
{ intros y o'. cbn. by rewrite lookup_empty. } { lia. }
cbn zeta in *. set (m := r_outputs _) in *. clearbody m. split; [apply Hs|].
intros H. revert x o H. fix IH 3. intros x o [s o' Hin Hr Hd].
destruct (m !! id s) as [o''|] eqn:E.
- apply Hs in E. inversion E as [s' ? Hin' Hr' _ Eid]; subst.
  rewrite Eid, Hr in Hr'. by injection Hr' as _ ->.
- exfalso. apply (Hp s Hin). split; [done|]. split; [by eauto|]. intros d Hd'.
  destruct (Hd d Hd') as [od Hod]. exists od. by apply IH.
Qed.
End reuse.

(** What each step of the loop keeps, the whole loop keeps. *)
Lemma reuse_start_ind (P : Reused → Prop) plan reuse :
  (∀ m evs a b, P (mkReused m evs a) → P (mkReused m evs b)) →
  (∀ st s, s ∈ plan → P st → P (reuse_step reuse st s)) →
  P (mkReused ∅ [] false) → P (reuse_start reuse plan).
Proof.
  intros Ha Hs. unfold reuse_start. generalize (mkReused ∅ [] false) as st.
  assert (Hp : ∀ st, P st → P (reuse_pass reuse plan st)).
  { intros st H. unfold reuse_pass.
    assert (H0 : P (mkReused (r_outputs st) (r_events st) false)).
    { destruct st as [m evs a]. by apply (Ha m evs a). }
    revert H0. generalize (mkReused (r_outputs st) (r_events st) false).
    assert (Hl : ∀ s, s ∈ plan → s ∈ plan) by done. revert Hl. generalize plan at 1 3 as l.
    induction l as [|s l IH]; intros Hl st' H0; cbn [fold_left]; [done|]. apply IH.
    - intros x Hx. apply Hl. by constructor.
    - apply Hs; [|done]. apply Hl. constructor. }
  generalize (S (length plan)) as fuel. induction fuel as [|fuel IH]; intros st H; [done|].
  cbn [reuse_loop]. destruct (added (reuse_pass reuse plan st)); [apply IH|]; by apply Hp.
Qed.

(** ** Legal logs (the latest event first) *)

Definition started (log : list OrchestratorEvent) (x : StepId) : Prop :=
  ∃ a, StepStarted x a ∈ log.
Definition succeeded (log : list OrchestratorEvent) (x : StepId) : Prop :=
  ∃ o, StepSucceeded x o ∈ log.

Inductive legal (plan : Plan) (reuse : Finished) : list OrchestratorEvent → Prop :=
  | legal_nil : legal plan reuse []
  | legal_reused s o log :
      legal plan reuse log → s ∈ plan → reuse !! id s = Some (s, o) →
      ¬ started log (id s) → ¬ succeeded log (id s) →
      (∀ d, d ∈ depends_on s → succeeded log d) →
      legal plan reuse (StepSucceeded (id s) o :: log)
  | legal_started s log :
      legal plan reuse log → s ∈ plan →
      ¬ started log (id s) → ¬ succeeded log (id s) →
      (∀ d, d ∈ depends_on s → succeeded log d) →
      legal plan reuse (StepStarted (id s) (agent s) :: log)
  | legal_succeeded s o log :
      legal plan reuse log → s ∈ plan →
      started log (id s) → ¬ succeeded log (id s) →
      legal plan reuse (StepSucceeded (id s) o :: log).

Lemma started_cons e log x :
  started (e :: log) x ↔ (∃ a, e = StepStarted x a) ∨ started log x.
Proof. unfold started. setoid_rewrite elem_of_cons. naive_solver. Qed.

Lemma succeeded_cons e log x :
  succeeded (e :: log) x ↔ (∃ o, e = StepSucceeded x o) ∨ succeeded log x.
Proof. unfold succeeded. setoid_rewrite elem_of_cons. naive_solver. Qed.

(** ** The state and its log *)

(** The log's successes are the completed outputs. *)
Definition log_outputs (log : list OrchestratorEvent) (m : gmap StepId string) : Prop :=
  ∀ x o, StepSucceeded x o ∈ log ↔ m !! x = Some o.

Lemma log_succeeded log m x : log_outputs log m → succeeded log x ↔ is_Some (m !! x).
Proof. intros H. unfold succeeded, is_Some. by setoid_rewrite (H x). Qed.

Lemma log_outputs_insert log m x o :
  log_outputs log m → m !! x = None → log_outputs (StepSucceeded x o :: log) (<[x := o]> m).
Proof.
  intros H Hx y o'. rewrite elem_of_cons, (H y o'), lookup_insert_Some.
  split; [intros [[= -> ->]|E]; [by left|right]|intros [[-> ->]|[_ E]]; auto].
  split; [by intros ->; congruence|done].
Qed.

Lemma log_outputs_started log m x a :
  log_outputs log m → log_outputs (StepStarted x a :: log) m.
Proof. intros H y o. rewrite elem_of_cons, (H y o). naive_solver. Qed.

Lemma reuse_start_legal plan reuse :
  let r := reuse_start reuse plan in
  legal plan reuse (r_events r) ∧ log_outputs (r_events r) (r_outputs r)
  ∧ ∀ x, ¬ started (r_events r) x.
Proof.
  apply (reuse_start_ind (λ r, legal plan reuse (r_events r)
    ∧ log_outputs (r_events r) (r_outputs r) ∧ ∀ x, ¬ started (r_events r) x)); [done| |].
  - intros st s Hs (L & O & N).
    destruct (reuse_step_cases reuse st s) as [[-> _]|((Hn & _ & Hd) & o & Ho & ->)]; [done|].
    cbn [r_events r_outputs]. split_and!.
    + apply legal_reused; [done..| |].
      * rewrite (log_succeeded _ _ _ O), Hn. apply is_Some_None.
      * intros d Hd'. rewrite (log_succeeded _ _ _ O). by apply Hd.
    + by apply log_outputs_insert.
    + intros x. rewrite started_cons. intros [[? ?]|?]; [done|by apply (N x)].
  - cbn. split_and!; [constructor| |].
    + intros x o. rewrite lookup_empty. split; [by intros ?%elem_of_nil|done].
    + intros x [a Ha]. by apply elem_of_nil in Ha.
Qed.

Lemma render_agree s m m' cap :
  (∀ d, d ∈ depends_on s → m !! d = m' !! d) →
  render_step_inputs s m cap = render_step_inputs s m' cap.
Proof.
  intros H. unfold render_step_inputs. f_equal. apply map_ext_in. intros d Hd.
  unfold render_dep. rewrite H; [done|]. by apply list_elem_of_In.
Qed.

Definition task_id (t : Task) : StepId := id (t_step t).

Section run.
Context (worker : Plan → Step → string → Z → result AttemptError string).
Context (input_cap : Step → option nat) (policy : RetryPolicy).
Context (plan : Plan) (reuse : Finished) (Hn : NoDup (ids plan)).

Definition inputs_of (m : gmap StepId string) (s : Step) : string :=
render_step_inputs s m (input_cap s).

Definition deps_done (m : gmap StepId string) (s : Step) : Prop :=
∀ d, d ∈ depends_on s → is_Some (m !! d).

(** What step [s] yields when it runs with its dependencies' outputs in [m]. *)
Definition step_result (m : gmap StepId string) (s : Step) : StepOutcome :=
task_outcome worker policy plan (mkTask s (inputs_of m s)).

(** An output is an earlier attempt's or the step's own. *)
Definition produced (m : gmap StepId string) (x : StepId) (o : string) : Prop :=
reusable plan reuse x o
∨ ∃ s, s ∈ plan ∧ id s = x ∧ (∀ o', ¬ reusable plan reuse x o') ∧ deps_done m s
    ∧ step_result m s = StepOk o.

Definition task_inv (m : gmap StepId string) (t : Task) : Prop :=
t_step t ∈ plan ∧ m !! task_id t = None ∧ deps_done m (t_step t)
∧ t_inputs t = inputs_of m (t_step t).

Record exec_inv (st : Exec) : Prop := {
ei_legal : legal plan reuse (bus st);
ei_log : log_outputs (bus st) (completed_outputs st);
ei_reused : ∀ x o, reusable plan reuse x o → completed_outputs st !! x = Some o;
ei_produced : ∀ x o, completed_outputs st !! x = Some o → produced (completed_outputs st) x o;
ei_tasks : ∀ t, t ∈ futures st → task_inv (completed_outputs st) t;
ei_nodup : NoDup (map task_id (futures st));
ei_flight : ∀ x, x ∈ in_flight st ↔ x ∈ map task_id (futures st);
ei_started : ∀ x, started (bus st) x → x ∈ in_flight st ∨ is_Some (completed_outputs st !! x);
ei_running : ∀ x, x ∈ in_flight st → started (bus st) x;
}.

Lemma inputs_insert m s x o : deps_done m s → m !! x = None →
inputs_of (<[x := o]> m) s = inputs_of m s.
Proof.
intros Hd Hx. apply render_agree. intros d Hd'. rewrite lookup_insert_ne; [done|].
intros ->. destruct (Hd d Hd') as [? ?]. congruence.
Qed.

Lemma deps_done_insert m s x o : deps_done m s → deps_done (<[x := o]> m) s.
Proof. intros Hd d Hd'. apply lookup_insert_is_Some'. right. by apply Hd. Qed.

Lemma task_inv_insert m t x o : task_inv m t → task_id t ≠ x → m !! x = None →
task_inv (<[x := o]> m) t.
Proof.
intros (H1 & H2 & H3 & H4) Hx Hm. split_and!; [done| | |].
- by rewrite lookup_insert_ne.
- by apply deps_done_insert.
- by rewrite inputs_insert.
Qed.

Lemma produced_insert m x o y o' : m !! y = None → produced m x o → produced (<[y := o']> m) x o.
Proof.
intros Hy [H|(s & Hs & E & Hr & Hd & Hw)]; [by left|right]. exists s.
split_and!; [done..|by apply deps_done_insert|]. unfold step_result. by rewrite inputs_insert.
Qed.

Lemma start_inv : exec_inv (start plan reuse).
Proof.
destruct (reuse_start_legal plan reuse) as (L & O & N).
pose proof (λ x o, reuse_start_spec plan reuse x o Hn) as R.
unfold start. constructor; cbn [completed_outputs in_flight futures bus].
- done.
- done.
- intros x o. by rewrite R.
- intros x o H. left. by apply R.
- intros t Ht. by apply elem_of_nil in Ht.
- constructor.
- intros x. cbn. set_solver.
- intros x Hx. by apply N in Hx.
- intros x Hx. set_solver.
Qed.

Lemma ready_spec m s : ready (dom m) s = true ↔ m !! id s = None ∧ deps_done m s.
Proof.
unfold ready, deps_done. rewrite andb_true_iff, bool_decide_eq_true, not_elem_of_dom.
rewrite forallb_forall. setoid_rewrite bool_decide_eq_true. setoid_rewrite elem_of_dom.
by setoid_rewrite <-list_elem_of_In.
Qed.

Lemma dispatch_step_inv st s :
exec_inv st → s ∈ plan → completed_outputs st !! id s = None → deps_done (completed_outputs st) s →
exec_inv (dispatch_step input_cap st s).
Proof.
intros I Hs Hc Hd. unfold dispatch_step. destruct (decide _) as [D|D]; [done|].
destruct I as [L O R P T N F S W].
constructor; cbn [completed_outputs in_flight futures bus]; [| |done|done| | | | |].
- apply legal_started; [done..| | |].
  + intros H. destruct (S _ H) as [?|[? ?]]; [done|congruence].
  + rewrite (log_succeeded _ _ _ O), Hc. apply is_Some_None.
  + intros d Hd'. rewrite (log_succeeded _ _ _ O). by apply Hd.
- by apply log_outputs_started.
- intros t [Ht|Ht]%elem_of_app; [by apply T|]. apply list_elem_of_singleton in Ht as ->. done.
- rewrite map_app. apply NoDup_app. split_and!; [done| |apply NoDup_singleton].
  intros x Hx Hx'. apply list_elem_of_singleton in Hx' as ->. apply D. by apply F.
- intros x. rewrite map_app, elem_of_app, elem_of_union, (F x), elem_of_singleton.
  cbn [map]. rewrite list_elem_of_singleton. unfold task_id at 2. cbn. naive_solver.
- intros x. rewrite started_cons. intros [[a [= <- <-]]|H]; [left; set_solver|].
  destruct (S x H); [left; set_solver|by right].
- intros x [Hx|Hx]%elem_of_union; rewrite started_cons; [left|right; by apply W].
  apply elem_of_singleton in Hx as ->. eauto.
Qed.

Lemma ready_in m s : s ∈ ready_steps plan (dom m) ↔ s ∈ plan ∧ m !! id s = None ∧ deps_done m s.
Proof. unfold ready_steps. by rewrite list_elem_of_In, List.filter_In, <-list_elem_of_In, ready_spec. Qed.

Lemma dispatch_step_keeps st s :
completed_outputs (dispatch_step input_cap st s) = completed_outputs st
∧ id s ∈ in_flight (dispatch_step input_cap st s)
∧ in_flight st ⊆ in_flight (dispatch_step input_cap st s).
Proof. unfold dispatch_step. destruct (decide _); cbn; [done|set_solver]. Qed.

Lemma dispatch_inv st :
exec_inv st →
let st' := dispatch input_cap plan st in
exec_inv st' ∧ completed_outputs st' = completed_outputs st
∧ ∀ s, s ∈ plan → completed_outputs st !! id s = None → deps_done (completed_outputs st) s →
    id s ∈ in_flight st'.
Proof.
intros I. unfold dispatch.
set (l := ready_steps plan (dom (completed_outputs st))).
assert (Hl : ∀ s, s ∈ l ↔ s ∈ plan ∧ completed_outputs st !! id s = None ∧ deps_done (completed_outputs st) s).
{ intros s. apply ready_in. }
assert (H : ∀ st0, exec_inv st0 → completed_outputs st0 = completed_outputs st →
  let st' := fold_left (dispatch_step input_cap) l st0 in
  exec_inv st' ∧ completed_outputs st' = completed_outputs st
  ∧ in_flight st0 ⊆ in_flight st' ∧ ∀ s, s ∈ l → id s ∈ in_flight st').
{ assert (Hl' : ∀ s, s ∈ l → s ∈ plan ∧ completed_outputs st !! id s = None
                        ∧ deps_done (completed_outputs st) s) by (intros; by apply Hl).
  clear Hl. clearbody l. induction l as [|s l IH]; intros st0 I0 E0; cbn [fold_left].
  { cbn zeta. split_and!; [done..|]. intros s Hs. by apply elem_of_nil in Hs. }
  destruct (Hl' s ltac:(constructor)) as (H1 & H2 & H3).
  destruct (dispatch_step_keeps st0 s) as (K1 & K2 & K3).
  destruct (IH ltac:(intros x Hx; apply Hl'; by constructor) (dispatch_step input_cap st0 s))
    as (J1 & J2 & J3 & J4).
  - apply dispatch_step_inv; rewrite ?E0; done.
  - by rewrite K1.
  - cbn zeta. split_and!; [done|done|set_solver|].
    intros x [->|Hx]%elem_of_cons; [set_solver|by apply J4]. }
destruct (H st I eq_refl) as (J1 & J2 & _ & J4). cbn zeta. split_and!; [done..|].
intros s Hs Hc Hd. apply J4. by apply Hl.
Qed.

Lemma join_ok_inv st i t o :
exec_inv st → futures st !! i = Some t → task_outcome worker policy plan t = StepOk o →
exec_inv (mkExec (<[task_id t := o]> (completed_outputs st)) (in_flight st ∖ {[task_id t]})
            (delete i (futures st)) (StepSucceeded (task_id t) o :: bus st)).
Proof.
intros [L O R P T N F S W] Ht Ho.
assert (Hin : t ∈ futures st) by (apply list_elem_of_lookup; eauto).
destruct (T t Hin) as (Hp & Hm & Hd & Hi).
assert (Hperm : futures st ≡ₚ t :: delete i (futures st)) by by apply delete_Permutation.
pose proof (Permutation_map task_id Hperm) as Hpm. cbn [map] in Hpm. rewrite Hpm in N.
apply NoDup_cons in N as [Nt N].
assert (Hf : task_id t ∈ in_flight st) by (apply F; rewrite Hpm; constructor).
constructor; cbn [completed_outputs in_flight futures bus].
- apply legal_succeeded; [done..|by apply W|].
  rewrite (log_succeeded _ _ _ O). unfold task_id in Hm. rewrite Hm. apply is_Some_None.
- by apply log_outputs_insert.
- intros x o' H. apply R in H. rewrite lookup_insert_ne; [done|]. intros <-. congruence.
- intros x o' [[<- <-]|[Hx H]]%lookup_insert_Some.
  + right. exists (t_step t). split_and!; [done|done| | |].
    * intros o'' H. apply R in H. congruence.
    * by apply deps_done_insert.
    * unfold step_result. rewrite inputs_insert, <-Hi by done. by destruct t.
  + apply produced_insert; [done|by apply P].
- intros t' Ht'. apply task_inv_insert; [| |done].
  + apply T. rewrite Hperm. by constructor.
  + intros E. apply Nt. rewrite <-E. by apply (list_elem_of_fmap_2 task_id).
- done.
- intros x. rewrite elem_of_difference, (F x), Hpm, elem_of_cons, elem_of_singleton.
  split; [naive_solver|]. intros H. split; [by right|]. by intros ->.
- intros x. rewrite started_cons. intros [[? ?]|H]; [done|].
  destruct (decide (x = task_id t)) as [->|Hx].
  + right. rewrite lookup_insert_eq. eauto.
  + destruct (S x H) as [?|[o' ?]]; [left; set_solver|right; exists o'].
    by rewrite lookup_insert_ne.
- intros x [Hx _]%elem_of_difference. rewrite started_cons. right. by apply W.
Qed.

Lemma dispatch_idle st :
exec_inv st → futures (dispatch input_cap plan st) = [] →
∀ s, s ∈ plan → completed_outputs st !! id s = None → ¬ deps_done (completed_outputs st) s.
Proof.
intros I E s Hs Hc Hd. destruct (dispatch_inv st I) as (I' & _ & J).
specialize (J s Hs Hc Hd). apply (ei_flight _ I') in J. rewrite E in J. by apply elem_of_nil in J.
Qed.

(** How a run ends: idle, or with a task that did not succeed. *)
Inductive ended (schedule : list Joined) (st : Exec) : ExecResult → Prop :=
| ended_idle :
    (∀ s, s ∈ plan → completed_outputs st !! id s = None → ¬ deps_done (completed_outputs st) s) →
    ended schedule st (finish plan (completed_outputs st))
| ended_exhausted s e :
    s ∈ plan → completed_outputs st !! id s = None → deps_done (completed_outputs st) s →
    step_result (completed_outputs st) s = Exhausted e →
    ended schedule st (NeedsReplan (id s) e (finished plan (completed_outputs st)))
| ended_panicked i err :
    Panicked i err ∈ schedule →
    ended schedule st (NeedsReplan "<panicked>" ("task panic: " +:+ err)%string
                (finished plan (completed_outputs st))).

Lemma ended_cons c schedule st r : ended schedule st r → ended (c :: schedule) st r.
Proof.
intros [H|s e H1 H2 H3 H4|i err H].
- by apply ended_idle.
- by eapply ended_exhausted.
- eapply ended_panicked. constructor. exact H.
Qed.

Lemma task_result st t : exec_inv st → t ∈ futures st →
t_step t ∈ plan ∧ completed_outputs st !! task_id t = None
∧ deps_done (completed_outputs st) (t_step t)
∧ task_outcome worker policy plan t = step_result (completed_outputs st) (t_step t).
Proof.
intros I Hin. destruct (ei_tasks _ I t Hin) as (H1 & H2 & H3 & H4).
split_and!; [done..|]. unfold step_result. rewrite <-H4. by destruct t.
Qed.

Lemma exec_loop_ends schedule st :
exec_inv st →
let '(r, log) := exec_loop worker input_cap policy plan schedule st in
∃ st', exec_inv st' ∧ bus st' = log ∧ ∀ r', r = Some r' → ended schedule st' r'.
Proof.
revert st. induction schedule as [|c schedule IH]; intros st I; cbn [exec_loop];
  destruct (dispatch_inv st I) as (I' & E' & _); pose proof (dispatch_idle st I) as Hidle;
  set (st1 := dispatch input_cap plan st) in *; clearbody st1;
  (destruct (futures st1) as [|t0 ts] eqn:Ef;
    [exists st1; split_and!; [done..|]; intros r' [= <-]; constructor; rewrite E';
     by apply Hidle|]); [by exists st1|].
rewrite <-Ef. destruct (futures st1 !! joined_index c) as [t|] eqn:Et; [|by exists st1].
assert (Hin : t ∈ futures st1) by (apply list_elem_of_lookup; eauto).
destruct (task_result st1 t I' Hin) as (H1 & H2 & H3 & H4).
destruct c as [i|i err]; cbn [joined_index on_join] in *.
- destruct (task_outcome worker policy plan t) as [o|e] eqn:Eo.
  + specialize (IH _ (join_ok_inv _ _ _ _ I' Et Eo)). unfold task_id in IH.
    destruct (exec_loop _ _ _ _ _ _) as [r log]. destruct IH as (st' & ? & ? & H).
    exists st'. split_and!; [done..|]. intros r' E. by apply ended_cons, H.
  + exists st1. split_and!; [done..|]. intros r' [= <-]. by apply ended_exhausted.
- exists st1. split_and!; [done..|]. intros r' [= <-]. eapply ended_panicked. constructor.
Qed.

(** ** Ends of a run *)

Lemma produced_in m x o : produced m x o → x ∈ ids plan.
Proof. intros [[s o' H _ _]|(s & H & <- & _)]; by apply id_in. Qed.

Lemma completed_dom st : exec_inv st → dom (completed_outputs st) ⊆ (list_to_set (ids plan) : gset StepId).
Proof.
intros I x [o Hx]%elem_of_dom. apply (elem_of_list_to_set (C := gset StepId)).
apply (ei_produced _ I) in Hx. by apply produced_in in Hx.
Qed.

Lemma completed_size st s :
exec_inv st → s ∈ plan → completed_outputs st !! id s = None →
size (completed_outputs st) < length plan.
Proof.
intros I Hs Hc. pose proof (completed_dom st I) as Hd.
apply not_elem_of_dom in Hc. rewrite <-(length_map id plan), <-size_dom.
eapply Nat.lt_le_trans; [|apply (size_list_to_set_le (ids plan))].
apply subset_size. split; [done|]. intros H. apply Hc, H.
apply (elem_of_list_to_set (C := gset StepId)). by apply id_in.
Qed.

(** Every place the schedule names is a running task's. *)
Fixpoint schedule_ok (schedule : list Joined) (st : Exec) : bool :=
let st := dispatch input_cap plan st in
match futures st, schedule with
| [], _ | _, [] => true
| _, c :: schedule =>
    match futures st !! joined_index c with
    | Some t =>
        match on_join worker policy plan st t c with
        | inl st => schedule_ok schedule st
        | inr _ => true
        end
    | None => false
    end
end.

Lemma exec_loop_total schedule st :
exec_inv st → schedule_ok schedule st = true →
length plan ≤ length schedule + size (completed_outputs st) →
is_Some (exec_loop worker input_cap policy plan schedule st).1.
Proof.
revert st. induction schedule as [|c schedule IH]; intros st I; cbn [exec_loop schedule_ok length];
  destruct (dispatch_inv st I) as (I' & E' & _); rewrite <-E';
  set (st1 := dispatch input_cap plan st) in *; clearbody st1;
  destruct (futures st1) as [|t0 ts] eqn:Ef; intros Hok L; [eauto| |eauto|].
- exfalso. assert (Hin : t0 ∈ futures st1) by (rewrite Ef; constructor).
  destruct (task_result st1 t0 I' Hin) as (H1 & H2 & _).
  pose proof (completed_size st1 _ I' H1 H2). lia.
- rewrite <-Ef in *. destruct (futures st1 !! joined_index c) as [t|] eqn:Et; [|done].
  destruct c as [i|i err]; cbn [joined_index on_join] in *; [|eauto].
  destruct (task_outcome worker policy plan t) as [o|e] eqn:Eo; [|eauto].
  assert (Hin : t ∈ futures st1) by (apply list_elem_of_lookup; eauto).
  destruct (task_result st1 t I' Hin) as (_ & H2 & _).
  apply IH; [exact (join_ok_inv _ _ _ _ I' Et Eo)|done|].
  cbn [completed_outputs]. unfold task_id in H2. rewrite map_size_insert_None by done. lia.
Qed.

Lemma idle_all_done m :
acyclic plan → deps_known plan →
(∀ s, s ∈ plan → m !! id s = None → ¬ deps_done m s) →
∀ s, s ∈ plan → is_Some (m !! id s).
Proof.
intros [rank Hr] Hk Hidle.
enough (∀ n s, rank (id s) < n → s ∈ plan → is_Some (m !! id s)) by eauto.
induction n as [|n IH]; intros s Hlt Hs; [lia|].
destruct (m !! id s) eqn:E; [done|]. exfalso. apply (Hidle s Hs E). intros d Hd.
pose proof (Hk s d Hs Hd) as Hin. apply list_elem_of_fmap in Hin as (s' & -> & Hs').
apply IH; [|done]. specialize (Hr s _ Hs Hd). lia.
Qed.

Lemma leaves_nonempty : acyclic plan → plan ≠ [] → leaves plan ≠ [].
Proof.
intros [rank Hr] Hne. 
assert (∃ s, s ∈ plan ∧ ∀ s', s' ∈ plan → rank (id s') ≤ rank (id s)) as (s & Hs & Hmax).
{ clear Hr. induction plan as [|s l IH]; [done|]. destruct l as [|s' l].
  - exists s. split; [constructor|]. intros x Hx. by apply list_elem_of_singleton in Hx as ->.
  - destruct IH as (m & Hm & H); [by inversion Hn|done|].
    destruct (Nat.le_gt_cases (rank (id m)) (rank (id s))).
    + exists s. split; [constructor|]. intros x [->|Hx]%elem_of_cons; [done|].
      specialize (H x Hx). lia.
    + exists m. split; [by constructor|]. intros x [->|Hx]%elem_of_cons; [lia|by apply H]. }
assert (Hin : s ∈ leaves plan).
{ unfold leaves. rewrite list_elem_of_In, List.filter_In, <-list_elem_of_In. split; [done|].
  apply negb_true_iff, bool_decide_eq_false. unfold has_dep_on.
  rewrite (elem_of_list_to_set (C := gset StepId)), list_elem_of_In, in_concat.
  setoid_rewrite in_map_iff. setoid_rewrite <-list_elem_of_In.
  intros (ds & (s' & <- & Hs') & Hd). specialize (Hr s' _ Hs' Hd). specialize (Hmax s' Hs'). lia. }
intros E. rewrite E in Hin. by apply elem_of_nil in Hin.
Qed.

(** The reply of a run whose every step has an output. *)
Definition reply (m : gmap StepId string) : string :=
match leaves plan with
| [leaf] => default EmptyString (m !! id leaf)
| ls => join (nl +:+ nl)%string (map (leaf_section m) ls)
end.

Lemma finish_done m :
(∀ s, s ∈ plan → is_Some (m !! id s)) → leaves plan ≠ [] → finish plan m = Done (reply m).
Proof.
intros Hall Hl. unfold finish, reply.
destruct (List.find _ plan) as [s|] eqn:E.
- apply find_some in E as [Hs E]. apply list_elem_of_In in Hs.
  apply negb_true_iff, contains_key_none in E. destruct (Hall s Hs). congruence.
- destruct (leaves plan) as [|a [|b l]]; done.
Qed.

Lemma finish_is_done m o :
finish plan m = Done o → (∀ s, s ∈ plan → is_Some (m !! id s)) ∧ o = reply m.
Proof.
unfold finish, reply. destruct (List.find _ plan) as [s|] eqn:E; [done|]. intros H. split.
- intros s Hs. apply list_elem_of_In in Hs. apply (find_none _ _ E) in Hs.
  by apply negb_false_iff, contains_key_spec in Hs.
- destruct (leaves plan) as [|a [|b l]]; [done|by injection H..].
Qed.

Lemma finished_spec m x s o :
finished plan m !! x = Some (s, o) ↔ s ∈ plan ∧ id s = x ∧ m !! x = Some o.
Proof.
unfold finished.
assert (H : ∀ l (acc : Finished), NoDup (ids l) → (∀ y, y ∈ ids l → acc !! y = None) →
  fold_left (λ m0 s0, match m !! id s0 with Some o0 => <[id s0 := (s0, o0)]> m0 | None => m0 end) l acc
    !! x = Some (s, o)
  ↔ acc !! x = Some (s, o) ∨ s ∈ l ∧ id s = x ∧ m !! x = Some o).
{ induction l as [|s0 l IH]; intros acc Hnd Hacc; cbn [fold_left].
  - split; [by left|]. intros [?|(?%elem_of_nil & _)]; done.
  - apply NoDup_cons in Hnd as [Hni Hnd]. rewrite IH; [|done|].
    + rewrite elem_of_cons. pose proof (Hacc (id s0) ltac:(constructor)) as Hs0.
      destruct (m !! id s0) as [o0|] eqn:E.
      * rewrite lookup_insert_Some. split.
        -- intros [[[<- [= <- <-]]|[_ ?]]|(?&?&?)]; eauto.
        -- intros [Ha|([->|Hs] & <- & Hm)]; [|left; left|by right].
           ++ left. right. split; [|done]. intros <-. congruence.
           ++ split; congruence.
      * split; [intros [?|(?&?&?)]; eauto|]. intros [?|([->|?] & <- & ?)]; [by left|congruence|eauto].
    + intros y Hy. destruct (m !! id s0); [rewrite lookup_insert_ne|].
      * apply Hacc. by constructor.
      * intros <-. done.
      * apply Hacc. by constructor. }
rewrite H; [|done|intros; apply lookup_empty]. rewrite lookup_empty. naive_solver.
Qed.

(** Two full sets of outputs agree. *)
Lemma outputs_agree m1 m2 :
acyclic plan → deps_known plan →
(∀ s, s ∈ plan → is_Some (m1 !! id s)) → (∀ s, s ∈ plan → is_Some (m2 !! id s)) →
(∀ x o, m1 !! x = Some o → produced m1 x o) → (∀ x o, m2 !! x = Some o → produced m2 x o) →
∀ s, s ∈ plan → m1 !! id s = m2 !! id s.
Proof.
intros [rank Hr] Hk A1 A2 P1 P2.
enough (∀ n s, rank (id s) < n → s ∈ plan → m1 !! id s = m2 !! id s) by eauto.
induction n as [|n IH]; intros s Hlt Hs; [lia|].
destruct (A1 s Hs) as [o1 E1], (A2 s Hs) as [o2 E2]. rewrite E1, E2. f_equal.
assert (Hfun : ∀ x a b, reusable plan reuse x a → reusable plan reuse x b → a = b).
{ intros x a b [s1 a' _ R1 _] H. inversion H as [s2 b' _ R2 _ Eid]; subst.
  congruence. }
destruct (P1 _ _ E1) as [H1|(s1 & Hs1 & Ei1 & N1 & D1 & R1)],
  (P2 _ _ E2) as [H2|(s2 & Hs2 & Ei2 & N2 & D2 & R2)].
- by eapply Hfun.
- by destruct (N2 o1).
- by destruct (N1 o2).
- assert (s1 = s) as -> by (by eapply plan_ids_inj).
  assert (s2 = s) as -> by (by eapply plan_ids_inj).
  enough (step_result m1 s = step_result m2 s) by congruence.
  unfold step_result, inputs_of. do 2 f_equal. apply render_agree. intros d Hd.
  pose proof (Hk s d Hs Hd) as Hin. apply list_elem_of_fmap in Hin as (s' & -> & Hs').
  apply IH; [|done]. specialize (Hr s _ Hs Hd). lia.
Qed.

Lemma reply_agree m1 m2 :
(∀ s, s ∈ plan → m1 !! id s = m2 !! id s) → reply m1 = reply m2.
Proof.
intros H. assert (Hl : ∀ s, s ∈ leaves plan → m1 !! id s = m2 !! id s).
{ intros s. unfold leaves. rewrite list_elem_of_In, List.filter_In, <-list_elem_of_In.
  intros [Hs _]. by apply H. }
assert (Hsec : ∀ l, (∀ s, s ∈ l → m1 !! id s = m2 !! id s) →
  map (leaf_section m1) l = map (leaf_section m2) l).
{ intros l Hl'. apply map_ext_in. intros s Hs%list_elem_of_In. unfold leaf_section. by rewrite Hl'. }
unfold reply. destruct (leaves plan) as [|a [|b l]]; [done| |by rewrite Hsec].
rewrite Hl; [done|constructor].
Qed.

End run.

(** ** The executor's contract *)

Section contract.
Context (worker : Plan → Step → string → Z → result AttemptError string).
Context (input_cap : Step → option nat) (policy : RetryPolicy).

Lemma run_ends plan reuse schedule r log :
NoDup (ids plan) → run_reusing worker input_cap policy plan reuse schedule = (r, log) →
∃ st, exec_inv worker input_cap policy plan reuse st ∧ bus st = log
  ∧ ∀ r', r = Some r' → ended worker input_cap policy plan schedule st r'.
Proof.
intros Hn E. pose proof (start_inv worker input_cap policy plan reuse Hn) as I.
apply (exec_loop_ends worker input_cap policy plan reuse Hn schedule) in I.
unfold run_reusing in E. by rewrite E in I.
Qed.

(** How a validated plan's run fails, and what it hands to the next attempt. *)
Lemma run_failed plan known reuse schedule failed error fin log :
runnable plan known →
run_reusing worker input_cap policy plan reuse schedule = (Some (NeedsReplan failed error fin), log) →
((∃ i err, Panicked i err ∈ schedule ∧ failed = "<panicked>" ∧ error = "task panic: " +:+ err)
 ∨ ∃ s inputs, s ∈ plan ∧ id s = failed ∧ ¬ succeeded log failed
     ∧ task_outcome worker policy plan (mkTask s inputs) = Exhausted error)%string
∧ ∀ x s o, fin !! x = Some (s, o) ↔ s ∈ plan ∧ id s = x ∧ StepSucceeded x o ∈ log.
Proof.
intros (Hne & Hn & _ & Hk & _ & Hac) H. apply run_ends in H as (st & I & <- & E); [|done].
specialize (E _ eq_refl). pose proof (ei_log _ _ _ _ _ _ I) as O.
assert (Hfin : ∀ x s o, finished plan (completed_outputs st) !! x = Some (s, o)
          ↔ s ∈ plan ∧ id s = x ∧ StepSucceeded x o ∈ bus st).
{ intros x s o. rewrite finished_spec by done. by rewrite (O x o). }
inversion E as [Hidle Hf|s e H1 H2 H3 H4|i err H]; subst; (split; [|done || idtac]).
- rewrite finish_done in Hf; [done|by apply idle_all_done|by apply leaves_nonempty].
- rewrite finish_done in Hf; [done|by apply idle_all_done|by apply leaves_nonempty].
- right. exists s. eexists. split_and!; [done|done| |exact H4].
  rewrite (log_succeeded _ _ _ O), H2. apply is_Some_None.
- left. by exists i, err.
Qed.

Lemma run_done plan reuse schedule o log :
NoDup (ids plan) → run_reusing worker input_cap policy plan reuse schedule = (Some (Done o), log) →
∃ m, log_outputs log m ∧ (∀ s, s ∈ plan → is_Some (m !! id s))
  ∧ (∀ x o, m !! x = Some o → produced worker input_cap policy plan reuse m x o) ∧ o = reply plan m.
Proof.
intros Hn H. apply run_ends in H as (st & I & <- & E); [|done]. exists (completed_outputs st).
specialize (E _ eq_refl). inversion E as [Hidle Hf| |]. apply finish_is_done in Hf as [Hall ->].
split_and!; [apply I|done|apply I|done].
Qed.

(** C22. A step starts once, and after its dependencies. Whatever the worker,
  the order in which tasks end and the earlier attempts, the events of a run
  of a plan with distinct ids, over or still waiting, are legal: [StepStarted] comes at most once
  per step, never for a step that succeeded, and after the success of every
  dependency of it; a step succeeds at most once, because it ran, or without
  having started because an earlier attempt finished the identical step and
  its dependencies succeeded before. *)
Theorem steps_start_once_after_their_dependencies plan reuse schedule r log :
NoDup (ids plan) → run_reusing worker input_cap policy plan reuse schedule = (r, log) →
legal plan reuse log.
Proof. intros Hn H. apply run_ends in H as (st & I & <- & _); [|done]. apply I. Qed.

(** C23. Every validated plan ends: as long as the schedule names running tasks,
  one completion per step is enough, the backstop for stuck steps is never
  reached, and the result is the reply unless a task panicked or the worker
  exhausted a step of the plan; then exactly the steps whose success was
  announced are handed to the next attempt, with their outputs. *)
Theorem validated_plans_end plan known reuse schedule :
runnable plan known →
schedule_ok worker input_cap policy plan schedule (start plan reuse) = true →
length plan ≤ length schedule →
∃ r log, run_reusing worker input_cap policy plan reuse schedule = (Some r, log) ∧
  match r with
  | Done _ => True
  | NeedsReplan failed error fin =>
      ((∃ i err, Panicked i err ∈ schedule ∧ failed = "<panicked>" ∧ error = "task panic: " +:+ err)
       ∨ ∃ s inputs, s ∈ plan ∧ id s = failed ∧ ¬ succeeded log failed
           ∧ task_outcome worker policy plan (mkTask s inputs) = Exhausted error)
      ∧ ∀ x s o, fin !! x = Some (s, o) ↔ s ∈ plan ∧ id s = x ∧ StepSucceeded x o ∈ log
  end%string.
Proof.
intros Hr Hok L. pose proof Hr as (_ & Hn & _).
pose proof (start_inv worker input_cap policy plan reuse Hn) as I0.
destruct (exec_loop_total worker input_cap policy plan reuse Hn schedule _ I0 Hok ltac:(lia))
  as [r E].
exists r, (run_reusing worker input_cap policy plan reuse schedule).2.
assert (E' : run_reusing worker input_cap policy plan reuse schedule
  = (Some r, (run_reusing worker input_cap policy plan reuse schedule).2)).
{ unfold run_reusing in *. destruct (exec_loop _ _ _ _ _ _) as [r' log]. cbn in *. by subst. }
split; [done|]. destruct r as [o|f e fin]; [done|]. by eapply run_failed.
Qed.

(** The reply is made of the leaves' outputs: when a run of a plan with
  distinct ids is done, every step has exactly one announced output, which an
  earlier attempt's reusable step had or which the worker returned for the
  step on the inputs rendered from its dependencies' outputs; and the reply
  is the one leaf's output, or the sections of the leaves in plan order. *)
Theorem reply_is_the_leaves_outputs plan reuse schedule o log :
NoDup (ids plan) → run_reusing worker input_cap policy plan reuse schedule = (Some (Done o), log) →
∃ m, (∀ s, s ∈ plan → ∃ out, ∀ out', StepSucceeded (id s) out' ∈ log ↔ out' = out)
  ∧ (∀ x out, StepSucceeded x out ∈ log ↔ m !! x = Some out)
  ∧ (∀ s out, s ∈ plan → m !! id s = Some out →
       reusable plan reuse (id s) out
       ∨ task_outcome worker policy plan (mkTask s (render_step_inputs s m (input_cap s))) = StepOk out)
  ∧ match leaves plan with
    | [leaf] => m !! id leaf = Some o
    | ls => o = join (nl +:+ nl)%string (map (leaf_section m) ls)
    end.
Proof.
intros Hn H. apply run_done in H as (m & O & A & P & ->); [|done]. exists m. split_and!.
- intros s Hs. destruct (A s Hs) as [out E]. exists out. intros out'. rewrite (O (id s) out'), E.
  split; [by intros [= ->]|by intros ->].
- exact O.
- intros s out Hs E. destruct (P _ _ E) as [?|(s' & Hs' & Ei & _ & _ & R)]; [by left|right].
  by assert (s' = s) as -> by (by eapply plan_ids_inj).
- unfold reply. destruct (leaves plan) as [|a [|b l]] eqn:El; [done| |done].
  assert (Ha : a ∈ plan).
  { assert (a ∈ leaves plan) as Ha by (rewrite El; constructor). revert Ha.
    unfold leaves. rewrite list_elem_of_In, List.filter_In, <-list_elem_of_In. by intros [? _]. }
  by destruct (A a Ha) as [out ->].
Qed.

(** C28. The reply does not depend on the race: two runs of the same validated
  plan with the same worker answers and the same earlier outputs that are
  done have the same reply, in whatever order their tasks ended. *)
Theorem reply_is_schedule_independent plan known reuse schedule1 schedule2 o1 o2 log1 log2 :
runnable plan known →
run_reusing worker input_cap policy plan reuse schedule1 = (Some (Done o1), log1) →
run_reusing worker input_cap policy plan reuse schedule2 = (Some (Done o2), log2) →
o1 = o2.
Proof.
intros (_ & Hn & _ & Hk & _ & Hac) H1 H2.
apply run_done in H1 as (m1 & _ & A1 & P1 & ->), H2 as (m2 & _ & A2 & P2 & ->); [|done..].
apply reply_agree. by eapply outputs_agree.
Qed.
End contract.

(** Work is reused if and only if it is the same work: before anything
    runs, exactly the steps that an earlier attempt finished in this very form
    (id, agent, goal, dependencies, composition), all of whose dependencies
    are reused too, have their output, and it is the earlier one; the passes
    reach that set. *)
Theorem reuse_is_the_same_work plan reuse x o :
  NoDup (ids plan) →
  r_outputs (reuse_start reuse plan) !! x = Some o ↔ reusable plan reuse x o.
Proof. intros Hn. by apply reuse_start_spec. Qed.

(** ** Samples *)

(** A worker that answers every step with its id and its inputs. *)
Definition echo (_ : Plan) (s : Step) (inputs : string) (_ : Z) : result AttemptError string :=
  Ok (id s +:+ "[" +:+ inputs +:+ "]")%string.

(** One that cannot run [search]. *)
Definition no_search (p : Plan) (s : Step) (inputs : string) (n : Z) : result AttemptError string :=
  if String.eqb (id s) "search" then Err (mkAttemptError "no agent" (Some Backoff.Fatal))
  else echo p s inputs n.

Definition whole (_ : Step) : option nat := None.
Definition twice : RetryPolicy := retry_policy_new 2.
Definition read_before : Finished :=
  {["read"%string := (mkStep "read" "fs" "read the notes" [] None, "notes"%string)]}.

Lemma sample_runnable : runnable sample_plan (Some ["fs"; "web"; "author"]%string).
Proof.
  destruct (validate_spec (λ l, l) sample_plan (Some ["fs"; "web"; "author"]%string)
    (λ l, reflexivity l)) as (r & E & H).
  assert (validate (λ l, l) sample_plan (Some ["fs"; "web"; "author"]%string) = Some (Ok tt)) as E'
    by (vm_compute; reflexivity).
  rewrite E' in E. by injection E as <-.
Qed.

Lemma sample_nodup : NoDup (ids sample_plan).
Proof. apply sample_runnable. Qed.

Definition search_first : list Joined := [Ended 1; Ended 0; Ended 0].
Definition read_first : list Joined := [Ended 0; Ended 0; Ended 0].

Definition reply_of (r : option ExecResult * list OrchestratorEvent) : string :=
  match r with (Some (Done o), _) => o | _ => EmptyString end.

Definition sample_log : list OrchestratorEvent :=
  snd (run_reusing echo whole twice sample_plan read_before [Ended 0; Ended 0]).

(** [read] is reused: it succeeds first and never starts. *)
Lemma steps_start_once_witness :
  legal sample_plan read_before sample_log ∧
  List.nth_error (rev sample_log) 0 = Some (StepSucceeded "read" "notes").
Proof.
  split; [|vm_compute; reflexivity].
  apply (steps_start_once_after_their_dependencies echo whole twice sample_plan read_before
    [Ended 0; Ended 0] (Some (Done (reply_of (run_reusing echo whole twice sample_plan read_before
      [Ended 0; Ended 0])))) sample_log sample_nodup).
  vm_compute. reflexivity.
Defined.

Lemma validated_plans_end_witness :
  ∃ r log, run_reusing no_search whole twice sample_plan ∅ read_first = (Some r, log).
Proof.
  destruct (validated_plans_end no_search whole twice sample_plan (Some ["fs"; "web"; "author"]%string)
    ∅ read_first sample_runnable) as (r & log & E & _).
  - vm_compute. reflexivity.
  - cbn. lia.
  - by exists r, log.
Defined.

Lemma reply_is_the_leaves_outputs_witness :
  ∃ m : gmap StepId string, m !! "write"%string = Some (reply_of (run_reusing echo whole twice sample_plan ∅ read_first))
    ∧ ∀ x out, StepSucceeded x out ∈ snd (run_reusing echo whole twice sample_plan ∅ read_first)
        ↔ m !! x = Some out.
Proof.
  destruct (reply_is_the_leaves_outputs echo whole twice sample_plan ∅ read_first
    (reply_of (run_reusing echo whole twice sample_plan ∅ read_first))
    (snd (run_reusing echo whole twice sample_plan ∅ read_first)) sample_nodup)
    as (m & _ & H2 & _ & H4).
  { vm_compute. reflexivity. }
  exists m. split; [exact H4|exact H2].
Defined.

Lemma reply_is_schedule_independent_witness :
  reply_of (run_reusing echo whole twice sample_plan ∅ read_first)
  = reply_of (run_reusing echo whole twice sample_plan ∅ search_first).
Proof.
  apply (reply_is_schedule_independent echo whole twice sample_plan (Some ["fs"; "web"; "author"]%string)
    ∅ read_first search_first _ _
    (snd (run_reusing echo whole twice sample_plan ∅ read_first))
    (snd (run_reusing echo whole twice sample_plan ∅ search_first)) sample_runnable);
    vm_compute; reflexivity.
Defined.

Lemma reuse_is_the_same_work_witness : reusable sample_plan read_before "read" "notes".
Proof.
  apply (proj1 (reuse_is_the_same_work sample_plan read_before "read" "notes" sample_nodup)).
  vm_compute. reflexivity.
Defined.
