(* ===== verification/Replan.v ===== *)
(** * The turn ([src/src/application/orchestrator/replan.rs], [mod.rs])

    [drive] asks the planner, runs its plan, and on a failure asks for another
    one, [max_replans] times at most; [handle] is a user's turn. The planner
    and the worker are parameters, as is what attempt [n] of the turn sees of
    them: [worker n], [known_agents n], the schedule [schedules n] of its
    completions. A call of the planner that is still awaited when the turn is
    dropped is [None]. A Rust panic is the outer [None] of [drive]. *)

From Stdlib Require Import Ascii String.
From S2P Require Import Prelude.
From S2P Require Import Text.
From S2P Require Import Plan.
From S2P Require Import Retry.
From S2P Require Import Executor.

#[local] Open Scope string_scope.
#[local] Open Scope list_scope.

Inductive PlannerVerdict : Type :=
  | Direct (response : string)
  | Planned (plan : Plan).

(** A call's answer: the verdict, or the text of its error. *)
Notation Answer := (result string PlannerVerdict).

Section turn.
Context (first_plan : string → option Answer).
Context (replan : nat → string → Plan → StepId → string → option Answer).
Context (worker : nat → Plan → Step → string → Z → result AttemptError string).
Context (known_agents : nat → option (list string)).
Context (input_cap : Step → option nat).
Context (policy : RetryPolicy).
Context (schedules : nat → list Joined).
Context (hash_order : nat → list (StepId * nat) → list (StepId * nat)).
(** [PlanError]'s [Display], whose [{:?}] escapes by Unicode tables. *)
Context (show_plan_error : PlanError → string).

(** Validate, then run. *)
Definition attempt (n : nat) (plan : Plan) (done : Finished)
  : option (option ExecResult * list OrchestratorEvent) :=
valid ← validate (hash_order n) plan (known_agents n);
match valid with
| Err e =>
    Some (Some (NeedsReplan (default "<plan>"%string (error_step e))
                  ("invalid plan: " +:+ show_plan_error e)%string ∅), [])
| Ok _ => Some (run_reusing (worker n) input_cap policy plan done (schedules n))
end.

(** The reply, if the turn ended, and its events, the latest first. *)
Notation Turn := (option string * list OrchestratorEvent)%type.

Definition complete (response : string) (failed : bool) (bus : list OrchestratorEvent) : Turn :=
(Some response, PlanCompleted response false failed :: bus).

Definition given_up (max_replans : nat) (error : string) : string :=
("Unable to complete the request after " +:+ show_N (Z.of_nat max_replans)
 +:+ " replans. Last error: " +:+ error)%string.

(** The [loop], attempt [n] next; [replans_left] runs down from [max_replans]. *)
Fixpoint drive_loop (user_message : string) (max_replans replans_left n : nat)
  (plan : Plan) (finished : Finished) (bus : list OrchestratorEvent) : option Turn :=
let bus := PlanCreated plan :: bus in
'(res, events) ← attempt n plan finished;
let bus := events ++ bus in
match res with
| None => Some (None, bus)
| Some (Done final_output) => Some (complete final_output false bus)
| Some (NeedsReplan failed error done) =>
    let finished := done ∪ finished in
    match replans_left with
    | O => Some (complete (given_up max_replans error) true bus)
    | S replans_left =>
        let bus := ReplanTriggered error :: bus in
        match replan n user_message plan failed error with
        | None => Some (None, bus)
        | Some (Ok (Direct response)) => Some (complete response false bus)
        | Some (Ok (Planned new_plan)) =>
            drive_loop user_message max_replans replans_left (S n) new_plan finished bus
        | Some (Err err) =>
            Some (complete ("System error: replan call failed: " +:+ err)%string true bus)
        end
    end
end.

Definition drive (user_message : string) (max_replans : nat) : option Turn :=
match first_plan user_message with
| None => Some (None, [])
| Some (Ok (Direct response)) => Some (complete response false [])
| Some (Ok (Planned plan)) => drive_loop user_message max_replans max_replans 0 plan ∅ []
| Some (Err err) =>
    Some (complete ("System error: orchestrator initial call failed: " +:+ err)%string true [])
end.

(** [Orchestrator::handle]: dropped before the reply, [Unfinished] reports the
  turn cancelled. *)
Definition handle (user_message : string) (max_replans : nat) : option Turn :=
'(reply, bus) ← drive user_message max_replans;
match reply with
| Some _ => Some (reply, bus)
| None => Some (None, PlanCompleted EmptyString true false :: bus)
end.
End turn.
