(* ===== verification/ReplanProps.v ===== *)
(** * A turn ends once, and only valid plans run

    [history] describes the events of the attempts of a turn; [handle] never
    panics, completes each turn exactly once, replans within its budget, and
    runs no plan that was not validated. *)

From Stdlib Require Import Ascii String.
From S2P Require Import Prelude.
From S2P Require Import Text.
From S2P Require Import Plan.
From S2P Require Import PlanProps.
From S2P Require Import Retry.
From S2P Require Import Executor.
From S2P Require Import ExecutorProps.
From S2P Require Import Replan.

#[local] Open Scope list_scope.
#[local] Open Scope nat_scope.

Definition is_completed (e : OrchestratorEvent) : bool :=
  match e with PlanCompleted _ _ _ => true | _ => false end.
Definition is_replan (e : OrchestratorEvent) : bool :=
  match e with ReplanTriggered _ => true | _ => false end.

(** The steps handed on after an attempt whose events are [evs]: those that
    succeeded in it, and else the earlier ones. *)
Definition handed_on (plan : Plan) (evs : list OrchestratorEvent) (before after : Finished) : Prop :=
  ∀ x s o, after !! x = Some (s, o) ↔
    (s ∈ plan ∧ id s = x ∧ StepSucceeded x o ∈ evs)
    ∨ (¬ (x ∈ ids plan ∧ succeeded evs x) ∧ before !! x = Some (s, o)).

(** [n] failed attempts: the finished steps after them and their events. *)
Inductive history (known : nat → option (list string)) : nat → Finished → list OrchestratorEvent → Prop :=
  | history_start : history known 0 ∅ []
  | history_attempt n before log plan evs after reason :
      history known n before log →
      (runnable plan (known n) ∧ legal plan before evs ∨ evs = [] ∧ ¬ runnable plan (known n)) →
      handed_on plan evs before after →
      history known (S n) after (ReplanTriggered reason :: evs ++ PlanCreated plan :: log).

(** The attempt that is running, or was when the turn ended. *)
Inductive current (known : nat → option (list string)) (max : nat) : list OrchestratorEvent → Prop :=
  | current_planning n d log : history known n d log → n ≤ max → current known max log
  | current_running n before log plan evs :
      history known n before log → n ≤ max →
      (runnable plan (known n) ∧ legal plan before evs ∨ evs = [] ∧ ¬ runnable plan (known n)) →
      current known max (evs ++ PlanCreated plan :: log).

Lemma legal_quiet plan reuse evs : legal plan reuse evs →
  List.filter is_completed evs = [] ∧ List.filter is_replan evs = [].
Proof. induction 1; [done|..]; cbn; naive_solver. Qed.

Section counts.
Context (known : nat → option (list string)).

Lemma history_counts n d log : history known n d log →
List.filter is_completed log = [] ∧ length (List.filter is_replan log) = n.
Proof.
induction 1 as [|n before log plan evs after reason _ [IH1 IH2] Hev _]; [done|].
assert (List.filter is_completed evs = [] ∧ List.filter is_replan evs = []) as [E1 E2].
{ destruct Hev as [[_ L]|[-> _]]; [by eapply legal_quiet|done]. }
cbn [List.filter is_completed is_replan]. rewrite !List.filter_app, E1, E2.
cbn [app List.filter is_completed is_replan length]. by rewrite IH1, IH2.
Qed.

Lemma current_counts max log : current known max log →
List.filter is_completed log = [] ∧ length (List.filter is_replan log) ≤ max.
Proof.
intros [n d log' H L|n before log' plan evs H L Hev]; apply history_counts in H as [H1 H2].
- split; [done|lia].
- assert (List.filter is_completed evs = [] ∧ List.filter is_replan evs = []) as [E1 E2].
  { destruct Hev as [[_ Hl]|[-> _]]; [by eapply legal_quiet|done]. }
  rewrite !List.filter_app, E1, E2. cbn. rewrite H1, H2. split; [done|lia].
Qed.
End counts.

Section turn.
Context (first_plan : string → option Answer).
Context (replan : nat → string → Plan → StepId → string → option Answer).
Context (worker : nat → Plan → Step → string → Z → result AttemptError string).
Context (known_agents : nat → option (list string)).
Context (input_cap : Step → option nat) (policy : RetryPolicy) (schedules : nat → list Joined).
Context (hash_order : nat → list (StepId * nat) → list (StepId * nat)).
Context (show_plan_error : PlanError → string).
Context (Hh : ∀ n, any_order (hash_order n)).

Lemma attempt_spec n plan before :
∃ r evs,
  attempt worker known_agents input_cap policy schedules hash_order show_plan_error n plan before
    = Some (r, evs)
  ∧ (runnable plan (known_agents n) ∧ legal plan before evs
     ∨ evs = [] ∧ ¬ runnable plan (known_agents n))
  ∧ ∀ failed error fin, r = Some (NeedsReplan failed error fin) →
      handed_on plan evs before (fin ∪ before).
Proof.
unfold attempt.
destruct (validate_spec (hash_order n) plan (known_agents n) (Hh n)) as (v & -> & Hv).
cbn [mbind option_bind]. destruct v as [u|e].
- destruct (run_reusing _ _ _ _ _ _) as [r evs] eqn:E. exists r, evs. split; [done|].
  pose proof Hv as (_ & Hn & _). split.
  + left. split; [done|]. apply run_ends in E as (st & I & <- & _); [apply I|done].
  + intros f e fin ->. eapply run_failed in E as [_ Hfin]; [|done]. intros x s o.
    rewrite lookup_union_Some_raw, (Hfin x s o). apply or_iff_compat_l.
    assert (fin !! x = None ↔ ¬ (x ∈ ids plan ∧ succeeded evs x)) as ->; [|done].
    rewrite eq_None_not_Some. apply not_iff_compat. split.
    * intros [[s' o'] Hx]. apply Hfin in Hx as (Hs & <- & Ho). split; [by apply id_in|by exists o'].
    * intros [Hx [o' Ho]]. apply list_elem_of_fmap in Hx as (s' & -> & Hs).
      exists (s', o'). by apply Hfin.
- eexists _, []. split; [done|]. split; [right; split; [done|by eapply refusal_not_runnable]|].
  intros f e' fin [= _ _ <-] x s o. rewrite map_empty_union. split.
  + intros H. right. split; [|done]. intros [_ [o' Ho]]. by apply elem_of_nil in Ho.
  + intros [(_ & _ & H)|[_ H]]; [by apply elem_of_nil in H|done].
Qed.

(** When a turn's reply is a system error. *)
Definition failed_turn (user : string) (max : nat) (log : list OrchestratorEvent) : Prop :=
(∃ err, first_plan user = Some (Err err))
∨ (∃ n plan f e err, replan n user plan f e = Some (Err err))
∨ length (List.filter is_replan log) = max.

Definition turn_ends (user : string) (max : nat) (r : option (option string * list OrchestratorEvent))
  : Prop :=
(∃ log, r = Some (None, log) ∧ current known_agents max log)
∨ ∃ response failed log, r = Some (Some response, PlanCompleted response false failed :: log)
    ∧ current known_agents max log ∧ (failed = true → failed_turn user max log).

Lemma drive_loop_spec user max budget n plan before log :
n + budget = max → history known_agents n before log →
turn_ends user max
  (drive_loop replan worker known_agents input_cap policy schedules hash_order show_plan_error
     user max budget n plan before log).
Proof.
revert n plan before log. induction budget as [|budget IH]; intros n plan before log E H;
  cbn [drive_loop]; destruct (attempt_spec n plan before) as (r & evs & -> & Hev & Hf);
  cbn [mbind option_bind];
  (assert (Hc : current known_agents max (evs ++ PlanCreated plan :: log));
    [eapply current_running; [done|lia|done]|]);
  (destruct r as [[o|f e fin]|];
    [right; exists o, false, (evs ++ PlanCreated plan :: log); done| |left; by eexists]).
- right. eexists _, true, _. split; [done|]. split; [done|]. intros _. do 2 right.
  apply history_counts in H as [_ H].
  assert (List.filter is_replan evs = []) as E2.
  { destruct Hev as [[_ L]|[-> _]]; [by eapply legal_quiet|done]. }
  rewrite List.filter_app, E2. cbn. lia.
- assert (H' : history known_agents (S n) (fin ∪ before)
            (ReplanTriggered e :: evs ++ PlanCreated plan :: log)).
  { eapply history_attempt; [done|done|by eapply Hf]. }
  assert (Hp : current known_agents max (ReplanTriggered e :: evs ++ PlanCreated plan :: log)).
  { eapply current_planning; [done|lia]. }
  destruct (replan n user plan f e) as [[[response|plan']|err]|] eqn:Er.
  + right. exists response, false. eexists. done.
  + apply IH; [lia|done].
  + right. eexists _, true, _. split; [done|]. split; [done|]. intros _. right. left.
    by exists n, plan, f, e, err.
  + left. by eexists.
Qed.

Lemma drive_spec user max :
turn_ends user max
  (drive first_plan replan worker known_agents input_cap policy schedules hash_order show_plan_error
     user max).
Proof.
assert (H0 : current known_agents max []) by (eapply current_planning; [constructor|lia]).
unfold drive. destruct (first_plan user) as [[[response|plan]|err]|] eqn:E.
- right. by exists response, false, [].
- apply drive_loop_spec; [done|constructor].
- right. eexists _, true, []. split; [done|]. split; [done|]. intros _. left. by exists err.
- left. by exists [].
Qed.
End turn.

Section contract.
Context (first_plan : string → option Answer).
Context (replan : nat → string → Plan → StepId → string → option Answer).
Context (worker : nat → Plan → Step → string → Z → result AttemptError string).
Context (known_agents : nat → option (list string)).
Context (input_cap : Step → option nat) (policy : RetryPolicy) (schedules : nat → list Joined).
Context (hash_order : nat → list (StepId * nat) → list (StepId * nat)).
Context (show_plan_error : PlanError → string).

Notation run := (handle first_plan replan worker known_agents input_cap policy schedules hash_order
show_plan_error).

(** C24. Every turn is completed exactly once. Whatever the planner and the
  worker answer, and wherever the turn is dropped, [handle] does not panic;
  its last event is the only [PlanCompleted]: of the reply, or cancelled if
  the turn was dropped before one; it replans [max_replans] times at most;
  and it calls the reply failed only if a planner call erred or all the
  replans were used up. *)
Theorem every_turn_is_completed_once user max :
(∀ n, any_order (hash_order n)) →
∃ reply response cancelled failed log,
  run user max = Some (reply, PlanCompleted response cancelled failed :: log)
  ∧ reply = (if cancelled then None else Some response)
  ∧ (cancelled = true → failed = false)
  ∧ List.filter is_completed log = []
  ∧ length (List.filter is_replan log) ≤ max
  ∧ (failed = true → failed_turn first_plan replan user max log).
Proof.
intros Hh. unfold handle.
destruct (drive_spec first_plan replan worker known_agents input_cap policy schedules hash_order
  show_plan_error Hh user max) as [(log & -> & Hc)|(response & failed & log & -> & Hc & Hf)];
  cbn [mbind option_bind]; apply current_counts in Hc as [C1 C2].
- by exists None, EmptyString, true, false, log.
- by exists (Some response), response, false, failed, log.
Qed.

(** Only validated plans run, and finished work is not paid for twice: the
  events of a turn, but for the last, are those of its attempts in order,
  one [PlanCreated] each and a [ReplanTriggered] between them; an attempt
  whose plan cannot run has no other event; one that can has the legal
  events of a run that starts from what the attempts before it finished: the
  latest output of each step that ever succeeded, with the step as it was
  planned. *)
Theorem only_validated_plans_run user max :
(∀ n, any_order (hash_order n)) →
∃ reply last log, run user max = Some (reply, last :: log) ∧ current known_agents max log.
Proof.
intros Hh. unfold handle.
destruct (drive_spec first_plan replan worker known_agents input_cap policy schedules hash_order
  show_plan_error Hh user max) as [(log & -> & Hc)|(response & failed & log & -> & Hc & Hf)];
  cbn [mbind option_bind]; by eexists _, _, log.
Qed.
End contract.

(** ** Sample: a plan with an unknown agent, then one that runs *)

Definition sample_first (_ : string) : option Answer :=
  Some (Ok (Planned [mkStep "write" "poet" "write it up" [] None])).
Definition sample_replan (_ : nat) (_ : string) (_ : Plan) (_ : StepId) (_ : string) : option Answer :=
  Some (Ok (Planned sample_plan)).
Definition sample_known (_ : nat) : option (list string) := Some ["fs"; "web"; "author"]%string.
Definition sample_show (_ : PlanError) : string := "unknown agent".

Definition sample_turn : option (option string * list OrchestratorEvent) :=
  handle sample_first sample_replan (λ _, echo) sample_known whole twice (λ _, search_first)
    (λ _ l, l) sample_show "go" 2.

Lemma every_turn_is_completed_once_witness :
  ∃ reply response cancelled failed log,
    sample_turn = Some (reply, PlanCompleted response cancelled failed :: log)
    ∧ length (List.filter is_replan log) ≤ 2.
Proof.
  destruct (every_turn_is_completed_once sample_first sample_replan (λ _, echo) sample_known whole twice
    (λ _, search_first) (λ _ l, l) sample_show "go" 2 (λ _ l, reflexivity l))
    as (r & a & c & f & log & H1 & _ & _ & _ & H2 & _).
  exists r, a, c, f, log. exact (conj H1 H2).
Defined.

Lemma only_validated_plans_run_witness :
  current sample_known 2 (match sample_turn with Some (_, _ :: log) => log | _ => [] end)
  ∧ match sample_turn with Some (Some _, _) => true | _ => false end = true.
Proof.
  split; [|vm_compute; reflexivity].
  destruct (only_validated_plans_run sample_first sample_replan (λ _, echo) sample_known whole twice
    (λ _, search_first) (λ _ l, l) sample_show "go" 2 (λ _ l, reflexivity l)) as (r & l & log & H & Hc).
  unfold sample_turn. rewrite H. exact Hc.
Defined.
